(* ===== verification/_CoqProject ===== *)
-Q . S2P
Prelude.v
Text.v
Scan.v
Version.v
Hex.v
Rule.v
Contract.v
Bytes.v
Validate.v
WellFormed.v
Compile.v
CompileProps.v
Contradiction.v
ContradictionProps.v
RuleWire.v
State.v
Window.v
Story.v
Digest.v
Detected.v
Sample.v
Keeper.v
KeeperInv.v
KeeperProps.v
Engine.v
EngineProps.v
EngineBatch.v
SampleEngine.v
Snapshot.v
Triage.v
Alert.v
Incident.v
Agent.v
Trust.v
Catalogue.v
Releases.v
Rollout.v
RolloutStore.v
RolloutSystem.v
Authz.v
Session.v
Hunt.v
HuntStore.v
HuntProps.v
HuntStatement.v
Limiter.v
Event.v
Canonical.v
Ingest.v
SigmaCondition.v
SigmaGrammar.v
SigmaValue.v
SigmaMeaning.v
SigmaTranslate.v
Inventory.v
Ecosystem.v
Advisory.v
Importer.v
ImporterProps.v
Assessment.v
Policy.v
PolicyProps.v
Status.v
SampleUpdates.v
Listing.v
HuntPlane.v
SampleHunt.v
SampleRulesets.v
SampleInventory.v
Trail.v
AlertStore.v
AlertStoreProps.v
IncidentStore.v
AgentStore.v
Announce.v
Guard.v
AgentRoutes.v
AlertWriter.v
SampleStores.v
SampleAgents.v
