(* ===== verification/Prelude.v ===== *)
(** * Seagull v2: a verification library

    Seagull is a security platform: agents send events, a gateway admits them to a
    backbone, an analysis engine decides them against rules and publishes
    detections, detections become alerts and incidents people work, hunters query
    what is stored, and advisories are followed for the packages assets hold. This
    library models the decision core of its Go backend (src/internal) as executable
    definitions and proves what makes it correct. Every definition that models code
    keeps the name the code has, or that name with its package in front where two
    packages share one.

    ** Parts of the program, and the files that model them

    - Rules (detection): Rule.v holds the rule language of rule.go, expression.go,
      count.go and sequence.go; Contract.v the vocabulary field.go builds from the
      event contract; Validate.v validate.go; Compile.v compile.go, the deciding of
      decide.go and the comparisons of contradiction.go; Contradiction.v
      contradiction.go; Detected.v detected.go; RuleWire.v what Compile makes of a
      whole rule; Bytes.v the messages and bytes they are read from, and UTF-8 as
      package utf8 reads and writes it, with strings.Map.
    - State (detectionstate): State.v holds bounds.go, observation.go,
      partitioning.go and one key's window; Keeper.v the store of keeper.go and
      tenancy.go; Digest.v the names key.go and detected.go hash.
    - Analysis (analysis): Story.v the reading of a sequence out of a window
      (sequence.go); Engine.v count.go, sequence.go, detect.go, engine.go and
      capacity.go, over the interface [Store] that stands for detectionstate.Store;
      Canonical.v normalize.go and route.go.
    - Rulesets (ruleset): RuleWire.v rules on the wire (rule.go); Snapshot.v
      snapshot.go and registry.go; Catalogue.v version.go and catalogue.go.
    - Sigma (sigma): SigmaCondition.v the tokens and parser of condition.go;
      SigmaValue.v document.go, taxonomy.go and value.go; SigmaTranslate.v
      selection.go and translate.go, from a YAML node to a rule.
    - Work: Triage.v the states and moves alerts and incidents share (alert and
      incident, state.go and move.go); Alert.v alert/raise.go, key.go, tuning.go,
      fold.go and detection/held.go; Incident.v incident/raise.go and
      confidence.go. Their stores: Listing.v the pages and cursors every listing
      shares; Trail.v the table of transitions; AlertStore.v postgres/alerts.go and
      fold.go; IncidentStore.v postgres/incidents.go.
    - Agents: Agent.v (agent: lifecycle, registration, certificates, roster, and the
      names of agentidentity); AgentStore.v the registry of postgres/agents.go and
      certificates.go; Announce.v control/admissions.go, the registry, the admission
      log and what is on its way between them as one relation of steps. Their updates (agentupdate): Version.v version.go;
      Trust.v update.go and root.go; Releases.v catalog.go and publish.go; Rollout.v
      rollout.go and progress.go; RolloutStore.v the transactions of
      postgres/rollouts.go and the evaluator of control/rollouts.go.
    - Access (authz): Authz.v permissions, roles, policies and grants; Session.v
      session.go. platform/ratelimit: Limiter.v.
    - The control plane (control): Guard.v sessions.go, the guard of guard.go and
      http.go, filters.go, and the handlers of alerts.go and incidents.go over their
      stores; AgentRoutes.v the signing of package pki and the handlers of agents.go,
      certificates.go, renewal.go and liveness.go over the registry.
    - Hunting (hunt): Hunt.v the vocabulary, compiler, scopes, cursors and capacity;
      HuntStore.v the statement clickhouse/hunt.go writes of a query; HuntPlane.v
      the hunter and its HTTP surface.
    - Events and ingest: Event.v event/validate.go and limits.go; Ingest.v the
      admission, capacity, currency, weighing and gateway of ingest.
    - Assets and advisories: Inventory.v (inventory: records, their validation,
      identities and instances); Ecosystem.v vulnerability/ecosystem.go; Advisory.v
      vulnerability/validate.go and osv/translate.go; Importer.v
      advisoryfeed/importer.go.
    - What agents are told and tell: Policy.v (agentpolicy, and what
      postgres/policies.go publishes and serves); Assessment.v (assessment: the
      checklist a policy carries and the results read back); Status.v (agentstatus).

    Prelude.v (this file), Text.v, Scan.v and Hex.v hold what all of them
    share: results for [(value, error)], lengths, instants and durations, machine
    widths, loops that stop at the first refusal, sorting and compacting of strings,
    the functions of package strings, the regular expressions the code matches names
    with, and the tactics of the library. The files named Sample apply the theorems
    at concrete contracts, events, rules, documents and stores.

    ** How state and effects are modelled

    An operation that mutates takes the state and returns it with its answer;
    an error is a value of [result] or of [option], with one constructor per
    sentinel of the package. A mutex makes the operations it guards atomic, and what
    several callers do is a list of such steps, or an inductive relation of runs
    ([system_step] of rollouts, [follows_on] of an importer's goroutines and the log
    they write). Time
    is an integer of nanoseconds after Go's zero instant, [Sub] saturates as Go's
    does, and [uint8], [uint32], [uint64] and [int64] wrap where the code computes at
    those widths. A map of the source is a [gmap] and a set a [gset]; where the code
    ranges over a map, either the order is immaterial and the definition folds over
    it, or the code sorts the keys and so does the definition. A context is a
    function of how often it was asked whether it is done. Answers that goroutines
    race for are a list in the order they arrive, whatever it is.

    ** Parameters

    What is not in the repository is a parameter with the laws used of it: the
    event contract's descriptors ([Contract], [ContractLaws]), messages read by
    reflection ([Messages], [MessageLaws]), the generated event's getters ([Events],
    [EventLaws]), what generated code declares of events, inventories, advisories,
    policies, checklists and reports ([EventContract], [InventoryContract],
    [AdvisoryContract], [AdvisoryLaws], [PolicyContract], [AssessmentContract],
    [StatusContract], [ClassValues], [ClassLaws]), how Postgres collates text, keeps
    an instant and chooses among equal rows ([Postgres], [PostgresLaws]), PEM and DER ([PolicyLibraries]),
    crypto/x509 ([X509], [X509Laws]), the messages of the control plane ([AlertMessages], [AgentMessages]), the
    writing of values ([Formats], [FormatLaws]), the wire format ([Protowire],
    [HuntWire]), the lower case of a letter
    beyond ASCII ([UnicodeCase], [UnicodeLaws]), events read by reflection as the
    typed events they are ([ReflectedEvents]), YAML's decoder
    ([SigmaLibraries]), net/url.Parse, strconv.Unquote, netip, RFC 3339 times,
    x/time/rate's bucket ([RateLimiter]), ECDSA, HMAC and SHA-256. Nothing is
    assumed of SHA-256 but, where a theorem names it, that it does not collide on
    the bytes at hand; theorems about names are otherwise about the bytes hashed.
    container/heap and container/list are modelled by their contracts.

    ** What the theorems show

    - Window.v, Story.v: one key's window equals a sort-filter-take reference of
      everything delivered, in any order and repetition; a sequence is found once
      and the same number of times in any delivery with distinct event times.
    - KeeperInv.v, KeeperProps.v: every reachable store keeps its bounds, exact
      counts and queues; tenants do not disturb each other; only past keys are given
      up; reclaiming ends; a key within quota is opened.
    - Digest.v: what keys and detections hash tells them apart, and in which case a
      key does not.
    - WellFormed.v, CompileProps.v, ContradictionProps.v:
      validation accepts exactly the well-formed rules; a compiled rule says what is
      written, each literal standing for a value of its field, and is refused only
      for a number no value of its field is; a match, of a rule with stages or
      without, is the truth of its formulas and its evidence suffices; a rule refused
      as a contradiction is one.
    - EngineProps.v, EngineBatch.v: the keeper keeps the store's
      interface; against that interface a told story is the rule's, a redelivery
      decides nothing and a record makes its rules' detections; over the keeper a
      counting rule fires exactly at its threshold; unreadable records hold nothing,
      publishing drops nothing, and lines about capacity are few.
    - RuleWire.v, Snapshot.v, Catalogue.v: rules and versions read back as they were
      published; a revision means one thing in whatever log was read.
    - SigmaGrammar.v, SigmaMeaning.v, SigmaTranslate.v: conditions are read by their
      grammar; a question asks of the canonical form of an event what Sigma asks of
      what was reported, a host's last dot aside (SampleRulesets.v shows what a rule
      that writes the dot asks);
      nothing of a document is dropped.
    - Detected.v, Triage.v, Alert.v, Incident.v: a detection is its tenant's
      and carries nothing undeclared; moves are legal, recorded and chained in a
      trail; what folds is one tenant's and one rule's; a completed story raises an
      incident that says how far its order can be trusted.
    - Listing.v, Trail.v, AlertStoreProps.v, IncidentStore.v: each detection recorded
      stands in one alert and is counted once; a batch redelivered is repeated; the
      stored trail is an alert's whole life; an incident reads back the story it was
      opened with; a listing reads everything once where instants are whole
      milliseconds, and SampleStores.v shows what is lost where they are not.
    - Agent.v, Trust.v, Releases.v, Rollout.v, RolloutSystem.v:
      endings are final and rosters converge; roots and catalogs are vouched for by
      thresholds of distinct keys; waves only widen; no tenant has two rollouts in
      force and a reading never undoes a change, however they interleave.
    - AgentStore.v, Announce.v: gateways hold what the registry decided, however
      registrations, moves, renewals and announcements interleave; sweeps tell them
      everything; an agent holds one certificate at a time and a renewal is its
      asker's alone; compaction keeps what was published in order, and SampleAgents.v
      shows what it may keep of what was not.
    - Guard.v: a subject holds no more sessions than its share and an ended one is
      never spent again; alerts are shown and moved only within the grant of a
      verified caller, whatever happens between a handler's reading and its writing,
      for callers that name no revision ahead of what was read (SampleAgents.v shows
      what one ahead does).
    - AgentRoutes.v: agents are administered only within a grant; every route and
      renewal is steps of the plane of Announce.v, so its theorems are the service's;
      what the authority signs is what the registry binds.
    - Authz.v, Session.v, Limiter.v: access is what the documents write
      down; tokens verify exactly as they were issued; the limiter is its buckets by
      last use.
    - HuntProps.v, HuntStatement.v, HuntPlane.v: queries keep to their
      bounds and grants, statements carry no literal, cursors belong to their
      question, and paging reads everything once.
    - Ingest.v, Canonical.v: what reaches the backbone is the roster's agent's
      and tenant's, batches are taken whole, the gateway counts what it reserved, and
      canonical events keep to the contract.
    - Inventory.v, Ecosystem.v: items of a record are named apart exactly as their
      instances are; ecosystems are spelled one way.
    - ImporterProps.v: a translated advisory is taken exactly when what its record
      says fits the contract; whatever feeds are followed at once and however often
      it crashed, a restarted importer holds of an advisory that one feed lists what
      it held (SampleInventory.v shows how two feeds race over one they both list).
    - PolicyProps.v, Assessment.v, Status.v: an agent is handed the newest policy of
      its tenant that names it, signed and valid when published; what it watches
      names files; an accepted check can be met; an agent is silent by the clock its
      report arrived under.

    ** Fuel

    Recursion that is not structural carries fuel, and the fuel is shown to be
    enough or is the source's own bound: the halvings of sort.Search by the length
    searched ([sort_Search_spec]), the discarding loops by the length of the window
    ([held_expire_seen], [held_trim_seen]), the reclaiming loop by the length of its
    queue ([reclaim_leaves_nothing_due]), the describing of the contract and the
    walk of the hunting vocabulary by their maximal depth, a varint by its ten bytes
    and the names of a cursor by its bytes, the weighing of a body by its length,
    the following of cursors by the records stored ([pages_collect_everything]), a
    bundle of authorities and the bytes of a serial by their lengths
    ([authorities_fuel], [big_bytes_fuel]), a file of signers by the keys it
    may hold ([parse_signers_enough]), the parser of Sigma conditions by
    three turns a token ([a_condition_is_read_by_its_grammar] shows it never runs
    out), aliases of YAML by their depth. Publishing and asking a feed again, which
    may retry, are functions of the attempts made and say when they are spent. A
    transaction of a relational store is one step of its tables.

    ** What is not modelled

    The weight of a detection and the cases a rule is checked by; the timers between
    an importer's attempts; the control API's handlers of rulesets, policies, updates and rollouts and the
    pages behind them. These are pure enough to be modelled the same way. The other
    stores, brokers, HTTP listeners, file decoders, metrics and executables are
    I/O against libraries. *)

From Stdlib Require Import ZArith Lia.
From stdpp Require Import base tactics option gmap strings sorting numbers list.

#[global] Open Scope Z_scope.

(** ** Results: Go's [(value, error)] with the error as a value *)

Inductive result (E A : Type) : Type :=
| Ok (a : A)
| Err (e : E).
Arguments Ok {E A} a.
Arguments Err {E A} e.

#[global] Instance result_ret {E} : MRet (result E) := λ _ a, Ok a.

#[global] Instance result_bind {E} : MBind (result E) :=
  λ _ _ f m, match m with Ok a => f a | Err e => Err e end.

#[global] Instance result_eq_dec {E A} `{EqDecision E, EqDecision A} :
  EqDecision (result E A).
Proof. solve_decision. Defined.

Definition is_ok {E A} (r : result E A) : bool :=
  match r with Ok _ => true | Err _ => false end.

(** [refuse b e] is the shape [if b { return e }]: refuse with [e] when the
    condition holds. *)
Definition refuse {E} (b : bool) (e : E) : result E unit :=
  if b then Err e else Ok tt.

Declare Scope go_scope.
Delimit Scope go_scope with go.
Notation "m ;; k" := (mbind (λ _, k) m)
  (at level 100, right associativity) : go_scope.

(** ** Lengths, instants and durations

    [len] is Go's built-in on slices, [slen] on strings (bytes). An instant is
    a number of nanoseconds after Go's zero [time.Time]; a duration is a 64-bit
    number of nanoseconds. [time.Time.Sub] saturates at the ends of a duration
    and [Add] does not. *)

Definition len {A} (l : list A) : Z := Z.of_nat (length l).
Definition slen (s : string) : Z := Z.of_nat (String.length s).

Definition instant := Z.
Definition duration := Z.

Definition time_zero : instant := 0.
Definition is_zero (t : instant) : bool := t =? 0.
Definition before (a b : instant) : bool := a <? b.
Definition after (a b : instant) : bool := b <? a.
Definition time_add (t : instant) (d : duration) : instant := t + d.

Definition max_duration : duration := 2 ^ 63 - 1.
Definition min_duration : duration := - 2 ^ 63.
Definition time_sub (a b : instant) : duration :=
  Z.max min_duration (Z.min max_duration (a - b)).

Definition nanosecond : duration := 1.
Definition millisecond : duration := 1000000.
Definition second : duration := 1000000000.
Definition minute : duration := 60 * second.
Definition hour : duration := 60 * minute.

(** Unsigned machine integers wrap. *)
Definition wrap_uint (width : Z) (z : Z) : Z := z mod 2 ^ width.
Abbreviation uint8 := (wrap_uint 8).
Abbreviation uint32 := (wrap_uint 32).
Abbreviation uint64 := (wrap_uint 64).
Definition int64 (z : Z) : Z := (z + 2 ^ 63) mod 2 ^ 64 - 2 ^ 63.

Lemma int64_id z : - 2 ^ 63 ≤ z < 2 ^ 63 → int64 z = z.
Proof. intros. unfold int64. rewrite Z.mod_small; lia. Qed.

(** ** Tactics *)

(** Split every conditional, match and decision the goal or a hypothesis is
    blocked on, discarding the branches that contradict the context. *)
Ltac break_if :=
  match goal with
  | |- context [if ?b then _ else _] => destruct b eqn:?
  | H : context [if ?b then _ else _] |- _ => destruct b eqn:?
  end.

Ltac break_match :=
  match goal with
  | |- context [match ?x with _ => _ end] => destruct x eqn:?
  | H : context [match ?x with _ => _ end] |- _ => destruct x eqn:?
  end.

(** Turn boolean comparisons into propositions [lia] reads. *)
Ltac to_prop :=
  repeat match goal with
  | H : (_ && _) = true |- _ => apply andb_true_iff in H as [? ?]
  | H : (_ || _) = false |- _ => apply orb_false_iff in H as [? ?]
  | H : negb _ = true |- _ => apply negb_true_iff in H
  | H : negb _ = false |- _ => apply negb_false_iff in H
  | H : bool_decide _ = true |- _ => apply bool_decide_eq_true in H
  | H : bool_decide _ = false |- _ => apply bool_decide_eq_false in H
  | H : (_ =? _)%Z = true |- _ => apply Z.eqb_eq in H
  | H : (_ =? _)%Z = false |- _ => apply Z.eqb_neq in H
  | H : (_ <? _)%Z = true |- _ => apply Z.ltb_lt in H
  | H : (_ <? _)%Z = false |- _ => apply Z.ltb_ge in H
  | H : (_ <=? _)%Z = true |- _ => apply Z.leb_le in H
  | H : (_ <=? _)%Z = false |- _ => apply Z.leb_gt in H
  end.

(** Peel the binds of a computation that succeeded: each step's own success
    becomes a hypothesis. *)
Lemma bind_ok {E A B} (m : result E A) (f : A → result E B) b :
  (m ≫= f) = Ok b → ∃ a, m = Ok a ∧ f a = Ok b.
Proof. destruct m; [eauto | done]. Qed.

Lemma refuse_ok {E} b (e : E) u : refuse b e = Ok u → b = false.
Proof. by destruct b. Qed.

Lemma refuse_false {E} b (e : E) : b = false → refuse b e = Ok tt.
Proof. by intros ->. Qed.

Lemma refuse_bind_ok {E A} b (e : E) (k : result E A) v :
  (refuse b e ;; k)%go = Ok v ↔ b = false ∧ k = Ok v.
Proof. destruct b; cbn; naive_solver. Qed.

Ltac peel :=
  repeat match goal with
  | H : Err _ = Ok _ |- _ => discriminate H
  | H : Ok _ = Err _ |- _ => discriminate H
  | H : Ok _ = Ok _ |- _ => injection H as H; subst
  | H : refuse _ _ = Ok _ |- _ => apply refuse_ok in H
  | H : mbind _ _ = Ok _ |- _ =>
      let a := fresh "a" in let Ha := fresh "Hstep" in
      apply bind_ok in H as (a & Ha & H); cbv beta in H
  end.

Create HintDb seagull discriminated.

(** ** Lists *)

(** [slices.Contains] over a type with decidable equality. *)
Definition contains_elem {A} `{EqDecision A} (l : list A) (x : A) : bool :=
  bool_decide (x ∈ l).

(** Append unless already there: the [if !slices.Contains ... append] idiom. *)
Definition add_once {A} `{EqDecision A} (l : list A) (x : A) : list A :=
  if decide (x ∈ l) then l else l ++ [x].

Lemma elem_of_add_once {A} `{EqDecision A} (l : list A) x y :
  y ∈ add_once l x ↔ y ∈ l ∨ y = x.
Proof.
  unfold add_once. case_decide; [naive_solver |].
  rewrite elem_of_app, list_elem_of_singleton. done.
Qed.

Lemma NoDup_add_once {A} `{EqDecision A} (l : list A) x :
  NoDup l → NoDup (add_once l x).
Proof.
  intros Hl. unfold add_once. case_decide; [done |].
  apply NoDup_app. split; [done |]. split; [| apply NoDup_singleton].
  intros y Hy ->%list_elem_of_singleton. done.
Qed.

(** Stepping a predicate over a list with its index, stopping at the first
    refusal: the [for index, x := range l { if err := f(index, x) ... }] loop. *)
Section each.
Context {E A : Type} (f : nat → A → result E unit).

Fixpoint each_from (i : nat) (l : list A) : result E unit :=
  match l with
  | [] => Ok tt
  | x :: l => match f i x with Err e => Err e | Ok _ => each_from (S i) l end
  end.
Definition each (l : list A) : result E unit := each_from 0 l.
End each.

Lemma each_from_ok {E A} i (f : nat → A → result E unit) l :
  each_from f i l = Ok tt ↔ ∀ j x, l !! j = Some x → f (i + j)%nat x = Ok tt.
Proof.
  revert i; induction l as [|y l IH]; intros i; simpl; [naive_solver |].
  destruct (f i y) as [[]|e] eqn:Hf.
  - rewrite IH. split.
    + intros H [|j] x Hx; simplify_eq/=; [by rewrite Nat.add_0_r |].
      replace (i + S j)%nat with (S i + j)%nat by lia. eauto.
    + intros H j x Hx. replace (S i + j)%nat with (i + S j)%nat by lia. by apply H.
  - split; [done |]. intros H. specialize (H O y eq_refl).
    rewrite Nat.add_0_r in H. congruence.
Qed.

Lemma each_ok {E A} (f : nat → A → result E unit) l :
  each f l = Ok tt ↔ ∀ j x, l !! j = Some x → f j x = Ok tt.
Proof. apply each_from_ok. Qed.

(** ** Sorting by a total preorder given as a boolean, stable, as
    [slices.Sort] leaves a slice of strings. *)
Definition sort_strings (l : list string) : list string := merge_sort String.le l.

Lemma sort_strings_perm l : sort_strings l ≡ₚ l.
Proof. apply merge_sort_Permutation. Qed.

Lemma sort_strings_sorted l : StronglySorted String.le (sort_strings l).
Proof. apply StronglySorted_merge_sort; apply _. Qed.

(** Two permutations of one list of strings sort alike. *)
Lemma sort_strings_unique l1 l2 : l1 ≡ₚ l2 → sort_strings l1 = sort_strings l2.
Proof.
  intros Hp. apply (StronglySorted_unique String.le); try apply sort_strings_sorted.
  by rewrite !sort_strings_perm.
Qed.

(** [slices.Compact]: drop an element equal to the one before it. *)
Fixpoint compact {A} `{EqDecision A} (l : list A) : list A :=
  match l with
  | x :: ((y :: _) as l') => if decide (x = y) then compact l' else x :: compact l'
  | _ => l
  end.

Lemma elem_of_compact {A} `{EqDecision A} (l : list A) x : x ∈ compact l ↔ x ∈ l.
Proof.
  induction l as [|y [|z l] IH]; [done | done |].
  simpl in *. case_decide as Hyz; [subst |]; rewrite ?elem_of_cons, IH, ?elem_of_cons;
    naive_solver.
Qed.

(** ** Filters *)

Lemma filter_all {A} (P : A → Prop) `{∀ x, Decision (P x)} (l : list A) :
  Forall P l → filter P l = l.
Proof.
  induction 1 as [|x l Hx _ IH]; [done |]. rewrite filter_cons_True by done. by f_equal.
Qed.

Lemma StronglySorted_filter {A} (R : relation A) (P : A → Prop) `{∀ x, Decision (P x)} l :
  StronglySorted R l → StronglySorted R (filter P l).
Proof.
  induction 1 as [|x l Hs IH Hx]; [constructor |].
  destruct (decide (P x)); [rewrite filter_cons_True by done | by rewrite filter_cons_False].
  constructor; [done |]. rewrite Forall_forall in *.
  intros y [_ Hy]%list_elem_of_filter. by apply Hx.
Qed.

(** ** Durations and instants *)

Lemma time_sub_exact a b :
  min_duration ≤ a - b ≤ max_duration → time_sub a b = a - b.
Proof. unfold time_sub. lia. Qed.

Lemma time_sub_range a b : min_duration ≤ time_sub a b ≤ max_duration.
Proof. unfold time_sub, min_duration, max_duration. lia. Qed.

Lemma time_sub_nonneg a b : b ≤ a → 0 ≤ time_sub a b.
Proof. unfold time_sub, min_duration, max_duration. lia. Qed.

Lemma wrap_uint_small width z : 0 ≤ z < 2 ^ width → wrap_uint width z = z.
Proof. intros. unfold wrap_uint. by rewrite Z.mod_small. Qed.

Lemma len_app {A} (l1 l2 : list A) : len (l1 ++ l2) = len l1 + len l2.
Proof. unfold len. rewrite length_app. lia. Qed.

Lemma len_nonneg {A} (l : list A) : 0 ≤ len l.
Proof. unfold len. lia. Qed.

#[export] Hint Resolve time_sub_range len_nonneg sort_strings_perm : seagull.
