(* ===== verification/Text.v ===== *)
(** * Text: the string operations and patterns the sources use

    [strings.HasPrefix], [HasSuffix], [Contains], [Cut], [TrimPrefix],
    [ToLower], [ToUpper], whether [TrimSpace] leaves nothing, and the regular
    expressions the packages compile, as patterns with a matcher by derivatives
    that is shown to decide the pattern's language. *)

From Stdlib Require Import ZArith Lia Ascii.
From stdpp Require Import base tactics option strings pretty numbers list.
From S2P Require Import Prelude.

(** ** Searching *)

Fixpoint HasPrefix (s p : string) {struct p} : bool :=
  match p, s with
  | EmptyString, _ => true
  | String c p, String d s => bool_decide (c = d) && HasPrefix s p
  | _, _ => false
  end.

Fixpoint string_drop (n : nat) (s : string) : string :=
  match n, s with S n, String _ s => string_drop n s | _, _ => s end.

Definition HasSuffix (s p : string) : bool :=
  (String.length p <=? String.length s)%nat
  && bool_decide (string_drop (String.length s - String.length p) s = p).

Fixpoint StringContains (s p : string) : bool :=
  HasPrefix s p || match s with EmptyString => false | String _ s => StringContains s p end.

Definition TrimPrefix (s p : string) : string :=
  if HasPrefix s p then string_drop (String.length p) s else s.

(** What stands before the first [c], the whole string when there is none. *)
Fixpoint cut_before (c : ascii) (s : string) : string :=
  match s with
  | EmptyString => EmptyString
  | String d s => if decide (c = d) then EmptyString else String d (cut_before c s)
  end.

Lemma string_app_assoc (a b c : string) : (a +:+ b) +:+ c = a +:+ (b +:+ c).
Proof. induction a as [|x a IH]; cbn; [done |]. unfold String.app in *. cbn in *. by rewrite IH. Qed.

Lemma HasPrefix_spec s p : HasPrefix s p = true ↔ ∃ r, s = p +:+ r.
Proof.
  revert s. induction p as [|c p IH]; intros s; cbn [HasPrefix].
  { split; [intros _; by exists s | done]. }
  destruct s as [|d s]; [split; [done | intros [r Hr]; discriminate Hr] |].
  rewrite andb_true_iff, bool_decide_eq_true, IH. split.
  - intros [-> [r ->]]. by exists r.
  - intros [r [= -> ->]]. split; [done | by exists r].
Qed.

Lemma StringContains_spec s p : StringContains s p = true ↔ ∃ a b, s = a +:+ p +:+ b.
Proof.
  induction s as [|c s IH]; cbn [StringContains]; rewrite orb_true_iff, HasPrefix_spec.
  - split; [intros [[r Hr]|]; [by exists "", r | done] |].
    intros ([|? ?] & b & H); [left; by exists b | done].
  - rewrite IH. split.
    + intros [[r Hr]|(a & b & ->)]; [by exists "", r | by exists (String c a), b].
    + intros ([|d a] & b & H); [left; by exists b |]. injection H as <- ->. right. by exists a, b.
Qed.

Lemma string_drop_app a s n : String.length a = n → string_drop n (a +:+ s) = s.
Proof.
  revert n. induction a as [|c a IH]; intros n <-; [done |].
  change (String c a +:+ s) with (String c (a +:+ s)). cbn. by apply IH.
Qed.

Lemma string_length_app (s t : string) : String.length (s +:+ t) = (String.length s + String.length t)%nat.
Proof.
  induction s as [|c s IH]; [done |]. change (String c s +:+ t) with (String c (s +:+ t)). cbn. by rewrite IH.
Qed.

(** Of two prefixes of one string, one is a prefix of the other. *)
Lemma HasPrefix_compare s p q :
  HasPrefix s p = true → HasPrefix s q = true → HasPrefix p q = true ∨ HasPrefix q p = true.
Proof.
  revert p q. induction s as [|c s IH]; intros [|a p] [|b q] Hp Hq; cbn in *; auto; try done.
  apply andb_true_iff in Hp as [Ha Hp], Hq as [Hb Hq]. to_prop. subst.
  rewrite bool_decide_true by done. by apply IH.
Qed.

Lemma string_length_drop n s : String.length (string_drop n s) = (String.length s - n)%nat.
Proof. revert s. induction n as [|n IH]; intros [|c s]; cbn; auto. Qed.

Lemma string_drop_drop n m s : string_drop n (string_drop m s) = string_drop (m + n) s.
Proof.
  revert s. induction m as [|m IH]; intros s; [done |]. destruct s; cbn; [by destruct n | apply IH].
Qed.

Lemma HasSuffix_spec s p :
  HasSuffix s p = true ↔ ∃ k, (k ≤ String.length s)%nat ∧ p = string_drop k s.
Proof.
  unfold HasSuffix. rewrite andb_true_iff, Nat.leb_le, bool_decide_eq_true. split.
  - intros [Hl Hd]. exists (String.length s - String.length p)%nat. split; [lia | done].
  - intros (k & Hk & ->). rewrite string_length_drop. split; [lia |]. f_equal. lia.
Qed.

Lemma string_split_at k s : (k ≤ String.length s)%nat → ∃ a, s = a +:+ string_drop k s.
Proof.
  revert s. induction k as [|k IH]; intros s Hk; [exists ""; by destruct s |].
  destruct s as [|c s]; cbn in Hk; [lia |]. destruct (IH s) as [a Ha]; [lia |].
  exists (String c a). cbn [string_drop]. change (String c s = String c (a +:+ string_drop k s)). by rewrite <- Ha.
Qed.

Lemma HasSuffix_app s p : HasSuffix s p = true ↔ ∃ a, s = a +:+ p.
Proof.
  rewrite HasSuffix_spec. split.
  - intros (k & Hk & ->). by apply string_split_at.
  - intros [a ->]. exists (String.length a). rewrite (string_drop_app a) by done. rewrite string_length_app. split; [lia | done].
Qed.

(** Of two suffixes of one string, one is a suffix of the other. *)
Lemma HasSuffix_compare s p q :
  HasSuffix s p = true → HasSuffix s q = true → HasSuffix p q = true ∨ HasSuffix q p = true.
Proof.
  rewrite !HasSuffix_spec. intros (a & Ha & ->) (b & Hb & ->).
  destruct (Nat.le_ge_cases a b); [left; exists (b - a)%nat | right; exists (a - b)%nat];
    rewrite string_drop_drop, string_length_drop; (split; [lia | f_equal; lia]).
Qed.

(** ** Splitting a string where a character first stands *)

(** The character does not occur. *)
Fixpoint free_of (c : ascii) (s : string) : Prop :=
  match s with EmptyString => True | String x s => x ≠ c ∧ free_of c s end.

Lemma string_app_inj (a b r1 r2 : string) :
  String.length a = String.length b → a +:+ r1 = b +:+ r2 → a = b ∧ r1 = r2.
Proof.
  revert b. induction a as [|c a IH]; intros [|d b] Hl Heq; try discriminate; [done |].
  cbn in *. injection Heq as <- Heq. destruct (IH b) as [-> ->]; [lia | done |]. done.
Qed.

Lemma split_at c s1 s2 r1 r2 :
  free_of c s1 → free_of c s2 →
  s1 +:+ String c r1 = s2 +:+ String c r2 → s1 = s2 ∧ r1 = r2.
Proof.
  revert s2. induction s1 as [|x s1 IH]; intros [|y s2] H1 H2 Heq; cbn in *.
  - by injection Heq.
  - injection Heq as <- _. by destruct H2.
  - injection Heq as -> _. by destruct H1.
  - injection Heq as <- Heq. destruct (IH s2) as [-> ->]; [by destruct H1 | by destruct H2 | done |].
    done.
Qed.

Lemma free_of_app c s t : free_of c s → free_of c t → free_of c (s +:+ t).
Proof. induction s as [|x s IH]; cbn; [done |]. intros [Hx Hs] Ht. split; [done | by apply IH]. Qed.

(** ** Case, and space *)

Definition byte (c : ascii) : N := N_of_ascii c.
Definition between (lo hi : N) (c : ascii) : bool := ((lo <=? byte c) && (byte c <=? hi))%N.

Definition lower_char (c : ascii) : ascii :=
  if between 65 90 c then ascii_of_N (byte c + 32) else c.
Definition upper_char (c : ascii) : ascii :=
  if between 97 122 c then ascii_of_N (byte c - 32) else c.

Fixpoint string_map (f : ascii → ascii) (s : string) : string :=
  match s with EmptyString => EmptyString | String c s => String (f c) (string_map f s) end.

(** On the ASCII names the contract's descriptors carry. *)
Definition ToLower : string → string := string_map lower_char.
Definition ToUpper : string → string := string_map upper_char.

(** Whether [strings.TrimSpace] leaves nothing: the string is UTF-8 encodings of
    [unicode.IsSpace] runes and nothing else. *)
Fixpoint blank (s : string) : bool :=
  match s with
  | EmptyString => true
  | String a s1 =>
      if between 9 13 a || (byte a =? 32)%N then blank s1
      else match s1 with
      | EmptyString => false
      | String b s2 =>
          if (byte a =? 194)%N && ((byte b =? 133) || (byte b =? 160))%N then blank s2
          else match s2 with
          | EmptyString => false
          | String c s3 =>
              if ((byte a =? 225) && (byte b =? 154) && (byte c =? 128))%N
                 || ((byte a =? 226) && (byte b =? 128))%N
                    && (between 128 138 c || (byte c =? 168) || (byte c =? 169) || (byte c =? 175))%N
                 || ((byte a =? 226) && (byte b =? 129) && (byte c =? 159))%N
                 || ((byte a =? 227) && (byte b =? 128) && (byte c =? 128))%N
              then blank s3 else false
          end
      end
  end.

(** ** Patterns *)

Inductive pattern :=
| Never
| Nothing
| One (p : ascii → bool)
| Then (a b : pattern)
| Or (a b : pattern)
| Many (a : pattern).

Fixpoint nullable (r : pattern) : bool :=
  match r with
  | Never | One _ => false
  | Nothing | Many _ => true
  | Then a b => nullable a && nullable b
  | Or a b => nullable a || nullable b
  end.

Fixpoint derive (c : ascii) (r : pattern) : pattern :=
  match r with
  | Never | Nothing => Never
  | One p => if p c then Nothing else Never
  | Then a b => if nullable a then Or (Then (derive c a) b) (derive c b)
                else Then (derive c a) b
  | Or a b => Or (derive c a) (derive c b)
  | Many a => Then (derive c a) (Many a)
  end.

Fixpoint MatchString (r : pattern) (s : string) : bool :=
  match s with EmptyString => nullable r | String c s => MatchString (derive c r) s end.

(** The language of a pattern. *)
Inductive matched : pattern → string → Prop :=
| m_nothing : matched Nothing ""
| m_one p c : p c = true → matched (One p) (String c "")
| m_then a b s t : matched a s → matched b t → matched (Then a b) (s +:+ t)
| m_or_l a b s : matched a s → matched (Or a b) s
| m_or_r a b s : matched b s → matched (Or a b) s
| m_many_nil a : matched (Many a) ""
| m_many a s t : matched a s → matched (Many a) t → matched (Many a) (s +:+ t).

Lemma string_app_nil (s t : string) : s +:+ t = "" → s = "" ∧ t = "".
Proof. by destruct s. Qed.

Lemma nullable_spec r : nullable r = true ↔ matched r "".
Proof.
  induction r; cbn.
  - split; [done | by inversion 1].
  - split; [constructor | done].
  - split; [done | by inversion 1].
  - rewrite andb_true_iff, IHr1, IHr2. split.
    + intros [H1 H2]. apply (m_then _ _ "" "" H1 H2).
    + inversion 1 as [| |a b s t Hs Ht Hst| | | |]; subst.
      match goal with H : _ +:+ _ = "" |- _ => apply string_app_nil in H as [-> ->] end. done.
  - rewrite orb_true_iff, IHr1, IHr2. split; [intros [|]; by constructor | inversion 1; auto].
  - split; [intros _; constructor | done].
Qed.

Lemma derive_many a c s : matched (Many a) (String c s) →
  ∃ u v, s = u +:+ v ∧ matched a (String c u) ∧ matched (Many a) v.
Proof.
  remember (Many a) as r eqn:Hr. remember (String c s) as w eqn:Hw. intros Hm. revert s Hw.
  induction Hm as [| | | | | |a' x y Hx _ Hy IH]; intros w Hw; try discriminate; simplify_eq.
  destruct x as [|d x]; cbn in Hw; [by apply IH |].
  injection Hw as -> <-. exists x, y. done.
Qed.

Lemma matched_then a b w : matched (Then a b) w → ∃ x y, w = x +:+ y ∧ matched a x ∧ matched b y.
Proof. inversion 1; subst. eauto. Qed.

Lemma derive_spec c r s : matched (derive c r) s ↔ matched r (String c s).
Proof.
  revert s. induction r as [| |p|a IHa b IHb|a IHa b IHb|a IHa]; intros s; cbn.
  - split; inversion 1.
  - split; inversion 1.
  - destruct (p c) eqn:Hp.
    + split; [inversion 1; subst; by constructor | inversion 1; subst; constructor].
    + split; [inversion 1 | inversion 1; subst; congruence].
  - assert (∀ s, matched (Then (derive c a) b) s ↔
      ∃ u v, s = u +:+ v ∧ matched a (String c u) ∧ matched b v) as Hcat.
    { intros t. split.
      - inversion 1; subst. eexists _, _. split; [done |]. by rewrite <- IHa.
      - intros (u & v & -> & Hu & Hv). apply m_then; [by apply IHa | done]. }
    assert (matched (Then a b) (String c s) ↔
      (∃ u v, s = u +:+ v ∧ matched a (String c u) ∧ matched b v)
      ∨ (nullable a = true ∧ matched b (String c s))) as Hgoal.
    { split.
      - intros (x & y & Hxy & Hx & Hy)%matched_then.
        destruct x as [|d x]; cbn in Hxy; [right; rewrite nullable_spec, Hxy; done |].
        left. injection Hxy as <- ->. by exists x, y.
      - intros [(u & v & -> & Hu & Hv)|[Hn Hb]].
        + by apply (m_then _ _ (String c u) v).
        + apply nullable_spec in Hn. by apply (m_then _ _ "" (String c s)). }
    rewrite Hgoal, <- Hcat. destruct (nullable a).
    + split; [inversion 1; subst; [by left | right; by rewrite <- IHb] |].
      intros [|[_ Hb]]; [by apply m_or_l | apply m_or_r; by apply IHb].
    + split; [by left | by intros [|[? _]]].
  - split; inversion 1; subst;
      solve [apply m_or_l; by apply IHa | apply m_or_r; by apply IHb].
  - split.
    + inversion 1; subst. apply (m_many _ (String c _) _); [by apply IHa | done].
    + intros (u & v & -> & Hu & Hv)%derive_many. apply m_then; [by apply IHa | done].
Qed.

(** The matcher decides the language. *)
Lemma MatchString_spec r s : MatchString r s = true ↔ matched r s.
Proof.
  revert r. induction s as [|c s IH]; intros r; cbn; [apply nullable_spec |].
  by rewrite IH, derive_spec.
Qed.

(** Building blocks. *)
Definition chr (c : ascii) : pattern := One (λ d, bool_decide (c = d)).
Definition some (r : pattern) : pattern := Then r (Many r).
Fixpoint exactly_n (n : nat) (r : pattern) : pattern :=
  match n with O => Nothing | S n => Then r (exactly_n n r) end.
Fixpoint at_most (n : nat) (r : pattern) : pattern :=
  match n with O => Nothing | S n => Or Nothing (Then r (at_most n r)) end.
Definition lowercase : ascii → bool := between 97 122.
Definition uppercase : ascii → bool := between 65 90.
Definition digit : ascii → bool := between 48 57.
Definition alnum_lower (c : ascii) : bool := lowercase c || digit c.
Definition alnum (c : ascii) : bool := lowercase c || uppercase c || digit c.
Definition among (cs : list ascii) (c : ascii) : bool := bool_decide (c ∈ cs).
Definition anything : pattern := Many (One (λ _, true)).
