(* ===== verification/Scan.v ===== *)
(** * Scan: cutting, splitting and reading numbers

    [strings.Cut], [strings.Split] and [strings.TrimLeft] at single bytes,
    [strconv.ParseUint] in base ten at 64 bits, [strings.Compare], and what
    joining undoes. *)

From Stdlib Require Import ZArith Lia Ascii.
From stdpp Require Import base tactics option strings pretty numbers list.
From S2P Require Import Prelude Text.

(** ** Cutting and splitting *)

(** What stands before the first separator, what stands after it, and whether
    there was one. *)
Fixpoint Cut (s : string) (sep : ascii) : string * string * bool :=
  match s with
  | EmptyString => ("", "", false)
  | String c s =>
      if decide (c = sep) then ("", s, true)
      else match Cut s sep with (before, after, found) => (String c before, after, found) end
  end.

Fixpoint Split (s : string) (sep : ascii) : list string :=
  match s with
  | EmptyString => [""]
  | String c s =>
      if decide (c = sep) then "" :: Split s sep
      else match Split s sep with
           | [] => [String c ""]
           | part :: parts => String c part :: parts
           end
  end.

Fixpoint join_at (parts : list string) (sep : ascii) : string :=
  match parts with
  | [] => ""
  | [part] => part
  | part :: parts => part +:+ String sep (join_at parts sep)
  end.

(** What is left once the leading bytes of a set are gone. *)
Fixpoint TrimLeft (s : string) (cutset : ascii → bool) : string :=
  match s with
  | EmptyString => ""
  | String c s' => if cutset c then TrimLeft s' cutset else s
  end.

(** Every byte is one of a set. *)
Fixpoint made_of (cutset : ascii → bool) (s : string) : bool :=
  match s with EmptyString => true | String c s => cutset c && made_of cutset s end.

Lemma TrimLeft_empty s cutset : TrimLeft s cutset = "" ↔ made_of cutset s = true.
Proof.
  induction s as [|c s IH]; cbn; [done |]. destruct (cutset c); cbn; [done | by split].
Qed.

Lemma string_app_empty_r (s : string) : s +:+ "" = s.
Proof.
  induction s as [|c s IH]; [done |].
  change (String c s +:+ "") with (String c (s +:+ "")). by rewrite IH.
Qed.

Lemma Split_nonempty s sep : Split s sep ≠ [].
Proof. destruct s as [|c s]; cbn; [done |]. destruct (decide _); [done |]. by destruct (Split s sep). Qed.

Lemma join_Split s sep : join_at (Split s sep) sep = s.
Proof.
  induction s as [|c s IH]; [done |]. cbn [Split]. destruct (decide (c = sep)) as [->|_].
  - pose proof (Split_nonempty s sep). destruct (Split s sep) as [|p ps]; [done |].
    cbn [join_at]. cbn [join_at] in IH. by rewrite IH.
  - destruct (Split s sep) as [|p [|q ps]] eqn:Hs; cbn [join_at] in *; [by subst | by subst |].
    by rewrite <- IH.
Qed.

Lemma Split_free s sep : Forall (free_of sep) (Split s sep).
Proof.
  induction s as [|c s IH]; cbn; [by repeat constructor |].
  destruct (decide (c = sep)) as [->|Hc]; [by constructor |].
  destruct (Split s sep) as [|p ps]; [by repeat constructor |].
  apply Forall_cons in IH as [Hp Hps]. by repeat constructor.
Qed.

Lemma Cut_spec s sep before after found :
  Cut s sep = (before, after, found) →
  free_of sep before ∧
  s = if found then before +:+ String sep after else before.
Proof.
  revert before. induction s as [|c s IH]; intros b; cbn; [by intros [= <- <- <-] |].
  destruct (decide (c = sep)) as [->|Hc]; [by intros [= <- <- <-] |].
  destruct (Cut s sep) as [[b' a'] f'] eqn:Hcut. intros [= <- -> ->].
  destruct (IH b' eq_refl) as [Hfree ->]. split; [done |]. by destruct found.
Qed.

Lemma Cut_not_found s sep before after :
  Cut s sep = (before, after, false) → after = "".
Proof.
  revert before. induction s as [|c s IH]; intros b; cbn; [by intros [= <- <-] |].
  destruct (decide (c = sep)); [done |].
  destruct (Cut s sep) as [[b' a'] f'] eqn:Hcut. intros [= <- -> ->]. by apply (IH b').
Qed.

Lemma Cut_app before after sep :
  free_of sep before → Cut (before +:+ String sep after) sep = (before, after, true).
Proof.
  induction before as [|c b IH]; [intros _; change ("" +:+ ?x) with x; cbn [Cut]; by rewrite decide_True |].
  intros [Hc Hb]. change (String c b +:+ String sep after) with (String c (b +:+ String sep after)).
  cbn [Cut]. by rewrite decide_False, IH.
Qed.

Lemma Cut_none s sep : free_of sep s → Cut s sep = (s, "", false).
Proof.
  induction s as [|c b IH]; cbn -[decide]; [done |]. intros [Hc Hb]. rewrite decide_False by done. by rewrite IH.
Qed.

Lemma Split_none s sep : free_of sep s → Split s sep = [s].
Proof.
  induction s as [|c b IH]; cbn -[decide]; [done |]. intros [Hc Hb]. rewrite decide_False by done. by rewrite IH.
Qed.

Lemma Split_app p s sep : free_of sep p → Split (p +:+ String sep s) sep = p :: Split s sep.
Proof.
  induction p as [|c b IH]; [intros _; change ("" +:+ ?x) with x; cbn [Split]; by rewrite decide_True |].
  intros [Hc Hb]. change (String c b +:+ String sep s) with (String c (b +:+ String sep s)).
  cbn [Split]. by rewrite decide_False, IH.
Qed.

Lemma Split_join parts sep :
  parts ≠ [] → Forall (free_of sep) parts → Split (join_at parts sep) sep = parts.
Proof.
  induction parts as [|p ps IH]; [done |]. intros _ [Hp Hps]%Forall_cons.
  destruct ps as [|q ps]; [by apply Split_none |].
  change (join_at (p :: q :: ps) sep) with (p +:+ String sep (join_at (q :: ps) sep)).
  rewrite Split_app by done. by rewrite IH.
Qed.

Lemma free_of_made c cutset s : cutset c = false → made_of cutset s = true → free_of c s.
Proof.
  intros Hc. induction s as [|d s IH]; cbn; [done |]. intros [Hd Hs]%andb_true_iff.
  split; [by intros -> ; congruence | by apply IH].
Qed.

Lemma made_of_app cutset s t : made_of cutset (s +:+ t) = made_of cutset s && made_of cutset t.
Proof.
  induction s as [|c s IH]; [done |].
  change (String c s +:+ t) with (String c (s +:+ t)). cbn [made_of]. by rewrite IH, andb_assoc.
Qed.

Lemma made_of_mono (p q : ascii → bool) s :
  (∀ c, p c = true → q c = true) → made_of p s = true → made_of q s = true.
Proof. intros Hpq. induction s as [|c s IH]; cbn; [done |]. rewrite !andb_true_iff. naive_solver. Qed.

(** ** Numbers *)

Definition digit_value (c : ascii) : Z := Z.of_N (byte c) - 48.

Fixpoint decimal_from (acc : Z) (s : string) : option Z :=
  match s with
  | EmptyString => Some acc
  | String c s => if digit c then decimal_from (acc * 10 + digit_value c) s else None
  end.

(** [strconv.ParseUint(s, 10, 64)]: digits only, at least one, and a value 64
    bits hold. *)
Definition ParseUint (s : string) : option Z :=
  if bool_decide (s = "") then None
  else match decimal_from 0 s with
       | Some v => if v <? 2 ^ 64 then Some v else None
       | None => None
       end.

Lemma digit_value_range c : digit c = true → 0 ≤ digit_value c ≤ 9.
Proof. unfold digit, between, digit_value. rewrite andb_true_iff, !N.leb_le. lia. Qed.

Lemma digit_value_inj c d : digit c = true → digit d = true → digit_value c = digit_value d → c = d.
Proof.
  unfold digit_value, byte. intros _ _ Heq.
  assert (N_of_ascii c = N_of_ascii d) as Hn by lia.
  by rewrite <- (ascii_N_embedding c), <- (ascii_N_embedding d), Hn.
Qed.

Lemma decimal_from_made acc s v : decimal_from acc s = Some v → made_of digit s = true.
Proof. revert acc. induction s as [|c s IH]; intros acc; cbn; [done |]. destruct (digit c); cbn; [apply IH | done]. Qed.

Lemma decimal_from_total acc s : made_of digit s = true → is_Some (decimal_from acc s).
Proof.
  revert acc. induction s as [|c s IH]; intros acc; cbn; [by eexists |].
  intros [-> Hs]%andb_true_iff. by apply IH.
Qed.

(** A number of [n] digits after [acc] lies in the block of [acc]. *)
Lemma decimal_from_range acc s v :
  decimal_from acc s = Some v →
  acc * 10 ^ slen s ≤ v < (acc + 1) * 10 ^ slen s.
Proof.
  unfold slen. revert acc. induction s as [|c s IH]; intros acc; cbn [decimal_from String.length].
  { intros [= ->]. change (Z.of_nat 0) with 0. lia. }
  destruct (digit c) eqn:Hc; [| done]. intros H%IH. apply digit_value_range in Hc.
  rewrite Nat2Z.inj_succ, Z.pow_succ_r by lia.
  pose proof (Z.pow_pos_nonneg 10 (Z.of_nat (String.length s))). nia.
Qed.

Lemma decimal_from_inj a b s t v :
  String.length s = String.length t →
  decimal_from a s = Some v → decimal_from b t = Some v → s = t ∧ a = b.
Proof.
  revert a b t. induction s as [|c s IH]; intros a b [|d t] Hl; cbn [decimal_from] in *; try discriminate.
  { intros [= <-] [= <-]. done. }
  destruct (digit c) eqn:Hc, (digit d) eqn:Hd; try done. intros H1 H2.
  destruct (IH _ _ t ltac:(cbn in Hl; lia) H1 H2) as [-> Hab].
  pose proof (digit_value_range c Hc). pose proof (digit_value_range d Hd).
  assert (digit_value c = digit_value d) as Hv by lia.
  rewrite (digit_value_inj c d) by done. split; [done | lia].
Qed.

(** Without a leading zero, a number is written one way. *)
Definition no_leading_zero (s : string) : Prop :=
  match s with String c (String _ _) => c ≠ "0"%char | _ => True end.

Lemma decimal_first c s v :
  decimal_from 0 (String c s) = Some v → c ≠ "0"%char → 10 ^ slen s ≤ v.
Proof.
  cbn [decimal_from]. destruct (digit c) eqn:Hc; [| done]. intros Hv Hne.
  apply decimal_from_range in Hv. pose proof (digit_value_range c Hc).
  assert (digit_value c ≠ 0).
  { intros H0. apply Hne. by apply digit_value_inj. }
  pose proof (Z.pow_pos_nonneg 10 (slen s)). unfold slen in *. nia.
Qed.

Lemma decimal_longer s t v :
  decimal_from 0 s = Some v → decimal_from 0 t = Some v →
  s ≠ "" → no_leading_zero t → ¬ (String.length s < String.length t)%nat.
Proof.
  intros Hs Ht Hne Hz Hlt. destruct s as [|a s]; [done |].
  destruct t as [|c [|d t]]; cbn in Hlt; [lia | lia |].
  apply decimal_first in Ht; [| done]. apply decimal_from_range in Hs.
  assert (10 ^ slen (String a s) ≤ 10 ^ slen (String d t)).
  { apply Z.pow_le_mono_r; [lia |]. unfold slen. cbn. lia. }
  lia.
Qed.

Lemma decimal_unique s t v :
  s ≠ "" → t ≠ "" → no_leading_zero s → no_leading_zero t →
  decimal_from 0 s = Some v → decimal_from 0 t = Some v → s = t.
Proof.
  intros Hs Ht Hzs Hzt H1 H2.
  pose proof (decimal_longer s t v H1 H2 Hs Hzt).
  pose proof (decimal_longer t s v H2 H1 Ht Hzs).
  eapply (decimal_from_inj 0 0 s t v); [lia | done | done].
Qed.

Lemma ParseUint_spec s v :
  ParseUint s = Some v ↔ s ≠ "" ∧ decimal_from 0 s = Some v ∧ v < 2 ^ 64.
Proof.
  unfold ParseUint. destruct (bool_decide_reflect (s = "")) as [->|Hs]; [naive_solver |].
  destruct (decimal_from 0 s) as [w|]; [| naive_solver].
  destruct (Z.ltb_spec w (2 ^ 64)); naive_solver lia.
Qed.

Lemma ParseUint_range s v : ParseUint s = Some v → 0 ≤ v < 2 ^ 64.
Proof. rewrite ParseUint_spec. intros (_ & H%decimal_from_range & ?). lia. Qed.

(** ** Signed numbers *)

(** [strconv.Atoi]: a sign, digits, and a value an [int] of 64 bits holds. *)
Definition Atoi (s : string) : option Z :=
  let signed (negative : bool) (digits : string) :=
    n ← ParseUint digits;
    if negative then (if n <=? 2 ^ 63 then Some (- n) else None)
    else if n <? 2 ^ 63 then Some n else None in
  match s with
  | String "-" digits => signed true digits
  | String "+" digits => signed false digits
  | _ => signed false s
  end.

Lemma Atoi_digits s : made_of digit s = true →
  Atoi s = n ← ParseUint s; if n <? 2 ^ 63 then Some n else None.
Proof. destruct s as [|[[] [] [] [] [] [] [] []] s]; try done; by intros H%andb_true_iff%proj1. Qed.

(** ** The byte order of strings *)

Lemma ascii_compare_eq a b : Ascii.compare a b = Eq ↔ a = b.
Proof. split; [apply Ascii.compare_eq_iff | intros ->]. apply N.compare_refl. Qed.

Lemma string_compare_eq s t : String.compare s t = Eq ↔ s = t.
Proof.
  split; [apply String.compare_eq_iff | intros ->].
  induction t as [|c t IH]; [done |]. cbn. by rewrite (proj2 (ascii_compare_eq c c)).
Qed.

Lemma ascii_compare_trans a b c o :
  Ascii.compare a b = o → Ascii.compare b c = o → Ascii.compare a c = o.
Proof.
  unfold Ascii.compare. intros <-.
  destruct (N.compare_spec (N_of_ascii a) (N_of_ascii b)) as [E|L|G]; intros H.
  - by rewrite E.
  - apply N.compare_lt_iff in H. apply N.compare_lt_iff. by etransitivity.
  - apply N.compare_gt_iff in H. apply N.compare_gt_iff. by etransitivity.
Qed.

(** ** Comparisons in sequence *)

(** The first comparison that tells decides. *)
Definition or_else (c d : comparison) : comparison :=
  match c with Eq => d | Lt => Lt | Gt => Gt end.

Lemma or_else_opp c d : CompOpp (or_else c d) = or_else (CompOpp c) (CompOpp d).
Proof. by destruct c. Qed.

(** An order: it tells equals apart from nothing, turns round and carries over. *)
Class Ranks {A} (cmp : A → A → comparison) : Prop := {
  cmp_eq x y : cmp x y = Eq ↔ x = y;
  cmp_opp x y : cmp y x = CompOpp (cmp x y);
  cmp_lt x y z : cmp x y = Lt → cmp y z = Lt → cmp x z = Lt;
}.

Lemma or_else_lt {A B} (cmp : A → A → comparison) `{!Ranks cmp} (d : B → B → comparison) x y z p q r :
  (d p q = Lt → d q r = Lt → d p r = Lt) →
  or_else (cmp x y) (d p q) = Lt → or_else (cmp y z) (d q r) = Lt → or_else (cmp x z) (d p r) = Lt.
Proof.
  intros Hd. destruct (cmp x y) eqn:Hxy; cbn; [| | done].
  - apply cmp_eq in Hxy as ->. destruct (cmp y z); cbn; auto.
  - intros _. destruct (cmp y z) eqn:Hyz; cbn; [| | done].
    + apply cmp_eq in Hyz as ->. by rewrite Hxy.
    + intros _. by rewrite (cmp_lt x y z).
Qed.

#[global] Instance Z_ordered : Ranks Z.compare.
Proof.
  split; [apply Z.compare_eq_iff | intros; apply Z.compare_antisym |].
  intros x y z. rewrite !Z.compare_lt_iff. lia.
Qed.

#[global] Instance ascii_ordered : Ranks Ascii.compare.
Proof.
  split; [apply ascii_compare_eq | intros; apply Ascii.compare_antisym |].
  intros x y z. apply ascii_compare_trans.
Qed.

#[global] Instance string_ordered : Ranks String.compare.
Proof.
  split; [apply string_compare_eq | intros; apply String.compare_antisym |].
  intros x. induction x as [|a x IH]; intros [|b y] [|c z]; cbn; try done.
  apply (or_else_lt Ascii.compare String.compare). apply IH.
Qed.
