(* ===== verification/Version.v ===== *)
(** * Versions: how the agent binary names a release (agentupdate/version.go)

    A comparison's [-1], [0] and [1] are [Lt], [Eq] and [Gt]; a [uint64] is a
    [Z] that [ParseUint] keeps below [2 ^ 64]. *)

From Stdlib Require Import ZArith Lia Ascii.
From stdpp Require Import base tactics option strings pretty numbers list.
From S2P Require Import Prelude Text Scan.

Definition MaxVersionBytes : Z := 128.

Record Version := mkVersion {
  major : Z; minor : Z; patch : Z;
  prerelease : list string;
  version_text : string;
}.

#[global] Instance Version_eq_dec : EqDecision Version.
Proof. solve_decision. Defined.

(** ** Parsing *)

Definition leading_zero (part : string) : bool :=
  (1 <? slen part) && match part with String c _ => bool_decide (c = "0"%char) | _ => false end.

Definition numeric_part (part : string) : option Z :=
  if bool_decide (part = "") || leading_zero part || negb (bool_decide (TrimLeft part digit = ""))
  then None else ParseUint part.

Definition identifier_byte (c : ascii) : bool := alnum c || bool_decide (c = "-"%char).

Definition identifiers (dotted : string) (ordered : bool) : bool :=
  forallb (λ identifier,
    negb (bool_decide (identifier = "") || negb (bool_decide (TrimLeft identifier identifier_byte = "")))
    && negb (ordered && leading_zero identifier && bool_decide (TrimLeft identifier digit = "")))
    (Split dotted ".").

Definition ParseVersion (text : string) : option Version :=
  if (MaxVersionBytes <? slen text) || negb (HasPrefix text "v") then None else
  let '(rest, build, built) := Cut (string_drop 1 text) "+" in
  if built && negb (identifiers build false) then None else
  let '(core, dotted, released) := Cut rest "-" in
  if released && negb (identifiers dotted true) then None else
  match Split core "." with
  | [a; b; c] =>
      n0 ← numeric_part a; n1 ← numeric_part b; n2 ← numeric_part c;
      Some (mkVersion n0 n1 n2 (if released then Split dotted "." else []) text)
  | _ => None
  end.

(** ** Ordering *)

Definition compareNumbers (left right : Z) : comparison :=
  if left <? right then Lt else if right <? left then Gt else Eq.

Definition compareIdentifiers (left right : string) : comparison :=
  match numeric_part left, numeric_part right with
  | Some l, Some r => compareNumbers l r
  | Some _, None => Lt
  | None, Some _ => Gt
  | None, None => String.compare left right
  end.

(** The loop over the indices both prereleases have, then their lengths. *)
Fixpoint comparePrereleases (v w : list string) : comparison :=
  match v, w with
  | l :: v, r :: w => or_else (compareIdentifiers l r) (comparePrereleases v w)
  | _, _ => compareNumbers (len v) (len w)
  end.

(** A release ranks above its prereleases. *)
Definition compareStages (v w : list string) : comparison :=
  match v, w with
  | [], [] => Eq
  | [], _ => Gt
  | _, [] => Lt
  | _, _ => comparePrereleases v w
  end.

Definition Compare (v other : Version) : comparison :=
  or_else (compareNumbers (major v) (major other))
    (or_else (compareNumbers (minor v) (minor other))
      (or_else (compareNumbers (patch v) (patch other))
        (compareStages (prerelease v) (prerelease other)))).

(** ** Numbers and identifiers are ordered *)

Lemma compareNumbers_Z l r : compareNumbers l r = Z.compare l r.
Proof.
  unfold compareNumbers. destruct (Z.compare_spec l r) as [->|H|H].
  - by rewrite Z.ltb_irrefl.
  - by rewrite (proj2 (Z.ltb_lt _ _) H).
  - rewrite (proj2 (Z.ltb_ge _ _)) by lia. by rewrite (proj2 (Z.ltb_lt _ _) H).
Qed.

#[global] Instance compareNumbers_ordered : Ranks compareNumbers.
Proof.
  split; intros; rewrite ?compareNumbers_Z in *; [apply Z.compare_eq_iff | apply cmp_opp |].
  by eapply cmp_lt.
Qed.

Lemma leading_zero_spec s : leading_zero s = false ↔ no_leading_zero s.
Proof.
  unfold leading_zero, slen. destruct s as [|c [|d s]]; [done | done |].
  rewrite (proj2 (Z.ltb_lt _ _)) by (cbn; lia). cbn. by rewrite bool_decide_eq_false.
Qed.

Lemma numeric_spec part v :
  numeric_part part = Some v ↔
  part ≠ "" ∧ no_leading_zero part ∧ decimal_from 0 part = Some v ∧ v < 2 ^ 64.
Proof.
  unfold numeric_part. rewrite <- leading_zero_spec.
  destruct (bool_decide_reflect (part = "")) as [->|Hne]; cbn [orb]; [naive_solver |].
  destruct (leading_zero part); cbn [orb]; [naive_solver |].
  destruct (bool_decide_reflect (TrimLeft part digit = "")) as [_|Ht]; cbn [negb];
    [rewrite ParseUint_spec; naive_solver |].
  split; [done |]. intros (_ & _ & H%decimal_from_made & _). by apply TrimLeft_empty in H.
Qed.

(** A number is written one way. *)
Lemma numeric_inj a b v : numeric_part a = Some v → numeric_part b = Some v → a = b.
Proof. rewrite !numeric_spec. intros (?&?&?&_) (?&?&?&_). by eapply decimal_unique. Qed.

#[global] Instance compareIdentifiers_ordered : Ranks compareIdentifiers.
Proof.
  unfold compareIdentifiers. split.
  - intros x y. destruct (numeric_part x) eqn:Hx, (numeric_part y) eqn:Hy.
    + rewrite cmp_eq. split; [intros ->; by eapply numeric_inj | intros ->; congruence].
    + split; [done | intros ->; congruence].
    + split; [done | intros ->; congruence].
    + apply cmp_eq.
  - intros x y. destruct (numeric_part x), (numeric_part y); try done; apply cmp_opp.
  - intros x y z. destruct (numeric_part x), (numeric_part y), (numeric_part z); try done; apply cmp_lt.
Qed.

#[global] Instance comparePrereleases_ordered : Ranks comparePrereleases.
Proof.
  split.
  - intros x. induction x as [|a x IH]; intros [|b y]; cbn; [done | done | done |].
    destruct (compareIdentifiers a b) eqn:Hab; cbn.
    + apply cmp_eq in Hab as ->. rewrite IH. naive_solver.
    + split; [done | intros [= -> ->]]. by rewrite (proj2 (cmp_eq b b)) in Hab.
    + split; [done | intros [= -> ->]]. by rewrite (proj2 (cmp_eq b b)) in Hab.
  - intros x. induction x as [|a x IH]; intros [|b y]; cbn; [done | done | done |].
    by rewrite or_else_opp, <- cmp_opp, IH.
  - intros x. induction x as [|a x IH]; intros [|b y] [|c z]; cbn; try done.
    apply (or_else_lt compareIdentifiers comparePrereleases). apply IH.
Qed.

#[global] Instance compareStages_ordered : Ranks compareStages.
Proof.
  unfold compareStages. split.
  - intros [|a x] [|b y]; [done | done | done |]. apply cmp_eq.
  - intros [|a x] [|b y]; [done | done | done |]. apply cmp_opp.
  - intros [|a x] [|b y] [|c z]; try done. apply cmp_lt.
Qed.

(** ** What a version orders by *)

Definition precedence (v : Version) : Z * Z * Z * list string :=
  (major v, minor v, patch v, prerelease v).

Lemma or_else_eq c d : or_else c d = Eq ↔ c = Eq ∧ d = Eq.
Proof. destruct c; naive_solver. Qed.

Lemma Compare_eq v w : Compare v w = Eq ↔ precedence v = precedence w.
Proof.
  unfold Compare, precedence. rewrite !or_else_eq, !cmp_eq. split; [| naive_solver].
  by intros (-> & -> & -> & ->).
Qed.

Lemma Compare_opp v w : Compare w v = CompOpp (Compare v w).
Proof. unfold Compare. by rewrite !or_else_opp, <- !cmp_opp. Qed.

Lemma Compare_lt u v w : Compare u v = Lt → Compare v w = Lt → Compare u w = Lt.
Proof.
  destruct u as [a1 b1 c1 p1 ?], v as [a2 b2 c2 p2 ?], w as [a3 b3 c3 p3 ?]. unfold Compare.
  cbn [major minor patch prerelease].
  apply (or_else_lt compareNumbers (λ '(b, c, p) '(b', c', p'),
    or_else (compareNumbers b b') (or_else (compareNumbers c c') (compareStages p p')))
    a1 a2 a3 (b1, c1, p1) (b2, c2, p2) (b3, c3, p3)).
  apply (or_else_lt compareNumbers (λ '(c, p) '(c', p'),
    or_else (compareNumbers c c') (compareStages p p')) b1 b2 b3 (c1, p1) (c2, p2) (c3, p3)).
  apply (or_else_lt compareNumbers compareStages). apply cmp_lt.
Qed.

(** Versions of one precedence stand in the same place in the order. *)
Lemma Compare_precedence u v w :
  precedence v = precedence w → Compare u v = Compare u w.
Proof. unfold Compare, precedence. intros [= -> -> -> ->]. done. Qed.

(** At most: the versions are ordered as numbers are. *)
Definition no_later (v w : Version) : Prop := Compare v w ≠ Gt.

Lemma no_later_spec v w : no_later v w ↔ Compare v w = Lt ∨ precedence v = precedence w.
Proof. unfold no_later. rewrite <- Compare_eq. destruct (Compare v w); naive_solver. Qed.

(** Version precedence is a total preorder, and two versions are level exactly
    when they agree on the numbers and the prerelease. *)
Theorem precedence_orders_versions :
  (∀ v, no_later v v)
  ∧ (∀ u v w, no_later u v → no_later v w → no_later u w)
  ∧ (∀ v w, no_later v w ∨ no_later w v)
  ∧ (∀ v w, no_later v w ∧ no_later w v ↔ precedence v = precedence w).
Proof.
  assert (∀ v w, no_later v w ∨ no_later w v) as Htotal.
  { intros v w. unfold no_later. rewrite (Compare_opp v w). destruct (Compare v w); naive_solver. }
  split_and!; [intros v; by destruct (Htotal v v) | | done |].
  - intros u v w Huv. rewrite no_later_spec. intros [Hvw|Hvw].
    + apply no_later_spec in Huv as [Huv|Huv].
      * unfold no_later. by rewrite (Compare_lt u v w).
      * unfold no_later. rewrite (Compare_opp w u), (Compare_precedence w u v) by done.
        by rewrite <- Compare_opp, Hvw.
    + unfold no_later. by rewrite <- (Compare_precedence u v w).
  - intros v w. rewrite <- Compare_eq. unfold no_later. rewrite (Compare_opp v w).
    destruct (Compare v w); naive_solver.
Qed.

(** ** What a parsed version was written as *)

Definition written (text : string) : string := (Cut text "+").1.1.

Lemma HasPrefix_v text : HasPrefix text "v" = true → ∃ rest, text = String "v" rest.
Proof. destruct text as [|c s]; cbn; [done |]. intros H. to_prop. naive_solver. Qed.

Lemma written_v rest : written (String "v" rest) = String "v" (Cut rest "+").1.1.
Proof. unfold written. cbn -[Cut]. by destruct (Cut rest "+") as [[b a] f] eqn:H; cbn; rewrite H. Qed.

(** The fields a version orders by, as they are read before the build. *)
Definition read_fields (rest : string) : option (Z * Z * Z * list string) :=
  let '(core, dotted, released) := Cut rest "-" in
  match Split core "." with
  | [a; b; c] =>
      n0 ← numeric_part a; n1 ← numeric_part b; n2 ← numeric_part c;
      Some (n0, n1, n2, if released : bool then Split dotted "." else [])
  | _ => None
  end.

Lemma ParseVersion_fields text v :
  ParseVersion text = Some v →
  version_text v = text ∧ slen text ≤ MaxVersionBytes ∧ ∃ rest,
    written text = String "v" rest ∧ read_fields rest = Some (precedence v).
Proof.
  unfold ParseVersion, read_fields.
  destruct (Z.ltb_spec MaxVersionBytes (slen text)) as [|Hlen]; [done |].
  destruct (HasPrefix text "v") eqn:Hv; [| done]. cbn [orb negb].
  apply HasPrefix_v in Hv as [rest ->]. change (string_drop 1 (String "v" rest)) with rest.
  rewrite written_v. destruct (Cut rest "+") as [[before build] built]. cbn [fst].
  destruct (built && _); [done |].
  destruct (Cut before "-") as [[core dotted] released] eqn:Hcut.
  destruct (released && _); [done |].
  destruct (Split core ".") as [|a [|b [|c [|]]]] eqn:Hsplit; try done.
  destruct (numeric_part a) eqn:Ha; [| done]. destruct (numeric_part b) eqn:Hb; [| done].
  destruct (numeric_part c) eqn:Hc; [| done]. intros [= <-]. cbn [version_text].
  split_and!; [done | done |]. exists before. split; [done |]. rewrite Hcut, Hsplit, Ha, Hb, Hc. done.
Qed.

(** The fields determine what they were read from. *)
Lemma read_fields_inj r1 r2 p : read_fields r1 = Some p → read_fields r2 = Some p → r1 = r2.
Proof.
  unfold read_fields.
  destruct (Cut r1 "-") as [[core1 dotted1] released1] eqn:Hcut1.
  destruct (Cut r2 "-") as [[core2 dotted2] released2] eqn:Hcut2.
  apply Cut_spec in Hcut1 as [_ ->], Hcut2 as [_ ->].
  destruct (Split core1 ".") as [|a1 [|b1 [|c1 [|]]]] eqn:Hsplit1; try done.
  destruct (Split core2 ".") as [|a2 [|b2 [|c2 [|]]]] eqn:Hsplit2; try done.
  intros (n0 & Ha1 & (n1 & Hb1 & (n2 & Hc1 & [= <-])%bind_Some)%bind_Some)%bind_Some.
  intros (m0 & Ha2 & (m1 & Hb2 & (m2 & Hc2 & [= <- <- <- Hp])%bind_Some)%bind_Some)%bind_Some.
  assert (core1 = core2) as ->.
  { rewrite <- (join_Split core1 "."), <- (join_Split core2 "."), Hsplit1, Hsplit2.
    by rewrite (numeric_inj a1 a2 m0), (numeric_inj b1 b2 m1), (numeric_inj c1 c2 m2). }
  pose proof (Split_nonempty dotted1 "."). pose proof (Split_nonempty dotted2 ".").
  destruct released1, released2; try congruence.
  by rewrite <- (join_Split dotted1 "."), <- (join_Split dotted2 "."), Hp.
Qed.

(** What a version orders by is what it is written as before its build metadata:
    two versions are level exactly when they are written alike up to the build. *)
Theorem builds_order_nothing t1 t2 v1 v2 :
  ParseVersion t1 = Some v1 → ParseVersion t2 = Some v2 →
  (Compare v1 v2 = Eq ↔ written t1 = written t2).
Proof.
  intros (_ & _ & r1 & -> & H1)%ParseVersion_fields (_ & _ & r2 & -> & H2)%ParseVersion_fields.
  rewrite Compare_eq. split; [| intros [= ->]; congruence].
  intros Hp. rewrite Hp in H1. by rewrite (read_fields_inj r1 r2 _ H1 H2).
Qed.

Lemma builds_order_nothing_witness :
  ∃ v w, ParseVersion "v1.2.3-rc.1+linux" = Some v ∧ ParseVersion "v1.2.3-rc.1" = Some w ∧
  (Compare v w = Eq ↔ written "v1.2.3-rc.1+linux" = written "v1.2.3-rc.1").
Proof.
  eexists _, _. split; [vm_compute; reflexivity |]. split; [vm_compute; reflexivity |].
  apply (builds_order_nothing "v1.2.3-rc.1+linux" "v1.2.3-rc.1"); vm_compute; reflexivity.
Defined.

Lemma ParseVersion_text text v : ParseVersion text = Some v → version_text v = text.
Proof. by intros (? & _)%ParseVersion_fields. Qed.

(** The order of the examples semantic versioning gives. *)
Example semver_examples :
  let order := ["v1.0.0-alpha"; "v1.0.0-alpha.1"; "v1.0.0-alpha.beta"; "v1.0.0-beta"; "v1.0.0-beta.2";
                "v1.0.0-beta.11"; "v1.0.0-rc.1"; "v1.0.0"; "v1.0.1"; "v1.2.0"; "v2.0.0"] in
  omap (λ '(a, b), v ← ParseVersion a; w ← ParseVersion b; Some (Compare v w)) (zip order (tail order))
  = replicate 10 Lt.
Proof. vm_compute. reflexivity. Qed.

(** A prerelease number past 64 bits is ordered as a word: it follows its bytes,
    so of two such numbers the shorter can rank above. *)
Example wide_numbers_are_words :
  (v ← ParseVersion "v1.0.0-99999999999999999999"; w ← ParseVersion "v1.0.0-100000000000000000000";
   Some (Compare v w)) = Some Gt.
Proof. vm_compute. reflexivity. Qed.
