(* ===== verification/Hex.v ===== *)
(** * Hex: bytes in base sixteen, and digits in base ten

    [hex.EncodeToString] and [hex.DecodeString], and what [pretty] (the decimal
    [strconv.Itoa] and [strconv.AppendInt] write) never contains. *)

From Stdlib Require Import ZArith Lia Ascii.
From stdpp Require Import base tactics option strings pretty numbers list.
From S2P Require Import Prelude Text Scan.

Definition hex_digit (n : N) : ascii :=
  ascii_of_N (if (n <? 10)%N then 48 + n else 87 + n)%N.

Definition hex_value (c : ascii) : option N :=
  if digit c then Some (byte c - 48)%N
  else if between 97 102 c then Some (byte c - 87)%N
  else if between 65 70 c then Some (byte c - 55)%N
  else None.

Fixpoint hex_encode (s : string) : string :=
  match s with
  | EmptyString => ""
  | String c s => String (hex_digit (byte c / 16)) (String (hex_digit (byte c mod 16)) (hex_encode s))
  end.

Fixpoint hex_decode (s : string) : option string :=
  match s with
  | EmptyString => Some ""
  | String a (String b s) =>
      x ← hex_value a; y ← hex_value b; rest ← hex_decode s;
      Some (String (ascii_of_N (x * 16 + y)) rest)
  | _ => None
  end.

Definition lowercase_hex (c : ascii) : bool := digit c || between 97 102 c.

Lemma byte_lt c : (byte c < 256)%N.
Proof. apply N_ascii_bounded. Qed.

(** Facts of all sixteen digits, and of all bytes, by running them. *)
Lemma below_16 (P : N → bool) n :
  (n < 16)%N → forallb P (N.of_nat <$> seq 0 16) = true → P n = true.
Proof.
  intros Hn Hall. rewrite forallb_forall in Hall. apply Hall.
  apply list_elem_of_In, list_elem_of_fmap. exists (N.to_nat n).
  split; [by rewrite N2Nat.id | apply elem_of_seq; lia].
Qed.

Lemma every_byte (P : ascii → bool) c :
  forallb P (ascii_of_N ∘ N.of_nat <$> seq 0 256) = true → P c = true.
Proof.
  intros Hall. rewrite forallb_forall in Hall. apply Hall.
  apply list_elem_of_In, list_elem_of_fmap. exists (N.to_nat (byte c)).
  pose proof (byte_lt c). split; [| apply elem_of_seq; lia].
  cbn. rewrite N2Nat.id. symmetry. apply ascii_N_embedding.
Qed.

Lemma hex_digit_lower n : (n < 16)%N → lowercase_hex (hex_digit n) = true.
Proof. intros H. apply (below_16 (λ n, lowercase_hex (hex_digit n))); [done | by vm_compute]. Qed.

Lemma hex_value_digit n : (n < 16)%N → hex_value (hex_digit n) = Some n.
Proof.
  intros H.
  pose proof (below_16 (λ n, bool_decide (hex_value (hex_digit n) = Some n)) n H ltac:(by vm_compute)) as Hn.
  by apply bool_decide_eq_true in Hn.
Qed.

Lemma hex_digit_value c x :
  lowercase_hex c = true → hex_value c = Some x → (x < 16)%N ∧ hex_digit x = c.
Proof.
  intros Hl Hx.
  pose proof (every_byte (λ c, negb (lowercase_hex c) || match hex_value c with
    | Some x => (x <? 16)%N && bool_decide (hex_digit x = c) | None => true end) c
    ltac:(by vm_compute)) as H.
  cbv beta in H. rewrite Hl, Hx in H. cbn in H.
  apply andb_true_iff in H as [H1%N.ltb_lt H2%bool_decide_eq_true]. done.
Qed.

Lemma hex_value_some c : lowercase_hex c = true → is_Some (hex_value c).
Proof.
  unfold lowercase_hex, hex_value. destruct (digit c); [by eexists |]. cbn. intros ->. by eexists.
Qed.

Lemma hex_encode_length s : String.length (hex_encode s) = (2 * String.length s)%nat.
Proof. induction s as [|c s IH]; cbn; [done |]. rewrite IH. lia. Qed.

Lemma hex_encode_lower s : made_of lowercase_hex (hex_encode s) = true.
Proof.
  induction s as [|c s IH]; [done |]. cbn [hex_encode made_of]. pose proof (byte_lt c).
  rewrite !hex_digit_lower; [done | apply N.mod_lt; lia | apply N.Div0.div_lt_upper_bound; lia].
Qed.

Lemma hex_decode_encode s : hex_decode (hex_encode s) = Some s.
Proof.
  induction s as [|c s IH]; [done |]. cbn [hex_encode hex_decode]. pose proof (byte_lt c).
  rewrite (hex_value_digit (byte c / 16)) by (apply N.Div0.div_lt_upper_bound; lia).
  rewrite (hex_value_digit (byte c mod 16)) by (apply N.mod_lt; lia). rewrite IH. cbn -[N.div N.modulo N.mul].
  do 2 f_equal.
  rewrite N.mul_comm, <- N.div_mod by lia. apply ascii_N_embedding.
Qed.

Lemma hex_encode_inj s t : hex_encode s = hex_encode t → s = t.
Proof. intros H. apply (f_equal hex_decode) in H. rewrite !hex_decode_encode in H. congruence. Qed.

(** Lowercase hex is what encoding writes. *)
Lemma hex_encode_decode_len n s :
  String.length s = (2 * n)%nat → made_of lowercase_hex s = true →
  ∃ d, hex_decode s = Some d ∧ hex_encode d = s.
Proof.
  revert s. induction n as [|n IH]; intros s Hlen Hs; [destruct s; [by eexists | done] |].
  destruct s as [|a [|b s]]; cbn in Hlen; [lia | lia |]. cbn [made_of] in Hs.
  apply andb_true_iff in Hs as [Ha [Hb Hs]%andb_true_iff].
  destruct (IH s ltac:(lia) Hs) as (d & Hd & He).
  destruct (hex_value_some a Ha) as [x Hx], (hex_value_some b Hb) as [y Hy].
  destruct (hex_digit_value a x Ha Hx) as [Hx16 <-], (hex_digit_value b y Hb Hy) as [Hy16 <-].
  exists (String (ascii_of_N (x * 16 + y)) d). cbn [hex_decode]. rewrite Hx, Hy, Hd. split; [done |].
  cbn [hex_encode]. unfold byte. rewrite N_ascii_embedding by lia.
  rewrite N.div_add_l, N.div_small, N.add_0_r by lia.
  rewrite (N.add_comm (x * 16)), N.Div0.mod_add, N.mod_small by lia. by rewrite He.
Qed.

(** ** Decimals *)

Lemma pretty_N_char_digit x : digit (pretty_N_char x) = true.
Proof. unfold pretty_N_char. repeat (case_match; try done). Qed.

Lemma pretty_N_go_digits x s : made_of digit s = true → made_of digit (pretty_N_go x s) = true.
Proof.
  revert s. induction (N.lt_wf_0 x) as [x _ IH]; intros s Hs.
  destruct (decide (0 < x)%N) as [Hx|Hx].
  - rewrite pretty_N_go_step by done. apply IH; [by apply N.div_lt |].
    cbn [made_of]. by rewrite pretty_N_char_digit.
  - assert (x = 0%N) as -> by lia. by rewrite pretty_N_go_0.
Qed.

Lemma pretty_N_digits (n : N) : made_of digit (pretty n) = true.
Proof. unfold pretty, pretty_N. case_decide; [done |]. by apply pretty_N_go_digits. Qed.

Lemma pretty_nat_digits (n : nat) : made_of digit (pretty n) = true.
Proof. apply pretty_N_digits. Qed.
