(* ===== verification/Rule.v ===== *)
(** * Rules: the data of [internal/detection]

    The rule language as written (expression.go), what a rule is (rule.go), the
    count and the sequence it may carry (count.go, sequence.go), and the binding,
    count and correlation a decision reports. Names follow the source. *)

From Stdlib Require Import ZArith Lia Ascii Floats.SpecFloat.
From stdpp Require Import base tactics option gmap strings numbers list.
From S2P Require Import Prelude.

(** A field is the dotted path of a scalar the event contract declares. *)
Abbreviation Field := string (only parsing).

Inductive Kind := Text | Number | Truth | Choice.
#[global] Instance Kind_eq_dec : EqDecision Kind.
Proof. solve_decision. Defined.

(** An operator is a string in the source; the ten declared ones have a
    constructor and any other string is [Undeclared]. *)
Inductive Operator :=
| Equals | OneOf | Contains | StartsWith | EndsWith
| Above | AtLeast | Below | AtMost | Present
| Undeclared (name : string).
#[global] Instance Operator_eq_dec : EqDecision Operator.
Proof. solve_decision. Defined.

Definition Operator_String (o : Operator) : string :=
  match o with
  | Equals => "equals" | OneOf => "one_of" | Contains => "contains"
  | StartsWith => "starts_with" | EndsWith => "ends_with"
  | Above => "above" | AtLeast => "at_least" | Below => "below"
  | AtMost => "at_most" | Present => "present" | Undeclared name => name
  end.

(** The kinds each operator asks about; [None] is a name the map lacks. *)
Definition accepts (o : Operator) : option (list Kind) :=
  match o with
  | Equals => Some [Text; Number; Truth; Choice]
  | OneOf => Some [Text; Number; Choice]
  | Contains | StartsWith | EndsWith => Some [Text]
  | Above | AtLeast | Below | AtMost => Some [Number]
  | Present => Some [Text; Number; Truth; Choice]
  | Undeclared _ => None
  end.

(** The literals an operator reads: a minimum and a maximum, 0 for none. *)
Definition takes (o : Operator) : Z * Z :=
  match o with
  | Present => (0, 0)
  | OneOf => (1, 0)
  | _ => (1, 1)
  end.

Definition operator_asks (o : Operator) (k : Kind) : bool :=
  match accepts o with Some kinds => contains_elem kinds k | None => false end.

Definition known (o : Operator) : bool :=
  match accepts o with Some _ => true | None => false end.

(** A literal. [float64] is IEEE 754 binary64 as Rocq's [spec_float]. *)
Abbreviation float64 := spec_float (only parsing).

Record Value := mkValue {
  value_kind : Kind;
  value_text : string;
  value_number : float64;
  value_truth : bool;
}.

Definition TextValue (t : string) : Value := mkValue Text t (S754_zero false) false.
Definition NumberValue (n : float64) : Value := mkValue Number "" n false.
Definition TruthValue (b : bool) : Value := mkValue Truth "" (S754_zero false) b.

Definition fits (v : Value) (k : Kind) : bool :=
  if decide (k = Choice) then bool_decide (value_kind v = Text)
  else bool_decide (value_kind v = k).

Record Predicate := mkPredicate {
  pred_field : Field;
  pred_operator : Operator;
  pred_values : list Value;
}.

(** The closed interface of written expressions. [Missing] is the nil
    interface and [Foreign] any Go type the language does not name. *)
Inductive Expression :=
| Pred (p : Predicate)
| All (terms : list Expression)
| Any (terms : list Expression)
| Not (term : Expression)
| Missing
| Foreign (type_name : string).

Section expression_ind.
Context (P : Expression → Prop)
  (HPred : ∀ p, P (Pred p))
  (HAll : ∀ ts, Forall P ts → P (All ts))
  (HAny : ∀ ts, Forall P ts → P (Any ts))
  (HNot : ∀ t, P t → P (Not t))
  (HMissing : P Missing)
  (HForeign : ∀ n, P (Foreign n)).

Fixpoint Expression_rect' (e : Expression) : P e :=
  let fix go (ts : list Expression) : Forall P ts :=
    match ts with
    | [] => List.Forall_nil P
    | t :: ts => @List.Forall_cons _ P t ts (Expression_rect' t) (go ts)
    end in
  match e with
  | Pred p => HPred p
  | All ts => HAll ts (go ts)
  | Any ts => HAny ts (go ts)
  | Not t => HNot t (Expression_rect' t)
  | Missing => HMissing
  | Foreign n => HForeign n
  end.
End expression_ind.

(** ** Counts *)

Record Count := mkCount {
  count_at_least : Z;
  count_within : duration;
  count_group_by : list Field;
}.

Definition count_empty (c : Count) : bool :=
  (count_at_least c =? 0) && (count_within c =? 0) && (len (count_group_by c) =? 0).

Definition Counts (c : Count) : bool := negb (count_empty c).

(** One field a counting rule groups by and what the event held in it. *)
Record Binding := mkBinding {
  bind_field : Field;
  bind_value : string;
  bind_absent : bool;
}.
#[global] Instance Binding_eq_dec : EqDecision Binding.
Proof. solve_decision. Defined.

Definition tenantField : Field := "origin.tenant_id".
Definition identityField : Field := "event_id".

Definition Binding_String (b : Binding) : string :=
  if bind_absent b then bind_field b +:+ " absent"
  else bind_field b +:+ " " +:+ bind_value b.

Record Counted := mkCounted {
  counted_group : list Binding;
  counted_count : Z;
  counted_first : instant;
  counted_saturated : bool;
}.

(** ** Sequences *)

Record Stage := mkStage { stage_name : string; stage_match : Expression }.

Record Sequence := mkSequence {
  seq_stages : list Stage;
  seq_within : duration;
  seq_group_by : list Field;
}.

Definition Correlates (s : Sequence) : bool :=
  (0 <? len (seq_stages s)) || negb (seq_within s =? 0) || (0 <? len (seq_group_by s)).

(** [Stages] is a [uint8] used as a set of stage indexes. *)
Abbreviation Stages := Z (only parsing).

Definition stages_add (s : Stages) (stage : Z) : Stages :=
  Z.lor s (uint8 (Z.shiftl 1 stage)).
Definition stages_has (s : Stages) (stage : Z) : bool :=
  negb (Z.land s (uint8 (Z.shiftl 1 stage)) =? 0).
Definition stages_any (s : Stages) : bool := negb (s =? 0).

Definition Stages_String (s : Stages) : string :=
  String (ascii_of_N (Z.to_N (uint8 s))) EmptyString.

Definition StagesOf (value : string) : Stages :=
  match value with
  | String c EmptyString => Z.of_N (N_of_ascii c)
  | _ => 0
  end.

Record Satisfied := mkSatisfied {
  sat_name : string;
  sat_agent : string;
  sat_event : string;
  sat_at : instant;
}.

Record Correlated := mkCorrelated {
  corr_group : list Binding;
  corr_stages : list Satisfied;
  corr_clock_spread : duration;
}.

Definition corr_events (c : Correlated) : list string := sat_event <$> corr_stages c.

(** [c.Stages[len-1].At.Sub(c.Stages[0].At)], 0 below two stages. *)
Definition corr_span (c : Correlated) : duration :=
  if len (corr_stages c) <? 2 then 0
  else match last (corr_stages c), head (corr_stages c) with
       | Some l, Some f => time_sub (sat_at l) (sat_at f)
       | _, _ => 0
       end.

Definition corr_ordered (c : Correlated) : bool := corr_clock_spread c <? corr_span c.

(** ** Rules *)

Inductive Severity := Low | Medium | High | Critical | OtherSeverity (name : string).
#[global] Instance Severity_eq_dec : EqDecision Severity.
Proof. solve_decision. Defined.

Inductive Status := Draft | Active | Disabled | Deprecated | OtherStatus (name : string).
#[global] Instance Status_eq_dec : EqDecision Status.
Proof. solve_decision. Defined.

Definition Runs (s : Status) : bool := bool_decide (s = Active).

Record Technique := mkTechnique {
  tech_tactic : string;
  tech_id : string;
  tech_name : string;
}.

Definition technique_empty (t : Technique) : bool :=
  bool_decide (tech_tactic t = "") && bool_decide (tech_id t = "")
  && bool_decide (tech_name t = "").

Record Source := mkSource { src_catalogue : string; src_identifier : string }.

Definition source_empty (s : Source) : bool :=
  bool_decide (src_catalogue s = "") && bool_decide (src_identifier s = "").

(** An event class is the number the contract gives it. *)
Abbreviation EventClass := Z (only parsing).

Record Rule := mkRule {
  rule_id : string;
  rule_revision : Z;
  rule_name : string;
  rule_description : string;
  rule_class : EventClass;
  rule_match : Expression;
  rule_count : Count;
  rule_sequence : Sequence;
  rule_severity : Severity;
  rule_status : Status;
  rule_technique : Technique;
  rule_false_positives : string;
  rule_response : string;
  rule_source : Source;
  rule_tags : list string;
  rule_references : list string;
}.

(** The contract's severities, as a detection carries one on the wire; a number
    this build does not declare is [SEVERITY_OTHER]. *)
Inductive WireSeverity :=
| SEVERITY_UNSPECIFIED | SEVERITY_LOW | SEVERITY_MEDIUM | SEVERITY_HIGH
| SEVERITY_CRITICAL | SEVERITY_OTHER (number : Z).
#[global] Instance WireSeverity_eq_dec : EqDecision WireSeverity.
Proof. solve_decision. Defined.

(** The severity a detection reports, and [None] for one the map lacks. *)
Definition severities (s : Severity) : option WireSeverity :=
  match s with
  | Low => Some SEVERITY_LOW | Medium => Some SEVERITY_MEDIUM
  | High => Some SEVERITY_HIGH | Critical => Some SEVERITY_CRITICAL
  | OtherSeverity _ => None
  end.

Definition statuses (s : Status) : bool :=
  match s with OtherStatus _ => false | _ => true end.

Definition tactics : list string :=
  ["reconnaissance"; "resource_development"; "initial_access"; "execution";
   "persistence"; "privilege_escalation"; "defense_evasion"; "credential_access";
   "discovery"; "lateral_movement"; "collection"; "command_and_control";
   "exfiltration"; "impact"].

(** ** Lemmas *)

Lemma shiftl_one_uint8 i : 0 ≤ i < 8 → uint8 (Z.shiftl 1 i) = 2 ^ i.
Proof.
  intros Hi. rewrite Z.shiftl_1_l. apply wrap_uint_small.
  split; [lia |]. apply Z.pow_lt_mono_r; lia.
Qed.

Lemma land_pow2_testbit s i : 0 ≤ i → negb (Z.land s (2 ^ i) =? 0) = Z.testbit s i.
Proof.
  intros Hi. destruct (Z.testbit s i) eqn:Hb.
  - apply negb_true_iff, Z.eqb_neq. intros H0.
    assert (Z.testbit (Z.land s (2 ^ i)) i = false) as Hf by (by rewrite H0, Z.bits_0).
    by rewrite Z.land_spec, Hb, Z.pow2_bits_true in Hf by lia.
  - apply negb_false_iff, Z.eqb_eq, Z.bits_inj_0. intros n.
    rewrite Z.land_spec. destruct (decide (n = i)) as [->|Hn]; [by rewrite Hb |].
    by rewrite Z.pow2_bits_false, andb_false_r by lia.
Qed.

(** A set of stages reads back exactly the stages added to it. *)
Lemma stages_has_add s i j :
  0 ≤ i < 8 → 0 ≤ j < 8 →
  stages_has (stages_add s i) j = (i =? j) || stages_has s j.
Proof.
  intros Hi Hj. unfold stages_has, stages_add.
  rewrite !shiftl_one_uint8, !land_pow2_testbit, Z.lor_spec by lia.
  rewrite orb_comm. f_equal.
  destruct (Z.eqb_spec i j) as [->|Hne]; [apply Z.pow2_bits_true; lia |].
  apply Z.pow2_bits_false. lia.
Qed.

Lemma stages_has_zero j : stages_has 0 j = false.
Proof. unfold stages_has. by rewrite Z.land_0_l. Qed.

(** The one-byte value an observation carries is the set of stages it wrote. *)
Lemma StagesOf_String s : 0 ≤ s < 256 → StagesOf (Stages_String s) = s.
Proof.
  intros Hs. unfold StagesOf, Stages_String.
  rewrite wrap_uint_small by (change (2 ^ 8) with 256; lia).
  rewrite N_ascii_embedding; lia.
Qed.

Lemma stages_any_has s j : stages_has s j = true → stages_any s = true.
Proof.
  unfold stages_any. destruct (Z.eqb_spec s 0) as [->|]; [by rewrite stages_has_zero | done].
Qed.
