(* ===== verification/Contract.v ===== *)
(** * The event contract and the vocabulary read out of it (field.go, class.go)

    The contract is generated code of another repository, so its descriptors
    and the messages they describe are parameters: [Contract] is what
    [protoreflect] answers about the event message and [Messages] what it
    answers about one event. What the detection package builds of them (which
    fields a rule may name, what each holds and how to reach it) is translated
    in full. *)

From Stdlib Require Import ZArith Lia Ascii Floats.SpecFloat.
From stdpp Require Import base tactics option gmap strings pretty numbers list.
From S2P Require Import Prelude Text Rule.

(** ** protoreflect *)

Inductive PKind :=
| StringKind | BytesKind | BoolKind | EnumKind | MessageKind | GroupKind
| Int32Kind | Sint32Kind | Sfixed32Kind | Int64Kind | Sint64Kind | Sfixed64Kind
| Uint32Kind | Fixed32Kind | Uint64Kind | Fixed64Kind | FloatKind | DoubleKind.
#[global] Instance PKind_eq_dec : EqDecision PKind.
Proof. solve_decision. Defined.

Record EnumDescriptor := mkEnum { enum_name : string; enum_values : list (string * Z) }.

Record FieldDescriptor := mkFieldDescriptor {
  fd_name : string;
  fd_list : bool;
  fd_map : bool;
  fd_kind : PKind;
  fd_enum : EnumDescriptor;
  fd_message : string;
}.

(** A value as [protoreflect.Value] carries one of a scalar. A [float32] is the
    [float64] of the same value. *)
Inductive PValue :=
| PString (s : string) | PBytes (s : string) | PBool (b : bool) | PEnum (n : Z)
| PInt32 (z : Z) | PInt64 (z : Z) | PUint32 (z : Z) | PUint64 (z : Z)
| PFloat32 (f : float64) | PFloat64 (f : float64).

Class Contract := {
  message_fields : string → list FieldDescriptor;
  event_message : string;
  event_oneofs : list string;
  EventClass_name : Z → option string;
}.

Class Messages (M : Type) := {
  Has : M → FieldDescriptor → bool;
  Get : M → FieldDescriptor → PValue;
  GetMessage : M → FieldDescriptor → M;
  GetEventClass : M → Z;
}.

(** ** The vocabulary (field.go) *)

Record vocable := mkVocable {
  v_kind : Kind;
  v_choices : list string;
  v_path : list FieldDescriptor;
}.

Definition numeric (k : PKind) : bool :=
  match k with
  | Int32Kind | Int64Kind | Uint32Kind | Uint64Kind | Sint32Kind | Sint64Kind
  | Fixed32Kind | Fixed64Kind | Sfixed32Kind | Sfixed64Kind | FloatKind | DoubleKind => true
  | _ => false
  end.

Fixpoint snake_go (first : bool) (name : string) : string :=
  match name with
  | EmptyString => EmptyString
  | String c rest =>
      let c' := String c (snake_go false rest) in
      if negb first && uppercase c then String "_" c' else c'
  end.
Definition upperSnake (name : string) : string := ToUpper (snake_go true name).

Definition shortName (e : EnumDescriptor) (value : string * Z) : string :=
  ToLower (TrimPrefix value.1 (upperSnake (enum_name e) +:+ "_")).

Definition choicesOf (e : EnumDescriptor) : list string := shortName e <$> enum_values e.

Definition maxDepth : Z := 8.

Section contract.
Context `{Contract}.

(** [depth] counts up to [maxDepth] in the source; [fuel] counts the same levels
    down, so the walk of the event starts with one more than [maxDepth]. *)
Fixpoint describe (fuel : nat) (message prefix : string) (trail : list FieldDescriptor)
    (into : gmap Field vocable) : gmap Field vocable :=
  match fuel with
  | O => into
  | S fuel =>
      foldl (λ into field,
        if fd_list field || fd_map field then into
        else
          let path := prefix +:+ fd_name field in
          let reach := trail ++ [field] in
          match fd_kind field with
          | StringKind => <[path := mkVocable Text [] reach]> into
          | BoolKind => <[path := mkVocable Truth [] reach]> into
          | EnumKind => <[path := mkVocable Choice (choicesOf (fd_enum field)) reach]> into
          | MessageKind | GroupKind =>
              if HasPrefix (fd_message field) "google.protobuf." then into
              else describe fuel (fd_message field) (path +:+ ".") reach into
          | k => if numeric k then <[path := mkVocable Number [] reach]> into else into
          end) into (message_fields message)
  end.

Definition vocabulary : gmap Field vocable :=
  describe (S (Z.to_nat maxDepth)) event_message "" [] ∅.

Definition KindOf (field : Field) : option Kind := v_kind <$> vocabulary !! field.
Definition pathOf (field : Field) : option (list FieldDescriptor) := v_path <$> vocabulary !! field.
Definition ChoicesOf (field : Field) : list string :=
  match vocabulary !! field with Some v => v_choices v | None => [] end.
Definition Fields : list Field := sort_strings (map_to_list vocabulary).*1.

Definition className (class : EventClass) : string :=
  match EventClass_name class with
  | None => ""
  | Some name => ToLower (TrimPrefix name "EVENT_CLASS_")
  end.

Definition is_body (root : string) : bool := contains_elem event_oneofs root.

Definition AddressableBy (field : Field) (class : EventClass) : bool :=
  match KindOf field with
  | None => false
  | Some _ =>
      let root := cut_before "." field in
      if negb (is_body root) then true else bool_decide (root = className class)
  end.

(** ** What every entry of the vocabulary is *)

Definition kind_of_leaf (f : FieldDescriptor) : option Kind :=
  match fd_kind f with
  | StringKind => Some Text
  | BoolKind => Some Truth
  | EnumKind => Some Choice
  | MessageKind | GroupKind | BytesKind => None
  | _ => Some Number
  end.

(** The dotted path written by the names on the way down. *)
Fixpoint dotted (path : list FieldDescriptor) : string :=
  match path with
  | [] => ""
  | [f] => fd_name f
  | f :: path => fd_name f +:+ "." +:+ dotted path
  end.

Record vocable_ok (field : Field) (v : vocable) : Prop := {
  vo_leaf : ∃ trail leaf, v_path v = trail ++ [leaf]
    ∧ kind_of_leaf leaf = Some (v_kind v)
    ∧ (v_kind v = Choice → v_choices v = choicesOf (fd_enum leaf));
  vo_name : dotted (v_path v) = field;
  vo_scalar : Forall (λ f, fd_list f = false ∧ fd_map f = false
                           ∧ ∃ message, f ∈ message_fields message) (v_path v);
  vo_depth : (length (v_path v) ≤ S (Z.to_nat maxDepth))%nat;
}.
End contract.

(** What stands before the last name: every name on the way with its dot. *)
Definition dotted_prefix (trail : list FieldDescriptor) : string :=
  foldr (λ f rest, fd_name f +:+ "." +:+ rest) "" trail.

Lemma dotted_snoc trail f : dotted (trail ++ [f]) = dotted_prefix trail +:+ fd_name f.
Proof.
  induction trail as [|g trail IH]; [done |]. cbn [app dotted_prefix foldr].
  assert (dotted (g :: trail ++ [f]) = fd_name g +:+ "." +:+ dotted (trail ++ [f])) as ->
    by (by destruct trail).
  rewrite IH. unfold dotted_prefix. by rewrite !string_app_assoc.
Qed.

Lemma dotted_prefix_snoc trail f :
  dotted_prefix (trail ++ [f]) = dotted_prefix trail +:+ fd_name f +:+ ".".
Proof.
  unfold dotted_prefix. induction trail as [|g trail IH]; cbn [app foldr]; [done |].
  by rewrite IH, !string_app_assoc.
Qed.

Section vocabulary.
Context `{Contract}.

Lemma describe_ok fuel message trail into :
  (∀ field v, into !! field = Some v → vocable_ok field v) →
  Forall (λ f, fd_list f = false ∧ fd_map f = false ∧ ∃ message, f ∈ message_fields message) trail →
  (length trail + fuel = S (Z.to_nat maxDepth))%nat →
  ∀ field v, describe fuel message (dotted_prefix trail) trail into !! field = Some v →
  vocable_ok field v.
Proof.
  revert message trail into. induction fuel as [|fuel IH]; intros message trail into Hinto Hs Hl;
    cbn [describe]; [done |].
  assert (∀ f, f ∈ message_fields message → ∃ message, f ∈ message_fields message) as Hin by eauto.
  revert Hin. generalize (message_fields message). intros fields Hin. revert into Hinto.
  induction fields as [|f fields IHf]; intros into Hinto; cbn [foldl]; [done |].
  apply IHf; [intros; apply Hin; by right |]. intros field v.
  destruct (fd_list f || fd_map f) eqn:Hlm; [apply Hinto |]. to_prop.
  specialize (Hin f (list_elem_of_here _ _)).
  assert (Forall (λ f, fd_list f = false ∧ fd_map f = false ∧ ∃ message, f ∈ message_fields message)
            (trail ++ [f])) as Hs'
    by (apply Forall_app; split; [done | by apply Forall_singleton]).
  assert (∀ kind choices, kind_of_leaf f = Some kind →
    (kind = Choice → choices = choicesOf (fd_enum f)) →
    <[dotted_prefix trail +:+ fd_name f := mkVocable kind choices (trail ++ [f])]> into !! field = Some v →
    vocable_ok field v) as Hleaf.
  { intros kind choices Hk Hc. rewrite lookup_insert. case_decide as Hd; [| apply Hinto].
    intros [= <-]. subst field. split; cbn [v_kind v_choices v_path].
    - exists trail, f. done.
    - apply dotted_snoc.
    - done.
    - rewrite length_app. cbn. lia. }
  cbv zeta. destruct (fd_kind f) eqn:Hk; cbv beta iota delta [numeric];
    try (apply Hleaf; unfold kind_of_leaf; by rewrite ?Hk);
    try apply Hinto;
    (destruct (HasPrefix _ _); [apply Hinto |]; rewrite string_app_assoc, <- dotted_prefix_snoc;
     apply IH; [done | done | rewrite length_app; cbn; lia]).
Qed.

Lemma vocabulary_ok field v : vocabulary !! field = Some v → vocable_ok field v.
Proof.
  unfold vocabulary. change "" with (dotted_prefix []).
  apply describe_ok; [intros f w; by rewrite lookup_empty | by apply Forall_nil | done].
Qed.
End vocabulary.
