(* ===== verification/Bytes.v ===== *)
(** * Bytes: fixed-width integers and base64 as the sources write them

    [binary.BigEndian]'s 64-bit integers, [uint64] and [int64] of one another,
    and [base64.RawURLEncoding]: its decoder skips carriage returns and line
    feeds, refuses bytes outside the alphabet and a lone last character, and does
    not mind the bits a shorter last group leaves over. Text as runes: what UTF-8
    is, [utf8.RuneLen] and [utf8.ValidString], what a range over a string reads, and
    [strings.Map], which writes a string back when it maps every rune to itself. *)

From Stdlib Require Import ZArith Lia Ascii Floats.SpecFloat.
From stdpp Require Import base tactics option strings pretty numbers list gmap sorting.
From S2P Require Import Prelude Text Scan Hex Rule Contract.


(** ** Big-endian integers *)

(** The number the first [n] bytes are. *)
Fixpoint be_uint (n : nat) (acc : Z) (s : string) : Z :=
  match n, s with
  | S n, String c s => be_uint n (acc * 256 + Z.of_N (byte c)) s
  | _, _ => acc
  end.

Definition byte_of (z : Z) : ascii := ascii_of_N (Z.to_N (z mod 256)).

(** [n] bytes of a number, most significant first. *)
Fixpoint be_put (n : nat) (z : Z) : string :=
  match n with
  | O => ""
  | S n => String (byte_of (z / 256 ^ Z.of_nat n)) (be_put n z)
  end.

Definition BigEndian_Uint64 (s : string) : Z := be_uint 8 0 s.
Definition BigEndian_PutUint64 (z : Z) : string := be_put 8 (wrap_uint 64 z).

Lemma byte_of_value z : Z.of_N (byte (byte_of z)) = z mod 256.
Proof.
  unfold byte, byte_of. pose proof (Z.mod_pos_bound z 256 ltac:(lia)).
  rewrite N_ascii_embedding by lia. lia.
Qed.

Lemma be_put_length n z : String.length (be_put n z) = n.
Proof. induction n as [|n IH]; cbn; [done | by rewrite IH]. Qed.

Lemma be_uint_app n s t : ∀ acc, String.length s = n → be_uint n acc (s +:+ t) = be_uint n acc s.
Proof.
  revert s. induction n as [|n IH]; intros [|c s] acc Hl; try discriminate; [by destruct t |].
  change (String c s +:+ t) with (String c (s +:+ t)). cbn [be_uint]. apply IH. by injection Hl.
Qed.

Lemma be_uint_put n z : ∀ acc, be_uint n acc (be_put n z) = acc * 256 ^ Z.of_nat n + z mod 256 ^ Z.of_nat n.
Proof.
  induction n as [|n IH]; intros acc; cbn [be_uint be_put].
  { rewrite Z.mod_1_r. lia. }
  rewrite IH, byte_of_value. rewrite Nat2Z.inj_succ, Z.pow_succ_r by lia.
  set (p := 256 ^ Z.of_nat n). assert (0 < p) by (apply Z.pow_pos_nonneg; lia).
  rewrite (Z.mul_comm 256 p), Z.rem_mul_r by lia. ring.
Qed.

Lemma BigEndian_roundtrip z t :
  0 ≤ z < 2 ^ 64 → BigEndian_Uint64 (BigEndian_PutUint64 z +:+ t) = z.
Proof.
  intros Hz. unfold BigEndian_Uint64, BigEndian_PutUint64.
  rewrite be_uint_app by apply be_put_length. rewrite be_uint_put, wrap_uint_small by done.
  change (256 ^ Z.of_nat 8) with (2 ^ 64). rewrite Z.mod_small; lia.
Qed.

Lemma BigEndian_length z : String.length (BigEndian_PutUint64 z) = 8%nat.
Proof. apply be_put_length. Qed.

Lemma be_uint_range n : ∀ s acc, 0 ≤ acc → 0 ≤ be_uint n acc s.
Proof. induction n as [|n IH]; intros [|c s] acc H; cbn; try done. apply IH. lia. Qed.

(** An [int64] survives being written as a [uint64]. *)
Lemma int64_of_uint64 z : - 2 ^ 63 ≤ z < 2 ^ 63 → int64 (wrap_uint 64 z) = z.
Proof.
  intros Hz. unfold int64, wrap_uint. rewrite Zplus_mod_idemp_l. rewrite Z.mod_small by lia. lia.
Qed.

(** ** Framing: each part with its length in front *)

Definition frame (part : string) : string :=
  BigEndian_PutUint64 (slen part) +:+ part.

Definition frames (parts : list string) : string := foldr (λ part rest, frame part +:+ rest) "" parts.

(** A length a 64-bit integer holds. *)
Definition in_memory (part : string) : Prop := slen part < 2 ^ 64.

Lemma frame_inj p q r s :
  in_memory p → in_memory q → frame p +:+ r = frame q +:+ s → p = q ∧ r = s.
Proof.
  unfold frame, in_memory. intros Hp Hq. rewrite !string_app_assoc. intros H.
  apply string_app_inj in H as [Hl H]; [| by rewrite !BigEndian_length].
  assert (slen p = slen q) as Hlen.
  { pose proof (BigEndian_roundtrip (slen p) "" ltac:(unfold slen in *; lia)) as H1.
    rewrite Hl in H1. rewrite (BigEndian_roundtrip (slen q)) in H1 by (unfold slen in *; lia). done. }
  apply string_app_inj in H; [done |]. unfold slen in Hlen. lia.
Qed.

Lemma frames_inj l1 : ∀ l2,
  Forall in_memory l1 → Forall in_memory l2 → frames l1 = frames l2 → l1 = l2.
Proof.
  induction l1 as [|p l1 IH]; intros [|q l2] H1 H2 H; cbn [frames foldr] in H; [done | | |].
  - exfalso. apply (f_equal String.length) in H. unfold frame in H.
    rewrite string_app_assoc in H. pose proof (BigEndian_length (slen q)) as Hl.
    destruct (BigEndian_PutUint64 (slen q)); [done | discriminate H].
  - exfalso. apply (f_equal String.length) in H. unfold frame in H.
    rewrite string_app_assoc in H. pose proof (BigEndian_length (slen p)) as Hl.
    destruct (BigEndian_PutUint64 (slen p)); [done | discriminate H].
  - apply Forall_cons in H1 as [Hp H1], H2 as [Hq H2].
    apply frame_inj in H as [-> H]; [| done | done]. f_equal. by apply IH.
Qed.

(** ** base64, URL alphabet, no padding *)

Definition base64_char (n : N) : ascii :=
  ascii_of_N (if n <? 26 then 65 + n else if n <? 52 then 71 + n else if n <? 62 then n - 4
              else if n =? 62 then 45 else 95)%N.

Definition base64_value (c : ascii) : option N :=
  if uppercase c then Some (byte c - 65)%N
  else if lowercase c then Some (byte c - 71)%N
  else if digit c then Some (byte c + 4)%N
  else if bool_decide (c = "-"%char) then Some 62%N
  else if bool_decide (c = "_"%char) then Some 63%N
  else None.

Definition chr_of (n : N) : ascii := ascii_of_N (n mod 256).

Fixpoint base64_encode (s : string) : string :=
  match s with
  | EmptyString => ""
  | String a EmptyString =>
      let a := byte a in
      String (base64_char (a / 4)) (String (base64_char (a mod 4 * 16)) "")
  | String a (String b EmptyString) =>
      let a := byte a in let b := byte b in
      String (base64_char (a / 4)) (String (base64_char (a mod 4 * 16 + b / 16))
        (String (base64_char (b mod 16 * 4)) ""))
  | String a (String b (String c rest)) =>
      let a := byte a in let b := byte b in let c := byte c in
      String (base64_char (a / 4)) (String (base64_char (a mod 4 * 16 + b / 16))
        (String (base64_char (b mod 16 * 4 + c / 64)) (String (base64_char (c mod 64)) (base64_encode rest))))
  end%N.

(** Decoding what is left once line ends are gone. *)
Fixpoint base64_groups (s : string) : option string :=
  match s with
  | EmptyString => Some ""
  | String _ EmptyString => None
  | String a (String b EmptyString) =>
      x ← base64_value a; y ← base64_value b;
      Some (String (chr_of (x * 4 + y / 16)) "")
  | String a (String b (String c EmptyString)) =>
      x ← base64_value a; y ← base64_value b; z ← base64_value c;
      Some (String (chr_of (x * 4 + y / 16)) (String (chr_of (y mod 16 * 16 + z / 4)) ""))
  | String a (String b (String c (String d rest))) =>
      x ← base64_value a; y ← base64_value b; z ← base64_value c; w ← base64_value d;
      decoded ← base64_groups rest;
      Some (String (chr_of (x * 4 + y / 16)) (String (chr_of (y mod 16 * 16 + z / 4))
        (String (chr_of (z mod 4 * 64 + w)) decoded)))
  end%N.

Definition line_end (c : ascii) : bool := (byte c =? 10)%N || (byte c =? 13)%N.

Fixpoint without_line_ends (s : string) : string :=
  match s with
  | EmptyString => ""
  | String c s => if line_end c then without_line_ends s else String c (without_line_ends s)
  end.

Definition base64_decode (s : string) : option string := base64_groups (without_line_ends s).

Definition base64_byte (c : ascii) : bool := alnum c || bool_decide (c = "-"%char) || bool_decide (c = "_"%char).

Lemma below_64 (P : N → bool) n :
  (n < 64)%N → forallb P (N.of_nat <$> seq 0 64) = true → P n = true.
Proof.
  intros Hn Hall. rewrite forallb_forall in Hall. apply Hall.
  apply list_elem_of_In, list_elem_of_fmap. exists (N.to_nat n).
  split; [by rewrite N2Nat.id | apply elem_of_seq; lia].
Qed.

Lemma base64_value_char n : (n < 64)%N → base64_value (base64_char n) = Some n.
Proof.
  intros H.
  pose proof (below_64 (λ n, bool_decide (base64_value (base64_char n) = Some n)) n H ltac:(by vm_compute)) as Hn.
  by apply bool_decide_eq_true in Hn.
Qed.

Lemma base64_char_byte n : (n < 64)%N → base64_byte (base64_char n) = true.
Proof. intros H. by apply (below_64 (λ n, base64_byte (base64_char n)) n H). Qed.

(** Strings by groups of three bytes. *)
Lemma string_ind3 (P : string → Prop) :
  P "" → (∀ a, P (String a "")) → (∀ a b, P (String a (String b ""))) →
  (∀ a b c s, P s → P (String a (String b (String c s)))) → ∀ s, P s.
Proof.
  intros H0 H1 H2 H3 s. remember (String.length s) as n eqn:Hn. revert s Hn.
  induction (Nat.lt_wf_0 n) as [n _ IH]. intros [|a [|b [|c s]]] ->; auto.
  apply H3. eapply IH; [| done]. cbn. lia.
Qed.

Ltac indexes := repeat match goal with |- context [byte ?c] =>
  lazymatch goal with H : (byte c < 256)%N |- _ => fail | _ => pose proof (byte_lt c) end end.

Ltac in_64 := indexes; zify; Z.to_euclidean_division_equations; lia.

Lemma base64_encode_bytes s : made_of base64_byte (base64_encode s) = true.
Proof.
  induction s as [|a|a b|a b c s IH] using string_ind3; [done | | |];
    cbn [base64_encode made_of]; cbv zeta; rewrite !base64_char_byte by in_64; done.
Qed.

Lemma without_line_ends_base64 s : made_of base64_byte s = true → without_line_ends s = s.
Proof.
  induction s as [|c s IH]; cbn; [done |]. intros [Hc Hs]%andb_true_iff.
  assert (line_end c = false) as ->.
  { pose proof (every_byte (λ c, negb (base64_byte c) || negb (line_end c)) c ltac:(by vm_compute)) as H.
    cbv beta in H. rewrite Hc in H. by apply negb_true_iff in H. }
  by rewrite IH.
Qed.

Lemma chr_of_byte n c : n = byte c → chr_of n = c.
Proof.
  intros ->. unfold chr_of. pose proof (byte_lt c). rewrite N.mod_small by done. apply ascii_N_embedding.
Qed.

Lemma base64_roundtrip s : base64_decode (base64_encode s) = Some s.
Proof.
  unfold base64_decode. rewrite without_line_ends_base64 by apply base64_encode_bytes.
  induction s as [|a|a b|a b c s IH] using string_ind3; [done | | |];
    cbn [base64_encode]; cbv zeta; cbn [base64_groups]; rewrite !base64_value_char by in_64;
    [| | rewrite IH]; cbn [mbind option_bind]; repeat f_equal; apply chr_of_byte; in_64.
Qed.

Lemma base64_free s : free_of "." (base64_encode s).
Proof. by eapply (free_of_made _ base64_byte), base64_encode_bytes. Qed.

(** * Messages: protobuf messages as reflection sees them

    A message is a tree: the bytes no declared field took, and its populated
    fields. [declared] (detection/detected.go) drops those bytes at every depth
    it ranges over, [known_message] (agentpolicy/policy.go and
    agentupdate/update.go) refuses a message that holds any. *)


(** ** Messages, as [protoreflect] ranges over them *)

Inductive Proto := mkProto (unknown : string) (fields : list (string * PField))
with PField :=
| PScalar (value : PValue)
| PMessage (m : Proto)
| PMessages (l : list Proto)
| PMap (entries : list (string * Proto)).

Fixpoint forget (m : Proto) : Proto :=
  match m with
  | mkProto _ fields =>
      mkProto "" (List.map (λ '(name, f), (name,
        match f with
        | PScalar v => PScalar v
        | PMessage m => PMessage (forget m)
        | PMessages l => PMessages (List.map forget l)
        | PMap entries => PMap entries
        end)) fields)
  end.

(** [proto.Clone] copies, and a nil message stays nil. *)
Definition declared (held : option Proto) : option Proto := forget <$> held.

(** Messages reached through message fields and lists of them. *)
Inductive reaches : Proto → Proto → Prop :=
| reaches_self m : reaches m m
| reaches_field u fields name m1 m2 :
    (name, PMessage m1) ∈ fields → reaches m2 m1 → reaches m2 (mkProto u fields)
| reaches_list u fields name l m1 m2 :
    (name, PMessages l) ∈ fields → m1 ∈ l → reaches m2 m1 → reaches m2 (mkProto u fields).

Definition unknown_of (m : Proto) : string := let 'mkProto u _ := m in u.

(** The range stops at the first message with bytes no field took. No message
    it is used on declares a map, and a map's value is not read as a message. *)
Fixpoint known_message (m : Proto) : bool :=
  match m with
  | mkProto unknown fields =>
      bool_decide (unknown = "") && forallb (λ '(_, f),
        match f with
        | PScalar _ => true
        | PMessage m => known_message m
        | PMessages l => forallb known_message l
        | PMap _ => false
        end) fields
  end.

Section proto_ind.
Context (P : Proto → Prop)
  (step : ∀ u fields,
    (∀ name m, (name, PMessage m) ∈ fields → P m) →
    (∀ name l m, (name, PMessages l) ∈ fields → m ∈ l → P m) →
    P (mkProto u fields)).

(** Messages are reached through fields and lists of them. *)
Fixpoint message_ind (m : Proto) : P m.
Proof.
  destruct m as [u fields]. apply step.
  - induction fields as [|[n f] fields IH]; intros name m H; [exfalso; exact (not_elem_of_nil _ H) |].
    apply elem_of_cons in H. destruct f as [v|m'|l|e];
      (destruct H as [H|H]; [try discriminate H | exact (IH name m H)]).
    injection H as _ ->. exact (message_ind m').
  - induction fields as [|[n f] fields IH]; intros name l m H Hm; [exfalso; exact (not_elem_of_nil _ H) |].
    apply elem_of_cons in H. destruct f as [v|m'|l'|e];
      (destruct H as [H|H]; [try discriminate H | exact (IH name l m H Hm)]).
    injection H as _ ->. revert Hm. induction l' as [|m' l' IHl]; intros Hm; [exfalso; exact (not_elem_of_nil _ Hm) |].
    apply elem_of_cons in Hm. destruct Hm as [->|Hm]; [exact (message_ind m') | exact (IHl Hm)].
Qed.
End proto_ind.

(** A message is known exactly when no message reached in it holds bytes no
    declared field took, where none declares a map. *)
Inductive mapless : Proto → Prop :=
| mapless_message u fields :
    (∀ name e, (name, PMap e) ∉ fields) →
    (∀ name m, (name, PMessage m) ∈ fields → mapless m) →
    (∀ name l m, (name, PMessages l) ∈ fields → m ∈ l → mapless m) →
    mapless (mkProto u fields).

Lemma known_message_spec m :
  mapless m → (known_message m = true ↔ ∀ inside, reaches inside m → unknown_of inside = "").
Proof.
  induction m as [u fields IHm IHl] using message_ind. inversion 1 as [? ? Hmap Hfield Hlist]; subst.
  cbn. rewrite andb_true_iff, bool_decide_eq_true, forallb_forall. split.
  - intros [-> Hall] inside Hin. inversion Hin as [|? ? ? m1 ? Hm1 Hr|? ? ? l m1 ? Hl Hm1 Hr]; subst; [done | |].
    + eapply IHm; [done | by eapply Hfield | | done].
      apply (Hall _ (proj1 (list_elem_of_In _ _) Hm1)).
    + eapply IHl; [done | done | by eapply Hlist | | done].
      pose proof (Hall _ (proj1 (list_elem_of_In _ _) Hl)) as H'. cbn in H'.
      rewrite forallb_forall in H'. apply H'. by apply list_elem_of_In.
  - intros Hall. split; [apply (Hall (mkProto u fields)); constructor |].
    intros [name f] Hf%list_elem_of_In. destruct f as [v|m|l|e]; [done | | | by apply Hmap in Hf].
    + eapply IHm; [done | by eapply Hfield |]. intros. eapply Hall. by eapply reaches_field.
    + rewrite forallb_forall. intros m Hm%list_elem_of_In.
      eapply IHl; [done | done | by eapply Hlist |]. intros. eapply Hall. by eapply reaches_list.
Qed.

(** ** Runes: UTF-8 read and written (unicode/utf8, strings.Map) *)

Definition RuneError : Z := 65533.
Definition MaxRune : Z := 1114111.
Definition surrogate (r : Z) : bool := (55296 <=? r) && (r <=? 57343).

Definition RuneLen (r : Z) : Z :=
  if r <? 0 then -1 else if r <=? 127 then 1 else if r <=? 2047 then 2
  else if surrogate r then -1 else if r <=? 65535 then 3 else if r <=? MaxRune then 4 else -1.

Definition continues (c : ascii) : bool := between 128 191 c.

(** The second byte a rune of three bytes, or of four, goes on with. *)
Definition second_of_three (a b : ascii) : bool :=
  (byte a =? 224)%N && between 160 191 b || (byte a =? 237)%N && between 128 159 b
  || (between 225 236 a || between 238 239 a) && continues b.
Definition second_of_four (a b : ascii) : bool :=
  (byte a =? 240)%N && between 144 191 b || (byte a =? 244)%N && between 128 143 b
  || between 241 243 a && continues b.

(** [utf8.ValidString], with what is asked of every rune: [refused] of a rune of one
    byte, and [refused_after] of the second byte of U+0080 to U+00BF. *)
Fixpoint valid_runes (refused : ascii → bool) (refused_after : ascii → bool) (s : string) : bool :=
  match s with
  | EmptyString => true
  | String a s1 =>
      if between 0 127 a then negb (refused a) && valid_runes refused refused_after s1
      else match s1 with
      | EmptyString => false
      | String b s2 =>
          if between 194 223 a
          then continues b && negb ((byte a =? 194)%N && refused_after b) && valid_runes refused refused_after s2
          else match s2 with
          | EmptyString => false
          | String c s3 =>
              if second_of_three a b
              then continues c && valid_runes refused refused_after s3
              else match s3 with
              | EmptyString => false
              | String d s4 =>
                  second_of_four a b && continues c && continues d && valid_runes refused refused_after s4
              end
          end
      end
  end.

Definition ValidString (s : string) : bool := valid_runes (λ _, false) (λ _, false) s.

(** The bits a byte adds to a rune. *)
Definition bits (c : ascii) (mask : Z) : Z := Z.land (Z.of_N (byte c)) mask.
Definition rune_of_two (a b : ascii) : Z := Z.lor (Z.shiftl (bits a 31) 6) (bits b 63).
Definition rune_of_three (a b c : ascii) : Z :=
  Z.lor (Z.lor (Z.shiftl (bits a 15) 12) (Z.shiftl (bits b 63) 6)) (bits c 63).
Definition rune_of_four (a b c d : ascii) : Z :=
  Z.lor (Z.lor (Z.lor (Z.shiftl (bits a 7) 18) (Z.shiftl (bits b 63) 12)) (Z.shiftl (bits c 63) 6)) (bits d 63).

(** What [for _, c := range s] ranges over: a byte no rune starts at is U+FFFD. *)
Fixpoint runes (s : string) : list Z :=
  match s with
  | EmptyString => []
  | String a s1 =>
      if between 0 127 a then Z.of_N (byte a) :: runes s1
      else match s1 with
      | EmptyString => [RuneError]
      | String b s2 =>
          if between 194 223 a && continues b then rune_of_two a b :: runes s2
          else match s2 with
          | EmptyString => RuneError :: runes s1
          | String c s3 =>
              if second_of_three a b && continues c then rune_of_three a b c :: runes s3
              else match s3 with
              | EmptyString => RuneError :: runes s1
              | String d s4 =>
                  if second_of_four a b && continues c && continues d then rune_of_four a b c d :: runes s4
                  else RuneError :: runes s1
              end
          end
      end
  end.

(** [utf8.AppendRune]: what is no rune is written as U+FFFD. *)
Definition AppendRune (r : Z) : string :=
  let continued (by_ : Z) := String (byte_of (Z.lor 128 (Z.land (Z.shiftr r by_) 63))) in
  if RuneLen r =? 1 then String (byte_of r) ""
  else if RuneLen r =? 2 then String (byte_of (Z.lor 192 (Z.shiftr r 6))) (continued 0 "")
  else if RuneLen r =? 3 then String (byte_of (Z.lor 224 (Z.shiftr r 12))) (continued 6 (continued 0 ""))
  else if RuneLen r =? 4 then
    String (byte_of (Z.lor 240 (Z.shiftr r 18))) (continued 12 (continued 6 (continued 0 "")))
  else String "239" (String "191" (String "189" "")).

(** [strings.Map]: every rune by what it is mapped to, and left out when that is negative. *)
Fixpoint write_runes (mapping : Z → Z) (rs : list Z) : string :=
  match rs with
  | [] => ""
  | r :: rs => (if mapping r <? 0 then "" else AppendRune (mapping r)) +:+ write_runes mapping rs
  end.
Definition strings_Map (mapping : Z → Z) (s : string) : string := write_runes mapping (runes s).

(** ** Writing what was read *)

Definition a_rune (r : Z) : Prop := 0 < RuneLen r.

Lemma lor_shifted x y k : 0 ≤ k → 0 ≤ y < 2 ^ k → Z.lor (Z.shiftl x k) y = x * 2 ^ k + y.
Proof.
  intros Hk Hy. rewrite <- Z.shiftl_mul_pow2 by done. symmetry.
  assert (Z.land (Z.shiftl x k) y = 0) as Hl.
  { apply Z.bits_inj'. intros n Hn. rewrite Z.land_spec, Z.bits_0. destruct (Z.ltb_spec n k).
    - by rewrite Z.shiftl_spec_low.
    - rewrite <- (Z.mod_small y (2 ^ k)) by done. by rewrite Z.mod_pow2_bits_high, andb_false_r by lia. }
  rewrite Z.add_nocarry_lxor, Z.lxor_lor by done. done.
Qed.

Lemma bits_mod c n : 0 ≤ n → bits c (Z.ones n) = Z.of_N (byte c) mod 2 ^ n.
Proof. intros Hn. unfold bits. by rewrite Z.land_ones. Qed.

Lemma bits_continued c : continues c = true → bits c 63 = Z.of_N (byte c) - 128 ∧ 0 ≤ bits c 63 < 64.
Proof.
  unfold continues, between. rewrite andb_true_iff, !N.leb_le. intros [Hl Hh].
  change 63 with (Z.ones 6). rewrite bits_mod by done. change (2 ^ 6) with 64.
  assert (Z.of_N (byte c) mod 64 = Z.of_N (byte c) - 128) as ->; [|lia].
  symmetry. apply (Z.mod_unique _ _ 2); lia.
Qed.

(** What the bytes of a rune are, as numbers. *)
Lemma bits_lead c lo n hi : 0 ≤ n → between (Z.to_N lo) (Z.to_N hi) c = true → 0 ≤ lo ≤ hi → lo mod 2 ^ n = 0 → hi < lo + 2 ^ n →
  bits c (Z.ones n) = Z.of_N (byte c) - lo ∧ lo ≤ Z.of_N (byte c) ≤ hi.
Proof.
  intros Hn Hb Hlo Hm Hhi. unfold between in Hb. apply andb_true_iff in Hb as [Hl Hh].
  apply N.leb_le in Hl, Hh. assert (0 < 2 ^ n) by (apply Z.pow_pos_nonneg; lia).
  rewrite bits_mod by done. split; [| lia]. symmetry. apply (Z.mod_unique _ _ (lo / 2 ^ n)); [lia |].
  apply Z.div_exact in Hm; lia.
Qed.

Definition two_bytes (a b : ascii) : Prop := ∃ x y, Z.of_N (byte a) = 192 + x ∧ Z.of_N (byte b) = 128 + y
  ∧ 2 ≤ x < 32 ∧ 0 ≤ y < 64 ∧ rune_of_two a b = x * 64 + y.
Definition three_bytes (a b c : ascii) : Prop := ∃ x y z,
  Z.of_N (byte a) = 224 + x ∧ Z.of_N (byte b) = 128 + y ∧ Z.of_N (byte c) = 128 + z
  ∧ 0 ≤ x < 16 ∧ 0 ≤ y < 64 ∧ 0 ≤ z < 64 ∧ (x = 0 → 32 ≤ y) ∧ (x = 13 → y < 32)
  ∧ rune_of_three a b c = x * 4096 + y * 64 + z.
Definition four_bytes (a b c d : ascii) : Prop := ∃ x y z w,
  Z.of_N (byte a) = 240 + x ∧ Z.of_N (byte b) = 128 + y ∧ Z.of_N (byte c) = 128 + z ∧ Z.of_N (byte d) = 128 + w
  ∧ 0 ≤ x < 5 ∧ 0 ≤ y < 64 ∧ 0 ≤ z < 64 ∧ 0 ≤ w < 64 ∧ (x = 0 → 16 ≤ y) ∧ (x = 4 → y < 16)
  ∧ rune_of_four a b c d = x * 262144 + y * 4096 + z * 64 + w.

Lemma continues_bits c : continues c = true → ∃ y, Z.of_N (byte c) = 128 + y ∧ 0 ≤ y < 64 ∧ bits c 63 = y.
Proof. intros Hc. destruct (bits_continued c Hc) as [Hv Hb]. exists (bits c 63). lia. Qed.

Lemma two_bytes_spec a b : between 194 223 a = true → continues b = true → two_bytes a b.
Proof.
  intros Ha (y & Hy & Hyb & Hbits)%continues_bits.
  assert (between (Z.to_N 192) (Z.to_N 223) a = true) as Hw.
  { revert Ha. unfold between. rewrite !andb_true_iff, !N.leb_le. lia. }
  destruct (bits_lead a 192 5 223 ltac:(lia) Hw ltac:(lia) eq_refl ltac:(cbn; lia)) as [Hx _].
  unfold between in Ha. rewrite andb_true_iff, !N.leb_le in Ha.
  exists (Z.of_N (byte a) - 192), y. split_and!; try lia. unfold rune_of_two.
  change 31 with (Z.ones 5). rewrite Hx, Hbits, lor_shifted by (change (2 ^ 6) with 64; lia). done.
Qed.

Lemma three_bytes_spec a b c : second_of_three a b = true → continues c = true → three_bytes a b c.
Proof.
  intros Hab (z & Hz & Hzb & Hzbits)%continues_bits.
  assert (between 224 239 a = true ∧ continues b = true
    ∧ (Z.of_N (byte a) = 224 → 160 ≤ Z.of_N (byte b)) ∧ (Z.of_N (byte a) = 237 → Z.of_N (byte b) < 160)) as (Ha & Hb & H1 & H2).
  { revert Hab. unfold second_of_three, continues, between. rewrite !orb_true_iff, !andb_true_iff, !orb_true_iff, !andb_true_iff, !N.leb_le, !N.eqb_eq. lia. }
  destruct (continues_bits b Hb) as (y & Hy & Hyb & Hybits).
  destruct (bits_lead a 224 4 239 ltac:(lia) Ha ltac:(lia) eq_refl ltac:(cbn; lia)) as [Hx Hxb].
  exists (Z.of_N (byte a) - 224), y, z. split_and!; try lia. unfold rune_of_three.
  change 15 with (Z.ones 4). rewrite Hx, Hybits, Hzbits.
  rewrite (Z.shiftl_mul_pow2 y), (lor_shifted _ (y * 2 ^ 6) 12) by (cbn; lia).
  replace ((Z.of_N (byte a) - 224) * 2 ^ 12 + y * 2 ^ 6) with (Z.shiftl ((Z.of_N (byte a) - 224) * 64 + y) 6)
    by (rewrite Z.shiftl_mul_pow2 by lia; lia).
  rewrite lor_shifted by (cbn; lia). lia.
Qed.

Lemma four_bytes_spec a b c d : second_of_four a b = true → continues c = true → continues d = true → four_bytes a b c d.
Proof.
  intros Hab (z & Hz & Hzb & Hzbits)%continues_bits (w & Hw & Hwb & Hwbits)%continues_bits.
  assert (between 240 244 a = true ∧ continues b = true
    ∧ (Z.of_N (byte a) = 240 → 144 ≤ Z.of_N (byte b)) ∧ (Z.of_N (byte a) = 244 → Z.of_N (byte b) < 144)) as (Ha & Hb & H1 & H2).
  { revert Hab. unfold second_of_four, continues, between. rewrite !orb_true_iff, !andb_true_iff, !N.leb_le, !N.eqb_eq. lia. }
  destruct (continues_bits b Hb) as (y & Hy & Hyb & Hybits).
  destruct (bits_lead a 240 3 244 ltac:(lia) Ha ltac:(lia) eq_refl ltac:(cbn; lia)) as [Hx Hxb].
  exists (Z.of_N (byte a) - 240), y, z, w. split_and!; try lia. unfold rune_of_four.
  change 7 with (Z.ones 3). rewrite Hx, Hybits, Hzbits, Hwbits.
  rewrite (Z.shiftl_mul_pow2 y), (lor_shifted _ (y * 2 ^ 12) 18) by (cbn; lia).
  replace ((Z.of_N (byte a) - 240) * 2 ^ 18 + y * 2 ^ 12) with (Z.shiftl ((Z.of_N (byte a) - 240) * 64 + y) 12)
    by (rewrite Z.shiftl_mul_pow2 by lia; lia).
  rewrite (Z.shiftl_mul_pow2 z), (lor_shifted _ (z * 2 ^ 6) 12) by (cbn; lia).
  replace (((Z.of_N (byte a) - 240) * 64 + y) * 2 ^ 12 + z * 2 ^ 6) with (Z.shiftl (((Z.of_N (byte a) - 240) * 64 + y) * 64 + z) 6)
    by (rewrite Z.shiftl_mul_pow2 by lia; lia).
  rewrite lor_shifted by (cbn; lia). lia.
Qed.

Lemma RuneLen_spec r :
  (0 ≤ r ≤ 127 → RuneLen r = 1) ∧ (128 ≤ r ≤ 2047 → RuneLen r = 2)
  ∧ (2048 ≤ r ≤ 65535 → surrogate r = false → RuneLen r = 3) ∧ (65536 ≤ r ≤ MaxRune → RuneLen r = 4).
Proof.
  unfold RuneLen, MaxRune. split_and!; intros; destruct (surrogate r) eqn:Hs; try discriminate;
    repeat match goal with |- context [if ?x <? ?y then _ else _] => destruct (Z.ltb_spec x y); try lia
                         | |- context [if ?x <=? ?y then _ else _] => destruct (Z.leb_spec x y); try lia end.
  unfold surrogate in Hs. apply andb_true_iff in Hs as [_ Hs]. apply Z.leb_le in Hs. lia.
Qed.

(** A rune of two, three or four bytes has that length and is written as those bytes. *)
Definition read_from (r : Z) (s : string) : Prop := RuneLen r = slen s ∧ AppendRune r = s.

Lemma byte_of_is z c : z = Z.of_N (byte c) → byte_of z = c.
Proof.
  intros ->. unfold byte_of. pose proof (byte_lt c). rewrite Z.mod_small by lia. rewrite N2Z.id. apply ascii_N_embedding.
Qed.

Lemma lor_high h k y : 0 ≤ k → 0 ≤ y < 2 ^ k → Z.lor (h * 2 ^ k) y = h * 2 ^ k + y.
Proof. intros Hk Hy. by rewrite <- (lor_shifted h y k), Z.shiftl_mul_pow2. Qed.

Lemma six_low r by_ : 0 ≤ by_ → Z.land (Z.shiftr r by_) 63 = r / 2 ^ by_ mod 64.
Proof. intros. change 63 with (Z.ones 6). rewrite Z.land_ones, Z.shiftr_div_pow2 by done. done. Qed.

Lemma continued_byte y c : Z.of_N (byte c) = 128 + y → 0 ≤ y < 64 → byte_of (Z.lor 128 y) = c.
Proof.
  intros Hc Hy. apply byte_of_is. change 128 with (2 * 2 ^ 6). rewrite lor_high by (cbn; lia). cbn. lia.
Qed.

Lemma lead_byte h k y c : 0 ≤ k → Z.of_N (byte c) = h * 2 ^ k + y → 0 ≤ y < 2 ^ k → byte_of (Z.lor (h * 2 ^ k) y) = c.
Proof. intros Hk Hc Hy. apply byte_of_is. rewrite lor_high by done. by rewrite Hc. Qed.

Lemma one_byte_read a : between 0 127 a = true → read_from (Z.of_N (byte a)) (String a "").
Proof.
  unfold between. rewrite andb_true_iff, !N.leb_le. intros [_ Ha]. unfold read_from, AppendRune.
  rewrite (proj1 (RuneLen_spec (Z.of_N (byte a)))) by lia. split; [done |]. cbn. by rewrite (byte_of_is _ a).
Qed.

Lemma two_bytes_read a b : two_bytes a b → read_from (rune_of_two a b) (String a (String b "")).
Proof.
  intros (x & y & Ha & Hb & Hx & Hy & ->). unfold read_from, AppendRune.
  rewrite (proj1 (proj2 (RuneLen_spec (x * 64 + y)))) by lia. split; [done |]. cbn [Z.eqb Pos.eqb].
  rewrite six_low, Z.shiftr_div_pow2 by lia. change (2 ^ 0) with 1. change (2 ^ 6) with 64.
  rewrite Z.div_1_r, Z.div_add_l, (Z.div_small y), Z.add_0_r, Z.add_comm, Z.mod_add, (Z.mod_small y) by lia.
  rewrite (continued_byte y b) by done. change 192 with (6 * 2 ^ 5). rewrite (lead_byte 6 5 x a) by (cbn; lia). done.
Qed.

Lemma three_bytes_read a b c : three_bytes a b c → read_from (rune_of_three a b c) (String a (String b (String c ""))).
Proof.
  intros (x & y & z & Ha & Hb & Hc & Hx & Hy & Hz & Hlow & Hhigh & ->). unfold read_from, AppendRune.
  set (r := x * 4096 + y * 64 + z).
  assert (surrogate r = false) as Hs.
  { unfold surrogate. apply andb_false_iff. rewrite !Z.leb_gt. subst r. destruct (decide (x = 13)); [specialize (Hhigh ltac:(done)); lia | lia]. }
  assert (2048 ≤ r) as Hr by (subst r; destruct (decide (x = 0)); [specialize (Hlow ltac:(done)); lia | lia]).
  rewrite (proj1 (proj2 (proj2 (RuneLen_spec r)))) by (subst r; lia || done). split; [done |]. cbn [Z.eqb Pos.eqb].
  rewrite !six_low, Z.shiftr_div_pow2 by lia. change (2 ^ 0) with 1. change (2 ^ 6) with 64. change (2 ^ 12) with 4096.
  assert (r / 4096 = x) as -> by (symmetry; apply (Z.div_unique _ _ _ (y * 64 + z)); lia).
  assert (r / 64 mod 64 = y) as ->.
  { assert (r / 64 = x * 64 + y) as -> by (symmetry; apply (Z.div_unique _ _ _ z); lia).
    symmetry. apply (Z.mod_unique _ _ x); lia. }
  assert (r / 1 mod 64 = z) as -> by (rewrite Z.div_1_r; symmetry; apply (Z.mod_unique _ _ (x * 64 + y)); lia).
  rewrite (continued_byte y b), (continued_byte z c) by done.
  change 224 with (14 * 2 ^ 4). rewrite (lead_byte 14 4 x a) by (cbn; lia). done.
Qed.

Lemma four_bytes_read a b c d : four_bytes a b c d →
  read_from (rune_of_four a b c d) (String a (String b (String c (String d "")))).
Proof.
  intros (x & y & z & w & Ha & Hb & Hc & Hd & Hx & Hy & Hz & Hw & Hlow & Hhigh & ->). unfold read_from, AppendRune.
  set (r := x * 262144 + y * 4096 + z * 64 + w).
  assert (65536 ≤ r ≤ MaxRune) as Hr.
  { unfold MaxRune. subst r. split.
    - destruct (decide (x = 0)); [specialize (Hlow ltac:(done)); lia | lia].
    - destruct (decide (x = 4)); [specialize (Hhigh ltac:(done)); lia | lia]. }
  rewrite (proj2 (proj2 (proj2 (RuneLen_spec r)))) by done. split; [done |]. cbn [Z.eqb Pos.eqb].
  rewrite !six_low, Z.shiftr_div_pow2 by lia.
  change (2 ^ 0) with 1. change (2 ^ 6) with 64. change (2 ^ 12) with 4096. change (2 ^ 18) with 262144.
  assert (r / 262144 = x) as -> by (symmetry; apply (Z.div_unique _ _ _ (y * 4096 + z * 64 + w)); lia).
  assert (r / 4096 mod 64 = y) as ->.
  { assert (r / 4096 = x * 64 + y) as -> by (symmetry; apply (Z.div_unique _ _ _ (z * 64 + w)); lia).
    symmetry. apply (Z.mod_unique _ _ x); lia. }
  assert (r / 64 mod 64 = z) as ->.
  { assert (r / 64 = x * 4096 + y * 64 + z) as -> by (symmetry; apply (Z.div_unique _ _ _ w); lia).
    symmetry. apply (Z.mod_unique _ _ (x * 64 + y)); lia. }
  assert (r / 1 mod 64 = w) as -> by (rewrite Z.div_1_r; symmetry; apply (Z.mod_unique _ _ (x * 4096 + y * 64 + z)); lia).
  rewrite (continued_byte y b), (continued_byte z c), (continued_byte w d) by done.
  change 240 with (30 * 2 ^ 3). rewrite (lead_byte 30 3 x a) by (cbn; lia). done.
Qed.

Lemma string_ind_by_length (P : string → Prop) :
  (∀ s, (∀ t, (String.length t < String.length s)%nat → P t) → P s) → ∀ s, P s.
Proof.
  intros H s. remember (String.length s) as n eqn:Hn. revert s Hn.
  induction (Nat.lt_wf_0 n) as [n _ IH]. intros s ->. apply H. intros t Ht. by eapply IH.
Qed.

(** What a valid string is: runes of one to four bytes, one after the other. *)
Inductive utf8 : string → Prop :=
| u_nil : utf8 ""
| u_one a s : between 0 127 a = true → utf8 s → utf8 (String a s)
| u_two a b s : between 194 223 a = true → continues b = true → utf8 s → utf8 (String a (String b s))
| u_three a b c s : second_of_three a b = true → continues c = true → utf8 s → utf8 (String a (String b (String c s)))
| u_four a b c d s : second_of_four a b = true → continues c = true → continues d = true → utf8 s →
    utf8 (String a (String b (String c (String d s)))).

Ltac by_bytes :=
  unfold second_of_three, second_of_four, continues, between in *;
  repeat match goal with
  | H : _ && _ = true |- _ => apply andb_true_iff in H as [? ?]
  | H : _ || _ = true |- _ => apply orb_true_iff in H as [H|H]
  end;
  rewrite ?andb_true_iff, ?N.leb_le, ?N.eqb_eq in *; lia.

Lemma ValidString_spec s : ValidString s = true ↔ utf8 s.
Proof.
  unfold ValidString. split.
  - induction s as [s IH] using string_ind_by_length. destruct s as [|a s1]; [constructor |]. cbn [valid_runes].
    destruct (between 0 127 a) eqn:Ha; [cbn; intros Hv; apply u_one; [done | apply IH; [cbn; lia | done]] |].
    destruct s1 as [|b s2]; [done |]. destruct (between 194 223 a) eqn:Ha2.
    { rewrite andb_false_r, andb_true_r. intros [Hb Hv]%andb_true_iff. apply u_two; [done | done | apply IH; [cbn; lia | done]]. }
    destruct s2 as [|c s3]; [done |]. destruct (second_of_three a b) eqn:H3.
    { intros [Hc Hv]%andb_true_iff. apply u_three; [done | done | apply IH; [cbn; lia | done]]. }
    destruct s3 as [|d s4]; [done |]. rewrite !andb_true_iff. intros [[[H4 Hc] Hd] Hv].
    apply u_four; [done | done | done | apply IH; [cbn; lia | done]].
  - induction 1 as [|a s Ha _ IH|a b s Ha Hb _ IH|a b c s Hab Hc _ IH|a b c d s Hab Hc Hd _ IH]; cbn [valid_runes]; [done | ..].
    + by rewrite Ha.
    + assert (between 0 127 a = false) as -> by (destruct (between 0 127 a) eqn:?; [by_bytes | done]).
      rewrite Ha, Hb, andb_false_r. exact IH.
    + assert (between 0 127 a = false) as -> by (destruct (between 0 127 a) eqn:?; [by_bytes | done]).
      assert (between 194 223 a = false) as -> by (destruct (between 194 223 a) eqn:?; [by_bytes | done]).
      by rewrite Hab, Hc.
    + assert (between 0 127 a = false) as -> by (destruct (between 0 127 a) eqn:?; [by_bytes | done]).
      assert (between 194 223 a = false) as -> by (destruct (between 194 223 a) eqn:?; [by_bytes | done]).
      assert (second_of_three a b = false) as -> by (destruct (second_of_three a b) eqn:?; [by_bytes | done]).
      by rewrite Hab, Hc, Hd.
Qed.

Lemma rune_nonneg r : a_rune r → (r <? 0) = false.
Proof. unfold a_rune, RuneLen. by destruct (r <? 0). Qed.


Lemma not_one_byte a : (128 ≤ byte a)%N → between 0 127 a = false.
Proof. intros Ha. destruct (between 0 127 a) eqn:?; [by_bytes | done]. Qed.

(** The runes of a valid string are the bytes of each, one after the other. *)
Definition reads_back (rs : list Z) (s : string) : Prop :=
  Forall (λ r, a_rune r) rs ∧ foldr (λ r rest, RuneLen r + rest) 0 rs = slen s ∧ write_runes id rs = s.

Lemma reads_back_cons r t rs s : read_from r t → 0 < slen t → reads_back rs s → reads_back (r :: rs) (t +:+ s).
Proof.
  intros [Hl Hw] Ht (Hf & Hs & Hr). assert (a_rune r) as Hrune by (unfold a_rune; lia). split_and!.
  - by constructor.
  - cbn [foldr]. rewrite Hs, Hl. unfold slen. rewrite string_length_app. lia.
  - cbn [write_runes]. unfold id at 1 2. rewrite (rune_nonneg r Hrune). by rewrite Hw, Hr.
Qed.

Lemma runes_read s : utf8 s → reads_back (runes s) s.
Proof.
  induction 1 as [|a s Ha _ IH|a b s Ha Hb _ IH|a b c s Hab Hc _ IH|a b c d s Hab Hc Hd _ IH]; cbn [runes];
    [by split_and!; constructor | ..].
  - rewrite Ha. by apply (reads_back_cons _ (String a "") _ s (one_byte_read a Ha)).
  - rewrite not_one_byte, Ha, Hb by by_bytes.
    by apply (reads_back_cons _ (String a (String b "")) _ s (two_bytes_read a b (two_bytes_spec a b Ha Hb))).
  - rewrite not_one_byte, Hab, Hc by by_bytes.
    assert (between 194 223 a = false) as -> by (destruct (between 194 223 a) eqn:?; [by_bytes | done]).
    by apply (reads_back_cons _ (String a (String b (String c ""))) _ s (three_bytes_read a b c (three_bytes_spec a b c Hab Hc))).
  - rewrite not_one_byte, Hab, Hc, Hd by by_bytes.
    assert (between 194 223 a = false) as -> by (destruct (between 194 223 a) eqn:?; [by_bytes | done]).
    assert (second_of_three a b = false) as -> by (destruct (second_of_three a b) eqn:?; [by_bytes | done]).
    by apply (reads_back_cons _ (String a (String b (String c (String d "")))) _ s
                (four_bytes_read a b c d (four_bytes_spec a b c d Hab Hc Hd))).
Qed.

(** What stands before a byte that begins a rune is valid where the whole is. *)
Lemma utf8_before s t : utf8 (s +:+ t) → (∀ c t', t = String c t' → continues c = false) → utf8 s.
Proof.
  intros Hu Ht. remember (s +:+ t) as u eqn:He. revert s He.
  induction Hu as [|a u Ha _ IH|a b u Ha Hb _ IH|a b c u Hab Hc _ IH|a b c d u Hab Hc Hd _ IH]; intros [|x s] He;
    try (by constructor); try discriminate; injection He as <- He; try (by apply u_one; [| apply IH]).
  - destruct s as [|y s]; [rewrite (Ht b u) in Hb; [done | exact (eq_sym He)] |].
    injection He as <- He. by apply u_two; [| | apply IH].
  - destruct s as [|y s]; [assert (continues b = true) by by_bytes; rewrite (Ht b (String c u)) in *; [done | exact (eq_sym He)] |].
    injection He as <- He. destruct s as [|z s]; [rewrite (Ht c u) in Hc; [done | exact (eq_sym He)] |].
    injection He as <- He. by apply u_three; [| | apply IH].
  - destruct s as [|y s]; [assert (continues b = true) by by_bytes; rewrite (Ht b (String c (String d u))) in *; [done | exact (eq_sym He)] |].
    injection He as <- He. destruct s as [|z s]; [rewrite (Ht c (String d u)) in Hc; [done | exact (eq_sym He)] |].
    injection He as <- He. destruct s as [|w s]; [rewrite (Ht d u) in Hd; [done | exact (eq_sym He)] |].
    injection He as <- He. by apply u_four; [| | | apply IH].
Qed.

Lemma AppendRune_len r : a_rune r → slen (AppendRune r) = RuneLen r.
Proof.
  unfold a_rune, AppendRune. intros Hr. destruct (Z.eqb_spec (RuneLen r) 1) as [->|]; [done |].
  destruct (Z.eqb_spec (RuneLen r) 2) as [->|]; [done |]. destruct (Z.eqb_spec (RuneLen r) 3) as [->|]; [done |].
  destruct (Z.eqb_spec (RuneLen r) 4) as [->|]; [done |]. exfalso.
  assert (RuneLen r ∈ [-1; 1; 2; 3; 4]) as Hin.
  { unfold RuneLen. repeat match goal with |- context [if ?b then _ else _] => destruct b end; by repeat constructor. }
  repeat (apply elem_of_cons in Hin as [Hin|Hin]; [lia |]). by apply elem_of_nil in Hin.
Qed.

(** Mapped to runes no longer than they are, a valid string becomes one no longer than it is. *)
Lemma strings_Map_shorter mapping s :
  utf8 s → (∀ r, a_rune r → a_rune (mapping r) ∧ RuneLen (mapping r) ≤ RuneLen r) →
  slen (strings_Map mapping s) ≤ slen s ∧ (s ≠ "" → strings_Map mapping s ≠ "").
Proof.
  intros Hv Hm. destruct (runes_read s Hv) as (Hf & Hl & Hw). unfold strings_Map.
  assert (slen (write_runes mapping (runes s)) ≤ foldr (λ r rest, RuneLen r + rest) 0 (runes s)) as Hle.
  { clear Hl Hw. induction Hf as [|r rs Hr _ IH]; [by cbn |]. cbn [write_runes foldr]. destruct (Hm r Hr) as [Hr' Hlen].
    unfold slen in *. rewrite string_length_app. rewrite (rune_nonneg _ Hr').
    pose proof (AppendRune_len _ Hr') as He. unfold slen in He. lia. }
  split; [lia |]. intros Hne He. destruct (runes s) as [|r rs]; [by cbn in Hw |]. inversion Hf as [|? ? Hr]; subst.
  destruct (Hm r Hr) as [Hr' _]. cbn [write_runes] in He. pose proof (AppendRune_len _ Hr') as Hlen.
  rewrite (rune_nonneg _ Hr') in He. apply (f_equal slen) in He. unfold slen in *. rewrite string_length_app in He.
  cbn in He. unfold a_rune in Hr'. lia.
Qed.
