(* ===== verification/Validate.v ===== *)
(** * Whether the platform can run a rule at all (validate.go)

    [Rule.Validate] and everything it calls, refusing at the first thing wrong
    with the part it names. A refusal's prose is a constructor of [Reason]; the
    part it names is the string the source builds. *)

From Stdlib Require Import ZArith Lia Ascii Floats.SpecFloat.
From stdpp Require Import base tactics option gmap strings pretty numbers list.
From S2P Require Import Prelude Text Rule Contract.

Inductive Reason :=
(* the rule itself *)
| BadID | VersionedID | RevisionTooLow | RevisionTooWide | IsMissing | IsTooLong
| BadSeverity | BadStatus | PartialTechnique | BadTactic | BadTechniqueID
| PartialSource | BadCatalogue | TooManyTags | BadTag | RepeatedTag
| TooManyReferences | ReferenceTooLong | NotALink | RepeatedReference
| NoClass | UndeclaredClass
(* its count and its sequence *)
| CountsToOne | CountsPastAWindow | NoWindow | WindowTooLong | TooManyGrouped
| GroupsByClass | GroupsByTenant | GroupsByIdentity | UndeclaredField | AnotherClass
| RepeatedGroup | SequenceBesideMatch | SequenceBesideCount | TooFewStages
| TooManyStages | RepeatedStage
(* what it asks *)
| AsksNothing | TooDeep | NotInTheLanguage | NoTerms | UnknownOperator | DoesNotAsk
| TooFewValues | TooManyValues | TooLongAList | WrongLiteral | ComparedWithNothing
| UndeclaredChoice
(* what only compilation sees *)
| TooWideForTheField | NotAWholeNumber | OutsideTheField | NothingCompares
| NeverMatches | MatchesEverything | NothingSatisfies | TooHeavy
(* a case written beside the rule *)
| BadExpectation | CarriesNothing | TooManyFields | SaysTheClass | CannotHold | ZeroValue
| SeverityOfNoMatch | EvidenceOfNoMatch.
#[global] Instance Reason_eq_dec : EqDecision Reason.
Proof. solve_decision. Defined.

Record Violation := mkViolation { v_rule : string; v_part : string; v_reason : Reason }.

Definition MaxIDLength : Z := 120.
Definition MaxNameLength : Z := 200.
Definition MaxDescriptionLength : Z := 2000.
Definition MaxGuidanceLength : Z := 2000.
Definition MaxCaseFields : Z := 64.
Definition MaxTags : Z := 32.
Definition MaxReferences : Z := 16.
Definition MaxReferenceLength : Z := 500.
Definition MaxValues : Z := 4096.
Definition MaxDepth : Z := 16.
Definition MinCount : Z := 2.
Definition MaxCount : Z := 4096.
Definition MaxWithin : duration := 24 * hour.
Definition MaxGroupBy : Z := 8.
Definition MinStages : Z := 2.
Definition MaxStages : Z := 8.
Definition MaxStageLength : Z := 80.

(** [^[a-z][a-z0-9]*([._][a-z0-9]+)*$] *)
Definition identifier : pattern :=
  Then (One lowercase) (Then (Many (One alnum_lower))
    (Many (Then (One (among ["."; "_"]%char)) (some (One alnum_lower))))).

(** [[._]v\d+$], anywhere in the string. *)
Definition versioned : pattern :=
  Then anything (Then (One (among ["."; "_"]%char)) (Then (chr "v") (some (One digit)))).

(** [^T\d{4}(\.\d{3})?$] *)
Definition technique : pattern :=
  Then (chr "T") (Then (exactly_n 4 (One digit))
    (Or Nothing (Then (chr ".") (exactly_n 3 (One digit))))).

Definition classField : Field := "event_class".

(** [fmt.Sprintf("%s[%d]", part, index)] *)
Definition indexed (part : string) (index : nat) : string :=
  part +:+ "[" +:+ pretty index +:+ "]".

(** A loop that checks each element, refuses one met before and remembers it. *)
Fixpoint each_once_from {E A} `{EqDecision A} (i : nat) (seen : list A)
    (f : nat → A → result E unit) (twice : nat → E) (l : list A) : result E unit :=
  match l with
  | [] => Ok tt
  | x :: l =>
      match f i x with
      | Err e => Err e
      | Ok _ => if decide (x ∈ seen) then Err (twice i)
                else each_once_from (S i) (x :: seen) f twice l
      end
  end.
Definition each_once {E A} `{EqDecision A} := @each_once_from E A _ 0 [].

Section validate.
Context `{Contract}.
(** [net/url.Parse]: the scheme and the host of a reference that parses. *)
Context (url_parse : string → option (string * string)).
Context (r : Rule).

Definition violation (part : string) (reason : Reason) : Violation :=
  mkViolation (rule_id r) part reason.

Local Open Scope go_scope.

Definition text (part value : string) (ceiling : Z) (required : bool) : result Violation unit :=
  if blank value && required then Err (violation part IsMissing)
  else if ceiling <? slen value then Err (violation part IsTooLong)
  else Ok tt.

Definition validateTechnique : result Violation unit :=
  let t := rule_technique r in
  if technique_empty t then Ok tt
  else if bool_decide (tech_tactic t = "") || bool_decide (tech_id t = "")
          || bool_decide (tech_name t = "") then Err (violation "technique" PartialTechnique)
  else if negb (contains_elem tactics (tech_tactic t))
  then Err (violation "technique.tactic" BadTactic)
  else if negb (MatchString technique (tech_id t))
  then Err (violation "technique.id" BadTechniqueID)
  else text "technique.name" (tech_name t) MaxNameLength true.

Definition validateSource : result Violation unit :=
  let s := rule_source r in
  if source_empty s then Ok tt
  else if bool_decide (src_catalogue s = "") || bool_decide (src_identifier s = "")
  then Err (violation "source" PartialSource)
  else if negb (MatchString identifier (src_catalogue s)) || (MaxIDLength <? slen (src_catalogue s))
  then Err (violation "source.catalogue" BadCatalogue)
  else text "source.identifier" (src_identifier s) MaxNameLength true.

Definition validateTags : result Violation unit :=
  if MaxTags <? len (rule_tags r) then Err (violation "tags" TooManyTags)
  else each_once
    (λ index tag, refuse (negb (MatchString identifier tag) || (MaxIDLength <? slen tag))
                         (violation (indexed "tags" index) BadTag))
    (λ index, violation (indexed "tags" index) RepeatedTag) (rule_tags r).

Definition reachable (reference : string) : bool :=
  match url_parse reference with
  | None => false
  | Some (scheme, host) =>
      if bool_decide (host = "") then false
      else bool_decide (scheme = "http") || bool_decide (scheme = "https")
  end.

Definition validateReferences : result Violation unit :=
  if MaxReferences <? len (rule_references r) then Err (violation "references" TooManyReferences)
  else each_once
    (λ index reference,
       refuse (MaxReferenceLength <? slen reference)
              (violation (indexed "references" index) ReferenceTooLong);;
       refuse (negb (reachable reference)) (violation (indexed "references" index) NotALink))
    (λ index, violation (indexed "references" index) RepeatedReference) (rule_references r).

Definition validateClass : result Violation unit :=
  if rule_class r =? 0 then Err (violation "class" NoClass)
  else match EventClass_name (rule_class r) with
       | None => Err (violation "class" UndeclaredClass)
       | Some _ => Ok tt
       end.

Definition validateGrouped (where_ : string) (group : list Field) : result Violation unit :=
  each_once
    (λ index field,
       let part := indexed where_ index in
       if bool_decide (field = classField) then Err (violation part GroupsByClass)
       else if bool_decide (field = tenantField) then Err (violation part GroupsByTenant)
       else if bool_decide (field = identityField) then Err (violation part GroupsByIdentity)
       else match KindOf field with
            | None => Err (violation part UndeclaredField)
            | Some _ => refuse (negb (AddressableBy field (rule_class r)))
                               (violation part AnotherClass)
            end)
    (λ index, violation (indexed where_ index) RepeatedGroup) group.

Definition validateCount : result Violation unit :=
  let c := rule_count r in
  if negb (Counts c) then Ok tt
  else if count_at_least c <? MinCount then Err (violation "count.at_least" CountsToOne)
  else if MaxCount <? count_at_least c then Err (violation "count.at_least" CountsPastAWindow)
  else if count_within c <=? 0 then Err (violation "count.within" NoWindow)
  else if MaxWithin <? count_within c then Err (violation "count.within" WindowTooLong)
  else if MaxGroupBy <? len (count_group_by c) then Err (violation "count.group_by" TooManyGrouped)
  else validateGrouped "count.group_by" (count_group_by c).

(** ** What the rule asks *)

Definition validateValue (where_ : string) (field : Field) (kind : Kind) (value : Value)
    : result Violation unit :=
  if negb (fits value kind) then Err (violation where_ WrongLiteral)
  else if bool_decide (value_kind value = Text) && blank (value_text value)
  then Err (violation where_ ComparedWithNothing)
  else if bool_decide (kind = Choice) && negb (contains_elem (ChoicesOf field) (value_text value))
  then Err (violation where_ UndeclaredChoice)
  else Ok tt.

Definition validateValues (where_ : string) (p : Predicate) (kind : Kind)
    : result Violation unit :=
  let '(minimum, maximum) := takes (pred_operator p) in
  if len (pred_values p) <? minimum then Err (violation where_ TooFewValues)
  else if (0 <? maximum) && (maximum <? len (pred_values p))
  then Err (violation where_ TooManyValues)
  else if MaxValues <? len (pred_values p) then Err (violation where_ TooLongAList)
  else each (λ _ value, validateValue where_ (pred_field p) kind value) (pred_values p).

Definition validatePredicate (part : string) (p : Predicate) : result Violation unit :=
  let where_ := part +:+ "." +:+ pred_field p in
  match KindOf (pred_field p) with
  | None => Err (violation where_ UndeclaredField)
  | Some kind =>
      if negb (AddressableBy (pred_field p) (rule_class r)) then Err (violation where_ AnotherClass)
      else if negb (known (pred_operator p)) then Err (violation where_ UnknownOperator)
      else if negb (operator_asks (pred_operator p) kind) then Err (violation where_ DoesNotAsk)
      else validateValues where_ p kind
  end.

(** [validateExpression] and [validateTerms], which call one another. *)
Fixpoint validateExpression (part : string) (expression : Expression) (depth : Z)
    : result Violation unit :=
  let validateTerms (part : string) (terms : list Expression) : result Violation unit :=
    if len terms =? 0 then Err (violation part NoTerms)
    else each (λ index term, validateExpression (indexed part index) term (depth + 1)) terms in
  match expression with
  | Missing => Err (violation part AsksNothing)
  | _ =>
      if MaxDepth <? depth then Err (violation part TooDeep)
      else match expression with
      | Pred p => validatePredicate part p
      | Not term => validateExpression (part +:+ ".not") term (depth + 1)
      | All terms => validateTerms (part +:+ ".all") terms
      | Any terms => validateTerms (part +:+ ".any") terms
      | _ => Err (violation part NotInTheLanguage)
      end
  end.

(** ** Sequences *)

Fixpoint validateStages (index : nat) (named : list string) (stages : list Stage)
    : result Violation unit :=
  match stages with
  | [] => Ok tt
  | stage :: stages =>
      let part := indexed "sequence.stages" index in
      text (part +:+ ".name") (stage_name stage) MaxStageLength true;;
      refuse (bool_decide (stage_name stage ∈ named)) (violation (part +:+ ".name") RepeatedStage);;
      validateExpression (part +:+ ".match") (stage_match stage) 0;;
      validateStages (S index) (stage_name stage :: named) stages
  end.

Definition is_missing (e : Expression) : bool :=
  match e with Missing => true | _ => false end.

Definition validateSequence : result Violation unit :=
  let s := rule_sequence r in
  if negb (Correlates s) then Ok tt
  else if negb (is_missing (rule_match r)) then Err (violation "sequence" SequenceBesideMatch)
  else if Counts (rule_count r) then Err (violation "sequence" SequenceBesideCount)
  else if len (seq_stages s) <? MinStages then Err (violation "sequence.stages" TooFewStages)
  else if MaxStages <? len (seq_stages s) then Err (violation "sequence.stages" TooManyStages)
  else if seq_within s <=? 0 then Err (violation "sequence.within" NoWindow)
  else if MaxWithin <? seq_within s then Err (violation "sequence.within" WindowTooLong)
  else if MaxGroupBy <? len (seq_group_by s) then Err (violation "sequence.group_by" TooManyGrouped)
  else
    validateStages 0 [] (seq_stages s);;
    validateGrouped "sequence.group_by" (seq_group_by s).

Definition Validate : result Violation unit :=
  refuse (negb (MatchString identifier (rule_id r)) || (MaxIDLength <? slen (rule_id r)))
         (violation "id" BadID);;
  refuse (MatchString versioned (rule_id r)) (violation "id" VersionedID);;
  refuse (rule_revision r <? 1) (violation "revision" RevisionTooLow);;
  refuse (2 ^ 32 - 1 <? uint64 (rule_revision r)) (violation "revision" RevisionTooWide);;
  text "name" (rule_name r) MaxNameLength true;;
  text "description" (rule_description r) MaxDescriptionLength true;;
  text "false_positives" (rule_false_positives r) MaxGuidanceLength false;;
  text "response" (rule_response r) MaxGuidanceLength false;;
  refuse (bool_decide (severities (rule_severity r) = None)) (violation "severity" BadSeverity);;
  refuse (negb (statuses (rule_status r))) (violation "status" BadStatus);;
  validateTechnique;;
  validateSource;;
  validateTags;;
  validateReferences;;
  validateClass;;
  validateCount;;
  validateSequence;;
  if Correlates (rule_sequence r) then Ok tt
  else validateExpression "match" (rule_match r) 0.
End validate.
