(* ===== verification/WellFormed.v ===== *)
(** * What a validated rule is

    The declarative reading of [Rule.Validate]: a rule it accepts is exactly a
    well-formed one. The shape of the questions is an inductive predicate on the
    depth, and the patterns are read as languages, not as a matcher's answer. *)

From Stdlib Require Import ZArith Lia Ascii Floats.SpecFloat.
From stdpp Require Import base tactics option gmap strings pretty numbers list.
From S2P Require Import Prelude Text Rule Contract Validate.

(** ** Steps of a validation *)

Lemma then_ok {E} (m k : result E unit) :
  ((m ≫= λ _, k) = Ok tt) ↔ m = Ok tt ∧ k = Ok tt.
Proof. destruct m as [[]|]; cbn; naive_solver. Qed.

Lemma refuse_ok_iff {E} b (e : E) : refuse b e = Ok tt ↔ b = false.
Proof. by destruct b. Qed.

Lemma if_err {E} (b : bool) (e : E) (k : result E unit) :
  (if b then Err e else k) = Ok tt ↔ b = false ∧ k = Ok tt.
Proof. destruct b; naive_solver. Qed.

Lemma if_ok {E} (b : bool) (k : result E unit) :
  (if b then Ok tt else k) = Ok tt ↔ (b = false → k = Ok tt).
Proof. destruct b; naive_solver. Qed.

Lemma each_once_from_ok {E A} `{EqDecision A} i seen (f : nat → A → result E unit) twice l :
  each_once_from i seen f twice l = Ok tt ↔
  (∀ j x, l !! j = Some x → f (i + j)%nat x = Ok tt) ∧ NoDup l ∧ (∀ x, x ∈ l → x ∉ seen).
Proof.
  revert i seen. induction l as [|x l IH]; intros i seen; cbn [each_once_from].
  { split; [intros _ | done]. split_and!; [done | constructor | by intros x ?%elem_of_nil]. }
  destruct (f i x) as [[]|e] eqn:Hf.
  2: { split; [done |]. intros [Hall _]. specialize (Hall O x eq_refl).
       rewrite Nat.add_0_r in Hall. congruence. }
  case_decide as Hin.
  { split; [done |]. intros (_ & _ & Hns). by destruct (Hns x (list_elem_of_here _ _)). }
  rewrite IH, NoDup_cons. split.
  - intros (Hall & Hnd & Hns). split_and!; [| | done |].
    + intros [|j] y Hy; simplify_eq/=; [by rewrite Nat.add_0_r |].
      replace (i + S j)%nat with (S i + j)%nat by lia. eauto.
    + intros Hx. by destruct (Hns x Hx (list_elem_of_here _ _)).
    + intros y [->|Hy]%elem_of_cons; [done |]. specialize (Hns y Hy).
      by apply not_elem_of_cons in Hns as [_ ?].
  - intros (Hall & [Hx Hnd] & Hns). split_and!; [| done |].
    + intros j y Hy. replace (S i + j)%nat with (i + S j)%nat by lia. by apply Hall.
    + intros y Hy. apply not_elem_of_cons. split; [by intros -> | apply Hns; by right].
Qed.

Lemma each_once_ok {E A} `{EqDecision A} (f : nat → A → result E unit) twice l :
  each_once f twice l = Ok tt ↔ (∀ j x, l !! j = Some x → f j x = Ok tt) ∧ NoDup l.
Proof.
  unfold each_once. rewrite each_once_from_ok. cbn. split.
  - naive_solver.
  - intros [? ?]. split_and!; [done | done |]. intros x _. apply not_elem_of_nil.
Qed.

(** ** Questions *)

Section well.
Context `{Contract} (class : EventClass).

Definition text_ok (ceiling : Z) (required : bool) (value : string) : Prop :=
  (required = true → blank value = false) ∧ slen value ≤ ceiling.

Definition literal_ok (field : Field) (kind : Kind) (v : Value) : Prop :=
  fits v kind = true
  ∧ (value_kind v = Text → blank (value_text v) = false)
  ∧ (kind = Choice → value_text v ∈ ChoicesOf field).

Definition predicate_ok (p : Predicate) : Prop :=
  ∃ kind, KindOf (pred_field p) = Some kind
  ∧ AddressableBy (pred_field p) class = true
  ∧ operator_asks (pred_operator p) kind = true
  ∧ (takes (pred_operator p)).1 ≤ len (pred_values p)
  ∧ (0 < (takes (pred_operator p)).2 → len (pred_values p) ≤ (takes (pred_operator p)).2)
  ∧ len (pred_values p) ≤ MaxValues
  ∧ ∀ v, v ∈ pred_values p → literal_ok (pred_field p) kind v.

(** An expression that starts at [depth]: no node is missing or foreign, none is
    deeper than the ceiling, no group is empty and every predicate is answerable. *)
Inductive asks_well : Z → Expression → Prop :=
| aw_pred depth p : depth ≤ MaxDepth → predicate_ok p → asks_well depth (Pred p)
| aw_not depth t : depth ≤ MaxDepth → asks_well (depth + 1) t → asks_well depth (Not t)
| aw_all depth ts : depth ≤ MaxDepth → ts ≠ [] →
    (∀ t, t ∈ ts → asks_well (depth + 1) t) → asks_well depth (All ts)
| aw_any depth ts : depth ≤ MaxDepth → ts ≠ [] →
    (∀ t, t ∈ ts → asks_well (depth + 1) t) → asks_well depth (Any ts).

(** Fields a rule may group by, each once. *)
Definition groups_well (group : list Field) : Prop :=
  len group ≤ MaxGroupBy ∧ NoDup group
  ∧ ∀ field, field ∈ group →
      field ≠ classField ∧ field ≠ tenantField ∧ field ≠ identityField
      ∧ AddressableBy field class = true.
End well.

Section spec.
Context `{Contract} (r : Rule).

Lemma text_spec part value ceiling required :
  text r part value ceiling required = Ok tt ↔ text_ok ceiling required value.
Proof.
  unfold text, text_ok. rewrite !if_err, andb_false_iff, Z.ltb_ge.
  destruct required, (blank value); naive_solver.
Qed.

Lemma operator_asks_known o kind : operator_asks o kind = true → known o = true.
Proof. unfold operator_asks, known. by destruct (accepts o). Qed.

Lemma validateValue_spec where_ field kind v :
  validateValue r where_ field kind v = Ok tt ↔ literal_ok field kind v.
Proof.
  unfold validateValue, literal_ok. rewrite !if_err, negb_false_iff, !andb_false_iff,
    !bool_decide_eq_false, negb_false_iff. unfold contains_elem. rewrite bool_decide_eq_true.
  destruct (decide (value_kind v = Text)), (decide (kind = Choice)); naive_solver.
Qed.

Lemma validatePredicate_spec part p :
  validatePredicate r part p = Ok tt ↔ predicate_ok (rule_class r) p.
Proof.
  unfold validatePredicate, predicate_ok. destruct (KindOf (pred_field p)) as [kind|];
    [| split; [done | naive_solver]].
  rewrite !if_err, !negb_false_iff. unfold validateValues.
  destruct (takes (pred_operator p)) as [minimum maximum]. cbn [fst snd].
  rewrite !if_err, !Z.ltb_ge, andb_false_iff, !Z.ltb_ge, each_ok.
  assert ((∀ j v, pred_values p !! j = Some v →
      validateValue r (part +:+ "." +:+ pred_field p) (pred_field p) kind v = Ok tt)
    ↔ ∀ v, v ∈ pred_values p → literal_ok (pred_field p) kind v) as ->.
  { split.
    - intros Hall v [j Hj]%list_elem_of_lookup. apply validateValue_spec with
        (where_ := part +:+ "." +:+ pred_field p). eauto.
    - intros Hall j v Hj. apply validateValue_spec, Hall. by eapply list_elem_of_lookup_2. }
  split.
  - intros (Ha & _ & Ho & Hmin & Hmax & Hc & Hv). exists kind. split_and!; try done. lia.
  - intros (k & [= <-] & Ha & Ho & Hmin & Hmax & Hc & Hv). split_and!; try done; [| lia].
    by eapply operator_asks_known.
Qed.

Lemma terms_some {A} (ts : list A) : (len ts =? 0) = false ↔ ts ≠ [].
Proof. rewrite Z.eqb_neq. destruct ts; split; (done || intros _; unfold len; cbn; lia). Qed.

Lemma each_terms_ok part depth ts :
  Forall (λ t, ∀ part depth, validateExpression r part t depth = Ok tt
                             ↔ asks_well (rule_class r) depth t) ts →
  each (λ index term, validateExpression r (indexed part index) term (depth + 1)) ts = Ok tt
  ↔ ∀ t, t ∈ ts → asks_well (rule_class r) (depth + 1) t.
Proof.
  rewrite Forall_forall, each_ok. intros IH. split.
  - intros Hall t Ht. pose proof Ht as [j Hj]%list_elem_of_lookup.
    by apply (IH t Ht (indexed part j)), Hall.
  - intros Hall j t Hj. apply list_elem_of_lookup_2 in Hj. by apply IH, Hall.
Qed.

(** [validateExpression] accepts exactly the expressions that ask something
    answerable at every node, no deeper than the ceiling: the refusal it makes
    is never spurious and nothing it should refuse gets past it. *)
Lemma validateExpression_spec part e depth :
  validateExpression r part e depth = Ok tt ↔ asks_well (rule_class r) depth e.
Proof.
  revert part depth. induction e as [p|ts IH|ts IH|t IH| |n] using Expression_rect';
    intros part depth; cbn [validateExpression].
  - rewrite if_err, Z.ltb_ge, validatePredicate_spec.
    split; [intros []; by constructor | by inversion 1].
  - rewrite !if_err, Z.ltb_ge, terms_some, each_terms_ok by done.
    split; [intros (? & ? & ?); by constructor | by inversion 1].
  - rewrite !if_err, Z.ltb_ge, terms_some, each_terms_ok by done.
    split; [intros (? & ? & ?); by constructor | by inversion 1].
  - rewrite if_err, Z.ltb_ge, IH. split; [intros []; by constructor | by inversion 1].
  - split; [done | by inversion 1].
  - rewrite if_err. split; [by intros [] | by inversion 1].
Qed.

(** ** The whole rule *)

Context (url_parse : string → option (string * string)).

Definition name_ok (name : string) : Prop :=
  matched identifier name ∧ slen name ≤ MaxIDLength.

Definition window_ok (within : duration) : Prop := 0 < within ≤ MaxWithin.

Record well_formed : Prop := {
  wf_id : name_ok (rule_id r) ∧ ¬ matched versioned (rule_id r);
  wf_revision : 1 ≤ rule_revision r ∧ uint64 (rule_revision r) ≤ 2 ^ 32 - 1;
  wf_name : text_ok MaxNameLength true (rule_name r);
  wf_description : text_ok MaxDescriptionLength true (rule_description r);
  wf_guidance : text_ok MaxGuidanceLength false (rule_false_positives r)
                ∧ text_ok MaxGuidanceLength false (rule_response r);
  wf_reported : severities (rule_severity r) ≠ None ∧ statuses (rule_status r) = true;
  wf_technique : technique_empty (rule_technique r) = true
    ∨ tech_tactic (rule_technique r) ∈ tactics
      ∧ matched technique (tech_id (rule_technique r))
      ∧ text_ok MaxNameLength true (tech_name (rule_technique r));
  wf_source : source_empty (rule_source r) = true
    ∨ name_ok (src_catalogue (rule_source r))
      ∧ text_ok MaxNameLength true (src_identifier (rule_source r));
  wf_tags : len (rule_tags r) ≤ MaxTags ∧ NoDup (rule_tags r)
    ∧ ∀ tag, tag ∈ rule_tags r → name_ok tag;
  wf_references : len (rule_references r) ≤ MaxReferences ∧ NoDup (rule_references r)
    ∧ ∀ link, link ∈ rule_references r →
        slen link ≤ MaxReferenceLength ∧ reachable url_parse link = true;
  wf_class : rule_class r ≠ 0 ∧ is_Some (EventClass_name (rule_class r));
  wf_count : Counts (rule_count r) = true →
    MinCount ≤ count_at_least (rule_count r) ≤ MaxCount
    ∧ window_ok (count_within (rule_count r))
    ∧ groups_well (rule_class r) (count_group_by (rule_count r));
  wf_sequence : Correlates (rule_sequence r) = true →
    rule_match r = Missing ∧ Counts (rule_count r) = false
    ∧ MinStages ≤ len (seq_stages (rule_sequence r)) ≤ MaxStages
    ∧ window_ok (seq_within (rule_sequence r))
    ∧ groups_well (rule_class r) (seq_group_by (rule_sequence r))
    ∧ NoDup (stage_name <$> seq_stages (rule_sequence r))
    ∧ ∀ stage, stage ∈ seq_stages (rule_sequence r) →
        text_ok MaxStageLength true (stage_name stage)
        ∧ asks_well (rule_class r) 0 (stage_match stage);
  wf_match : Correlates (rule_sequence r) = false → asks_well (rule_class r) 0 (rule_match r);
}.

Lemma name_refused part reason name :
  refuse (negb (MatchString identifier name) || (MaxIDLength <? slen name)) (violation r part reason)
  = Ok tt ↔ name_ok name.
Proof.
  by rewrite refuse_ok_iff, orb_false_iff, negb_false_iff, MatchString_spec, Z.ltb_ge.
Qed.

Lemma validateTechnique_spec : validateTechnique r = Ok tt ↔
  technique_empty (rule_technique r) = true
  ∨ tech_tactic (rule_technique r) ∈ tactics ∧ matched technique (tech_id (rule_technique r))
    ∧ text_ok MaxNameLength true (tech_name (rule_technique r)).
Proof.
  unfold validateTechnique. destruct (technique_empty (rule_technique r)); [naive_solver |].
  rewrite !if_err, !orb_false_iff, !bool_decide_eq_false, !negb_false_iff, MatchString_spec, text_spec.
  unfold contains_elem. rewrite bool_decide_eq_true. split; [naive_solver |].
  intros [|(Ht & Hi & Hn)]; [done |]. split_and!; try done.
  - intros He. rewrite He in Ht. revert Ht. apply (bool_decide_unpack _). vm_compute. exact I.
  - intros He. rewrite He in Hi. by apply MatchString_spec in Hi.
  - intros He. rewrite He in Hn. by destruct Hn as [Hn _]; specialize (Hn eq_refl).
Qed.

Lemma validateSource_spec : validateSource r = Ok tt ↔
  source_empty (rule_source r) = true
  ∨ name_ok (src_catalogue (rule_source r))
    ∧ text_ok MaxNameLength true (src_identifier (rule_source r)).
Proof.
  unfold validateSource. destruct (source_empty (rule_source r)); [naive_solver |].
  rewrite !if_err, !orb_false_iff, !bool_decide_eq_false, !negb_false_iff, MatchString_spec,
    Z.ltb_ge, text_spec. split; [unfold name_ok; naive_solver |].
  intros [|([Hm Hl] & Hn)]; [done |]. split_and!; try done.
  - intros He. rewrite He in Hm. by apply MatchString_spec in Hm.
  - intros He. rewrite He in Hn. by destruct Hn as [Hn _]; specialize (Hn eq_refl).
Qed.

(** A loop over the elements, each with its index, read as a quantifier. *)
Lemma indexed_forall {A} (l : list A) (P : nat → A → Prop) (Q : A → Prop) :
  (∀ i x, P i x ↔ Q x) → (∀ j x, l !! j = Some x → P j x) ↔ (∀ x, x ∈ l → Q x).
Proof.
  intros HPQ. split.
  - intros Hall x [j Hj]%list_elem_of_lookup. by apply (HPQ j), Hall.
  - intros Hall j x Hj. apply HPQ, Hall. by eapply list_elem_of_lookup_2.
Qed.

Lemma validateGrouped_spec where_ group :
  len group ≤ MaxGroupBy → validateGrouped r where_ group = Ok tt ↔ groups_well (rule_class r) group.
Proof.
  intros Hl. unfold validateGrouped, groups_well. rewrite each_once_ok.
  rewrite (indexed_forall group _ (λ field, field ≠ classField ∧ field ≠ tenantField
    ∧ field ≠ identityField ∧ AddressableBy field (rule_class r) = true)); [naive_solver |].
  intros i field. cbv zeta. rewrite !if_err, !bool_decide_eq_false.
  unfold AddressableBy. destruct (KindOf field); [| naive_solver].
  rewrite refuse_ok_iff, negb_false_iff. done.
Qed.

Lemma validateStages_spec i named stages :
  validateStages r i named stages = Ok tt ↔
  NoDup (stage_name <$> stages) ∧ (∀ n, n ∈ stage_name <$> stages → n ∉ named)
  ∧ ∀ stage, stage ∈ stages → text_ok MaxStageLength true (stage_name stage)
                              ∧ asks_well (rule_class r) 0 (stage_match stage).
Proof.
  revert i named. induction stages as [|s stages IH]; intros i named; cbn [validateStages].
  { split; [intros _ | done]. split_and!; [constructor | by intros ? ?%elem_of_nil
      | by intros ? ?%elem_of_nil]. }
  rewrite !then_ok, text_spec, refuse_ok_iff, bool_decide_eq_false,
    validateExpression_spec, IH.
  rewrite fmap_cons, NoDup_cons. setoid_rewrite elem_of_cons. split.
  - intros (Ht & Hn & Ha & Hnd & Hnot & Hall). split_and!; [| done | |].
    + intros Hin. destruct (Hnot _ Hin). by left.
    + intros n [->|Hin]; [done |]. intros Hc. destruct (Hnot n Hin). by right.
    + intros s' [->|Hin]; [done | by apply Hall].
  - intros ([Hs Hnd] & Hnot & Hall). destruct (Hall s) as [? ?]; [by left |].
    split_and!; [done | apply Hnot; by left | done | done | | intros s' ?; apply Hall; by right].
    intros n Hin [->|Hc]; [done |]. by destruct (Hnot n (or_intror Hin)).
Qed.

Lemma is_missing_iff e : is_missing e = true ↔ e = Missing.
Proof. by destruct e. Qed.

Lemma validateSequence_spec : validateSequence r = Ok tt ↔
  (Correlates (rule_sequence r) = true →
    rule_match r = Missing ∧ Counts (rule_count r) = false
    ∧ MinStages ≤ len (seq_stages (rule_sequence r)) ≤ MaxStages
    ∧ window_ok (seq_within (rule_sequence r))
    ∧ groups_well (rule_class r) (seq_group_by (rule_sequence r))
    ∧ NoDup (stage_name <$> seq_stages (rule_sequence r))
    ∧ ∀ stage, stage ∈ seq_stages (rule_sequence r) →
        text_ok MaxStageLength true (stage_name stage)
        ∧ asks_well (rule_class r) 0 (stage_match stage)).
Proof.
  unfold validateSequence, window_ok. rewrite if_ok, negb_false_iff.
  rewrite !if_err, negb_false_iff, is_missing_iff, !Z.ltb_ge, Z.leb_gt, then_ok, validateStages_spec.
  split; intros Hc Hcor; specialize (Hc Hcor).
  - destruct Hc as (? & ? & ? & ? & ? & ? & Hl & (? & ? & ?) & Hg).
    rewrite validateGrouped_spec in Hg by done. split_and!; try done.
  - destruct Hc as (? & ? & [? ?] & [? ?] & Hg & ? & ?). pose proof Hg as [Hl _].
    rewrite validateGrouped_spec by done. split_and!; try done.
    intros n _. apply not_elem_of_nil.
Qed.

Lemma validateCount_spec : validateCount r = Ok tt ↔
  (Counts (rule_count r) = true →
    MinCount ≤ count_at_least (rule_count r) ≤ MaxCount
    ∧ window_ok (count_within (rule_count r))
    ∧ groups_well (rule_class r) (count_group_by (rule_count r))).
Proof.
  unfold validateCount, window_ok. rewrite if_ok, negb_false_iff.
  rewrite !if_err, !Z.ltb_ge, Z.leb_gt.
  split; intros Hc Hcor; specialize (Hc Hcor).
  - destruct Hc as (? & ? & ? & ? & Hl & Hg). rewrite validateGrouped_spec in Hg by done. done.
  - destruct Hc as ([? ?] & [? ?] & Hg). pose proof Hg as [Hl _].
    rewrite validateGrouped_spec by done. done.
Qed.

Lemma validateTags_spec : validateTags r = Ok tt ↔
  len (rule_tags r) ≤ MaxTags ∧ NoDup (rule_tags r) ∧ ∀ tag, tag ∈ rule_tags r → name_ok tag.
Proof.
  unfold validateTags. rewrite if_err, Z.ltb_ge, each_once_ok.
  rewrite (indexed_forall _ _ name_ok); [naive_solver |]. intros i tag. apply name_refused.
Qed.

Lemma validateReferences_spec : validateReferences url_parse r = Ok tt ↔
  len (rule_references r) ≤ MaxReferences ∧ NoDup (rule_references r)
  ∧ ∀ link, link ∈ rule_references r →
      slen link ≤ MaxReferenceLength ∧ reachable url_parse link = true.
Proof.
  unfold validateReferences. rewrite if_err, Z.ltb_ge, each_once_ok.
  rewrite (indexed_forall _ _ (λ link, slen link ≤ MaxReferenceLength
    ∧ reachable url_parse link = true)); [naive_solver |].
  intros i link. by rewrite then_ok, !refuse_ok_iff, Z.ltb_ge, negb_false_iff.
Qed.

Lemma validateClass_spec : validateClass r = Ok tt ↔
  rule_class r ≠ 0 ∧ is_Some (EventClass_name (rule_class r)).
Proof.
  unfold validateClass. rewrite if_err, Z.eqb_neq.
  destruct (EventClass_name (rule_class r)); [naive_solver |].
  split; [by intros [_ ?] | by intros [_ [? ?]]].
Qed.

Lemma Validate_spec : Validate url_parse r = Ok tt ↔ well_formed.
Proof.
  unfold Validate. rewrite !then_ok, name_refused, !text_spec, !refuse_ok_iff, !Z.ltb_ge.
  rewrite bool_decide_eq_false, negb_false_iff, validateTechnique_spec, validateSource_spec,
    validateTags_spec, validateReferences_spec, validateClass_spec, validateCount_spec,
    validateSequence_spec, if_ok, validateExpression_spec.
  assert (MatchString versioned (rule_id r) = false ↔ ¬ matched versioned (rule_id r)) as ->
    by (rewrite <- MatchString_spec; destruct (MatchString _ _); naive_solver).
  split.
  - intros (? & ? & ? & ? & ? & ? & ? & ? & ? & ? & ? & ? & ? & ? & ? & ? & ? & ?). by split.
  - intros [[? ?] [? ?] ? ? [? ?] [? ?] ? ? (? & ? & ?) (? & ? & ?) [? ?] ? ? ?]. split_and!; done.
Qed.

(** C5. [Rule.Validate] accepts exactly the well-formed rules: every bound, every
    pattern and every field of the language, checked in the source one refusal
    at a time, amounts to the declarative [well_formed] and to nothing else. *)
Theorem validated_rules_are_well_formed : Validate url_parse r = Ok tt ↔ well_formed.
Proof. apply Validate_spec. Qed.
End spec.
