(* ===== verification/Compile.v ===== *)
(** * Compilation and decision (compile.go, decide.go)

    A rule resolved against the contract: every field a path of descriptors and
    every literal of the type its field holds; and deciding one event with it.
    [fmt] and [strconv.Quote], which write values for people, are parameters
    ([Formats]): no decision reads what they write. *)

From Stdlib Require Import ZArith Lia Ascii Floats.SpecFloat.
From stdpp Require Import base tactics option gmap strings pretty numbers list.
From S2P Require Import Prelude Text Rule Contract Validate.

(** ** Floating point *)

Definition float64_of_Z (z : Z) : float64 := binary_normalize 53 1024 z 0 false.

(** [float32(f)], widened back: round to 24 bits. *)
Definition float32_of (f : float64) : float64 :=
  match f with
  | S754_finite s m e => binary_normalize 24 128 (if s then Z.neg m else Z.pos m) e s
  | _ => f
  end.

Definition is_nan (f : float64) : bool := match f with S754_nan => true | _ => false end.

(** [math.MaxFloat32], as a binary64 number. *)
Definition MaxFloat32 : float64 := S754_finite false 9007198717870080 75.

(** The integer a finite whole number is; [None] for NaN, an infinity and a
    number that [math.Trunc] changes. *)
Definition whole_value (f : float64) : option Z :=
  match f with
  | S754_zero _ => Some 0
  | S754_finite s m e =>
      let signed z := if s then - z else z in
      if 0 <=? e then Some (signed (Z.pos m * 2 ^ e))
      else if Z.pos m mod 2 ^ (- e) =? 0 then Some (signed (Z.pos m / 2 ^ (- e)))
      else None
  | _ => None
  end.

(** ** Values *)

(** Go's [==] on what [Value.Interface] answers: the types agree and the values
    are equal, floats as IEEE 754 has it. A map keyed by interfaces looks a key
    up the same way. *)
Definition iface_eqb (a b : PValue) : bool :=
  match a, b with
  | PString s, PString t => bool_decide (s = t)
  | PBytes s, PBytes t => bool_decide (s = t)
  | PBool x, PBool y => bool_decide (x = y)
  | PEnum x, PEnum y | PInt32 x, PInt32 y | PInt64 x, PInt64 y
  | PUint32 x, PUint32 y | PUint64 x, PUint64 y => x =? y
  | PFloat32 x, PFloat32 y | PFloat64 x, PFloat64 y => SFeqb x y
  | _, _ => false
  end.

Definition numberIn (v : PValue) : float64 :=
  match v with
  | PInt32 z | PInt64 z | PUint32 z | PUint64 z => float64_of_Z z
  | PFloat32 f | PFloat64 f => f
  | _ => S754_nan
  end.

Class Formats := {
  Quote : string → string;
  Format : PValue → string;   (* fmt's %v of a number *)
}.

Definition FormatBool (b : bool) : string := if b then "true" else "false".

(** ** Compiled shapes *)

Record comparison := mkComparison {
  c_field : Field;
  c_path : list FieldDescriptor;
  c_operator : Operator;
  c_literals : list PValue;
  c_member : list PValue;   (* the keys of the set a list of literals becomes *)
}.

Inductive node :=
| Comparison (c : comparison)
| Conjunction (terms : list node)
| Disjunction (terms : list node)
| Negation (term : node).

Section node_ind.
Context (P : node → Prop)
  (HC : ∀ c, P (Comparison c))
  (HAnd : ∀ ts, Forall P ts → P (Conjunction ts))
  (HOr : ∀ ts, Forall P ts → P (Disjunction ts))
  (HNot : ∀ t, P t → P (Negation t)).

Fixpoint node_rect' (n : node) : P n :=
  let fix go (ts : list node) : Forall P ts :=
    match ts with
    | [] => List.Forall_nil P
    | t :: ts => @List.Forall_cons _ P t ts (node_rect' t) (go ts)
    end in
  match n with
  | Comparison c => HC c
  | Conjunction ts => HAnd ts (go ts)
  | Disjunction ts => HOr ts (go ts)
  | Negation t => HNot t (node_rect' t)
  end.
End node_ind.

Record staged := mkStaged { st_name : string; st_root : node }.
Record grouping := mkGrouping { g_field : Field; g_path : list FieldDescriptor }.

Record Program := mkProgram {
  p_rule : Rule;
  p_root : option node;
  p_stages : list staged;
  p_fields : list Field;
  p_grouped : list grouping;
}.

Definition ProgramCounts (p : Program) : bool := Counts (rule_count (p_rule p)).
Definition ProgramCorrelates (p : Program) : bool := 0 <? len (p_stages p).

(** ** Literals *)

Definition exactly : Z := Z.shiftl 1 53.

Definition bounds (k : PKind) : Z * Z :=
  match k with
  | Int32Kind | Sint32Kind | Sfixed32Kind => (- 2 ^ 31, 2 ^ 31 - 1)
  | Uint32Kind | Fixed32Kind => (0, 2 ^ 32 - 1)
  | Uint64Kind | Fixed64Kind => (0, exactly)
  | _ => (- exactly, exactly)
  end.

Definition numberOf (value : Value) (leaf : FieldDescriptor) : result Reason PValue :=
  let number := value_number value in
  match fd_kind leaf with
  | FloatKind =>
      if SFltb MaxFloat32 (SFabs number) then Err TooWideForTheField
      else Ok (PFloat32 (float32_of number))
  | DoubleKind => Ok (PFloat64 number)
  | k =>
      match whole_value number with
      | None => Err NotAWholeNumber
      | Some z =>
          let '(low, high) := bounds k in
          if (z <? low) || (high <? z) then Err OutsideTheField
          else match k with
          | Int32Kind | Sint32Kind | Sfixed32Kind => Ok (PInt32 z)
          | Int64Kind | Sint64Kind | Sfixed64Kind => Ok (PInt64 z)
          | Uint32Kind | Fixed32Kind => Ok (PUint32 z)
          | Uint64Kind | Fixed64Kind => Ok (PUint64 z)
          | _ => Err NothingCompares
          end
      end
  end.

(** The number a written choice stands for: the first value of that short name. *)
Definition enumOf (e : EnumDescriptor) (name : string) : option Z :=
  snd <$> List.find (λ value, bool_decide (shortName e value = name)) (enum_values e).

Definition literalOf (value : Value) (leaf : FieldDescriptor) : result Reason PValue :=
  match fd_kind leaf with
  | StringKind => Ok (PString (value_text value))
  | BoolKind => Ok (PBool (value_truth value))
  | EnumKind =>
      match enumOf (fd_enum leaf) (value_text value) with
      | None => Err UndeclaredChoice
      | Some number => Ok (PEnum number)
      end
  | _ => numberOf value leaf
  end.

(** The loop over a predicate's values, stopping at the first refusal. *)
Fixpoint literalsOf (values : list Value) (leaf : FieldDescriptor) : result Reason (list PValue) :=
  match values with
  | [] => Ok []
  | value :: values =>
      match literalOf value leaf with
      | Err e => Err e
      | Ok literal => match literalsOf values leaf with
                      | Err e => Err e
                      | Ok literals => Ok (literal :: literals)
                      end
      end
  end.

(** ** Compiling *)

Section compile.
Context `{Contract} (r : Rule).

(** The fields read are threaded through and added to. *)
Definition compareOn (where_ : string) (p : Predicate) (read : gset Field)
    : result Violation (node * gset Field) :=
  match pathOf (pred_field p) with
  | None => Err (violation r where_ UndeclaredField)
  | Some path =>
      let read := {[pred_field p]} ∪ read in
      match last path with
      | None => Err (violation r where_ UndeclaredField)
      | Some leaf =>
          match literalsOf (pred_values p) leaf with
          | Err reason => Err (violation r where_ reason)
          | Ok literals =>
              let member := if decide (pred_operator p = OneOf) then literals else [] in
              Ok (Comparison (mkComparison (pred_field p) path (pred_operator p) literals member), read)
          end
      end
  end.

Fixpoint compile (part : string) (expression : Expression) (read : gset Field)
    : result Violation (node * gset Field) :=
  let compileTerms (part : string) :=
    fix go (index : nat) (terms : list Expression) (read : gset Field)
        : result Violation (list node * gset Field) :=
      match terms with
      | [] => Ok ([], read)
      | term :: terms =>
          match compile (indexed part index) term read with
          | Err e => Err e
          | Ok (t, read) =>
              match go (S index) terms read with
              | Err e => Err e
              | Ok (ts, read) => Ok (t :: ts, read)
              end
          end
      end in
  match expression with
  | Pred p => compareOn (part +:+ "." +:+ pred_field p) p read
  | Not term =>
      match compile (part +:+ ".not") term read with
      | Err e => Err e
      | Ok (inner, read) => Ok (Negation inner, read)
      end
  | All terms =>
      match compileTerms (part +:+ ".all") O terms read with
      | Err e => Err e
      | Ok (terms, read) => Ok (Conjunction terms, read)
      end
  | Any terms =>
      match compileTerms (part +:+ ".any") O terms read with
      | Err e => Err e
      | Ok (terms, read) => Ok (Disjunction terms, read)
      end
  | Missing | Foreign _ => Err (violation r part NotInTheLanguage)
  end.

Fixpoint group_from (where_ : string) (index : nat) (group : list Field)
    : result Violation (list grouping) :=
  match group with
  | [] => Ok []
  | field :: group =>
      match pathOf field with
      | None => Err (violation r (indexed where_ index) UndeclaredField)
      | Some path =>
          match group_from where_ (S index) group with
          | Err e => Err e
          | Ok grouped => Ok (mkGrouping field path :: grouped)
          end
      end
  end.

Definition group : result Violation (list grouping) :=
  if Correlates (rule_sequence r)
  then group_from "sequence.group_by" O (seq_group_by (rule_sequence r))
  else group_from "count.group_by" O (count_group_by (rule_count r)).
End compile.

(** ** Asking one value *)

(** [Value.String] of text is the text. *)
Definition value_string `{Formats} (v : PValue) : string :=
  match v with PString s => s | _ => Format v end.

(** What a value answers a comparison with, and whether it can be decided. *)
Definition answers `{Formats} (literal : PValue) (c : comparison) : bool * bool :=
  match c_operator c, c_literals c with
  | OneOf, _ => (existsb (iface_eqb literal) (c_member c), true)
  | Equals, against :: _ => (iface_eqb literal against, true)
  | Contains, against :: _ => (StringContains (value_string literal) (value_string against), true)
  | StartsWith, against :: _ => (HasPrefix (value_string literal) (value_string against), true)
  | EndsWith, against :: _ => (HasSuffix (value_string literal) (value_string against), true)
  | operator, first :: _ =>
      let value := numberIn literal in
      let against := numberIn first in
      if is_nan value || is_nan against then (false, false)
      else match operator with
      | Above => (SFltb against value, true)
      | AtLeast => (SFleb against value, true)
      | Below => (SFltb value against, true)
      | AtMost => (SFleb value against, true)
      | _ => (false, false)
      end
  | _, [] => (false, false)
  end.

(** ** Reading and deciding (decide.go) *)

Record Evidence := mkEvidence {
  e_field : Field;
  e_operator : Operator;
  e_negated : bool;
  e_held : string;
  e_absent : bool;
}.
#[global] Instance Evidence_eq_dec : EqDecision Evidence.
Proof. solve_decision. Defined.

Section decide.
Context {M : Type} `{Messages M, Formats}.

(** The value the event carries at the end of the path; [None] when a message on
    the way or the leaf is not set. *)
Fixpoint read (message : M) (path : list FieldDescriptor) : option PValue :=
  match path with
  | [] => None
  | [leaf] => if Has message leaf then Some (Get message leaf) else None
  | step :: path => if Has message step then read (GetMessage message step) path else None
  end.

Definition plain (leaf : FieldDescriptor) (value : PValue) : string :=
  match fd_kind leaf, value with
  | StringKind, _ => value_string value
  | BoolKind, PBool b => FormatBool b
  | EnumKind, PEnum n =>
      match List.find (λ v, v.2 =? n) (enum_values (fd_enum leaf)) with
      | None => pretty n
      | Some declared => shortName (fd_enum leaf) declared
      end
  | _, _ => Format value
  end.

Definition wrote (c : comparison) (literal : PValue) : string :=
  match last (c_path c) with
  | None => ""
  | Some leaf => if decide (fd_kind leaf = StringKind) then Quote (value_string literal)
                 else plain leaf literal
  end.

Definition saw (c : comparison) (value : option PValue) (negated : bool) : Evidence :=
  mkEvidence (c_field c) (c_operator c) negated
    (match value with Some v => wrote c v | None => "" end)
    (match value with Some _ => false | None => true end).

Definition answered (c : comparison) (value : option PValue) : bool :=
  match value with
  | None => false
  | Some v =>
      if decide (c_operator c = Present) then true
      else let '(held, decided) := answers v c in held && decided
  end.

(** [holds], with the evidence gathered when [into] is given. Every method of
    the source is a case: it answers and says what [into] holds after it. *)
Fixpoint holds (n : node) (record : M) (into : option (list Evidence)) (negated : bool)
    : bool * option (list Evidence) :=
  match n with
  | Comparison c =>
      let value := read record (c_path c) in
      (answered c value, (λ seen, add_once seen (saw c value negated)) <$> into)
  | Conjunction terms =>
      (fix go (terms : list node) (into : option (list Evidence)) :=
         match terms with
         | [] => (true, into)
         | term :: terms =>
             let '(held, into) := holds term record into negated in
             if held then go terms into else (false, into)
         end) terms into
  | Disjunction terms =>
      let mark := match into with Some seen => length seen | None => O end in
      (fix go (terms : list node) (into : option (list Evidence)) :=
         match terms with
         | [] => (false, into)
         | term :: terms =>
             let '(held, into) := holds term record into negated in
             if negb held then go terms into
             else (true, match into with
                         | None => None
                         | Some seen => (holds term record (Some (take mark seen)) negated).2
                         end)
         end) terms into
  | Negation term =>
      let '(held, into) := holds term record into (negb negated) in (negb held, into)
  end.

Record Match := mkMatch {
  m_rule : Rule;
  m_evidence : list Evidence;
  m_counted : Counted;
  m_correlated : Correlated;
}.

Definition no_count : Counted := mkCounted [] 0 time_zero false.
Definition no_story : Correlated := mkCorrelated [] [] 0.

(** [Satisfied]: the stages reached, then the evidence of those. [record] is
    [None] for a nil event. *)
Definition reached_stages (stages : list staged) (record : M) : Z :=
  foldl (λ reached '(index, stage),
    if (holds (st_root stage) record None false).1 then stages_add reached (Z.of_nat index)
    else reached) 0 (imap pair stages).

Definition stage_evidence (stages : list staged) (reached : Z) (record : M) : list Evidence :=
  foldl (λ evidence '(index, stage),
    if stages_has reached (Z.of_nat index)
    then default evidence (holds (st_root stage) record (Some evidence) false).2
    else evidence) [] (imap pair stages).

Definition SatisfiedStages (p : Program) (record : option M) : Z * list Evidence :=
  match record with
  | None => (0, [])
  | Some record =>
      if negb (GetEventClass record =? rule_class (p_rule p)) then (0, [])
      else
        let reached := reached_stages (p_stages p) record in
        if negb (stages_any reached) then (0, [])
        else (reached, stage_evidence (p_stages p) reached record)
  end.

(** [Decide] of a program compiled from a match or from stages. A program with
    neither has a nil root; [Compile] builds none. *)
Definition Decide (p : Program) (record : option M) : option Match :=
  match record with
  | None => None
  | Some message =>
      if negb (GetEventClass message =? rule_class (p_rule p)) then None
      else if 0 <? len (p_stages p) then
        let '(reached, evidence) := SatisfiedStages p record in
        if stages_any reached then Some (mkMatch (p_rule p) evidence no_count no_story) else None
      else match p_root p with
      | None => None
      | Some root =>
          if negb (holds root message None false).1 then None
          else Some (mkMatch (p_rule p) (default [] (holds root message (Some []) false).2)
                       no_count no_story)
      end
  end.

Definition ProgramStages (p : Program) : list string := st_name <$> p_stages p.

Definition ProgramGroup (p : Program) (record : M) : list Binding :=
  (λ g, match read record (g_path g), last (g_path g) with
        | Some value, Some leaf => mkBinding (g_field g) (plain leaf value) false
        | _, _ => mkBinding (g_field g) "" true
        end) <$> p_grouped p.
End decide.
