(* ===== verification/CompileProps.v ===== *)
(** * What deciding means

    The tree a rule is compiled to is a boolean formula over what the event
    carries; gathering evidence never changes what is decided, and the evidence
    gathered is reason enough for the decision. *)

From Stdlib Require Import ZArith Lia Ascii Floats.SpecFloat.
From stdpp Require Import base tactics option gmap strings pretty numbers list.
From S2P Require Import Prelude Text Rule Contract Validate WellFormed Compile.


Section decide.
Context {M : Type} `{Messages M, Formats}.

(** ** The formula *)

Fixpoint truth (n : node) (record : M) : bool :=
  match n with
  | Comparison c => answered c (read record (c_path c))
  | Conjunction terms => forallb (λ term, truth term record) terms
  | Disjunction terms => existsb (λ term, truth term record) terms
  | Negation term => negb (truth term record)
  end.

(** The comparisons under a node, each with the polarity it is asked in. *)
Fixpoint leaves (n : node) (negated : bool) : list (comparison * bool) :=
  match n with
  | Comparison c => [(c, negated)]
  | Conjunction terms | Disjunction terms => terms ≫= λ term, leaves term negated
  | Negation term => leaves term (negb negated)
  end.

(** What a node's evidence is, starting from [seen]: what it gathered is added
    at the end, each piece is what some comparison of the node saw, and two
    events that agree on the fields named decide the node alike. *)
Record gathers (n : node) (record : M) (negated : bool) (seen out : list Evidence) : Prop := {
  ga_prefix : seen `prefix_of` out;
  ga_nodup : NoDup seen → NoDup out;
  ga_seen : ∀ e, e ∈ out → e ∈ seen ∨ ∃ c neg, (c, neg) ∈ leaves n negated
                                              ∧ e = saw c (read record (c_path c)) neg;
  ga_enough : ∀ record',
    (∀ c neg, (c, neg) ∈ leaves n negated → c_field c ∈ e_field <$> out →
              read record' (c_path c) = read record (c_path c)) →
    truth n record' = truth n record;
}.

Lemma add_once_prefix (seen : list Evidence) e : seen `prefix_of` add_once seen e.
Proof. unfold add_once. case_decide; [done | by apply prefix_app_r]. Qed.

Lemma fields_prefix (a b : list Evidence) f :
  a `prefix_of` b → f ∈ e_field <$> a → f ∈ e_field <$> b.
Proof. intros [k ->] Hf. rewrite fmap_app, elem_of_app. by left. Qed.

Lemma gathers_comparison c record negated seen :
  gathers (Comparison c) record negated seen
    (add_once seen (saw c (read record (c_path c)) negated)).
Proof.
  split.
  - apply add_once_prefix.
  - apply NoDup_add_once.
  - intros e [|]%elem_of_add_once; [by left |]. right. exists c, negated.
    split; [by apply list_elem_of_singleton | done].
  - intros record' Hag. cbn [truth]. rewrite (Hag c negated); [done | by apply list_elem_of_singleton |].
    apply list_elem_of_fmap. exists (saw c (read record (c_path c)) negated).
    split; [done |]. apply elem_of_add_once. by right.
Qed.

(** [holds] answers the formula whether or not it gathers, and what it gathers
    is evidence. *)
Definition holds_ok (n : node) : Prop :=
  ∀ record negated, (holds n record None negated = (truth n record, None))
  ∧ ∀ seen, ∃ out, holds n record (Some seen) negated = (truth n record, Some out)
                   ∧ gathers n record negated seen out.

(** A comparison of a term is one of the whole; what it saw is evidence of it. *)
Ltac under_leaf := cbn in *; apply elem_of_app; first [left; eassumption | right; eassumption].
Ltac from_leaf := right; do 2 eexists; split; [under_leaf | done].

(** The loop of a conjunction. *)
Lemma conjunction_ok terms : Forall holds_ok terms → holds_ok (Conjunction terms).
Proof.
  intros Hts record negated. cbn [holds truth]. split.
  - induction Hts as [|t ts Ht _ IH]; [done |]. destruct (Ht record negated) as [-> _]. cbn.
    by destruct (truth t record).
  - induction Hts as [|t ts Ht _ IH]; intros seen.
    { exists seen. split; [done |]. split; [done | done | by left | done]. }
    destruct (Ht record negated) as [_ Ht']. destruct (Ht' seen) as (out & -> & [Hp Hn Hs He]).
    cbn [forallb]. destruct (truth t record) eqn:Htruth; cbn [andb].
    + destruct (IH out) as (out' & -> & [Hp' Hn' Hs' He']). exists out'. split; [done |]. split.
      * by etrans.
      * auto.
      * intros e [Hin|(c & neg & Hc & ->)]%Hs'; [apply Hs in Hin as [|(c & neg & Hc & ->)] |].
        -- by left.
        -- from_leaf.
        -- from_leaf.
      * intros record' Hag. cbn [truth forallb] in *. rewrite He.
        -- rewrite Htruth. cbn. apply He'. intros c neg Hc. apply (Hag c neg). under_leaf.
        -- intros c neg Hc Hf. apply (Hag c neg); [under_leaf |].
           by eapply fields_prefix.
    + exists out. split; [done |]. split; [done | done | |].
      * intros e [|(c & neg & Hc & ->)]%Hs; [by left |]. from_leaf.
      * intros record' Hag. cbn [truth forallb]. rewrite He; [by rewrite Htruth |].
        intros c neg Hc. apply (Hag c neg). under_leaf.
Qed.

(** The loop of a disjunction, which the evidence [out0] of the branches tried
    and dropped has been added to. *)
Lemma disjunction_ok terms : Forall holds_ok terms → holds_ok (Disjunction terms).
Proof.
  intros Hts record negated. cbn [holds truth]. split.
  - induction Hts as [|t ts Ht _ IH]; [done |]. destruct (Ht record negated) as [-> _]. cbn.
    by destruct (truth t record).
  - intros seen0. set (mark := length seen0).
    match goal with |- ∃ out, ?go terms (Some seen0) = _ ∧ _ =>
      assert (∀ seen, seen0 `prefix_of` seen → ∃ out,
        go terms (Some seen) = (existsb (λ term, truth term record) terms, Some out)
        ∧ ((existsb (λ term, truth term record) terms = true
            ∧ gathers (Disjunction terms) record negated seen0 out)
           ∨ (existsb (λ term, truth term record) terms = false
              ∧ gathers (Disjunction terms) record negated seen out))) as Hgo end.
    { induction Hts as [|t ts Ht _ IH]; intros seen Hpre.
      { exists seen. split; [done |]. right. split; [done |]. split; [done | done | by left | done]. }
      destruct (Ht record negated) as [_ Ht'].
      destruct (Ht' seen) as (out & -> & [Hp Hn Hs He]). cbn [existsb].
      destruct (truth t record) eqn:Htruth; cbn [negb orb].
      - destruct (Ht' (take mark out)) as (out' & -> & [Hp' Hn' Hs' He']). exists out'.
        split; [done |]. left. split; [done |].
        assert (take mark out = seen0) as Htake.
        { destruct Hpre as [k1 ->], Hp as [k2 ->]. unfold mark. by rewrite <- app_assoc, take_app_length. }
        rewrite Htake in *. split; [done | done | |].
        + intros e [|(c & neg & Hc & ->)]%Hs'; [by left |]. from_leaf.
        + intros record' Hag. cbn [truth existsb]. rewrite He'; [by rewrite Htruth |].
          intros c neg Hc. apply (Hag c neg). under_leaf.
      - destruct (IH out) as (out' & -> & Hcase); [by etrans |]. exists out'. split; [done |].
        destruct Hcase as [[Ht1 [Hp' Hn' Hs' He']]|[Ht1 [Hp' Hn' Hs' He']]]; [left | right];
          (split; [done |]); split.
        + done.
        + done.
        + intros e [|(c & neg & Hc & ->)]%Hs'; [by left |]. from_leaf.
        + intros record' Hag. cbn [truth existsb] in *. rewrite He', Ht1, !orb_true_r; [done |].
          intros c neg Hc. apply (Hag c neg). under_leaf.
        + by etrans.
        + auto.
        + intros e [Hin|(c & neg & Hc & ->)]%Hs'; [apply Hs in Hin as [|(c & neg & Hc & ->)] |].
          * by left.
          * from_leaf.
          * from_leaf.
        + intros record' Hag. cbn [truth existsb] in *. rewrite He, Htruth.
          * cbn. apply He'. intros c neg Hc. apply (Hag c neg). under_leaf.
          * intros c neg Hc Hf. apply (Hag c neg); [under_leaf |].
            by eapply fields_prefix. }
    destruct (Hgo seen0) as (out & Heq & [[_ Hg]|[_ Hg]]); [done | |]; exists out; split; done.
Qed.

Lemma holds_spec n : holds_ok n.
Proof.
  induction n as [c|ts IH|ts IH|t IH] using node_rect'.
  - intros record negated. split; [done |]. intros seen.
    exists (add_once seen (saw c (read record (c_path c)) negated)).
    split; [done | apply gathers_comparison].
  - by apply conjunction_ok.
  - by apply disjunction_ok.
  - intros record negated. cbn [holds truth]. destruct (IH record (negb negated)) as [-> Hs].
    split; [done |]. intros seen. destruct (Hs seen) as (out & -> & [Hp Hn Hse He]).
    exists out. split; [done |]. split; [done | done | done |].
    intros record' Hag. cbn [truth]. by rewrite He.
Qed.

(** ** Deciding one event *)

Lemma holds_quick root record : (holds root record None false).1 = truth root record.
Proof. by destruct (holds_spec root record false) as [-> _]. Qed.

Lemma decide_root p root record :
  p_stages p = [] → p_root p = Some root →
  ∃ out, gathers root record false [] out
  ∧ Decide p (Some record)
    = if (GetEventClass record =? rule_class (p_rule p)) && truth root record
      then Some (mkMatch (p_rule p) out no_count no_story) else None.
Proof.
  intros Hs Hr. destruct (holds_spec root record false) as [Hq Hg].
  destruct (Hg []) as (out & Ho & Hout). exists out. split; [done |].
  unfold Decide. rewrite Hs, Hr. cbn [len length]. rewrite holds_quick, Ho.
  by destruct (_ =? _), (truth root record).
Qed.

(** A rule without stages matches an event exactly when the event is of the
    rule's class and the formula it was compiled to is true of it, and the match
    names the rule. Reading the tree a second time for evidence decides nothing. *)
Theorem a_match_is_the_formula p root record :
  p_stages p = [] → p_root p = Some root →
  (∃ m, Decide p (Some record) = Some m ∧ m_rule m = p_rule p)
  ↔ GetEventClass record = rule_class (p_rule p) ∧ truth root record = true.
Proof.
  intros Hs Hr. destruct (decide_root p root record Hs Hr) as (out & _ & ->).
  rewrite <- Z.eqb_eq. destruct (_ =? _), (truth root record); naive_solver.
Qed.

(** ** Stages *)

Lemma reached_spec (stages : list staged) record j :
  (length stages ≤ 8)%nat → (j < 8)%nat →
  stages_has (reached_stages stages record) (Z.of_nat j)
  = match stages !! j with Some s => truth (st_root s) record | None => false end.
Proof.
  unfold reached_stages. induction stages as [|s stages IH] using rev_ind; intros Hl Hj.
  { by rewrite stages_has_zero. }
  rewrite length_app in Hl. cbn in Hl. rewrite imap_app, foldl_app. cbn [imap foldl].
  rewrite holds_quick, Nat.add_0_r. specialize (IH ltac:(lia) Hj).
  destruct (decide (j = length stages)) as [->|Hne].
  - rewrite list_lookup_middle by done. rewrite lookup_ge_None_2 in IH by done.
    destruct (truth (st_root s) record); [| done].
    rewrite stages_has_add by lia. by rewrite Z.eqb_refl.
  - assert ((stages ++ [s]) !! j = stages !! j) as ->.
    { destruct (decide (j < length stages)%nat); [by rewrite lookup_app_l |].
      rewrite !lookup_ge_None_2; rewrite ?length_app; cbn; (done || lia). }
    rewrite <- IH. destruct (truth (st_root s) record); [| done].
    rewrite stages_has_add by lia. by rewrite (proj2 (Z.eqb_neq _ _)) by lia.
Qed.

(** Of a rule with stages, an event of the rule's class satisfies exactly the
    stages whose formula is true of it, each in the bit of its place, and an
    event of another class satisfies none. *)
Theorem satisfied_stages_are_the_formulas p record i stage :
  (length (p_stages p) ≤ 8)%nat → p_stages p !! i = Some stage →
  stages_has (SatisfiedStages p (Some record)).1 (Z.of_nat i)
  = (GetEventClass record =? rule_class (p_rule p)) && truth (st_root stage) record.
Proof.
  intros Hl Hi. unfold SatisfiedStages. destruct (_ =? _); cbn [negb]; [| apply stages_has_zero].
  assert (i < 8)%nat as Hi8 by (apply lookup_lt_Some in Hi; lia).
  pose proof (reached_spec (p_stages p) record i Hl Hi8) as Hr. rewrite Hi in Hr.
  destruct (stages_any (reached_stages (p_stages p) record)) eqn:Hany; cbn; [done |].
  rewrite stages_has_zero, <- Hr. destruct (stages_has _ _) eqn:Hh; [| done].
  by rewrite (stages_any_has _ _ Hh) in Hany.
Qed.
(** ** Evidence *)

(** The formulas a program asks of an event, and those an event is true of. *)
Definition roots (p : Program) : list node :=
  match p_stages p with [] => option_list (p_root p) | stages => st_root <$> stages end.
Definition held_roots (p : Program) (record : M) : list node := filter (λ root, truth root record = true) (roots p).

(** The evidence of several formulas, one gathered after the other. *)
Record gathered (ns : list node) (record : M) (out : list Evidence) : Prop := {
  gd_nodup : NoDup out;
  gd_seen : ∀ e, e ∈ out → ∃ n c neg, n ∈ ns ∧ (c, neg) ∈ leaves n false ∧ e = saw c (read record (c_path c)) neg;
  gd_enough : ∀ record', (∀ n c neg, n ∈ ns → (c, neg) ∈ leaves n false → c_field c ∈ e_field <$> out →
                            read record' (c_path c) = read record (c_path c)) →
              ∀ n, n ∈ ns → truth n record' = truth n record;
}.

Lemma gathered_none record : gathered [] record [].
Proof. split; [constructor | by intros e ?%elem_of_nil | by intros record' _ n ?%elem_of_nil]. Qed.

Lemma gathered_one ns n record seen :
  gathered ns record seen →
  ∃ out, holds n record (Some seen) false = (truth n record, Some out) ∧ gathered (ns ++ [n]) record out.
Proof.
  intros [Hnd Hseen Hen]. destruct (holds_spec n record false) as [_ Hg]. destruct (Hg seen) as (out & Hout & [Hp Hn Hs He]).
  exists out. split; [done |]. split; [by apply Hn | |].
  - intros e [Hin|(c & neg & Hc & ->)]%Hs.
    + destruct (Hseen e Hin) as (n' & c & neg & Hn' & Hrest). exists n', c, neg. split; [apply elem_of_app; by left | done].
    + exists n, c, neg. split; [apply elem_of_app; right; by left | done].
  - intros record' Hag n' [Hn'|Hn'%list_elem_of_singleton]%elem_of_app.
    + apply Hen; [| done]. intros n0 c neg Hn0 Hc Hf. apply (Hag n0 c neg); [apply elem_of_app; by left | done |].
      by eapply fields_prefix.
    + subst n'. apply He. intros c neg Hc. apply (Hag n c neg); [apply elem_of_app; right; by left | done].
Qed.

Lemma stage_evidence_gathered (reached : Z) record (stages : list staged) : ∀ k,
  (∀ i stage, stages !! i = Some stage → stages_has reached (Z.of_nat (k + i)) = truth (st_root stage) record) →
  ∀ ns seen, gathered ns record seen →
  gathered (ns ++ filter (λ root, truth root record = true) (st_root <$> stages)) record
    (foldl (λ evidence '(index, stage),
       if stages_has reached (Z.of_nat index)
       then default evidence (holds (st_root stage) record (Some evidence) false).2 else evidence)
     seen (imap (λ i, pair (k + i)%nat) stages)).
Proof.
  induction stages as [|stage stages IH]; intros k Hreached ns seen Hg; [by rewrite app_nil_r |].
  cbn [imap foldl fmap list_fmap]. rewrite (Hreached O stage eq_refl).
  assert (imap ((λ i, pair (k + i)%nat) ∘ S) stages = imap (λ i, pair (S k + i)%nat) stages) as ->.
  { apply imap_ext. intros i x _. cbn. f_equal. lia. }
  assert (∀ i stage', stages !! i = Some stage' → stages_has reached (Z.of_nat (S k + i)) = truth (st_root stage') record) as Hrest.
  { intros i stage' Hi. rewrite <- (Hreached (S i) stage' Hi). do 2 f_equal. lia. }
  destruct (truth (st_root stage) record) eqn:Ht.
  - destruct (gathered_one ns (st_root stage) record seen Hg) as (out & Hout & Hg'). rewrite Hout. cbn [snd default].
    rewrite filter_cons_True by done. rewrite (cons_middle (st_root stage) ns), app_assoc. by apply IH.
  - rewrite filter_cons_False by congruence. by apply IH.
Qed.

Lemma reached_any (stages : list staged) record : (length stages ≤ 8)%nat →
  stages_any (reached_stages stages record) = existsb (λ s, truth (st_root s) record) stages.
Proof.
  unfold reached_stages. induction stages as [|s stages IH] using rev_ind; intros Hl; [done |].
  rewrite length_app in Hl. cbn in Hl. rewrite imap_app, foldl_app, existsb_app. cbn [imap foldl existsb].
  rewrite holds_quick, Nat.add_0_r, orb_false_r. destruct (truth (st_root s) record).
  - rewrite orb_true_r. apply (stages_any_has _ (Z.of_nat (length stages))). rewrite stages_has_add by lia. by rewrite Z.eqb_refl.
  - rewrite orb_false_r. apply IH. lia.
Qed.

Lemma held_any (stages : list staged) record :
  existsb (λ s, truth (st_root s) record) stages
  = negb (len (filter (λ root, truth root record = true) (st_root <$> stages)) =? 0).
Proof.
  induction stages as [|s stages IH]; [done |]. cbn [existsb fmap list_fmap]. destruct (truth (st_root s) record) eqn:Ht.
  - by rewrite filter_cons_True.
  - rewrite filter_cons_False by congruence. exact IH.
Qed.

Lemma decide_gathers p record :
  len (p_stages p) ≤ MaxStages →
  ∃ out, gathered (held_roots p record) record out
  ∧ Decide p (Some record)
    = if (GetEventClass record =? rule_class (p_rule p)) && negb (len (held_roots p record) =? 0)
      then Some (mkMatch (p_rule p) out no_count no_story) else None.
Proof.
  intros Hlen. unfold held_roots, roots. destruct (p_stages p) as [|stage stages] eqn:Hs.
  - destruct (p_root p) as [root|] eqn:Hr.
    + destruct (holds_spec root record false) as [Hq _]. destruct (gathered_one [] root record [] (gathered_none record)) as (out & Ho & Hg).
      change (option_list (Some root)) with [root]. destruct (truth root record) eqn:Ht.
      * exists out. rewrite filter_cons_True by done. split; [exact Hg |]. unfold Decide. rewrite Hs, Hr, Hq, ?Ho, ?Ht. cbn.
        by destruct (_ =? _).
      * exists []. rewrite filter_cons_False by congruence. split; [apply gathered_none |]. unfold Decide. rewrite Hs, Hr, Hq, ?Ht. cbn.
        by destruct (_ =? _).
    + exists []. split; [apply gathered_none |]. unfold Decide. rewrite Hs, Hr. cbn. by destruct (_ =? _).
  - assert (0 <? len (p_stages p) = true) as Hmany by (rewrite Hs; by unfold len).
    rewrite <- Hs in *. assert (length (p_stages p) ≤ 8)%nat as Hl by (unfold len, MaxStages in Hlen; lia).
    set (reached := reached_stages (p_stages p) record).
    assert (∀ i st, p_stages p !! i = Some st → stages_has reached (Z.of_nat (0 + i)) = truth (st_root st) record) as Hreached.
    { intros i st Hi. cbn. unfold reached. rewrite (reached_spec _ record i Hl); [by rewrite Hi |]. apply lookup_lt_Some in Hi. lia. }
    exists (stage_evidence (p_stages p) reached record). split.
    + exact (stage_evidence_gathered reached record (p_stages p) 0 Hreached [] [] (gathered_none record)).
    + unfold Decide, SatisfiedStages. rewrite Hmany. rewrite <- held_any, <- (reached_any _ record Hl). fold reached.
      by destruct (GetEventClass record =? rule_class (p_rule p)), (stages_any reached) eqn:Hany; cbn [negb andb]; rewrite ?Hany.
Qed.

(** C7. A rule decides an event exactly when the event is of its class and one of the
    formulas it was compiled to, that of its match or that of a stage, is true of it. The
    evidence of a match is then what the event said to the questions of the formulas true of
    it, each piece once, and it is reason enough: of every event of the class that carries
    the same in the fields the evidence names, the same formulas are true. *)
Theorem evidence_is_reason_enough p record :
  len (p_stages p) ≤ MaxStages →
  (is_Some (Decide p (Some record))
     ↔ GetEventClass record = rule_class (p_rule p) ∧ ∃ root, root ∈ roots p ∧ truth root record = true)
  ∧ ∀ m, Decide p (Some record) = Some m →
      m_rule m = p_rule p ∧ NoDup (m_evidence m)
      ∧ (∀ e, e ∈ m_evidence m →
          ∃ root c neg, root ∈ roots p ∧ truth root record = true ∧ (c, neg) ∈ leaves root false
            ∧ e = saw c (read record (c_path c)) neg)
      ∧ ∀ record', GetEventClass record' = GetEventClass record →
          (∀ root c neg, root ∈ roots p → truth root record = true → (c, neg) ∈ leaves root false →
             c_field c ∈ e_field <$> m_evidence m → read record' (c_path c) = read record (c_path c)) →
          (∀ root, root ∈ roots p → truth root record = true → truth root record' = true)
          ∧ is_Some (Decide p (Some record')).
Proof.
  intros Hlen. assert (∀ r root, root ∈ held_roots p r ↔ root ∈ roots p ∧ truth root r = true) as Hheld.
  { intros r root. unfold held_roots. rewrite list_elem_of_filter. naive_solver. }
  assert (∀ r, negb (len (held_roots p r) =? 0) = true ↔ ∃ root, root ∈ roots p ∧ truth root r = true) as Hany.
  { intros r. unfold len. split.
    - intros Hn. destruct (held_roots p r) as [|root rest] eqn:Hh; [done |]. exists root. apply Hheld. rewrite Hh. by left.
    - intros (root & Hroot%Hheld). destruct (held_roots p r); [by apply not_elem_of_nil in Hroot | done]. }
  assert (∀ r, is_Some (Decide p (Some r))
     ↔ GetEventClass r = rule_class (p_rule p) ∧ ∃ root, root ∈ roots p ∧ truth root r = true) as Hdecide.
  { intros r. destruct (decide_gathers p r Hlen) as (out & _ & ->). rewrite <- Hany, <- Z.eqb_eq.
    destruct (_ =? _), (negb _); cbn; split; try done; by intros [? ?]. }
  split; [apply Hdecide |]. intros m Hm. destruct (decide_gathers p record Hlen) as (out & [Hnd Hseen Hen] & Heq).
  rewrite Heq in Hm. destruct (GetEventClass record =? rule_class (p_rule p)) eqn:Hc; [| done].
  destruct (negb (len (held_roots p record) =? 0)) eqn:Hn; [| done]. cbn in Hm. injection Hm as <-. cbn [m_rule m_evidence].
  split_and!; [done | done | |].
  - intros e He. destruct (Hseen e He) as (root & c & neg & Hroot%Hheld & Hrest). exists root, c, neg. tauto.
  - intros record' Hclass Hag. assert (∀ root, root ∈ roots p → truth root record = true → truth root record' = true) as Hsame.
    { intros root Hr Ht. rewrite (Hen record'); [done | | by apply Hheld]. intros n c neg [Hn1 Hn2]%Hheld. by apply Hag. }
    split; [exact Hsame |]. apply Hdecide. split; [apply Z.eqb_eq in Hc; congruence |].
    apply Hany in Hn as (root & Hr & Ht). exists root. split; [done |]. by apply Hsame.
Qed.
End decide.

(** * What compilation preserves

    A compiled tree says of every event what the written expression says, reads
    exactly the fields the expression names, and a validated expression is
    refused for a number its field cannot hold and for nothing else. *)


(** ** What protoreflect promises of a value *)

Definition of_kind (k : PKind) (v : PValue) : Prop :=
  match k, v with
  | StringKind, PString _ | BytesKind, PBytes _ | BoolKind, PBool _ | EnumKind, PEnum _
  | (Int32Kind | Sint32Kind | Sfixed32Kind), PInt32 _
  | (Int64Kind | Sint64Kind | Sfixed64Kind), PInt64 _
  | (Uint32Kind | Fixed32Kind), PUint32 _ | (Uint64Kind | Fixed64Kind), PUint64 _
  | FloatKind, PFloat32 _ | DoubleKind, PFloat64 _ => True
  | _, _ => False
  end.

(** A scalar that is set holds a value of the kind its descriptor declares. *)
Class MessageLaws (M : Type) `{Messages M} :=
  get_kind : ∀ (m : M) f, is_Some (kind_of_leaf f) → Has m f = true →
             of_kind (fd_kind f) (Get m f).

Definition text_operator (o : Operator) : bool :=
  match o with Contains | StartsWith | EndsWith => true | _ => false end.

(** A number a rule compares with is in the field it is compared with. *)
Definition declared_literal (leaf : FieldDescriptor) (v : PValue) : Prop :=
  of_kind (fd_kind leaf) v
  ∧ match v with
    | PEnum n => ∃ value, value ∈ enum_values (fd_enum leaf) ∧ value.2 = n
    | _ => True
    end.

(** What compilation makes of a predicate. *)
Record compiled `{Contract} (c : comparison) : Prop := {
  cp_path : pathOf (c_field c) = Some (c_path c);
  cp_member : c_operator c = OneOf → c_member c = c_literals c;
  cp_known : known (c_operator c) = true;
  cp_arity : (takes (c_operator c)).1 ≤ len (c_literals c)
    ∧ (0 < (takes (c_operator c)).2 → len (c_literals c) ≤ (takes (c_operator c)).2);
  cp_leaf : ∃ leaf, last (c_path c) = Some leaf
    ∧ (text_operator (c_operator c) = true → fd_kind leaf = StringKind)
    ∧ ∀ v, v ∈ c_literals c → declared_literal leaf v;
}.

(** ** Literals *)

Lemma enumOf_spec e name n : enumOf e name = Some n →
  ∃ value, value ∈ enum_values e ∧ value.2 = n ∧ shortName e value = name.
Proof.
  unfold enumOf. destruct (List.find _ _) as [value|] eqn:Hf; [| done]. intros [= <-].
  apply find_some in Hf as [Hin Hs]. to_prop. exists value.
  split; [by apply list_elem_of_In | done].
Qed.

Lemma enumOf_declared e name : name ∈ choicesOf e → is_Some (enumOf e name).
Proof.
  intros (value & -> & Hin)%list_elem_of_fmap. unfold enumOf.
  destruct (List.find _ _) as [v|] eqn:Hf; [eauto |].
  eapply find_none in Hf; [| by apply list_elem_of_In]. by apply bool_decide_eq_false in Hf.
Qed.

Lemma literalOf_declared value leaf v : literalOf value leaf = Ok v → declared_literal leaf v.
Proof.
  unfold literalOf, numberOf, declared_literal.
  destruct (decide (fd_kind leaf = EnumKind)) as [He|He].
  { rewrite He. destruct (enumOf _ _) as [n|] eqn:Hn; [| done]. intros [= <-].
    apply enumOf_spec in Hn as (val & Hin & <- & _). split; [done | eauto]. }
  destruct (fd_kind leaf) eqn:Hk; intros Hl; repeat case_match; by simplify_eq.
Qed.


(** ** What a literal stands for *)

(** The integer a number is, exactly. *)
Definition float_is (f : float64) (z : Z) : Prop :=
  match f with
  | S754_zero _ => z = 0
  | S754_finite s m e => (if s then - Z.pos m else Z.pos m) * 2 ^ Z.max e 0 = z * 2 ^ Z.max (- e) 0
  | _ => False
  end.

(** No further from zero than the largest binary32, (2^24 - 1) * 2^104; both sides are
    scaled by 2^1074, of which every binary64 is a multiple of the inverse. *)
Definition within_float32 (f : float64) : Prop :=
  match f with
  | S754_finite _ m e => Z.pos m * 2 ^ (e + 1074) ≤ (2 ^ 24 - 1) * 2 ^ (104 + 1074)
  | S754_infinity _ => False
  | _ => True
  end.

#[global] Instance within_float32_dec f : Decision (within_float32 f).
Proof. destruct f; apply _. Defined.

(** The whole numbers a field of a kind can be compared with: those of its width, and no
    further than a binary64 counts by ones. *)
Definition in_field (k : PKind) (z : Z) : Prop :=
  match k with
  | Int32Kind | Sint32Kind | Sfixed32Kind => - 2 ^ 31 ≤ z < 2 ^ 31
  | Uint32Kind | Fixed32Kind => 0 ≤ z < 2 ^ 32
  | Int64Kind | Sint64Kind | Sfixed64Kind => - 2 ^ 53 ≤ z ≤ 2 ^ 53
  | Uint64Kind | Fixed64Kind => 0 ≤ z ≤ 2 ^ 53
  | _ => False
  end.

(** A literal as the value of the field it is written against. *)
Definition stands (leaf : FieldDescriptor) (value : Value) (literal : PValue) : Prop :=
  match fd_kind leaf, literal with
  | StringKind, PString s => s = value_text value
  | BoolKind, PBool b => b = value_truth value
  | EnumKind, PEnum n =>
      ∃ i entry, enum_values (fd_enum leaf) !! i = Some entry ∧ entry.2 = n
        ∧ shortName (fd_enum leaf) entry = value_text value
        ∧ ∀ j earlier, (j < i)%nat → enum_values (fd_enum leaf) !! j = Some earlier →
            shortName (fd_enum leaf) earlier ≠ value_text value
  | FloatKind, PFloat32 f => within_float32 (value_number value) ∧ f = float32_of (value_number value)
  | DoubleKind, PFloat64 f => f = value_number value
  | (Int32Kind | Sint32Kind | Sfixed32Kind), PInt32 z | (Int64Kind | Sint64Kind | Sfixed64Kind), PInt64 z
  | (Uint32Kind | Fixed32Kind), PUint32 z | (Uint64Kind | Fixed64Kind), PUint64 z =>
      float_is (value_number value) z ∧ in_field (fd_kind leaf) z
  | _, _ => False
  end.

(** A number no value of the field is, and why. *)
Definition unheld (leaf : FieldDescriptor) (value : Value) (reason : Reason) : Prop :=
  match fd_kind leaf with
  | FloatKind => reason = TooWideForTheField ∧ ¬ within_float32 (value_number value)
  | Int32Kind | Sint32Kind | Sfixed32Kind | Int64Kind | Sint64Kind | Sfixed64Kind
  | Uint32Kind | Fixed32Kind | Uint64Kind | Fixed64Kind =>
      reason = NotAWholeNumber ∧ (∀ z, ¬ float_is (value_number value) z)
      ∨ reason = OutsideTheField ∧ ∃ z, float_is (value_number value) z ∧ ¬ in_field (fd_kind leaf) z
  | _ => False
  end.

(** A number as a float64 holds one. *)
Definition binary64 (f : float64) : Prop := valid_binary 53 1024 f = true.

Lemma whole_value_spec f z : whole_value f = Some z ↔ float_is f z.
Proof.
  destruct f as [s|s| |s m e]; cbn; [split; [by intros [= <-] | by intros ->] | done | done |].
  destruct (Z.leb_spec 0 e) as [He|He].
  - rewrite (Z.max_l e), (Z.max_r (- e)) by lia. rewrite Z.pow_0_r, Z.mul_1_r. split.
    + intros [= <-]. destruct s; lia.
    + intros <-. f_equal. destruct s; lia.
  - rewrite (Z.max_r e), (Z.max_l (- e)) by lia. rewrite Z.pow_0_r, Z.mul_1_r.
    assert (0 < 2 ^ (- e)) as Hpos by (apply Z.pow_pos_nonneg; lia).
    destruct (Z.eqb_spec (Z.pos m mod 2 ^ (- e)) 0) as [Hm|Hm].
    + pose proof (Z.div_exact (Z.pos m) (2 ^ (- e)) ltac:(lia)) as Hd. apply Hd in Hm. split.
      * intros [= <-]. destruct s; lia.
      * intros Hz. f_equal. destruct s; [apply (Z.mul_cancel_r _ _ (2 ^ (- e))) | apply (Z.mul_cancel_r _ _ (2 ^ (- e)))]; lia.
    + split; [done |]. intros Hz. exfalso. apply Hm. destruct s.
      * replace (Z.pos m) with (- z * 2 ^ (- e)) by lia. apply Z.mod_mul. lia.
      * rewrite Hz. apply Z.mod_mul. lia.
Qed.

Lemma digits_bounds m : 2 ^ (Z.pos (digits2_pos m) - 1) ≤ Z.pos m < 2 ^ Z.pos (digits2_pos m).
Proof.
  induction m as [m IH|m IH|]; cbn [digits2_pos]; [| | by vm_compute].
  all: rewrite Pos2Z.inj_succ; replace (Z.succ (Z.pos (digits2_pos m)) - 1) with (Z.succ (Z.pos (digits2_pos m) - 1)) by lia.
  all: rewrite !Z.pow_succ_r by lia; lia.
Qed.

Lemma too_wide_spec f : binary64 f → SFltb MaxFloat32 (SFabs f) = true ↔ ¬ within_float32 f.
Proof.
  destruct f as [s|s| |s m e]; intros Hv; try (cbn; split; [done | by intros []]); try (cbn; by split; auto).
  unfold binary64 in Hv. cbn in Hv. unfold bounded, canonical_mantissa, fexp, emin in Hv.
  apply andb_true_iff in Hv as [Hc%Z.eqb_eq He%Z.leb_le]. pose proof (digits_bounds m) as [Hlow Hhigh].
  assert (within_float32 (S754_finite s m e) ↔ Z.pos m * 2 ^ Z.max (e - 75) 0 ≤ 9007198717870080 * 2 ^ Z.max (75 - e) 0) as ->.
  { cbn [within_float32]. replace ((2 ^ 24 - 1) * 2 ^ (104 + 1074)) with (9007198717870080 * 2 ^ (75 + 1074))
      by (replace (104 + 1074) with (29 + (75 + 1074)) by lia; rewrite (Z.pow_add_r 2 29 (75 + 1074)) by lia; lia).
    assert (2 ^ (e + 1074) * 2 ^ Z.max (75 - e) 0 = 2 ^ (75 + 1074) * 2 ^ Z.max (e - 75) 0) as Hscale.
    { rewrite <- !Z.pow_add_r by lia. f_equal. lia. }
    assert (0 < 2 ^ Z.max (75 - e) 0) as HB by (apply Z.pow_pos_nonneg; lia).
    assert (0 < 2 ^ (75 + 1074)) as HP by (apply Z.pow_pos_nonneg; lia). revert Hscale HP.
    generalize (2 ^ (75 + 1074)). intros P Hscale HP. rewrite (Z.mul_le_mono_pos_r _ _ _ HB).
    rewrite <- (Z.mul_assoc _ (2 ^ (e + 1074))), Hscale.
    replace (Z.pos m * (P * 2 ^ Z.max (e - 75) 0)) with (Z.pos m * 2 ^ Z.max (e - 75) 0 * P) by ring.
    replace (9007198717870080 * P * 2 ^ Z.max (75 - e) 0) with (9007198717870080 * 2 ^ Z.max (75 - e) 0 * P) by ring.
    symmetry. by apply Z.mul_le_mono_pos_r. }
  set (d := Z.pos (digits2_pos m)) in *. unfold SFltb. cbn [SFabs SFcompare MaxFloat32].
  destruct (Z.compare_spec 75 e) as [<-|Hlt|Hgt].
  - change (Pos.compare_cont Eq 9007198717870080 m) with (Z.pos 9007198717870080 ?= Z.pos m). rewrite Z.sub_diag, Z.max_id, Z.pow_0_r, !Z.mul_1_r.
    clear -m. generalize (Z.pos 9007198717870080) (Z.pos m). intros C x.
    destruct (Z.compare_spec C x); (split; [intros Htrue; first [discriminate Htrue | lia] | intros Hn; first [reflexivity | exfalso; lia]]).
  - split; [intros _ | done]. assert (d = 53) as Hd by lia. rewrite Hd in *. rewrite (Z.max_l (e - 75)), (Z.max_r (75 - e)) by lia.
    assert (2 * 2 ^ (e - 75 - 1) = 2 ^ (e - 75)) as Hdouble by (rewrite <- Z.pow_succ_r by lia; f_equal; lia).
    assert (0 < 2 ^ (e - 75 - 1)) by (apply Z.pow_pos_nonneg; lia). change (2 ^ (53 - 1)) with 4503599627370496 in Hlow. nia.
  - split; [done |]. intros Hn. exfalso. apply Hn. rewrite (Z.max_r (e - 75)), (Z.max_l (75 - e)) by lia.
    assert (2 * 2 ^ (75 - e - 1) = 2 ^ (75 - e)) as Hdouble by (rewrite <- Z.pow_succ_r by lia; f_equal; lia).
    assert (0 < 2 ^ (75 - e - 1)) by (apply Z.pow_pos_nonneg; lia).
    assert (2 ^ d ≤ 2 ^ 53) by (apply Z.pow_le_mono_r; lia). change (2 ^ 53) with 9007199254740992 in *. nia.
Qed.

Lemma numberOf_whole value leaf k : fd_kind leaf = k → k ≠ FloatKind → k ≠ DoubleKind →
  numberOf value leaf = match whole_value (value_number value) with
    | None => Err NotAWholeNumber
    | Some z =>
        let '(low, high) := bounds k in
        if (z <? low) || (high <? z) then Err OutsideTheField
        else match k with
        | Int32Kind | Sint32Kind | Sfixed32Kind => Ok (PInt32 z)
        | Int64Kind | Sint64Kind | Sfixed64Kind => Ok (PInt64 z)
        | Uint32Kind | Fixed32Kind => Ok (PUint32 z)
        | Uint64Kind | Fixed64Kind => Ok (PUint64 z)
        | _ => Err NothingCompares
        end
    end.
Proof. unfold numberOf. intros -> H1 H2. by destruct k. Qed.

(** The number of a choice is that of the first value of its name. *)
Lemma enumOf_first e name n : enumOf e name = Some n ↔
  ∃ i entry, enum_values e !! i = Some entry ∧ entry.2 = n ∧ shortName e entry = name
    ∧ ∀ j earlier, (j < i)%nat → enum_values e !! j = Some earlier → shortName e earlier ≠ name.
Proof.
  unfold enumOf. induction (enum_values e) as [|value values IH]; cbn [List.find].
  { split; [done | by intros (i & entry & ? & _)]. }
  case_bool_decide as Hname.
  - split.
    + intros [= <-]. exists O, value. split_and!; [done | done | done | lia].
    + intros ([|i] & entry & Hi & <- & _ & Hfirst); [by injection Hi as -> |]. by destruct (Hfirst O value ltac:(lia) eq_refl).
  - rewrite IH. split.
    + intros (i & entry & Hi & Hn & Hs & Hfirst). exists (S i), entry. split_and!; try done.
      intros [|j] earlier Hj Hl; [by injection Hl as <- | apply (Hfirst j); [lia | done]].
    + intros ([|i] & entry & Hi & Hn & Hs & Hfirst); [injection Hi as ->; congruence |]. exists i, entry. split_and!; try done.
      intros j earlier Hj Hl. apply (Hfirst (S j)); [lia | done].
Qed.

Definition whole_kind (k : PKind) : bool :=
  match k with
  | Int32Kind | Sint32Kind | Sfixed32Kind | Int64Kind | Sint64Kind | Sfixed64Kind
  | Uint32Kind | Fixed32Kind | Uint64Kind | Fixed64Kind => true
  | _ => false
  end.

Lemma bounds_in_field k z : whole_kind k = true →
  (z <? (bounds k).1) || ((bounds k).2 <? z) = false ↔ in_field k z.
Proof.
  intros Hk. rewrite orb_false_iff, !Z.ltb_ge.
  destruct k; try discriminate Hk; unfold bounds, in_field; cbn [fst snd]; change exactly with (2 ^ 53); lia.
Qed.

(** A literal is compiled exactly to the value it stands for, *)
Lemma literalOf_stands value leaf v : binary64 (value_number value) →
  literalOf value leaf = Ok v ↔ stands leaf value v.
Proof.
  intros Hv. unfold literalOf, stands. destruct (whole_kind (fd_kind leaf)) eqn:Hwhole.
  - pose proof (bounds_in_field (fd_kind leaf)) as Hb. pose proof (whole_value_spec (value_number value)) as Hw.
    destruct (fd_kind leaf) eqn:Hk; try discriminate Hwhole; (rewrite (numberOf_whole _ _ _ Hk) by done).
    all: destruct (whole_value (value_number value)) as [z|]; [| split; [done |]; destruct v; try done; intros [Hz%Hw _]; done].
    all: specialize (Hb z eq_refl); destruct (bounds _) as [low high]; cbn [fst snd] in Hb; destruct (_ || _).
    all: try (split; [done |]; destruct v; try done; intros [Hz%Hw Hin]; injection Hz as ->; apply Hb in Hin; done).
    all: split; [intros [= <-]; split; [by apply Hw | by apply Hb] | destruct v; try done; intros [Hz%Hw _]; by injection Hz as ->].
  - destruct (fd_kind leaf) eqn:Hk; try discriminate Hwhole; unfold numberOf; rewrite ?Hk.
    all: try (split; [intros [= <-]; done | destruct v; try done; by intros ->]).
    all: try (destruct (whole_value _) as [z|]; [destruct (bounds _); destruct (_ || _) |]; (split; [done | by destruct v])).
    + destruct (enumOf (fd_enum leaf) (value_text value)) as [n|] eqn:He.
      * split; [intros [= <-]; by apply enumOf_first | destruct v; try done; intros Hn%enumOf_first; congruence].
      * split; [done |]. destruct v; try done. intros Hn%enumOf_first. congruence.
    + pose proof (too_wide_spec _ Hv) as Hwide. destruct (SFltb MaxFloat32 _).
      * split; [done |]. destruct v; try done. intros [Hin _]. by destruct (proj1 Hwide eq_refl).
      * assert (within_float32 (value_number value)) as Hin by (destruct (decide (within_float32 (value_number value))) as [|Hout]; [done | by apply Hwide in Hout]).
        split; [intros [= <-]; done | destruct v; try done; by intros [_ ->]].
Qed.

(** and refused exactly for a number its field cannot hold. *)
Lemma literalOf_unheld `{Contract} field kind value leaf reason : binary64 (value_number value) →
  kind_of_leaf leaf = Some kind → (kind = Choice → ChoicesOf field = choicesOf (fd_enum leaf)) →
  literal_ok field kind value → literalOf value leaf = Err reason → unheld leaf value reason.
Proof.
  intros Hv Hk Hch (_ & _ & Hc) Hl. unfold literalOf in Hl. unfold unheld. unfold kind_of_leaf in Hk.
  destruct (whole_kind (fd_kind leaf)) eqn:Hwhole.
  - pose proof (bounds_in_field (fd_kind leaf)) as Hb. pose proof (whole_value_spec (value_number value)) as Hw.
    destruct (fd_kind leaf) eqn:Hkind; try discriminate Hwhole; (rewrite (numberOf_whole _ _ _ Hkind) in Hl by done).
    all: destruct (whole_value (value_number value)) as [z|];
      [| injection Hl as <-; left; split; [done |]; intros z Hz; by apply Hw in Hz].
    all: specialize (Hb z eq_refl); destruct (bounds _) as [low high]; cbn [fst snd] in Hb; destruct (_ || _); [| done].
    all: injection Hl as <-; right; split; [done |]; exists z; split; [by apply Hw |]; intros Hin; by apply Hb in Hin.
  - destruct (fd_kind leaf) eqn:Hkind; try discriminate Hwhole; try discriminate Hk; try discriminate Hl.
    + injection Hk as <-. specialize (Hc eq_refl). rewrite Hch in Hc by done. apply enumOf_declared in Hc as [n Hn]. by rewrite Hn in Hl.
    + unfold numberOf in Hl. rewrite Hkind in Hl. pose proof (too_wide_spec _ Hv) as Hwide. destruct (SFltb MaxFloat32 _); [| done].
      injection Hl as <-. split; [done | by apply Hwide].
    + unfold numberOf in Hl. by rewrite Hkind in Hl.
Qed.

Lemma literalsOf_spec values leaf literals :
  literalsOf values leaf = Ok literals ↔ Forall2 (λ value v, literalOf value leaf = Ok v) values literals.
Proof.
  revert literals. induction values as [|value values IH]; intros literals; cbn.
  - split; [intros [= <-]; constructor | by inversion 1].
  - destruct (literalOf value leaf) as [v|e] eqn:Hl; [| split; [done |]; inversion 1; congruence].
    destruct (literalsOf values leaf) as [vs|e] eqn:Hls.
    + split; [intros [= <-]; constructor; [done | by apply IH] |].
      inversion 1; subst. f_equal. f_equal; [congruence |].
      match goal with Hf : Forall2 _ _ _ |- _ => apply IH in Hf; congruence end.
    + split; [done |]. inversion 1; subst.
      match goal with Hf : Forall2 _ _ _ |- _ => apply IH in Hf; congruence end.
Qed.

Lemma literalsOf_refused values leaf reason :
  literalsOf values leaf = Err reason → ∃ value, value ∈ values ∧ literalOf value leaf = Err reason.
Proof.
  induction values as [|value values IH]; cbn; [done |].
  destruct (literalOf value leaf) as [v|e] eqn:Hl.
  - destruct (literalsOf values leaf); [done |]. intros [= <-].
    destruct IH as (x & Hx & Hr); [done |]. exists x. split; [by right | done].
  - intros [= <-]. exists value. split; [left | done].
Qed.

(** ** The meaning of what is written *)

Section compile.
Context `{CT : Contract} {M : Type} `{MS : Messages M} `{FM : Formats}.

(** Whether a value equals what a literal stands for in this field. *)
Definition equals_literal (leaf : FieldDescriptor) (v : PValue) (value : Value) : bool :=
  match literalOf value leaf with Ok literal => iface_eqb v literal | Err _ => false end.

(** A predicate put to the value an event carries: a list is membership of any,
    every other question is put to the one literal it is written with. *)
Definition predicate_truth (p : Predicate) (leaf : FieldDescriptor) (v : PValue) : bool :=
  match pred_operator p with
  | Present => true
  | OneOf => existsb (equals_literal leaf v) (pred_values p)
  | operator =>
      match pred_values p with
      | value :: _ =>
          match literalOf value leaf with
          | Err _ => false
          | Ok literal =>
              let '(held, decided) := answers v (mkComparison (pred_field p) [leaf] operator [literal] []) in
              held && decided
          end
      | [] => false
      end
  end.

(** What an expression says of an event, by the fields it names. *)
Fixpoint denote (e : Expression) (record : M) : bool :=
  match e with
  | Pred p =>
      match pathOf (pred_field p) with
      | None => false
      | Some path =>
          match read record path, last path with
          | Some v, Some leaf => predicate_truth p leaf v
          | _, _ => false
          end
      end
  | All terms => forallb (λ t, denote t record) terms
  | Any terms => existsb (λ t, denote t record) terms
  | Not term => negb (denote term record)
  | Missing | Foreign _ => false
  end.

Fixpoint fields_of (e : Expression) : gset Field :=
  match e with
  | Pred p => {[pred_field p]}
  | All terms | Any terms => ⋃ (fields_of <$> terms)
  | Not term => fields_of term
  | Missing | Foreign _ => ∅
  end.

Fixpoint predicates_of (e : Expression) : list Predicate :=
  match e with
  | Pred p => [p]
  | All terms | Any terms => terms ≫= predicates_of
  | Not term => predicates_of term
  | Missing | Foreign _ => []
  end.

(** The leaf a field is read at. *)
Definition leaf_of (field : Field) : option FieldDescriptor := pathOf field ≫= last.

(** ** What an expression says *)

(** What a predicate says of the value its field carries, literals standing for the values
    they stand for. *)
Definition asks_of (p : Predicate) (leaf : FieldDescriptor) (v : PValue) : Prop :=
  let first (asked : Value → Prop) := ∃ value, head (pred_values p) = Some value ∧ asked value in
  let number (asked : float64 → float64 → bool) :=
    first (λ value, ∃ literal, stands leaf value literal ∧ asked (numberIn v) (numberIn literal) = true) in
  match pred_operator p with
  | Present => True
  | OneOf => ∃ value literal, value ∈ pred_values p ∧ stands leaf value literal ∧ iface_eqb v literal = true
  | Equals => first (λ value, ∃ literal, stands leaf value literal ∧ iface_eqb v literal = true)
  | Contains => first (λ value, ∃ before after, value_string v = before +:+ value_text value +:+ after)
  | StartsWith => first (λ value, ∃ after, value_string v = value_text value +:+ after)
  | EndsWith => first (λ value, ∃ before, value_string v = before +:+ value_text value)
  | Above => number (λ held asked, SFltb asked held)
  | AtLeast => number (λ held asked, SFleb asked held)
  | Below => number SFltb
  | AtMost => number SFleb
  | _ => False
  end.

Fixpoint says (e : Expression) (record : M) : Prop :=
  match e with
  | Pred p => ∃ path leaf v, pathOf (pred_field p) = Some path ∧ last path = Some leaf ∧ read record path = Some v ∧ asks_of p leaf v
  | All terms => foldr (λ t rest, says t record ∧ rest) True terms
  | Any terms => foldr (λ t rest, says t record ∨ rest) False terms
  | Not term => ¬ says term record
  | Missing | Foreign _ => False
  end.

Lemma vocable_leaf field path : pathOf field = Some path →
  ∃ leaf kind, last path = Some leaf ∧ KindOf field = Some kind ∧ kind_of_leaf leaf = Some kind
    ∧ (kind = Choice → ChoicesOf field = choicesOf (fd_enum leaf)).
Proof.
  unfold pathOf, KindOf, ChoicesOf. destruct (vocabulary !! field) as [v|] eqn:Hv; [| done].
  intros [= <-]. apply vocabulary_ok in Hv as [(trail & leaf & Hp & Hk & Hc) _ _ _].
  exists leaf, (v_kind v). rewrite Hp, last_snoc. done.
Qed.

Lemma KindOf_path field kind : KindOf field = Some kind → ∃ path, pathOf field = Some path.
Proof. unfold KindOf, pathOf. destruct (vocabulary !! field); naive_solver. Qed.

Lemma text_operator_kind o kind : operator_asks o kind = true → text_operator o = true → kind = Text.
Proof. destruct o; try done; by destruct kind. Qed.

Lemma kind_of_leaf_text leaf : kind_of_leaf leaf = Some Text → fd_kind leaf = StringKind.
Proof. unfold kind_of_leaf. by destruct (fd_kind leaf). Qed.

(** Every literal of an expression has a value of its field. *)
Definition answerable (e : Expression) : Prop :=
  ∀ p, p ∈ predicates_of e → ∃ leaf literals, leaf_of (pred_field p) = Some leaf ∧ literalsOf (pred_values p) leaf = Ok literals.

(** A literal of an expression has none, for this reason. *)
Definition refused_for (e : Expression) (reason : Reason) : Prop :=
  ∃ p leaf, p ∈ predicates_of e ∧ leaf_of (pred_field p) = Some leaf ∧ literalsOf (pred_values p) leaf = Err reason.

Lemma compareOn_spec r where_ p rd n rd' :
  predicate_ok (rule_class r) p → compareOn r where_ p rd = Ok (n, rd') →
  ∃ c, n = Comparison c ∧ compiled c ∧ c_field c = pred_field p
    ∧ (∀ record, truth n record = denote (Pred p) record)
    ∧ rd' = {[pred_field p]} ∪ rd ∧ answerable (Pred p).
Proof.
  intros (kind & Hkind & _ & Hasks & Hmin & Hmax & _ & _) Hc. unfold compareOn in Hc.
  destruct (pathOf (pred_field p)) as [path|] eqn:Hpath; [| done].
  destruct (vocable_leaf _ _ Hpath) as (leaf & kind' & Hlast & Hk' & Hkl & _).
  rewrite Hkind in Hk'. injection Hk' as <-. rewrite Hlast in Hc.
  destruct (literalsOf (pred_values p) leaf) as [literals|] eqn:Hl; [| done].
  injection Hc as <- <-. apply literalsOf_spec in Hl as Hf.
  assert (len literals = len (pred_values p)) as Hlen
    by (unfold len; by rewrite (Forall2_length _ _ _ Hf)).
  eexists. split; [done |]. split_and!; [| done | | done |].
  3: { intros p' ->%list_elem_of_singleton. exists leaf, literals. split; [| done]. unfold leaf_of. by rewrite Hpath. }
  - split; cbn; [done | intros Ho; by rewrite decide_True | by eapply operator_asks_known
      | by rewrite Hlen |].
    exists leaf. split_and!; [done | |].
    + intros Ht. apply kind_of_leaf_text. rewrite Hkl. f_equal. by eapply text_operator_kind.
    + intros v [i Hi]%list_elem_of_lookup.
      destruct (Forall2_lookup_r _ _ _ _ _ Hf Hi) as (value & _ & Hv). by eapply literalOf_declared.
  - intros record. cbn [truth denote c_path]. rewrite Hpath, Hlast.
    destruct (read record path) as [v|]; [| done]. unfold answered, predicate_truth. cbn [c_operator].
    case_decide as Hpres; [by rewrite Hpres |].
    destruct (decide (pred_operator p = OneOf)) as [Ho|Ho].
    + unfold answers. rewrite Ho. cbn [c_operator c_member c_literals].
      rewrite andb_true_r. clear - Hf. induction Hf as [|value l values ls Hv _ IH]; [done |].
      cbn. unfold equals_literal at 1. by rewrite Hv, IH.
    + destruct Hf as [|value l values ls Hv Hf].
      { exfalso. unfold len in Hmin. cbn in Hmin. destruct (pred_operator p); cbn in Hmin; (lia || done). }
      destruct (pred_operator p); try done; rewrite Hv; unfold answers; cbn; try done.
Qed.

(** What one expression compiled to. *)
Definition means (e : Expression) (rd : gset Field) (n : node) (rd' : gset Field) : Prop :=
  (∀ c neg b, (c, neg) ∈ leaves n b → compiled c)
  ∧ (∀ record, truth n record = denote e record)
  ∧ rd' = fields_of e ∪ rd ∧ answerable e.

(** The loop over the terms of a group, at any index and under any part. *)
Lemma compileTerms_spec r (go : nat → list Expression → gset Field → result Violation (list node * gset Field))
    (step : nat → Expression → gset Field → result Violation (node * gset Field)) ts :
  (∀ i rd, go i [] rd = Ok ([], rd)) →
  (∀ i t ts rd, go i (t :: ts) rd = match step i t rd with
     | Err e => Err e
     | Ok (n, rd) => match go (S i) ts rd with Err e => Err e | Ok (ns, rd) => Ok (n :: ns, rd) end
     end) →
  (∀ t, t ∈ ts → ∀ i rd n rd', step i t rd = Ok (n, rd') → means t rd n rd') →
  (∀ t, t ∈ ts → ∀ i rd v, step i t rd = Err v → v_rule v = rule_id r ∧ refused_for t (v_reason v)) →
  ∀ i rd,
  match go i ts rd with
  | Ok (ns, rd') => Forall2 (λ n t, (∀ c neg b, (c, neg) ∈ leaves n b → compiled c)
                                    ∧ ∀ record, truth n record = denote t record) ns ts
                    ∧ rd' = ⋃ (fields_of <$> ts) ∪ rd ∧ ∀ t, t ∈ ts → answerable t
  | Err v => v_rule v = rule_id r ∧ ∃ t, t ∈ ts ∧ refused_for t (v_reason v)
  end.
Proof.
  intros Hnil Hcons. induction ts as [|t ts IH]; intros Hok Herr i rd.
  { rewrite Hnil. split; [constructor |]. cbn. rewrite union_empty_l_L. split; [done | by intros t ?%not_elem_of_nil]. }
  rewrite Hcons. destruct (step i t rd) as [[n rd1]|v] eqn:Hs.
  2:{ apply Herr in Hs as [Hr Href]; [| left]. split; [done |]. exists t. split; [left | done]. }
  apply Hok in Hs as (Hc & Ht & -> & Hans); [| left].
  specialize (IH (λ t Ht, Hok t (list_elem_of_further _ _ _ Ht))
                 (λ t Ht, Herr t (list_elem_of_further _ _ _ Ht)) (S i) (fields_of t ∪ rd)).
  destruct (go (S i) ts (fields_of t ∪ rd)) as [[ns rd2]|v].
  2:{ destruct IH as (Hr & t' & Hin & Href). split; [done |]. exists t'. split; [by right | done]. }
  destruct IH as (Hns & -> & Hall). split; [by constructor |]. split; [cbn; set_solver |].
  intros t' [-> | Hin]%elem_of_cons; [done | by apply Hall].
Qed.

Lemma terms_truth record ns ts :
  Forall2 (λ n t, (∀ c neg b, (c, neg) ∈ leaves n b → compiled c)
                  ∧ ∀ record : M, truth n record = denote t record) ns ts →
  forallb (λ n, truth n record) ns = forallb (λ t, denote t record) ts
  ∧ existsb (λ n, truth n record) ns = existsb (λ t, denote t record) ts.
Proof.
  induction 1 as [|n t ns ts [Hc Ht] _ (IH1 & IH2)]; cbn; [done |]. by rewrite Ht, IH1, IH2.
Qed.

Lemma terms_leaves ns ts c neg b :
  Forall2 (λ n t, (∀ c neg b, (c, neg) ∈ leaves n b → compiled c)
                  ∧ ∀ record : M, truth n record = denote t record) ns ts →
  (c, neg) ∈ (ns ≫= λ n, leaves n b) → compiled c.
Proof.
  induction 1 as [|n t ns ts [Hc Ht] _ IH]; cbn; [by intros ?%elem_of_nil |].
  intros [Hin|Hin]%elem_of_app; [by eapply Hc | by apply IH].
Qed.

Lemma predicates_under t ts p : t ∈ ts → p ∈ predicates_of t → p ∈ (ts ≫= predicates_of).
Proof. intros Ht Hp. apply list_elem_of_bind. by exists t. Qed.

Lemma refused_under e t ts reason : predicates_of e = (ts ≫= predicates_of) → t ∈ ts → refused_for t reason → refused_for e reason.
Proof.
  intros He Ht (p & leaf & Hp & Hrest). exists p, leaf. split; [| done]. rewrite He. by eapply predicates_under.
Qed.

Lemma answerable_all e ts : predicates_of e = (ts ≫= predicates_of) → (∀ t, t ∈ ts → answerable t) → answerable e.
Proof.
  intros He Hall p Hp. rewrite He in Hp. apply list_elem_of_bind in Hp as (t & Hp & Ht). by apply (Hall t).
Qed.

(** The terms of a group, by the loop of [compile] at the part they stand at. *)
Ltac compile_terms IH Hts part :=
  rewrite Forall_forall in IH;
  match goal with |- context [?go O ?ts ?rd] =>
    pose proof (compileTerms_spec _ go (λ i t rd, compile _ (indexed part i) t rd) ts
      (λ _ _, eq_refl) (λ _ _ _ _, eq_refl)
      ltac:(intros t Ht i rd0 n rd' Hc; specialize (IH t Ht _ (Hts t Ht) (indexed part i) rd0);
            by rewrite Hc in IH)
      ltac:(intros t Ht i rd0 v Hc; specialize (IH t Ht _ (Hts t Ht) (indexed part i) rd0);
            by rewrite Hc in IH) O rd) as Hspec;
    destruct (go O ts rd) as [[ns rd']|v];
      [destruct Hspec as (Hns & -> & Hall)
      | destruct Hspec as (Hrule & t & Ht & Href); split; [done | by eapply refused_under]]
  end.

Lemma compile_spec r class e :
  rule_class r = class → ∀ depth, asks_well class depth e → ∀ part rd,
  match compile r part e rd with
  | Ok (n, rd') => means e rd n rd'
  | Err v => v_rule v = rule_id r ∧ refused_for e (v_reason v)
  end.
Proof.
  intros <-. induction e as [p|ts IH|ts IH|t IH| |name] using Expression_rect';
    intros depth Hw part rd; inversion Hw as [? ? ? Hp|? ? ? Ht|? ? ? ? Hts|? ? ? ? Hts]; subst.
  - cbn [compile]. destruct (compareOn r _ p rd) as [[n rd']|v] eqn:Hc.
    + destruct (compareOn_spec _ _ _ _ _ _ Hp Hc) as (c & -> & Hcc & _ & Htr & -> & Hans).
      split_and!; [| done | done | done]. intros c' neg b Hin. cbn in Hin.
      apply list_elem_of_singleton in Hin. by simplify_eq.
    + destruct Hp as (kind & Hkind & _ & _ & _ & _ & _ & Hlit). unfold compareOn in Hc.
      destruct (KindOf_path _ _ Hkind) as [path Hpath]. rewrite Hpath in Hc.
      destruct (vocable_leaf _ _ Hpath) as (leaf & kind' & Hlast & Hk' & Hkl & Hch).
      rewrite Hkind in Hk'. injection Hk' as <-. rewrite Hlast in Hc.
      destruct (literalsOf (pred_values p) leaf) as [|reason] eqn:Hl; [done |].
      injection Hc as <-. split; [done |]. exists p, leaf. split_and!; [left | | done]. unfold leaf_of. by rewrite Hpath.
  - cbn [compile]. compile_terms IH Hts (part +:+ ".all").
    split_and!; [intros c neg b; by apply (terms_leaves ns ts) | | done | by eapply answerable_all].
    intros record. by apply terms_truth.
  - cbn [compile]. compile_terms IH Hts (part +:+ ".any").
    split_and!; [intros c neg b; by apply (terms_leaves ns ts) | | done | by eapply answerable_all].
    intros record. by apply terms_truth.
  - cbn [compile]. specialize (IH _ Ht (part +:+ ".not") rd).
    destruct (compile r (part +:+ ".not") t rd) as [[n rd']|v]; [| done].
    destruct IH as (Hc & Htr & -> & Hans). split_and!; [| | done | done].
    + intros c neg b. apply Hc.
    + intros record. cbn. by rewrite Htr.
Qed.

Lemma nan_unordered x y : is_nan x || is_nan y = true →
  SFltb x y = false ∧ SFltb y x = false ∧ SFleb x y = false ∧ SFleb y x = false.
Proof. by destruct x, y. Qed.

(** What a text operator asks is of a text, and its literal stands for itself. *)
Lemma stands_text leaf value literal : fd_kind leaf = StringKind → stands leaf value literal ↔ literal = PString (value_text value).
Proof. intros Hk. unfold stands. rewrite Hk. destruct literal; naive_solver. Qed.

Lemma equals_literal_spec leaf v value : binary64 (value_number value) →
  equals_literal leaf v value = true ↔ ∃ literal, stands leaf value literal ∧ iface_eqb v literal = true.
Proof.
  intros Hv. unfold equals_literal. destruct (literalOf value leaf) as [literal|reason] eqn:Hl.
  - split; [intros Hq; exists literal; by rewrite <- literalOf_stands |].
    intros (literal' & Hs & Hq). apply literalOf_stands in Hs; [| done]. congruence.
  - split; [done |]. intros (literal & Hs & _). apply literalOf_stands in Hs; [congruence | done].
Qed.

Lemma predicate_says class p leaf v :
  predicate_ok class p → leaf_of (pred_field p) = Some leaf →
  (∀ value, value ∈ pred_values p → binary64 (value_number value)) → answerable (Pred p) →
  predicate_truth p leaf v = true ↔ asks_of p leaf v.
Proof.
  intros (kind & Hkind & _ & Hasks & Hmin & _) Hleaf Hbin Hans.
  destruct (Hans p) as (leaf' & literals & Hl' & Hlit); [left |]. rewrite Hleaf in Hl'. injection Hl' as <-.
  assert (text_operator (pred_operator p) = true → fd_kind leaf = StringKind) as Htext.
  { intros Ht. apply kind_of_leaf_text. unfold leaf_of in Hleaf. destruct (pathOf (pred_field p)) as [path|] eqn:Hpath; [| done].
    destruct (vocable_leaf _ _ Hpath) as (leaf' & kind' & Hlast & Hk' & Hkl & _). cbn in Hleaf. simplify_eq. rewrite Hkl.
    f_equal. by eapply text_operator_kind. }
  unfold predicate_truth, asks_of. destruct (decide (pred_operator p = Present)) as [->|Hp]; [done |].
  destruct (decide (pred_operator p = OneOf)) as [->|Ho].
  { rewrite existsb_exists. setoid_rewrite <- list_elem_of_In. split.
    - intros (value & Hin & Hq%equals_literal_spec); [| by apply Hbin]. destruct Hq as (literal & ? & ?). eauto.
    - intros (value & literal & Hin & Hs & Hq). exists value. split; [done |]. apply equals_literal_spec; [by apply Hbin | eauto]. }
  destruct (pred_values p) as [|value values] eqn:Hvalues.
  { exfalso. unfold len in Hmin. cbn in Hmin. destruct (pred_operator p); cbn in Hmin; (lia || done). }
  assert (binary64 (value_number value)) as Hb by (apply Hbin; left).
  cbn in Hlit. destruct (literalOf value leaf) as [literal|] eqn:Hl; [| done].
  assert (∀ asked : PValue → Prop, (∃ value', head (value :: values) = Some value' ∧ ∃ literal', stands leaf value' literal' ∧ asked literal') ↔ asked literal) as Hone.
  { intros asked. split.
    - intros (value' & [= <-] & literal' & Hs%literalOf_stands & Hq); [congruence | done].
    - intros Hq. exists value. split; [done |]. exists literal. by rewrite <- literalOf_stands. }
  apply literalOf_stands in Hl; [| done].
  destruct (pred_operator p) eqn:Hop; try done; unfold answers; cbn [c_operator c_literals].
  all: try (specialize (Htext eq_refl); apply (stands_text _ _ _ Htext) in Hl as ->; cbn [value_string]; rewrite andb_true_r).
  all: try (destruct (is_nan _ || is_nan _) eqn:Hnan; [apply nan_unordered in Hnan as (N1 & N2 & N3 & N4) | rewrite andb_true_r]; symmetry).
  - rewrite andb_true_r. symmetry. apply (Hone (λ literal, iface_eqb v literal = true)).
  - rewrite StringContains_spec. split; [intros Hq; by exists value | by intros (value' & [= <-] & Hq)].
  - rewrite HasPrefix_spec. split; [intros Hq; by exists value | by intros (value' & [= <-] & Hq)].
  - rewrite HasSuffix_app. split; [intros Hq; by exists value | by intros (value' & [= <-] & Hq)].
  - rewrite (Hone (λ literal, SFltb (numberIn literal) (numberIn v) = true)). by rewrite N2.
  - apply (Hone (λ literal, SFltb (numberIn literal) (numberIn v) = true)).
  - rewrite (Hone (λ literal, SFleb (numberIn literal) (numberIn v) = true)). by rewrite N4.
  - apply (Hone (λ literal, SFleb (numberIn literal) (numberIn v) = true)).
  - rewrite (Hone (λ literal, SFltb (numberIn v) (numberIn literal) = true)). by rewrite N1.
  - apply (Hone (λ literal, SFltb (numberIn v) (numberIn literal) = true)).
  - rewrite (Hone (λ literal, SFleb (numberIn v) (numberIn literal) = true)). by rewrite N3.
  - apply (Hone (λ literal, SFleb (numberIn v) (numberIn literal) = true)).
Qed.

Lemma answerable_term e ts t : predicates_of e = (ts ≫= predicates_of) → t ∈ ts → answerable e → answerable t.
Proof. intros He Ht Hall p Hp. apply Hall. rewrite He. by eapply predicates_under. Qed.

Lemma terms_says record ts : (∀ t, t ∈ ts → denote t record = true ↔ says t record) →
  (forallb (λ t, denote t record) ts = true ↔ foldr (λ t rest, says t record ∧ rest) True ts)
  ∧ (existsb (λ t, denote t record) ts = true ↔ foldr (λ t rest, says t record ∨ rest) False ts).
Proof.
  induction ts as [|t ts IH]; intros Hts; cbn; [done |].
  destruct IH as [IH1 IH2]; [intros t' Ht'; apply Hts; by right |].
  rewrite andb_true_iff, orb_true_iff, IH1, IH2, (Hts t) by left. done.
Qed.

(** What is computed of an event is what is said of it. *)
Lemma denote_says class e record : ∀ depth, asks_well class depth e → answerable e →
  (∀ p value, p ∈ predicates_of e → value ∈ pred_values p → binary64 (value_number value)) →
  denote e record = true ↔ says e record.
Proof.
  induction e as [p|ts IH|ts IH|t IH| |name] using Expression_rect'; intros depth Hw Hans Hbin;
    inversion Hw as [? ? ? Hp|? ? ? Ht|? ? ? ? Hts|? ? ? ? Hts]; subst; cbn [denote says].
  - destruct (pathOf (pred_field p)) as [path|] eqn:Hpath; [| naive_solver].
    destruct (vocable_leaf _ _ Hpath) as (leaf & kind & Hlast & _). rewrite Hlast.
    destruct (read record path) as [v|] eqn:Hr; [| naive_solver].
    assert (predicate_truth p leaf v = true ↔ asks_of p leaf v) as ->; [| naive_solver].
    apply (predicate_says class); [done | unfold leaf_of; by rewrite Hpath | intros value; apply Hbin; left | done].
  - apply terms_says. rewrite Forall_forall in IH. intros t Ht.
    apply (IH t Ht (depth + 1) (Hts t Ht)); [by apply (answerable_term (All ts) ts) | intros p value Hp; apply Hbin; by eapply predicates_under].
  - apply terms_says. rewrite Forall_forall in IH. intros t Ht.
    apply (IH t Ht (depth + 1) (Hts t Ht)); [by apply (answerable_term (Any ts) ts) | intros p value Hp; apply Hbin; by eapply predicates_under].
  - rewrite negb_true_iff, <- (IH (depth + 1) Ht) by done. by destruct (denote t record).
Qed.

(** What validation asked of every predicate of an expression. *)
Lemma asks_well_predicates class e : ∀ depth p, asks_well class depth e → p ∈ predicates_of e → predicate_ok class p.
Proof.
  induction e as [q|ts IH|ts IH|t IH| |name] using Expression_rect'; intros depth p Hw Hp;
    inversion Hw as [? ? ? Hq|? ? ? Ht|? ? ? ? Hts|? ? ? ? Hts]; subst; cbn [predicates_of] in Hp.
  - by apply list_elem_of_singleton in Hp as ->.
  - apply list_elem_of_bind in Hp as (t & Hp & Ht). rewrite Forall_forall in IH. by eapply (IH t Ht); [apply Hts |].
  - apply list_elem_of_bind in Hp as (t & Hp & Ht). rewrite Forall_forall in IH. by eapply (IH t Ht); [apply Hts |].
  - by eapply IH.
Qed.

(** C6. A rule's compiled tree holds of an event exactly when what is written says so, each
    literal standing for the value of its field it names, and reads exactly the fields the
    expression names; every literal of it then has such a value. An expression that passed
    validation is refused for one reason alone: a number of it that no value of the field it
    is compared with is, being no whole number, outside the field's width or what a float64
    counts by ones, or too wide for a float32. *)
Theorem compiling_preserves_the_rule r e part :
  validateExpression r part e 0 = Ok tt →
  (∀ p value, p ∈ predicates_of e → value ∈ pred_values p → binary64 (value_number value)) →
  match compile r part e ∅ with
  | Ok (n, fields) =>
      (∀ record, truth n record = true ↔ says e record) ∧ fields = fields_of e
      ∧ ∀ p value, p ∈ predicates_of e → value ∈ pred_values p →
          ∃ leaf literal, leaf_of (pred_field p) = Some leaf ∧ stands leaf value literal
  | Err v =>
      v_rule v = rule_id r
      ∧ ∃ p value leaf, p ∈ predicates_of e ∧ value ∈ pred_values p
          ∧ leaf_of (pred_field p) = Some leaf ∧ unheld leaf value (v_reason v)
  end.
Proof.
  intros Hv%validateExpression_spec Hbin. pose proof (compile_spec r _ e eq_refl 0 Hv part ∅) as Hc.
  destruct (compile r part e ∅) as [[n fields]|v].
  - destruct Hc as (_ & Ht & -> & Hans). split_and!; [| by rewrite union_empty_r_L |].
    + intros record. rewrite Ht. by eapply denote_says.
    + intros p value Hp Hin. destruct (Hans p Hp) as (leaf & literals & Hleaf & Hl).
      apply literalsOf_spec in Hl. apply list_elem_of_lookup in Hin as [i Hi].
      destruct (Forall2_lookup_l _ _ _ _ _ Hl Hi) as (literal & _ & Hlit). exists leaf, literal. split; [done |].
      apply literalOf_stands; [| done]. eapply Hbin; [done |]. by eapply list_elem_of_lookup_2.
  - destruct Hc as (Hr & p & leaf & Hp & Hleaf & Hl). split; [done |].
    apply literalsOf_refused in Hl as (value & Hin & Hl). exists p, value, leaf. split_and!; [done.. |].
    destruct (asks_well_predicates _ _ _ _ Hv Hp) as (kind & Hkind & _ & _ & _ & _ & _ & Hlit).
    unfold leaf_of in Hleaf. destruct (pathOf (pred_field p)) as [path|] eqn:Hpath; [| done].
    destruct (vocable_leaf _ _ Hpath) as (leaf' & kind' & Hlast & Hk' & Hkl & Hch). cbn in Hleaf. simplify_eq.
    by eapply literalOf_unheld; [eapply Hbin | | apply Hch | apply Hlit |].
Qed.
End compile.
