(* ===== verification/Contradiction.v ===== *)
(** * The order of float64, as far as comparisons use it

    Comparing two numbers that are not NaN is comparing their keys in the
    lexicographic order on triples, so every fact about [<], [<=] and [==] that
    the range of a field rests on is a fact about integers. *)

From Stdlib Require Import ZArith Lia Ascii Floats.SpecFloat.
From stdpp Require Import base tactics option gmap strings pretty numbers list.
From S2P Require Import Prelude Text Rule Contract Validate WellFormed Compile CompileProps.


Definition fkey (f : float64) : Z * Z * Z :=
  match f with
  | S754_nan => (3, 0, 0)
  | S754_infinity true => (-2, 0, 0)
  | S754_infinity false => (2, 0, 0)
  | S754_zero _ => (0, 0, 0)
  | S754_finite true m e => (-1, - e, - Z.pos m)
  | S754_finite false m e => (1, e, Z.pos m)
  end.

Definition klt (a b : Z * Z * Z) : Prop :=
  a.1.1 < b.1.1 ∨ a.1.1 = b.1.1 ∧ (a.1.2 < b.1.2 ∨ a.1.2 = b.1.2 ∧ a.2 < b.2).

Lemma SFcompare_key a b :
  is_nan a = false → is_nan b = false →
  match SFcompare a b with
  | Some Lt => klt (fkey a) (fkey b)
  | Some Eq => fkey a = fkey b
  | Some Gt => klt (fkey b) (fkey a)
  | None => False
  end.
Proof.
  destruct a as [sa|[]| |[] ma ea], b as [sb|[]| |[] mb eb]; try done; intros _ _; cbn;
    unfold klt; cbn; try (left; lia); try done.
  - destruct (Z.compare_spec ea eb); cbn; try (right; split; [done | left; lia]).
    change (Pos.compare_cont Eq ma mb) with (ma ?= mb)%positive.
    destruct (Pos.compare_spec ma mb); cbn; subst; [done | right; split; [done | right; lia] ..].
  - destruct (Z.compare_spec ea eb); cbn; try (right; split; [done | left; lia]).
    change (Pos.compare_cont Eq ma mb) with (ma ?= mb)%positive.
    destruct (Pos.compare_spec ma mb); cbn; subst; [done | right; split; [done | right; lia] ..].
Qed.

Lemma SFcompare_nan a b : is_nan a = true ∨ is_nan b = true → SFcompare a b = None.
Proof. intros [Ha|Hb]; [by destruct a | destruct b; try done; by destruct a as [|[]| |[]]]. Qed.

Lemma SFltb_true a b :
  SFltb a b = true ↔ is_nan a = false ∧ is_nan b = false ∧ klt (fkey a) (fkey b).
Proof.
  unfold SFltb. destruct (is_nan a) eqn:Ha; [rewrite SFcompare_nan by auto; naive_solver |].
  destruct (is_nan b) eqn:Hb; [rewrite SFcompare_nan by auto; naive_solver |].
  pose proof (SFcompare_key a b Ha Hb) as Hk.
  destruct (SFcompare a b) as [[]|]; [rewrite Hk | | |done];
    split; try done; intros (_ & _ & Hlt); exfalso; unfold klt in *; lia.
Qed.

Lemma SFleb_true a b :
  SFleb a b = true ↔ is_nan a = false ∧ is_nan b = false ∧ ¬ klt (fkey b) (fkey a).
Proof.
  unfold SFleb. destruct (is_nan a) eqn:Ha; [rewrite SFcompare_nan by auto; naive_solver |].
  destruct (is_nan b) eqn:Hb; [rewrite SFcompare_nan by auto; naive_solver |].
  pose proof (SFcompare_key a b Ha Hb) as Hk.
  destruct (SFcompare a b) as [[]|]; [rewrite Hk | | |done]; split; try done.
  - intros _. split_and!; [done | done |]. unfold klt. lia.
  - intros _. split_and!; [done | done |]. unfold klt in *. lia.
  - intros (_ & _ & Hn). by destruct Hn.
Qed.

Lemma SFeqb_true a b :
  SFeqb a b = true ↔ is_nan a = false ∧ is_nan b = false ∧ fkey a = fkey b.
Proof.
  unfold SFeqb. destruct (is_nan a) eqn:Ha; [rewrite SFcompare_nan by auto; naive_solver |].
  destruct (is_nan b) eqn:Hb; [rewrite SFcompare_nan by auto; naive_solver |].
  pose proof (SFcompare_key a b Ha Hb) as Hk.
  destruct (SFcompare a b) as [[]|]; [| | |done]; split; try done;
    intros (_ & _ & He); rewrite He in Hk; exfalso; unfold klt in Hk; lia.
Qed.

(** Equal numbers compare alike with everything. *)
Lemma is_nan_key a b : fkey a = fkey b → is_nan a = is_nan b.
Proof. by destruct a as [|[]| |[]], b as [|[]| |[]]. Qed.

Lemma bool_iff (a b : bool) : (a = true ↔ b = true) → a = b.
Proof. destruct a, b; naive_solver. Qed.

Lemma SF_congruence a b c :
  fkey a = fkey b →
  SFltb a c = SFltb b c ∧ SFltb c a = SFltb c b ∧ SFleb a c = SFleb b c
  ∧ SFleb c a = SFleb c b ∧ SFeqb a c = SFeqb b c ∧ SFeqb c a = SFeqb c b.
Proof.
  intros Hk. pose proof (is_nan_key a b Hk) as Hn.
  split_and!; apply bool_iff; rewrite ?SFltb_true, ?SFleb_true, ?SFeqb_true, Hk, Hn; done.
Qed.

Lemma klt_irrefl a : ¬ klt a a.
Proof. unfold klt. lia. Qed.

Lemma klt_trans a b c : klt a b → klt b c → klt a c.
Proof. unfold klt. lia. Qed.

Lemma klt_total a b : klt a b ∨ a = b ∨ klt b a.
Proof. destruct a as [[a1 a2] a3], b as [[b1 b2] b3]. unfold klt; cbn.
  destruct (Z.lt_trichotomy a1 b1) as [|[->|]]; [lia | | lia].
  destruct (Z.lt_trichotomy a2 b2) as [|[->|]]; [lia | | lia].
  destruct (Z.lt_trichotomy a3 b3) as [|[->|]]; [lia | auto | lia].
Qed.

(** * Rules that can never match, and rules that always do (contradiction.go)

    What compilation refuses because two things it asks cannot both hold. The
    prose of a refusal is not modelled; whether it is made, and at which part, is.
    A [map[any]Value] of allowed literals is the list of its values, found again
    by [iface_eqb] as a Go map finds an interface key. *)


Section contradiction.
Context `{Formats}.

(** ** Writing a comparison back out (compile.go) *)

Definition Join (sep : string) (parts : list string) : string := String.concat sep parts.

Definition comparison_String (c : comparison) : string :=
  let written := wrote c <$> c_literals c in
  let asked := c_field c +:+ " " +:+ Operator_String (c_operator c) in
  match c_operator c with
  | Present => asked
  | OneOf => asked +:+ " [" +:+ Join ", " written +:+ "]"
  | _ => asked +:+ " " +:+ default "" (head written)
  end.

Fixpoint node_String (n : node) : string :=
  match n with
  | Comparison c => comparison_String c
  | Conjunction terms => "(" +:+ Join " and " (node_String <$> terms) +:+ ")"
  | Disjunction terms => "(" +:+ Join " or " (node_String <$> terms) +:+ ")"
  | Negation term => "not " +:+ node_String term
  end.

Record asked := mkAsked { a_compare : comparison; a_negated : bool }.

(** ** The questions a node asks directly *)

Fixpoint directly_of (conjunctive : bool) (term : node) : list asked :=
  match term with
  | Comparison c => [mkAsked c false]
  | Negation (Comparison c) => [mkAsked c true]
  | Negation _ => []
  | Conjunction terms => if conjunctive then terms ≫= directly_of conjunctive else []
  | Disjunction terms => if conjunctive then [] else terms ≫= directly_of conjunctive
  end.
Definition directly (terms : list node) (conjunctive : bool) : list asked :=
  terms ≫= directly_of conjunctive.

(** ** A question and its opposite *)

Fixpoint opposed_from (polarity : gmap string bool) (questions : list asked) : bool :=
  match questions with
  | [] => false
  | q :: questions =>
      let written := comparison_String (a_compare q) in
      match polarity !! written with
      | Some negated => if negb (eqb negated (a_negated q)) then true
                        else opposed_from (<[written := a_negated q]> polarity) questions
      | None => opposed_from (<[written := a_negated q]> polarity) questions
      end
  end.
Definition opposed (questions : list asked) : bool := opposed_from ∅ questions.

(** ** What a conjunction leaves one field *)

Record window := mkWindow {
  w_allowed : option (list PValue);
  w_low : float64;
  w_high : float64;
  w_lowOpen : bool;
  w_highOpen : bool;
  w_bounded : bool;   (* whether [bounded] names a question yet *)
}.

Definition open_window : window :=
  mkWindow None (S754_infinity true) (S754_infinity false) false false false.

(** [None] is a refusal. *)
Definition allow (q : asked) (w : window) : option window :=
  let narrowed := c_literals (a_compare q) in
  let keep allowed := mkWindow (Some allowed) (w_low w) (w_high w) (w_lowOpen w) (w_highOpen w) (w_bounded w) in
  match w_allowed w with
  | None => Some (keep narrowed)
  | Some allowed =>
      let kept := List.filter (λ literal, existsb (iface_eqb literal) allowed) narrowed in
      if len kept =? 0 then None else Some (keep kept)
  end.

Definition ranged (o : Operator) : bool :=
  match o with Above | AtLeast | Below | AtMost => true | _ => false end.

Definition with_low (l : float64) (o : bool) (w : window) : window :=
  mkWindow (w_allowed w) l (w_high w) o (w_highOpen w) (w_bounded w).
Definition with_high (h : float64) (o : bool) (w : window) : window :=
  mkWindow (w_allowed w) (w_low w) h (w_lowOpen w) o (w_bounded w).

Definition limit (q : asked) (w : window) : option window :=
  let against := match c_literals (a_compare q) with
                 | literal :: _ => numberIn literal
                 | [] => S754_nan
                 end in
  let w :=
    match c_operator (a_compare q) with
    | Above => if SFltb (w_low w) against || (SFeqb against (w_low w) && negb (w_lowOpen w))
               then with_low against true w else w
    | AtLeast => if SFltb (w_low w) against then with_low against false w else w
    | Below => if SFltb against (w_high w) || (SFeqb against (w_high w) && negb (w_highOpen w))
               then with_high against true w else w
    | AtMost => if SFltb against (w_high w) then with_high against false w else w
    | _ => w
    end in
  let w := mkWindow (w_allowed w) (w_low w) (w_high w) (w_lowOpen w) (w_highOpen w) true in
  if SFltb (w_high w) (w_low w) || (SFeqb (w_low w) (w_high w) && (w_lowOpen w || w_highOpen w))
  then None else Some w.

Definition within (w : window) (literal : PValue) : bool :=
  let value := numberIn literal in
  if is_nan value then true
  else if SFltb value (w_low w) || (SFeqb value (w_low w) && w_lowOpen w) then false
  else SFleb value (w_high w) && negb (SFeqb value (w_high w) && w_highOpen w).

Definition satisfies (literal : PValue) (q : asked) : bool :=
  let '(held, decided) := answers literal (a_compare q) in
  if negb decided then true else negb (eqb held (a_negated q)).

Definition first_string (c : comparison) : string :=
  match c_literals c with literal :: _ => value_string literal | [] => "" end.

Definition clash (q against : asked) : bool :=
  if a_negated against || negb (bool_decide (c_operator (a_compare against) = c_operator (a_compare q)))
  then false
  else
    let one := first_string (a_compare q) in
    let other := first_string (a_compare against) in
    match c_operator (a_compare q) with
    | StartsWith => negb (HasPrefix one other) && negb (HasPrefix other one)
    | EndsWith => negb (HasSuffix one other) && negb (HasSuffix other one)
    | _ => false
    end.

(** Whether two affirmative questions of [rest] cannot both hold. *)
Fixpoint conflicting (rest : list asked) : bool :=
  match rest with
  | [] => false
  | q :: rest => (if a_negated q then false else existsb (clash q) rest) || conflicting rest
  end.

(** [leaves]: whether what is still allowed cannot answer the rest. *)
Definition leaves_nothing (w : window) (rest : list asked) : bool :=
  match w_allowed w with
  | None => conflicting rest
  | Some allowed =>
      (w_bounded w && negb (existsb (within w) allowed))
      || existsb (λ q, negb (existsb (λ literal, satisfies literal q) allowed)) rest
  end.

(** [empty]: whether the questions asked of one field leave it nothing. *)
Fixpoint empty_from (w : window) (rest : list asked) (questions : list asked) : bool :=
  match questions with
  | [] => leaves_nothing w rest
  | q :: questions =>
      if decide (c_operator (a_compare q) = Present) then empty_from w rest questions
      else if a_negated q then empty_from w (rest ++ [q]) questions
      else if bool_decide (c_operator (a_compare q) = Equals)
              || bool_decide (c_operator (a_compare q) = OneOf) then
        match allow q w with None => true | Some w => empty_from w rest questions end
      else if ranged (c_operator (a_compare q)) then
        match limit q w with None => true | Some w => empty_from w rest questions end
      else empty_from w (rest ++ [q]) questions
  end.
Definition empty (questions : list asked) : bool := empty_from open_window [] questions.

(** The questions grouped by field, the fields in the order first met. *)
Definition asked_fields (questions : list asked) : list Field :=
  foldl (λ order q, add_once order (c_field (a_compare q))) [] questions.

Definition narrowed (questions : list asked) : bool :=
  existsb (λ field, empty (List.filter (λ q, bool_decide (c_field (a_compare q) = field)) questions))
          (asked_fields questions).

(** ** The walk *)

Definition satisfiable (r : Rule) : string → node → result Violation unit :=
  fix satisfiable (part : string) (term : node) : result Violation unit :=
    match term with
    | Conjunction terms =>
        let part := part +:+ ".all" in
        let questions := directly terms true in
        if opposed questions then Err (violation r part NeverMatches)
        else if narrowed questions then Err (violation r part NothingSatisfies)
        else each (λ index term, satisfiable (indexed part index) term) terms
    | Disjunction terms =>
        let part := part +:+ ".any" in
        if opposed (directly terms false) then Err (violation r part MatchesEverything)
        else each (λ index term, satisfiable (indexed part index) term) terms
    | Negation term => satisfiable (part +:+ ".not") term
    | Comparison _ => Ok tt
    end.
End contradiction.
