(* ===== verification/ContradictionProps.v ===== *)
(** * What is written tells comparisons apart

    The contradiction check finds a question and its opposite by how the two are
    written, so two comparisons written alike have to decide alike. That rests on
    how Go writes literals and on how the contract names things, stated here as
    the laws of the two parameters. *)

From Stdlib Require Import ZArith Lia Ascii Floats.SpecFloat.
From stdpp Require Import base tactics option gmap strings pretty numbers list.
From S2P Require Import Prelude Text Rule Contract Validate WellFormed Compile CompileProps Contradiction.


(** Text that a list of literals can be split around. *)
Definition token (s : string) : Prop := free_of "," s ∧ free_of "]" s.

(** [strconv.Quote] writes a literal that ends itself; [fmt] writes a number in
    its shortest exact form, without commas or brackets. *)
Class FormatLaws `{Formats} := {
  Quote_delimits : ∀ a b x y, Quote a +:+ x = Quote b +:+ y → a = b ∧ x = y;
  Format_inj : ∀ k a b, numeric k = true → of_kind k a → of_kind k b → Format a = Format b → a = b;
  Format_token : ∀ k a, numeric k = true → of_kind k a → token (Format a);
}.

(** Names of the contract are identifiers, and the short names of one
    enumeration's values are distinct. *)
Class ContractLaws `{Contract} := {
  names_plain : ∀ message f, f ∈ message_fields message → free_of " " (fd_name f);
  choices_distinct : ∀ message f, f ∈ message_fields message → fd_kind f = EnumKind →
    NoDup (choicesOf (fd_enum f)) ∧ Forall token (choicesOf (fd_enum f));
}.

(** What may follow a literal: the end, a comma or a bracket. *)
Definition stop (s : string) : Prop :=
  match s with EmptyString => True | String c _ => c = ","%char ∨ c = "]"%char end.

Lemma split_token a b x y :
  token a → token b → stop x → stop y → a +:+ x = b +:+ y → a = b ∧ x = y.
Proof.
  revert b. induction a as [|c a IH]; intros [|d b] [Ha1 Ha2] [Hb1 Hb2] Hx Hy Heq; cbn in *.
  - done.
  - assert (x = String d (b +:+ y)) as -> by exact Heq. cbn in Hx. naive_solver.
  - assert (y = String c (a +:+ x)) as -> by exact (eq_sym Heq). cbn in Hy. naive_solver.
  - injection Heq as <- Heq. destruct (IH b) as [-> ->]; [by split; naive_solver .. | done | done | done |].
    done.
Qed.

Section written.
Context `{CT : Contract, CL : !ContractLaws, FM : Formats, FL : !FormatLaws}.

Lemma field_plain field path : pathOf field = Some path → free_of " " field.
Proof.
  unfold pathOf. destruct (vocabulary !! field) as [v|] eqn:Hv; [| done]. intros [= <-].
  apply vocabulary_ok in Hv as [_ Hname Hf _]. rewrite <- Hname. clear Hname.
  induction Hf as [|f path (_ & _ & m & Hm) Hpath IH]; [done |].
  apply names_plain in Hm. destruct path as [|g path]; [done |].
  change (dotted (f :: g :: path)) with (fd_name f +:+ "." +:+ dotted (g :: path)).
  apply free_of_app; [done |]. by split.
Qed.

Lemma leaf_declared field path leaf :
  pathOf field = Some path → last path = Some leaf →
  (∃ message, leaf ∈ message_fields message) ∧ is_Some (kind_of_leaf leaf).
Proof.
  intros Hp Hl. destruct (vocable_leaf _ _ Hp) as (leaf' & kind & Hl' & _ & Hk & _).
  rewrite Hl in Hl'. injection Hl' as <-. split; [| eauto].
  unfold pathOf in Hp. destruct (vocabulary !! field) as [v|] eqn:Hv; [| done]. injection Hp as <-.
  apply vocabulary_ok in Hv as [_ _ Hf _]. rewrite Forall_forall in Hf. apply Hf.
  by apply last_Some_elem_of in Hl.
Qed.

Lemma find_number (vs : list (string * Z)) n :
  (∃ value, value ∈ vs ∧ value.2 = n) →
  ∃ value, List.find (λ v, v.2 =? n) vs = Some value ∧ value ∈ vs ∧ value.2 = n.
Proof.
  intros (value & Hin & Hn). destruct (List.find _ vs) as [v|] eqn:Hf.
  - apply find_some in Hf as [Hv He]. exists v. split; [done |].
    split; [by apply list_elem_of_In | by apply Z.eqb_eq].
  - eapply find_none in Hf; [| by apply list_elem_of_In]. apply Z.eqb_neq in Hf. done.
Qed.

Lemma short_name_inj e v1 v2 :
  NoDup (choicesOf e) → v1 ∈ enum_values e → v2 ∈ enum_values e →
  shortName e v1 = shortName e v2 → v1 = v2.
Proof.
  intros Hnd [i Hi]%list_elem_of_lookup [j Hj]%list_elem_of_lookup He.
  assert (i = j) as ->; [| congruence]. unfold choicesOf in Hnd.
  eapply NoDup_lookup; [done | by rewrite list_lookup_fmap, Hi |].
  rewrite list_lookup_fmap, Hj. cbn. by rewrite He.
Qed.

(** Two literals of one field, written, each followed by what may follow one. *)
Lemma wrote_split c1 c2 leaf v1 v2 x y :
  last (c_path c1) = Some leaf → last (c_path c2) = Some leaf →
  (∃ message, leaf ∈ message_fields message) → is_Some (kind_of_leaf leaf) →
  declared_literal leaf v1 → declared_literal leaf v2 → stop x → stop y →
  wrote c1 v1 +:+ x = wrote c2 v2 +:+ y → v1 = v2 ∧ x = y.
Proof.
  intros Hl1 Hl2 [message Hm] [kind Hk] [Ht1 Hd1] [Ht2 Hd2] Hx Hy. unfold wrote. rewrite Hl1, Hl2.
  case_decide as Hs.
  { rewrite Hs in Ht1, Ht2. destruct v1, v2; try done. cbn. intros [-> ->]%Quote_delimits. done. }
  unfold plain. unfold kind_of_leaf in Hk.
  destruct (decide (fd_kind leaf = EnumKind)) as [He|He].
  { rewrite He in *. destruct v1 as [| | |n1| | | | | |], v2 as [| | |n2| | | | | |]; try done.
    apply find_number in Hd1 as (a1 & -> & Ha1 & <-), Hd2 as (a2 & -> & Ha2 & <-).
    destruct (choices_distinct _ _ Hm He) as [Hnd Htok]. rewrite Forall_forall in Htok.
    intros [Hsn ->]%split_token; [| apply Htok, list_elem_of_fmap_2; done .. | done | done].
    by rewrite (short_name_inj _ _ _ Hnd Ha1 Ha2 Hsn). }
  destruct (decide (fd_kind leaf = BoolKind)) as [Hb|Hb].
  { rewrite Hb in *. destruct v1 as [| |b1| | | | | | |], v2 as [| |b2| | | | | | |]; try done.
    intros [Hf ->]%split_token; [| by destruct b1 | by destruct b2 | done | done].
    by destruct b1, b2. }
  assert (numeric (fd_kind leaf) = true) as Hnum by (by destruct (fd_kind leaf)).
  intros Heq. assert (Format v1 +:+ x = Format v2 +:+ y) as Hf.
  { destruct (fd_kind leaf); try done; by destruct v1, v2. }
  apply split_token in Hf as [Hf ->]; [| by eapply Format_token .. | done | done].
  split; [| done]. by eapply Format_inj.
Qed.

Lemma joined_split c1 c2 leaf (vs1 vs2 : list PValue) :
  last (c_path c1) = Some leaf → last (c_path c2) = Some leaf →
  (∃ message, leaf ∈ message_fields message) → is_Some (kind_of_leaf leaf) →
  (∀ v, v ∈ vs1 → declared_literal leaf v) → (∀ v, v ∈ vs2 → declared_literal leaf v) →
  vs1 ≠ [] → vs2 ≠ [] →
  Join ", " (wrote c1 <$> vs1) +:+ "]" = Join ", " (wrote c2 <$> vs2) +:+ "]" → vs1 = vs2.
Proof.
  intros Hl1 Hl2 Hm Hk. revert vs2. induction vs1 as [|v1 vs1 IH]; intros vs2 Hd1 Hd2 Hn1 Hn2; [done |].
  destruct vs2 as [|v2 vs2]; [done |].
  assert (∀ c (v : PValue) vs, Join ", " (wrote c <$> v :: vs) +:+ "]"
    = wrote c v +:+ (match vs with [] => "]" | _ => ", " +:+ Join ", " (wrote c <$> vs) +:+ "]" end)) as Hj.
  { intros c v vs. destruct vs as [|w vs]; [done |]. unfold Join. cbn [fmap list_fmap String.concat].
    by rewrite !string_app_assoc. }
  rewrite !Hj. intros [-> Heq]%(wrote_split _ _ leaf); try done;
    [| apply Hd1; left | apply Hd2; left | destruct vs1; [by right | by left]
     | destruct vs2; [by right | by left]].
  f_equal. destruct vs1 as [|w1 vs1], vs2 as [|w2 vs2]; try done.
  cbn [String.app] in Heq. injection Heq as Heq.
  apply IH; try done; intros v Hv; [apply Hd1 | apply Hd2]; by right.
Qed.

Lemma one_literal (c : comparison) :
  known (c_operator c) = true → c_operator c ≠ Present → c_operator c ≠ OneOf →
  (takes (c_operator c)).1 ≤ len (c_literals c) →
  (0 < (takes (c_operator c)).2 → len (c_literals c) ≤ (takes (c_operator c)).2) →
  ∃ v, c_literals c = [v].
Proof.
  intros Hk Hp Ho Hmin Hmax. assert (takes (c_operator c) = (1, 1)) as Ht by (by destruct (c_operator c)).
  rewrite Ht in *. cbn in *. unfold len in *. specialize (Hmax ltac:(lia)).
  destruct (c_literals c) as [|v [|w ls]]; cbn in *; [lia | eauto | lia].
Qed.

(** Two compiled comparisons written alike are the same question: they read one
    field and answer alike whatever it holds. *)
Lemma written_alike c1 c2 :
  compiled c1 → compiled c2 → comparison_String c1 = comparison_String c2 →
  c_path c1 = c_path c2 ∧ ∀ v, answered c1 v = answered c2 v.
Proof.
  intros [Hp1 Hmem1 Hk1 [Hmin1 Hmax1] (leaf & Hl1 & _ & Hd1)] [Hp2 Hmem2 Hk2 [Hmin2 Hmax2] (leaf2 & Hl2 & _ & Hd2)] Heq.
  unfold comparison_String in Heq.
  assert (∀ c t, (c_field c +:+ " " +:+ Operator_String (c_operator c)) +:+ t
    = c_field c +:+ String " " (Operator_String (c_operator c) +:+ t)) as Hassoc
    by (intros; by rewrite !string_app_assoc).
  assert (∀ c, c_field c +:+ " " +:+ Operator_String (c_operator c)
    = c_field c +:+ String " " (Operator_String (c_operator c))) as Hassoc' by done.
  rewrite !Hassoc, ?Hassoc' in Heq. clear Hassoc Hassoc'.
  pose proof (field_plain _ _ Hp1) as Hf1. pose proof (field_plain _ _ Hp2) as Hf2.
  assert (c_field c1 = c_field c2 ∧ c_operator c1 = c_operator c2 ∧
    (c_operator c1 ≠ Present → c_operator c1 ≠ OneOf →
      default "" (head (wrote c1 <$> c_literals c1)) = default "" (head (wrote c2 <$> c_literals c2)))
    ∧ (c_operator c1 = OneOf → Join ", " (wrote c1 <$> c_literals c1) +:+ "]"
        = Join ", " (wrote c2 <$> c_literals c2) +:+ "]")) as (Hf & Ho & Hone & Hmany).
  { destruct (c_operator c1), (c_operator c2); try done;
      apply split_at in Heq as [Hf Ht]; try done;
      cbn [Operator_String String.app] in Ht; try discriminate Ht;
      split_and!; try done; intros; first [done | by injection Ht]. }
  rewrite <- Hf, Hp1 in Hp2. injection Hp2 as Hpath. rewrite <- Hpath in Hl2.
  rewrite Hl1 in Hl2. injection Hl2 as <-.
  destruct (leaf_declared _ _ _ Hp1 Hl1) as [Hm Hk]. split; [done |].
  assert (last (c_path c2) = Some leaf) as Hl2 by (by rewrite <- Hpath).
  destruct (decide (c_operator c1 = Present)) as [H2|H2].
  { intros [v|]; [| done]. unfold answered. by rewrite <- Ho, !decide_True. }
  assert (c_literals c1 = c_literals c2) as Hlit.
  { destruct (decide (c_operator c1 = OneOf)) as [H1|H1].
    - rewrite <- Ho, H1 in *. cbn in Hmin1, Hmin2.
      apply (joined_split c1 c2 leaf); auto; intros He; rewrite He in *; unfold len in *; cbn in *; lia.
    - destruct (one_literal c1) as [v1 Hv1]; try done.
      destruct (one_literal c2) as [v2 Hv2]; try congruence; try done.
      specialize (Hone H2 H1). rewrite Hv1, Hv2 in *. cbn in Hone. f_equal.
      destruct (wrote_split c1 c2 leaf v1 v2 "" "") as [-> _]; try done;
        [apply Hd1; left | apply Hd2; left | by rewrite Hone]. }
  intros [v|]; [| done]. unfold answered. rewrite <- Ho, !decide_False by done.
  unfold answers. rewrite <- Ho, Hlit. destruct (c_operator c1) eqn:H1; try done.
  by rewrite Hmem1, Hmem2, Hlit by congruence.
Qed.
End written.

(** * Refusing only what cannot be

    The check refuses a rule only when a conjunction in it can hold of no event
    or a disjunction in it holds of every one: what it lets through may still be
    empty, and what it refuses always is. *)


Section sound.
Context {M : Type} `{CT : Contract, CL : !ContractLaws, MS : Messages M, ML : !MessageLaws M,
  FM : Formats, FL : !FormatLaws}.

Lemma read_kind (m : M) path v leaf :
  read m path = Some v → last path = Some leaf → is_Some (kind_of_leaf leaf) →
  of_kind (fd_kind leaf) v.
Proof.
  intros Hr Hl Hk. revert m Hr Hl. induction path as [|f [|g path] IH]; intros m Hr Hl; [done | |].
  - cbn in Hr, Hl. simplify_eq. destruct (Has m leaf) eqn:Hh; [| done]. simplify_eq.
    by apply get_kind.
  - change (last (f :: g :: path)) with (last (g :: path)) in Hl.
    cbn [read] in Hr. destruct (Has m f); [| done]. by eapply IH.
Qed.

(** ** Equal values answer alike *)

Lemma iface_eqb_cases x l : iface_eqb x l = true →
  x = l ∨ fkey (numberIn x) = fkey (numberIn l) ∧ is_nan (numberIn x) = false
          ∧ (∀ y, iface_eqb x y = iface_eqb l y) ∧ (∀ s, x ≠ PString s) ∧ (∀ s, l ≠ PString s).
Proof.
  destruct x, l; cbn; try done; intros He; to_prop; subst; auto;
    apply SFeqb_true in He as (Hx & Hl & Hk); right; split_and!; try done;
    intros [] ; cbn; try done; by apply SF_congruence.
Qed.

Lemma iface_eqb_sym x l : iface_eqb x l = iface_eqb l x.
Proof.
  destruct x, l; cbn; try done; try apply bool_decide_ext; try (split; done); try apply Z.eqb_sym;
    apply bool_iff; rewrite !SFeqb_true; naive_solver.
Qed.

Lemma iface_eqb_trans x y z : iface_eqb x y = true → iface_eqb y z = true → iface_eqb x z = true.
Proof.
  intros Hxy Hyz. destruct (iface_eqb_cases x y Hxy) as [->|(_ & _ & Hc & _)]; [done |].
  by rewrite Hc.
Qed.

(** The value a text question is put to is text. *)
Definition fit (c : comparison) (x : PValue) : Prop :=
  text_operator (c_operator c) = true → ∃ s, x = PString s.

Lemma answers_congruence c x l :
  iface_eqb x l = true → fit c x → answers x c = answers l c.
Proof.
  intros He Hfit. destruct (iface_eqb_cases x l He) as [->|(Hk & Hn & Hc & Hx & _)]; [done |].
  assert (text_operator (c_operator c) = false) as Ht.
  { destruct (text_operator (c_operator c)) eqn:Ht; [| done].
    destruct (Hfit Ht) as [s ->]. by destruct (Hx s). }
  assert (existsb (iface_eqb x) (c_member c) = existsb (iface_eqb l) (c_member c)) as Hm.
  { induction (c_member c) as [|y ys IH]; cbn; [done |]. by rewrite Hc, IH. }
  pose proof (is_nan_key _ _ Hk) as Hnn. unfold answers.
  destruct (c_literals c) as [|against ls]; [by destruct (c_operator c); rewrite ?Hm |].
  destruct (SF_congruence _ _ (numberIn against) Hk) as (H1 & H2 & H3 & H4 & _).
  destruct (c_operator c); try discriminate Ht; rewrite ?Hm, ?Hc, ?Hnn, ?H1, ?H2, ?H3, ?H4; done.
Qed.

(** ** A question of a value *)

Definition question_holds (q : asked) (v : option PValue) : bool :=
  if a_negated q then negb (answered (a_compare q) v) else answered (a_compare q) v.

Lemma affirmed q v : question_holds q v = true → a_negated q = false →
  c_operator (a_compare q) ≠ Present →
  ∃ x, v = Some x ∧ answers x (a_compare q) = (true, true).
Proof.
  unfold question_holds. intros Hq Hn Hp. rewrite Hn in Hq. unfold answered in Hq.
  destruct v as [x|]; [| done]. exists x. split; [done |]. rewrite decide_False in Hq by done.
  destruct (answers x (a_compare q)) as [[] []]; done.
Qed.

Lemma satisfies_holds q x :
  question_holds q (Some x) = true → c_operator (a_compare q) ≠ Present → satisfies x q = true.
Proof.
  unfold question_holds, satisfies, answered. intros Hq Hp. rewrite decide_False in Hq by done.
  destruct (answers x (a_compare q)) as [held []], (a_negated q), held; done.
Qed.

(** ** Ranges *)

Lemma within_iff w x : is_nan (numberIn x) = false → within w x = true ↔
  SFltb (numberIn x) (w_low w) = false ∧ SFeqb (numberIn x) (w_low w) && w_lowOpen w = false
  ∧ SFleb (numberIn x) (w_high w) = true ∧ SFeqb (numberIn x) (w_high w) && w_highOpen w = false.
Proof.
  intros Hn. unfold within. rewrite Hn. destruct (SFltb _ _); cbn [orb]; [naive_solver |].
  destruct (SFeqb _ (w_low w) && _); [naive_solver |]. rewrite andb_true_iff, negb_true_iff. naive_solver.
Qed.

Lemma SFltb_false a b : is_nan a = false → is_nan b = false →
  SFltb a b = false ↔ ¬ klt (fkey a) (fkey b).
Proof.
  intros Ha Hb. rewrite <- not_true_iff_false, SFltb_true. naive_solver.
Qed.

Lemma SFeqb_false a b : is_nan a = false → is_nan b = false →
  SFeqb a b = false ↔ fkey a ≠ fkey b.
Proof.
  intros Ha Hb. rewrite <- not_true_iff_false, SFeqb_true. naive_solver.
Qed.

(** A number no lower than the bounds leaves a range that is not empty. *)
Lemma within_nonempty w x : is_nan (numberIn x) = false → within w x = true →
  SFltb (w_high w) (w_low w) || (SFeqb (w_low w) (w_high w) && (w_lowOpen w || w_highOpen w)) = false.
Proof.
  intros Hn (Hlo & Hlo' & Hhi & Hhi')%within_iff; [| done].
  apply SFleb_true in Hhi as (_ & Hnh & Hle). apply orb_false_iff. split.
  - apply not_true_iff_false. intros (_ & Hnl & Hlt)%SFltb_true.
    apply SFltb_false in Hlo; [| done ..].
    destruct (klt_total (fkey (numberIn x)) (fkey (w_low w))) as [|[He|Hgt]]; [done | |].
    + apply Hle. by rewrite He.
    + apply Hle. by eapply klt_trans.
  - apply not_true_iff_false. intros [(Hnl & _ & He)%SFeqb_true Hopen]%andb_true_iff.
    apply SFltb_false in Hlo; [| done ..].
    assert (fkey (numberIn x) = fkey (w_low w)) as Hx.
    { destruct (klt_total (fkey (numberIn x)) (fkey (w_low w))) as [|[|Hgt]]; [done | done |].
      rewrite He in Hgt. done. }
    assert (SFeqb (numberIn x) (w_low w) = true) as H1 by (by apply SFeqb_true).
    assert (SFeqb (numberIn x) (w_high w) = true) as H2 by (apply SFeqb_true; rewrite <- He; done).
    rewrite H1 in Hlo'. rewrite H2 in Hhi'. cbn in *. by rewrite Hlo', Hhi' in Hopen.
Qed.

Lemma limit_keeps q w x :
  ranged (c_operator (a_compare q)) = true → answers x (a_compare q) = (true, true) →
  is_nan (numberIn x) = false → within w x = true →
  ∃ w', limit q w = Some w' ∧ within w' x = true ∧ w_allowed w' = w_allowed w
        ∧ w_bounded w' = true.
Proof.
  intros Hr Ha Hn Hw. unfold limit. unfold answers in Ha.
  destruct (c_literals (a_compare q)) as [|lit ls]; [by destruct (c_operator (a_compare q)) |].
  set (w1 := match c_operator (a_compare q) with Above => _ | _ => _ end).
  set (w2 := mkWindow _ _ _ _ _ true).
  assert (within w1 x = true ∧ w_allowed w1 = w_allowed w) as [Hw1 Hal].
  { apply within_iff in Hw as (Hlo & Hlo' & Hhi & Hhi'); [| done]. unfold w1.
    destruct (c_operator (a_compare q)); try discriminate Hr; rewrite Hn in Ha; cbn [orb] in Ha;
      destruct (is_nan (numberIn lit)) eqn:Hnl; try discriminate Ha; injection Ha as Ha;
      (match goal with |- context [if ?b then _ else _] => destruct b end;
       [| split; [by apply within_iff | done]]); (split; [| done]); apply within_iff; try done; cbn.
    - apply SFltb_true in Ha as (_ & _ & Ha). split_and!; try done.
      + apply SFltb_false; [done .. |]. intros Hc. by eapply klt_irrefl, klt_trans.
      + rewrite (proj2 (SFeqb_false _ _ Hn Hnl)); [done |]. intros He. rewrite He in Ha. by eapply klt_irrefl.
    - apply SFleb_true in Ha as (_ & _ & Ha). split_and!; try done.
      + by apply SFltb_false.
      + apply andb_false_r.
    - apply SFltb_true in Ha as (_ & _ & Ha). split_and!; try done.
      + apply SFleb_true. split_and!; [done | done |]. intros Hc. by eapply klt_irrefl, klt_trans.
      + rewrite (proj2 (SFeqb_false _ _ Hn Hnl)); [done |]. intros He. rewrite He in Ha. by eapply klt_irrefl.
    - split_and!; try done. apply andb_false_r. }
  assert (within w2 x = true) as Hw2.
  { apply within_iff in Hw1; [| done]. by apply within_iff. }
  exists w2. rewrite (within_nonempty w2 x Hn Hw2). split_and!; [done | done | done | done].
Qed.

Lemma within_congruence w x l : iface_eqb x l = true → within w x = within w l.
Proof.
  intros He. destruct (iface_eqb_cases x l He) as [->|(Hk & Hn & _)]; [done |].
  unfold within. rewrite <- (is_nan_key _ _ Hk).
  destruct (SF_congruence _ _ (w_low w) Hk) as (-> & _ & _ & _ & -> & _).
  by destruct (SF_congruence _ _ (w_high w) Hk) as (_ & _ & -> & _ & -> & _).
Qed.

(** ** One field *)

(** What the loop of [empty] has established of a value that answers every
    question: it is allowed, it is in range, and it answers the rest. *)
Record inv (v : option PValue) (w : window) (rest : list asked) : Prop := {
  in_allowed : ∀ allowed, w_allowed w = Some allowed →
    ∃ x l, v = Some x ∧ l ∈ allowed ∧ iface_eqb x l = true;
  in_range : ∀ x, v = Some x → is_nan (numberIn x) = false → within w x = true;
  in_bounded : w_bounded w = true → ∃ x, v = Some x ∧ is_nan (numberIn x) = false;
  in_rest : ∀ q, q ∈ rest → question_holds q v = true ∧ c_operator (a_compare q) ≠ Present;
}.

Lemma allow_keeps q w v rest :
  inv v w rest → a_negated q = false → question_holds q v = true →
  c_operator (a_compare q) = Equals ∨ c_operator (a_compare q) = OneOf →
  (c_operator (a_compare q) = OneOf → c_member (a_compare q) = c_literals (a_compare q)) →
  ∃ w', allow q w = Some w' ∧ inv v w' rest.
Proof.
  intros Hinv Hn Hq Hop Hmem.
  destruct (affirmed q v Hq Hn) as (x & -> & Ha); [destruct Hop as [-> | ->]; done |].
  assert (∃ l, l ∈ c_literals (a_compare q) ∧ iface_eqb x l = true) as (l & Hl & Hxl).
  { unfold answers in Ha. destruct Hop as [Hop|Hop]; rewrite Hop in Ha.
    - destruct (c_literals (a_compare q)) as [|l ls]; [done |]. exists l. split; [left |]. by injection Ha.
    - rewrite Hmem in Ha by done. destruct (existsb _ _) eqn:He; [| destruct (c_literals (a_compare q)); done].
      apply existsb_exists in He as (l & Hl & Hxl). exists l. split; [by apply list_elem_of_In | done]. }
  unfold allow. destruct (w_allowed w) as [allowed|] eqn:Hall.
  - destruct (in_allowed _ _ _ Hinv allowed Hall) as (x' & l' & [= <-] & Hl' & Hxl').
    set (kept := List.filter _ _).
    assert (l ∈ kept) as Hk.
    { apply list_elem_of_In, filter_In. split; [by apply list_elem_of_In |].
      apply existsb_exists. exists l'. split; [by apply list_elem_of_In |].
      eapply iface_eqb_trans; [rewrite iface_eqb_sym |]; done. }
    assert ((len kept =? 0) = false) as ->.
    { apply terms_some. intros He. rewrite He in Hk. by apply elem_of_nil in Hk. }
    eexists. split; [done |]. destruct Hinv. split; try done.
    cbn. intros ? [= <-]. eauto.
  - eexists. split; [done |]. destruct Hinv. split; try done.
    cbn. intros ? [= <-]. eauto.
Qed.

Lemma clash_false q against v :
  question_holds q v = true → question_holds against v = true → a_negated q = false →
  clash q against = false.
Proof.
  intros Hq Hg Hn. unfold clash.
  destruct (a_negated against) eqn:Hna; [done |]. cbn [orb].
  destruct (bool_decide _) eqn:Hop; cbn [negb]; [| done]. to_prop.
  destruct (decide (text_operator (c_operator (a_compare q)) = true)) as [Ht|Ht];
    [| by destruct (c_operator (a_compare q))].
  destruct (affirmed q v Hq Hn) as (x & -> & Ha); [by intros He; rewrite He in Ht |].
  destruct (affirmed against _ Hg Hna) as (x' & [= <-] & Ha'); [rewrite Hop; by intros He; rewrite He in Ht |].
  unfold answers in Ha, Ha'. rewrite Hop in Ha'. unfold first_string.
  destruct (c_literals (a_compare q)) as [|l ls]; [by destruct (c_operator (a_compare q)) |].
  destruct (c_literals (a_compare against)) as [|l' ls']; [by destruct (c_operator (a_compare q)) |].
  destruct (c_operator (a_compare q)); try done; injection Ha as Ha; injection Ha' as Ha'.
  - destruct (HasPrefix_compare _ _ _ Ha Ha') as [-> | ->]; [done | apply andb_false_r].
  - destruct (HasSuffix_compare _ _ _ Ha Ha') as [-> | ->]; [done | apply andb_false_r].
Qed.

Lemma conflicting_false rest v :
  (∀ q, q ∈ rest → question_holds q v = true) → conflicting rest = false.
Proof.
  induction rest as [|q rest IH]; intros Hall; [done |]. cbn [conflicting].
  rewrite IH by (intros; apply Hall; by right). rewrite orb_false_r.
  destruct (a_negated q) eqn:Hn; [done |]. apply not_true_iff_false.
  intros (g & Hg & Hc)%existsb_exists. apply list_elem_of_In in Hg.
  rewrite (clash_false q g v) in Hc; [done | apply Hall; left | apply Hall; by right | done].
Qed.

Lemma leaves_something v w rest :
  inv v w rest → (∀ q x, q ∈ rest → v = Some x → fit (a_compare q) x) →
  leaves_nothing w rest = false.
Proof.
  intros Hinv Hfit. unfold leaves_nothing. destruct (w_allowed w) as [allowed|] eqn:Hall.
  - destruct (in_allowed _ _ _ Hinv allowed Hall) as (x & l & -> & Hl & Hxl).
    apply orb_false_iff. split.
    + destruct (w_bounded w) eqn:Hb; [| done]. cbn.
      destruct (in_bounded _ _ _ Hinv Hb) as (x' & [= <-] & Hn). apply negb_false_iff, existsb_exists.
      exists l. split; [by apply list_elem_of_In |]. rewrite <- (within_congruence w x l Hxl).
      by apply (in_range _ _ _ Hinv).
    + apply not_true_iff_false. intros (q & Hq & Hno)%existsb_exists. apply list_elem_of_In in Hq.
      apply negb_true_iff, not_true_iff_false in Hno. apply Hno, existsb_exists.
      exists l. split; [by apply list_elem_of_In |].
      destruct (in_rest _ _ _ Hinv q Hq) as [Hh Hp]. pose proof (satisfies_holds q x Hh Hp) as Hs.
      unfold satisfies in *. by rewrite <- (answers_congruence _ x l Hxl (Hfit q x Hq eq_refl)).
  - apply (conflicting_false rest v). intros q Hq. by apply (in_rest _ _ _ Hinv).
Qed.

Lemma empty_from_sound v w rest questions :
  inv v w rest →
  (∀ q, q ∈ rest ++ questions → question_holds q v = true
     ∧ (c_operator (a_compare q) = OneOf → c_member (a_compare q) = c_literals (a_compare q))
     ∧ (∀ x, v = Some x → fit (a_compare q) x)) →
  empty_from w rest questions = false.
Proof.
  revert w rest. induction questions as [|q questions IH]; intros w rest Hinv Hall; cbn [empty_from].
  { apply (leaves_something v); [done |]. intros q x Hq. apply Hall. rewrite app_nil_r. done. }
  destruct (Hall q) as (Hq & Hm & _); [rewrite elem_of_app; right; left |].
  assert (∀ q', q' ∈ rest ++ questions → q' ∈ rest ++ q :: questions) as Hsub
    by (intros q'; rewrite !elem_of_app, elem_of_cons; naive_solver).
  assert (∀ q', q' ∈ (rest ++ [q]) ++ questions → q' ∈ rest ++ q :: questions) as Hsub'
    by (intros q'; by rewrite <- app_assoc).
  case_decide as Hp; [apply IH; auto |].
  assert (inv v w (rest ++ [q])) as Hinv'.
  { destruct Hinv as [? ? ? Hr]. split; try done.
    intros q' [|Hq']%elem_of_app; [by apply Hr |]. apply list_elem_of_singleton in Hq' as ->. done. }
  destruct (a_negated q) eqn:Hn; [apply IH; auto |].
  destruct (bool_decide (c_operator (a_compare q) = Equals)
            || bool_decide (c_operator (a_compare q) = OneOf)) eqn:Heq.
  - destruct (allow_keeps q w v rest) as (w' & -> & Hw'); try done; [| apply IH; auto].
    apply orb_true_iff in Heq as [|]; to_prop; auto.
  - destruct (ranged (c_operator (a_compare q))) eqn:Hr; [| apply IH; auto].
    destruct (affirmed q v Hq Hn Hp) as (x & -> & Ha).
    assert (is_nan (numberIn x) = false) as Hnx.
    { unfold answers in Ha. destruct (c_literals (a_compare q)); destruct (c_operator (a_compare q)); try done;
        by destruct (is_nan (numberIn x)). }
    destruct (limit_keeps q w x Hr Ha Hnx) as (w' & -> & Hw' & Hall' & Hb');
      [by apply (in_range _ _ _ Hinv) |].
    apply IH; [| auto]. destruct Hinv as [Hi1 Hi2 Hi3 Hi4]. split; try done.
    + rewrite Hall'. done.
    + intros ? [= <-]. done.
    + intros _. eauto.
Qed.

Lemma inv_start v : inv v open_window [].
Proof.
  split; try done.
  - intros x _ Hn. apply within_iff; [done |]. cbn.
    destruct (numberIn x) as [|[]| |[]]; done.
  - by intros q ?%elem_of_nil.
Qed.

(** ** The questions of a node *)

Definition asked_truth (q : asked) (record : M) : bool :=
  question_holds q (read record (c_path (a_compare q))).

Lemma directly_conjunctive term record : truth term record = true →
  ∀ q, q ∈ directly_of true term → asked_truth q record = true.
Proof.
  induction term as [c|ts IH|ts IH|t IH] using node_rect'; intros Ht q Hq; cbn in Ht, Hq.
  - apply list_elem_of_singleton in Hq as ->. done.
  - apply list_elem_of_bind in Hq as (t & Hq & Hin). rewrite forallb_forall in Ht.
    rewrite Forall_forall in IH. apply (IH t Hin); [| done]. by apply Ht, list_elem_of_In.
  - by apply elem_of_nil in Hq.
  - destruct t; try by apply elem_of_nil in Hq. apply list_elem_of_singleton in Hq as ->. done.
Qed.

Lemma directly_disjunctive term record : truth term record = false →
  ∀ q, q ∈ directly_of false term → asked_truth q record = false.
Proof.
  induction term as [c|ts IH|ts IH|t IH] using node_rect'; intros Ht q Hq; cbn in Ht, Hq.
  - apply list_elem_of_singleton in Hq as ->. done.
  - by apply elem_of_nil in Hq.
  - apply list_elem_of_bind in Hq as (t & Hq & Hin).
    rewrite Forall_forall in IH. apply (IH t Hin); [| done].
    destruct (truth t record) eqn:Htt; [| done].
    rewrite <- not_true_iff_false, existsb_exists in Ht. destruct Ht. exists t.
    split; [by apply list_elem_of_In | done].
  - destruct t; try by apply elem_of_nil in Hq. apply list_elem_of_singleton in Hq as ->. done.
Qed.

(** Every question asked directly is a comparison of the node. *)
Lemma directly_leaves b term q neg : q ∈ directly_of b term →
  ∃ neg', (a_compare q, neg') ∈ leaves term neg.
Proof.
  revert neg. induction term as [c|ts IH|ts IH|t IH] using node_rect'; intros neg Hq; cbn in Hq.
  - apply list_elem_of_singleton in Hq as ->. exists neg. left.
  - destruct b; [| by apply elem_of_nil in Hq].
    apply list_elem_of_bind in Hq as (t & Hq & Hin). rewrite Forall_forall in IH.
    destruct (IH t Hin neg Hq) as [neg' Hl]. exists neg'. cbn. apply list_elem_of_bind. eauto.
  - destruct b; [by apply elem_of_nil in Hq |].
    apply list_elem_of_bind in Hq as (t & Hq & Hin). rewrite Forall_forall in IH.
    destruct (IH t Hin neg Hq) as [neg' Hl]. exists neg'. cbn. apply list_elem_of_bind. eauto.
  - destruct t; try by apply elem_of_nil in Hq. apply list_elem_of_singleton in Hq as ->.
    exists (negb neg). left.
Qed.

(** ** The two refusals *)

Lemma opposed_from_spec polarity questions :
  opposed_from polarity questions = true →
  (∃ q negated, q ∈ questions ∧ polarity !! comparison_String (a_compare q) = Some negated
                ∧ negated ≠ a_negated q)
  ∨ ∃ q1 q2, q1 ∈ questions ∧ q2 ∈ questions
      ∧ comparison_String (a_compare q1) = comparison_String (a_compare q2)
      ∧ a_negated q1 ≠ a_negated q2.
Proof.
  revert polarity. induction questions as [|q questions IH]; intros polarity Ho; [done |].
  cbn [opposed_from] in Ho.
  assert (∀ q', q' ∈ questions → q' ∈ q :: questions) as Hr by (intros; by right).
  assert (opposed_from (<[comparison_String (a_compare q) := a_negated q]> polarity) questions = true →
    (∃ q0 negated, q0 ∈ q :: questions ∧ polarity !! comparison_String (a_compare q0) = Some negated
                ∧ negated ≠ a_negated q0)
    ∨ ∃ q1 q2, q1 ∈ q :: questions ∧ q2 ∈ q :: questions
      ∧ comparison_String (a_compare q1) = comparison_String (a_compare q2)
      ∧ a_negated q1 ≠ a_negated q2) as Hnext.
  { intros [(q' & negated & Hin & Hl & Hne)|(q1 & q2 & ? & ? & ? & ?)]%IH; [| right; eauto 8].
    rewrite lookup_insert in Hl. case_decide as He; [| left; eauto 8].
    injection Hl as <-. right. exists q, q'. split_and!; [left | by right | done | done]. }
  destruct (polarity !! comparison_String (a_compare q)) as [negated|] eqn:Hl; [| by apply Hnext].
  destruct (negb (eqb negated (a_negated q))) eqn:He; [| by apply Hnext].
  left. exists q, negated. split_and!; [left | done |]. to_prop. by apply eqb_false_iff.
Qed.

Lemma opposed_spec questions : opposed questions = true →
  ∃ q1 q2, q1 ∈ questions ∧ q2 ∈ questions
    ∧ comparison_String (a_compare q1) = comparison_String (a_compare q2)
    ∧ a_negated q1 ≠ a_negated q2.
Proof.
  intros [(q & negated & _ & Hl & _)|?]%opposed_from_spec; [by rewrite lookup_empty in Hl | done].
Qed.

(** Opposed questions answer oppositely, so no event answers yes, or no, to all. *)
Lemma opposed_sound questions record b :
  (∀ q, q ∈ questions → compiled (a_compare q)) →
  (∀ q, q ∈ questions → asked_truth q record = b) → opposed questions = false.
Proof.
  intros Hc Hall. apply not_true_iff_false. intros (q1 & q2 & H1 & H2 & Hs & Hn)%opposed_spec.
  destruct (written_alike _ _ (Hc q1 H1) (Hc q2 H2) Hs) as [Hp Ha].
  pose proof (Hall q1 H1) as Ht1. pose proof (Hall q2 H2) as Ht2.
  unfold asked_truth, question_holds in *. rewrite Hp, Ha in Ht1.
  destruct (a_negated q1), (a_negated q2), (answered (a_compare q2) _); naive_solver.
Qed.

Lemma narrowed_sound questions record :
  (∀ q, q ∈ questions → compiled (a_compare q)) →
  (∀ q, q ∈ questions → asked_truth q record = true) → narrowed questions = false.
Proof.
  intros Hc Hall. apply not_true_iff_false. unfold narrowed.
  intros (field & _ & He)%existsb_exists.
  set (group := List.filter _ questions) in He.
  assert (∀ q, q ∈ group → q ∈ questions ∧ c_field (a_compare q) = field) as Hg.
  { intros q Hq%list_elem_of_In. apply filter_In in Hq as [Hq Hf]. to_prop.
    split; [by apply list_elem_of_In | done]. }
  destruct (pathOf field) as [path|] eqn:Hp.
  2: { destruct group as [|q grp] eqn:Hgr; [done |].
       destruct (Hg q) as [Hq Hf]; [left |]. apply Hc in Hq as [Hq _ _ _ _]. congruence. }
  assert (∀ q, q ∈ group → c_path (a_compare q) = path) as Hpath.
  { intros q Hq. destruct (Hg q Hq) as [Hq' <-]. apply Hc in Hq' as [Hq' _ _ _ _]. congruence. }
  unfold empty in He. rewrite (empty_from_sound (read record path) open_window [] group) in He;
    [done | apply inv_start |].
  intros q Hq. cbn in Hq. destruct (Hg q Hq) as [Hq' _]. specialize (Hpath q Hq).
  split_and!.
  - specialize (Hall q Hq'). unfold asked_truth in Hall. by rewrite Hpath in Hall.
  - by apply Hc.
  - intros x Hx Ht. destruct (Hc q Hq') as [_ _ _ _ (leaf & Hl & Hk & _)]. rewrite Hpath in Hl.
    pose proof (read_kind record path x leaf Hx Hl) as Hr.
    unfold kind_of_leaf in Hr. rewrite (Hk Ht) in Hr. specialize (Hr ltac:(eauto)).
    destruct x; try done. eauto.
Qed.

(** ** The walk *)

(** Every node of a tree, itself included. *)
Fixpoint nodes (n : node) : list node :=
  n :: match n with
       | Comparison _ => []
       | Conjunction terms | Disjunction terms => terms ≫= nodes
       | Negation term => nodes term
       end.

(** A conjunction no event satisfies, or a disjunction every event does. *)
Definition degenerate (n : node) : Prop :=
  match n with
  | Conjunction _ => ∀ record : M, truth n record = false
  | Disjunction _ => ∀ record : M, truth n record = true
  | _ => False
  end.

Lemma directly_compiled b terms n :
  (n = Conjunction terms ∨ n = Disjunction terms) →
  (∀ c neg, (c, neg) ∈ leaves n false → compiled c) →
  ∀ q, q ∈ directly terms b → compiled (a_compare q).
Proof.
  intros Hn Hc q (t & Hq & Hin)%list_elem_of_bind.
  destruct (directly_leaves b t q false Hq) as [neg Hl]. apply (Hc _ neg).
  destruct Hn as [-> | ->]; cbn; apply list_elem_of_bind; eauto.
Qed.

Lemma each_refused {E A} (f : nat → A → result E unit) l e :
  each f l = Err e → ∃ i x, l !! i = Some x ∧ f i x = Err e.
Proof.
  unfold each. cut (∀ i, each_from f i l = Err e → ∃ j x, l !! j = Some x ∧ f (i + j)%nat x = Err e).
  { intros Hcut He. destruct (Hcut O He) as (j & x & ? & ?). eauto. }
  induction l as [|y l IH]; intros i He; [done |]. cbn in He.
  destruct (f i y) as [[]|e'] eqn:Hf.
  - destruct (IH (S i) He) as (j & x & Hx & Hfx). exists (S j), x. split; [done |].
    by replace (i + S j)%nat with (S i + j)%nat by lia.
  - injection He as ->. exists O, y. split; [done |]. by rewrite Nat.add_0_r.
Qed.

Lemma satisfiable_sound r n v : 
  (∀ c neg b, (c, neg) ∈ leaves n b → compiled c) →
  ∀ part, satisfiable r part n = Err v → ∃ sub, sub ∈ nodes n ∧ degenerate sub.
Proof.
  induction n as [c|ts IH|ts IH|t IH] using node_rect'; intros Hc part Hs; cbn [satisfiable] in Hs.
  - done.
  - assert (∀ q, q ∈ directly ts true → compiled (a_compare q)) as Hq
      by (apply (directly_compiled true ts (Conjunction ts)); eauto).
    assert (∀ record : M, truth (Conjunction ts) record = true →
      ∀ q, q ∈ directly ts true → asked_truth q record = true) as Htr.
    { intros record Ht q (t & Hqt & Hin)%list_elem_of_bind. apply (directly_conjunctive (Conjunction ts)); [done |].
      cbn. apply list_elem_of_bind. eauto. }
    destruct (opposed (directly ts true)) eqn:Ho.
    { exists (Conjunction ts). split; [left |]. intros record. apply not_true_iff_false. intros Ht.
      by rewrite (opposed_sound _ record true Hq (Htr record Ht)) in Ho. }
    destruct (narrowed (directly ts true)) eqn:Hn.
    { exists (Conjunction ts). split; [left |]. intros record. apply not_true_iff_false. intros Ht.
      by rewrite (narrowed_sound _ record Hq (Htr record Ht)) in Hn. }
    apply each_refused in Hs as (i & t & Hi & Hs). apply list_elem_of_lookup_2 in Hi.
    rewrite Forall_forall in IH. destruct (IH t Hi) with (indexed (part +:+ ".all") i) as (sub & Hsub & Hd); [| done |].
    + intros c neg b Hl. apply (Hc c neg b). cbn. apply list_elem_of_bind. eauto.
    + exists sub. split; [| done]. right. apply list_elem_of_bind. eauto.
  - assert (∀ q, q ∈ directly ts false → compiled (a_compare q)) as Hq
      by (apply (directly_compiled false ts (Disjunction ts)); eauto).
    destruct (opposed (directly ts false)) eqn:Ho.
    { exists (Disjunction ts). split; [left |]. intros record. apply not_false_iff_true. intros Ht.
      rewrite (opposed_sound _ record false Hq) in Ho; [done |].
      intros q (t & Hqt & Hin)%list_elem_of_bind. apply (directly_disjunctive (Disjunction ts)); [done |].
      cbn. apply list_elem_of_bind. eauto. }
    apply each_refused in Hs as (i & t & Hi & Hs). apply list_elem_of_lookup_2 in Hi.
    rewrite Forall_forall in IH. destruct (IH t Hi) with (indexed (part +:+ ".any") i) as (sub & Hsub & Hd); [| done |].
    + intros c neg b Hl. apply (Hc c neg b). cbn. apply list_elem_of_bind. eauto.
    + exists sub. split; [| done]. right. apply list_elem_of_bind. eauto.
  - destruct (IH ltac:(intros c neg b Hl; apply (Hc c neg (negb b)); cbn; by rewrite negb_involutive) _ Hs)
      as (sub & Hsub & Hd).
    exists sub. split; [by right | done].
Qed.

(** C8. The check refuses only what cannot be: a validated expression it refuses
    holds a conjunction no event satisfies or a disjunction every event does.
    Whatever cannot be decided is let through, and nothing that could match is
    refused for being a contradiction. *)
Theorem a_refused_rule_is_degenerate r e part n fields v :
  validateExpression r part e 0 = Ok tt → compile r part e ∅ = Ok (n, fields) →
  satisfiable r part n = Err v →
  ∃ sub, sub ∈ nodes n ∧ degenerate sub.
Proof.
  intros Hv%validateExpression_spec Hc Hs.
  pose proof (compile_spec (M := M) r _ e eq_refl 0 Hv part ∅) as Hspec. rewrite Hc in Hspec.
  destruct Hspec as (Hcomp & _ & _). by eapply satisfiable_sound.
Qed.
End sound.
