(* ===== verification/RuleWire.v ===== *)
(** * Programs: a written rule, compiled (detection/compile.go)

    [Compile] as a whole: validation, the tree of the match or of each stage with
    the contradictions it is refused for, the fields read, the fields grouped by,
    and the weight of the heaviest detection it could make. That weight is
    [proto.Size] of a message, so what weighs a program is a parameter. *)

From Stdlib Require Import ZArith Lia Ascii Floats.SpecFloat.
From stdpp Require Import base tactics option gmap strings pretty sorting numbers list.
From S2P Require Import Prelude Text Rule Contract Validate WellFormed Compile CompileProps Contradiction.


Definition MaxDetectionBytes : Z := 262144.

(** ** Writing a program out *)

Definition Program_String `{Formats} (p : Program) : string :=
  match p_root p with
  | Some root => node_String root
  | None =>
      "[" +:+ Join " then " ((λ stage, st_name stage +:+ ": " +:+ node_String (st_root stage)) <$> p_stages p) +:+ "]"
  end.

(** ** Compiling a rule *)

Section program.
Context `{Contract, Formats}.
Context (url_parse : string → option (string * string)) (Heaviest : Program → Z).

Fixpoint compileStages (r : Rule) (index : nat) (stages : list Stage) (read : gset Field)
    : result Violation (list staged * gset Field) :=
  match stages with
  | [] => Ok ([], read)
  | stage :: stages =>
      let where_ := indexed "sequence.stages" index +:+ ".match" in
      match compile r where_ (stage_match stage) read with
      | Err e => Err e
      | Ok (root, read) =>
          match satisfiable r where_ root with
          | Err e => Err e
          | Ok _ =>
              match compileStages r (S index) stages read with
              | Err e => Err e
              | Ok (rest, read) => Ok (mkStaged (stage_name stage) root :: rest, read)
              end
          end
      end
  end.

Definition compileMatching (r : Rule) (read : gset Field)
    : result Violation (option node * list staged * gset Field) :=
  if negb (Correlates (rule_sequence r)) then
    match compile r "match" (rule_match r) read with
    | Err e => Err e
    | Ok (root, read) =>
        match satisfiable r "match" root with
        | Err e => Err e
        | Ok _ => Ok (Some root, [], read)
        end
    end
  else match compileStages r 0 (seq_stages (rule_sequence r)) read with
       | Err e => Err e
       | Ok (stages, read) => Ok (None, stages, read)
       end.

Definition CompileRule (r : Rule) : result Violation Program :=
  match Validate url_parse r with
  | Err e => Err e
  | Ok _ =>
      match compileMatching r ∅ with
      | Err e => Err e
      | Ok (root, stages, read) =>
          match group r with
          | Err e => Err e
          | Ok grouped =>
              let program := mkProgram r root stages (sort_strings (elements read)) grouped in
              if MaxDetectionBytes <? Heaviest program
              then Err (violation r (if Correlates (rule_sequence r) then "sequence" else "match") TooHeavy)
              else Ok program
          end
      end
  end.

(** ** What compiling keeps *)

Lemma CompileRule_rule r p : CompileRule r = Ok p → p_rule p = r ∧ Validate url_parse r = Ok tt.
Proof.
  unfold CompileRule. destruct (Validate url_parse r) as [[]|]; [| done].
  destruct (compileMatching r ∅) as [[[root stages] read]|]; [| done].
  destruct (group r) as [grouped|]; [| done]. cbv zeta.
  destruct (MaxDetectionBytes <? _); [done |]. by intros [= <-].
Qed.
End program.

(** * Rules on the wire (ruleset/rule.go)

    A published rule as the contract carries it, with its cases, and both
    directions of the translation. A nil message and one that carries nothing a
    build can read are told apart where the source does; what a duration field
    holds is the duration it answers with, [None] when it is not set. *)


(** ** Cases (detection/check.go) *)

Inductive Expectation := ExpectsMatch | ExpectsNoMatch | OtherExpectation (name : string).
#[global] Instance Expectation_eq_dec : EqDecision Expectation.
Proof. solve_decision. Defined.

(** A severity a case does not ask about is the empty string. *)
Definition no_severity : Severity := OtherSeverity "".

Record Case := mkCase {
  case_name : string;
  case_description : string;
  case_expect : Expectation;
  case_event : gmap Field Value;
  case_evidence : list Field;
  case_severity : Severity;
}.

(** ** Messages *)

Inductive WireStatus :=
| STATUS_UNSPECIFIED | STATUS_DRAFT | STATUS_ACTIVE | STATUS_DISABLED | STATUS_DEPRECATED
| STATUS_OTHER (number : Z).
#[global] Instance WireStatus_eq_dec : EqDecision WireStatus.
Proof. solve_decision. Defined.

Inductive WireExpectation :=
| EXPECTATION_UNSPECIFIED | EXPECTATION_MATCH | EXPECTATION_NO_MATCH | EXPECTATION_OTHER (number : Z).
#[global] Instance WireExpectation_eq_dec : EqDecision WireExpectation.
Proof. solve_decision. Defined.

Inductive WireValue := WText (t : string) | WNumber (n : float64) | WTruth (b : bool) | WNoLiteral.

Inductive WireExpression :=
| WPredicate (field operator : string) (values : list WireValue)
| WAll (terms : list WireExpression)
| WAny (terms : list WireExpression)
| WNegated (term : WireExpression)
| WNoTerm
| WNil.

Record WireStage := mkWireStage { ws_name : string; ws_match : WireExpression }.

Record WireSequence := mkWireSequence {
  wq_stages : list WireStage; wq_within : option duration; wq_group_by : list string }.

Record WireCount := mkWireCount {
  wc_at_least : Z; wc_within : option duration; wc_group_by : list string }.

Record WireCase := mkWireCase {
  wk_name : string; wk_description : string; wk_expect : WireExpectation;
  wk_event : gmap string WireValue; wk_evidence : list string; wk_severity : WireSeverity }.

Record WireRule := mkWireRule {
  wr_id : string;
  wr_revision : Z;
  wr_name : string;
  wr_description : string;
  wr_class : EventClass;
  wr_match : WireExpression;
  wr_sequence : option WireSequence;
  wr_severity : WireSeverity;
  wr_status : WireStatus;
  wr_false_positives : string;
  wr_response : string;
  wr_tags : list string;
  wr_references : list string;
  wr_technique : option Technique;
  wr_count : option WireCount;
  wr_source : option Source;
  wr_cases : list WireCase;
}.

Inductive RulesetError :=
| NothingCarried | UndeclaredSeverity | UndeclaredStatus | UndeclaredExpectation
| UnreadableTerm | UnreadableLiteral
| Uncompiled (why : Violation) | ArrivesTwice (id : string)
| Unnamed | Unattributed | Undated | Misnamed | Conflicts (rule : string) (revision : Z)
| UnreadableRecord.

(** ** The maps both ways *)

Definition statuses_wire (s : Status) : WireStatus :=
  match s with
  | Draft => STATUS_DRAFT | Active => STATUS_ACTIVE | Disabled => STATUS_DISABLED
  | Deprecated => STATUS_DEPRECATED | OtherStatus _ => STATUS_UNSPECIFIED
  end.

Definition severities_wire (s : Severity) : WireSeverity := default SEVERITY_UNSPECIFIED (severities s).

Definition expectations_wire (e : Expectation) : WireExpectation :=
  match e with
  | ExpectsMatch => EXPECTATION_MATCH | ExpectsNoMatch => EXPECTATION_NO_MATCH
  | OtherExpectation _ => EXPECTATION_UNSPECIFIED
  end.

Definition severity_read (s : WireSeverity) : option Severity :=
  match s with
  | SEVERITY_LOW => Some Low | SEVERITY_MEDIUM => Some Medium
  | SEVERITY_HIGH => Some High | SEVERITY_CRITICAL => Some Critical | _ => None
  end.

Definition status_read (s : WireStatus) : option Status :=
  match s with
  | STATUS_DRAFT => Some Draft | STATUS_ACTIVE => Some Active | STATUS_DISABLED => Some Disabled
  | STATUS_DEPRECATED => Some Deprecated | _ => None
  end.

Definition expectation_read (e : WireExpectation) : option Expectation :=
  match e with
  | EXPECTATION_MATCH => Some ExpectsMatch | EXPECTATION_NO_MATCH => Some ExpectsNoMatch | _ => None
  end.

(** An operator is its name. *)
Definition OperatorOf (name : string) : Operator :=
  default (Undeclared name)
    (List.find (λ o, bool_decide (Operator_String o = name))
      [Equals; OneOf; Contains; StartsWith; EndsWith; Above; AtLeast; Below; AtMost; Present]).

(** ** Encoding *)

Definition encodeValue (v : Value) : WireValue :=
  match value_kind v with
  | Number => WNumber (value_number v)
  | Truth => WTruth (value_truth v)
  | _ => WText (value_text v)
  end.

Fixpoint encodeExpression (e : Expression) : WireExpression :=
  match e with
  | Pred p => WPredicate (pred_field p) (Operator_String (pred_operator p)) (encodeValue <$> pred_values p)
  | All ts => WAll (encodeExpression <$> ts)
  | Any ts => WAny (encodeExpression <$> ts)
  | Not t => WNegated (encodeExpression t)
  | Missing | Foreign _ => WNil
  end.

Definition encodeSequence (s : Sequence) : option WireSequence :=
  if negb (Correlates s) then None
  else Some (mkWireSequence
    ((λ stage, mkWireStage (stage_name stage) (encodeExpression (stage_match stage))) <$> seq_stages s)
    (Some (seq_within s)) (seq_group_by s)).

Definition encodeCase (c : Case) : WireCase :=
  mkWireCase (case_name c) (case_description c) (expectations_wire (case_expect c))
    (encodeValue <$> case_event c) (case_evidence c) (severities_wire (case_severity c)).

Definition encodeRule (r : Rule) (cases : list Case) : WireRule :=
  {| wr_id := rule_id r;
     wr_revision := wrap_uint 32 (rule_revision r);
     wr_name := rule_name r;
     wr_description := rule_description r;
     wr_class := rule_class r;
     wr_match := encodeExpression (rule_match r);
     wr_sequence := encodeSequence (rule_sequence r);
     wr_severity := severities_wire (rule_severity r);
     wr_status := statuses_wire (rule_status r);
     wr_false_positives := rule_false_positives r;
     wr_response := rule_response r;
     wr_tags := rule_tags r;
     wr_references := rule_references r;
     wr_technique := if technique_empty (rule_technique r) then None else Some (rule_technique r);
     wr_count := if Counts (rule_count r)
       then Some (mkWireCount (wrap_uint 32 (count_at_least (rule_count r)))
                    (Some (count_within (rule_count r))) (count_group_by (rule_count r)))
       else None;
     wr_source := if source_empty (rule_source r) then None else Some (rule_source r);
     wr_cases := encodeCase <$> cases |}.

(** ** Decoding *)

Definition decodeValue (v : WireValue) : result RulesetError Value :=
  match v with
  | WText t => Ok (TextValue t)
  | WNumber n => Ok (NumberValue n)
  | WTruth b => Ok (TruthValue b)
  | WNoLiteral => Err UnreadableLiteral
  end.

Fixpoint all_read {A B} (read : A → result RulesetError B) (l : list A) : result RulesetError (list B) :=
  match l with
  | [] => Ok []
  | x :: l => match read x with
              | Err e => Err e
              | Ok y => match all_read read l with Err e => Err e | Ok ys => Ok (y :: ys) end
              end
  end.

Fixpoint decodeExpression (e : WireExpression) : result RulesetError Expression :=
  let fix decodeTerms (ts : list WireExpression) : result RulesetError (list Expression) :=
    match ts with
    | [] => Ok []
    | t :: ts => match decodeExpression t with
                 | Err e => Err e
                 | Ok t => match decodeTerms ts with Err e => Err e | Ok ts => Ok (t :: ts) end
                 end
    end in
  match e with
  | WPredicate field operator values =>
      match all_read decodeValue values with
      | Err e => Err e
      | Ok values => Ok (Pred (mkPredicate field (OperatorOf operator) values))
      end
  | WAll ts => match decodeTerms ts with Err e => Err e | Ok ts => Ok (All ts) end
  | WAny ts => match decodeTerms ts with Err e => Err e | Ok ts => Ok (Any ts) end
  | WNegated t => match decodeExpression t with Err e => Err e | Ok t => Ok (Not t) end
  | WNoTerm | WNil => Err UnreadableTerm
  end.

Definition decodeStage (s : WireStage) : result RulesetError Stage :=
  match decodeExpression (ws_match s) with
  | Err e => Err e
  | Ok match_ => Ok (mkStage (ws_name s) match_)
  end.

Definition decodeSequence (encoded : option WireSequence) : result RulesetError Sequence :=
  match encoded with
  | None => Ok (mkSequence [] 0 [])
  | Some q =>
      match all_read decodeStage (wq_stages q) with
      | Err e => Err e
      | Ok stages => Ok (mkSequence stages (default 0 (wq_within q)) (wq_group_by q))
      end
  end.

Definition decodeCount (encoded : option WireCount) : Count :=
  match encoded with
  | None => mkCount 0 0 []
  | Some c => mkCount (wc_at_least c) (default 0 (wc_within c)) (wc_group_by c)
  end.

Definition value_read (v : WireValue) : option Value :=
  match decodeValue v with Ok v => Some v | Err _ => None end.

(** The entries of a map are read in any order, and one that cannot be refuses
    the case. *)
Definition decode_event (event : gmap string WireValue) : result RulesetError (gmap Field Value) :=
  if decide (map_Forall (λ _ v, is_Some (value_read v)) event)
  then Ok (omap value_read event) else Err UnreadableLiteral.

Definition decodeCase (c : WireCase) : result RulesetError Case :=
  match expectation_read (wk_expect c) with
  | None => Err UndeclaredExpectation
  | Some expectation =>
      let severity :=
        if decide (wk_severity c = SEVERITY_UNSPECIFIED) then Some no_severity
        else severity_read (wk_severity c) in
      match severity with
      | None => Err UndeclaredSeverity
      | Some severity =>
          match decode_event (wk_event c) with
          | Err e => Err e
          | Ok event =>
              Ok (mkCase (wk_name c) (wk_description c) expectation event (wk_evidence c) severity)
          end
      end
  end.

Definition decodeRule (encoded : option WireRule) : result RulesetError (Rule * list Case) :=
  match encoded with
  | None => Err NothingCarried
  | Some w =>
      match severity_read (wr_severity w) with
      | None => Err UndeclaredSeverity
      | Some severity =>
      match status_read (wr_status w) with
      | None => Err UndeclaredStatus
      | Some status =>
      match (match wr_match w with WNil => Ok Missing | e => decodeExpression e end) with
      | Err e => Err e
      | Ok match_ =>
      match decodeSequence (wr_sequence w) with
      | Err e => Err e
      | Ok sequence =>
      let rule :=
        {| rule_id := wr_id w; rule_revision := wr_revision w; rule_name := wr_name w;
           rule_description := wr_description w; rule_class := wr_class w; rule_match := match_;
           rule_count := decodeCount (wr_count w); rule_sequence := sequence;
           rule_severity := severity; rule_status := status;
           rule_technique := default (mkTechnique "" "" "") (wr_technique w);
           rule_false_positives := wr_false_positives w; rule_response := wr_response w;
           rule_source := default (mkSource "" "") (wr_source w);
           rule_tags := wr_tags w; rule_references := wr_references w |} in
      match all_read decodeCase (wr_cases w) with
      | Err e => Err e
      | Ok cases => Ok (rule, cases)
      end end end end end
  end.

(** ** What a build of rules can hold

    The fields of [detection.Value] are its package's own, so a literal is one of
    the three its constructors make. *)
Definition constructed (v : Value) : Prop :=
  (∃ t, v = TextValue t) ∨ (∃ n, v = NumberValue n) ∨ (∃ b, v = TruthValue b).

Inductive built : Expression → Prop :=
| built_pred p : Forall constructed (pred_values p) → built (Pred p)
| built_all ts : Forall built ts → built (All ts)
| built_any ts : Forall built ts → built (Any ts)
| built_not t : built t → built (Not t)
| built_missing : built Missing.

Definition built_rule (r : Rule) : Prop :=
  built (rule_match r) ∧ Forall (λ s, built (stage_match s)) (seq_stages (rule_sequence r)).

(** A case [Rule.Accepts] would take, as far as its own enumerations go. *)
Definition told_case (c : Case) : Prop :=
  (∀ name, case_expect c ≠ OtherExpectation name)
  ∧ (severities (case_severity c) ≠ None ∨ case_severity c = no_severity)
  ∧ map_Forall (λ _ v, constructed v) (case_event c).

(** ** Reading back *)

Lemma decodeValue_encode v : constructed v → decodeValue (encodeValue v) = Ok v.
Proof. by intros [[t ->]|[[n ->]|[b ->]]]. Qed.

Lemma value_read_encode v : constructed v → value_read (encodeValue v) = Some v.
Proof. intros Hv. unfold value_read. by rewrite decodeValue_encode. Qed.

Lemma all_read_fmap {A B} (read : A → result RulesetError B) (enc : B → A) l :
  Forall (λ x, read (enc x) = Ok x) l → all_read read (enc <$> l) = Ok l.
Proof. induction 1 as [|x l Hx _ IH]; [done |]. cbn. by rewrite Hx, IH. Qed.

Lemma OperatorOf_String o : known o = true → OperatorOf (Operator_String o) = o.
Proof. by destruct o. Qed.

Lemma decodeTerms_all_read ts :
  (fix decodeTerms (ts : list WireExpression) : result RulesetError (list Expression) :=
    match ts with
    | [] => Ok []
    | t :: ts => match decodeExpression t with
                 | Err e => Err e
                 | Ok t => match decodeTerms ts with Err e => Err e | Ok ts => Ok (t :: ts) end
                 end
    end) ts = all_read decodeExpression ts.
Proof. induction ts as [|t ts IH]; [done |]. cbn [all_read]. by rewrite IH. Qed.

Lemma decodeExpression_encode `{Contract} class depth e :
  asks_well class depth e → built e → decodeExpression (encodeExpression e) = Ok e.
Proof.
  revert depth. induction e as [p|ts IH|ts IH|t IH| |n] using Expression_rect'; intros depth Hw Hb;
    inversion Hw; inversion Hb; subst; cbn [encodeExpression decodeExpression].
  - rewrite all_read_fmap by (eapply Forall_impl; [done | apply decodeValue_encode]).
    rewrite OperatorOf_String; [by destruct p |].
    match goal with H : predicate_ok _ _ |- _ => destruct H as (k & _ & _ & Ho & _) end.
    by eapply operator_asks_known.
  - rewrite decodeTerms_all_read, all_read_fmap; [done |]. rewrite Forall_forall in *. naive_solver.
  - rewrite decodeTerms_all_read, all_read_fmap; [done |]. rewrite Forall_forall in *. naive_solver.
  - by erewrite IH.
Qed.

Lemma decodeSequence_encode `{Contract} class s :
  (Correlates s = true → ∀ stage, stage ∈ seq_stages s → asks_well class 0 (stage_match stage)) →
  Forall (λ stage, built (stage_match stage)) (seq_stages s) →
  decodeSequence (encodeSequence s) = Ok s.
Proof.
  intros Hw Hb. unfold encodeSequence. destruct (Correlates s) eqn:Hc; cbn [negb decodeSequence].
  - cbn [wq_stages wq_within wq_group_by default]. rewrite all_read_fmap; [by destruct s |].
    rewrite Forall_forall in *. intros stage Hin. unfold decodeStage. cbn [ws_match ws_name].
    erewrite decodeExpression_encode by eauto. by destruct stage.
  - unfold Correlates in Hc. to_prop. destruct s as [[|] within [|]]; cbn in *; try (unfold len in *; cbn in *; lia).
    repeat f_equal. to_prop. lia.
Qed.

Lemma severity_read_wire s : severities s ≠ None → severity_read (severities_wire s) = Some s.
Proof. by destruct s. Qed.

Lemma status_read_wire s : statuses s = true → status_read (statuses_wire s) = Some s.
Proof. by destruct s. Qed.

Lemma decode_event_encode (event : gmap Field Value) :
  map_Forall (λ _ v, constructed v) event → decode_event (encodeValue <$> event) = Ok event.
Proof.
  intros Hc. unfold decode_event. rewrite decide_True.
  - f_equal. apply map_eq. intros f. rewrite lookup_omap, lookup_fmap.
    destruct (event !! f) as [v|] eqn:Hf; [| done]. cbn. by apply value_read_encode, (Hc f).
  - intros f v (w & <- & Hf)%lookup_fmap_Some. rewrite value_read_encode; [done | by apply (Hc f)].
Qed.

Lemma decodeCase_encode c : told_case c → decodeCase (encodeCase c) = Ok c.
Proof.
  intros (He & Hs & Hv). destruct c as [name desc expect event evidence severity]. cbn in *.
  unfold decodeCase, encodeCase. cbn.
  assert (expectation_read (expectations_wire expect) = Some expect) as ->
    by (destruct expect as [| |n]; [done | done | by destruct (He n)]).
  assert ((if decide (severities_wire severity = SEVERITY_UNSPECIFIED) then Some no_severity
           else severity_read (severities_wire severity)) = Some severity) as ->.
  { destruct Hs as [Hs| ->]; [| done]. by destruct severity. }
  by rewrite decode_event_encode.
Qed.

Lemma decodeCount_encode (c : Count) at_least :
  (Counts c = true → at_least = count_at_least c) →
  decodeCount (if Counts c then Some (mkWireCount at_least (Some (count_within c)) (count_group_by c)) else None) = c.
Proof.
  intros Ha. destruct (Counts c) eqn:Hc; cbn; [rewrite Ha by done; by destruct c |].
  unfold Counts, count_empty in Hc. destruct c as [n w g]. cbn in *. to_prop.
  destruct g; [| unfold len in *; cbn in *; lia]. f_equal; lia.
Qed.

Lemma technique_read t : default (mkTechnique "" "" "") (if technique_empty t then None else Some t) = t.
Proof.
  destruct (technique_empty t) eqn:Ht; [| done]. unfold technique_empty in Ht. to_prop.
  destruct t. cbn in *. naive_solver.
Qed.

Lemma source_read s : default (mkSource "" "") (if source_empty s then None else Some s) = s.
Proof.
  destruct (source_empty s) eqn:Hs; [| done]. unfold source_empty in Hs. to_prop.
  destruct s. cbn in *. naive_solver.
Qed.

Lemma encode_missing e : encodeExpression e = WNil ↔ e = Missing ∨ ∃ n, e = Foreign n.
Proof. destruct e; cbn; naive_solver. Qed.

Lemma decode_match `{Contract} r :
  built (rule_match r) →
  (Correlates (rule_sequence r) = true → rule_match r = Missing) →
  (Correlates (rule_sequence r) = false → asks_well (rule_class r) 0 (rule_match r)) →
  match encodeExpression (rule_match r) with WNil => Ok Missing | e => decodeExpression e end
  = Ok (rule_match r).
Proof.
  intros Hb Hm Hw. destruct (Correlates (rule_sequence r)); [by rewrite Hm |].
  specialize (Hw eq_refl). pose proof (decodeExpression_encode _ _ _ Hw Hb) as Hd.
  destruct (encodeExpression (rule_match r)) eqn:He; [done .. |].
  apply encode_missing in He as [He|[n He]]; rewrite He in Hw; inversion Hw.
Qed.

Lemma rules_decode `{Contract} url_parse r cases :
  Validate url_parse r = Ok tt → - 2 ^ 63 ≤ rule_revision r < 2 ^ 63 → built_rule r → Forall told_case cases →
  decodeRule (Some (encodeRule r cases)) = Ok (r, cases).
Proof.
  intros [_ [Hrev Hrev'] _ _ _ [Hsev Hst] _ _ _ _ _ Hcount Hseq Hmatch]%Validate_spec Hint [Hbm Hbs] Hc.
  unfold decodeRule. cbn [encodeRule wr_severity wr_status wr_match wr_sequence wr_cases wr_id wr_revision
    wr_name wr_description wr_class wr_count wr_technique wr_false_positives wr_response wr_source wr_tags
    wr_references].
  rewrite severity_read_wire, status_read_wire, decode_match by naive_solver.
  rewrite (decodeSequence_encode (rule_class r)) by naive_solver.
  rewrite all_read_fmap by (eapply Forall_impl; [done | apply decodeCase_encode]).
  rewrite decodeCount_encode, technique_read, source_read.
  - rewrite wrap_uint_small; [by destruct r |].
    rewrite wrap_uint_small in Hrev' by lia. lia.
  - intros Hcc. apply wrap_uint_small. destruct (Hcount Hcc) as ([? ?] & _). unfold MinCount, MaxCount in *. lia.
Qed.

(** A validated rule and its cases, as they were written, are what a reader of
    their encoding holds: nothing is lost on the wire, and nothing is refused. *)
Theorem rules_read_back `{Contract} url_parse r cases :
  Validate url_parse r = Ok tt → - 2 ^ 63 ≤ rule_revision r < 2 ^ 63 → built_rule r → Forall told_case cases →
  decodeRule (Some (encodeRule r cases)) = Ok (r, cases).
Proof. apply rules_decode. Qed.
