(* ===== verification/State.v ===== *)
(** * Detection state: bounds, observations and one key's window

    [internal/detectionstate] without the store: bounds.go, observation.go,
    state.go, partitioning.go, and [held] of keeper.go, the window of
    observations one key holds. The store built of these is Keeper.v. *)

From Stdlib Require Import ZArith Lia.
From stdpp Require Import base tactics option gmap strings sorting numbers list.
From S2P Require Import Prelude Text Rule Contract Validate.

(** ** Errors, as the package's sentinels *)

Inductive StateError :=
| ErrNoWindow | ErrNoObservations | ErrNoKeys | ErrNoTenantKeys | ErrNoRuleKeys
| ErrWindowTooLong | ErrUnreachable | ErrUnorderable
| ErrNoEvent | ErrNoAgent | ErrNoTime | ErrValueTooLong
| ErrNoPartitioning | ErrSplitState
| ErrAtCapacity | ErrTenantAtCapacity | ErrRuleAtCapacity | ErrTooLate
| ErrContext.
#[global] Instance StateError_eq_dec : EqDecision StateError.
Proof. solve_decision. Defined.

(** ** Bounds (bounds.go) *)

Definition MaxWindow : duration := MaxWithin.
Definition MaxObservationsPerKey : Z := MaxCount.
Definition MaxKeys : Z := Z.shiftl 1 20.

Record Bounds := mkBounds {
  Window : duration;
  ObservationsPerKey : Z;
  Keys : Z;
  KeysPerTenant : Z;
  KeysPerRule : Z;
}.

Definition bounds_validate (b : Bounds) : result StateError unit :=
  if (Window b <=? 0) || (MaxWindow <? Window b) then Err ErrNoWindow
  else if (ObservationsPerKey b <=? 0) || (MaxObservationsPerKey <? ObservationsPerKey b)
  then Err ErrNoObservations
  else if (Keys b <=? 0) || (MaxKeys <? Keys b) then Err ErrNoKeys
  else if (KeysPerTenant b <=? 0) || (Keys b <? KeysPerTenant b) then Err ErrNoTenantKeys
  else if (KeysPerRule b <=? 0) || (KeysPerTenant b <? KeysPerRule b) then Err ErrNoRuleKeys
  else Ok tt.

Definition bounds_observations (b : Bounds) : Z := Keys b * ObservationsPerKey b.

Definition bounds_admits (b : Bounds) (c : Count) : result StateError unit :=
  if negb (Counts c) then Ok tt
  else if Window b <? count_within c then Err ErrWindowTooLong
  else if ObservationsPerKey b <? count_at_least c then Err ErrUnreachable
  else Ok tt.

Definition bounds_orders (b : Bounds) (s : Sequence) : result StateError unit :=
  if negb (Correlates s) then Ok tt
  else if Window b <? seq_within s then Err ErrWindowTooLong
  else if ObservationsPerKey b <? len (seq_stages s) then Err ErrUnorderable
  else Ok tt.

(** ** Partitioning (partitioning.go) *)

Record Partitioning := mkPartitioning { By : list Field; Sole : bool }.

(** [declared] is [detection.KindOf]'s second answer. *)
Definition partitioning_validate (declared : Field → bool) (p : Partitioning)
    : result StateError unit :=
  if len (By p) =? 0 then Err ErrNoPartitioning
  else each (λ _ f, refuse (negb (declared f)) ErrNoPartitioning) (By p).

Definition colocates (p : Partitioning) (group : list Field) : bool :=
  if len (By p) =? 0 then false
  else forallb (λ keyed, negb (negb (bool_decide (keyed = tenantField))
                              && negb (contains_elem group keyed))) (By p).

Definition partitioning_holds (p : Partitioning) (group : list Field) : bool :=
  Sole p || colocates p group.

Definition partitioning_admits (p : Partitioning) (c : Count) : result StateError unit :=
  if negb (Counts c) || partitioning_holds p (count_group_by c) then Ok tt
  else Err ErrSplitState.

Definition partitioning_orders (p : Partitioning) (s : Sequence) : result StateError unit :=
  if negb (Correlates s) || partitioning_holds p (seq_group_by s) then Ok tt
  else Err ErrSplitState.

(** ** Observations (observation.go) *)

Definition MaxValueLength : Z := 512.

Record EventName := mkEventName { Agent : string; EventID : string }.
#[global] Instance EventName_eq_dec : EqDecision EventName.
Proof. solve_decision. Defined.
#[global] Instance EventName_countable : Countable EventName.
Proof.
  apply (inj_countable' (λ e, (Agent e, EventID e)) (λ p, mkEventName p.1 p.2)).
  by intros [].
Defined.

Record Observation := mkObservation {
  Event : EventName;
  At : instant;
  ObsValue : string;
  Partition : Z;
  Skew : duration;
}.

Definition observation_validate (o : Observation) : result StateError unit :=
  if bool_decide (EventID (Event o) = "") then Err ErrNoEvent
  else if bool_decide (Agent (Event o) = "") then Err ErrNoAgent
  else if is_zero (At o) then Err ErrNoTime
  else if MaxValueLength <? slen (ObsValue o) then Err ErrValueTooLong
  else Ok tt.

(** ** What a key answers (state.go) *)

Record State := mkState {
  First : instant;
  Last : instant;
  StateCount : Z;
  Distinct : Z;
  Saturated : bool;
  Repeated : bool;
}.

Definition state_zero : State := mkState time_zero time_zero 0 0 false false.

Definition state_span (s : State) : duration := time_sub (Last s) (First s).

(** ** One key's window (keeper.go, [held]) *)

Record Key := mkKey { Tenant : string; KeyRule : string; Group : string }.
#[global] Instance Key_eq_dec : EqDecision Key.
Proof. solve_decision. Defined.
#[global] Instance Key_countable : Countable Key.
Proof.
  apply (inj_countable' (λ k, (Tenant k, KeyRule k, Group k))
                        (λ p, mkKey p.1.1 p.1.2 p.2)).
  by intros [].
Defined.

Record held := mkHeld {
  h_key : Key;
  h_window : duration;
  h_seen : list Observation;
  h_ids : gset EventName;
  h_values : gmap string Z;
}.

Definition set_window (w : duration) (h : held) : held :=
  mkHeld (h_key h) w (h_seen h) (h_ids h) (h_values h).

Definition held_last (h : held) : instant :=
  match last (h_seen h) with None => time_zero | Some o => At o end.

Definition held_expires (h : held) : instant := time_add (held_last h) (h_window h).

Definition held_state (h : held) (ceiling : Z) : State :=
  match h_seen h with
  | [] => state_zero
  | o :: _ => {| First := At o; Last := held_last h; StateCount := len (h_seen h);
                 Distinct := Z.of_nat (size (h_values h));
                 Saturated := ceiling <=? len (h_seen h); Repeated := false |}
  end.

(** [sort.Search]: binary search for the smallest index in [0, n) at which [f]
    holds. [fuel] bounds the halvings; [n] is always enough of it. *)
Fixpoint search_go (fuel : nat) (f : nat → bool) (i j : nat) : nat :=
  match fuel with
  | O => i
  | S fuel =>
      if (i <? j)%nat then
        let h := ((i + j) / 2)%nat in
        if negb (f h) then search_go fuel f (S h) j else search_go fuel f i h
      else i
  end.
Definition sort_Search (n : nat) (f : nat → bool) : nat := search_go n f 0 n.

Definition value_added (v : string) (m : gmap string Z) : gmap string Z :=
  if decide (v = "") then m else <[v := default 0 (m !! v) + 1]> m.

Definition value_gone (v : string) (m : gmap string Z) : gmap string Z :=
  if decide (v = "") then m
  else let n := default 0 (m !! v) - 1 in
       if n <=? 0 then delete v m else <[v := n]> m.

Definition held_insert (seen : Observation) (h : held) : held :=
  let at_ := sort_Search (length (h_seen h))
    (λ i, match h_seen h !! i with Some o => after (At o) (At seen) | None => false end) in
  mkHeld (h_key h) (h_window h)
    (take at_ (h_seen h) ++ seen :: drop at_ (h_seen h))
    ({[Event seen]} ∪ h_ids h)
    (value_added (ObsValue seen) (h_values h)).

(** [discard(0)], the only index the source discards at. *)
Definition held_discard (h : held) : held :=
  match h_seen h with
  | [] => h
  | gone :: rest =>
      mkHeld (h_key h) (h_window h) rest (h_ids h ∖ {[Event gone]})
        (value_gone (ObsValue gone) (h_values h))
  end.

(** The two discarding loops of the source, each run while its condition holds;
    every iteration shortens [seen], so its length is fuel enough. *)
Fixpoint discard_while (fuel : nat) (cond : held → bool) (h : held) : held :=
  match fuel with
  | O => h
  | S fuel => if cond h then discard_while fuel cond (held_discard h) else h
  end.

Definition held_expire (cutoff : instant) (h : held) : held :=
  discard_while (length (h_seen h))
    (λ h, match h_seen h with [] => false | o :: _ => before (At o) cutoff end) h.

Definition held_trim (ceiling : Z) (h : held) : held :=
  discard_while (length (h_seen h)) (λ h, ceiling <? len (h_seen h)) h.

(** The window after an observation, with the state and the error [observe]
    returns side by side. *)
Definition held_observe (seen : Observation) (ceiling : Z) (h : held)
    : held * (State * option StateError) :=
  if decide (Event seen ∈ h_ids h) then
    let s := held_state h ceiling in
    (h, (mkState (First s) (Last s) (StateCount s) (Distinct s) (Saturated s) true, None))
  else
    let newest := if after (held_last h) (At seen) then held_last h else At seen in
    let cutoff := time_add newest (- h_window h) in
    let h := held_expire cutoff h in
    if before (At seen) cutoff then (h, (held_state h ceiling, Some ErrTooLate))
    else
      let h := held_trim ceiling (held_insert seen h) in
      (h, (held_state h ceiling, None)).

Definition held_new (key : Key) : held := mkHeld key 0 [] ∅ ∅.

(** ** [sort.Search] finds the first index of a monotone predicate *)

Lemma search_go_spec fuel f i j :
  (j - i ≤ fuel)%nat → (i ≤ j)%nat →
  (∀ a b, (a ≤ b)%nat → (b < j)%nat → f a = true → f b = true) →
  ∀ r, r = search_go fuel f i j →
  (i ≤ r ≤ j)%nat ∧ (∀ a, (i ≤ a < r)%nat → f a = false)
  ∧ (∀ a, (r ≤ a < j)%nat → f a = true).
Proof.
  revert i j. induction fuel as [|fuel IH]; intros i j Hf Hij Hm r ->; cbn [search_go].
  { repeat split; intros; lia. }
  destruct (Nat.ltb_spec i j) as [Hlt|]; [| repeat split; intros; lia].
  assert (i ≤ (i + j) / 2 < j)%nat as Hh.
  { split; [apply Nat.div_le_lower_bound | apply Nat.Div0.div_lt_upper_bound]; lia. }
  set (h := ((i + j) / 2)%nat) in *. clearbody h.
  destruct (f h) eqn:Hfh; cbn [negb].
  - destruct (IH i h ltac:(lia) ltac:(lia)) with (search_go fuel f i h)
      as (Hr & Hlo & Hhi); [intros a b ? ?; apply Hm; lia | done |].
    split; [lia |]. split; [done |]. intros a Ha.
    destruct (decide (a < h)%nat); [apply Hhi; lia | eapply Hm, Hfh; lia].
  - destruct (IH (S h) j ltac:(lia) ltac:(lia)) with (search_go fuel f (S h) j)
      as (Hr & Hlo & Hhi); [done | done |].
    split; [lia |]. split; [| done]. intros a Ha.
    destruct (decide (S h ≤ a)%nat); [apply Hlo; lia |].
    destruct (f a) eqn:Hfa; [| done].
    rewrite (Hm a h) in Hfh; [done | lia | lia | done].
Qed.

Lemma sort_Search_spec n f :
  (∀ a b, (a ≤ b)%nat → (b < n)%nat → f a = true → f b = true) →
  ∀ r, r = sort_Search n f →
  (r ≤ n)%nat ∧ (∀ a, (a < r)%nat → f a = false) ∧ (∀ a, (r ≤ a < n)%nat → f a = true).
Proof.
  intros Hm r Hr. destruct (search_go_spec n f 0 n) with r as (Hb & Hlo & Hhi);
    [lia | lia | done | done |].
  repeat split; [by destruct Hb | | done]. intros a Ha. apply Hlo. lia.
Qed.
