(* ===== verification/Window.v ===== *)
(** * One key's window: what it holds after any delivery

    Theorems about [held] of keeper.go (State.v): its observations stay in event
    time, its identifiers and values mirror them, and what it holds after a
    stream of observations is a function of which observations were delivered,
    whatever their order and however often each was repeated. *)

From Stdlib Require Import ZArith Lia.
From stdpp Require Import base tactics option gmap strings sorting numbers list.
From S2P Require Import Prelude Text Rule Contract Validate State.

(** ** The invariant *)

Definition obs_le (a b : Observation) : Prop := At a ≤ At b.

#[global] Instance obs_le_preorder : PreOrder obs_le.
Proof. split; unfold obs_le; [intros ?; lia | intros ???; lia]. Qed.

(** How many observations carry each value, as [h.values] counts them. *)
Definition tally (l : list Observation) : gmap string Z :=
  foldr (λ o m, value_added (ObsValue o) m) ∅ l.

Record held_ok (ceiling : Z) (h : held) : Prop := {
  ok_sorted : StronglySorted obs_le (h_seen h);
  ok_distinct : NoDup (Event <$> h_seen h);
  ok_ids : h_ids h = list_to_set (Event <$> h_seen h);
  ok_values : h_values h = tally (h_seen h);
  ok_ceiling : len (h_seen h) ≤ ceiling;
}.

(** ** The value counts *)

Lemma value_added_comm v1 v2 m :
  value_added v1 (value_added v2 m) = value_added v2 (value_added v1 m).
Proof.
  unfold value_added. repeat case_decide; try done.
  destruct (decide (v1 = v2)) as [->|Hne]; [done |].
  by rewrite !lookup_insert_ne, insert_insert_ne by done.
Qed.

Lemma tally_perm l1 l2 : l1 ≡ₚ l2 → tally l1 = tally l2.
Proof.
  apply (foldr_permutation_proper (=)); [intros o m1 m2 ->; done |].
  intros o1 o2 m. apply value_added_comm.
Qed.

Lemma tally_positive l v n : tally l !! v = Some n → 0 < n.
Proof.
  revert n. induction l as [|o l IH]; simpl; intros n; [by rewrite lookup_empty |].
  unfold value_added. case_decide; [apply IH |].
  rewrite lookup_insert. case_decide; [| apply IH].
  destruct (tally l !! v) as [k|] eqn:Hk; subst; rewrite Hk; simpl;
    intros [= <-]; [specialize (IH k eq_refl); lia | lia].
Qed.

Lemma value_gone_added v m :
  (∀ n, m !! v = Some n → 0 < n) → value_gone v (value_added v m) = m.
Proof.
  intros Hpos. unfold value_gone, value_added. case_decide as Hv; [done |].
  rewrite lookup_insert_eq; simpl.
  destruct (m !! v) as [n|] eqn:Hm; simpl.
  - specialize (Hpos n eq_refl). rewrite (proj2 (Z.leb_gt _ _)) by lia.
    rewrite insert_insert_eq. apply insert_id. rewrite Hm. f_equal. lia.
  - by rewrite delete_insert_id.
Qed.

(** ** Inserting in event time *)

Fixpoint ins (o : Observation) (l : list Observation) : list Observation :=
  match l with
  | [] => [o]
  | x :: l' => if At x <=? At o then x :: ins o l' else o :: l
  end.

Lemma take_drop_ins o l r :
  (r ≤ length l)%nat →
  (∀ i x, (i < r)%nat → l !! i = Some x → At x ≤ At o) →
  (∀ i x, (r ≤ i)%nat → l !! i = Some x → At o < At x) →
  take r l ++ o :: drop r l = ins o l.
Proof.
  revert r. induction l as [|x l IH]; intros r Hr Hlo Hhi.
  { destruct r; [done | simpl in Hr; lia]. }
  destruct r as [|r]; simpl.
  - rewrite (proj2 (Z.leb_gt _ _)); [done |]. apply (Hhi O); [lia | done].
  - rewrite (proj2 (Z.leb_le _ _)) by (apply (Hlo O); [lia | done]). f_equal.
    apply IH; [simpl in Hr; lia | |].
    + intros i y Hi. apply (Hlo (S i)). lia.
    + intros i y Hi. apply (Hhi (S i)). lia.
Qed.

Lemma sorted_lookup_le l i j a b :
  StronglySorted obs_le l → (i ≤ j)%nat → l !! i = Some a → l !! j = Some b → At a ≤ At b.
Proof.
  intros Hs. revert i j. induction Hs as [|x l Hs IH Hx]; intros i j Hij Ha Hb; [done |].
  destruct i as [|i], j as [|j]; simplify_eq/=; [lia | | lia |].
  - rewrite Forall_lookup in Hx. by apply (Hx j).
  - apply (IH i j); [lia | done | done].
Qed.

Lemma held_insert_seen o h :
  StronglySorted obs_le (h_seen h) → h_seen (held_insert o h) = ins o (h_seen h).
Proof.
  intros Hs. unfold held_insert. cbn [h_seen].
  set (f := λ i, match h_seen h !! i with
                 | Some x => after (At x) (At o) | None => false end).
  destruct (sort_Search_spec (length (h_seen h)) f) with (sort_Search (length (h_seen h)) f)
    as (Hr & Hlo & Hhi); [| done |].
  { intros a b Hab Hb Ha. unfold f, after in *.
    destruct (h_seen h !! a) as [x|] eqn:Hx; [| done].
    destruct (lookup_lt_is_Some_2 (h_seen h) b Hb) as [y Hy]. rewrite Hy.
    pose proof (sorted_lookup_le _ _ _ _ _ Hs Hab Hx Hy). lia. }
  apply take_drop_ins; [done | |].
  - intros i x Hi Hx. specialize (Hlo i Hi). unfold f, after in Hlo.
    rewrite Hx in Hlo. lia.
  - intros i x Hi Hx. pose proof (lookup_lt_Some _ _ _ Hx).
    specialize (Hhi i ltac:(lia)). unfold f, after in Hhi. rewrite Hx in Hhi. lia.
Qed.

Lemma ins_perm o l : ins o l ≡ₚ o :: l.
Proof.
  induction l as [|x l IH]; simpl; [done |]. case_match; [| done].
  rewrite IH. apply Permutation_swap.
Qed.

Lemma ins_sorted o l : StronglySorted obs_le l → StronglySorted obs_le (ins o l).
Proof.
  induction 1 as [|x l Hs IH Hx]; simpl; [repeat constructor |].
  case_match eqn:Hle; to_prop; constructor; try done.
  - rewrite ins_perm. constructor; [done | done].
  - by constructor.
  - constructor; [unfold obs_le; lia |]. eapply Forall_impl; [done |].
    unfold obs_le. intros; lia.
Qed.

Lemma held_insert_ok c o h :
  held_ok c h → Event o ∉ h_ids h → held_ok (c + 1) (held_insert o h).
Proof.
  intros [Hs Hd Hi Hv Hc] Hnew. pose proof (held_insert_seen o h Hs) as Hseen.
  split; rewrite ?Hseen.
  - by apply ins_sorted.
  - rewrite ins_perm. cbn. constructor; [| done].
    rewrite Hi, elem_of_list_to_set in Hnew. done.
  - unfold held_insert; cbn [h_ids]. rewrite Hi. rewrite ins_perm. done.
  - unfold held_insert; cbn [h_values]. rewrite Hv, (tally_perm _ _ (ins_perm o _)). done.
  - unfold len in *. rewrite ins_perm. simpl. lia.
Qed.

(** ** Discarding from the front *)

Lemma held_discard_ok c h : held_ok c h → held_ok c (held_discard h).
Proof.
  intros [Hs Hd Hi Hv Hc]. unfold held_discard.
  destruct (h_seen h) as [|o l] eqn:Hl; [by split; rewrite ?Hl |].
  apply StronglySorted_inv in Hs as [Hs _]. cbn in Hd, Hi, Hv. apply NoDup_cons in Hd as [Hn Hd].
  split; cbn; [done | done | | |].
  - rewrite Hi. apply leibniz_equiv.
    assert (Event o ∉@{gset _} list_to_set (Event <$> l)) by (by rewrite elem_of_list_to_set).
    set_solver.
  - rewrite Hv. apply value_gone_added. intros n. apply tally_positive.
  - unfold len in *. simpl in Hc. lia.
Qed.

Lemma discard_while_ind (P : held → Prop) cond :
  (∀ h, P h → P (held_discard h)) →
  ∀ fuel h, P h → P (discard_while fuel cond h).
Proof.
  intros Hstep fuel. induction fuel as [|fuel IH]; simpl; intros h Hh; [done |].
  destruct (cond h); eauto.
Qed.

Lemma discard_while_ok c fuel cond h : held_ok c h → held_ok c (discard_while fuel cond h).
Proof. apply discard_while_ind. apply held_discard_ok. Qed.

Lemma held_discard_frame h :
  h_key (held_discard h) = h_key h ∧ h_window (held_discard h) = h_window h.
Proof. unfold held_discard. destruct (h_seen h); done. Qed.

Lemma discard_while_frame fuel cond h :
  h_key (discard_while fuel cond h) = h_key h
  ∧ h_window (discard_while fuel cond h) = h_window h.
Proof.
  apply (discard_while_ind (λ h', h_key h' = h_key h ∧ h_window h' = h_window h)); [| done].
  intros h' [Hk Hw]. by destruct (held_discard_frame h') as [-> ->].
Qed.

(** What is left of the window is a suffix of it. *)
Lemma held_discard_seen h : h_seen (held_discard h) = tail (h_seen h).
Proof. unfold held_discard. destruct (h_seen h) eqn:Hs; [by rewrite Hs | done]. Qed.

(** Keep the newest [c] of a list in event time. *)
Definition newest_of (c : Z) (l : list Observation) : list Observation :=
  drop (length l - Z.to_nat c) l.

Lemma discard_while_trim fuel c h :
  0 ≤ c → (length (h_seen h) ≤ fuel)%nat →
  h_seen (discard_while fuel (λ h, c <? len (h_seen h)) h) = newest_of c (h_seen h).
Proof.
  intros Hc. revert h. induction fuel as [|fuel IH]; intros h Hf; simpl.
  { unfold newest_of. destruct (h_seen h); [done | simpl in Hf; lia]. }
  unfold len. destruct (Z.ltb_spec c (Z.of_nat (length (h_seen h)))).
  - fold (@len Observation). rewrite IH; rewrite held_discard_seen.
    + destruct (h_seen h) as [|o l] eqn:Hl; [done |].
      cbn [length tail] in *. unfold newest_of. cbn [length].
      by rewrite Nat.sub_succ_l by lia.
    + destruct (h_seen h); simpl in *; lia.
  - unfold newest_of. replace (length (h_seen h) - Z.to_nat c)%nat with O by lia. done.
Qed.

Lemma discard_while_expire fuel cutoff h :
  StronglySorted obs_le (h_seen h) → (length (h_seen h) ≤ fuel)%nat →
  h_seen (discard_while fuel
    (λ h, match h_seen h with [] => false | o :: _ => before (At o) cutoff end) h)
  = filter (λ o, cutoff ≤ At o) (h_seen h).
Proof.
  revert h. induction fuel as [|fuel IH]; intros h Hs Hf; simpl.
  { destruct (h_seen h); [done | simpl in Hf; lia]. }
  destruct (h_seen h) as [|o l] eqn:Hl; [by rewrite Hl |].
  apply StronglySorted_inv in Hs as Hs'; destruct Hs' as [Hs' Ho].
  unfold before. destruct (Z.ltb_spec (At o) cutoff).
  - rewrite IH; rewrite held_discard_seen, Hl; simpl.
    + rewrite filter_cons_False by lia. done.
    + done.
    + simpl in Hf. lia.
  - rewrite Hl. symmetry. clear Hl IH Hf Hs Hs'.
    rewrite filter_cons_True by lia. f_equal.
    induction Ho as [|x l Hx Ho IHo]; [done |].
    unfold obs_le in Hx. rewrite filter_cons_True by lia. by f_equal.
Qed.

Lemma held_trim_seen c h : 0 ≤ c → h_seen (held_trim c h) = newest_of c (h_seen h).
Proof. intros. by apply discard_while_trim. Qed.

Lemma held_expire_seen cutoff h :
  StronglySorted obs_le (h_seen h) →
  h_seen (held_expire cutoff h) = filter (λ o, cutoff ≤ At o) (h_seen h).
Proof. intros. by apply discard_while_expire. Qed.

Lemma length_newest_of c l : (length (newest_of c l) ≤ Z.to_nat c)%nat.
Proof. unfold newest_of. rewrite length_drop. lia. Qed.

(** ** Observing preserves the invariant *)

Lemma held_observe_frame o c h :
  h_key (held_observe o c h).1 = h_key h ∧ h_window (held_observe o c h).1 = h_window h.
Proof.
  unfold held_observe. case_decide; [done |]. case_match; cbn.
  - apply discard_while_frame.
  - unfold held_trim.
    edestruct discard_while_frame as [-> ->]. cbn. apply discard_while_frame.
Qed.

Lemma held_observe_preserves o c h :
  0 ≤ c → held_ok c h → held_ok c (held_observe o c h).1.
Proof.
  intros Hc Hh. unfold held_observe. case_decide as Hrep; [done |].
  set (cutoff := time_add _ _).
  assert (held_ok c (held_expire cutoff h)) as He by (by apply discard_while_ok).
  case_match; cbn [fst]; [done |].
  assert (held_ok (c + 1) (held_trim c (held_insert o (held_expire cutoff h)))) as [? ? ? ? ?].
  { apply discard_while_ok, held_insert_ok; [done |].
    destruct He as [_ _ -> _ _], Hh as [Hs _ Hi _ _].
    rewrite Hi in Hrep. rewrite held_expire_seen by done.
    rewrite elem_of_list_to_set in *. intros (x & Hxo & Hx)%list_elem_of_fmap.
    apply Hrep. apply list_elem_of_fmap. exists x. split; [done |].
    by apply list_elem_of_filter in Hx as [_ ?]. }
  split; try done. rewrite held_trim_seen by done. unfold len.
  pose proof (length_newest_of c (h_seen (held_insert o (held_expire cutoff h)))). lia.
Qed.

(** ** The reference: the newest [c] times within [w] of the newest

    A window of length [w] holding at most [c] observations should hold, of the
    event times [ts] ever delivered to it, those no older than the newest less
    [w], and of those the newest [c]. *)

Definition newest_time (ts : list Z) : Z := foldr Z.max 0 ts.

Definition trim_times (c : Z) (ts : list Z) : list Z := drop (length ts - Z.to_nat c) ts.

Definition window_times (w c : Z) (ts : list Z) : list Z :=
  trim_times c (filter (λ t, newest_time ts - w ≤ t) (merge_sort Z.le ts)).

Fixpoint ins_time (t : Z) (l : list Z) : list Z :=
  match l with
  | [] => [t]
  | x :: l' => if x <=? t then x :: ins_time t l' else t :: l
  end.

#[global] Instance Z_le_total : Total Z.le.
Proof. intros x y. lia. Qed.

Lemma ins_time_perm t l : ins_time t l ≡ₚ t :: l.
Proof.
  induction l as [|x l IH]; simpl; [done |]. case_match; [| done].
  rewrite IH. apply Permutation_swap.
Qed.

Lemma ins_time_le t l : Forall (Z.le t) l → StronglySorted Z.le l → ins_time t l = t :: l.
Proof.
  intros Hf Hs. induction Hs as [|x l Hs IH Hx]; simpl; [done |].
  apply Forall_cons in Hf as [Htx Hf]. destruct (Z.leb_spec x t); [| done].
  rewrite IH by done. by replace x with t by lia.
Qed.

Lemma ins_time_sorted t l : StronglySorted Z.le l → StronglySorted Z.le (ins_time t l).
Proof.
  induction 1 as [|x l Hs IH Hx]; simpl; [repeat constructor |].
  destruct (Z.leb_spec x t); constructor; try done.
  - rewrite ins_time_perm. by constructor.
  - by constructor.
  - constructor; [lia |]. eapply Forall_impl; [done |]. simpl. lia.
Qed.

Lemma sort_times_cons t ts : merge_sort Z.le (t :: ts) = ins_time t (merge_sort Z.le ts).
Proof.
  apply (StronglySorted_unique Z.le).
  - apply StronglySorted_merge_sort; apply _.
  - apply ins_time_sorted, StronglySorted_merge_sort; apply _.
  - by rewrite ins_time_perm, !merge_sort_Permutation.
Qed.

Lemma length_trim_times c l : length (trim_times c l) = (length l `min` Z.to_nat c)%nat.
Proof. unfold trim_times. rewrite length_drop. lia. Qed.

Lemma trim_times_short c l : (length l ≤ Z.to_nat c)%nat → trim_times c l = l.
Proof. intros. unfold trim_times. by replace (length l - Z.to_nat c)%nat with O by lia. Qed.

Lemma trim_times_long c x l :
  (Z.to_nat c ≤ length l)%nat → trim_times c (x :: l) = trim_times c l.
Proof. intros. unfold trim_times. cbn [length]. by rewrite Nat.sub_succ_l by lia. Qed.

Lemma trim_times_sorted c l : StronglySorted Z.le l → StronglySorted Z.le (trim_times c l).
Proof.
  intros Hs. unfold trim_times. rewrite <- (take_drop (length l - Z.to_nat c) l) in Hs.
  by apply StronglySorted_app_1_r in Hs.
Qed.

(** Trimming before an insertion that is trimmed again changes nothing. *)
Lemma trim_ins_trim c t l :
  StronglySorted Z.le l → trim_times c (ins_time t (trim_times c l)) = trim_times c (ins_time t l).
Proof.
  induction 1 as [|x l Hs IH Hx]; [done |].
  destruct (decide (length (x :: l) ≤ Z.to_nat c)%nat) as [Hle|Hgt].
  { by rewrite (trim_times_short c (x :: l)). }
  cbn [length] in Hgt. rewrite trim_times_long, IH by lia. cbn [ins_time].
  destruct (Z.leb_spec x t).
  - rewrite trim_times_long; [done |]. rewrite ins_time_perm. simpl. lia.
  - rewrite ins_time_le; [| eapply Forall_impl; [done |]; simpl; lia | done].
    rewrite !trim_times_long; simpl; done || lia.
Qed.

Lemma filter_trim_times a c l :
  StronglySorted Z.le l →
  filter (λ t, a ≤ t) (trim_times c l) = trim_times c (filter (λ t, a ≤ t) l).
Proof.
  induction 1 as [|x l Hs IH Hx]; [done |].
  destruct (decide (length (x :: l) ≤ Z.to_nat c)%nat) as [Hle|Hgt].
  { rewrite !trim_times_short; [done | | done].
    pose proof (length_filter (λ t, a ≤ t) (x :: l)). lia. }
  cbn [length] in Hgt. rewrite trim_times_long, IH by lia.
  destruct (decide (a ≤ x)).
  - assert (filter (λ t, a ≤ t) l = l) as Hl.
    { apply filter_all. eapply Forall_impl; [done |]. simpl. lia. }
    rewrite filter_cons_True, Hl, trim_times_long by (done || lia). done.
  - by rewrite filter_cons_False.
Qed.

Lemma filter_ins_time a t l :
  StronglySorted Z.le l →
  filter (λ x, a ≤ x) (ins_time t l)
  = if decide (a ≤ t) then ins_time t (filter (λ x, a ≤ x) l) else filter (λ x, a ≤ x) l.
Proof.
  intros Hs. case_decide as Ht.
  - apply (StronglySorted_unique Z.le).
    + apply StronglySorted_filter, ins_time_sorted; done.
    + by apply ins_time_sorted, StronglySorted_filter.
    + rewrite !ins_time_perm. by rewrite filter_cons_True.
  - apply (StronglySorted_unique Z.le).
    + apply StronglySorted_filter, ins_time_sorted; done.
    + by apply StronglySorted_filter.
    + rewrite !ins_time_perm. by rewrite filter_cons_False.
Qed.

Lemma newest_time_perm ts1 ts2 : ts1 ≡ₚ ts2 → newest_time ts1 = newest_time ts2.
Proof.
  apply (foldr_permutation_proper (=)); [intros ??? ->; done |]. intros; lia.
Qed.

Lemma window_times_perm w c ts1 ts2 :
  ts1 ≡ₚ ts2 → window_times w c ts1 = window_times w c ts2.
Proof.
  intros Hp. unfold window_times. rewrite (newest_time_perm _ _ Hp). do 2 f_equal.
  apply (StronglySorted_unique Z.le); [apply StronglySorted_merge_sort; apply _ .. |].
  by rewrite !merge_sort_Permutation.
Qed.

Lemma window_times_sorted w c ts : StronglySorted Z.le (window_times w c ts).
Proof.
  apply trim_times_sorted, StronglySorted_filter, StronglySorted_merge_sort; apply _.
Qed.

Lemma newest_time_ge ts t : t ∈ ts → t ≤ newest_time ts.
Proof.
  induction 1 as [t ts|t x ts _ IH]; simpl; lia.
Qed.

Lemma newest_time_elem ts : Forall (Z.lt 0) ts → ts ≠ [] → newest_time ts ∈ ts.
Proof.
  induction 1 as [|t ts Ht Hts IH]; [done |]. intros _. simpl.
  destruct ts as [|t' ts]; [simpl; rewrite Z.max_l by lia; left |].
  destruct (Z.max_spec t (newest_time (t' :: ts))) as [[_ ->]|[_ ->]]; [| left].
  right. by apply IH.
Qed.

(** Delivering one more time to the reference window. *)
Lemma window_times_cons w c t ts :
  window_times w c (t :: ts) =
  let cut := Z.max t (newest_time ts) - w in
  let kept := filter (λ x, cut ≤ x) (window_times w c ts) in
  if decide (cut ≤ t) then trim_times c (ins_time t kept) else kept.
Proof.
  unfold window_times at 1. rewrite sort_times_cons. cbn [newest_time foldr].
  fold (newest_time ts). cbv zeta.
  assert (StronglySorted Z.le (merge_sort Z.le ts)) as Hs
    by (apply StronglySorted_merge_sort; apply _).
  rewrite filter_ins_time by done. unfold window_times.
  rewrite filter_trim_times by (by apply StronglySorted_filter).
  rewrite list_filter_filter_l by (intros; lia).
  case_decide; [| done]. rewrite trim_ins_trim by (by apply StronglySorted_filter). done.
Qed.

(** The newest time delivered is always the last one held. *)
Lemma window_times_last w c ts :
  0 ≤ w → 1 ≤ c → Forall (Z.lt 0) ts →
  default 0 (last (window_times w c ts)) = newest_time ts.
Proof.
  intros Hw Hc Hpos. destruct (decide (ts = [])) as [->|Hne]; [done |].
  pose proof (newest_time_elem ts Hpos Hne) as Hin.
  unfold window_times. set (F := filter _ _).
  assert (newest_time ts ∈ F) as HF.
  { apply list_elem_of_filter. split; [lia |]. by rewrite merge_sort_Permutation. }
  assert (Forall (λ t, t ≤ newest_time ts) F) as Hle.
  { apply Forall_forall. intros t [_ Ht]%list_elem_of_filter.
    rewrite merge_sort_Permutation in Ht. by apply newest_time_ge. }
  assert (StronglySorted Z.le F) as Hs
    by (apply StronglySorted_filter, StronglySorted_merge_sort; apply _).
  destruct (decide (F = [])) as [->|HFne]; [by apply elem_of_nil in HF |].
  destruct (exists_last HFne) as (F' & m & ->).
  assert (m = newest_time ts) as ->.
  { apply Forall_app in Hle as [_ Hm]. apply Forall_cons in Hm as [Hm _].
    apply elem_of_app in HF as [HF|HF%list_elem_of_singleton]; [| done].
    assert (newest_time ts ≤ m); [| lia].
    eapply (StronglySorted_app_1_elem_of Z.le); [done | done |].
    by apply list_elem_of_singleton. }
  unfold trim_times. rewrite length_app; cbn [length].
  rewrite drop_app_le by lia. by rewrite last_snoc.
Qed.

(** ** The code's window against the reference *)

Abbreviation times h := (At <$> h_seen h) (only parsing).

Lemma fmap_ins o l : At <$> ins o l = ins_time (At o) (At <$> l).
Proof. induction l as [|x l IH]; cbn; [done |]. by case_match; cbn; rewrite ?IH. Qed.

Lemma fmap_newest_of c l : At <$> newest_of c l = trim_times c (At <$> l).
Proof. unfold newest_of, trim_times. by rewrite length_fmap, fmap_drop. Qed.

Lemma fmap_filter_at a (l : list Observation) :
  At <$> filter (λ o, a ≤ At o) l = filter (λ t, a ≤ t) (At <$> l).
Proof.
  induction l as [|x l IH]; [done |]. cbn [fmap list_fmap].
  rewrite !filter_cons. case_decide; cbn; by rewrite IH.
Qed.

Lemma held_last_times h : held_last h = default 0 (last (times h)).
Proof. unfold held_last. rewrite fmap_last. by destruct (last (h_seen h)). Qed.

(** One observation the window does not hold, as the reference delivers it. *)
Lemma held_observe_times o c h :
  0 ≤ c → held_ok c h → Event o ∉ h_ids h →
  times (held_observe o c h).1 =
  let cut := Z.max (At o) (held_last h) - h_window h in
  let kept := filter (λ t, cut ≤ t) (times h) in
  if decide (cut ≤ At o) then trim_times c (ins_time (At o) kept) else kept.
Proof.
  intros Hc [Hs _ _ _ _] Hnew. unfold held_observe. rewrite decide_False by done.
  assert ((if after (held_last h) (At o) then held_last h else At o)
          = Z.max (At o) (held_last h)) as ->.
  { unfold after. destruct (Z.ltb_spec (At o) (held_last h)); lia. }
  unfold time_add. rewrite Z.add_opp_r. cbv zeta.
  set (cut := Z.max _ _ - _).
  pose proof (held_expire_seen cut h Hs) as Hexp. unfold before.
  destruct (Z.ltb_spec (At o) cut); cbn [fst]; rewrite ?decide_False, ?decide_True by lia.
  - by rewrite Hexp, fmap_filter_at.
  - rewrite held_trim_seen, held_insert_seen, Hexp by
      (done || (rewrite Hexp; by apply StronglySorted_filter)).
    by rewrite fmap_newest_of, fmap_ins, fmap_filter_at.
Qed.

(** ** Delivering a stream

    A key that is fed a stream keeps one window length, so [fold] of keeper.go
    sets it before every observation. *)

Definition deliver (w c : Z) (h : held) (stream : list Observation) : held :=
  foldl (λ h o, (held_observe o c (set_window w h)).1) h stream.

#[global] Instance Observation_eq_dec : EqDecision Observation.
Proof. solve_decision. Defined.

(** The platform names an event by its agent and identifier, so one name stands
    for one observation. *)
Definition named_apart (stream : list Observation) : Prop :=
  Forall (λ o1, Forall (λ o2, Event o1 = Event o2 → o1 = o2) stream) stream.
#[global] Instance named_apart_dec stream : Decision (named_apart stream).
Proof. unfold named_apart. apply _. Defined.

Definition dated (stream : list Observation) : Prop :=
  Forall (λ o, 0 < At o) stream.
#[global] Instance dated_dec stream : Decision (dated stream).
Proof. unfold dated. apply _. Defined.

Lemma named_apart_elim stream :
  named_apart stream →
  ∀ o1 o2, o1 ∈ stream → o2 ∈ stream → Event o1 = Event o2 → o1 = o2.
Proof.
  unfold named_apart. rewrite Forall_forall. intros H o1 o2 H1 H2.
  specialize (H o1 H1). rewrite Forall_forall in H. auto.
Qed.

Lemma named_apart_intro (stream : list Observation) :
  (∀ o1 o2, o1 ∈ stream → o2 ∈ stream → Event o1 = Event o2 → o1 = o2) →
  named_apart stream.
Proof. intros H. apply Forall_forall. intros o1 H1. apply Forall_forall. eauto. Qed.

Lemma held_new_ok c key : 0 ≤ c → held_ok c (held_new key).
Proof. intros. by split; cbn; try constructor. Qed.

Lemma set_window_ok c w h : held_ok c h → held_ok c (set_window w h).
Proof. intros []. by split. Qed.

Lemma deliver_ok w c h stream : 0 ≤ c → held_ok c h → held_ok c (deliver w c h stream).
Proof.
  intros Hc. revert h. induction stream as [|o stream IH]; intros h Hh; [done |].
  apply IH. by apply held_observe_preserves, set_window_ok.
Qed.

(** An event delivered before and no longer held leaves the times as they are:
    it is late, or it stands before a window already full. *)
Lemma redelivered_times w c o (D seen : list Observation) :
  0 ≤ w → NoDup D → NoDup seen → o ∈ D → o ∉ seen → (∀ x, x ∈ seen → x ∈ D) →
  At <$> seen = window_times w c (At <$> D) →
  newest_time (At <$> D) - w ≤ At o →
  trim_times c (ins_time (At o) (window_times w c (At <$> D))) = window_times w c (At <$> D).
Proof.
  intros Hw HD Hseen Ho Hns Hsub Hts Hcut.
  destruct (submseteq_Permutation seen D) as [R HR]; [by apply NoDup_submseteq |].
  assert (o ∈ R) as HoR.
  { rewrite HR in Ho. apply elem_of_app in Ho as [|]; done. }
  unfold window_times in *.
  set (cut := newest_time (At <$> D) - w) in *. clearbody cut.
  set (F := filter _ (merge_sort _ _)) in *.
  assert (F ≡ₚ trim_times c F ++ filter (λ t, cut ≤ t) (At <$> R)) as HF.
  { unfold F at 1. rewrite merge_sort_Permutation, HR, fmap_app, filter_app, Hts.
    rewrite filter_trim_times
      by (apply StronglySorted_filter, StronglySorted_merge_sort; apply _).
    unfold F. by rewrite list_filter_filter_l. }
  assert (StronglySorted Z.le F) as HsF
    by (apply StronglySorted_filter, StronglySorted_merge_sort; apply _).
  set (k := (length F - Z.to_nat c)%nat).
  assert (take k F ++ trim_times c F = F) as Hsplit by apply take_drop.
  assert (At o ∈ take k F) as Htake.
  { rewrite <- Hsplit in HF at 1. rewrite (Permutation_app_comm (take k F)) in HF.
    apply Permutation_app_inv_l in HF. rewrite HF.
    apply list_elem_of_filter. split; [done |]. by apply list_elem_of_fmap_2. }
  assert (0 < k)%nat as Hk.
  { destruct k; [by apply elem_of_nil in Htake | lia]. }
  rewrite ins_time_le.
  - rewrite trim_times_long; rewrite ?length_trim_times; [| lia].
    apply trim_times_short. rewrite length_trim_times. lia.
  - apply Forall_forall. intros y Hy. rewrite <- Hsplit in HsF.
    by eapply (StronglySorted_app_1_elem_of Z.le).
  - by apply trim_times_sorted.
Qed.

Lemma remove_dups_snoc (stream : list Observation) o :
  remove_dups (stream ++ [o])
  ≡ₚ if decide (o ∈ stream) then remove_dups stream else o :: remove_dups stream.
Proof.
  apply NoDup_Permutation; [apply NoDup_remove_dups | |].
  - case_decide; [apply NoDup_remove_dups |]. constructor; [| apply NoDup_remove_dups].
    by rewrite elem_of_remove_dups.
  - intros x. rewrite elem_of_remove_dups, elem_of_app, list_elem_of_singleton.
    case_decide; rewrite ?elem_of_cons, elem_of_remove_dups; naive_solver.
Qed.

Lemma held_observe_sub o c h x :
  held_ok c h → x ∈ h_seen (held_observe o c h).1 → x ∈ h_seen h ∨ x = o.
Proof.
  intros [Hs _ _ _ _]. unfold held_observe. case_decide; [by left |].
  set (cut := time_add _ _).
  assert (∀ y, y ∈ h_seen (held_expire cut h) → y ∈ h_seen h) as Hexp.
  { intros y. rewrite held_expire_seen by done. by intros [_ ?]%list_elem_of_filter. }
  case_match; cbn [fst]; [by left; apply Hexp |].
  assert (∀ g fuel cond, x ∈ h_seen (discard_while fuel cond g) → x ∈ h_seen g) as Hdw.
  { intros g fuel cond. revert x. change (∀ x, x ∈ h_seen (discard_while fuel cond g) → x ∈ h_seen g).
    apply (discard_while_ind (λ g', ∀ x, x ∈ h_seen g' → x ∈ h_seen g)); [| done].
    intros g' Hg y. rewrite held_discard_seen. intros Hy. apply Hg.
    destruct (h_seen g'); [done | by right]. }
  intros Hx%Hdw. rewrite held_insert_seen, ins_perm in Hx
    by (rewrite held_expire_seen by done; by apply StronglySorted_filter).
  apply elem_of_cons in Hx as [->|Hx]; [by right | by left; apply Hexp].
Qed.

(** One step of a delivery: [h] holds the reference window of the distinct
    observations [D] delivered so far, and observing [o] holds that of [D] and
    [o]. *)
Lemma observe_reference c o h D :
  0 ≤ h_window h → 1 ≤ c → held_ok c h → NoDup D → Forall (λ x, 0 < At x) D →
  (∀ x, x ∈ h_seen h → x ∈ D) → (∀ x, x ∈ D → Event x = Event o → x = o) →
  times h = window_times (h_window h) c (At <$> D) →
  times (held_observe o c h).1
  = window_times (h_window h) c (At <$> (if decide (o ∈ D) then D else o :: D)).
Proof.
  intros Hw Hc Hh HD Hdated Hsub Hn IH.
  assert (held_last h = newest_time (At <$> D)) as Hlast.
  { rewrite held_last_times, IH. apply window_times_last; [done | done |].
    by apply Forall_fmap. }
  destruct (decide (Event o ∈ h_ids h)) as [Hrep|Hnew].
  { assert (o ∈ h_seen h) as Hoh.
    { destruct Hh as [_ _ Hi _ _]. rewrite Hi, elem_of_list_to_set in Hrep.
      apply list_elem_of_fmap in Hrep as (x & Hxo & Hx). by rewrite <- (Hn x) by auto. }
    unfold held_observe. rewrite (decide_True _ _ Hrep), decide_True; auto. }
  rewrite held_observe_times by (done || lia). rewrite Hlast, IH. cbv zeta.
  destruct (decide (o ∈ D)) as [Hin|Hout]; [| by rewrite <- window_times_cons].
  rewrite Z.max_r by (by apply newest_time_ge, list_elem_of_fmap_2).
  rewrite (filter_all _ (window_times _ c (At <$> D))).
  2:{ unfold window_times. rewrite <- filter_trim_times
        by (apply StronglySorted_merge_sort; apply _).
      apply Forall_forall. by intros t [? _]%list_elem_of_filter. }
  case_decide; [| done].
  eapply (redelivered_times _ _ _ D (h_seen h)); try done.
  - destruct Hh as [_ Hd' _ _ _]. by eapply NoDup_fmap_1.
  - intros Hoh. apply Hnew. destruct Hh as [_ _ -> _ _].
    apply elem_of_list_to_set, list_elem_of_fmap_2, Hoh.
Qed.

Lemma deliver_reference w c key stream :
  0 ≤ w → 1 ≤ c → dated stream → named_apart stream →
  times (deliver w c (held_new key) stream) = window_times w c (At <$> remove_dups stream)
  ∧ (∀ x, x ∈ h_seen (deliver w c (held_new key) stream) → x ∈ stream).
Proof.
  intros Hw Hc. induction stream as [|o stream IH] using rev_ind; intros Hd Hn.
  { split; [done |]. by intros x ?%elem_of_nil. }
  apply Forall_app in Hd as [Hd _].
  assert (∀ x, x ∈ stream → x ∈ stream ++ [o]) as Hl by (intros; apply elem_of_app; by left).
  pose proof (named_apart_elim _ Hn) as Hn'. clear Hn.
  destruct IH as [IH Hsub];
    [done | apply named_apart_intro; intros a b Ha Hb; apply Hn'; auto |].
  unfold deliver in *. rewrite foldl_snoc. set (h := foldl _ _ stream) in *.
  assert (held_ok c (set_window w h)) as Hh.
  { apply set_window_ok, (deliver_ok w c (held_new key) stream); [lia | apply held_new_ok; lia]. }
  split.
  - rewrite (observe_reference c o (set_window w h) (remove_dups stream)); try done.
    + apply window_times_perm, fmap_Permutation. rewrite remove_dups_snoc.
      destruct (decide (o ∈ stream)) as [Ho|Ho], (decide (o ∈ remove_dups stream)) as [Ho'|Ho'];
        rewrite ?elem_of_remove_dups in Ho'; done.
    + apply NoDup_remove_dups.
    + apply Forall_forall. intros x. rewrite elem_of_remove_dups.
      unfold dated in Hd. rewrite Forall_forall in Hd. auto.
    + intros x Hx. by apply elem_of_remove_dups, Hsub.
    + intros x. rewrite elem_of_remove_dups. intros Hx. apply Hn'; [auto |].
      apply elem_of_app. right. by apply list_elem_of_singleton.
  - intros x [Hx| ->]%held_observe_sub; [auto | | done].
    apply elem_of_app. right. by apply list_elem_of_singleton.
Qed.

(** ** Properties *)

(** C1. What a key's window holds is a function of which observations were
    delivered: whatever their order and however often each was redelivered, the
    event times held are the newest [c] of those within [w] of the newest one. *)
Theorem window_is_its_reference w c key stream :
  0 ≤ w → 1 ≤ c → dated stream → named_apart stream →
  times (deliver w c (held_new key) stream) = window_times w c (At <$> remove_dups stream).
Proof. intros. by apply deliver_reference. Qed.

(** What a state says of a window, apart from how many distinct values it saw. *)
Lemma held_state_times c h1 h2 :
  times h1 = times h2 →
  First (held_state h1 c) = First (held_state h2 c)
  ∧ Last (held_state h1 c) = Last (held_state h2 c)
  ∧ StateCount (held_state h1 c) = StateCount (held_state h2 c)
  ∧ Saturated (held_state h1 c) = Saturated (held_state h2 c).
Proof.
  intros Ht. unfold held_state. rewrite !held_last_times, Ht.
  assert (len (h_seen h1) = len (h_seen h2)) as Hlen.
  { unfold len. by rewrite <- (length_fmap At (h_seen h1)), Ht, length_fmap. }
  destruct (h_seen h1) as [|a l1], (h_seen h2) as [|b l2]; try discriminate; [done |].
  injection Ht as Ha Hl. cbn [First Last StateCount Saturated]. by rewrite Ha, Hlen.
Qed.

(** Two deliveries of the same observations, in any order and with any
    repetition, leave a key answering the same first and last time, the same
    count and the same saturation: a redelivered batch and a replay rebuild the
    state they interrupted. *)
Theorem delivery_order_is_immaterial w c key s1 s2 :
  0 ≤ w → 1 ≤ c → dated s1 → named_apart s1 → (∀ o, o ∈ s1 ↔ o ∈ s2) →
  let a := held_state (deliver w c (held_new key) s1) c in
  let b := held_state (deliver w c (held_new key) s2) c in
  First a = First b ∧ Last a = Last b ∧ StateCount a = StateCount b ∧ Saturated a = Saturated b.
Proof.
  intros Hw Hc Hd Hn Hsame a b. apply held_state_times.
  assert (dated s2) as Hd2.
  { unfold dated in *. rewrite Forall_forall in *. intros x Hx. by apply Hd, Hsame. }
  assert (named_apart s2) as Hn2.
  { pose proof (named_apart_elim _ Hn) as Hn'. apply named_apart_intro.
    intros x y Hx Hy. apply Hn'; by apply Hsame. }
  rewrite (proj1 (deliver_reference w c key s1 Hw Hc Hd Hn)).
  rewrite (proj1 (deliver_reference w c key s2 Hw Hc Hd2 Hn2)).
  apply window_times_perm, fmap_Permutation, NoDup_Permutation;
    [apply NoDup_remove_dups .. |].
  intros x. by rewrite !elem_of_remove_dups.
Qed.

(** Three events of one agent, the first of them late for a window of 10. *)
Definition sample_key : Key := mkKey "acme" "ssh_bruteforce" "g".
Definition sample_obs (id : string) (t : Z) (v : string) : Observation :=
  mkObservation (mkEventName "agent-1" id) t v 0 0.
Definition sample_stream : list Observation :=
  [sample_obs "a" 5 ""; sample_obs "c" 20 ""; sample_obs "b" 12 ""; sample_obs "c" 20 ""].

Lemma window_is_its_reference_witness :
  times (deliver 10 4 (held_new sample_key) sample_stream) = [12; 20]
  ∧ window_times 10 4 (At <$> remove_dups sample_stream) = [12; 20].
Proof.
  split; [| vm_compute; reflexivity].
  rewrite (window_is_its_reference 10 4 sample_key sample_stream);
    [vm_compute; reflexivity | lia | lia | |];
    apply (bool_decide_unpack _); vm_compute; exact I.
Defined.

Lemma delivery_order_is_immaterial_witness :
  StateCount (held_state (deliver 10 4 (held_new sample_key) sample_stream) 4)
  = StateCount (held_state (deliver 10 4 (held_new sample_key) (reverse sample_stream)) 4).
Proof.
  apply (delivery_order_is_immaterial 10 4 sample_key sample_stream (reverse sample_stream));
    [lia | lia | apply (bool_decide_unpack _); vm_compute; exact I
    | apply (bool_decide_unpack _); vm_compute; exact I |].
  intros o. by rewrite elem_of_reverse.
Defined.
