(* ===== verification/Story.v ===== *)
(** * Stories: reading a sequence out of a window (analysis/sequence.go)

    [ordered] assigns the window's observations to the stages, earliest first;
    an event completes the story when the window tells it with the event and not
    without it. *)

From Stdlib Require Import ZArith Lia.
From stdpp Require Import base tactics option gmap strings sorting numbers list.
From S2P Require Import Prelude Text Rule Contract Validate State Window.

(** [EventName{}], which no observation carries. *)
Definition no_event : EventName := mkEventName "" "".

(** The loop of [ordered], with what it has told so far. *)
Fixpoint ordered_from (told window : list Observation) (stages : Z) (without : EventName)
    : list Observation :=
  match window with
  | [] => told
  | seen :: window =>
      if len told =? stages then told
      else if bool_decide (Event seen = without) || negb (stages_has (StagesOf (ObsValue seen)) (len told))
      then ordered_from told window stages without
      else ordered_from (told ++ [seen]) window stages without
  end.

Definition ordered (window : list Observation) (stages : Z) (without : EventName)
    : list Observation * bool :=
  let told := ordered_from [] window stages without in (told, len told =? stages).

(** [correlated]; [told] is never empty, and names and observations pair up. *)
Definition correlated (stages : list string) (told : list Observation) (group : list Binding)
    : Correlated :=
  let skews := Skew <$> told in
  let first := default 0 (head skews) in
  mkCorrelated group
    (zip_with (λ name seen, mkSatisfied name (Agent (Event seen)) (EventID (Event seen)) (At seen))
       stages told)
    (int64 (foldl Z.max first skews - foldl Z.min first skews)).

(** The platform's view of the producer's clock; each time is absent or set. *)
Definition skewOf (observed admitted : option instant) : duration :=
  match observed, admitted with
  | Some o, Some a => time_sub o a
  | _, _ => 0
  end.

(** ** Greedy assignment *)

(** The observations the loop adds from stage [k] on. *)
Fixpoint greedy (k : nat) (left : nat) (window : list Observation) (without : EventName)
    : list Observation :=
  match window, left with
  | [], _ | _, O => []
  | seen :: window, S n =>
      if bool_decide (Event seen = without) || negb (stages_has (StagesOf (ObsValue seen)) (Z.of_nat k))
      then greedy k left window without
      else seen :: greedy (S k) n window without
  end.

Lemma ordered_from_greedy told window n without :
  (length told ≤ n)%nat →
  ordered_from told window (Z.of_nat n) without
  = told ++ greedy (length told) (n - length told) window without.
Proof.
  revert told. induction window as [|o window IH]; intros told Hl; cbn [ordered_from greedy].
  { by rewrite app_nil_r. }
  unfold len. destruct (Z.eqb_spec (Z.of_nat (length told)) (Z.of_nat n)) as [He|Hne].
  { replace (n - length told)%nat with O by lia. by rewrite app_nil_r. }
  destruct (n - length told)%nat as [|left] eqn:Hleft; [lia |].
  case_match; rewrite IH by (rewrite ?length_app; cbn; lia).
  - by rewrite Hleft.
  - rewrite length_app, <- app_assoc. cbn. do 2 f_equal.
    rewrite Nat.add_1_r. by replace (n - S (length told))%nat with left by lia.
Qed.

(** A story of the stages from [k] on: observations of the window in its order,
    each satisfying its stage and none of them the one left out. *)
Definition tells (k : nat) (without : EventName) (window told : list Observation) : Prop :=
  told `sublist_of` window
  ∧ ∀ i o, told !! i = Some o →
      Event o ≠ without ∧ stages_has (StagesOf (ObsValue o)) (Z.of_nat (k + i)) = true.

Lemma greedy_tells k n window without : tells k without window (greedy k n window without).
Proof.
  revert k n. induction window as [|o window IH]; intros k n; cbn [greedy].
  { by split; [| intros i o]. }
  destruct n as [|n]; [split; [apply sublist_nil_l | by intros i x] |].
  case_match eqn:Hc.
  - destruct (IH k (S n)) as [Hs Ht]. split; [by apply sublist_cons | done].
  - apply orb_false_iff in Hc as [Hne Hh]. to_prop.
    destruct (IH (S k) n) as [Hs Ht]. split; [by apply sublist_skip |].
    intros [|i] x Hx; cbn in Hx; [simplify_eq; by rewrite Nat.add_0_r |].
    replace (k + S i)%nat with (S k + i)%nat by lia. by apply Ht.
Qed.

Lemma tells_tail k without window x s :
  tells k without window (x :: s) → tells (S k) without window s.
Proof.
  intros [Hs Ht]. split; [etrans; [| done]; by apply sublist_cons |].
  intros i o Hi. replace (S k + i)%nat with (k + S i)%nat by lia. by apply Ht.
Qed.

Lemma tells_tail_of k without window x s :
  tells k without (x :: window) (x :: s) → s `sublist_of` window → tells (S k) without window s.
Proof.
  intros [_ Ht] Hs. split; [done |].
  intros i o Hi. replace (S k + i)%nat with (k + S i)%nat by lia. by apply Ht.
Qed.

(** The greedy assignment is no shorter and no later than any other. *)
Lemma greedy_earliest k n window without s :
  StronglySorted obs_le window → tells k without window s → (length s ≤ n)%nat →
  ∀ i o, s !! i = Some o → ∃ o', greedy k n window without !! i = Some o' ∧ At o' ≤ At o.
Proof.
  intros Hw. revert k n s. induction Hw as [|x window Hw IH Hx]; intros k n s Ht Hl i o Hi.
  { destruct Ht as [->%sublist_nil_r _]. done. }
  destruct s as [|y s]; [done |]. destruct n as [|n]; [cbn in Hl; lia |].
  cbn [greedy]. destruct (bool_decide _ || negb _) eqn:Hc.
  - apply (IH k (S n) (y :: s)); [| done | done]. split; [| by apply Ht].
    destruct Ht as [Hs Ht]. inversion Hs as [|? ? ? Hs'|? ? ? Hs']; subst; [| done].
    exfalso. destruct (Ht O x eq_refl) as [Hne Hh]. rewrite Nat.add_0_r in Hh.
    apply orb_true_iff in Hc as [Hc|Hc]; to_prop; congruence.
  - destruct Ht as [Hs Ht].
    inversion Hs as [|? ? ? Hs'|? ? ? Hs']; subst; cbn in Hl.
    + destruct i as [|i]; simplify_eq/=; [by eexists |].
      apply (IH (S k) n s); [| lia | done]. by apply (tells_tail_of k without window x s).
    + assert (tells k without window (y :: s)) as Ht' by done.
      destruct i as [|i]; simplify_eq/=.
      * exists x. split; [done |]. rewrite Forall_forall in Hx. apply Hx.
        eapply elem_of_sublist; [left | done].
      * apply (IH (S k) n s); [by eapply tells_tail | lia | done].
Qed.

Lemma length_greedy k n window without : (length (greedy k n window without) ≤ n)%nat.
Proof.
  revert k n. induction window as [|o window IH]; intros k [|n]; cbn [greedy length]; try lia.
  case_match; [apply IH |]. cbn. specialize (IH (S k) n). lia.
Qed.

(** Leaving an event out is reading the window without it. *)
Lemma greedy_without k n window e :
  Forall (λ o, Event o ≠ no_event) window →
  greedy k n window e = greedy k n (filter (λ o, Event o ≠ e) window) no_event.
Proof.
  revert k n. induction window as [|o window IH]; intros k n Hf; [done |].
  apply Forall_cons in Hf as [Ho Hf]. rewrite filter_cons. cbn [greedy].
  destruct n as [|n]; [by case_decide; destruct (filter _ _) |].
  destruct (decide (Event o = e)) as [He|He].
  - rewrite (bool_decide_true (Event o = e)) by done. rewrite decide_False by naive_solver.
    cbn. by apply IH.
  - rewrite decide_True by done. cbn [greedy].
    rewrite !bool_decide_false by done. cbn [orb]. by case_match; rewrite IH.
Qed.

Lemma ordered_greedy window n without :
  ordered window (Z.of_nat n) without
  = (greedy 0 n window without, len (greedy 0 n window without) =? Z.of_nat n).
Proof. unfold ordered. by rewrite ordered_from_greedy, Nat.sub_0_r by (cbn; lia). Qed.

(** ** Completing a story *)

(** What [completed] decides from the window an observation landed in: the story
    the window tells with it and does not tell without it. *)
Definition story (window : list Observation) (stages : Z) (seen : Observation)
    : option (list Observation) :=
  let '(told, complete) := ordered window stages no_event in
  if negb complete then None
  else if (ordered window stages (Event seen)).2 then None
  else Some told.

(** Whether observing [seen] finds the sequence. *)
Definition finds (w c stages : Z) (h : held) (seen : Observation) : bool :=
  let '(h, (s, refusal)) := held_observe seen c (set_window w h) in
  match refusal with
  | Some _ => false
  | None => negb (Repeated s) && bool_decide (is_Some (story (h_seen h) stages seen))
  end.

(** How often a delivery finds the sequence. *)
Fixpoint findings (w c stages : Z) (h : held) (stream : list Observation) : Z :=
  match stream with
  | [] => 0
  | seen :: stream =>
      (if finds w c stages h seen then 1 else 0)
      + findings w c stages (held_observe seen c (set_window w h)).1 stream
  end.

Lemma findings_snoc w c stages h stream o :
  findings w c stages h (stream ++ [o])
  = findings w c stages h stream
    + (if finds w c stages (deliver w c h stream) o then 1 else 0).
Proof.
  revert h. induction stream as [|x stream IH]; intros h; cbn [app findings deliver foldl];
    [lia |]. rewrite IH. unfold deliver. lia.
Qed.

Lemma deliver_snoc w c h stream o :
  deliver w c h (stream ++ [o]) = (held_observe o c (set_window w (deliver w c h stream))).1.
Proof. unfold deliver. by rewrite foldl_app. Qed.

(** Events within one window of each other: nothing expires between them. *)
Definition close (w : duration) (stream : list Observation) : Prop :=
  Forall (λ a, Forall (λ b, At a - At b ≤ w) stream) stream.
#[global] Instance close_dec w stream : Decision (close w stream).
Proof. unfold close. apply _. Defined.

Definition nameable (stream : list Observation) : Prop :=
  Forall (λ o, Event o ≠ no_event) stream.
#[global] Instance nameable_dec stream : Decision (nameable stream).
Proof. unfold nameable. apply _. Defined.

Lemma close_elim w stream a b : close w stream → a ∈ stream → b ∈ stream → At a - At b ≤ w.
Proof.
  unfold close. rewrite Forall_forall. intros H Ha. specialize (H a Ha).
  rewrite Forall_forall in H. apply H.
Qed.

Lemma close_sub w s1 s2 : (∀ o, o ∈ s1 → o ∈ s2) → close w s2 → close w s1.
Proof.
  intros Hsub Hc. apply Forall_forall. intros a Ha. apply Forall_forall. intros b Hb.
  by apply (close_elim w s2); auto.
Qed.

Lemma held_last_in h :
  h_seen h = [] ∧ held_last h = 0 ∨ ∃ x, x ∈ h_seen h ∧ held_last h = At x.
Proof.
  unfold held_last. destruct (last (h_seen h)) as [x|] eqn:Hl; [right | left].
  - exists x. split; [by apply last_Some_elem_of | done].
  - by apply last_None in Hl.
Qed.

Lemma filter_every {A} (P : A → Prop) `{∀ x, Decision (P x)} (l : list A) :
  (∀ x, x ∈ l → P x) → filter P l = l.
Proof.
  induction l as [|x l IH]; intros Hp; [done |]. rewrite filter_cons.
  rewrite decide_True by (apply Hp; left). f_equal. apply IH. intros; apply Hp. by right.
Qed.

(** Observing an event that expires nothing and fits under the ceiling. *)
Lemma observe_quiet o c h :
  held_ok c h → Event o ∉ h_ids h → 0 < At o → 0 ≤ h_window h →
  close (h_window h) (o :: h_seen h) → len (h_seen h) < c →
  h_seen (held_observe o c h).1 = ins o (h_seen h)
  ∧ (held_observe o c h).2.2 = None ∧ Repeated (held_observe o c h).2.1 = false.
Proof.
  intros Hh Hnew Hat Hw Hcl Hlen. pose proof (ok_sorted _ _ Hh) as Hs.
  unfold held_observe. rewrite decide_False by done.
  set (newest := if after _ _ then _ else _).
  assert (∀ x, x ∈ o :: h_seen h → newest - h_window h ≤ At x) as Hcut.
  { intros x Hx. assert (∃ y, y ∈ o :: h_seen h ∧ newest = At y) as (y & Hy & ->).
    { unfold newest, after. case_match eqn:Ha; [| exists o; split; [left | done]].
      destruct (held_last_in h) as [[_ Hl]|(y & Hy & Hl)]; [to_prop; lia |].
      exists y. split; [by right | done]. }
    pose proof (close_elim _ _ y x Hcl Hy Hx). lia. }
  assert (h_seen (held_expire (time_add newest (- h_window h)) h) = h_seen h) as He.
  { rewrite held_expire_seen by done. apply filter_every.
    intros x Hx. unfold time_add. specialize (Hcut x ltac:(by right)). lia. }
  set (h' := held_expire _ h) in *.
  assert (before (At o) (time_add newest (- h_window h)) = false) as ->.
  { unfold before, time_add. specialize (Hcut o ltac:(left)). lia. }
  cbn [fst snd]. split; [| split; [done | unfold held_state; by case_match]].
  rewrite held_trim_seen by (unfold len in Hlen; lia).
  rewrite held_insert_seen by (rewrite He; done). rewrite He.
  unfold newest_of. rewrite (Permutation_length (ins_perm o (h_seen h))).
  unfold len in Hlen. cbn [length].
  by replace (S (length (h_seen h)) - Z.to_nat c)%nat with O by lia.
Qed.

(** ** Finding a sequence once *)

Definition complete (window : list Observation) (n : nat) : bool :=
  len (greedy 0 n window no_event) =? Z.of_nat n.

Lemma ins_sublist o l : l `sublist_of` ins o l.
Proof. induction l as [|x l IH]; cbn; [apply sublist_nil_l |]. case_match; by constructor. Qed.

Lemma complete_ins n o l :
  StronglySorted obs_le l → complete l n = true → complete (ins o l) n = true.
Proof.
  unfold complete. intros Hs Hc. to_prop. apply Z.eqb_eq. unfold len in *.
  pose proof (length_greedy 0 n (ins o l) no_event).
  destruct n as [|n]; [lia |].
  destruct (lookup_lt_is_Some_2 (greedy 0 (S n) l no_event) n) as [x Hx]; [lia |].
  destruct (greedy_earliest 0 (S n) (ins o l) no_event (greedy 0 (S n) l no_event))
    with n x as (y & Hy & _); [by apply ins_sorted | | lia | done |].
  - destruct (greedy_tells 0 (S n) l no_event) as [Hg Ht].
    split; [| done]. etrans; [done | apply ins_sublist].
  - apply lookup_lt_Some in Hy. lia.
Qed.

Lemma filter_ins o l :
  (∀ x, x ∈ l → Event x ≠ Event o) → filter (λ x, Event x ≠ Event o) (ins o l) = l.
Proof.
  induction l as [|x l IH]; intros Hl; cbn [ins].
  { rewrite filter_cons, decide_False by naive_solver. done. }
  case_match.
  - rewrite filter_cons, decide_True by (apply Hl; left). f_equal. apply IH.
    intros; apply Hl. by right.
  - rewrite filter_cons, decide_False by naive_solver. by apply filter_every.
Qed.

Lemma story_ins n o l :
  StronglySorted obs_le l → nameable (o :: l) → (∀ x, x ∈ l → Event x ≠ Event o) →
  bool_decide (is_Some (story (ins o l) (Z.of_nat n) o)) = complete (ins o l) n && negb (complete l n).
Proof.
  intros Hs Hn Hl. unfold story. rewrite !ordered_greedy. cbn [snd].
  fold (complete (ins o l) n). rewrite greedy_without, filter_ins by
    (try done; unfold nameable in Hn; by rewrite ins_perm).
  fold (complete l n). destruct (complete (ins o l) n), (complete l n); reflexivity.
Qed.

Record calm (w c : Z) (stream : list Observation) : Prop := {
  calm_dated : dated stream;
  calm_named : named_apart stream;
  calm_nameable : nameable stream;
  calm_close : close w stream;
  calm_fits : len (remove_dups stream) ≤ c;
}.

Lemma remove_dups_snoc_length stream (o : Observation) :
  (length (remove_dups stream) ≤ length (remove_dups (stream ++ [o])))%nat.
Proof. rewrite (Permutation_length (remove_dups_snoc stream o)). case_decide; cbn; lia. Qed.

Lemma calm_init w c stream o : calm w c (stream ++ [o]) → calm w c stream.
Proof.
  intros [Hd Hn Hna Hcl Hf]. unfold dated, nameable, len in *.
  apply Forall_app in Hd as [Hd _]. apply Forall_app in Hna as [Hna _].
  pose proof (remove_dups_snoc_length stream o).
  split; [done | | done | | unfold len; lia].
  - apply named_apart_intro. intros a b Ha Hb He.
    by apply (named_apart_elim _ Hn); [apply elem_of_app; left .. |].
  - eapply close_sub; [| done]. set_solver.
Qed.

Lemma deliver_calm w c key n stream :
  0 ≤ w → (1 ≤ n)%nat → calm w c stream →
  let h := deliver w c (held_new key) stream in
  h_seen h ≡ₚ remove_dups stream
  ∧ findings w c (Z.of_nat n) (held_new key) stream = if complete (h_seen h) n then 1 else 0.
Proof.
  intros Hw Hn. cbn zeta. induction stream as [|o stream IH] using rev_ind; intros Hcalm.
  { split; [done |]. cbn. unfold complete. cbn. destruct n; [lia | reflexivity]. }
  specialize (IH (calm_init _ _ _ _ Hcalm)) as [Hp Hf].
  destruct Hcalm as [Hd Hna Hnm Hcl Hfit]. pose proof (remove_dups_snoc stream o) as Hsn.
  rewrite findings_snoc, deliver_snoc, Hf. set (h := deliver _ _ _ stream) in *.
  assert (0 ≤ c) as Hc by (unfold len in Hfit; lia).
  assert (held_ok c (set_window w h)) as Hok
    by (by apply set_window_ok, deliver_ok, held_new_ok).
  assert (∀ x, x ∈ h_seen h ↔ x ∈ stream) as Hin
    by (intros x; by rewrite Hp, elem_of_remove_dups).
  unfold finds. destruct (decide (o ∈ stream)) as [Ho|Ho].
  - assert (Event o ∈ h_ids (set_window w h)) as Hids.
    { rewrite (ok_ids _ _ Hok). cbn [set_window h_seen]. apply elem_of_list_to_set.
      apply list_elem_of_fmap. exists o. split; [done | by apply Hin]. }
    unfold held_observe. rewrite decide_True by done. cbn.
    rewrite Hsn. split; [done | lia].
  - assert (∀ x, x ∈ h_seen h → Event x ≠ Event o) as Hnew.
    { intros x Hx He. apply Ho. apply Hin in Hx.
      by rewrite <- (named_apart_elim _ Hna x o) by set_solver. }
    destruct (observe_quiet o c (set_window w h)) as (Hseen & Herr & Hrep); try done.
    + rewrite (ok_ids _ _ Hok). cbn. rewrite elem_of_list_to_set.
      intros (x & He & Hx)%list_elem_of_fmap. by apply (Hnew x Hx).
    + unfold dated in Hd. rewrite Forall_forall in Hd. apply Hd. set_solver.
    + cbn. eapply close_sub; [| done]. intros x [->|Hx%Hin]%elem_of_cons; set_solver.
    + cbn. unfold len in *. rewrite (Permutation_length Hsn) in Hfit. cbn in Hfit.
      rewrite (Permutation_length Hp). lia.
    + destruct (held_observe o c (set_window w h)) as [h' [s e]]. cbn [fst snd set_window h_seen] in *. subst e.
      rewrite Hrep, Hseen. cbn [negb andb].
      rewrite story_ins; [| apply Hok | | done].
      * split; [by rewrite Hsn, ins_perm, Hp |].
        destruct (complete (h_seen h) n) eqn:Hcm.
        -- by rewrite complete_ins by (done || apply Hok).
        -- by rewrite andb_true_r; destruct (complete (ins o _) n).
      * unfold nameable in *. rewrite Forall_forall in *. intros x Hx. apply Hnm.
        apply elem_of_cons in Hx as [->|Hx%Hin]; set_solver.
Qed.

(** [ordered] finds a story whenever the window has one, and the one it tells
    is the earliest: over a window in event time, what it returns is a story of the
    window, it says [complete] exactly when some assignment of the window's
    observations to the stages exists in the window's order, and every such
    assignment satisfies each stage no earlier than it does. *)
Theorem the_earliest_story_is_told window n without :
  StronglySorted obs_le window →
  let '(told, found) := ordered window (Z.of_nat n) without in
  tells 0 without window told
  ∧ (found = true ↔ ∃ s, tells 0 without window s ∧ length s = n)
  ∧ (∀ s, tells 0 without window s → length s = n →
       Forall2 (λ mine theirs, At mine ≤ At theirs) told s).
Proof.
  intros Hs. rewrite ordered_greedy. set (g := greedy 0 n window without).
  pose proof (greedy_tells 0 n window without) as Hg. fold g in Hg.
  pose proof (length_greedy 0 n window without) as Hl. fold g in Hl.
  assert (∀ s, tells 0 without window s → length s = n →
    ∀ i o, s !! i = Some o → ∃ o', g !! i = Some o' ∧ At o' ≤ At o) as Hbest.
  { intros s Ht Hn. apply greedy_earliest; [done | done | lia]. }
  assert (∀ s, tells 0 without window s → length s = n → length g = n) as Hfull.
  { intros s Ht Hn. destruct n as [|n]; [lia |].
    destruct (lookup_lt_is_Some_2 s n) as [x Hx]; [lia |].
    destruct (Hbest s Ht Hn n x Hx) as (y & Hy & _). apply lookup_lt_Some in Hy. lia. }
  split; [done |]. split.
  - rewrite Z.eqb_eq. unfold len. split.
    + intros He. exists g. split; [done | lia].
    + intros (s & Ht & Hn). rewrite (Hfull s Ht Hn). done.
  - intros s Ht Hn. apply Forall2_same_length_lookup_2; [by rewrite (Hfull s Ht Hn) |].
    intros i x y Hx Hy. destruct (Hbest s Ht Hn i y Hy) as (x' & Hx' & Hle). by simplify_eq.
Qed.

(** A sequence is found once: over events that fit one window and its
    ceiling, however they are ordered and however often each is repeated, the
    deliveries that find the sequence number one when the window they leave tells
    the story and none when it does not. *)
Theorem a_sequence_is_found_once w c key n stream :
  0 ≤ w → (1 ≤ n)%nat → calm w c stream →
  findings w c (Z.of_nat n) (held_new key) stream
  = if (ordered (h_seen (deliver w c (held_new key) stream)) (Z.of_nat n) no_event).2 then 1 else 0.
Proof.
  intros Hw Hn Hcalm. destruct (deliver_calm w c key n stream Hw Hn Hcalm) as [_ ->].
  by rewrite ordered_greedy.
Qed.

Definition timed_apart (stream : list Observation) : Prop :=
  Forall (λ a, Forall (λ b, At a = At b → a = b) stream) stream.
#[global] Instance timed_apart_dec stream : Decision (timed_apart stream).
Proof. unfold timed_apart. apply _. Defined.

Lemma timed_apart_elim stream a b :
  timed_apart stream → a ∈ stream → b ∈ stream → At a = At b → a = b.
Proof.
  unfold timed_apart. rewrite Forall_forall. intros H Ha. specialize (H a Ha).
  rewrite Forall_forall in H. apply H.
Qed.

Lemma calm_same w c s1 s2 : (∀ o, o ∈ s1 ↔ o ∈ s2) → calm w c s1 → calm w c s2.
Proof.
  intros Hsame [Hd Hn Hna Hcl Hf].
  assert (remove_dups s1 ≡ₚ remove_dups s2) as Hp.
  { apply NoDup_Permutation; [apply NoDup_remove_dups .. |].
    intros x. rewrite !elem_of_remove_dups. apply Hsame. }
  unfold dated, nameable in *. rewrite Forall_forall in *. split.
  - apply Forall_forall. intros x Hx%Hsame. by apply Hd.
  - apply named_apart_intro. intros a b Ha%Hsame Hb%Hsame. by apply (named_apart_elim _ Hn).
  - apply Forall_forall. intros x Hx%Hsame. by apply Hna.
  - eapply close_sub; [| done]. intros x. by rewrite Hsame.
  - unfold len in *. by rewrite <- Hp.
Qed.

(** A sequence is found the same number of times however the backbone
    delivers it, provided no two of its events carry the same event time: two
    deliveries of the same events, in any order and with any repetitions, leave
    the same window and find the sequence equally often. *)
Theorem delivery_order_finds_the_same w c key n s1 s2 :
  0 ≤ w → (1 ≤ n)%nat → calm w c s1 → timed_apart s1 → (∀ o, o ∈ s1 ↔ o ∈ s2) →
  h_seen (deliver w c (held_new key) s1) = h_seen (deliver w c (held_new key) s2)
  ∧ findings w c (Z.of_nat n) (held_new key) s1 = findings w c (Z.of_nat n) (held_new key) s2.
Proof.
  intros Hw Hn Hc1 Hap Hsame. pose proof (calm_same w c s1 s2 Hsame Hc1) as Hc2.
  destruct (deliver_calm w c key n s1 Hw Hn Hc1) as [Hp1 ->].
  destruct (deliver_calm w c key n s2 Hw Hn Hc2) as [Hp2 ->].
  assert (0 ≤ c) as Hc by (destruct Hc1; unfold len in *; lia).
  assert (h_seen (deliver w c (held_new key) s1) = h_seen (deliver w c (held_new key) s2)) as ->;
    [| done].
  apply (StronglySorted_unique_strong obs_le).
  - intros a b Ha Hb Hab Hba. rewrite Hp1, elem_of_remove_dups in Ha.
    rewrite Hp2, elem_of_remove_dups in Hb. apply Hsame in Hb.
    apply (timed_apart_elim s1); [done .. |]. unfold obs_le in *. lia.
  - eapply ok_sorted, deliver_ok, held_new_ok; done.
  - eapply ok_sorted, deliver_ok, held_new_ok; done.
  - rewrite Hp1, Hp2. apply NoDup_Permutation; [apply NoDup_remove_dups .. |].
    intros x. rewrite !elem_of_remove_dups. apply Hsame.
Qed.

(** Events with the same event time keep the order they arrived in, so which
    of two deliveries of the same two events finds a two-stage sequence depends on
    that order: one delivery finds it and the other never does. *)
Theorem a_tie_is_broken_by_arrival :
  ∃ a b : Observation,
    At a = At b ∧ observation_validate a = Ok tt ∧ observation_validate b = Ok tt
    ∧ findings 60 16 2 (held_new sample_key) [a; b] = 1
    ∧ findings 60 16 2 (held_new sample_key) [b; a] = 0.
Proof.
  exists (mkObservation (mkEventName "agent-1" "login") 7 (Stages_String 1) 0 0),
         (mkObservation (mkEventName "agent-1" "sudo") 7 (Stages_String 2) 0 0).
  split; [done |]. repeat split; vm_compute; reflexivity.
Qed.

(** ** Witnesses *)

Definition story_stream : list Observation :=
  [sample_obs "b" 12 (Stages_String 2); sample_obs "a" 5 (Stages_String 1);
   sample_obs "b" 12 (Stages_String 2); sample_obs "c" 20 (Stages_String 4)].

Lemma story_stream_calm : calm 30 8 story_stream.
Proof. split; try (apply (bool_decide_unpack _); vm_compute; exact I). Qed.

Lemma the_earliest_story_is_told_witness :
  ∃ told, ordered [sample_obs "a" 5 (Stages_String 1); sample_obs "b" 12 (Stages_String 3)]
            2 no_event = (told, true)
  ∧ tells 0 no_event [sample_obs "a" 5 (Stages_String 1); sample_obs "b" 12 (Stages_String 3)] told.
Proof.
  pose proof (the_earliest_story_is_told
    [sample_obs "a" 5 (Stages_String 1); sample_obs "b" 12 (Stages_String 3)] 2 no_event) as H.
  eexists. split; [reflexivity |]. apply H.
  repeat constructor; unfold obs_le; cbn; lia.
Defined.

Lemma a_sequence_is_found_once_witness :
  findings 30 8 3 (held_new sample_key) story_stream = 1.
Proof.
  etrans; [apply (a_sequence_is_found_once 30 8 sample_key 3 story_stream) |];
    [lia | lia | apply story_stream_calm | vm_compute; reflexivity].
Defined.

Lemma delivery_order_finds_the_same_witness :
  findings 30 8 3 (held_new sample_key) story_stream
  = findings 30 8 3 (held_new sample_key) (reverse story_stream).
Proof.
  apply (delivery_order_finds_the_same 30 8 sample_key 3 story_stream (reverse story_stream));
    [lia | lia | apply story_stream_calm | apply (bool_decide_unpack _); vm_compute; exact I |].
  intros o. by rewrite elem_of_reverse.
Defined.
