(* ===== verification/Digest.v ===== *)
(** * Names by content: [detectionstate.KeyFor] and [detection.identify]

    A key and a detection are named by a digest of what they are. What is hashed
    is a list of values, each written as its length, a colon and its bytes; the
    digest itself ([sha256] cut to 16 bytes, in hexadecimal) is a parameter.
    The theorems are about the bytes hashed: two different things never write
    the same bytes, and one thing written in two orders always does. *)

From Stdlib Require Import ZArith Lia Ascii.
From stdpp Require Import base tactics option gmap strings pretty sorting numbers list.
From S2P Require Import Prelude Text Rule Contract Validate State.

(** ** Length-prefixed writing *)

Definition Itoa (z : Z) : string := pretty z.

Definition write (value : string) : string :=
  pretty (N.of_nat (String.length value)) +:+ ":" +:+ value.

Definition writes (values : list string) : string :=
  foldr (λ v rest, write v +:+ rest) "" values.

Lemma pretty_N_go_free x s : free_of ":" s → free_of ":" (pretty_N_go x s).
Proof.
  revert s. induction (N.lt_wf_0 x) as [x _ IH]; intros s Hs.
  assert (x = 0 ∨ 0 < x)%N as [->|Hx] by lia; [by rewrite pretty_N_go_0 |].
  rewrite pretty_N_go_step by done. apply IH; [by apply N.div_lt |].
  split; [| done]. unfold pretty_N_char. by repeat case_match.
Qed.

Lemma pretty_N_free (n : N) : free_of ":" (pretty n).
Proof.
  unfold pretty, pretty_N. case_decide; [by split | by apply pretty_N_go_free].
Qed.

Lemma write_split v1 v2 r1 r2 :
  write v1 +:+ r1 = write v2 +:+ r2 → v1 = v2 ∧ r1 = r2.
Proof.
  unfold write. rewrite !string_app_assoc. intros [Hl Hr]%(split_at ":"); [| apply pretty_N_free ..].
  apply (inj pretty) in Hl. apply string_app_inj; [lia | done].
Qed.

Lemma write_nonempty v r : write v +:+ r ≠ "".
Proof.
  unfold write. rewrite !string_app_assoc. destruct (pretty _); discriminate.
Qed.

(** Two lists of values that write the same bytes are the same list. *)
Lemma writes_inj l1 l2 : writes l1 = writes l2 → l1 = l2.
Proof.
  revert l2. induction l1 as [|v1 l1 IH]; intros [|v2 l2] Heq; cbn [writes foldr] in Heq.
  - done.
  - symmetry in Heq. by apply write_nonempty in Heq.
  - by apply write_nonempty in Heq.
  - apply write_split in Heq as [-> Heq]. f_equal. by apply IH.
Qed.

(** ** Keys of state (detectionstate/key.go) *)

Definition absent_mark : string := String (ascii_of_nat 0) "absent".

Definition binding_le (a b : Binding) : Prop := String.le (Binding_String a) (Binding_String b).
#[global] Instance binding_le_dec : RelDecision binding_le.
Proof. unfold binding_le. intros a b. apply _. Defined.
#[global] Instance binding_le_total : Total binding_le.
Proof. intros a b. unfold binding_le. apply (total String.le). Qed.
#[global] Instance binding_le_trans : Transitive binding_le.
Proof. intros a b c. unfold binding_le. by etrans. Qed.

Definition bound_values (b : Binding) : list string :=
  [bind_field b; if bind_absent b then absent_mark else bind_value b].

(** What [KeyFor] writes to the digest, in order. *)
Definition key_values (tenant rule : string) (revision : Z) (group : list Binding) : list string :=
  [tenant; rule; Itoa revision]
  ++ (compact (merge_sort binding_le group) ≫= bound_values).

Definition KeyFor (digest : string → string)
    (tenant rule : string) (revision : Z) (group : list Binding) : Key :=
  mkKey tenant rule (digest (writes (key_values tenant rule revision group))).

(** A group as [Program.Group] binds one: its fields are distinct and carry no
    space, and an absent field has no value. *)
Definition bound_group (group : list Binding) : Prop :=
  NoDup (bind_field <$> group)
  ∧ Forall (λ b, free_of " " (bind_field b) ∧ (bind_absent b = true → bind_value b = "")) group.

Lemma Binding_String_field a b :
  free_of " " (bind_field a) → free_of " " (bind_field b) →
  Binding_String a = Binding_String b → bind_field a = bind_field b.
Proof.
  intros Ha Hb. unfold Binding_String.
  destruct (bind_absent a), (bind_absent b); intros [? _]%(split_at " "); done.
Qed.

Lemma compact_nodup {A} `{EqDecision A} (l : list A) : NoDup l → compact l = l.
Proof.
  induction l as [|x [|y l] IH]; [done | done |]. intros [Hx Hl]%NoDup_cons.
  cbn [compact]. rewrite decide_False by (intros ->; apply Hx; left).
  f_equal. by apply IH.
Qed.

(** Sorting distinct elements by a key that tells them apart has one result. *)
Lemma sorted_unique_by {A} (f : A → string) (l1 l2 : list A) :
  l1 ≡ₚ l2 → (∀ a b, a ∈ l1 → b ∈ l1 → f a = f b → a = b) →
  StronglySorted (λ a b, String.le (f a) (f b)) l1 →
  StronglySorted (λ a b, String.le (f a) (f b)) l2 → l1 = l2.
Proof.
  intros Hp Hinj H1. revert l2 Hp. induction H1 as [|x l1 H1 IH Hx]; intros l2 Hp H2.
  { by apply Permutation_nil_l in Hp. }
  destruct H2 as [|y l2 H2 Hy]; [by apply Permutation_nil_r in Hp |].
  assert (x = y) as <-.
  { apply Hinj; [left | rewrite Hp; left |].
    assert (x ∈ y :: l2) as Hin1 by (rewrite <- Hp; left).
    assert (y ∈ x :: l1) as Hin2 by (rewrite Hp; left).
    apply elem_of_cons in Hin1 as [->|Hin1]; [done |].
    apply elem_of_cons in Hin2 as [->|Hin2]; [done |].
    rewrite Forall_forall in Hx, Hy. apply (anti_symm String.le); auto. }
  f_equal. apply IH; [intros a b ? ?; apply Hinj; by right | by apply Permutation_cons_inv in Hp | done].
Qed.

Lemma bound_group_inj group : bound_group group →
  ∀ a b, a ∈ group → b ∈ group → Binding_String a = Binding_String b → a = b.
Proof.
  intros [Hnd Hf] a b Ha Hb Heq. rewrite Forall_forall in Hf.
  assert (bind_field a = bind_field b) as Hfe by (apply Binding_String_field; [apply Hf .. |]; done).
  apply list_elem_of_lookup in Ha as [i Hi], Hb as [j Hj].
  assert (i = j) as ->; [| congruence].
  eapply NoDup_lookup; [done | by rewrite list_lookup_fmap, Hi |]. rewrite list_lookup_fmap, Hj. cbn. by rewrite Hfe.
Qed.

Lemma sorted_group group : bound_group group →
  compact (merge_sort binding_le group) = merge_sort binding_le group.
Proof.
  intros [Hnd _]. apply compact_nodup. rewrite merge_sort_Permutation.
  by eapply NoDup_fmap_1.
Qed.

Lemma merge_sort_bindings g1 g2 :
  bound_group g1 → g1 ≡ₚ g2 → merge_sort binding_le g1 = merge_sort binding_le g2.
Proof.
  intros Hg Hp. apply (sorted_unique_by Binding_String).
  - by rewrite !merge_sort_Permutation.
  - intros a b. rewrite !merge_sort_Permutation. by apply bound_group_inj.
  - apply (StronglySorted_merge_sort binding_le).
  - apply (StronglySorted_merge_sort binding_le).
Qed.

Lemma bound_group_perm g1 g2 : g1 ≡ₚ g2 → bound_group g1 → bound_group g2.
Proof. intros Hp. unfold bound_group. by rewrite Hp. Qed.

(** No value is spelt as the mark an absent field is written by. *)
Definition unmarked (group : list Binding) : Prop :=
  Forall (λ b, bind_absent b = true ∨ bind_value b ≠ absent_mark) group.

Lemma bound_values_inj g1 g2 :
  (∀ b, b ∈ g1 ++ g2 → (bind_absent b = true → bind_value b = "")
      ∧ (bind_absent b = true ∨ bind_value b ≠ absent_mark)) →
  g1 ≫= bound_values = g2 ≫= bound_values → g1 = g2.
Proof.
  revert g2. induction g1 as [|a g1 IH]; intros [|b g2] Hok Heq; try discriminate; [done |].
  cbn in Heq. injection Heq as Hf Hv Heq. f_equal.
  - destruct (Hok a) as [Ha1 Ha2]; [left |].
    destruct (Hok b) as [Hb1 Hb2]; [rewrite elem_of_app; right; left |].
    destruct a as [fa va []], b as [fb vb []]; cbn in *; subst;
      [by rewrite Ha1, Hb1 | by destruct Hb2 | by destruct Ha2 | done].
  - apply IH; [| done]. intros c Hc. apply Hok. cbn. rewrite elem_of_cons, elem_of_app, elem_of_cons.
    apply elem_of_app in Hc. naive_solver.
Qed.

(** What a key's digest is taken of says exactly which key it is: two
    observations hash the same bytes if and only if they are of one tenant, one
    rule at one revision and one group, whatever order the group was bound in.
    A group bound to a value spelt as the mark of an absent field is apart (see
    [an_absent_field_can_be_forged]). *)
Theorem key_bytes_tell_keys_apart t1 r1 v1 g1 t2 r2 v2 g2 :
  bound_group g1 → bound_group g2 → unmarked g1 → unmarked g2 →
  writes (key_values t1 r1 v1 g1) = writes (key_values t2 r2 v2 g2)
  ↔ t1 = t2 ∧ r1 = r2 ∧ v1 = v2 ∧ g1 ≡ₚ g2.
Proof.
  intros Hg1 Hg2 Hu1 Hu2. unfold key_values. split.
  - intros [= -> -> Hv Heq]%writes_inj. apply (inj pretty) in Hv as ->.
    split_and!; try done. rewrite !sorted_group in Heq by done.
    apply bound_values_inj in Heq.
    + by rewrite <- (merge_sort_Permutation binding_le g1), Heq, merge_sort_Permutation.
    + intros b. rewrite elem_of_app, !merge_sort_Permutation.
      destruct Hg1 as [_ Hg1], Hg2 as [_ Hg2]. unfold unmarked in *. rewrite Forall_forall in *.
      intros [Hb|Hb]; split; naive_solver.
  - intros (-> & -> & -> & Hp). by rewrite (merge_sort_bindings g1 g2).
Qed.

Lemma key_bytes_tell_keys_apart_witness :
  let user := mkBinding "actor.user.name" "root" false in
  let host := mkBinding "source.host" "" true in
  writes (key_values "acme" "r" 1 [user; host]) = writes (key_values "acme" "r" 1 [host; user]).
Proof.
  cbv zeta. apply key_bytes_tell_keys_apart; [| | | | split_and!; [done .. | apply Permutation_swap]].
  1,2: split; [apply (bool_decide_unpack _); vm_compute; exact I |
    repeat (apply Forall_cons; split; [split; [vm_compute; naive_solver discriminate | done] |]); apply Forall_nil; exact I].
  all: repeat (apply Forall_cons; split; [first [by left | by right] |]); apply Forall_nil; exact I.
Defined.

(** A field that is absent and a field that holds the bytes of the mark are
    one group: a producer that writes the mark into a grouped field is counted
    among the events that do not carry the field at all. *)
Theorem an_absent_field_can_be_forged digest tenant rule revision field :
  KeyFor digest tenant rule revision [mkBinding field "" true]
  = KeyFor digest tenant rule revision [mkBinding field absent_mark false].
Proof. done. Qed.

(** ** Names of detections (detection/detected.go) *)

Record sentEvent := mkSentEvent { sent_agent : string; sent_event : string }.
#[global] Instance sentEvent_eq_dec : EqDecision sentEvent.
Proof. solve_decision. Defined.

Definition byAgent (from : list sentEvent) : gmap string (list string) :=
  foldl (λ m one, <[sent_agent one := default [] (m !! sent_agent one) ++ [sent_event one]]> m)
        ∅ from.

(** What [identify] writes to the digest, in order. *)
Definition identity_values (rule : string) (revision : Z) (tenant : string)
    (from : list sentEvent) : list string :=
  [rule; Itoa revision; tenant]
  ++ (sort_strings (map_to_list (byAgent from)).*1 ≫= λ agent,
       let events := default [] (byAgent from !! agent) in
       agent :: Itoa (len events) :: sort_strings events).

Definition identify (digest : string → string)
    (rule : string) (revision : Z) (tenant : string) (from : list sentEvent) : string :=
  digest (writes (identity_values rule revision tenant from)).

(** The events of one agent, in the order they were given. *)
Definition events_of (from : list sentEvent) (agent : string) : list string :=
  sent_event <$> filter (λ one, sent_agent one = agent) from.

Lemma byAgent_lookup from agent :
  byAgent from !! agent
  = if decide (agent ∈ sent_agent <$> from) then Some (events_of from agent) else None.
Proof.
  unfold byAgent, events_of. induction from as [|one from IH] using rev_ind; [done |].
  rewrite foldl_snoc, filter_app, !fmap_app. set (m := foldl _ _ from) in *.
  assert (default [] (m !! agent) = sent_event <$> filter (λ one, sent_agent one = agent) from) as Hd.
  { rewrite IH. case_decide as Hin; [done |]. cbn. symmetry.
    destruct (filter _ from) as [|x l] eqn:Hf; [done |]. exfalso. apply Hin.
    assert (x ∈ filter (λ one, sent_agent one = agent) from) as [<- Hx]%list_elem_of_filter
      by (rewrite Hf; left). by apply list_elem_of_fmap_2. }
  rewrite lookup_insert. destruct (decide (sent_agent one = agent)) as [Hone|Hone].
  - subst. rewrite Hd. rewrite decide_True by (rewrite elem_of_app; right; left).
    rewrite filter_cons_True by done. done.
  - rewrite filter_cons_False by (cbn; congruence). rewrite filter_nil, app_nil_r, IH.
    change (sent_agent <$> [one]) with [sent_agent one].
    apply decide_ext. rewrite elem_of_app, list_elem_of_singleton. naive_solver.
Qed.

Lemma agents_perm from : (map_to_list (byAgent from)).*1 ≡ₚ remove_dups (sent_agent <$> from).
Proof.
  apply NoDup_Permutation; [apply NoDup_fst_map_to_list | apply NoDup_remove_dups |].
  intros agent. rewrite elem_of_remove_dups, list_elem_of_fmap. split.
  - intros ([a es] & -> & Hin%elem_of_map_to_list). rewrite byAgent_lookup in Hin.
    by case_decide.
  - intros Hin. exists (agent, events_of from agent). split; [done |].
    apply elem_of_map_to_list. by rewrite byAgent_lookup, decide_True.
Qed.

Lemma events_of_perm from1 from2 agent :
  from1 ≡ₚ from2 → events_of from1 agent ≡ₚ events_of from2 agent.
Proof. intros Hp. unfold events_of. by rewrite Hp. Qed.

(** The same values with the map read through. *)
Lemma identity_values_eq rule revision tenant from :
  identity_values rule revision tenant from
  = [rule; Itoa revision; tenant]
    ++ (sort_strings (remove_dups (sent_agent <$> from)) ≫= λ agent,
         agent :: Itoa (len (events_of from agent)) :: sort_strings (events_of from agent)).
Proof.
  unfold identity_values. f_equal. rewrite (sort_strings_unique _ _ (agents_perm from)).
  assert (∀ A : list string, (∀ a, a ∈ A → a ∈ sent_agent <$> from) →
    (A ≫= λ agent, let events := default [] (byAgent from !! agent) in
       agent :: Itoa (len events) :: sort_strings events)
    = A ≫= λ agent, agent :: Itoa (len (events_of from agent)) :: sort_strings (events_of from agent)) as H.
  { induction A as [|a A IH]; intros HA; [done |]. rewrite !bind_cons, IH by (intros; apply HA; by right).
    rewrite byAgent_lookup, decide_True by (apply HA; left). done. }
  apply H. intros a. rewrite sort_strings_perm. by rewrite elem_of_remove_dups.
Qed.

(** Blocks of a name, each saying how long it is, are read back one way. *)
Lemma blocks_inj (e1 e2 : string → list string) A1 A2 :
  (A1 ≫= λ a, a :: Itoa (len (e1 a)) :: sort_strings (e1 a))
  = (A2 ≫= λ a, a :: Itoa (len (e2 a)) :: sort_strings (e2 a)) →
  A1 = A2 ∧ ∀ a, a ∈ A1 → e1 a ≡ₚ e2 a.
Proof.
  revert A2. induction A1 as [|a A1 IH]; intros [|b A2] Heq; try discriminate.
  { split; [done |]. by intros a ?%elem_of_nil. }
  rewrite !bind_cons in Heq. injection Heq as <- Hl Heq.
  apply (inj pretty) in Hl. unfold len in Hl.
  apply app_inj_1 in Heq as [Hs Heq].
  2: { by rewrite !(Permutation_length (sort_strings_perm _)), (inj Z.of_nat _ _ Hl). }
  destruct (IH A2 Heq) as [<- Hall]. split; [done |].
  intros c [->|Hc]%elem_of_cons; [| by apply Hall].
  by rewrite <- (sort_strings_perm (e1 a)), Hs, sort_strings_perm.
Qed.

Lemma regroup (A : list string) from :
  NoDup A → (∀ one, one ∈ from → sent_agent one ∈ A) →
  from ≡ₚ A ≫= λ a, mkSentEvent a <$> events_of from a.
Proof.
  assert (∀ a, mkSentEvent a <$> events_of from a = filter (λ one, sent_agent one = a) from) as Hev.
  { intros a. unfold events_of. induction from as [|[b ev] from IH]; [done |].
    rewrite filter_cons. case_decide as Hb; cbn in *; [subst; by rewrite IH | done]. }
  intros HA Hcov. assert ((A ≫= λ a, mkSentEvent a <$> events_of from a)
    = A ≫= λ a, filter (λ one, sent_agent one = a) from) as ->.
  { clear Hcov HA. induction A as [|a A IH]; [done |]. by rewrite !bind_cons, IH, Hev. }
  clear Hev. revert from Hcov. induction HA as [|a A Ha HA IH]; intros from Hcov.
  { destruct from as [|x from]; [done |].
    specialize (Hcov x (list_elem_of_here _ _)). by apply elem_of_nil in Hcov. }
  rewrite bind_cons. rewrite <- (filter_app_complement (λ one, sent_agent one = a) from) at 1.
  apply Permutation_app; [done |].
  rewrite (IH (filter (λ one, ¬ sent_agent one = a) from)).
  - match goal with |- ?x ≡ₚ ?y => cut (x = y); [by intros -> |] end. clear IH Hcov. induction A as [|b A IH]; [done |]. rewrite !bind_cons.
    apply not_elem_of_cons in Ha as [Hab Ha]. apply NoDup_cons in HA as [_ HA]. rewrite IH by done. f_equal.
    rewrite list_filter_filter. apply list_filter_iff. naive_solver.
  - intros one [Hne Hin]%list_elem_of_filter. specialize (Hcov one Hin).
    apply elem_of_cons in Hcov as [|]; done.
Qed.

Lemma bind_perm_ext {A B} (f g : A → list B) l :
  (∀ a, a ∈ l → f a ≡ₚ g a) → l ≫= f ≡ₚ l ≫= g.
Proof.
  induction l as [|a l IH]; intros H; [done |]. rewrite !bind_cons.
  apply Permutation_app; [apply H; left | apply IH; intros; apply H; by right].
Qed.

Lemma regroup_agents from :
  from ≡ₚ sort_strings (remove_dups (sent_agent <$> from)) ≫= λ a, mkSentEvent a <$> events_of from a.
Proof.
  apply regroup; [rewrite sort_strings_perm; apply NoDup_remove_dups |].
  intros one Hin. rewrite sort_strings_perm, elem_of_remove_dups. by apply list_elem_of_fmap_2.
Qed.

(** A detection is named by what decided it and by nothing else: two names
    are taken of the same bytes if and only if they are of one rule at one
    revision, one tenant and the same events, each by its agent, in whatever
    order they were met. *)
Theorem identity_bytes_tell_detections_apart r1 v1 t1 from1 r2 v2 t2 from2 :
  writes (identity_values r1 v1 t1 from1) = writes (identity_values r2 v2 t2 from2)
  ↔ r1 = r2 ∧ v1 = v2 ∧ t1 = t2 ∧ from1 ≡ₚ from2.
Proof.
  rewrite !identity_values_eq. split.
  - intros [= -> Hv -> Heq]%writes_inj. apply (inj pretty) in Hv as ->. split_and!; try done.
    apply blocks_inj in Heq as [HA Hev].
    rewrite (regroup_agents from1), (regroup_agents from2), <- HA.
    apply bind_perm_ext. intros a Ha. by rewrite (Hev a Ha).
  - intros (-> & -> & -> & Hp). do 2 f_equal.
    rewrite (sort_strings_unique _ (remove_dups (sent_agent <$> from2))).
    + apply list_bind_ext; [| done]. intros a.
      pose proof (events_of_perm _ _ a Hp) as He. unfold len.
      by rewrite (sort_strings_unique _ _ He), (Permutation_length He).
    + apply NoDup_Permutation; [apply NoDup_remove_dups .. |].
      intros a. by rewrite !elem_of_remove_dups, Hp.
Qed.
