(* ===== verification/Detected.v ===== *)
(** * What a match becomes (detection/detected.go)

    A detection carries the rule's, the event's and what is derived from the two.
    The generated event type is a parameter, [Events]: its getters, and messages
    as trees ([Messages]) whose unknown bytes [declared] forgets. *)

From Stdlib Require Import ZArith Lia Ascii Floats.SpecFloat.
From stdpp Require Import base tactics option gmap strings pretty sorting numbers list.
From S2P Require Import Prelude Text Rule Contract Bytes Validate Compile State Digest.

(** ** The generated event *)

(** The generated event: what the code reads of it beside the fields a rule
    names. [AsTime] is applied; a timestamp that may be nil is optional. *)
Class Events (M : Type) := {
  GetEventId : M → string;
  GetOrigin : M → option Proto;
  GetEventTime : M → option instant;
  GetObservedTime : M → option instant;
  GetIngestTime : M → option instant;
  GetAgentId : option Proto → string;
  GetTenantId : option Proto → string;
  new_Origin : string → string → Proto;
}.

(** What generated getters promise: they read declared fields, and a message
    built with a field answers with it. *)
Class EventLaws (M : Type) `{Events M} := {
  agent_declared o : GetAgentId (declared o) = GetAgentId o;
  tenant_declared o : GetTenantId (declared o) = GetTenantId o;
  agent_new a t : GetAgentId (Some (new_Origin a t)) = a;
  tenant_new a t : GetTenantId (Some (new_Origin a t)) = t;
}.

(** ** The record *)

Record DetectedRule := mkDetectedRule {
  dr_id : string; dr_revision : Z; dr_name : string; dr_source : option Source }.

Record DetectedStage := mkDetectedStage {
  ds_name : string; ds_event : string; ds_time : instant; ds_agent : string }.

Record Correlation := mkCorrelation {
  cn_window : duration; cn_spread : duration;
  cn_stages : list DetectedStage; cn_group : list Binding }.

Record Aggregation := mkAggregation {
  ag_count : Z; ag_threshold : Z; ag_window : duration;
  ag_first : instant; ag_saturated : bool; ag_group : list Binding }.

Record Detection := mkDetection {
  d_id : string;
  d_schema : Z;
  d_rule : DetectedRule;
  d_ruleset : string;
  d_severity : WireSeverity;
  d_technique : option Technique;
  d_class : EventClass;
  d_origin : option Proto;
  d_events : list string;
  d_event_time : option instant;
  d_detected_time : instant;
  d_evidence : list Evidence;
  d_aggregation : option Aggregation;
  d_correlation : option Correlation;
}.

Definition DetectionSchemaVersion : Z := 1.

Definition source_from (s : Source) : option Source := if source_empty s then None else Some s.

Definition decided (r : Rule) : DetectedRule :=
  mkDetectedRule (rule_id r) (uint32 (rule_revision r)) (rule_name r) (source_from (rule_source r)).

Definition attributed (t : Technique) : option Technique :=
  if technique_empty t then None else Some t.

Definition aggregated (counting : Count) (found : Counted) : option Aggregation :=
  if negb (Counts counting) then None
  else Some (mkAggregation (uint32 (counted_count found)) (uint32 (count_at_least counting))
               (count_within counting) (counted_first found) (counted_saturated found)
               (counted_group found)).

Definition correlation_of (sequence : Sequence) (found : Correlated) : option Correlation :=
  if negb (Correlates sequence) then None
  else Some (mkCorrelation (seq_within sequence) (corr_clock_spread found)
               ((λ s, mkDetectedStage (sat_name s) (sat_event s) (sat_at s) (sat_agent s))
                  <$> corr_stages found)
               (corr_group found)).

Definition sentEvents (c : Correlated) : list sentEvent :=
  (λ s, mkSentEvent (sat_agent s) (sat_event s)) <$> corr_stages c.

Definition spansAgents (c : Correlated) : bool :=
  match head (corr_stages c) with
  | None => false
  | Some first => existsb (λ s, negb (bool_decide (sat_agent s = sat_agent first))) (corr_stages c)
  end.

Section detected.
Context {M : Type} {MS : Messages M} {EV : Events M} (digest : string → string).

Definition TenantOf (record : M) : string := GetTenantId (GetOrigin record).
Definition AgentOf (record : M) : string := GetAgentId (GetOrigin record).

(** [Detected]. A correlating match has at least one stage; [Engine.completed]
    gives it as many as the rule has. *)
Definition Detected (m : Match) (ruleset : string) (record : M) (at_ : instant) : Detection :=
  let '(from, events, happened, origin) :=
    match Correlates (rule_sequence (m_rule m)), last (corr_stages (m_correlated m)) with
    | true, Some last =>
        (sentEvents (m_correlated m), corr_events (m_correlated m), Some (sat_at last),
         if spansAgents (m_correlated m)
         then Some (new_Origin (sat_agent last) (TenantOf record))
         else declared (GetOrigin record))
    | _, _ =>
        ([mkSentEvent (AgentOf record) (GetEventId record)], [GetEventId record],
         GetEventTime record, declared (GetOrigin record))
    end in
  {| d_id := identify digest (rule_id (m_rule m)) (rule_revision (m_rule m)) (TenantOf record) from;
     d_schema := DetectionSchemaVersion;
     d_rule := decided (m_rule m);
     d_ruleset := ruleset;
     d_severity := default SEVERITY_UNSPECIFIED (severities (rule_severity (m_rule m)));
     d_technique := attributed (rule_technique (m_rule m));
     d_class := GetEventClass record;
     d_origin := origin;
     d_events := events;
     d_event_time := happened;
     d_detected_time := at_;
     d_evidence := m_evidence m;
     d_aggregation := aggregated (rule_count (m_rule m)) (m_counted m);
     d_correlation := correlation_of (rule_sequence (m_rule m)) (m_correlated m) |}.

(** ** What a detection says *)

Lemma forget_reaches m0 fm : reaches m0 fm → ∀ m, fm = forget m → unknown_of m0 = "".
Proof.
  induction 1 as [m0|u fields name m1 m2 Hin Hw IH|u fields name l m1 m2 Hin Hl Hw IH];
    intros [u' fields'] Heq; cbn in Heq.
  - by rewrite Heq.
  - injection Heq as -> ->. apply list_elem_of_In, in_map_iff in Hin as ([n f] & Hf & _).
    destruct f; simplify_eq. by eapply IH.
  - injection Heq as -> ->. apply list_elem_of_In, in_map_iff in Hin as ([n f] & Hf & _).
    destruct f as [| |l'|]; simplify_eq.
    apply list_elem_of_In, in_map_iff in Hl as (m & <- & _). by eapply IH.
Qed.

(** What a producer wrote in fields the contract does not declare never
    reaches a detection: no message inside the origin it carries holds unknown
    bytes, at any depth, unless the platform built that origin itself. *)
Theorem a_detection_carries_nothing_undeclared m ruleset record at_ o inside :
  spansAgents (m_correlated m) = false →
  d_origin (Detected m ruleset record at_) = Some o → reaches inside o →
  unknown_of inside = "".
Proof.
  intros Hs Ho Hin. unfold Detected in Ho. rewrite Hs in Ho.
  assert (declared (GetOrigin record) = Some o) as Hd
    by (destruct (Correlates _), (last (corr_stages (m_correlated m))); done).
  unfold declared in Hd. apply fmap_Some in Hd as (m0 & _ & ->).
  by eapply forget_reaches.
Qed.

Lemma Detected_tenant `{!EventLaws M} m ruleset record at_ :
  GetTenantId (d_origin (Detected m ruleset record at_)) = TenantOf record.
Proof.
  unfold Detected, TenantOf.
  destruct (Correlates _); [destruct (last (corr_stages (m_correlated m))); [destruct (spansAgents _) |] |];
    cbn; by rewrite ?tenant_new, ?tenant_declared.
Qed.

Lemma Detected_correlation m ruleset record at_ :
  d_correlation (Detected m ruleset record at_)
  = correlation_of (rule_sequence (m_rule m)) (m_correlated m).
Proof. unfold Detected. by destruct (Correlates _), (last (corr_stages (m_correlated m))). Qed.

Lemma Detected_from m ruleset record at_ :
  ∃ from, d_id (Detected m ruleset record at_)
            = identify digest (rule_id (m_rule m)) (rule_revision (m_rule m)) (TenantOf record) from
          ∧ d_events (Detected m ruleset record at_) = sent_event <$> from.
Proof.
  unfold Detected.
  destruct (Correlates _); [destruct (last (corr_stages (m_correlated m))) |]; cbn;
    (eexists; split; [done |]); try done.
  unfold corr_events, sentEvents. by rewrite <- list_fmap_compose.
Qed.

(** A detection belongs to the tenant of the event that decided it: the
    tenant its origin names and the tenant its identity is hashed with are the
    event's, whether one agent told the story or several did. *)
Theorem a_detection_is_its_tenants `{!EventLaws M} m ruleset record at_ :
  let d := Detected m ruleset record at_ in
  GetTenantId (d_origin d) = TenantOf record
  ∧ ∃ from, d_id d = identify digest (rule_id (m_rule m)) (rule_revision (m_rule m))
                       (TenantOf record) from
            ∧ d_events d = sent_event <$> from.
Proof.
  split; [apply Detected_tenant | apply Detected_from].
Qed.
End detected.
