(* ===== verification/Sample.v ===== *)
(** * A small contract, for witnesses

    An event with an identifier, an origin and one body, the messages that carry
    them and a way of writing values, each shown to keep the laws the theorems
    ask of the parameter it stands for. *)

From Stdlib Require Import ZArith Lia Ascii Floats.SpecFloat.
From stdpp Require Import base tactics option gmap strings pretty numbers list.
From S2P Require Import Prelude Text Rule Contract Validate WellFormed Compile CompileProps Contradiction ContradictionProps State Digest.


(** ** Descriptors *)

Definition no_enum : EnumDescriptor := mkEnum "" [].
Definition scalar (name : string) (k : PKind) : FieldDescriptor :=
  mkFieldDescriptor name false false k no_enum "".
Definition choice_of (name : string) (e : EnumDescriptor) : FieldDescriptor :=
  mkFieldDescriptor name false false EnumKind e "".
Definition message (name type : string) : FieldDescriptor :=
  mkFieldDescriptor name false false MessageKind no_enum type.

Definition class_enum : EnumDescriptor :=
  mkEnum "EventClass" [("EVENT_CLASS_UNSPECIFIED", 0); ("EVENT_CLASS_AUTHENTICATION", 1)].
Definition outcome_enum : EnumDescriptor :=
  mkEnum "Outcome" [("OUTCOME_UNSPECIFIED", 0); ("OUTCOME_SUCCESS", 1); ("OUTCOME_FAILURE", 2)].

Definition event_fields : list FieldDescriptor :=
  [scalar "event_id" StringKind; choice_of "event_class" class_enum;
   message "time" "google.protobuf.Timestamp";
   message "origin" "Origin"; message "authentication" "Authentication"].
Definition origin_fields : list FieldDescriptor :=
  [scalar "tenant_id" StringKind; scalar "agent_id" StringKind].
Definition authentication_fields : list FieldDescriptor :=
  [choice_of "outcome" outcome_enum; scalar "attempts" Int32Kind; message "user" "User"].
Definition user_fields : list FieldDescriptor := [scalar "name" StringKind].

#[global] Instance sample_contract : Contract := {|
  message_fields name :=
    if decide (name = "Event") then event_fields
    else if decide (name = "Origin") then origin_fields
    else if decide (name = "Authentication") then authentication_fields
    else if decide (name = "User") then user_fields
    else [];
  event_message := "Event";
  event_oneofs := ["authentication"];
  EventClass_name z :=
    if z =? 0 then Some "EVENT_CLASS_UNSPECIFIED"
    else if z =? 1 then Some "EVENT_CLASS_AUTHENTICATION" else None;
|}.

#[global] Instance free_of_dec c s : Decision (free_of c s).
Proof. induction s; cbn; apply _. Defined.

Definition plain_field (f : FieldDescriptor) : Prop :=
  free_of " " (fd_name f)
  ∧ NoDup (choicesOf (fd_enum f)) ∧ Forall (λ s, free_of "," s ∧ free_of "]" s) (choicesOf (fd_enum f)).
#[global] Instance plain_field_dec f : Decision (plain_field f).
Proof. unfold plain_field. apply _. Defined.

Lemma sample_plain m f : f ∈ message_fields m → plain_field f.
Proof.
  assert (Forall plain_field (event_fields ++ origin_fields ++ authentication_fields ++ user_fields)) as Hall
    by (apply (bool_decide_unpack _); vm_compute; exact I).
  rewrite !Forall_app, !Forall_forall in Hall. destruct Hall as (H1 & H2 & H3 & H4).
  cbn. repeat case_decide; auto. by intros ?%elem_of_nil.
Qed.

#[global] Instance sample_contract_laws : ContractLaws.
Proof.
  split.
  - intros m f Hf. by apply sample_plain in Hf as [? _].
  - intros m f Hf _. by apply sample_plain in Hf as [_ ?].
Qed.

(** ** Messages *)

Inductive tree := Tree (class : Z) (scalars : list (string * PValue)) (subs : list (string * tree)).

Definition kind_ok (k : PKind) (v : PValue) : bool :=
  match k, v with
  | StringKind, PString _ | BytesKind, PBytes _ | BoolKind, PBool _ | EnumKind, PEnum _
  | (Int32Kind | Sint32Kind | Sfixed32Kind), PInt32 _
  | (Int64Kind | Sint64Kind | Sfixed64Kind), PInt64 _
  | (Uint32Kind | Fixed32Kind), PUint32 _ | (Uint64Kind | Fixed64Kind), PUint64 _
  | FloatKind, PFloat32 _ | DoubleKind, PFloat64 _ => true
  | _, _ => false
  end.

Definition assoc {A} (name : string) (l : list (string * A)) : option A :=
  snd <$> List.find (λ p, bool_decide (p.1 = name)) l.

Definition tree_value (t : tree) (f : FieldDescriptor) : option PValue :=
  let 'Tree _ scalars _ := t in
  match assoc (fd_name f) scalars with
  | Some v => if kind_ok (fd_kind f) v then Some v else None
  | None => None
  end.

(** [Has] of a field that holds a message asks whether the message is set. *)
#[global] Instance tree_messages : Messages tree := {|
  Has t f := match fd_kind f with
             | MessageKind | GroupKind =>
                 let 'Tree _ _ subs := t in bool_decide (is_Some (assoc (fd_name f) subs))
             | _ => bool_decide (is_Some (tree_value t f))
             end;
  Get t f := default (PString "") (tree_value t f);
  GetMessage t f := let 'Tree _ _ subs := t in default (Tree 0 [] []) (assoc (fd_name f) subs);
  GetEventClass t := let 'Tree class _ _ := t in class;
|}.

#[global] Instance tree_message_laws : MessageLaws tree.
Proof.
  intros t f [kind Hk] Hh. cbn in *. assert (is_Some (tree_value t f)) as [v Hv].
  { unfold kind_of_leaf in Hk. destruct (fd_kind f); try done; by apply bool_decide_eq_true in Hh. }
  rewrite Hv. cbn. destruct t as [cl sc subs]. cbn in Hv.
  destruct (assoc (fd_name f) sc) as [w|]; [| done].
  destruct (kind_ok (fd_kind f) w) eqn:Hok; [| done]. injection Hv as ->.
  by destruct (fd_kind f), v.
Qed.

(** ** Writing values *)

Definition sample_float (f : float64) : string :=
  match f with
  | S754_nan => "n"
  | S754_infinity s => if s then "i" else "j"
  | S754_zero s => if s then "y" else "z"
  | S754_finite s m e => String (if s then "q" else "p") (pretty (Npos m) +:+ String "e" (pretty e))
  end.

#[global] Instance sample_formats : Formats := {|
  Quote := write;
  Format v := match v with
              | PInt32 z | PInt64 z | PUint32 z | PUint64 z => pretty z
              | PFloat32 f | PFloat64 f => sample_float f
              | _ => ""
              end;
|}.

Lemma pretty_N_lacks c n :
  (∀ x, pretty_N_char x ≠ c) → free_of c (pretty (n : N)).
Proof.
  intros Hc. assert (∀ x s, free_of c s → free_of c (pretty_N_go x s)) as Hgo.
  { intros x. induction (N.lt_wf_0 x) as [x _ IH]; intros s Hs.
    assert (x = 0 ∨ 0 < x)%N as [->|Hx] by lia; [by rewrite pretty_N_go_0 |].
    rewrite pretty_N_go_step by done. apply IH; [by apply N.div_lt |]. by split. }
  unfold pretty, pretty_N. case_decide; [split; [apply (Hc 0%N) | done] | by apply Hgo].
Qed.

Lemma pretty_Z_lacks c z :
  (∀ x, pretty_N_char x ≠ c) → c ≠ "-"%char → free_of c (pretty (z : Z)).
Proof.
  intros Hc Hm. unfold pretty, pretty_Z. destruct z.
  - split; [apply (Hc 0%N) | done].
  - by apply (pretty_N_lacks c (Npos p)).
  - split; [done | by apply (pretty_N_lacks c (Npos p))].
Qed.

Ltac not_a_digit := intros x; unfold pretty_N_char; repeat case_match; discriminate.

Lemma pretty_token (z : Z) : token (pretty z).
Proof. split; apply pretty_Z_lacks; (discriminate || not_a_digit). Qed.

Lemma sample_float_token f : token (sample_float f).
Proof.
  destruct f as [[]|[]| |s m e]; try (split; cbn; repeat split; discriminate).
  split; cbn [sample_float]; (split; [by destruct s |]);
    (apply free_of_app; [apply pretty_N_lacks; not_a_digit |]);
    (split; [discriminate | apply pretty_Z_lacks; (discriminate || not_a_digit)]).
Qed.

Lemma sample_float_inj f g : sample_float f = sample_float g → f = g.
Proof.
  destruct f as [[]|[]| |[] m e], g as [[]|[]| |[] m' e']; try done; cbn [sample_float];
    intros [= Heq]; apply split_at in Heq as [Hm He]; try (apply pretty_N_lacks; not_a_digit);
    apply (inj pretty) in Hm; apply (inj pretty) in He; congruence.
Qed.

#[global] Instance sample_format_laws : FormatLaws.
Proof.
  split.
  - intros a b x y. apply write_split.
  - intros k a b Hk Ha Hb. destruct k, a, b; try done; cbn; intros He;
      first [by rewrite (inj pretty _ _ He) | by rewrite (sample_float_inj _ _ He)].
  - intros k a Hk Ha. destruct k, a; try done; cbn; auto using pretty_token, sample_float_token.
Qed.

(** * Rules and events of the small contract: witnesses of the detection theorems *)


(** Failed logins of anyone but root. *)
Definition failed : Predicate := mkPredicate "authentication.outcome" Equals [TextValue "failure"].
Definition root_user : Predicate := mkPredicate "authentication.user.name" Equals [TextValue "root"].
Definition failed_by_others : Expression := All [Pred failed; Not (Pred root_user)].

Definition sample_rule (e : Expression) (s : Sequence) : Rule :=
  {| rule_id := "ssh_bruteforce"; rule_revision := 1; rule_name := "Failed logins";
     rule_description := "A login that failed"; rule_class := 1; rule_match := e;
     rule_count := mkCount 0 0 []; rule_sequence := s; rule_severity := High;
     rule_status := Active; rule_technique := mkTechnique "" "" "";
     rule_false_positives := ""; rule_response := ""; rule_source := mkSource "" "";
     rule_tags := ["ssh"]; rule_references := [] |}.
Definition no_sequence : Sequence := mkSequence [] 0 [].
Definition sample_match : Rule := sample_rule failed_by_others no_sequence.

(** The sample rule is one the platform runs. *)
Example sample_match_validates : Validate (λ _, None) sample_match = Ok tt.
Proof. vm_compute. reflexivity. Qed.

Definition login (outcome : Z) (user : string) : tree :=
  Tree 1 [("event_id", PString "evt-1")]
    [("authentication", Tree 0 [("outcome", PEnum outcome)]
        [("user", Tree 0 [("name", PString user)] [])])].

Definition compiled_or (e : Expression) : node :=
  match compile sample_match "match" e ∅ with
  | Ok (n, _) => n
  | Err _ => Conjunction []
  end.
Definition sample_program : Program :=
  mkProgram sample_match (Some (compiled_or failed_by_others)) [] [] [].

Lemma compiling_preserves_the_rule_witness :
  match compile sample_match "match" failed_by_others ∅ with
  | Ok (n, fields) =>
      (∀ record : tree, truth n record = true ↔ says failed_by_others record)
      ∧ fields = fields_of failed_by_others
      ∧ ∀ p value, p ∈ predicates_of failed_by_others → value ∈ pred_values p →
          ∃ leaf literal, leaf_of (pred_field p) = Some leaf ∧ stands leaf value literal
  | Err v =>
      v_rule v = rule_id sample_match
      ∧ ∃ p value leaf, p ∈ predicates_of failed_by_others ∧ value ∈ pred_values p
          ∧ leaf_of (pred_field p) = Some leaf ∧ unheld leaf value (v_reason v)
  end.
Proof.
  apply (compiling_preserves_the_rule (M := tree) sample_match failed_by_others "match").
  - vm_compute. reflexivity.
  - intros p value Hp Hv. cbn in Hp.
    repeat (apply elem_of_cons in Hp as [->|Hp]; [apply list_elem_of_singleton in Hv as ->; reflexivity |]).
    by apply elem_of_nil in Hp.
Defined.

Lemma a_match_is_the_formula_witness :
  ∃ m, Decide sample_program (Some (login 2 "alice")) = Some m ∧ m_rule m = p_rule sample_program.
Proof.
  apply (a_match_is_the_formula sample_program (compiled_or failed_by_others) (login 2 "alice")
    eq_refl eq_refl).
  split; vm_compute; reflexivity.
Defined.

Definition staged_program : Program :=
  mkProgram sample_match None
    [mkStaged "failed" (compiled_or (Pred failed)); mkStaged "as root" (compiled_or (Pred root_user))] [] [].

(** The same login with another event identifier is decided by the stage that held. *)
Lemma evidence_is_reason_enough_witness :
  is_Some (Decide staged_program (Some (login 2 "alice")))
  ∧ is_Some (Decide staged_program (Some (Tree 1 [("event_id", PString "evt-2")]
      [("authentication", Tree 0 [("outcome", PEnum 2)]
          [("user", Tree 0 [("name", PString "alice")] [])])]))).
Proof.
  destruct (evidence_is_reason_enough staged_program (login 2 "alice") ltac:(vm_compute; discriminate)) as [Hdecides Henough].
  destruct (Decide staged_program (Some (login 2 "alice"))) as [m|] eqn:Hm; [| vm_compute in Hm; discriminate].
  split; [done |]. apply (Henough m eq_refl); [reflexivity |].
  intros root c neg Hroot _ Hc _. cbn in Hroot.
  repeat (apply elem_of_cons in Hroot as [->|Hroot];
    [vm_compute in Hc; repeat (apply elem_of_cons in Hc as [Hc|Hc]; [injection Hc as -> _; vm_compute; reflexivity |]);
     by apply elem_of_nil in Hc |]).
  by apply elem_of_nil in Hroot.
Defined.

Lemma satisfied_stages_are_the_formulas_witness :
  stages_has (SatisfiedStages staged_program (Some (login 2 "alice"))).1 (Z.of_nat 0) = true.
Proof.
  rewrite (satisfied_stages_are_the_formulas staged_program (login 2 "alice") 0
    (mkStaged "failed" (compiled_or (Pred failed))) ltac:(vm_compute; lia) eq_refl).
  vm_compute. reflexivity.
Defined.

(** A rule that asks one field to be two things. *)
Definition impossible : Expression :=
  All [Pred root_user; Pred (mkPredicate "authentication.user.name" Equals [TextValue "alice"])].

Definition fields_or (e : Expression) : gset Field :=
  match compile sample_match "match" e ∅ with Ok (_, fields) => fields | Err _ => ∅ end.

Lemma compiles_to e :
  is_ok (compile sample_match "match" e ∅) = true →
  compile sample_match "match" e ∅ = Ok (compiled_or e, fields_or e).
Proof. unfold compiled_or, fields_or. by destruct (compile _ _ _ _) as [[n f]|]. Qed.

Lemma a_refused_rule_is_degenerate_witness :
  ∃ sub, sub ∈ nodes (compiled_or impossible) ∧ degenerate (M := tree) sub.
Proof.
  apply (a_refused_rule_is_degenerate (M := tree) sample_match impossible "match"
    (compiled_or impossible) (fields_or impossible)
    (violation sample_match "match.all" NothingSatisfies)).
  - vm_compute. reflexivity.
  - apply compiles_to. vm_compute. reflexivity.
  - vm_compute. reflexivity.
Defined.
