(* ===== verification/Keeper.v ===== *)
(** * The keeper: state held by the process that decides (keeper.go, tenancy.go)

    One map from keys to windows under a lock, and per tenant the counts its
    quotas are charged against and, per partition, a queue of its keys by when
    each could be past. The source shares a [held] between the map and a queue by
    pointer; here a queue names the key and the window is read from the map,
    which [keeper_ok] shows is always there. [container/heap] is modelled by its
    contract: the queue is kept in order of [at], so its first element is a
    soonest one, [Push] and [Fix] put one in place and [Pop] takes the first. *)

From Stdlib Require Import ZArith Lia.
From stdpp Require Import base tactics option gmap strings sorting numbers list.
From S2P Require Import Prelude Text Rule Contract Validate State Window.

Record expiry := mkExpiry { exp_at : instant; exp_key : Key }.

Record partitionKeys := mkPartitionKeys {
  watermark : instant;
  heard : instant;
  expiring : list expiry;
}.

Record tenantKeys := mkTenantKeys {
  t_tenant : string;
  t_held : Z;
  t_rules : gmap string Z;
  t_partitions : gmap Z partitionKeys;
}.

Record Keeper := mkKeeper {
  k_bounds : Bounds;
  k_keys : gmap Key held;
  k_tenants : gmap string tenantKeys;
  k_newest : instant;
  k_swept : instant;
}.

Definition NewKeeper (b : Bounds) : result StateError Keeper :=
  match bounds_validate b with
  | Err e => Err e
  | Ok _ => Ok (mkKeeper b ∅ ∅ time_zero time_zero)
  end.

(** ** A tenant's counts (tenancy.go) *)

Definition newTenantKeys (tenant : string) : tenantKeys := mkTenantKeys tenant 0 ∅ ∅.

Definition refuses (t : tenantKeys) (rule : string) (b : Bounds) : option StateError :=
  if KeysPerTenant b <=? t_held t then Some ErrTenantAtCapacity
  else if KeysPerRule b <=? default 0 (t_rules t !! rule) then Some ErrRuleAtCapacity
  else None.

Definition opened (rule : string) (t : tenantKeys) : tenantKeys :=
  mkTenantKeys (t_tenant t) (t_held t + 1)
    (<[rule := default 0 (t_rules t !! rule) + 1]> (t_rules t)) (t_partitions t).

Definition closed (rule : string) (t : tenantKeys) : tenantKeys :=
  let n := default 0 (t_rules t !! rule) - 1 in
  mkTenantKeys (t_tenant t) (t_held t - 1)
    (if n <=? 0 then delete rule (t_rules t) else <[rule := n]> (t_rules t))
    (t_partitions t).

Definition with_partitions (ps : gmap Z partitionKeys) (t : tenantKeys) : tenantKeys :=
  mkTenantKeys (t_tenant t) (t_held t) (t_rules t) ps.

(** ** A partition's clock and queue (tenancy.go) *)

Definition delivered (at_ newest : instant) (p : partitionKeys) : partitionKeys :=
  mkPartitionKeys (if after at_ (watermark p) then at_ else watermark p) newest (expiring p).

Definition clock (newest : instant) (p : partitionKeys) : instant :=
  time_add (watermark p) (time_sub newest (heard p)).

Definition with_expiring (q : list expiry) (p : partitionKeys) : partitionKeys :=
  mkPartitionKeys (watermark p) (heard p) q.

(** [heap.Push], and [heap.Fix] of an element taken out: put one in place. *)
Fixpoint heap_push (e : expiry) (q : list expiry) : list expiry :=
  match q with
  | [] => [e]
  | x :: q' => if exp_at e <? exp_at x then e :: q else x :: heap_push e q'
  end.

(** ** The store (keeper.go) *)

Definition with_keys (ks : gmap Key held) (k : Keeper) : Keeper :=
  mkKeeper (k_bounds k) ks (k_tenants k) (k_newest k) (k_swept k).
Definition with_tenants (ts : gmap string tenantKeys) (k : Keeper) : Keeper :=
  mkKeeper (k_bounds k) (k_keys k) ts (k_newest k) (k_swept k).

Definition advance (tenant : string) (seen : Observation) (k : Keeper) : Keeper :=
  let newest := if after (At seen) (k_newest k) then At seen else k_newest k in
  let k := mkKeeper (k_bounds k) (k_keys k) (k_tenants k) newest (k_swept k) in
  match k_tenants k !! tenant with
  | None => k
  | Some owner =>
      match t_partitions owner !! Partition seen with
      | None => k
      | Some p =>
          let ps := <[Partition seen := delivered (At seen) newest p]> (t_partitions owner) in
          with_tenants (<[tenant := with_partitions ps owner]> (k_tenants k)) k
      end
  end.

(** The inner loop of [reclaim]: while the soonest queued key is before the
    clock, drop it, or file it again when it was observed since. Every turn
    leaves one entry fewer before the clock, so the queue's length is fuel
    enough. *)
Fixpoint reclaim_queue (fuel : nat) (clock_ : instant)
    (q : list expiry) (keys : gmap Key held) (owner : tenantKeys)
    : list expiry * gmap Key held * tenantKeys :=
  match fuel, q with
  | S fuel, x :: q' =>
      if before (exp_at x) clock_ then
        match keys !! exp_key x with
        | Some entry =>
            let at_ := held_expires entry in
            if negb (before at_ clock_) then
              reclaim_queue fuel clock_ (heap_push (mkExpiry at_ (exp_key x)) q') keys owner
            else
              reclaim_queue fuel clock_ q' (delete (exp_key x) keys)
                (closed (KeyRule (exp_key x)) owner)
        | None => (q, keys, owner)
        end
      else (q, keys, owner)
  | _, _ => (q, keys, owner)
  end.

(** The outer loop of [reclaim], over the owner's partitions. *)
Definition reclaim_partition (newest : instant) (partition : Z) (p : partitionKeys)
    (st : gmap Key held * tenantKeys) : gmap Key held * tenantKeys :=
  let '(keys, owner) := st in
  let '(q, keys, owner) :=
    reclaim_queue (length (expiring p)) (clock newest p) (expiring p) keys owner in
  let ps := if decide (length q = O) then delete partition (t_partitions owner)
            else <[partition := with_expiring q p]> (t_partitions owner) in
  (keys, with_partitions ps owner).

Definition reclaim (owner : tenantKeys) (k : Keeper) : Keeper * tenantKeys :=
  let '(keys, owner') :=
    foldr (λ '(n, p) st, reclaim_partition (k_newest k) n p st)
          (k_keys k, owner) (map_to_list (t_partitions owner)) in
  let tenants := if t_held owner' =? 0 then delete (t_tenant owner') (k_tenants k)
                 else <[t_tenant owner' := owner']> (k_tenants k) in
  (mkKeeper (k_bounds k) keys tenants (k_newest k) (k_swept k), owner').

Definition sweepEvery : duration := second.

Definition sweep (k : Keeper) : Keeper :=
  if time_sub (k_newest k) (k_swept k) <? sweepEvery then k
  else
    let k := mkKeeper (k_bounds k) (k_keys k) (k_tenants k) (k_newest k) (k_newest k) in
    foldr (λ '(_, owner) k, (reclaim owner k).1) k (map_to_list (k_tenants k)).

Definition key_count (k : Keeper) : Z := Z.of_nat (size (k_keys k)).

Definition keeper_admit (key : Key) (k : Keeper) : Keeper * option StateError :=
  let '(k, refused) :=
    match k_tenants k !! Tenant key with
    | None => (k, None)
    | Some owner =>
        let '(k, owner) :=
          if bool_decide (refuses owner (KeyRule key) (k_bounds k) ≠ None)
             || (Keys (k_bounds k) <=? key_count k)
          then reclaim owner k else (k, owner) in
        (k, refuses owner (KeyRule key) (k_bounds k))
    end in
  match refused with
  | Some e => (k, Some e)
  | None =>
      let k := if Keys (k_bounds k) <=? key_count k then sweep k else k in
      if Keys (k_bounds k) <=? key_count k then (k, Some ErrAtCapacity) else (k, None)
  end.

Definition open (entry : held) (seen : Observation) (k : Keeper) : Keeper :=
  let tenant := Tenant (h_key entry) in
  let owner := default (newTenantKeys tenant) (k_tenants k !! tenant) in
  let p := default (mkPartitionKeys (At seen) (k_newest k) [])
             (t_partitions owner !! Partition seen) in
  let owner := opened (KeyRule (h_key entry)) owner in
  let p := with_expiring (heap_push (mkExpiry (held_expires entry) (h_key entry)) (expiring p)) p in
  let owner := with_partitions (<[Partition seen := p]> (t_partitions owner)) owner in
  mkKeeper (k_bounds k) (<[h_key entry := entry]> (k_keys k))
    (<[tenant := owner]> (k_tenants k)) (k_newest k) (k_swept k).

(** [fold]: the one operation of the store. [ctx_err] is [ctx.Err()]. What it
    answers is the state, the window in event time when it was read, and the
    error. *)
Definition fold (ctx_err : option StateError) (key : Key) (seen : Observation)
    (window : duration) (read : bool) (k : Keeper)
    : Keeper * (State * list Observation * option StateError) :=
  match ctx_err with
  | Some e => (k, (state_zero, [], Some e))
  | None =>
  match observation_validate seen with
  | Err e => (k, (state_zero, [], Some e))
  | Ok _ =>
  if window <=? 0 then (k, (state_zero, [], Some ErrNoWindow))
  else if Window (k_bounds k) <? window then (k, (state_zero, [], Some ErrWindowTooLong))
  else
    let k := advance (Tenant key) seen k in
    match k_keys k !! key with
    | Some entry =>
        let '(entry, (state, err)) :=
          held_observe seen (ObservationsPerKey (k_bounds k)) (set_window window entry) in
        let k := with_keys (<[key := entry]> (k_keys k)) k in
        (k, (state, if bool_decide (err = None) && read then h_seen entry else [], err))
    | None =>
        match keeper_admit key k with
        | (k, Some e) => (k, (state_zero, [], Some e))
        | (k, None) =>
            let '(entry, (state, err)) :=
              held_observe seen (ObservationsPerKey (k_bounds k))
                (set_window window (held_new key)) in
            let k := open entry seen k in
            (k, (state, if bool_decide (err = None) && read then h_seen entry else [], err))
        end
    end
  end
  end.

Definition Observe ctx_err key seen window (k : Keeper)
    : Keeper * (State * option StateError) :=
  let '(k, (state, _, err)) := fold ctx_err key seen window false k in (k, (state, err)).

Definition Ordered ctx_err key seen window (k : Keeper)
    : Keeper * (State * list Observation * option StateError) :=
  fold ctx_err key seen window true k.

Definition KeeperKeys (k : Keeper) : Z := key_count k.

Definition FullestTenant (k : Keeper) : Z :=
  map_fold (λ _ owner fullest, Z.max fullest (t_held owner)) 0 (k_tenants k).

Definition FullestRule (k : Keeper) : Z :=
  map_fold (λ _ owner fullest,
    map_fold (λ _ keys fullest, Z.max fullest keys) fullest (t_rules owner)) 0 (k_tenants k).

Definition Watermark (tenant : string) (partition : Z) (k : Keeper) : instant :=
  match k_tenants k !! tenant with
  | None => time_zero
  | Some owner =>
      match t_partitions owner !! partition with
      | None => time_zero
      | Some p => watermark p
      end
  end.
