(* ===== verification/KeeperInv.v ===== *)
(** * The keeper's invariant

    Every count a quota is charged against is the number of keys it claims to
    count, every key stands in exactly one queue of its tenant, and no bound the
    keeper was given is ever passed. *)

From Stdlib Require Import ZArith Lia.
From stdpp Require Import base tactics option gmap strings sorting numbers list.
From S2P Require Import Prelude Text Rule Contract Validate State Window Keeper.

(** ** Keys of a tenant *)

Definition tenant_keys (t : string) (keys : gmap Key held) : list Key :=
  filter (λ key, Tenant key = t) (map_to_list keys).*1.

Definition of_rule (r : string) (Q : list Key) : list Key :=
  filter (λ key, KeyRule key = r) Q.

(** Every key of a tenant's queues, over all its partitions. *)
Definition queued (ps : gmap Z partitionKeys) : list Key :=
  map_to_list ps ≫= λ np, exp_key <$> expiring np.2.

Lemma tenant_keys_elem t keys key :
  key ∈ tenant_keys t keys ↔ Tenant key = t ∧ is_Some (keys !! key).
Proof.
  unfold tenant_keys. rewrite list_elem_of_filter, list_elem_of_fmap. split.
  - intros [? ([k h] & -> & Hin)]. apply elem_of_map_to_list in Hin. eauto.
  - intros [? [h Hh]]. split; [done |]. exists (key, h). by rewrite elem_of_map_to_list.
Qed.

Lemma tenant_keys_delete key h keys :
  keys !! key = Some h →
  tenant_keys (Tenant key) keys ≡ₚ key :: tenant_keys (Tenant key) (delete key keys).
Proof.
  intros Hk. unfold tenant_keys. rewrite <- (map_to_list_delete keys key h) by done.
  rewrite fmap_cons. by rewrite filter_cons_True.
Qed.

Lemma tenant_keys_delete_other t key keys :
  t ≠ Tenant key → tenant_keys t (delete key keys) ≡ₚ tenant_keys t keys.
Proof.
  intros Ht. destruct (keys !! key) as [h|] eqn:Hk; [| by rewrite delete_id].
  unfold tenant_keys. rewrite <- (map_to_list_delete keys key h) by done.
  rewrite fmap_cons. by rewrite filter_cons_False.
Qed.

Lemma tenant_keys_insert key h keys :
  keys !! key = None →
  tenant_keys (Tenant key) (<[key := h]> keys) ≡ₚ key :: tenant_keys (Tenant key) keys.
Proof.
  intros Hk. unfold tenant_keys. rewrite map_to_list_insert by done.
  rewrite fmap_cons. by rewrite filter_cons_True.
Qed.

Lemma tenant_keys_update t key h keys :
  is_Some (keys !! key) → tenant_keys t (<[key := h]> keys) ≡ₚ tenant_keys t keys.
Proof.
  intros [h' Hk]. unfold tenant_keys. rewrite <- insert_delete_eq.
  rewrite map_to_list_insert by apply lookup_delete_eq.
  rewrite <- (map_to_list_delete keys key h') by done. done.
Qed.

Lemma tenant_keys_insert_other t key h keys :
  t ≠ Tenant key → tenant_keys t (<[key := h]> keys) ≡ₚ tenant_keys t keys.
Proof.
  intros Ht. destruct (keys !! key) as [h'|] eqn:Hk; [apply tenant_keys_update; eauto |].
  unfold tenant_keys. rewrite map_to_list_insert by done.
  rewrite fmap_cons. by rewrite filter_cons_False.
Qed.

(** ** Counts against queues *)

(** [owner]'s counts are those of the keys [Q]. *)
Record counts (Q : list Key) (owner : tenantKeys) : Prop := {
  counts_held : t_held owner = len Q;
  counts_rule : ∀ r, default 0 (t_rules owner !! r) = len (of_rule r Q);
  counts_pos : ∀ r n, t_rules owner !! r = Some n → 0 < n;
}.

#[global] Instance counts_proper : Proper ((≡ₚ) ==> (=) ==> iff) counts.
Proof.
  intros Q1 Q2 HQ o ? <-.
  assert (len Q1 = len Q2) as Hl by (unfold len; by rewrite HQ).
  assert (∀ r, len (of_rule r Q1) = len (of_rule r Q2)) as Hr
    by (intros r; unfold len, of_rule; by rewrite HQ).
  split; intros [H1 H2 H3]; split; try done;
    try intros r; first [by rewrite H1, Hl | by rewrite H2, Hr].
Qed.

Lemma of_rule_cons r key Q :
  len (of_rule r (key :: Q)) = len (of_rule r Q) + (if decide (KeyRule key = r) then 1 else 0).
Proof.
  unfold of_rule. rewrite filter_cons. case_decide; unfold len; simpl; lia.
Qed.

Lemma counts_opened key Q owner :
  counts Q owner → counts (key :: Q) (opened (KeyRule key) owner).
Proof.
  intros [Hh Hr Hp]. split; cbn [t_held t_rules opened].
  - rewrite Hh. unfold len. simpl. lia.
  - intros r. rewrite of_rule_cons, lookup_insert.
    case_decide as Hd; [| rewrite Hr; lia].
    rewrite <- Hd, <- Hr. simpl. lia.
  - intros r n. rewrite lookup_insert. case_decide; [| apply Hp].
    intros [= <-]. rewrite Hr. pose proof (len_nonneg (of_rule (KeyRule key) Q)). lia.
Qed.

Lemma counts_closed key Q owner :
  counts (key :: Q) owner → counts Q (closed (KeyRule key) owner).
Proof.
  intros [Hh Hr Hp].
  assert (∀ r, default 0 (t_rules (closed (KeyRule key) owner) !! r) = len (of_rule r Q)
             ∧ (∀ n, t_rules (closed (KeyRule key) owner) !! r = Some n → 0 < n)) as H.
  { intros r. specialize (Hr r). rewrite of_rule_cons in Hr.
    pose proof (len_nonneg (of_rule r Q)).
    unfold closed; cbn [t_rules]. destruct (Z.leb_spec (default 0 (t_rules owner !! KeyRule key) - 1) 0).
    - rewrite lookup_delete. case_decide; [subst; rewrite Hr in *; cbn | split; [lia | apply Hp]].
      split; [lia | done].
    - rewrite lookup_insert. case_decide; [| split; [lia | apply Hp]].
      subst. cbn. split; [lia |]. intros n [= <-]. lia. }
  split; [| apply H | intros r n; apply H].
  cbn. rewrite Hh. unfold len. simpl. lia.
Qed.

(** ** Queues *)

Lemma heap_push_perm e q : heap_push e q ≡ₚ e :: q.
Proof.
  induction q as [|x q IH]; simpl; [done |]. case_match; [done |].
  rewrite IH. apply Permutation_swap.
Qed.

Lemma queued_insert n p ps :
  queued (<[n := p]> ps) ≡ₚ (exp_key <$> expiring p) ++ queued (delete n ps).
Proof.
  unfold queued. rewrite <- insert_delete_eq.
  rewrite map_to_list_insert by apply lookup_delete_eq. done.
Qed.

Lemma queued_delete n p ps :
  ps !! n = Some p → queued ps ≡ₚ (exp_key <$> expiring p) ++ queued (delete n ps).
Proof. intros Hn. rewrite <- (insert_id ps n p Hn) at 1. apply queued_insert. Qed.

(** ** The invariant *)

Record owner_ok (b : Bounds) (keys : gmap Key held) (t : string) (owner : tenantKeys) : Prop := {
  own_name : t_tenant owner = t;
  own_queue : queued (t_partitions owner) ≡ₚ tenant_keys t keys;
  own_counts : counts (tenant_keys t keys) owner;
  own_some : tenant_keys t keys ≠ [];
  own_tenant_quota : t_held owner ≤ KeysPerTenant b;
  own_rule_quota : ∀ r, default 0 (t_rules owner !! r) ≤ KeysPerRule b;
}.

Record keeper_ok (k : Keeper) : Prop := {
  kp_bounds : bounds_validate (k_bounds k) = Ok tt;
  kp_held : ∀ key h, k_keys k !! key = Some h →
    h_key h = key ∧ held_ok (ObservationsPerKey (k_bounds k)) h;
  kp_owner : ∀ t owner, k_tenants k !! t = Some owner →
    owner_ok (k_bounds k) (k_keys k) t owner;
  kp_owned : ∀ key, is_Some (k_keys k !! key) → is_Some (k_tenants k !! Tenant key);
  kp_keys : key_count k ≤ Keys (k_bounds k);
}.

(** ** Reclaiming *)

Lemma NoDup_tenant_keys t keys : NoDup (tenant_keys t keys).
Proof. apply NoDup_filter, NoDup_fst_map_to_list. Qed.

Lemma tenant_keys_mono t (keys' keys : gmap Key held) :
  keys' ⊆ keys → tenant_keys t keys' ⊆+ tenant_keys t keys.
Proof.
  intros Hsub. apply NoDup_submseteq; [apply NoDup_tenant_keys |].
  intros key. rewrite !tenant_keys_elem. intros [? [h Hh]]. split; [done |].
  exists h. by eapply lookup_weaken.
Qed.

Lemma counts_mono Q' Q owner' owner :
  Q' ⊆+ Q → counts Q' owner' → counts Q owner →
  t_held owner' ≤ t_held owner
  ∧ ∀ r, default 0 (t_rules owner' !! r) ≤ default 0 (t_rules owner !! r).
Proof.
  intros [K HK]%submseteq_Permutation [Hh' Hr' _] [Hh Hr _]. split.
  - rewrite Hh, Hh'. unfold len. rewrite HK, length_app. lia.
  - intros r. rewrite Hr, Hr'. unfold len, of_rule. rewrite HK, filter_app, length_app. lia.
Qed.

(** What reclaiming does to the keys of tenant [t]: some are gone, each of them
    one for which [lost] holds, and everything else stands. *)
Record reclaimed (t : string) (lost : Key → held → Prop)
    (keys keys' : gmap Key held) (owner owner' : tenantKeys) : Prop := {
  rec_sub : keys' ⊆ keys;
  rec_lost : ∀ key h, keys !! key = Some h → keys' !! key = None → Tenant key = t ∧ lost key h;
  rec_counts : counts (tenant_keys t keys') owner';
  rec_name : t_tenant owner' = t_tenant owner;
}.

Lemma reclaimed_refl t lost keys owner :
  counts (tenant_keys t keys) owner → reclaimed t lost keys keys owner owner.
Proof. intros Hc. split; [done | | done | done]. congruence. Qed.

Lemma reclaimed_other t lost keys keys' owner owner' key :
  reclaimed t lost keys keys' owner owner' → Tenant key ≠ t → keys' !! key = keys !! key.
Proof.
  intros [Hsub Hlost _ _] Hne. destruct (keys' !! key) as [h|] eqn:Hk'.
  - symmetry. by eapply lookup_weaken.
  - destruct (keys !! key) as [h|] eqn:Hk; [| done]. by destruct (Hlost key h Hk Hk').
Qed.

Lemma reclaim_queue_spec fuel t clk q keys owner rest q' keys' owner' :
  (exp_key <$> q) ++ rest ≡ₚ tenant_keys t keys →
  counts (tenant_keys t keys) owner →
  reclaim_queue fuel clk q keys owner = (q', keys', owner') →
  reclaimed t (λ key h, key ∈ exp_key <$> q ∧ before (held_expires h) clk = true)
    keys keys' owner owner'
  ∧ (exp_key <$> q') ++ rest ≡ₚ tenant_keys t keys'
  ∧ t_partitions owner' = t_partitions owner.
Proof.
  revert q keys owner. induction fuel as [|fuel IH]; intros q keys owner HQ Hc Hr;
    cbn [reclaim_queue] in Hr.
  { simplify_eq. split; [by apply reclaimed_refl | done]. }
  destruct q as [|x q0].
  { simplify_eq. split; [by apply reclaimed_refl | done]. }
  destruct (before (exp_at x) clk) eqn:Hb; [| simplify_eq; split; [by apply reclaimed_refl | done]].
  destruct (keys !! exp_key x) as [h|] eqn:Hx; [| simplify_eq; split; [by apply reclaimed_refl | done]].
  assert (Tenant (exp_key x) = t) as <-.
  { assert (exp_key x ∈ tenant_keys t keys) as Hin by (rewrite <- HQ; by left).
    by apply tenant_keys_elem in Hin as []. }
  destruct (negb (before (held_expires h) clk)) eqn:Hpast.
  - destruct (IH (heap_push (mkExpiry (held_expires h) (exp_key x)) q0) keys owner)
      as ([Hsub Hlost Hc' Hn] & HQ' & Hp); [by rewrite heap_push_perm | done | done |].
    split; [| done]. split; try done. intros key h' Hk Hk'.
    destruct (Hlost key h' Hk Hk') as (? & Hin & ?). split; [done |]. split; [| done].
    by rewrite heap_push_perm in Hin.
  - destruct (IH q0 (delete (exp_key x) keys) (closed (KeyRule (exp_key x)) owner))
      as ([Hsub Hlost Hc' Hn] & HQ' & Hp); [| | done |].
    { cbn in HQ. rewrite (tenant_keys_delete _ h) in HQ by done.
      by apply Permutation_cons_inv in HQ. }
    { apply counts_closed. by rewrite <- (tenant_keys_delete _ h). }
    split; [| done]. split; try done.
    + etrans; [done | apply delete_subseteq].
    + intros key h' Hk Hk'. destruct (decide (key = exp_key x)) as [->|Hne].
      { simplify_eq. split; [done |]. split; [by left |]. by apply negb_false_iff. }
      destruct (Hlost key h') as (? & ? & ?); [by rewrite lookup_delete_ne | done |].
      split; [done |]. split; [by right | done].
Qed.

(** Filing a key again keeps the queue's keys among those it had. *)
Lemma reclaim_queue_sub fuel clk q keys owner q' keys' owner' :
  reclaim_queue fuel clk q keys owner = (q', keys', owner') →
  exp_key <$> q' ⊆ exp_key <$> q.
Proof.
  revert q keys owner. induction fuel as [|fuel IH]; intros q keys owner Hr;
    cbn [reclaim_queue] in Hr; [by simplify_eq |].
  destruct q as [|x q]; [by simplify_eq |]. repeat case_match; simplify_eq; try done.
  - apply IH in Hr. etrans; [done |]. intros key. rewrite heap_push_perm. done.
  - apply IH in Hr. etrans; [done |]. intros key. by right.
Qed.

(** A key of [owner] some partition's clock has passed. *)
Definition past (newest : instant) (ps : gmap Z partitionKeys) (key : Key) (h : held) : Prop :=
  ∃ n p, ps !! n = Some p ∧ key ∈ exp_key <$> expiring p
         ∧ before (held_expires h) (clock newest p) = true.

Lemma reclaimed_trans t lost keys1 keys2 keys3 o1 o2 o3 :
  reclaimed t lost keys1 keys2 o1 o2 → reclaimed t lost keys2 keys3 o2 o3 →
  reclaimed t lost keys1 keys3 o1 o3.
Proof.
  intros [Hs1 Hl1 _ Hn1] [Hs2 Hl2 Hc2 Hn2]. split; [by etrans | | done | congruence].
  intros key h H1 H3. destruct (keys2 !! key) as [h'|] eqn:H2; [| by apply Hl1].
  assert (h' = h) as -> by (eapply (lookup_weaken _ _ _ _ H2) in Hs1; congruence).
  by apply Hl2.
Qed.

Lemma reclaimed_weaken t (lost1 lost2 : Key → held → Prop) keys keys' o o' :
  (∀ key h, lost1 key h → lost2 key h) →
  reclaimed t lost1 keys keys' o o' → reclaimed t lost2 keys keys' o o'.
Proof. intros Hw [? Hl ? ?]. split; try done. intros key h H1 H2. naive_solver. Qed.

(** Every partition of [ps'] is one of [ps] with some of its keys. *)
Definition parts_kept (ps ps' : gmap Z partitionKeys) : Prop :=
  ∀ n p', ps' !! n = Some p' → ∃ p, ps !! n = Some p
    ∧ watermark p' = watermark p ∧ heard p' = heard p
    ∧ exp_key <$> expiring p' ⊆ exp_key <$> expiring p.

Lemma past_kept newest ps ps' key h :
  parts_kept ps ps' → past newest ps' key h → past newest ps key h.
Proof.
  intros Hk (n & p' & Hp' & Hin & Hb). destruct (Hk n p' Hp') as (p & Hp & Hw & Hh & Hsub).
  exists n, p. split_and!; [done | by apply Hsub |]. unfold clock in *. by rewrite <- Hw, <- Hh.
Qed.

Lemma reclaim_partitions_spec newest t (L : list (Z * partitionKeys)) keys owner :
  NoDup L.*1 →
  (∀ n p, (n, p) ∈ L → t_partitions owner !! n = Some p) →
  queued (t_partitions owner) ≡ₚ tenant_keys t keys →
  counts (tenant_keys t keys) owner →
  let '(keys', owner') :=
    foldr (λ '(n, p) st, reclaim_partition newest n p st) (keys, owner) L in
  reclaimed t (past newest (t_partitions owner)) keys keys' owner owner'
  ∧ queued (t_partitions owner') ≡ₚ tenant_keys t keys'
  ∧ (∀ n, n ∉ L.*1 → t_partitions owner' !! n = t_partitions owner !! n)
  ∧ parts_kept (t_partitions owner) (t_partitions owner').
Proof.
  induction L as [|[n p] L IH]; intros HL Hps HQ Hc; cbn [foldr].
  { split_and!; [by apply reclaimed_refl | done | done | intros n p; naive_solver]. }
  cbn in HL. apply NoDup_cons in HL as [Hn HL].
  specialize (IH HL (λ m r Hm, Hps m r (list_elem_of_further _ _ _ Hm)) HQ Hc).
  destruct (foldr _ _ L) as [keys1 owner1]. destruct IH as (Hrec & HQ1 & Hfr & Hkept).
  unfold reclaim_partition. destruct (reclaim_queue _ _ _ _ _) as [[q' keys'] owner'] eqn:Hrq.
  assert (t_partitions owner !! n = Some p) as Hnp by (apply Hps; left).
  assert (t_partitions owner1 !! n = Some p) as Hnp1 by (by rewrite Hfr).
  rewrite (queued_delete n p) in HQ1 by done.
  destruct (reclaim_queue_spec _ t _ _ _ _ _ _ _ _ HQ1 (rec_counts _ _ _ _ _ _ Hrec) Hrq)
    as (Hrec' & HQ' & Hpart).
  split; [| split; [| split]].
  - assert (reclaimed t (past newest (t_partitions owner)) keys keys' owner owner')
      as [? ? Hc' ?]; [| by split; try done; destruct Hc'].
    eapply reclaimed_trans; [done |]. eapply reclaimed_weaken; [| done].
    intros key h [Hin Hb]. exists n, p. done.
  - cbn [t_partitions with_partitions]. rewrite Hpart. destruct q' as [|x q'].
    + rewrite decide_True by done. done.
    + rewrite decide_False by done. by rewrite queued_insert.
  - intros m Hm. cbn in Hm. apply not_elem_of_cons in Hm as [Hmn Hm].
    cbn [t_partitions with_partitions]. rewrite Hpart, <- Hfr by done.
    case_decide; [by rewrite lookup_delete_ne | by rewrite lookup_insert_ne].
  - cbn [t_partitions with_partitions]. rewrite Hpart. intros m p'.
    case_decide; [intros [_ ?]%lookup_delete_Some; by apply Hkept |].
    intros [[<- <-]|[_ ?]]%lookup_insert_Some; [| by apply Hkept].
    exists p. split_and!; [done | done | done |]. by eapply reclaim_queue_sub.
Qed.

Lemma tenant_keys_same t (keys keys' : gmap Key held) :
  (∀ key, Tenant key = t → is_Some (keys' !! key) ↔ is_Some (keys !! key)) →
  tenant_keys t keys' ≡ₚ tenant_keys t keys.
Proof.
  intros H. apply NoDup_Permutation; [apply NoDup_tenant_keys .. |].
  intros key. rewrite !tenant_keys_elem. naive_solver.
Qed.

Lemma owner_ok_same b t keys keys' owner :
  (∀ key, Tenant key = t → is_Some (keys' !! key) ↔ is_Some (keys !! key)) →
  owner_ok b keys t owner → owner_ok b keys' t owner.
Proof.
  intros Hsame [? HQ Hc Hs ? ?]. pose proof (tenant_keys_same t keys keys' Hsame) as Hp.
  split; [done | by rewrite Hp | by rewrite Hp | | done | done].
  intros Hnil. rewrite Hnil in Hp. apply Permutation_nil_l in Hp. by apply Hs.
Qed.

(** [reclaim] keeps the invariant, touches no other tenant and drops only keys
    a partition's clock has passed. *)
Lemma reclaim_spec k t owner k' owner' :
  keeper_ok k → k_tenants k !! t = Some owner → reclaim owner k = (k', owner') →
  keeper_ok k'
  ∧ reclaimed t (past (k_newest k) (t_partitions owner)) (k_keys k) (k_keys k') owner owner'
  ∧ parts_kept (t_partitions owner) (t_partitions owner')
  ∧ (∀ t', t' ≠ t → k_tenants k' !! t' = k_tenants k !! t')
  ∧ k_tenants k' !! t = (if decide (t_held owner' = 0) then None else Some owner')
  ∧ k_bounds k' = k_bounds k ∧ k_newest k' = k_newest k.
Proof.
  intros [Hb Hh Ho Hw Hk] Ht Hr. unfold reclaim in Hr.
  destruct (Ho t owner Ht) as [Hname HQ Hc Hsome Htq Hrq].
  pose proof (reclaim_partitions_spec (k_newest k) t (map_to_list (t_partitions owner))
    (k_keys k) owner (NoDup_fst_map_to_list _)) as Hspec.
  destruct (foldr _ _ _) as [keys1 owner1] eqn:Hf.
  destruct Hspec as (Hrec & HQ1 & _ & Hkept);
    [intros n p ?; by apply elem_of_map_to_list | done | done |].
  injection Hr as <- <-. cbn [k_keys k_tenants k_bounds k_newest].
  assert (t_tenant owner1 = t) as Hname1 by (rewrite (rec_name _ _ _ _ _ _ Hrec); done).
  rewrite Hname1.
  assert (∀ t', t' ≠ t → (if t_held owner1 =? 0 then delete t (k_tenants k)
            else <[t:=owner1]> (k_tenants k)) !! t' = k_tenants k !! t') as Hother.
  { intros t' Hne. case_match; [by apply lookup_delete_ne | by apply lookup_insert_ne]. }
  assert ((if t_held owner1 =? 0 then delete t (k_tenants k) else <[t:=owner1]> (k_tenants k)) !! t
          = if decide (t_held owner1 = 0) then None else Some owner1) as Hself.
  { destruct (Z.eqb_spec (t_held owner1) 0); [rewrite decide_True by done | rewrite decide_False by done];
      [apply lookup_delete_eq | apply lookup_insert_eq]. }
  pose proof (rec_sub _ _ _ _ _ _ Hrec) as Hsub.
  pose proof (rec_counts _ _ _ _ _ _ Hrec) as Hc1.
  split; [| split_and!; done].
  split; cbn [k_keys k_tenants k_bounds]; [done | | | |].
  - intros key h Hkey. apply Hh. by eapply lookup_weaken.
  - intros t' o' Ho'. destruct (decide (t' = t)) as [->|Hne].
    + rewrite Hself in Ho'. case_decide as Hz; simplify_eq.
      destruct (counts_mono _ _ _ _ (tenant_keys_mono _ _ _ Hsub) Hc1 Hc) as [Hm1 Hm2].
      split; [done | done | done | | lia | intros r; specialize (Hm2 r); specialize (Hrq r); lia].
      intros Hnil. rewrite Hnil in Hc1. by destruct Hc1 as [Hz' _ _].
    + rewrite Hother in Ho' by done. apply (owner_ok_same _ _ (k_keys k)); [| by apply Ho].
      intros key Hkt. rewrite (reclaimed_other _ _ _ _ _ _ _ Hrec); [done | congruence].
  - intros key [h Hkey]. destruct (decide (Tenant key = t)) as [Hkt|Hne].
    + rewrite Hkt, Hself. case_decide as Hz; [| eauto].
      assert (key ∈ tenant_keys t keys1) as Hin by (apply tenant_keys_elem; eauto).
      destruct Hc1 as [Hz' _ _]. rewrite Hz in Hz'. unfold len in Hz'.
      destruct (tenant_keys t keys1); [by apply elem_of_nil in Hin | done].
    + rewrite Hother by done. apply Hw. exists h. by eapply lookup_weaken.
  - unfold key_count in *. cbn [k_keys]. pose proof (map_subseteq_size _ _ Hsub). lia.
Qed.

(** ** Sweeping *)

(** What [reclaim] and [sweep] do to a store: keys of the tenants [ts] are
    dropped, each one its partition's clock has passed; nothing else changes. *)
Record drops (ts : string → Prop) (k k' : Keeper) : Prop := {
  dr_ok : keeper_ok k';
  dr_bounds : k_bounds k' = k_bounds k;
  dr_newest : k_newest k' = k_newest k;
  dr_sub : k_keys k' ⊆ k_keys k;
  dr_lost : ∀ key h, k_keys k !! key = Some h → k_keys k' !! key = None →
    ts (Tenant key) ∧ ∃ owner, k_tenants k !! Tenant key = Some owner
                               ∧ past (k_newest k) (t_partitions owner) key h;
  dr_other : ∀ t, ¬ ts t → k_tenants k' !! t = k_tenants k !! t;
  dr_kept : ∀ t owner', k_tenants k' !! t = Some owner' →
    ∃ owner, k_tenants k !! t = Some owner
             ∧ parts_kept (t_partitions owner) (t_partitions owner');
}.

Lemma parts_kept_refl ps : parts_kept ps ps.
Proof. intros n p ?. naive_solver. Qed.

Lemma parts_kept_trans ps1 ps2 ps3 :
  parts_kept ps1 ps2 → parts_kept ps2 ps3 → parts_kept ps1 ps3.
Proof.
  intros H1 H2 n p3 Hp3. destruct (H2 n p3 Hp3) as (p2 & Hp2 & Hw2 & Hh2 & Hs2).
  destruct (H1 n p2 Hp2) as (p1 & Hp1 & Hw1 & Hh1 & Hs1).
  exists p1. split_and!; [done | congruence | congruence | by etrans].
Qed.

Lemma drops_refl ts k : keeper_ok k → drops ts k k.
Proof.
  intros Hk. split; try done; [congruence |].
  intros t owner Ho. exists owner. split; [done | apply parts_kept_refl].
Qed.

Lemma drops_trans ts k1 k2 k3 : drops ts k1 k2 → drops ts k2 k3 → drops ts k1 k3.
Proof.
  intros H1 H2. destruct H1 as [_ Hb1 Hn1 Hs1 Hl1 Ho1 Hk1], H2 as [Hok Hb2 Hn2 Hs2 Hl2 Ho2 Hk2].
  split; [done | congruence | congruence | by etrans | | | ].
  - intros key h Hkey Hgone. destruct (k_keys k2 !! key) as [h'|] eqn:Hmid; [| by apply Hl1].
    assert (h' = h) as -> by (eapply (lookup_weaken _ _ _ _ Hmid) in Hs1; congruence).
    destruct (Hl2 key h Hmid Hgone) as (? & o2 & Ho & Hp). split; [done |].
    destruct (Hk1 _ _ Ho) as (o1 & ? & ?). exists o1. split; [done |].
    rewrite Hn1 in Hp. by eapply past_kept.
  - intros t Ht. by rewrite Ho2, Ho1.
  - intros t o3 Ho3. destruct (Hk2 t o3 Ho3) as (o2 & Ho2' & Hp2).
    destruct (Hk1 t o2 Ho2') as (o1 & ? & ?). exists o1. split; [done |].
    by eapply parts_kept_trans.
Qed.

Lemma drops_weaken (ts1 ts2 : string → Prop) k k' :
  (∀ t, ts1 t → ts2 t) → drops ts1 k k' → drops ts2 k k'.
Proof.
  intros Hw [? ? ? ? Hl Ho ?]. split; try done; [| naive_solver].
  intros key h H1 H2. destruct (Hl key h H1 H2) as [? ?]. eauto.
Qed.

Lemma drops_window ts k k' key : drops ts k k' → ¬ ts (Tenant key) →
  k_keys k' !! key = k_keys k !! key.
Proof.
  intros Hd Ht. destruct (k_keys k' !! key) as [h|] eqn:Hk'.
  - symmetry. eapply lookup_weaken; [done |]. by eapply dr_sub.
  - destruct (k_keys k !! key) as [h|] eqn:Hk; [| done]. exfalso. apply Ht.
    by eapply (dr_lost _ _ _ Hd).
Qed.

Lemma reclaim_drops k t owner :
  keeper_ok k → k_tenants k !! t = Some owner → drops (eq t) k (reclaim owner k).1.
Proof.
  intros Hk Ht. destruct (reclaim owner k) as [k' owner'] eqn:Hr.
  destruct (reclaim_spec k t owner k' owner' Hk Ht Hr) as (Hk' & Hrec & Hkept & Ho & Hself & Hb & Hn).
  split; cbn [fst]; [done | done | done | by destruct Hrec | | intros t' ?; by apply Ho |].
  - intros key h H1 H2. destruct (rec_lost _ _ _ _ _ _ Hrec key h H1 H2) as [Hkt Hp].
    split; [done |]. exists owner. by rewrite Hkt.
  - intros t' o' Ho'. destruct (decide (t' = t)) as [->|Hne].
    + rewrite Hself in Ho'. case_decide; simplify_eq. eauto.
    + rewrite Ho in Ho' by done. exists o'. split; [done | apply parts_kept_refl].
Qed.

Lemma sweep_drops_list k (L : list (string * tenantKeys)) :
  keeper_ok k → NoDup L.*1 → (∀ t o, (t, o) ∈ L → k_tenants k !! t = Some o) →
  drops (.∈ L.*1) k (foldr (λ '(_, owner) k, (reclaim owner k).1) k L).
Proof.
  intros Hk. induction L as [|[t o] L IH]; intros HL Hin; cbn [foldr]; [by apply drops_refl |].
  cbn in HL. apply NoDup_cons in HL as [Hn HL].
  assert (drops (.∈ L.*1) k (foldr (λ '(_, owner) k, (reclaim owner k).1) k L)) as Hd.
  { apply IH; [done |]. intros t' o' ?. apply Hin. by right. }
  eapply drops_trans; [eapply drops_weaken, Hd; intros t' ?; by right |].
  eapply drops_weaken; [| apply (reclaim_drops _ t)].
  - intros t' <-. left.
  - by eapply dr_ok.
  - rewrite (dr_other _ _ _ Hd) by done. apply Hin. left.
Qed.

Lemma sweep_drops k : keeper_ok k → drops (λ _, True) k (sweep k).
Proof.
  intros Hk. unfold sweep. case_match; [by apply drops_refl |].
  set (k0 := mkKeeper _ _ _ _ _).
  assert (keeper_ok k0) as Hk0 by (destruct Hk; by split).
  assert (drops (λ _, True) k k0) as H0.
  { split; try done; subst k0; cbn; [congruence |].
    intros t o Ho. exists o. split; [done | apply parts_kept_refl]. }
  eapply drops_trans; [done |]. eapply drops_weaken, sweep_drops_list; [done | done | |].
  - apply NoDup_fst_map_to_list.
  - intros t o. by rewrite elem_of_map_to_list.
Qed.

(** ** Admission *)

Definition owner_of (k : Keeper) (t : string) : tenantKeys :=
  default (newTenantKeys t) (k_tenants k !! t).

Lemma owner_counts k t : keeper_ok k → counts (tenant_keys t (k_keys k)) (owner_of k t).
Proof.
  intros Hk. unfold owner_of. destruct (k_tenants k !! t) as [o|] eqn:Ho.
  { by destruct (kp_owner k Hk t o Ho). }
  assert (tenant_keys t (k_keys k) = []) as ->.
  { destruct (tenant_keys t (k_keys k)) as [|key l] eqn:HQ; [done |].
    assert (key ∈ tenant_keys t (k_keys k)) as [<- Hs]%tenant_keys_elem by (rewrite HQ; left).
    destruct (kp_owned k Hk key Hs). congruence. }
  split; cbn; [done | intros r; by rewrite lookup_empty | intros r n; by rewrite lookup_empty].
Qed.

(** The tenant and the rule of [key] may hold one key more. *)
Definition room (k : Keeper) (key : Key) : Prop :=
  refuses (owner_of k (Tenant key)) (KeyRule key) (k_bounds k) = None.

Lemma room_iff k key : room k key ↔
  t_held (owner_of k (Tenant key)) < KeysPerTenant (k_bounds k)
  ∧ default 0 (t_rules (owner_of k (Tenant key)) !! KeyRule key) < KeysPerRule (k_bounds k).
Proof.
  unfold room, refuses. destruct (Z.leb_spec (KeysPerTenant (k_bounds k)) (t_held (owner_of k (Tenant key))));
    [split; [done | lia] |].
  destruct (Z.leb_spec (KeysPerRule (k_bounds k))
    (default 0 (t_rules (owner_of k (Tenant key)) !! KeyRule key))); split; (done || lia).
Qed.

Lemma room_mono ts k k' key : keeper_ok k → drops ts k k' → room k key → room k' key.
Proof.
  intros Hk Hd. rewrite !room_iff, (dr_bounds _ _ _ Hd).
  destruct (counts_mono _ _ _ _ (tenant_keys_mono (Tenant key) _ _ (dr_sub _ _ _ Hd))
    (owner_counts k' (Tenant key) (dr_ok _ _ _ Hd)) (owner_counts k (Tenant key) Hk)) as [H1 H2].
  specialize (H2 (KeyRule key)). lia.
Qed.

Lemma bounds_valid b : bounds_validate b = Ok tt →
  0 < Window b ≤ MaxWindow ∧ 0 < ObservationsPerKey b ≤ MaxObservationsPerKey
  ∧ 0 < Keys b ≤ MaxKeys ∧ 0 < KeysPerTenant b ≤ Keys b ∧ 0 < KeysPerRule b ≤ KeysPerTenant b.
Proof. unfold bounds_validate. intros H. repeat case_match; try done. to_prop. lia. Qed.

Lemma room_new k key :
  keeper_ok k → k_tenants k !! Tenant key = None → room k key.
Proof.
  intros Hk Ht. apply room_iff. unfold owner_of. rewrite Ht. cbn. rewrite lookup_empty. cbn.
  pose proof (bounds_valid _ (kp_bounds k Hk)). lia.
Qed.

Lemma admit_spec k key k' e :
  keeper_ok k → keeper_admit key k = (k', e) →
  drops (λ _, True) k k'
  ∧ (key_count k < Keys (k_bounds k) → drops (eq (Tenant key)) k k')
  ∧ (e = None → room k' key ∧ key_count k' < Keys (k_bounds k')).
Proof.
  intros Hk Ha. unfold keeper_admit in Ha.
  set (first := match k_tenants k !! Tenant key with Some _ => _ | None => _ end) in Ha.
  assert (drops (eq (Tenant key)) k first.1 ∧ (first.2 = None → room first.1 key)) as [Hd Hroom].
  { unfold first. destruct (k_tenants k !! Tenant key) as [owner|] eqn:Ho;
      [| split; [by apply drops_refl | intros _; by apply room_new]].
    destruct (bool_decide _ || _) eqn:Hb.
    - pose proof (reclaim_drops k _ owner Hk Ho) as Hd.
      destruct (reclaim owner k) as [k1 owner1] eqn:Hr. split; [done |]. cbn [fst snd] in *.
      intros Href. destruct (reclaim_spec k _ owner k1 owner1 Hk Ho Hr) as (Hk1 & _ & _ & _ & Hself & _).
      case_decide as Hz.
      + by apply room_new.
      + unfold room, owner_of. by rewrite Hself.
    - split; [by apply drops_refl |]. cbn. intros Href. unfold room, owner_of. by rewrite Ho. }
  destruct first as [k1 refused]. cbn [fst snd] in *.
  destruct refused as [e1|]; simplify_eq.
  { split; [by eapply drops_weaken | split; [done | done]]. }
  specialize (Hroom eq_refl).
  assert (key_count k1 ≤ key_count k) as Hsize.
  { unfold key_count. pose proof (map_subseteq_size _ _ (dr_sub _ _ _ Hd)). lia. }
  destruct (Z.leb_spec (Keys (k_bounds k1)) (key_count k1)) as [Hfull|Hfree].
  - pose proof (sweep_drops k1 (dr_ok _ _ _ Hd)) as Hs.
    assert (drops (λ _, True) k (sweep k1)) as Hall by (eapply drops_trans; [by eapply drops_weaken | done]).
    rewrite (dr_bounds _ _ _ Hd) in Hfull.
    destruct (Z.leb_spec (Keys (k_bounds (sweep k1))) (key_count (sweep k1))); simplify_eq.
    + split; [done | split; [lia | done]].
    + split; [done | split; [lia |]]. intros _. split; [| done]. eapply room_mono, Hroom; [| done].
      by eapply dr_ok.
  - rewrite (proj2 (Z.leb_gt _ _)) in Ha by done. simplify_eq.
    split; [by eapply drops_weaken | split; [done | done]].
Qed.
