(* ===== verification/KeeperProps.v ===== *)
(** * What the keeper promises

    Every operation keeps the invariant, so every store reachable from an empty
    one by folding observations has it; and what follows of it for quotas,
    tenants and the keys a store gives up. *)

From Stdlib Require Import ZArith Lia.
From stdpp Require Import base tactics option gmap strings sorting numbers list.
From S2P Require Import Prelude Text Rule Contract Validate State Window Keeper KeeperInv.

Lemma queued_update n p p' ps :
  ps !! n = Some p → expiring p' = expiring p → queued (<[n := p']> ps) ≡ₚ queued ps.
Proof. intros Hn He. by rewrite queued_insert, (queued_delete n p ps), He by done. Qed.

(** ** [advance] *)

Lemma advance_ok tenant seen k : keeper_ok k → keeper_ok (advance tenant seen k).
Proof.
  intros [Hb Hh Ho Hw Hc]. unfold advance. cbn [k_tenants].
  destruct (k_tenants k !! tenant) as [owner|] eqn:Ht; [| by split].
  destruct (t_partitions owner !! Partition seen) as [p|] eqn:Hp; [| by split].
  split; cbn [k_bounds k_keys k_tenants with_tenants]; [done | done | | | done].
  - intros t o. rewrite lookup_insert. case_decide as Hd; [| apply Ho].
    subst t. intros [= <-]. destruct (Ho tenant owner Ht) as [Hn HQ [Hh1 Hr1 Hp1] Hs Hq1 Hq2].
    split; try done. cbn. by rewrite (queued_update _ p).
  - intros key Hkey. rewrite lookup_insert. case_decide; [eauto | by apply Hw].
Qed.

Lemma advance_frame tenant seen k :
  k_keys (advance tenant seen k) = k_keys k ∧ k_bounds (advance tenant seen k) = k_bounds k
  ∧ k_newest (advance tenant seen k) = Z.max (k_newest k) (At seen)
  ∧ (∀ t, t ≠ tenant → k_tenants (advance tenant seen k) !! t = k_tenants k !! t).
Proof.
  unfold advance, after. cbn [k_tenants].
  assert ((if k_newest k <? At seen then At seen else k_newest k) = Z.max (k_newest k) (At seen))
    as -> by (case_match; to_prop; lia).
  repeat case_match; cbn; split_and!; try done. intros t0 Ht. by rewrite lookup_insert_ne.
Qed.

(** ** [open] *)

Lemma default_queue n (ps : gmap Z partitionKeys) p0 :
  expiring p0 = [] →
  (exp_key <$> expiring (default p0 (ps !! n))) ++ queued (delete n ps) ≡ₚ queued ps.
Proof.
  intros He. destruct (ps !! n) as [p|] eqn:Hn; cbn.
  - by rewrite (queued_delete n p ps).
  - rewrite He. cbn. by rewrite delete_id.
Qed.

Lemma queued_owner k t : keeper_ok k →
  queued (t_partitions (owner_of k t)) ≡ₚ tenant_keys t (k_keys k).
Proof.
  intros Hk. pose proof (owner_counts k t Hk) as Hc. unfold owner_of in *.
  destruct (k_tenants k !! t) as [o|] eqn:Ho; [by destruct (kp_owner k Hk t o Ho) |].
  destruct Hc as [Hz _ _]. cbn in Hz. unfold len in Hz.
  destruct (tenant_keys t (k_keys k)); [done | cbn in Hz; lia].
Qed.

Lemma open_owner entry seen k :
  keeper_ok k → k_keys k !! h_key entry = None → room k (h_key entry) →
  ∃ owner, k_tenants (open entry seen k) !! Tenant (h_key entry) = Some owner
    ∧ owner_ok (k_bounds k) (<[h_key entry := entry]> (k_keys k)) (Tenant (h_key entry)) owner.
Proof.
  intros Hk Hnew [Hroom1 Hroom2]%room_iff. unfold open. cbn [k_tenants].
  eexists. rewrite lookup_insert_eq. split; [done |]. fold (owner_of k (Tenant (h_key entry))).
  set (key := h_key entry) in *. set (t := Tenant key) in *. set (o := owner_of k t) in *.
  pose proof (tenant_keys_insert key entry (k_keys k) Hnew) as HT. fold t in HT.
  assert (t_tenant o = t) as Hname.
  { unfold o, owner_of. destruct (k_tenants k !! t) eqn:Ho; cbn; [| done].
    by destruct (kp_owner k Hk t _ Ho). }
  assert (counts (tenant_keys t (<[key := entry]> (k_keys k))) (opened (KeyRule key) o)) as Hc.
  { rewrite HT. apply counts_opened, owner_counts, Hk. }
  split.
  - done.
  - cbn [t_partitions with_partitions]. rewrite queued_insert. cbn [expiring with_expiring].
    rewrite heap_push_perm, fmap_cons, HT. cbn [exp_key app]. constructor.
    unfold opened; cbn [t_partitions]. rewrite default_queue by done. by apply queued_owner.
  - destruct Hc. by split.
  - intros Hnil. rewrite Hnil in HT. by apply Permutation_nil_cons in HT.
  - cbn. lia.
  - intros r. cbn. rewrite lookup_insert. case_decide; [subst; cbn; lia |].
    pose proof (bounds_valid _ (kp_bounds k Hk)). unfold o, owner_of.
    destruct (k_tenants k !! t) as [o'|] eqn:Ho; cbn.
    + by destruct (kp_owner k Hk t o' Ho).
    + rewrite lookup_empty. cbn. lia.
Qed.

Lemma open_ok entry seen k :
  keeper_ok k → k_keys k !! h_key entry = None → room k (h_key entry) →
  held_ok (ObservationsPerKey (k_bounds k)) entry → key_count k < Keys (k_bounds k) →
  keeper_ok (open entry seen k).
Proof.
  intros Hk Hnew Hroom Hentry Hcount.
  destruct (open_owner entry seen k Hk Hnew Hroom) as (owner & Hself & Hown).
  split; cbn [k_bounds k_keys open].
  - by destruct Hk.
  - intros key h. rewrite lookup_insert. case_decide as Hd; [intros [= <-]; by split |].
    by apply Hk.
  - intros t o Ho. destruct (decide (t = Tenant (h_key entry))) as [->|Hne].
    { rewrite Hself in Ho. by simplify_eq. }
    assert (k_tenants k !! t = Some o) as Ho'.
    { revert Ho. unfold open. cbn [k_tenants]. by rewrite lookup_insert_ne. }
    apply (owner_ok_same _ _ (k_keys k)); [| by apply Hk].
    intros key Hkt. rewrite lookup_insert_ne; [done |]. congruence.
  - intros key Hkey. destruct (decide (Tenant key = Tenant (h_key entry))) as [->|Hne]; [eauto |].
    unfold open. cbn [k_tenants]. rewrite lookup_insert_ne by done. apply Hk.
    rewrite lookup_insert_ne in Hkey; [done |]. congruence.
  - unfold key_count in *. cbn [k_keys open]. rewrite map_size_insert_None by done. lia.
Qed.

(** ** [fold] *)

Lemma update_ok key h h' k :
  keeper_ok k → k_keys k !! key = Some h → h_key h' = key →
  held_ok (ObservationsPerKey (k_bounds k)) h' →
  keeper_ok (with_keys (<[key := h']> (k_keys k)) k).
Proof.
  intros [Hb Hh Ho Hw Hc] Hkey Hk' Hok.
  split; cbn [k_bounds k_keys k_tenants with_keys]; [done | | | |].
  - intros key' h''. rewrite lookup_insert. case_decide; [intros [= <-]; subst; done | apply Hh].
  - intros t o Hto. apply (owner_ok_same _ _ (k_keys k)); [| by apply Ho].
    intros key' _. rewrite lookup_insert. case_decide; [subst; rewrite Hkey |]; split; eauto.
  - intros key'. rewrite lookup_insert. case_decide; [subst; intros _; apply Hw; eauto | apply Hw].
  - unfold key_count in *. cbn [k_keys with_keys]. rewrite map_size_insert_Some; eauto.
Qed.

Lemma fold_ok ctx key seen window read k :
  keeper_ok k → keeper_ok (fold ctx key seen window read k).1.
Proof.
  intros Hk. unfold fold. destruct ctx; [done |]. destruct (observation_validate seen); [| done].
  destruct (window <=? 0); [done |]. destruct (Window (k_bounds k) <? window); [done |].
  pose proof (advance_ok (Tenant key) seen k Hk) as Hk1.
  set (k1 := advance (Tenant key) seen k) in *. clearbody k1.
  pose proof (bounds_valid _ (kp_bounds k1 Hk1)) as Hb.
  destruct (k_keys k1 !! key) as [h|] eqn:Hkey.
  - destruct (kp_held k1 Hk1 key h Hkey) as [Hhk Hok].
    pose proof (held_observe_frame seen (ObservationsPerKey (k_bounds k1)) (set_window window h)) as [Hf _].
    pose proof (held_observe_preserves seen (ObservationsPerKey (k_bounds k1)) (set_window window h)
      ltac:(lia) (set_window_ok _ _ _ Hok)) as Hok'.
    destruct (held_observe seen _ _) as [h' [st err]]. cbn [fst] in *.
    cbn [fst]. apply (update_ok key h); [done | done | by rewrite Hf | done].
  - destruct (keeper_admit key k1) as [k2 e] eqn:Ha.
    destruct (admit_spec k1 key k2 e Hk1 Ha) as (Hd & _ & Hroom).
    destruct e as [e|]; [by eapply dr_ok |]. destruct (Hroom eq_refl) as [Hroom' Hcount].
    pose proof (dr_bounds _ _ _ Hd) as Hbd. rewrite <- Hbd in Hb.
    assert (0 ≤ ObservationsPerKey (k_bounds k2)) as H0 by lia.
    pose proof (held_observe_frame seen (ObservationsPerKey (k_bounds k2)) (set_window window (held_new key))) as [Hf _].
    pose proof (held_observe_preserves seen (ObservationsPerKey (k_bounds k2)) (set_window window (held_new key))
      H0 (set_window_ok _ _ _ (held_new_ok _ key H0))) as Hok'.
    destruct (held_observe seen _ _) as [h' [st err]]. cbn [fst] in *. cbn in Hf.
    apply open_ok; try done; [by eapply dr_ok | | by rewrite Hf].
    rewrite Hf. destruct (k_keys k2 !! key) eqn:Hk2; [| done].
    eapply lookup_weaken in Hk2; [| by eapply dr_sub]. congruence.
Qed.

(** ** Reachable stores *)

(** A store's life: built empty, then any number of folds, under any keys, in
    any order, failed ones included. *)
Inductive stored (b : Bounds) : Keeper → Prop :=
| reach_new k : NewKeeper b = Ok k → stored b k
| reach_fold k ctx key seen window read :
    stored b k → stored b (fold ctx key seen window read k).1.

Lemma drops_bounds_fold ctx key seen window read k :
  keeper_ok k → k_bounds (fold ctx key seen window read k).1 = k_bounds k.
Proof.
  intros Hk. unfold fold. destruct ctx; [done |]. destruct (observation_validate seen); [| done].
  destruct (window <=? 0); [done |]. destruct (Window (k_bounds k) <? window); [done |].
  destruct (advance_frame (Tenant key) seen k) as (_ & Hb & _).
  pose proof (advance_ok (Tenant key) seen k Hk) as Hk1.
  set (k1 := advance (Tenant key) seen k) in *. clearbody k1.
  destruct (k_keys k1 !! key) as [h|] eqn:Hkey.
  - by destruct (held_observe seen _ _) as [h' [st err]].
  - destruct (keeper_admit key k1) as [k2 e] eqn:Ha.
    destruct (admit_spec k1 key k2 e Hk1 Ha) as (Hd & _ & _).
    pose proof (dr_bounds _ _ _ Hd). destruct e; [cbn; congruence |].
    destruct (held_observe seen _ _) as [h' [st err]]. cbn. congruence.
Qed.

Lemma reachable_ok b k : stored b k → keeper_ok k ∧ k_bounds k = b.
Proof.
  induction 1 as [k Hn|k ctx key seen window read _ [IH Hb]].
  - unfold NewKeeper in Hn. destruct (bounds_validate b) as [[]|] eqn:Hb; simplify_eq.
    pose proof (bounds_valid _ Hb). split; [| done]. split; cbn.
    + done.
    + intros key h. by rewrite lookup_empty.
    + intros t o. by rewrite lookup_empty.
    + intros key [h Hkey]. by rewrite lookup_empty in Hkey.
    + unfold key_count. cbn. rewrite map_size_empty. lia.
  - split; [by apply fold_ok | by rewrite drops_bounds_fold].
Qed.

(** Every observation a store holds. *)
Definition observations_held (k : Keeper) : Z :=
  map_fold (λ _ h n, n + len (h_seen h)) 0 (k_keys k).

Lemma observations_held_le c (keys : gmap Key held) :
  (∀ key h, keys !! key = Some h → len (h_seen h) ≤ c) →
  map_fold (λ _ h n, n + len (h_seen h)) 0 keys ≤ Z.of_nat (size keys) * c.
Proof.
  apply (map_fold_weak_ind (λ r m, (∀ key h, m !! key = Some h → len (h_seen h) ≤ c) →
    r ≤ Z.of_nat (size m) * c)); [intros _; rewrite map_size_empty; lia |].
  intros key h m r Hm IH Hall. rewrite map_size_insert_None by done.
  specialize (Hall key h (lookup_insert_eq _ _ _)) as Hh.
  assert (r ≤ Z.of_nat (size m) * c); [| lia].
  apply IH. intros key' h' Hk'. apply (Hall key' h'). rewrite lookup_insert_ne; [done |]. congruence.
Qed.

Lemma map_fold_max_le {A} (f : A → Z) (m : gmap string A) n c :
  n ≤ c → (∀ i x, m !! i = Some x → f x ≤ c) → map_fold (λ _ x r, Z.max r (f x)) n m ≤ c.
Proof.
  intros Hn. apply (map_fold_weak_ind (λ r m, (∀ i x, m !! i = Some x → f x ≤ c) → r ≤ c)); [done |].
  intros i x m' r Hm IH Hall. pose proof (Hall i x (lookup_insert_eq _ _ _)).
  assert (r ≤ c); [| lia]. apply IH. intros j y Hj. apply (Hall j y).
  rewrite lookup_insert_ne; [done |]. congruence.
Qed.

(** C2. However it is driven, a store never passes a bound it was given: not its
    keys, not a tenant's, not a rule's within a tenant, not a key's window, and
    so not the product [Bounds.Observations] the operator sized its memory by.
    The gauges it reports never exceed the quotas either. *)
Theorem keeper_never_passes_its_bounds b k :
  stored b k →
  KeeperKeys k ≤ Keys b
  ∧ (∀ t, len (tenant_keys t (k_keys k)) ≤ KeysPerTenant b)
  ∧ (∀ t r, len (of_rule r (tenant_keys t (k_keys k))) ≤ KeysPerRule b)
  ∧ observations_held k ≤ bounds_observations b
  ∧ FullestTenant k ≤ KeysPerTenant b.
Proof.
  intros [Hk <-]%reachable_ok. pose proof (bounds_valid _ (kp_bounds k Hk)) as Hb.
  assert (∀ t, t_held (owner_of k t) ≤ KeysPerTenant (k_bounds k)
             ∧ ∀ r, default 0 (t_rules (owner_of k t) !! r) ≤ KeysPerRule (k_bounds k)) as Hq.
  { intros t. unfold owner_of. destruct (k_tenants k !! t) as [o|] eqn:Ho; cbn.
    - by destruct (kp_owner k Hk t o Ho).
    - split; [lia |]. intros r. rewrite lookup_empty. cbn. lia. }
  pose proof (owner_counts k) as Hc. split_and!.
  - by destruct Hk.
  - intros t. destruct (Hc t Hk) as [<- _ _]. apply Hq.
  - intros t r. destruct (Hc t Hk) as [_ <- _]. apply Hq.
  - unfold observations_held, bounds_observations. etrans.
    + apply (observations_held_le (ObservationsPerKey (k_bounds k))).
      intros key h Hkey. by destruct (kp_held k Hk key h Hkey) as [_ []].
    + pose proof (kp_keys k Hk) as Hs. unfold key_count in Hs. nia.
  - apply (map_fold_max_le t_held); [lia |]. intros t o Ho.
    specialize (Hq t) as [Hq _]. unfold owner_of in Hq. by rewrite Ho in Hq.
Qed.

(** The counts a quota is charged against are exact in every reachable
    store, and a tenant's queues hold each of its keys exactly once: nothing
    is leaked from a quota and nothing held is out of reach of reclaiming. *)
Theorem keeper_counts_are_exact b k t owner :
  stored b k → k_tenants k !! t = Some owner →
  t_held owner = len (tenant_keys t (k_keys k))
  ∧ (∀ r, default 0 (t_rules owner !! r) = len (of_rule r (tenant_keys t (k_keys k))))
  ∧ queued (t_partitions owner) ≡ₚ tenant_keys t (k_keys k)
  ∧ NoDup (queued (t_partitions owner)).
Proof.
  intros [Hk <-]%reachable_ok Ho. destruct (kp_owner k Hk t owner Ho) as [_ HQ [Hh Hr _] _ _ _].
  split_and!; try done. rewrite HQ. apply NoDup_tenant_keys.
Qed.

(** ** What one fold does to everything else *)

(** [fold] is [advance], then dropping past keys, then writing its own key. *)
Lemma fold_shape ctx key seen window read k :
  keeper_ok k →
  let k' := (fold ctx key seen window read k).1 in
  k' = k ∨
  ∃ k2, drops (λ _, True) (advance (Tenant key) seen k) k2
    ∧ (key_count k < Keys (k_bounds k) → drops (eq (Tenant key)) (advance (Tenant key) seen k) k2)
    ∧ (∀ key', key' ≠ key → k_keys k' !! key' = k_keys k2 !! key')
    ∧ (k_keys k !! key = None ∨ is_Some (k_keys k' !! key))
    ∧ (∀ t, t ≠ Tenant key → k_tenants k' !! t = k_tenants k2 !! t).
Proof.
  intros Hk. unfold fold. destruct ctx; [by left |].
  destruct (observation_validate seen); [| by left].
  destruct (window <=? 0); [by left |]. destruct (Window (k_bounds k) <? window); [by left |].
  right. pose proof (advance_ok (Tenant key) seen k Hk) as Hk1.
  destruct (advance_frame (Tenant key) seen k) as (Hkeys & Hb & _ & _).
  assert (key_count (advance (Tenant key) seen k) = key_count k) as Hc
    by (unfold key_count; by rewrite Hkeys).
  rewrite <- Hb, <- Hc, <- Hkeys. set (k1 := advance (Tenant key) seen k) in *. clearbody k1.
  destruct (k_keys k1 !! key) as [h|] eqn:Hkey.
  - exists k1. destruct (held_observe seen _ _) as [h' [st err]]. cbn [fst].
    split_and!; [by apply drops_refl | intros _; by apply drops_refl | | right | done].
    + intros key' ?. cbn. by rewrite lookup_insert_ne.
    + cbn. rewrite lookup_insert_eq. eauto.
  - destruct (keeper_admit key k1) as [k2 e] eqn:Ha. exists k2.
    destruct (admit_spec k1 key k2 e Hk1 Ha) as (Hd & Hd' & _).
    destruct e as [e|]; [split_and!; [done | done | done | by left | done] |].
    pose proof (held_observe_frame seen (ObservationsPerKey (k_bounds k2))
      (set_window window (held_new key))) as [Hf _].
    destruct (held_observe seen _ _) as [h' [st err]]. cbn in Hf. subst key. cbn [fst].
    split_and!; [done | done | | by left |].
    + intros key' ?. cbn. by rewrite lookup_insert_ne.
    + intros t ?. cbn. by rewrite lookup_insert_ne.
Qed.

(** C3. While the store has a key to spare, what is folded under one tenant
    changes nothing another tenant holds: not a window, not a count, not a
    queue, whatever quota the first tenant has run into. *)
Theorem tenants_are_isolated b k ctx key seen window read t :
  stored b k → KeeperKeys k < Keys b → t ≠ Tenant key →
  let k' := (fold ctx key seen window read k).1 in
  k_tenants k' !! t = k_tenants k !! t
  ∧ ∀ key', Tenant key' = t → k_keys k' !! key' = k_keys k !! key'.
Proof.
  intros [Hk <-]%reachable_ok Hfree Ht k'.
  destruct (fold_shape ctx key seen window read k Hk) as [Heq|(k2 & _ & Hd & Hkeys & _ & Hts)];
    [unfold k'; by rewrite Heq |].
  specialize (Hd Hfree). destruct (advance_frame (Tenant key) seen k) as (Hak & _ & _ & Hat).
  split.
  - unfold k'. rewrite Hts, (dr_other _ _ _ Hd), Hat by congruence. done.
  - intros key' <-. unfold k'. rewrite Hkeys by congruence.
    rewrite (drops_window _ _ _ _ Hd) by congruence. by rewrite Hak.
Qed.

(** A store gives up only keys that are past: a window that was held before
    a fold and is gone after it had expired by its own partition's clock. *)
Theorem only_past_keys_are_given_up b k ctx key seen window read key' h :
  stored b k → k_keys k !! key' = Some h →
  k_keys (fold ctx key seen window read k).1 !! key' = None →
  ∃ owner n p,
    k_tenants (advance (Tenant key) seen k) !! Tenant key' = Some owner
    ∧ t_partitions owner !! n = Some p ∧ key' ∈ exp_key <$> expiring p
    ∧ held_expires h < clock (Z.max (k_newest k) (At seen)) p.
Proof.
  intros [Hk <-]%reachable_ok Hin Hout.
  destruct (fold_shape ctx key seen window read k Hk) as [Heq|(k2 & Hd & _ & Hkeys & Hself & _)];
    [congruence |].
  assert (key' ≠ key) as Hne.
  { intros ->. destruct Hself as [|Hs]; [congruence |]. rewrite Hout in Hs. by destruct Hs. }
  rewrite Hkeys in Hout by done.
  destruct (advance_frame (Tenant key) seen k) as (Hak & _ & Hn & _).
  destruct (dr_lost _ _ _ Hd key' h) as (_ & owner & Ho & n & p & Hp & Hq & Hb); [by rewrite Hak | done |].
  exists owner, n, p. rewrite Hn in Hb. by apply Z.ltb_lt in Hb.
Qed.

(** ** Reclaiming ends with nothing left that is due *)

Definition exp_le (a b : expiry) : Prop := exp_at a ≤ exp_at b.

Lemma heap_push_sorted e q : StronglySorted exp_le q → StronglySorted exp_le (heap_push e q).
Proof.
  induction 1 as [|x q Hs IH Hx]; cbn; [repeat constructor |].
  case_match; to_prop; constructor; try done; [by constructor | |].
  - constructor; [unfold exp_le; lia |]. eapply Forall_impl; [done |]. unfold exp_le. intros; lia.
  - rewrite heap_push_perm. constructor; [unfold exp_le; lia | done].
Qed.

(** C4. The reclaiming loop ends with nothing left that is due: the queue it
    leaves is in order and no entry of it is before the clock, and as many turns
    as the queue has entries are enough for that, filing keys again included. *)
Theorem reclaim_leaves_nothing_due clk q keys owner q' keys' owner' :
  StronglySorted exp_le q → NoDup (exp_key <$> q) →
  Forall (λ x, is_Some (keys !! exp_key x)) q →
  reclaim_queue (length q) clk q keys owner = (q', keys', owner') →
  StronglySorted exp_le q' ∧ Forall (λ x, clk ≤ exp_at x) q'.
Proof.
  intros Hs Hnd Hin Hr.
  assert (length (filter (λ x, (exp_at x < clk)%Z) q) ≤ length q)%nat as Hfuel by apply length_filter.
  revert Hs Hnd Hin Hr Hfuel. generalize (length q) as fuel. intros fuel.
  revert q keys owner. induction fuel as [|fuel IH]; intros q keys owner Hs Hnd Hin Hr Hfuel;
    cbn [reclaim_queue] in Hr.
  { simplify_eq. split; [done |]. apply Forall_forall. intros x Hx.
    destruct (decide (exp_at x < clk)) as [Hlt|]; [| lia].
    assert (x ∈ filter (λ x, exp_at x < clk) q') as Hf by (by apply list_elem_of_filter).
    destruct (filter _ q'); [by apply elem_of_nil in Hf | cbn in Hfuel; lia]. }
  destruct q as [|x q]; [simplify_eq; by split |].
  apply StronglySorted_inv in Hs as [Hs Hx]. apply Forall_cons in Hin as [[h Hh] Hin].
  rewrite fmap_cons in Hnd. apply NoDup_cons in Hnd as [Hn Hnd].
  unfold before in Hr. destruct (Z.ltb_spec (exp_at x) clk) as [Hlt|Hge].
  2: { simplify_eq. split; [by constructor |]. constructor; [done |].
       eapply Forall_impl; [exact Hx |]. unfold exp_le. intros y Hy. lia. }
  rewrite Hh in Hr. rewrite filter_cons_True in Hfuel by done. cbn in Hfuel.
  destruct (Z.ltb_spec (held_expires h) clk) as [Hgone|Hlater]; cbn [negb] in Hr.
  - eapply IH; [done | done | | done | lia]. rewrite Forall_forall in *. intros y Hy.
    rewrite lookup_delete_ne; [by apply Hin |]. intros Heq. apply Hn. rewrite Heq.
    by apply list_elem_of_fmap_2.
  - eapply IH; [by apply heap_push_sorted | | | done |].
    + rewrite heap_push_perm. cbn. by constructor.
    + rewrite heap_push_perm. constructor; [cbn; eauto | done].
    + rewrite heap_push_perm, filter_cons_False by (cbn; lia). lia.
Qed.

(** ** Admission *)

Lemma held_observe_new o c key w :
  1 ≤ c → 0 ≤ w → 0 < At o →
  held_observe o c (set_window w (held_new key))
  = (mkHeld key w [o] {[Event o]} (value_added (ObsValue o) ∅),
     (mkState (At o) (At o) 1 (Z.of_nat (size (value_added (ObsValue o) ∅))) (c <=? 1) false, None)).
Proof.
  intros Hc Hw Hat. unfold held_observe. rewrite decide_False by (cbn; set_solver).
  unfold after. cbn [held_last last h_seen set_window held_new].
  replace (At o <? time_zero) with false by (symmetry; apply Z.ltb_ge; unfold time_zero; lia).
  cbn [held_expire discard_while h_seen length set_window held_new h_window].
  unfold before, time_add.
  replace (At o <? At o + - w) with false by (symmetry; apply Z.ltb_ge; lia).
  assert ((c <? len [o]) = false) as Hlen by (apply Z.ltb_ge; unfold len; cbn; lia).
  unfold held_state, held_trim, held_insert. cbn. rewrite !Hlen. cbn. by rewrite union_empty_r_L.
Qed.

(** A tenant below its own quotas is never refused by a store that has a key
    to spare, whatever the others hold: a valid observation under a new key
    opens it, and the state answered is that of the one observation. *)
Theorem a_key_within_quota_is_opened b k key seen window read :
  stored b k → KeeperKeys k < Keys b → room k key →
  k_keys k !! key = None → observation_validate seen = Ok tt → 0 < At seen →
  0 < window ≤ Window b →
  let '(k', (state, _, err)) := fold None key seen window read k in
  err = None ∧ StateCount state = 1 ∧ First state = At seen ∧ Last state = At seen
  ∧ (∃ h, k_keys k' !! key = Some h ∧ h_seen h = [seen] ∧ h_window h = window)
  ∧ KeeperKeys k' = KeeperKeys k + 1.
Proof.
  intros [Hk <-]%reachable_ok Hfree Hroom Hnew Hvalid Hat Hw. unfold fold. rewrite Hvalid.
  rewrite (proj2 (Z.leb_gt _ _)), (proj2 (Z.ltb_ge _ _)) by lia.
  destruct (advance_frame (Tenant key) seen k) as (Hak & Hab & _ & _).
  pose proof (advance_ok (Tenant key) seen k Hk) as Hk1.
  assert (room (advance (Tenant key) seen k) key) as Hroom1.
  { rewrite room_iff in Hroom |- *. rewrite Hab.
    destruct (owner_counts _ (Tenant key) Hk1) as [-> Hr _]. rewrite Hr, Hak.
    destruct (owner_counts _ (Tenant key) Hk) as [<- Hr' _]. by rewrite <- Hr'. }
  assert (key_count (advance (Tenant key) seen k) = key_count k) as Hc
    by (unfold key_count; by rewrite Hak).
  rewrite <- Hak in Hnew. unfold KeeperKeys in *. rewrite <- Hc, <- Hab in *. rewrite Hnew.
  set (k1 := advance (Tenant key) seen k) in *. clearbody k1. clear Hak Hab Hc.
  assert (keeper_admit key k1 = (k1, None)) as ->.
  { apply Z.leb_gt in Hfree as Hleb. unfold keeper_admit.
    unfold room, owner_of in Hroom1. destruct (k_tenants k1 !! Tenant key) as [o|] eqn:Ho; cbn in Hroom1.
    - rewrite Hroom1, Hleb. cbn. by rewrite Hroom1, !Hleb.
    - by rewrite !Hleb. }
  pose proof (bounds_valid _ (kp_bounds k1 Hk1)).
  rewrite held_observe_new by lia. cbn [StateCount First Last].
  split_and!; try done.
  - eexists. cbn. rewrite lookup_insert_eq. done.
  - unfold key_count. cbn. rewrite map_size_insert_None by done. lia.
Qed.

(** ** Witnesses: two tenants in a small store *)

Definition sample_bounds : Bounds := mkBounds (10 * second) 4 8 2 2.
Definition sample_group (t g : string) : Key := mkKey t "ssh_bruteforce" g.
Definition sample_at (id : string) (s : Z) : Observation :=
  mkObservation (mkEventName "agent-1" id) (s * second) "" 0 0.
Definition sample_store : Keeper := mkKeeper sample_bounds ∅ ∅ time_zero time_zero.
Definition sample_fold (key : Key) (o : Observation) (k : Keeper) : Keeper :=
  (fold None key o second false k).1.
Definition sample_busy : Keeper :=
  sample_fold (sample_group "acme" "y") (sample_at "2" 2)
    (sample_fold (sample_group "acme" "x") (sample_at "1" 1)
      (sample_fold (sample_group "globex" "z") (sample_at "0" 1) sample_store)).

Lemma sample_busy_reachable : stored sample_bounds sample_busy.
Proof. repeat apply reach_fold. by apply reach_new. Qed.

Lemma keeper_never_passes_its_bounds_witness :
  KeeperKeys sample_busy = 3 ∧ KeeperKeys sample_busy ≤ Keys sample_bounds.
Proof.
  split; [vm_compute; reflexivity |].
  apply (keeper_never_passes_its_bounds sample_bounds sample_busy sample_busy_reachable).
Defined.

Lemma keeper_counts_are_exact_witness :
  ∃ owner, k_tenants sample_busy !! "acme" = Some owner ∧ t_held owner = 2
    ∧ t_held owner = len (tenant_keys "acme" (k_keys sample_busy)).
Proof.
  destruct (k_tenants sample_busy !! "acme") as [owner|] eqn:Ho; [| by vm_compute in Ho].
  exists owner. split; [done |]. split; [vm_compute in Ho; by injection Ho as <- |].
  by apply (keeper_counts_are_exact sample_bounds sample_busy "acme" owner sample_busy_reachable).
Defined.

(** The tenant at its quota of two asks for a third key: the other's stands. *)
Lemma tenants_are_isolated_witness :
  k_keys (sample_fold (sample_group "acme" "w") (sample_at "3" 60) sample_busy)
    !! sample_group "globex" "z"
  = k_keys sample_busy !! sample_group "globex" "z".
Proof.
  apply (tenants_are_isolated sample_bounds sample_busy None (sample_group "acme" "w")
    (sample_at "3" 60) second false "globex" sample_busy_reachable);
    [vm_compute; reflexivity | done | done].
Defined.

Lemma only_past_keys_are_given_up_witness :
  ∃ owner n p,
    k_tenants (advance "acme" (sample_at "3" 60) sample_busy) !! "acme" = Some owner
    ∧ t_partitions owner !! n = Some p ∧ sample_group "acme" "x" ∈ exp_key <$> expiring p
    ∧ 2 * second < clock (Z.max (k_newest sample_busy) (60 * second)) p.
Proof.
  destruct (k_keys sample_busy !! sample_group "acme" "x") as [h|] eqn:Hh;
    [| by vm_compute in Hh].
  assert (held_expires h = 2 * second) as <- by (vm_compute in Hh; by injection Hh as <-).
  apply (only_past_keys_are_given_up sample_bounds sample_busy None (sample_group "acme" "w")
    (sample_at "3" 60) second false (sample_group "acme" "x") h sample_busy_reachable Hh).
  vm_compute. reflexivity.
Defined.

Definition sample_entry : expiry := mkExpiry (2 * second) (sample_group "acme" "x").

Lemma reclaim_leaves_nothing_due_witness :
  let '(q', _, _) := reclaim_queue 1 (60 * second) [sample_entry] (k_keys sample_busy)
                       (newTenantKeys "acme") in
  Forall (λ x, 60 * second ≤ exp_at x) q'.
Proof.
  destruct (reclaim_queue 1 (60 * second) [sample_entry] (k_keys sample_busy)
    (newTenantKeys "acme")) as [[q' keys'] owner'] eqn:Hr.
  apply (reclaim_leaves_nothing_due (60 * second) [sample_entry] (k_keys sample_busy)
    (newTenantKeys "acme") q' keys' owner'
    ltac:(repeat constructor) (NoDup_singleton _)
    ltac:(apply (bool_decide_unpack _); vm_compute; exact I) Hr).
Defined.

Lemma a_key_within_quota_is_opened_witness :
  (fold None (sample_group "globex" "w") (sample_at "4" 3) second true sample_busy).2.2 = None.
Proof.
  pose proof (a_key_within_quota_is_opened sample_bounds sample_busy (sample_group "globex" "w")
    (sample_at "4" 3) second true sample_busy_reachable) as H.
  destruct (fold _ _ _ _ _ _) as [k' [[st w] err]].
  apply H; [vm_compute; reflexivity .. | split; [done | vm_compute; discriminate]].
Defined.
