(* ===== verification/Engine.v ===== *)
(** * The analysis engine (analysis/engine.go, detect.go, count.go, sequence.go,
      capacity.go)

    What is decided about a batch of records: each is read, put in its canonical
    form and decided against every rule of its class, a counting or correlating
    rule through a store of state, and what was found is published. The store is
    an interface, [Store]; the keeper implements it (EngineProps.v). A context is
    a function of how often it has been asked, so it can be cancelled between any
    two questions. Metrics and log lines are kept where they say what became of an
    observation. *)

From Stdlib Require Import ZArith Lia Ascii Floats.SpecFloat.
From stdpp Require Import base tactics option gmap strings pretty sorting numbers list.
From S2P Require Import Prelude Text Rule Contract Validate Compile State Window Story Digest Detected.

(** [detectionstate.Store]; the first argument is [ctx.Err()]. *)
Class Store (S : Type) := {
  store_Observe : option StateError → Key → Observation → duration → S →
                  S * (State * option StateError);
  store_Ordered : option StateError → Key → Observation → duration → S →
                  S * (State * list Observation * option StateError);
}.

Inductive Outcome :=
| OutcomeCounted | OutcomeReached | OutcomeRepeated | OutcomeAtCapacity
| OutcomeTenantAtCapacity | OutcomeRuleAtCapacity | OutcomeTooLate
| OutcomeUnbounded | OutcomeRefused | OutcomeStaged | OutcomeCompleted.
#[global] Instance Outcome_eq_dec : EqDecision Outcome.
Proof. solve_decision. Defined.
#[global] Instance Outcome_countable : Countable Outcome.
Proof.
  apply (inj_countable'
    (λ o, match o with
          | OutcomeCounted => 0 | OutcomeReached => 1 | OutcomeRepeated => 2
          | OutcomeAtCapacity => 3 | OutcomeTenantAtCapacity => 4 | OutcomeRuleAtCapacity => 5
          | OutcomeTooLate => 6 | OutcomeUnbounded => 7 | OutcomeRefused => 8
          | OutcomeStaged => 9 | OutcomeCompleted => 10 end)
    (λ n, match n with
          | 0 => OutcomeCounted | 1 => OutcomeReached | 2 => OutcomeRepeated
          | 3 => OutcomeAtCapacity | 4 => OutcomeTenantAtCapacity | 5 => OutcomeRuleAtCapacity
          | 6 => OutcomeTooLate | 7 => OutcomeUnbounded | 8 => OutcomeRefused
          | 9 => OutcomeStaged | _ => OutcomeCompleted end)).
  by intros [].
Defined.

(** ** Capacity (capacity.go) *)

Definition maxToldAtCapacity : Z := 1024.

Record atCapacity := mkAtCapacity { ac_tenant : string; ac_rule : string; ac_outcome : Outcome }.
#[global] Instance atCapacity_eq_dec : EqDecision atCapacity.
Proof. solve_decision. Defined.
#[global] Instance atCapacity_countable : Countable atCapacity.
Proof.
  apply (inj_countable' (λ a, (ac_tenant a, ac_rule a, ac_outcome a))
                        (λ p, mkAtCapacity p.1.1 p.1.2 p.2)).
  by intros [].
Defined.

Definition outOfRoom (outcome : Outcome) : bool :=
  match outcome with
  | OutcomeAtCapacity | OutcomeTenantAtCapacity | OutcomeRuleAtCapacity => true
  | _ => false
  end.

Definition refusalOf (err : StateError) : Outcome :=
  match err with
  | ErrAtCapacity => OutcomeAtCapacity
  | ErrTenantAtCapacity => OutcomeTenantAtCapacity
  | ErrRuleAtCapacity => OutcomeRuleAtCapacity
  | ErrTooLate => OutcomeTooLate
  | ErrWindowTooLong | ErrNoWindow => OutcomeUnbounded
  | _ => OutcomeRefused
  end.

(** What the engine reports of an observation: a counter moved, or the line that
    names who is out of room. *)
Inductive Said :=
| Observed (outcome : Outcome)
| SaidSaturated
| SaidUnordered
| SaidAtCapacity (told : atCapacity).

Record EngineState (S : Type) := mkEngine {
  eng_store : S;
  eng_told : gset atCapacity;
  eng_said : list Said;
  eng_asked : nat;
}.
Arguments mkEngine {S}.
Arguments eng_store {S}.
Arguments eng_told {S}.
Arguments eng_said {S}.
Arguments eng_asked {S}.

Definition say {S} (s : Said) (e : EngineState S) : EngineState S :=
  mkEngine (eng_store e) (eng_told e) (eng_said e ++ [s]) (eng_asked e).

(** One question of the context was asked. *)
Definition ask {S} (e : EngineState S) : EngineState S :=
  mkEngine (eng_store e) (eng_told e) (eng_said e) (Datatypes.S (eng_asked e)).

Definition with_store {S} (s : S) (e : EngineState S) : EngineState S :=
  mkEngine s (eng_told e) (eng_said e) (eng_asked e).

Definition tell {S} (a : atCapacity) (e : EngineState S) : EngineState S :=
  if bool_decide (a ∈ eng_told e) || (maxToldAtCapacity <=? Z.of_nat (size (eng_told e))) then e
  else mkEngine (eng_store e) ({[a]} ∪ eng_told e) (eng_said e ++ [SaidAtCapacity a]) (eng_asked e).

Definition refusedObservation {S} (tenant rule : string) (err : StateError)
    (e : EngineState S) : EngineState S :=
  let outcome := refusalOf err in
  let e := say (Observed outcome) e in
  if negb (outOfRoom outcome) then e else tell (mkAtCapacity tenant rule outcome) e.

(** ** Deciding (count.go, sequence.go, detect.go) *)

Section engine.
Context {M : Type} {MS : Messages M} {FM : Formats} {EV : Events M}.
Context {S : Type} {ST : Store S}.
Context (digest : string → string) (ctx : nat → option StateError).

Definition nameOf (record : M) : EventName := mkEventName (AgentOf record) (GetEventId record).

(** [AsTime] of a nil timestamp is the Unix epoch, this long after Go's zero. *)
Definition unix_epoch : instant := 62135596800 * second.
Definition eventTime (record : M) : instant := default unix_epoch (GetEventTime record).

Definition key_of (p : Program) (record : M) : Key :=
  KeyFor digest (TenantOf record) (rule_id (p_rule p)) (rule_revision (p_rule p))
    (ProgramGroup p record).

(** The part [reached] and [completed] share once the store has refused: a
    context that is done stops the batch, anything else is counted. *)
Definition refused (p : Program) (record : M) (err : StateError) (e : EngineState S)
    : EngineState S * result StateError (option Match) :=
  let done := ctx (eng_asked e) in
  let e := ask e in
  if bool_decide (done ≠ None) then (e, Err err)
  else (refusedObservation (TenantOf record) (rule_id (p_rule p)) err e, Ok None).

Definition reached (p : Program) (m : Match) (record : M) (partition : Z) (e : EngineState S)
    : EngineState S * result StateError (option Match) :=
  let rule := p_rule p in
  let group := ProgramGroup p record in
  let '(store, (held, err)) :=
    store_Observe (ctx (eng_asked e)) (key_of p record)
      (mkObservation (nameOf record) (eventTime record) "" partition 0)
      (count_within (rule_count rule)) (eng_store e) in
  let e := with_store store (ask e) in
  match err with
  | Some err => refused p record err e
  | None =>
      if Repeated held then (say (Observed OutcomeRepeated) e, Ok None)
      else
        let e := if Saturated held then say SaidSaturated e else e in
        if StateCount held <? count_at_least (rule_count rule)
        then (say (Observed OutcomeCounted) e, Ok None)
        else
          (say (Observed OutcomeReached) e,
           Ok (Some (mkMatch (m_rule m) (m_evidence m)
                       (mkCounted group (StateCount held) (First held) (Saturated held))
                       (m_correlated m))))
  end.

Definition story_observation (reached : Stages) (record : M) (partition : Z) : Observation :=
  mkObservation (nameOf record) (eventTime record) (Stages_String reached) partition
    (skewOf (GetObservedTime record) (GetIngestTime record)).

Definition completed (p : Program) (m : Match) (record : M) (partition : Z) (e : EngineState S)
    : EngineState S * result StateError (option Match) :=
  let '(reached, evidence) := SatisfiedStages p (Some record) in
  if negb (stages_any reached) then (e, Ok None)
  else
    let rule := p_rule p in
    let group := ProgramGroup p record in
    let seen := story_observation reached record partition in
    let '(store, (held, window, err)) :=
      store_Ordered (ctx (eng_asked e)) (key_of p record) seen
        (seq_within (rule_sequence rule)) (eng_store e) in
    let e := with_store store (ask e) in
    match err with
    | Some err => refused p record err e
    | None =>
        if Repeated held then (say (Observed OutcomeRepeated) e, Ok None)
        else
          let e := if Saturated held then say SaidSaturated e else e in
          let stages := ProgramStages p in
          match story window (len stages) seen with
          | None => (say (Observed OutcomeStaged) e, Ok None)
          | Some told =>
              let e := say (Observed OutcomeCompleted) e in
              let found := correlated stages told group in
              let e := if negb (corr_ordered found) then say SaidUnordered e else e in
              (e, Ok (Some (mkMatch (m_rule m) evidence (m_counted m) found)))
          end
    end.

(** What one program makes of a record: the body of the loop of [detect]. *)
Definition decide_one (p : Program) (record : M) (partition : Z) (e : EngineState S)
    : EngineState S * result StateError (option Match) :=
  if ProgramCorrelates p then
    completed p (mkMatch (p_rule p) [] no_count no_story) record partition e
  else match Decide p (Some record) with
  | None => (e, Ok None)
  | Some m => if ProgramCounts p then reached p m record partition e else (e, Ok (Some m))
  end.

Fixpoint detect_loop (id : string) (programs : list Program) (record : M) (partition : Z)
    (at_ : instant) (made : list Detection) (e : EngineState S)
    : EngineState S * result StateError (list Detection) :=
  match programs with
  | [] => (e, Ok made)
  | p :: programs =>
      match decide_one p record partition e with
      | (e, Err err) => (e, Err err)
      | (e, Ok None) => detect_loop id programs record partition at_ made e
      | (e, Ok (Some m)) =>
          detect_loop id programs record partition at_
            (made ++ [Detected digest m id record at_]) e
      end
  end.

(** A ruleset: its name and the programs it runs on a class, in its order. *)
Record Ruleset := mkRuleset { rs_id : string; rs_for : EventClass → list Program }.

Definition detect (rules : option Ruleset) (record : M) (partition : Z) (at_ : instant)
    (e : EngineState S) : EngineState S * result StateError (list Detection) :=
  match rules with
  | None => (e, Ok [])
  | Some rules =>
      detect_loop (rs_id rules) (rs_for rules (GetEventClass record)) record partition at_ [] e
  end.

(** ** A batch (engine.go) *)

Record BackboneRecord := mkBackboneRecord { br_partition : Z; br_offset : Z; br_value : string }.

(** What reading depends on: [proto.Unmarshal], the contract's class names, the
    event contract's validation and the routing table with each class's canonical
    form. *)
Context (Unmarshal : string → option M) (declares : EventClass → bool)
        (conforms : M → bool) (StageFor : EventClass → option (M → M)).

(** A readable record, in its canonical form. *)
Definition read_record (record : BackboneRecord) : option M :=
  match Unmarshal (br_value record) with
  | None => None
  | Some decoded =>
      if negb (declares (GetEventClass decoded)) then None
      else if negb (conforms decoded) then None
      else match StageFor (GetEventClass decoded) with
           | None => None
           | Some normalize => Some (normalize decoded)
           end
  end.

(** The loop of [handle]; the ruleset is asked for again at every record. *)
Fixpoint handle_loop (current : BackboneRecord → option Ruleset) (records : list BackboneRecord) (at_ : instant)
    (made : list Detection) (e : EngineState S)
    : EngineState S * result StateError (list Detection) :=
  match records with
  | [] => (e, Ok made)
  | record :: records =>
      match read_record record with
      | None => handle_loop current records at_ made e
      | Some decoded =>
          match detect (current record) decoded (br_partition record) at_ e with
          | (e, Err err) => (e, Err err)
          | (e, Ok found) => handle_loop current records at_ (made ++ found) e
          end
      end
  end.

(** One attempt at the backbone: whether it took the batch, and whether the
    context was done when asked after a failure and while waiting. *)
Record Attempt := mkAttempt {
  at_taken : bool;
  at_stopped : option StateError;
  at_stopped_waiting : option StateError;
}.

(** [publish] against the attempts that will be made: the delays waited, and
    [None] while it is still retrying. *)
Fixpoint publish_loop (attempts : list Attempt) (delay maxRetryDelay : duration)
    : list duration * option (result StateError unit) :=
  match attempts with
  | [] => ([], None)
  | a :: attempts =>
      if at_taken a then ([], Some (Ok tt))
      else match at_stopped a with
      | Some err => ([], Some (Err err))
      | None =>
          match at_stopped_waiting a with
          | Some err => ([delay], Some (Err err))
          | None =>
              let '(waits, r) :=
                publish_loop attempts (Z.min (int64 (delay * 2)) maxRetryDelay) maxRetryDelay in
              (delay :: waits, r)
          end
      end
  end.

Definition publish (made : list Detection) (attempts : list Attempt)
    (retryDelay maxRetryDelay : duration) : list duration * option (result StateError unit) :=
  if len made =? 0 then ([], Some (Ok tt)) else publish_loop attempts retryDelay maxRetryDelay.

(** [handle]: the engine after the batch, the batch that was to be published,
    and what it answered; [None] while it is publishing. *)
Definition handle (current : BackboneRecord → option Ruleset) (records : list BackboneRecord) (at_ : instant)
    (attempts : list Attempt) (retryDelay maxRetryDelay : duration) (e : EngineState S)
    : EngineState S * list Detection * option (result StateError unit) :=
  match ctx (eng_asked e) with
  | Some err => (ask e, [], Some (Err err))
  | None =>
      match handle_loop current records at_ [] (ask e) with
      | (e, Err err) => (e, [], Some (Err err))
      | (e, Ok made) => (e, made, (publish made attempts retryDelay maxRetryDelay).2)
      end
  end.
End engine.
