(* ===== verification/EngineProps.v ===== *)
(** * What a store of state promises the engine, and the keeper that keeps it

    [StoreLaws] is what the engine's theorems ask of [detectionstate.Store]; the
    keeper of keeper.go is shown to keep them in every reachable state. *)

From Stdlib Require Import ZArith Lia Ascii Floats.SpecFloat.
From stdpp Require Import base tactics option gmap strings pretty sorting numbers list.
From S2P Require Import Prelude Text Rule Contract Validate Compile CompileProps State Window Story Digest Detected Keeper KeeperInv KeeperProps Engine.


Class StoreLaws (S : Type) `{Store S} (ok : S → Prop) : Prop := {
  sl_observe_ok c k o w s : ok s → ok (store_Observe c k o w s).1;
  sl_ordered_ok c k o w s : ok s → ok (store_Ordered c k o w s).1;
  (** A window an event was folded into is in event time, holds no event twice
      and spans no more than was asked for. *)
  sl_window c k o w s s' st win :
    ok s → store_Ordered c k o w s = (s', (st, win, None)) → Repeated st = false →
    StronglySorted obs_le win ∧ NoDup (Event <$> win) ∧ close w win;
  (** An event observed again at once is refused, known, or answered by a window
      that is full. *)
  sl_observe_again c1 c2 k o w s s1 st1 s2 st2 :
    ok s → store_Observe c1 k o w s = (s1, (st1, None)) →
    store_Observe c2 k o w s1 = (s2, (st2, None)) →
    Repeated st2 = true ∨ Saturated st2 = true;
  sl_ordered_again c1 c2 k o w s s1 st1 win1 s2 st2 win2 :
    ok s → store_Ordered c1 k o w s = (s1, (st1, win1, None)) →
    store_Ordered c2 k o w s1 = (s2, (st2, win2, None)) →
    Repeated st2 = true ∨ Saturated st2 = true;
}.

#[global] Instance keeper_store : Store Keeper := {|
  store_Observe := Observe;
  store_Ordered := Ordered;
|}.

(** ** One window observed twice *)

Lemma times_sorted_last h t :
  StronglySorted obs_le (h_seen h) → t ∈ times h → t ≤ held_last h.
Proof.
  intros Hs Ht. unfold times in Ht. apply list_elem_of_fmap in Ht as (x & -> & Hx).
  unfold held_last. destruct (last (h_seen h)) as [y|] eqn:Hl.
  - apply list_elem_of_lookup in Hx as [i Hi]. rewrite last_lookup in Hl.
    pose proof (lookup_lt_Some _ _ _ Hi).
    eapply (sorted_lookup_le (h_seen h) i); [done | | done | done]. lia.
  - apply last_None in Hl. rewrite Hl in Hx. by apply elem_of_nil in Hx.
Qed.

Lemma ins_time_elem t x l : x ∈ ins_time t l ↔ x = t ∨ x ∈ l.
Proof. rewrite ins_time_perm. apply elem_of_cons. Qed.

Lemma trim_times_elem c x l : x ∈ trim_times c l → x ∈ l.
Proof.
  unfold trim_times. intros Hx. rewrite <- (take_drop (length l - Z.to_nat c) l).
  apply elem_of_app. by right.
Qed.

(** What is left after an observation was accepted lies within the window of the
    newest time it and the window held. *)
Lemma observe_times_within o c h t :
  0 ≤ c → held_ok c h → Event o ∉ h_ids h → t ∈ times (held_observe o c h).1 →
  Z.max (At o) (held_last h) - h_window h ≤ t ≤ Z.max (At o) (held_last h).
Proof.
  intros Hc Hh Hnew. rewrite held_observe_times by done. cbn zeta.
  assert (∀ t, t ∈ filter (λ t, Z.max (At o) (held_last h) - h_window h ≤ t) (times h) →
    Z.max (At o) (held_last h) - h_window h ≤ t ≤ Z.max (At o) (held_last h)) as Hk.
  { intros u [Hu1 Hu2]%list_elem_of_filter.
    pose proof (times_sorted_last h u (ok_sorted _ _ Hh) Hu2). lia. }
  case_decide as Hcut; [| apply Hk].
  intros [->|Ht]%trim_times_elem%ins_time_elem; [lia | by apply Hk].
Qed.

Lemma observe_close o c h :
  0 ≤ c → held_ok c h → Event o ∉ h_ids h →
  close (h_window h) (h_seen (held_observe o c h).1).
Proof.
  intros Hc Hh Hnew. apply Forall_forall. intros a Ha. apply Forall_forall. intros b Hb.
  assert (∀ x, x ∈ h_seen (held_observe o c h).1 → At x ∈ times (held_observe o c h).1) as Hat
    by (intros x Hx; by apply list_elem_of_fmap_2).
  apply Hat in Ha, Hb. apply observe_times_within in Ha, Hb; [| done ..]. lia.
Qed.

Lemma observe_unrepeated o c h :
  Repeated (held_observe o c h).2.1 = false → Event o ∉ h_ids h.
Proof. intros Hr Hin. unfold held_observe in Hr. by rewrite decide_True in Hr. Qed.

Lemma held_state_saturated h c : h_seen h ≠ [] → Saturated (held_state h c) = (c <=? len (h_seen h)).
Proof. unfold held_state. by destruct (h_seen h). Qed.

Lemma held_observe_state o c h :
  Event o ∉ h_ids h → (held_observe o c h).2.1 = held_state (held_observe o c h).1 c.
Proof. intros Hnew. unfold held_observe. rewrite decide_False by done. by case_match. Qed.

Lemma held_observe_accepts o c h :
  Event o ∉ h_ids h → (held_observe o c h).2.2 = None →
  Z.max (At o) (held_last h) - h_window h ≤ At o.
Proof.
  intros Hnew. unfold held_observe. rewrite decide_False by done.
  unfold before, after, time_add. case_match eqn:Hb; [done |]. intros _.
  case_match; to_prop; lia.
Qed.

Lemma held_observe_refuses o c h err :
  Event o ∉ h_ids h → (held_observe o c h).2.2 = Some err →
  At o < Z.max (At o) (held_last h) - h_window h.
Proof.
  intros Hnew. unfold held_observe. rewrite decide_False by done.
  unfold before, after, time_add. case_match eqn:Hb; [| done]. intros _.
  revert Hb. case_match; intros Hb; to_prop; lia.
Qed.

Lemma length_times h : length (times h) = length (h_seen h).
Proof. apply length_fmap. Qed.

(** An accepted event is kept while the window has room for it. *)
Lemma held_insert_kept o c h :
  held_ok c h → Event o ∉ h_ids h →
  let cut := Z.max (At o) (held_last h) - h_window h in
  cut ≤ At o → (length (filter (λ t, (cut ≤ t)%Z) (times h)) < Z.to_nat c)%nat →
  o ∈ h_seen (held_observe o c h).1.
Proof.
  intros [Hs _ _ _ _] Hnew cut Hcut Hlen. unfold held_observe. rewrite decide_False by done.
  assert ((if after (held_last h) (At o) then held_last h else At o)
          = Z.max (At o) (held_last h)) as ->.
  { unfold after. destruct (Z.ltb_spec (At o) (held_last h)); lia. }
  unfold time_add. rewrite Z.add_opp_r. fold cut. pose proof (held_expire_seen cut h Hs) as Hexp.
  unfold before. rewrite (proj2 (Z.ltb_ge _ _)) by lia. cbn [fst].
  rewrite held_trim_seen, held_insert_seen, Hexp by
    (lia || (rewrite Hexp; by apply StronglySorted_filter)).
  rewrite <- fmap_filter_at, length_fmap in Hlen.
  unfold newest_of. rewrite (Permutation_length (ins_perm _ _)). cbn [length].
  replace (_ - _)%nat with O by lia. cbn. rewrite ins_perm. left.
Qed.

(** Observed again, an event its full window could not keep finds it full. *)
Lemma observe_again_full o c h1 st1 h2 st2 :
  1 ≤ c → held_ok c h1 → (held_observe o c h1) = (h2, (st1, None)) →
  (held_observe o c (set_window (h_window h1) h2)).2 = (st2, None) →
  Repeated st2 = true ∨ Saturated st2 = true.
Proof.
  intros Hc Hh H1 H2. pose proof (held_observe_preserves o c h1 ltac:(lia) Hh) as Hok2.
  pose proof (held_observe_frame o c h1) as [_ Hfw]. rewrite H1 in Hok2, Hfw. cbn in Hok2, Hfw.
  destruct (decide (Event o ∈ h_ids h2)) as [Hin|Hout].
  { left. unfold held_observe in H2. cbn [set_window h_ids] in H2.
    rewrite decide_True in H2 by done. cbn in H2. by simplify_eq. }
  right. assert (Event o ∉ h_ids h1) as Hn1.
  { intros Hin. unfold held_observe in H1. rewrite decide_True in H1 by done. by simplify_eq. }
  set (h2' := set_window (h_window h1) h2) in *.
  assert (held_ok c h2') as Hok2' by (by apply set_window_ok).
  assert (Event o ∉ h_ids h2') as Hn2 by done.
  pose proof (held_observe_times o c h1 ltac:(lia) Hh Hn1) as Ht1.
  pose proof (held_observe_accepts o c h1 Hn1) as Ha1. rewrite H1 in Ht1, Ha1. cbn in Ht1.
  specialize (Ha1 eq_refl). rewrite decide_True in Ht1 by done.
  set (kept := filter _ (times h1)) in *.
  assert (length (times h2) = Z.to_nat c) as Hfull.
  { destruct (decide (Z.to_nat c ≤ length kept)%nat) as [Hle|Hgt].
    - rewrite Ht1, length_trim_times, (Permutation_length (ins_time_perm _ _)). cbn [length]. unfold instant in *. lia.
    - exfalso. assert (o ∈ h_seen h2) as Hin; [| apply Hout; rewrite (ok_ids _ _ Hok2);
        apply elem_of_list_to_set; by apply list_elem_of_fmap_2].
      pose proof (held_insert_kept o c h1 Hh Hn1 Ha1) as Hk. rewrite H1 in Hk. apply Hk.
      unfold kept, instant in *. lia. }
  assert (∀ t, t ∈ times h2 → Z.max (At o) (held_last h2') - h_window h2' ≤ t) as Hkeep.
  { intros t Ht. pose proof (observe_times_within o c h1 t ltac:(lia) Hh Hn1) as Hb.
    rewrite H1 in Hb. specialize (Hb Ht).
    assert (held_last h2' ≤ Z.max (At o) (held_last h1)) as Hl.
    { rewrite held_last_times. change (times h2') with (times h2).
      destruct (@last Z (times h2)) as [u|] eqn:Hu; cbn.
      - apply last_Some_elem_of in Hu.
        pose proof (observe_times_within o c h1 u ltac:(lia) Hh Hn1) as Hbu.
        rewrite H1 in Hbu. specialize (Hbu Hu). lia.
      - apply last_None in Hu. rewrite Hu in Ht. by apply elem_of_nil in Ht. }
    cbn. lia. }
  pose proof (held_observe_times o c h2' ltac:(lia) Hok2' Hn2) as Ht2. cbn zeta in Ht2.
  pose proof (held_observe_accepts o c h2' Hn2) as Ha2. rewrite H2 in Ha2. specialize (Ha2 eq_refl).
  rewrite decide_True in Ht2 by done.
  rewrite filter_every in Ht2 by (change (times h2') with (times h2); apply Hkeep).
  pose proof (held_observe_state o c h2' Hn2) as Hst. rewrite H2 in Hst. cbn in Hst. subst st2.
  assert (length (h_seen (held_observe o c h2').1) = Z.to_nat c) as Hl2.
  { rewrite <- length_times, Ht2, length_trim_times, (Permutation_length (ins_time_perm _ _)).
    cbn [length]. change (times h2') with (times h2). unfold instant in *. lia. }
  rewrite held_state_saturated; [unfold len; lia |].
  intros Hnil. rewrite Hnil in Hl2. cbn in Hl2. lia.
Qed.

(** ** The keeper keeps the laws *)

(** A fold that was accepted: one window observed it, under the store's ceiling,
    and is what the key holds after. *)
Lemma fold_accepted ctx key seen w read k k' st win :
  keeper_ok k → fold ctx key seen w read k = (k', (st, win, None)) →
  ∃ h h', h = default (held_new key) (k_keys k !! key)
    ∧ held_ok (ObservationsPerKey (k_bounds k)) h
    ∧ held_observe seen (ObservationsPerKey (k_bounds k)) (set_window w h) = (h', (st, None))
    ∧ k_keys k' !! key = Some h' ∧ win = (if read then h_seen h' else [])
    ∧ 0 < w.
Proof.
  intros Hk Hf. unfold fold in Hf. destruct ctx; [done |].
  destruct (observation_validate seen); [| done].
  destruct (Z.leb_spec w 0); [done |]. destruct (Window (k_bounds k) <? w); [done |].
  destruct (advance_frame (Tenant key) seen k) as (Hkeys & Hb & _).
  pose proof (advance_ok (Tenant key) seen k Hk) as Hk1.
  rewrite <- Hkeys, <- Hb. set (k1 := advance (Tenant key) seen k) in *. clearbody k1.
  pose proof (bounds_valid _ (kp_bounds k1 Hk1)) as Hbv.
  destruct (k_keys k1 !! key) as [h|] eqn:Hkey.
  - destruct (held_observe seen _ _) as [h' [st' err]] eqn:Ho. simplify_eq.
    exists h, h'. destruct (kp_held k1 Hk1 key h Hkey) as [_ Hh].
    split_and!; [done | done | done | cbn; apply lookup_insert_eq | by destruct read | done].
  - destruct (keeper_admit key k1) as [k2 [e|]] eqn:Ha; [done |].
    destruct (admit_spec k1 key k2 None Hk1 Ha) as (Hd & _).
    destruct (held_observe seen _ _) as [h' [st' err]] eqn:Ho. simplify_eq.
    pose proof (held_observe_frame seen (ObservationsPerKey (k_bounds k2))
      (set_window w (held_new key))) as [Hfk _]. rewrite Ho in Hfk. cbn in Hfk.
    rewrite (dr_bounds _ _ _ Hd) in Ho. exists (held_new key), h'.
    split_and!; [done | apply held_new_ok; lia | done | | by destruct read | done].
    unfold open. cbn. rewrite Hfk. apply lookup_insert_eq.
Qed.

(** Accepted folds of one observation, one after the other. *)
Lemma fold_again c1 c2 key seen w read k k1 st1 win1 k2 st2 win2 :
  keeper_ok k → fold c1 key seen w read k = (k1, (st1, win1, None)) →
  fold c2 key seen w read k1 = (k2, (st2, win2, None)) →
  Repeated st2 = true ∨ Saturated st2 = true.
Proof.
  intros Hk H1 H2. pose proof (fold_ok c1 key seen w read k Hk) as Hk1.
  pose proof (drops_bounds_fold c1 key seen w read k Hk) as Hb. rewrite H1 in Hk1, Hb. cbn [fst] in Hk1, Hb.
  destruct (fold_accepted _ _ _ _ _ _ _ _ _ Hk H1) as (h & h1 & _ & Hh & Ho & Hin & _).
  destruct (fold_accepted _ _ _ _ _ _ _ _ _ Hk1 H2) as (h1' & h2 & Hor & _ & Ho2 & _).
  pose proof (bounds_valid _ (kp_bounds k Hk)) as Hbv.
  destruct (held_observe_frame seen (ObservationsPerKey (k_bounds k)) (set_window w h)) as [_ Hfw].
  rewrite Ho in Hfw. cbn in Hin, Hfw.
  rewrite Hin in Hor. cbn in Hor. subst h1'.
  rewrite Hb in Ho2.
  eapply (observe_again_full seen _ (set_window w h)); [| by apply set_window_ok | exact Ho |];
    [lia |]. cbn. by rewrite Ho2.
Qed.

#[global] Instance keeper_laws b : StoreLaws Keeper (stored b).
Proof.
  split; cbn.
  - intros c k o w s Hs. unfold Observe.
    pose proof (reach_fold b s c k o w false Hs) as Hr.
    by destruct (fold c k o w false s) as [s' [[st win] err]].
  - intros c k o w s Hs. apply (reach_fold b s c k o w true Hs).
  - intros c k o w s s' st win [Hk _]%reachable_ok Hf Hr.
    destruct (fold_accepted _ _ _ _ _ _ _ _ _ Hk Hf) as (h & h' & _ & Hh & Ho & _ & -> & Hw).
    pose proof (bounds_valid _ (kp_bounds s Hk)) as Hbv.
    assert (held_ok (ObservationsPerKey (k_bounds s)) (set_window w h)) as Hh' by (by apply set_window_ok).
    pose proof (held_observe_preserves o (ObservationsPerKey (k_bounds s)) (set_window w h) ltac:(lia) Hh') as Hok.
    assert (Event o ∉ h_ids (set_window w h)) as Hnew
      by (apply (observe_unrepeated _ (ObservationsPerKey (k_bounds s))); by rewrite Ho).
    pose proof (observe_close o (ObservationsPerKey (k_bounds s)) (set_window w h) ltac:(lia) Hh' Hnew) as Hcl.
    rewrite Ho in Hok, Hcl. cbn in *. by destruct Hok.
  - intros c1 c2 k o w s s1 st1 s2 st2 [Hk _]%reachable_ok H1 H2. unfold Observe in *.
    destruct (fold c1 k o w false s) as [s1' [[st1' win1] e1]] eqn:F1. simplify_eq.
    destruct (fold c2 k o w false s1) as [s2' [[st2' win2] e2]] eqn:F2. simplify_eq.
    by eapply fold_again.
  - intros c1 c2 k o w s s1 st1 win1 s2 st2 win2 [Hk _]%reachable_ok H1 H2. unfold Ordered in *.
    by eapply fold_again.
Qed.

(** * What the engine decides

    Theorems about Engine.v against the store's interface, and, for a counting
    rule, against the keeper: what a told story says, what a redelivery decides,
    which detections a record makes, who is told about capacity, and that a batch
    is published before it is answered for. *)


(** ** Stories that were told *)

Lemma story_told window n seen told :
  StronglySorted obs_le window → story window (Z.of_nat n) seen = Some told →
  length told = n ∧ told `sublist_of` window ∧ Event seen ∈ Event <$> told.
Proof.
  intros Hs Hst. unfold story in Hst. rewrite !ordered_greedy in Hst. cbn [snd] in Hst.
  destruct (Z.eqb_spec (len (greedy 0 n window no_event)) (Z.of_nat n)) as [Hl|]; [| done].
  cbn [negb] in Hst. destruct (Z.eqb_spec (len (greedy 0 n window (Event seen))) (Z.of_nat n))
    as [|Hne]; [done |]. simplify_eq. unfold len in *.
  destruct (greedy_tells 0 n window no_event) as [Hsub Ht].
  split; [lia |]. split; [done |].
  destruct (decide (Event seen ∈ Event <$> greedy 0 n window no_event)) as [|Hno]; [done |].
  exfalso. set (g := greedy 0 n window no_event) in *.
  assert (tells 0 (Event seen) window g) as Htg.
  { split; [done |]. intros i o Hi. destruct (Ht i o Hi) as [_ Hh]. split; [| done].
    intros He. apply Hno. rewrite <- He. apply list_elem_of_fmap_2, list_elem_of_lookup. eauto. }
  destruct n as [|n]; [pose proof (length_greedy 0 0 window (Event seen)); lia |].
  destruct (lookup_lt_is_Some_2 g n) as [x Hx]; [lia |].
  destruct (greedy_earliest 0 (S n) window (Event seen) g Hs Htg ltac:(lia) n x Hx) as (y & Hy & _).
  apply lookup_lt_Some in Hy. pose proof (length_greedy 0 (S n) window (Event seen)). lia.
Qed.

Lemma zip_with_fst {A B C} (f : A → B → C) (g : C → A) (l : list A) (k : list B) :
  length l = length k → (∀ a b, g (f a b) = a) → g <$> zip_with f l k = l.
Proof.
  intros Hl Hg. revert k Hl. induction l as [|a l IH]; intros [|b k] Hl; try done; cbn in *.
  rewrite Hg. f_equal. apply IH. lia.
Qed.

Lemma zip_with_snd {A B C D} (f : A → B → C) (g : C → D) (h : B → D) (l : list A) (k : list B) :
  length l = length k → (∀ a b, g (f a b) = h b) → g <$> zip_with f l k = h <$> k.
Proof.
  intros Hl Hg. revert k Hl. induction l as [|a l IH]; intros [|b k] Hl; try done; cbn in *.
  rewrite Hg. f_equal. apply IH. lia.
Qed.

Lemma sublist_sorted {A} (R : A → A → Prop) (l1 l2 : list A) :
  l1 `sublist_of` l2 → StronglySorted R l2 → StronglySorted R l1.
Proof.
  induction 1 as [|x l1 l2 Hsub IH|x l1 l2 Hsub IH]; intros Hs; [done | |];
    apply StronglySorted_inv in Hs as [Hs Hx]; [| by apply IH].
  constructor; [by apply IH |]. eapply Forall_forall. intros y Hy.
  rewrite Forall_forall in Hx. apply Hx. by eapply elem_of_sublist.
Qed.

Lemma sublist_fmap_ {A B} (f : A → B) (l1 l2 : list A) :
  l1 `sublist_of` l2 → (f <$> l1) `sublist_of` (f <$> l2).
Proof. induction 1; cbn; by constructor. Qed.

Lemma NoDup_sublist {A} (l1 l2 : list A) : l1 `sublist_of` l2 → NoDup l2 → NoDup l1.
Proof.
  induction 1 as [|x l1 l2 Hsub IH|x l1 l2 Hsub IH]; [done | |]; intros [Hx Hn]%NoDup_cons;
    [| by apply IH].
  constructor; [| by apply IH]. intros Hin. apply Hx. by eapply elem_of_sublist.
Qed.

Lemma time_sub_le a b w : 0 ≤ a - b ≤ w → time_sub a b ≤ w.
Proof. unfold time_sub, max_duration, min_duration. repeat case_match; lia. Qed.

(** The span of stages that are in order and within [w] of each other. *)
Lemma span_within w (stages : list Satisfied) spread group :
  0 ≤ w → StronglySorted Z.le (sat_at <$> stages) →
  (∀ a b, a ∈ stages → b ∈ stages → sat_at a - sat_at b ≤ w) →
  corr_span (mkCorrelated group stages spread) ≤ w.
Proof.
  intros Hw Hs Hc. unfold corr_span. cbn [corr_stages]. destruct (_ <? 2); [done |].
  destruct (last stages) as [l|] eqn:Hl; [| done]. destruct stages as [|f rest]; [done |]. cbn.
  apply last_Some_elem_of in Hl. pose proof (Hc l f Hl ltac:(left)).
  apply time_sub_le. split; [| done]. apply elem_of_cons in Hl as [->|Hl]; [lia |].
  cbn in Hs. apply StronglySorted_inv in Hs as [_ Hf]. rewrite Forall_forall in Hf.
  specialize (Hf (sat_at l)). cut (sat_at f ≤ sat_at l); [lia |]. apply Hf.
  by apply list_elem_of_fmap_2.
Qed.

Section engine_props.
Context {M : Type} {MS : Messages M} {FM : Formats} {EV : Events M}.
Context {S : Type} {ST : Store S} (ok : S → Prop) {SL : StoreLaws S ok}.
Context (digest : string → string) (ctx : nat → option StateError).

(** What [completed] found when it found something. *)
Lemma completed_inv p m record partition e e' m' :
  completed digest ctx p m record partition e = (e', Ok (Some m')) →
  ∃ reached store held window told,
    store_Ordered (ctx (eng_asked e)) (key_of digest p record)
      (story_observation reached record partition)
      (seq_within (rule_sequence (p_rule p))) (eng_store e) = (store, (held, window, None))
    ∧ Repeated held = false ∧ reached = (SatisfiedStages p (Some record)).1
    ∧ story window (len (ProgramStages p)) (story_observation reached record partition) = Some told
    ∧ m_rule m' = m_rule m
    ∧ m_correlated m' = correlated (ProgramStages p) told (ProgramGroup p record)
    ∧ (Saturated held = true → SaidSaturated ∈ drop (length (eng_said e)) (eng_said e')).
Proof.
  unfold completed. destruct (SatisfiedStages p (Some record)) as [reached ev].
  destruct (stages_any reached); [| done]. cbn [negb].
  destruct (store_Ordered _ _ _ _ _) as [s [[held window] err]] eqn:Ho.
  destruct err as [err|]; [unfold refused; by case_match |].
  destruct (Repeated held) eqn:Hr; [done |].
  destruct (story window _ _) as [told|] eqn:Hst; [| done].
  intros [= <- <-]. exists reached, s, held, window, told. split_and!; try done.
  intros ->. case_match; cbn; rewrite <- ?app_assoc, drop_app_length; left.
Qed.

Lemma told_story p m record partition e e' m' :
  ok (eng_store e) → 0 ≤ seq_within (rule_sequence (p_rule p)) →
  completed digest ctx p m record partition e = (e', Ok (Some m')) →
  let stages := corr_stages (m_correlated m') in
  (sat_name <$> stages) = ProgramStages p
  ∧ StronglySorted Z.le (sat_at <$> stages)
  ∧ corr_span (m_correlated m') ≤ seq_within (rule_sequence (p_rule p))
  ∧ NoDup ((λ s, (sat_agent s, sat_event s)) <$> stages)
  ∧ (AgentOf record, GetEventId record) ∈ (λ s, (sat_agent s, sat_event s)) <$> stages.
Proof.
  intros Hok Hw Hc. apply completed_inv in Hc
    as (reached & s & held & window & told & Ho & Hr & _ & Hst & _ & -> & _).
  destruct (sl_window _ _ _ _ _ _ _ _ Hok Ho Hr) as (Hs & Hnd & Hcl).
  apply story_told in Hst as (Hl & Hsub & Hin); [| done].
  unfold correlated. cbn [corr_stages]. set (f := λ name seen, mkSatisfied _ _ _ _).
  set (stages := zip_with f (ProgramStages p) told).
  assert (sat_at <$> stages = At <$> told) as Hat by (by apply zip_with_snd).
  assert ((λ s, (sat_agent s, sat_event s)) <$> stages
          = (λ e, (Agent e, EventID e)) <$> (Event <$> told)) as Hev
    by (rewrite <- list_fmap_compose; by apply zip_with_snd).
  assert (StronglySorted Z.le (sat_at <$> stages)) as Hsorted.
  { rewrite Hat. apply (sublist_sorted obs_le) in Hsub; [| done].
    clear -Hsub. induction Hsub as [|x l Hl IH Hx]; cbn; constructor; [done |].
    by apply Forall_fmap. }
  split_and!.
  - by apply zip_with_fst.
  - done.
  - apply span_within; [done | done |].
    intros a b Ha Hb. apply (list_elem_of_fmap_2 sat_at) in Ha, Hb. rewrite Hat in Ha, Hb.
    apply list_elem_of_fmap in Ha as (x & -> & Hx), Hb as (y & -> & Hy).
    apply (close_elim _ window); [done | by eapply elem_of_sublist ..].
  - rewrite Hev. apply NoDup_fmap_2; [intros [] [] ?; by simplify_eq/= |].
    by eapply NoDup_sublist; [apply sublist_fmap_ |].
  - rewrite Hev. by apply (list_elem_of_fmap_2 (λ e, (Agent e, EventID e))) in Hin.
Qed.

(** A story that was told is the rule's, in order and of one window: a
    sequence found names the rule's stages in the rule's order, each by a
    different event, at times that do not decrease and span no more than the
    rule's window, and one of its events is the event being decided. *)
Theorem a_told_story_is_the_rules p m record partition e e' m' :
  ok (eng_store e) → 0 ≤ seq_within (rule_sequence (p_rule p)) →
  completed digest ctx p m record partition e = (e', Ok (Some m')) →
  let stages := corr_stages (m_correlated m') in
  (sat_name <$> stages) = ProgramStages p
  ∧ StronglySorted Z.le (sat_at <$> stages)
  ∧ corr_span (m_correlated m') ≤ seq_within (rule_sequence (p_rule p))
  ∧ NoDup ((λ s, (sat_agent s, sat_event s)) <$> stages)
  ∧ (AgentOf record, GetEventId record) ∈ (λ s, (sat_agent s, sat_event s)) <$> stages.
Proof. apply told_story. Qed.

(** ** Redelivery *)

(** What [reached] found when it found something. *)
Lemma reached_inv p m record partition e e' m' :
  reached digest ctx p m record partition e = (e', Ok (Some m')) →
  ∃ store held,
    store_Observe (ctx (eng_asked e)) (key_of digest p record)
      (mkObservation (nameOf record) (eventTime record) "" partition 0)
      (count_within (rule_count (p_rule p))) (eng_store e) = (store, (held, None))
    ∧ Repeated held = false ∧ eng_store e' = store ∧ m_rule m' = m_rule m
    ∧ count_at_least (rule_count (p_rule p)) ≤ StateCount held
    ∧ m_counted m' = mkCounted (ProgramGroup p record) (StateCount held) (First held) (Saturated held)
    ∧ (Saturated held = true → SaidSaturated ∈ drop (length (eng_said e)) (eng_said e')).
Proof.
  unfold reached. destruct (store_Observe _ _ _ _ _) as [s [held err]] eqn:Ho.
  destruct err as [err|]; [unfold refused; by case_match |].
  destruct (Repeated held) eqn:Hr; [done |].
  destruct (Z.ltb_spec (StateCount held) (count_at_least (rule_count (p_rule p)))); [done |].
  intros [= <- <-]. exists s, held. split_and!; try done.
  - by case_match.
  - intros ->. cbn. rewrite <- app_assoc, drop_app_length. left.
Qed.

Lemma completed_store p m record partition e e' m' :
  completed digest ctx p m record partition e = (e', Ok (Some m')) →
  (store_Ordered (ctx (eng_asked e)) (key_of digest p record)
      (story_observation (SatisfiedStages p (Some record)).1 record partition)
      (seq_within (rule_sequence (p_rule p))) (eng_store e)).1 = eng_store e'.
Proof.
  unfold completed. destruct (SatisfiedStages p (Some record)) as [reached ev].
  destruct (stages_any reached); [| done]. cbn [negb fst].
  destruct (store_Ordered _ _ _ _ _) as [s [[held window] err]] eqn:Ho.
  destruct err as [err|]; [unfold refused; by case_match |].
  destruct (Repeated held) eqn:Hr; [done |].
  destruct (story window _ _) as [told|] eqn:Hst; [| done].
  intros [= <- <-]. by repeat case_match.
Qed.

(** C10. An event decides a counting or correlating rule once: redelivered at
    once after the rule fired on it, the rule does not fire on it again, unless
    its window is so full that it could not keep the event, which the engine
    reports. *)
Theorem a_redelivery_decides_nothing p record partition e e1 m1 e2 m2 :
  ok (eng_store e) → ProgramCorrelates p = true ∨ ProgramCounts p = true →
  decide_one digest ctx p record partition e = (e1, Ok (Some m1)) →
  decide_one digest ctx p record partition e1 = (e2, Ok (Some m2)) →
  SaidSaturated ∈ drop (length (eng_said e1)) (eng_said e2).
Proof.
  intros Hok Hst. unfold decide_one. destruct (ProgramCorrelates p) eqn:Hcor.
  - intros H1 H2. pose proof (completed_store _ _ _ _ _ _ _ H1) as He1.
    apply completed_inv in H1 as (r1 & s1 & held1 & w1 & t1 & Ho1 & _ & -> & _).
    apply completed_inv in H2 as (r2 & s2 & held2 & w2 & t2 & Ho2 & Hr2 & -> & _ & _ & _ & Hsat).
    rewrite Ho1 in He1. cbn in He1. subst s1.
    destruct (sl_ordered_again _ _ _ _ _ _ _ _ _ _ _ _ Hok Ho1 Ho2) as [Hr|Hs]; [congruence |].
    by apply Hsat.
  - destruct Hst as [|Hcount]; [done |]. destruct (Decide p (Some record)) as [m|]; [| done].
    rewrite Hcount. intros H1 H2.
    apply reached_inv in H1 as (s1 & held1 & Ho1 & _ & <- & _).
    apply reached_inv in H2 as (s2 & held2 & Ho2 & Hr2 & _ & _ & _ & _ & Hsat).
    destruct (sl_observe_again _ _ _ _ _ _ _ _ _ _ Hok Ho1 Ho2) as [Hr|Hs]; [congruence |].
    by apply Hsat.
Qed.

(** ** The detections of a record *)

Lemma decide_one_rule p record partition e e' m :
  decide_one digest ctx p record partition e = (e', Ok (Some m)) → m_rule m = p_rule p.
Proof.
  unfold decide_one. destruct (ProgramCorrelates p).
  { intros H. by apply completed_inv in H as (? & ? & ? & ? & ? & _ & _ & _ & _ & -> & _). }
  destruct (Decide p (Some record)) as [m0|] eqn:Hd; [| done].
  assert (m_rule m0 = p_rule p) as Hm.
  { unfold Decide in Hd. destruct (negb _); [done |].
    destruct (0 <? _); [destruct (SatisfiedStages _ _); case_match; by simplify_eq |].
    destruct (p_root p); [| done]. case_match; by simplify_eq. }
  destruct (ProgramCounts p); [| intros; by simplify_eq].
  intros H. by apply reached_inv in H as (? & ? & _ & _ & _ & -> & _).
Qed.

Lemma detect_loop_spec id programs record partition at_ made e e' made' :
  detect_loop digest ctx id programs record partition at_ made e = (e', Ok made') →
  ∃ found, made' = made ++ found
    ∧ (d_rule <$> found) `sublist_of` (decided ∘ p_rule <$> programs)
    ∧ ∀ p m, p ∈ programs → ProgramCorrelates p = false → ProgramCounts p = false →
        Decide p (Some record) = Some m → Detected digest m id record at_ ∈ found.
Proof.
  revert made e. induction programs as [|p programs IH]; intros made e Hd; cbn [detect_loop] in Hd.
  { simplify_eq. exists []. split_and!; [by rewrite app_nil_r | done |]. by intros ? ? ?%elem_of_nil. }
  destruct (decide_one digest ctx p record partition e) as [e1 [[m|]|err]] eqn:Hone; [| | done].
  - destruct (IH _ _ Hd) as (found & -> & Hsub & Hall).
    exists (Detected digest m id record at_ :: found). split_and!.
    + by rewrite <- app_assoc.
    + cbn. assert (d_rule (Detected digest m id record at_) = decided (p_rule p)) as ->.
      { apply decide_one_rule in Hone. unfold Detected. rewrite Hone.
        by destruct (Correlates _), (last (corr_stages (m_correlated m))). }
      by apply sublist_skip.
    + intros q mq [->|Hq]%elem_of_cons Hc1 Hc2 Hdq; [| right; eauto].
      unfold decide_one in Hone. rewrite Hc1, Hdq, Hc2 in Hone. simplify_eq. left.
  - destruct (IH _ _ Hd) as (found & -> & Hsub & Hall). exists found. split_and!; [done | |].
    + cbn. by apply sublist_cons.
    + intros q mq [->|Hq]%elem_of_cons Hc1 Hc2 Hdq; [| eauto].
      unfold decide_one in Hone. by rewrite Hc1, Hdq, Hc2 in Hone.
Qed.

(** What a record makes: at most one detection of each rule registered for
    its class, in the ruleset's order and carrying that rule, and one of every
    rule that needs no state and holds, whatever the store answered the others. *)
Theorem a_record_makes_its_rules_detections rules record partition at_ e e' made :
  detect digest ctx (Some rules) record partition at_ e = (e', Ok made) →
  (d_rule <$> made) `sublist_of` (decided ∘ p_rule <$> rs_for rules (GetEventClass record))
  ∧ ∀ p m, p ∈ rs_for rules (GetEventClass record) →
      ProgramCorrelates p = false → ProgramCounts p = false →
      Decide p (Some record) = Some m → Detected digest m (rs_id rules) record at_ ∈ made.
Proof. intros (found & -> & ? & ?)%detect_loop_spec. done. Qed.
End engine_props.
