(* ===== verification/EngineBatch.v ===== *)
(** * Batches: what the engine says, publishes and remembers

    Theorems about [handle], [publish] and [refusedObservation] of Engine.v over
    any store, and about a counting rule over the keeper. *)

From Stdlib Require Import ZArith Lia Ascii Floats.SpecFloat.
From stdpp Require Import base tactics option gmap strings pretty sorting numbers list.
From S2P Require Import Prelude Text Rule Contract Validate Compile CompileProps State Window Story Digest Detected Engine Keeper KeeperInv KeeperProps EngineProps.

(** ** Who was told about capacity *)

Definition told_lines (said : list Said) : list atCapacity :=
  omap (λ s, match s with SaidAtCapacity a => Some a | _ => None end) said.

(** Every refusal is told once and remembered, and few are. *)
Record telling {S} (e : EngineState S) : Prop := {
  tl_once : NoDup (told_lines (eng_said e));
  tl_all : eng_told e = list_to_set (told_lines (eng_said e));
  tl_few : Z.of_nat (size (eng_told e)) ≤ maxToldAtCapacity;
}.

Lemma told_lines_app l1 l2 : told_lines (l1 ++ l2) = told_lines l1 ++ told_lines l2.
Proof. apply omap_app. Qed.

Lemma telling_say {S} s (e : EngineState S) :
  (∀ a, s ≠ SaidAtCapacity a) → telling e → telling (say s e).
Proof.
  intros Hs [Ho Ha Hf]. assert (told_lines [s] = []) as Hn by (destruct s; [done .. | naive_solver]).
  split; cbn; rewrite ?told_lines_app, ?Hn, ?app_nil_r; done.
Qed.

Lemma telling_frame {S} (e1 e2 : EngineState S) :
  eng_told e2 = eng_told e1 → eng_said e2 = eng_said e1 → telling e1 → telling e2.
Proof. intros H1 H2 []. by split; rewrite ?H1, ?H2. Qed.

Lemma telling_tell {S} a (e : EngineState S) : telling e → telling (tell a e).
Proof.
  intros [Ho Ha Hf]. unfold tell. destruct (bool_decide _ || _) eqn:Hc; [by split |].
  apply orb_false_iff in Hc as [Hnew Hroom]. to_prop.
  assert (a ∉ told_lines (eng_said e)) as Hn by (rewrite Ha in Hnew; set_solver).
  split; cbn; rewrite ?told_lines_app; cbn.
  - apply NoDup_app. split_and!; [done | | apply NoDup_singleton].
    intros x Hx Hx'%list_elem_of_singleton. by subst.
  - rewrite list_to_set_app_L, <- Ha. cbn. set_solver.
  - rewrite size_union by set_solver. rewrite size_singleton. lia.
Qed.

Lemma telling_refused {S} tenant rule err (e : EngineState S) :
  telling e → telling (refusedObservation tenant rule err e).
Proof.
  intros He. unfold refusedObservation. case_match; [| apply telling_tell]; by apply telling_say.
Qed.

Section batches.
Context {M : Type} {MS : Messages M} {FM : Formats} {EV : Events M}.
Context {S : Type} {ST : Store S}.
Context (digest : string → string) (ctx : nat → option StateError).

Ltac say_telling :=
  repeat first [ apply telling_say; [done |] | by (eapply telling_frame; [| | eassumption]) ].

Lemma telling_refused_at p record err (e : EngineState S) :
  telling e → telling (refused ctx p record err e).1.
Proof.
  intros He. unfold refused. case_match; [say_telling |].
  apply telling_refused. say_telling.
Qed.

Lemma telling_decide_one p record partition (e : EngineState S) :
  telling e → telling (decide_one digest ctx p record partition e).1.
Proof.
  intros He. unfold decide_one. destruct (ProgramCorrelates p).
  - unfold completed. destruct (SatisfiedStages _ _). case_match; [done |].
    destruct (store_Ordered _ _ _ _ _) as [s [[held window] [err|]]].
    { apply telling_refused_at. say_telling. }
    destruct (Repeated held), (Saturated held); cbn [fst]; repeat case_match; say_telling.
  - destruct (Decide _ _) as [m|]; [| done]. destruct (ProgramCounts p); [| done].
    unfold reached. destruct (store_Observe _ _ _ _ _) as [s [held [err|]]].
    { apply telling_refused_at. say_telling. }
    destruct (Repeated held), (Saturated held); cbn [fst]; repeat case_match; say_telling.
Qed.

Lemma telling_detect_loop id programs record partition at_ made (e : EngineState S) :
  telling e → telling (detect_loop digest ctx id programs record partition at_ made e).1.
Proof.
  revert made e. induction programs as [|p programs IH]; intros made e He; cbn [detect_loop]; [done |].
  pose proof (telling_decide_one p record partition e He) as H1.
  destruct (decide_one digest ctx p record partition e) as [e1 [[m|]|err]]; auto.
Qed.

Context (Unmarshal : string → option M) (declares : EventClass → bool)
        (conforms : M → bool) (StageFor : EventClass → option (M → M)).

Abbreviation handle_loop' := (handle_loop digest ctx Unmarshal declares conforms StageFor).
Abbreviation handle' := (handle digest ctx Unmarshal declares conforms StageFor).
Abbreviation read' := (read_record Unmarshal declares conforms StageFor).

Lemma telling_handle_loop current records at_ made (e : EngineState S) :
  telling e → telling (handle_loop' current records at_ made e).1.
Proof.
  revert made e. induction records as [|r records IH]; intros made e He; cbn [handle_loop]; [done |].
  destruct (read' r) as [decoded|]; [| by apply IH].
  assert (telling (detect digest ctx (current r) decoded (br_partition r) at_ e).1) as H1.
  { unfold detect. destruct (current r); [by apply telling_detect_loop | done]. }
  destruct (detect _ _ _ _ _ _ _) as [e1 [found|err]]; auto.
Qed.

(** An engine's life: started on a store, then any number of batches. *)
Inductive ran : EngineState S → Prop :=
| ran_new s : ran (mkEngine s ∅ [] 0)
| ran_batch e current records at_ attempts d dmax :
    ran e → ran (handle' current records at_ attempts d dmax e).1.1.

(** A flood is not written down a second time: whatever batches an engine
    has handled, the lines it wrote about rules out of room name each tenant,
    rule and kind of refusal at most once, and there are at most 1024 of them. *)
Theorem capacity_is_told_once e :
  ran e → NoDup (told_lines (eng_said e)) ∧ len (told_lines (eng_said e)) ≤ maxToldAtCapacity.
Proof.
  intros Hr. assert (telling e) as [Ho Ha Hf].
  { induction Hr as [s|e current records at_ attempts d dmax Hr IH].
    - split; cbn; [constructor | done | by rewrite size_empty].
    - unfold handle. destruct (ctx (eng_asked e)); [by apply (telling_frame e) |].
      pose proof (telling_handle_loop current records at_ [] (ask e)
        ltac:(by apply (telling_frame e))) as H1.
      by destruct (handle_loop' current records at_ [] (ask e)) as [e1 [made|err]]. }
  split; [done |]. rewrite Ha, size_list_to_set in Hf by done. done.
Qed.

(** ** Records that cannot be read *)

Lemma handle_loop_skip current r1 bad r2 at_ made (e : EngineState S) :
  read' bad = None →
  handle_loop' current (r1 ++ bad :: r2) at_ made e = handle_loop' current (r1 ++ r2) at_ made e.
Proof.
  intros Hb. revert made e. induction r1 as [|r r1 IH]; intros made e; cbn [app handle_loop].
  { by rewrite Hb. }
  destruct (read' r); [| apply IH]. destruct (detect _ _ _ _ _ _ _) as [e1 [found|err]]; auto.
Qed.

(** One unreadable record never holds a partition: a record that does not
    decode, is of a class nobody routes or breaks the contract changes nothing of
    what the batch around it decides, remembers and publishes. *)
Theorem an_unreadable_record_holds_nothing current r1 bad r2 at_ attempts d dmax (e : EngineState S) :
  read' bad = None →
  handle' current (r1 ++ bad :: r2) at_ attempts d dmax e
  = handle' current (r1 ++ r2) at_ attempts d dmax e.
Proof. intros Hb. unfold handle. by rewrite handle_loop_skip. Qed.

End batches.

(** ** Publishing *)

Lemma publish_loop_spec attempts d dmax waits r :
  0 < d ≤ dmax → dmax < 2 ^ 62 →
  publish_loop attempts d dmax = (waits, r) →
  (∀ i w, waits !! i = Some w → w = Z.min (d * 2 ^ Z.of_nat i) dmax)
  ∧ (r = None ↔ Forall (λ a, at_taken a = false ∧ at_stopped a = None ∧ at_stopped_waiting a = None) attempts)
  ∧ (r = Some (Ok tt) ↔ ∃ before a after, attempts = before ++ a :: after ∧ at_taken a = true
       ∧ Forall (λ a, at_taken a = false ∧ at_stopped a = None ∧ at_stopped_waiting a = None) before).
Proof.
  intros Hd Hmax. revert d waits r Hd.
  induction attempts as [|a attempts IH]; intros d waits r Hd Hp; cbn [publish_loop] in Hp.
  { simplify_eq. split_and!; [done | done |]. split; [done |]. by intros ([] & ? & ? & ? & _). }
  assert (Z.min (d * 2 ^ 0) dmax = d) as H0 by lia.
  assert (∀ P : Attempt → Prop, (∃ before b after, a :: attempts = before ++ b :: after
      ∧ at_taken b = true ∧ Forall P before) ↔
    at_taken a = true ∨ P a ∧ ∃ before b after, attempts = before ++ b :: after
      ∧ at_taken b = true ∧ Forall P before) as Hsplit.
  { intros P. split.
    - intros ([|x before] & b & after & Heq & Hb & Hf); cbn in Heq; simplify_eq; [by left | right].
      apply Forall_cons in Hf as [Hx Hf]. split; [done |]. by exists before, b, after.
    - intros [Ha|(Ha & before & b & after & -> & Hb & Hf)]; [by exists [], a, attempts |].
      exists (a :: before), b, after. by split_and!; [| | constructor]. }
  rewrite Hsplit, Forall_cons. clear Hsplit.
  destruct (at_taken a) eqn:Ht; [simplify_eq; split_and!; [done | naive_solver | naive_solver] |].
  destruct (at_stopped a) eqn:Hs; [simplify_eq; split_and!; [done | naive_solver | naive_solver] |].
  destruct (at_stopped_waiting a) eqn:Hw.
  { simplify_eq. split_and!; [| naive_solver | naive_solver].
    intros [|i] w Hi; [| done]. cbn in Hi. simplify_eq. symmetry. exact H0. }
  destruct (publish_loop attempts _ dmax) as [waits' r'] eqn:Hloop. simplify_eq.
  rewrite int64_id in Hloop by lia.
  destruct (IH (Z.min (d * 2) dmax) waits' r ltac:(lia) Hloop) as (Hwaits & Hnone & Hok).
  split_and!; [| naive_solver | naive_solver].
  intros [|i] w Hi; cbn in Hi; [simplify_eq; symmetry; exact H0 |].
  rewrite (Hwaits i w Hi), Nat2Z.inj_succ, Z.pow_succ_r by lia.
  assert (0 < 2 ^ Z.of_nat i) by (apply Z.pow_pos_nonneg; lia).
  destruct (Z.min_spec (d * 2) dmax) as [[? ->]|[? ->]]; nia.
Qed.

(** C11. Publishing is retried until the backbone has the batch or the process is
    stopping, and nothing is dropped to make progress: it answers well exactly
    when some attempt took the batch after every earlier one failed with the
    process still running, and is still at it exactly when every attempt so far
    did; the delay between attempts doubles up to its ceiling. *)
Theorem publishing_drops_nothing made attempts d dmax waits r :
  made ≠ [] → 0 < d ≤ dmax → dmax < 2 ^ 62 →
  publish made attempts d dmax = (waits, r) →
  (∀ i w, waits !! i = Some w → w = Z.min (d * 2 ^ Z.of_nat i) dmax)
  ∧ (r = None ↔ Forall (λ a, at_taken a = false ∧ at_stopped a = None ∧ at_stopped_waiting a = None) attempts)
  ∧ (r = Some (Ok tt) ↔ ∃ before a after, attempts = before ++ a :: after ∧ at_taken a = true
       ∧ Forall (λ a, at_taken a = false ∧ at_stopped a = None ∧ at_stopped_waiting a = None) before).
Proof.
  intros Hm. unfold publish. destruct made; [done |]. apply publish_loop_spec.
Qed.


(** ** A counting rule over the keeper *)

Lemma fold_held key seen w read k h :
  keeper_ok k → k_keys k !! key = Some h → observation_validate seen = Ok tt →
  0 < w ≤ Window (k_bounds k) →
  (fold None key seen w read k).2
  = let '(h', (st, err)) := held_observe seen (ObservationsPerKey (k_bounds k)) (set_window w h) in
    (st, if bool_decide (err = None) && read then h_seen h' else [], err).
Proof.
  intros Hk Hin Hv Hw. unfold fold. rewrite Hv.
  rewrite (proj2 (Z.leb_gt _ _)), (proj2 (Z.ltb_ge _ _)) by lia.
  destruct (advance_frame (Tenant key) seen k) as (-> & -> & _). rewrite Hin.
  by destruct (held_observe seen _ _) as [h' [st err]].
Qed.

Lemma held_state_count h c : StateCount (held_state h c) = len (h_seen h).
Proof. unfold held_state. by destruct (h_seen h). Qed.

Lemma named_apart_init stream rest : named_apart (stream ++ rest) → named_apart stream.
Proof.
  intros Hn. apply named_apart_intro. intros a b Ha Hb He.
  by apply (named_apart_elim _ Hn); [apply elem_of_app; left .. |].
Qed.

Lemma newest_delivered w c key stream o :
  0 ≤ w → 1 ≤ c → dated (stream ++ [o]) → named_apart (stream ++ [o]) →
  Z.max (At o) (held_last (deliver w c (held_new key) stream))
  = newest_time (At <$> remove_dups (stream ++ [o])).
Proof.
  intros Hw Hc Hd Hn. apply Forall_app in Hd as [Hd [Ho _]%Forall_cons].
  assert (named_apart stream) as Hn'.
  { by eapply named_apart_init. }
  destruct (deliver_reference w c key stream Hw Hc Hd Hn') as [Ht _].
  rewrite held_last_times, Ht, window_times_last; [| done | done |].
  - rewrite (newest_time_perm _ _ (fmap_Permutation At _ _ (remove_dups_snoc stream o))).
    case_decide as Hin; [| done].
    pose proof (newest_time_ge (At <$> remove_dups stream) (At o)
      ltac:(apply list_elem_of_fmap_2; by apply elem_of_remove_dups)). lia.
  - apply Forall_fmap, Forall_forall. intros x Hx. rewrite elem_of_remove_dups in Hx.
    unfold dated in Hd. rewrite Forall_forall in Hd. by apply Hd.
Qed.

Section counting.
Context {M : Type} {MS : Messages M} {FM : Formats} {EV : Events M}.
Context (digest : string → string).

(** C9. A counting rule fires exactly when its window has reached what it asks
    for: over a store whose key has been delivered any stream, a record fires the
    rule if and only if the window does not hold it already, it is not too late
    for the window, and the reference window of everything delivered, itself
    included, holds at least as many events as the rule asks for. *)
Theorem a_count_fires_at_its_threshold b k p m record partition (e : EngineState Keeper) stream :
  let o := mkObservation (nameOf record) (eventTime record) "" partition 0 in
  let w := count_within (rule_count (p_rule p)) in
  let c := ObservationsPerKey b in
  let key := key_of digest p record in
  stored b k → eng_store e = k → k_keys k !! key = Some (deliver w c (held_new key) stream) →
  observation_validate o = Ok tt → 0 < w ≤ Window b →
  dated (stream ++ [o]) → named_apart (stream ++ [o]) →
  (∃ m', (reached digest (λ _, None) p m record partition e).2 = Ok (Some m'))
  ↔ o ∉ h_seen (deliver w c (held_new key) stream)
    ∧ newest_time (At <$> remove_dups (stream ++ [o])) - w ≤ At o
    ∧ count_at_least (rule_count (p_rule p))
      ≤ len (window_times w c (At <$> remove_dups (stream ++ [o]))).
Proof.
  intros o w c key [Hk Hbd]%reachable_ok He Hin Hv Hw Hd Hn.
  pose proof (bounds_valid _ (kp_bounds k Hk)) as Hbv. rewrite Hbd in Hbv. fold c in Hbv.
  pose proof (fold_held key o w false k _ Hk Hin Hv ltac:(by rewrite Hbd)) as Hf.
  rewrite Hbd in Hf. fold c in Hf.
  destruct (deliver_reference w c key (stream ++ [o]) ltac:(lia) ltac:(lia) Hd Hn) as [Ht _].
  rewrite deliver_snoc in Ht. rewrite <- Ht, <- (newest_delivered w c key stream o) by (lia || done).
  destruct (kp_held k Hk _ _ Hin) as [_ Hh]. rewrite Hbd in Hh. fold c in Hh.
  set (h := deliver w c (held_new key) stream) in *.
  assert (o ∈ h_seen h ↔ Event o ∈ h_ids (set_window w h)) as Hmem.
  { cbn. rewrite (ok_ids _ _ Hh), elem_of_list_to_set, list_elem_of_fmap. split; [by exists o |].
    intros (x & Hx & Hxin). rewrite (named_apart_elim _ Hn o x); [done | apply elem_of_app; right; left | | done].
    apply elem_of_app. left. apply Forall_app in Hd as [Hd _].
    apply (deliver_reference w c key stream); [lia | lia | done | by eapply named_apart_init | done]. }
  rewrite Hmem. unfold reached. rewrite He. cbn [store_Observe keeper_store]. unfold Observe.
  fold key o w. destruct (fold None key o w false k) as [k' [[st win] err]]. cbn in Hf.
  destruct (decide (Event o ∈ h_ids (set_window w h))) as [Hrep|Hnew].
  { unfold held_observe in Hf. rewrite decide_True in Hf by done. simplify_eq. cbn. naive_solver. }
  pose proof (held_observe_state o c _ Hnew) as Hst.
  pose proof (held_observe_accepts o c _ Hnew) as Hacc.
  destruct (held_observe o c (set_window w h)) as [h' [st' err']] eqn:Hob. cbn in Hst, Hacc, Hf, Ht |- *.
  simplify_eq. rewrite held_state_count. unfold len. rewrite length_fmap.
  destruct err' as [err|].
  - split; [naive_solver |]. intros (_ & Hcut & _). exfalso.
    pose proof (held_observe_refuses o c (set_window w h) err Hnew) as Href.
    rewrite Hob in Href. specialize (Href eq_refl). cbn in Href, Hcut.
    change (held_last (set_window w h)) with (held_last h) in Href. lia.
  - assert (Repeated (held_state h' c) = false) as -> by (unfold held_state; by case_match).
    specialize (Hacc eq_refl).
    destruct (Z.ltb_spec (Z.of_nat (length (h_seen h'))) (count_at_least (rule_count (p_rule p))));
      cbn; split.
    + naive_solver.
    + intros (_ & _ & ?). lia.
    + intros _. split_and!; [done | exact Hacc | lia].
    + intros _. eauto.
Qed.
End counting.
