(* ===== verification/SampleEngine.v ===== *)
(** * An engine over the small contract: witnesses of the analysis theorems *)

From Stdlib Require Import ZArith Lia Ascii Floats.SpecFloat.
From stdpp Require Import base tactics option gmap strings pretty sorting numbers list.
From S2P Require Import Prelude Text Rule Contract Bytes Validate Compile CompileProps State Window Story Digest Detected Sample Keeper KeeperInv KeeperProps Engine EngineProps EngineBatch.

(** ** Events of the small contract *)

Definition proto_text (name : string) (o : option Proto) : string :=
  match o with
  | Some (mkProto _ fields) =>
      match assoc name fields with Some (PScalar (PString s)) => s | _ => "" end
  | None => ""
  end.

Definition tree_scalar (name : string) (t : tree) : option PValue :=
  let 'Tree _ scalars _ := t in assoc name scalars.

Definition tree_time (name : string) (t : tree) : option instant :=
  match tree_scalar name t with Some (PInt64 z) => Some z | _ => None end.

#[global] Instance tree_events : Events tree := {|
  GetEventId t := match tree_scalar "event_id" t with Some (PString s) => s | _ => "" end;
  GetOrigin t := let 'Tree _ _ subs := t in
    match assoc "origin" subs with
    | Some (Tree _ scalars _) => Some (mkProto "?" (prod_map id PScalar <$> scalars))
    | None => None
    end;
  GetEventTime := tree_time "event_time";
  GetObservedTime := tree_time "observed_time";
  GetIngestTime := tree_time "ingest_time";
  GetAgentId := proto_text "agent_id";
  GetTenantId := proto_text "tenant_id";
  new_Origin agent tenant :=
    mkProto "" [("agent_id", PScalar (PString agent)); ("tenant_id", PScalar (PString tenant))];
|}.

Lemma proto_text_declared name o : proto_text name (declared o) = proto_text name o.
Proof.
  destruct o as [[u fields]|]; [| done]. cbn.
  induction fields as [|[n f] fields IH]; [done |]. cbn in *. unfold assoc in *. cbn.
  case_bool_decide; cbn; [by destruct f | done].
Qed.

#[global] Instance tree_event_laws : EventLaws tree.
Proof. split; intros; [apply proto_text_declared .. | done | done]. Qed.

Definition event_at (id : string) (at_ outcome : Z) (user : string) : tree :=
  Tree 1 [("event_id", PString id); ("event_time", PInt64 at_)]
    [("origin", Tree 0 [("tenant_id", PString "acme"); ("agent_id", PString "agent-1")] []);
     ("authentication", Tree 0 [("outcome", PEnum outcome)]
        [("user", Tree 0 [("name", PString user)] [])])].

(** ** Programs *)

Definition counting_rule (n : Z) : Rule :=
  {| rule_id := "ssh_bruteforce"; rule_revision := 1; rule_name := "Failed logins";
     rule_description := "Logins that failed"; rule_class := 1; rule_match := failed_by_others;
     rule_count := mkCount n (10 * second) []; rule_sequence := no_sequence; rule_severity := High;
     rule_status := Active; rule_technique := mkTechnique "" "" "";
     rule_false_positives := ""; rule_response := ""; rule_source := mkSource "" "";
     rule_tags := []; rule_references := [] |}.
Definition counting_program (n : Z) : Program :=
  mkProgram (counting_rule n) (Some (compiled_or failed_by_others)) [] [] [].

Definition story_rule : Rule :=
  sample_rule Missing (mkSequence [mkStage "failed" (Pred failed); mkStage "as root" (Pred root_user)]
                         (10 * second) []).
Definition story_program : Program :=
  mkProgram story_rule None
    [mkStaged "failed" (compiled_or (Pred failed)); mkStaged "as root" (compiled_or (Pred root_user))] [] [].

Definition small_bounds : Bounds := mkBounds (60 * second) 1 4 2 2.
Definition wide_bounds : Bounds := mkBounds (60 * second) 8 4 2 2.
Definition store_of (b : Bounds) : Keeper := mkKeeper b ∅ ∅ time_zero time_zero.
Definition fresh (b : Bounds) : EngineState Keeper := mkEngine (store_of b) ∅ [] 0.
Definition always : nat → option StateError := λ _, None.

Lemma wide_stored : stored wide_bounds (store_of wide_bounds).
Proof. apply reach_new. reflexivity. Qed.
Lemma small_stored : stored small_bounds (store_of small_bounds).
Proof. apply reach_new. reflexivity. Qed.

(** ** Witnesses *)

Definition fired {A} (r : A * result StateError (option Match)) : bool :=
  match r with (_, Ok (Some _)) => true | _ => false end.

Lemma fired_inv {A} (r : A * result StateError (option Match)) :
  fired r = true → ∃ m, r = (r.1, Ok (Some m)).
Proof. destruct r as [a [[m|]|err]]; [by exists m | done | done]. Qed.

Definition alice_fails : tree := event_at "e1" (5 * second) 2 "alice".

Lemma a_detection_carries_nothing_undeclared_witness :
  ∃ o, d_origin (Detected id (mkMatch sample_match [] no_count no_story) "rs" alice_fails 0) = Some o
  ∧ unknown_of o = "".
Proof.
  eexists. split; [reflexivity |].
  eapply (a_detection_carries_nothing_undeclared id (mkMatch sample_match [] no_count no_story)
    "rs" alice_fails 0); [reflexivity | reflexivity | constructor].
Defined.

(** A detection keeps its event's tenant. *)
Lemma a_detection_is_its_tenants_witness :
  GetTenantId (d_origin (Detected id (mkMatch sample_match [] no_count no_story) "rs" alice_fails 0))
  = "acme".
Proof.
  exact (proj1 (a_detection_is_its_tenants id (mkMatch sample_match [] no_count no_story)
    "rs" alice_fails 0)).
Defined.

(** A failed login, then one as root that succeeded. *)
Definition after_failure : EngineState Keeper :=
  (decide_one id always story_program alice_fails 0 (fresh wide_bounds)).1.
Definition root_succeeds : tree := event_at "e2" (7 * second) 1 "root".

Lemma after_failure_stored : stored wide_bounds (eng_store after_failure).
Proof.
  assert (eng_store after_failure = (Ordered None (key_of id story_program alice_fails)
    (story_observation 1 alice_fails 0) (10 * second) (store_of wide_bounds)).1) as ->
    by (vm_compute; reflexivity).
  apply (reach_fold wide_bounds), wide_stored.
Qed.

Lemma a_told_story_is_the_rules_witness :
  ∃ e m, completed id always story_program (mkMatch story_rule [] no_count no_story)
           root_succeeds 0 after_failure = (e, Ok (Some m))
  ∧ sat_name <$> corr_stages (m_correlated m) = ["failed"; "as root"].
Proof.
  destruct (fired_inv (completed id always story_program (mkMatch story_rule [] no_count no_story)
    root_succeeds 0 after_failure)) as [m Hm]; [vm_compute; reflexivity |].
  eexists _, m. split; [exact Hm |].
  apply (a_told_story_is_the_rules (stored wide_bounds) id always story_program
    (mkMatch story_rule [] no_count no_story) root_succeeds 0 after_failure _ m
    after_failure_stored ltac:(vm_compute; discriminate) Hm).
Defined.

(** A store of one observation a key, and an event older than the one it keeps. *)
Definition after_newer : EngineState Keeper :=
  (decide_one id always (counting_program 1) (event_at "e9" (9 * second) 2 "alice") 0
     (fresh small_bounds)).1.

Lemma after_newer_stored : stored small_bounds (eng_store after_newer).
Proof.
  assert (eng_store after_newer = (fold None (key_of id (counting_program 1) alice_fails)
    (mkObservation (mkEventName "agent-1" "e9") (9 * second) "" 0 0) (10 * second) false
    (store_of small_bounds)).1) as -> by (vm_compute; reflexivity).
  apply (reach_fold small_bounds), small_stored.
Qed.

Definition redelivered : EngineState Keeper :=
  (decide_one id always (counting_program 1) alice_fails 0 after_newer).1.

Lemma a_redelivery_decides_nothing_witness :
  SaidSaturated ∈ drop (length (eng_said redelivered))
    (eng_said (decide_one id always (counting_program 1) alice_fails 0 redelivered).1).
Proof.
  destruct (fired_inv (decide_one id always (counting_program 1) alice_fails 0 after_newer))
    as [m1 H1]; [vm_compute; reflexivity |].
  destruct (fired_inv (decide_one id always (counting_program 1) alice_fails 0 redelivered))
    as [m2 H2]; [vm_compute; reflexivity |].
  apply (a_redelivery_decides_nothing (stored small_bounds) id always (counting_program 1)
    alice_fails 0 after_newer redelivered m1 _ m2 after_newer_stored); [right; reflexivity | exact H1 | exact H2].
Defined.

Definition sample_rules : Ruleset := mkRuleset "rs" (λ _, [counting_program 3; sample_program]).

Lemma a_record_makes_its_rules_detections_witness :
  ∃ e made m, detect id always (Some sample_rules) alice_fails 0 0 (fresh wide_bounds) = (e, Ok made)
  ∧ Detected id m "rs" alice_fails 0 ∈ made.
Proof.
  destruct (detect id always (Some sample_rules) alice_fails 0 0 (fresh wide_bounds))
    as [e [made|err]] eqn:Hd; [| vm_compute in Hd; discriminate].
  destruct (Decide sample_program (Some alice_fails)) as [m|] eqn:Hm; [| vm_compute in Hm; discriminate].
  exists e, made, m. split; [done |].
  apply (a_record_makes_its_rules_detections id always sample_rules alice_fails 0 0
    (fresh wide_bounds) e made Hd) with sample_program; [right; left | done | done | done].
Defined.

Definition sample_unmarshal (value : string) : option tree :=
  if bool_decide (value = "alice") then Some alice_fails else None.
Definition sample_stage (class : EventClass) : option (tree → tree) :=
  if class =? 1 then Some (λ t, t) else None.

Lemma capacity_is_told_once_witness :
  let e := (handle id always sample_unmarshal (λ _, true) (λ _, true) sample_stage
              (λ _, Some sample_rules) [mkBackboneRecord 0 0 "alice"] 0 [] second second
              (fresh wide_bounds)).1.1 in
  len (told_lines (eng_said e)) ≤ maxToldAtCapacity.
Proof.
  apply (capacity_is_told_once id always sample_unmarshal (λ _, true) (λ _, true) sample_stage).
  apply ran_batch, ran_new.
Defined.

Lemma an_unreadable_record_holds_nothing_witness :
  (handle id always sample_unmarshal (λ _, true) (λ _, true) sample_stage (λ _, Some sample_rules)
     [mkBackboneRecord 0 0 "alice"; mkBackboneRecord 0 1 "?"; mkBackboneRecord 0 2 "alice"]
     0 [] second second (fresh wide_bounds))
  = (handle id always sample_unmarshal (λ _, true) (λ _, true) sample_stage (λ _, Some sample_rules)
     [mkBackboneRecord 0 0 "alice"; mkBackboneRecord 0 2 "alice"]
     0 [] second second (fresh wide_bounds)).
Proof.
  apply (an_unreadable_record_holds_nothing id always sample_unmarshal (λ _, true) (λ _, true)
    sample_stage (λ _, Some sample_rules) [mkBackboneRecord 0 0 "alice"] (mkBackboneRecord 0 1 "?")
    [mkBackboneRecord 0 2 "alice"]).
  reflexivity.
Defined.

Definition sample_detection : Detection :=
  Detected id (mkMatch sample_match [] no_count no_story) "rs" alice_fails 0.

Lemma publishing_drops_nothing_witness :
  (publish [sample_detection] [mkAttempt false None None; mkAttempt true None None] second second).2
  = Some (Ok tt).
Proof.
  destruct (publish [sample_detection] [mkAttempt false None None; mkAttempt true None None]
    second second) as [waits r] eqn:Hp.
  apply (publishing_drops_nothing [sample_detection]
    [mkAttempt false None None; mkAttempt true None None] second second waits r
    ltac:(discriminate) ltac:(vm_compute; split; [reflexivity | discriminate])
    ltac:(vm_compute; reflexivity) Hp).
  exists [mkAttempt false None None], (mkAttempt true None None), []. by repeat constructor.
Defined.

(** One failed login held, and a second that reaches a threshold of two. *)
Definition after_one : EngineState Keeper :=
  (decide_one id always (counting_program 2) alice_fails 0 (fresh wide_bounds)).1.
Definition alice_again : tree := event_at "e3" (6 * second) 2 "alice".

Lemma a_count_fires_at_its_threshold_witness :
  ∃ m', (reached id (λ _, None) (counting_program 2) (mkMatch (counting_rule 2) [] no_count no_story)
           alice_again 0 after_one).2 = Ok (Some m').
Proof.
  apply (a_count_fires_at_its_threshold id wide_bounds (eng_store after_one) (counting_program 2)
    (mkMatch (counting_rule 2) [] no_count no_story) alice_again 0 after_one
    [mkObservation (mkEventName "agent-1" "e1") (5 * second) "" 0 0]).
  - assert (eng_store after_one = (fold None (key_of id (counting_program 2) alice_fails)
      (mkObservation (mkEventName "agent-1" "e1") (5 * second) "" 0 0) (10 * second) false
      (store_of wide_bounds)).1) as -> by (vm_compute; reflexivity).
    apply (reach_fold wide_bounds), wide_stored.
  - reflexivity.
  - vm_compute. reflexivity.
  - vm_compute. reflexivity.
  - split; vm_compute; [reflexivity | discriminate].
  - apply (bool_decide_unpack _). vm_compute. exact I.
  - apply (bool_decide_unpack _). vm_compute. exact I.
  - split; [apply (bool_decide_unpack _); vm_compute; exact I |].
    split; vm_compute; discriminate.
Defined.
