(* ===== verification/Snapshot.v ===== *)
(** * Rulesets: the compiled rules a process is pinned to

    ruleset/snapshot.go, which composes compiled rules into a ruleset named by
    what is in it, and registry.go, which holds the one a process runs. The
    digest (SHA-256 cut to 16 bytes, in hexadecimal) and [time.Duration]'s String
    are parameters; what is hashed is modelled byte for byte. *)

From Stdlib Require Import ZArith Lia Ascii Floats.SpecFloat.
From stdpp Require Import base tactics option gmap strings pretty sorting numbers list.
From S2P Require Import Prelude Text Rule Contract Validate WellFormed Compile RuleWire Digest Detected Engine.

Definition Severity_String (s : Severity) : string :=
  match s with
  | Low => "low" | Medium => "medium" | High => "high" | Critical => "critical"
  | OtherSeverity name => name
  end.

Definition Status_String (s : Status) : string :=
  match s with
  | Draft => "draft" | Active => "active" | Disabled => "disabled" | Deprecated => "deprecated"
  | OtherStatus name => name
  end.

Definition program_id (p : Program) : string := rule_id (p_rule p).
Definition program_le (one other : Program) : Prop := String.le (program_id one) (program_id other).
#[global] Instance program_le_dec : RelDecision program_le.
Proof. unfold program_le. intros a b. apply _. Defined.
#[global] Instance program_le_total : Total program_le.
Proof. intros a b. unfold program_le. apply (total String.le). Qed.
#[global] Instance program_le_trans : Transitive program_le.
Proof. intros a b c. unfold program_le. by etrans. Qed.

Record Snapshot := mkSnapshot {
  sn_id : string;
  sn_programs : list Program;
  sn_byClass : gmap EventClass (list Program);
  sn_running : Z;
}.

Section snapshot.
Context `{Formats} (digest : string → string) (DurationString : duration → string).

(** ** Naming by content *)

(** A list is with_length before it is written. *)
Definition with_length (values : list string) : list string := Itoa (len values) :: values.

(** What [describe] writes of one rule, in order. *)
Definition describe_rule (p : Program) : list string :=
  let r := p_rule p in
  [rule_id r; Itoa (rule_revision r); Itoa (rule_class r); Severity_String (rule_severity r);
   Status_String (rule_status r); tech_tactic (rule_technique r); tech_id (rule_technique r);
   tech_name (rule_technique r); src_catalogue (rule_source r); src_identifier (rule_source r);
   rule_name r; rule_description r; rule_false_positives r; rule_response r; Program_String p]
  ++ Itoa (count_at_least (rule_count r)) :: DurationString (count_within (rule_count r))
  :: with_length (count_group_by (rule_count r))
  ++ DurationString (seq_within (rule_sequence r)) :: with_length (seq_group_by (rule_sequence r))
  ++ with_length (sort_strings (rule_tags r)) ++ with_length (rule_references r).

Definition ruleset_identify (programs : list Program) : string :=
  digest (writes (programs ≫= describe_rule)).

Definition program_Fingerprint (p : Program) : string := digest (writes (describe_rule p)).

(** ** Composing *)

Fixpoint compose_from (previous : option string) (held : list Program)
    (byClass : gmap EventClass (list Program)) (running : Z)
    : result RulesetError (gmap EventClass (list Program) * Z) :=
  match held with
  | [] => Ok (byClass, running)
  | p :: held =>
      let r := p_rule p in
      if bool_decide (previous = Some (rule_id r)) then Err (ArrivesTwice (rule_id r))
      else if negb (Runs (rule_status r)) then compose_from (Some (rule_id r)) held byClass running
      else compose_from (Some (rule_id r)) held
             (<[rule_class r := default [] (byClass !! rule_class r) ++ [p]]> byClass) (running + 1)
  end.

Definition Compose (programs : list (option Program)) : result RulesetError Snapshot :=
  match mapM id programs with
  | None => Err NothingCarried
  | Some held =>
      let held := merge_sort program_le held in
      match compose_from None held ∅ 0 with
      | Err e => Err e
      | Ok (byClass, running) => Ok (mkSnapshot (ruleset_identify held) held byClass running)
      end
  end.

Definition snapshot_For (s : Snapshot) (class : EventClass) : list Program :=
  default [] (sn_byClass s !! class).

(** The ruleset an engine is handed. *)
Definition ruleset_of (s : Snapshot) : Ruleset := mkRuleset (sn_id s) (snapshot_For s).

(** ** The registry (registry.go)

    [Current] is what the process is pinned to; the source answers with programs
    or an error, and a log line or a metric changes nothing. *)
Definition registry_read (programs : result RulesetError (list (option Program)))
    : result RulesetError Snapshot :=
  match programs with Err e => Err e | Ok programs => Compose programs end.

Definition NewRegistry (programs : result RulesetError (list (option Program)))
    : result RulesetError Snapshot := registry_read programs.

Definition Replace (snapshot : option Snapshot) (current : Snapshot) : Snapshot * Snapshot :=
  (default current snapshot, current).

Definition Reload (programs : result RulesetError (list (option Program))) (current : Snapshot)
    : Snapshot * result RulesetError Snapshot :=
  match registry_read programs with
  | Err e => (current, Err e)
  | Ok snapshot =>
      if bool_decide (sn_id current = sn_id snapshot) then (current, Ok current)
      else (snapshot, Ok snapshot)
  end.

(** ** What a composed ruleset holds *)

Definition runs_for (class : EventClass) (p : Program) : Prop :=
  Runs (rule_status (p_rule p)) = true ∧ rule_class (p_rule p) = class.

#[local] Instance runs_for_dec class p : Decision (runs_for class p).
Proof. unfold runs_for. apply _. Defined.

Lemma compose_from_ok previous held byClass running :
  NoDup (program_id <$> held) → (∀ id, previous = Some id → id ∉ program_id <$> held) →
  ∃ byClass', compose_from previous held byClass running
      = Ok (byClass', running + len (filter (λ p, Runs (rule_status (p_rule p)) = true) held))
    ∧ ∀ class, default [] (byClass' !! class) = default [] (byClass !! class) ++ filter (runs_for class) held.
Proof.
  revert previous byClass running. induction held as [|p held IH]; intros previous byClass running Hnd Hp.
  { exists byClass. cbn. split; [by rewrite Z.add_0_r |]. intros class. by rewrite app_nil_r. }
  rewrite fmap_cons in Hnd, Hp. apply NoDup_cons in Hnd as [Hni Hnd]. cbn [compose_from]. cbv zeta.
  rewrite bool_decide_false by (intros ->; apply (Hp _ eq_refl); left).
  assert (∀ id, Some (rule_id (p_rule p)) = Some id → id ∉ program_id <$> held) as Hp'
    by (by intros id [= <-]).
  destruct (Runs (rule_status (p_rule p))) eqn:Hr; cbn [negb].
  - destruct (IH _ (<[rule_class (p_rule p) := default [] (byClass !! rule_class (p_rule p)) ++ [p]]> byClass)
      (running + 1) Hnd Hp') as (byClass' & -> & Hb). exists byClass'. split.
    + rewrite filter_cons_True by done. do 2 f_equal. unfold len. rewrite length_cons. lia.
    + intros class. rewrite Hb. destruct (decide (rule_class (p_rule p) = class)) as [<-|Hne].
      * rewrite lookup_insert_eq, filter_cons_True by done. cbn. by rewrite <- app_assoc.
      * rewrite lookup_insert_ne, filter_cons_False by (done || by intros [_ ?]). done.
  - destruct (IH _ byClass running Hnd Hp') as (byClass' & -> & Hb). exists byClass'. split.
    + rewrite filter_cons_False by congruence. done.
    + intros class. rewrite Hb, filter_cons_False; [done |]. intros [? _]. congruence.
Qed.

Lemma compose_from_distinct previous held byClass running out :
  StronglySorted program_le held → (∀ id p, previous = Some id → p ∈ held → String.le id (program_id p)) →
  compose_from previous held byClass running = Ok out →
  NoDup (program_id <$> held) ∧ ∀ id, previous = Some id → id ∉ program_id <$> held.
Proof.
  revert previous byClass running. induction held as [|p held IH]; intros previous byClass running Hs Hp Hok.
  { split; [constructor | intros id _; apply not_elem_of_nil]. }
  apply StronglySorted_inv in Hs as [Hs Hall]. rewrite Forall_forall in Hall.
  cbn [compose_from] in Hok. cbv zeta in Hok. case_bool_decide as Hprev; [done |].
  assert (∃ byClass' running', compose_from (Some (rule_id (p_rule p))) held byClass' running' = Ok out)
    as (byClass' & running' & Hok') by (destruct (negb _); eauto).
  destruct (IH (Some (rule_id (p_rule p))) byClass' running') as [Hnd Hni]; [done | | done |].
  { intros id q Hid Hq. injection Hid as Hid. rewrite <- Hid. by apply Hall. }
  rewrite fmap_cons. split.
  - constructor; [by apply Hni | done].
  - intros id Hid [Heq|Hin]%elem_of_cons; [apply Hprev; by rewrite Hid, Heq |].
    apply list_elem_of_fmap in Hin as (q & -> & Hq). apply Hprev. rewrite Hid. f_equal.
    apply (anti_symm String.le); [apply (Hp _ p Hid); left | by apply Hall].
Qed.

Lemma mapM_id_Some {A} (l : list A) : mapM id (Some <$> l) = Some l.
Proof. induction l as [|x l IH]; [done |]. cbn. by rewrite IH. Qed.

Lemma mapM_id_inv {A} (l : list (option A)) k : mapM id l = Some k → l = Some <$> k.
Proof.
  revert k. induction l as [|[x|] l IH]; intros k Hk; cbn in Hk; [by injection Hk as <- | | done].
  destruct (mapM id l) as [k'|]; [| done]. injection Hk as <-. by rewrite (IH k' eq_refl).
Qed.

Lemma merge_sort_programs ps : StronglySorted program_le (merge_sort program_le ps).
Proof. apply StronglySorted_merge_sort; apply _. Qed.

(** Rules of distinct ids compose, and nothing else does. *)
Lemma Compose_spec ps s :
  Compose (Some <$> ps) = Ok s ↔
  NoDup (program_id <$> ps) ∧ s = mkSnapshot (ruleset_identify (merge_sort program_le ps))
    (merge_sort program_le ps) (sn_byClass s) (sn_running s)
  ∧ compose_from None (merge_sort program_le ps) ∅ 0 = Ok (sn_byClass s, sn_running s).
Proof.
  unfold Compose. rewrite mapM_id_Some. cbv zeta.
  set (held := merge_sort program_le ps).
  assert (held ≡ₚ ps) as Hperm by apply merge_sort_Permutation.
  destruct (compose_from None held ∅ 0) as [[byClass running]|e] eqn:Hc; split; try done.
  - intros [= <-]. split_and!; [| done | done].
    apply compose_from_distinct in Hc as [Hnd _]; [| apply merge_sort_programs | done].
    fold held in Hnd. by rewrite Hperm in Hnd.
  - intros (_ & -> & [= -> ->]). done.
  - intros (_ & _ & [=]).
Qed.

Lemma sorted_programs_unique ps qs :
  NoDup (program_id <$> ps) → ps ≡ₚ qs → merge_sort program_le ps = merge_sort program_le qs.
Proof.
  intros Hnd Hp. apply (sorted_unique_by program_id).
  - by rewrite !merge_sort_Permutation.
  - intros a b Ha Hb Heq. rewrite merge_sort_Permutation in Ha, Hb.
    apply list_elem_of_lookup in Ha as [i Hi], Hb as [j Hj].
    assert (i = j) as ->; [| congruence].
    eapply NoDup_lookup; [done | by rewrite list_lookup_fmap, Hi |]. rewrite list_lookup_fmap, Hj. cbn. by f_equal.
  - apply merge_sort_programs.
  - apply merge_sort_programs.
Qed.

Lemma Compose_perm programs programs' s :
  Compose programs = Ok s → programs ≡ₚ programs' → Compose programs' = Ok s.
Proof.
  intros Hc Hp. unfold Compose in Hc. destruct (mapM id programs) as [ps|] eqn:Hps; [| done].
  apply mapM_id_inv in Hps as ->. destruct (Permutation_map_inv _ _ (symmetry Hp)) as (qs & -> & Hpq).
  change (map Some qs) with (Some <$> qs).
  assert (Compose (Some <$> ps) = Ok s) as Hok by (unfold Compose; by rewrite mapM_id_Some).
  clear Hc Hp. apply Compose_spec in Hok as (Hnd & Hs & Hfrom). apply Compose_spec.
  rewrite <- (sorted_programs_unique ps qs) by done. split_and!; [by rewrite <- Hpq | done | done].
Qed.

(** Composing a ruleset forgets the order its rules arrived in: two processes
    given the same rules in two orders are pinned to one ruleset, name included. *)
Theorem rulesets_have_no_order programs programs' s :
  Compose programs = Ok s → programs ≡ₚ programs' → Compose programs' = Ok s.
Proof. apply Compose_perm. Qed.

(** A composed ruleset holds each rule once, in the order of their ids, and
    decides an event by exactly the rules of its class that run: a draft, a
    disabled and a deprecated one are held and never evaluated. Rules compose
    exactly when no two share an id. *)
Theorem a_ruleset_runs_what_is_active ps :
  match Compose (Some <$> ps) with
  | Ok s => NoDup (program_id <$> ps) ∧ sn_programs s ≡ₚ ps ∧ StronglySorted program_le (sn_programs s)
      ∧ sn_running s = len (filter (λ p, Runs (rule_status (p_rule p)) = true) ps)
      ∧ ∀ class, snapshot_For s class = filter (runs_for class) (sn_programs s)
  | Err e => ¬ NoDup (program_id <$> ps)
  end.
Proof.
  pose proof (merge_sort_Permutation program_le ps) as Hperm.
  destruct (Compose (Some <$> ps)) as [s|e] eqn:Hc.
  - apply Compose_spec in Hc as (Hnd & Hs & Hfrom). rewrite Hs. cbn [sn_programs sn_running].
    destruct (compose_from_ok None (merge_sort program_le ps) ∅ 0) as (byClass & Hok & Hb);
      [by rewrite Hperm | done |].
    rewrite Hfrom in Hok. injection Hok as Hcl Hrun. split_and!; [done | done | apply merge_sort_programs | |].
    + rewrite Hrun. unfold len. by rewrite Hperm.
    + intros class. unfold snapshot_For. cbn [sn_byClass]. rewrite Hcl, Hb. by rewrite lookup_empty.
  - intros Hnd. unfold Compose in Hc. rewrite mapM_id_Some in Hc. cbv zeta in Hc.
    destruct (compose_from_ok None (merge_sort program_le ps) ∅ 0) as (byClass & Hok & _);
      [by rewrite Hperm | done |]. by rewrite Hok in Hc.
Qed.

(** ** Two rulesets never write the same bytes *)

(** What a rule's name says of it: everything [describe] writes, as data. *)
Definition said (p : Program) :=
  let r := p_rule p in
  ((rule_id r, rule_revision r, rule_class r, rule_severity r, rule_status r),
   (rule_technique r, rule_source r),
   (rule_name r, rule_description r, rule_false_positives r, rule_response r),
   Program_String p, rule_count r,
   (seq_within (rule_sequence r), seq_group_by (rule_sequence r)),
   (sort_strings (rule_tags r), rule_references r)).

(** A severity and a status the language declares. *)
Definition reported (p : Program) : Prop :=
  severities (rule_severity (p_rule p)) ≠ None ∧ statuses (rule_status (p_rule p)) = true.

Lemma with_length_split l1 l2 (r1 r2 : list string) :
  with_length l1 ++ r1 = with_length l2 ++ r2 → l1 = l2 ∧ r1 = r2.
Proof.
  unfold with_length. rewrite <- !app_comm_cons. intros [Hl Hr]%(inj2 cons).
  apply (inj pretty) in Hl. unfold len in Hl. apply app_inj_1; [lia | done].
Qed.

Lemma Severity_String_inj s1 s2 :
  severities s1 ≠ None → severities s2 ≠ None → Severity_String s1 = Severity_String s2 → s1 = s2.
Proof. by destruct s1, s2. Qed.

Lemma Status_String_inj s1 s2 :
  statuses s1 = true → statuses s2 = true → Status_String s1 = Status_String s2 → s1 = s2.
Proof. by destruct s1, s2. Qed.

Context (DurationString_inj : ∀ d1 d2, DurationString d1 = DurationString d2 → d1 = d2).

Lemma describe_split p1 p2 r1 r2 :
  reported p1 → reported p2 → describe_rule p1 ++ r1 = describe_rule p2 ++ r2 → said p1 = said p2 ∧ r1 = r2.
Proof.
  intros [Hs1 Ht1] [Hs2 Ht2] Heq. unfold describe_rule in Heq. cbv zeta in Heq.
  rewrite <- !app_assoc in Heq. cbn [app] in Heq.
  repeat match type of Heq with
  | _ :: _ = _ :: _ => let H := fresh "E" in apply (inj2 cons) in Heq as [H Heq]
  end.
  rewrite <- !app_assoc in Heq. apply with_length_split in Heq as [Eg Heq]. cbn [app] in Heq.
  apply (inj2 cons) in Heq as [Ew Heq]. rewrite <- !app_assoc in Heq.
  apply with_length_split in Heq as [Eq Heq]. rewrite <- ?app_assoc in Heq.
  apply with_length_split in Heq as [Et Heq]. apply with_length_split in Heq as [Er Heq].
  split; [| done]. unfold said. cbv zeta.
  repeat match goal with
  | H : Itoa _ = Itoa _ |- _ => apply (inj pretty) in H
  | H : DurationString _ = DurationString _ |- _ => apply DurationString_inj in H
  | H : Severity_String _ = _ |- _ => apply Severity_String_inj in H; [| done | done]
  | H : Status_String _ = _ |- _ => apply Status_String_inj in H; [| done | done]
  end.
  destruct (p_rule p1) as [? ? ? ? ? ? [] [] ? ? [] ? ? [] ? ?],
    (p_rule p2) as [? ? ? ? ? ? [] [] ? ? [] ? ? [] ? ?]. cbn in *. congruence.
Qed.

Lemma describe_nonempty p rest : describe_rule p ++ rest ≠ [].
Proof. done. Qed.

Lemma describes_inj ps qs :
  Forall reported ps → Forall reported qs → ps ≫= describe_rule = qs ≫= describe_rule → said <$> ps = said <$> qs.
Proof.
  intros Hps. revert qs. induction Hps as [|p ps Hp _ IH]; intros qs Hqs Heq; destruct Hqs as [|q qs Hq Hqs];
    [done | done | done |].
  rewrite !bind_cons in Heq. apply describe_split in Heq as [Hsaid Heq]; [| done ..].
  rewrite !fmap_cons. f_equal; [done | by apply IH].
Qed.

(** Described alike, written alike: [describe] reads nothing else of a rule. *)
Lemma describe_said p q : said p = said q → describe_rule p = describe_rule q.
Proof.
  unfold said, describe_rule. cbv zeta. intros Heq. injection Heq as -> -> -> -> -> -> -> -> -> -> -> -> -> -> -> -> ->.
  done.
Qed.

(** What a ruleset's name hashes is equal exactly for rulesets that say the same
    of every rule: the same rules, revisions, questions, counts, sequences, tags
    in any order and references, so a digest that tells bytes apart tells
    rulesets apart. *)
Theorem ruleset_bytes_tell_rulesets_apart ps qs :
  Forall reported ps → Forall reported qs →
  writes (ps ≫= describe_rule) = writes (qs ≫= describe_rule) ↔ said <$> ps = said <$> qs.
Proof.
  intros Hps Hqs. split; [by intros ?%writes_inj%describes_inj |].
  intros Hsaid. f_equal. clear Hps Hqs. revert qs Hsaid.
  induction ps as [|p ps IH]; intros [|q qs] Hsaid; try done.
  rewrite !fmap_cons in Hsaid. apply (inj2 cons) in Hsaid as [Hp Hs].
  rewrite !bind_cons, (describe_said _ _ Hp). f_equal. by apply IH.
Qed.
End snapshot.
