(* ===== verification/Triage.v ===== *)
(** * Triage: the states of work and the moves between them

    alert/state.go and alert/move.go, and incident/state.go and incident/move.go,
    which say the same of an alert and of an incident. What is tracked is generic:
    its analytical half is a parameter no move may touch. A state is the string
    the package names it by, so an unknown one is representable. *)

From Stdlib Require Import ZArith Lia.
From stdpp Require Import base tactics option sets strings numbers list.
From S2P Require Import Prelude Text.

(** ** States (state.go) *)

Abbreviation TriageState := string (only parsing).
Definition Open : TriageState := "open".
Definition Acknowledged : TriageState := "acknowledged".
Definition InInvestigation : TriageState := "in_investigation".
Definition Resolved : TriageState := "resolved".
Definition FalsePositive : TriageState := "false_positive".

Definition states : list TriageState := [Open; Acknowledged; InInvestigation; Resolved; FalsePositive].

Definition Valid (s : TriageState) : bool := contains_elem states s.

Definition Closed (s : TriageState) : bool :=
  bool_decide (s = Resolved) || bool_decide (s = FalsePositive).

(** A map answers an empty list for a state it does not name. *)
Definition moves (s : TriageState) : list TriageState :=
  if decide (s = Open) then [Acknowledged; InInvestigation; Resolved; FalsePositive]
  else if decide (s = Acknowledged) then [InInvestigation; Resolved; FalsePositive]
  else if decide (s = InInvestigation) then [Resolved; FalsePositive]
  else if decide (s = Resolved) then [Open]
  else if decide (s = FalsePositive) then [Open]
  else [].

Definition Legal (from to : TriageState) : bool := contains_elem (moves from) to.

Definition Explains (from to : TriageState) : bool :=
  bool_decide (to = FalsePositive) || Closed from.

(** Why a move is illegal, as [Illegal] words it. *)
Inductive IllegalMove := NamesNoState | AlreadyThere | GoesNowhere | NotReachable.

Definition Illegal (from to : TriageState) : IllegalMove :=
  if negb (Valid to) then NamesNoState
  else if bool_decide (from = to) then AlreadyThere
  else if len (moves from) =? 0 then GoesNowhere
  else NotReachable.

(** The states of the wire contract; [STATE_OTHER] is a number this build does
    not name. *)
Inductive WireState :=
| STATE_UNSPECIFIED | STATE_OPEN | STATE_ACKNOWLEDGED | STATE_IN_INVESTIGATION
| STATE_RESOLVED | STATE_FALSE_POSITIVE | STATE_OTHER (n : Z).
#[global] Instance WireState_eq_dec : EqDecision WireState.
Proof. solve_decision. Defined.

Definition Wire (s : TriageState) : WireState :=
  if decide (s = Open) then STATE_OPEN
  else if decide (s = Acknowledged) then STATE_ACKNOWLEDGED
  else if decide (s = InInvestigation) then STATE_IN_INVESTIGATION
  else if decide (s = Resolved) then STATE_RESOLVED
  else if decide (s = FalsePositive) then STATE_FALSE_POSITIVE
  else STATE_UNSPECIFIED.

(** No two states share a value, so the order the map is walked in is immaterial. *)
Definition FromWire (w : WireState) : option TriageState :=
  List.find (λ s, bool_decide (Wire s = w)) states.

(** ** Moves (move.go) *)

Inductive MoveError :=
| ErrUnknownStored (w : WireState)
| ErrNoActor
| ErrMoved (at_revision expected : Z)
| ErrUnknownState (s : TriageState)
| ErrNothingAsked
| ErrIllegalMove (why : IllegalMove)
| ErrNeedsReason (from to : TriageState).
#[global] Instance MoveError_eq_dec : EqDecision MoveError.
Proof.
  assert (EqDecision IllegalMove) by solve_decision. solve_decision.
Defined.

Definition Refused (err : MoveError) : bool :=
  match err with
  | ErrIllegalMove _ | ErrNothingAsked | ErrNeedsReason _ _ | ErrUnknownState _ | ErrNoActor => true
  | ErrUnknownStored _ | ErrMoved _ _ => false
  end.

Record Move := mkMove {
  mv_to : TriageState;
  mv_assignee : option string;
  mv_note : string;
  mv_actor : string;
  mv_at : instant;
  mv_expected : Z;
}.

Record Closure := mkClosure {
  cl_state : WireState;
  cl_reason : string;
  cl_by : string;
  cl_at : instant;
}.

(** What is tracked: [about] is the analytical half. *)
Record Tracked (A : Type) := mkTracked {
  tr_id : string;
  tr_about : A;
  tr_state : WireState;
  tr_assignee : string;
  tr_revision : Z;
  tr_changed_by : string;
  tr_changed_at : instant;
  tr_closure : option Closure;
}.
Arguments mkTracked {A}.
Arguments tr_id {A}.
Arguments tr_about {A}.
Arguments tr_state {A}.
Arguments tr_assignee {A}.
Arguments tr_revision {A}.
Arguments tr_changed_by {A}.
Arguments tr_changed_at {A}.
Arguments tr_closure {A}.

Record Transition := mkTransition {
  tn_id : string;
  tn_revision : Z;
  tn_from : WireState;
  tn_to : WireState;
  tn_assignee : string;
  tn_actor : string;
  tn_at : instant;
  tn_note : string;
}.

Definition closure (move : Move) : option Closure :=
  if negb (Closed (mv_to move)) then None
  else Some (mkClosure (Wire (mv_to move)) (mv_note move) (mv_actor move) (mv_at move)).

Definition Apply {A} (current : Tracked A) (move : Move)
    : result MoveError (Tracked A * Transition) :=
  match FromWire (tr_state current) with
  | None => Err (ErrUnknownStored (tr_state current))
  | Some from =>
  if bool_decide (mv_actor move = "") then Err ErrNoActor
  else if negb (mv_expected move =? 0) && negb (mv_expected move =? tr_revision current)
  then Err (ErrMoved (tr_revision current) (mv_expected move))
  else
    let changing := negb (bool_decide (mv_to move = "")) && negb (bool_decide (mv_to move = from)) in
    let reassigning := match mv_assignee move with
                       | None => false
                       | Some a => negb (bool_decide (a = tr_assignee current))
                       end in
    if negb (bool_decide (mv_to move = "")) && negb (Valid (mv_to move))
    then Err (ErrUnknownState (mv_to move))
    else if negb changing && negb reassigning then Err ErrNothingAsked
    else if changing && negb (Legal from (mv_to move)) then Err (ErrIllegalMove (Illegal from (mv_to move)))
    else if changing && Explains from (mv_to move) && bool_decide (mv_note move = "")
    then Err (ErrNeedsReason from (mv_to move))
    else
      let moved := mkTracked (tr_id current) (tr_about current)
        (if changing then Wire (mv_to move) else tr_state current)
        (if reassigning then default "" (mv_assignee move) else tr_assignee current)
        (uint64 (tr_revision current + 1)) (mv_actor move) (mv_at move)
        (if changing then closure move else tr_closure current) in
      Ok (moved, mkTransition (tr_id moved) (tr_revision moved) (tr_state current)
                   (tr_state moved) (tr_assignee moved) (mv_actor move) (mv_at move) (mv_note move))
  end.

(** ** States and their wire form *)

Lemma FromWire_Wire s w : FromWire w = Some s ↔ s ∈ states ∧ Wire s = w.
Proof.
  split.
  - intros Hf. unfold FromWire in Hf. apply List.find_some in Hf as [Hin Hw].
    split; [by apply list_elem_of_In | by apply bool_decide_eq_true in Hw].
  - intros [Hin <-]. unfold states in Hin.
    repeat (apply elem_of_cons in Hin as [->|Hin]; [reflexivity |]). by apply elem_of_nil in Hin.
Qed.

Lemma Legal_states from to : Legal from to = true → from ∈ states ∧ to ∈ states ∧ from ≠ to.
Proof.
  unfold Legal, contains_elem, moves.
  repeat case_decide; subst; rewrite ?bool_decide_eq_true; intros Hin;
    repeat (apply elem_of_cons in Hin as [->|Hin]; [by split_and!; [set_solver | set_solver |] |]);
    by apply elem_of_nil in Hin.
Qed.

Lemma Closed_Wire s t : s ∈ states → t ∈ states → Wire s = Wire t → s = t.
Proof.
  intros Hs Ht Hw. assert (FromWire (Wire s) = Some s) as H1 by (by apply FromWire_Wire).
  assert (FromWire (Wire t) = Some t) as H2 by (by apply FromWire_Wire). congruence.
Qed.

(** ** What an accepted move does *)

(** A record that says how it was closed exactly while it is closed. *)
Definition closure_ok {A} (r : Tracked A) : Prop :=
  ∃ s, FromWire (tr_state r) = Some s
    ∧ (Closed s = true → ∃ c, tr_closure r = Some c ∧ cl_state c = tr_state r)
    ∧ (Closed s = false → tr_closure r = None).

Record accepted {A} (current : Tracked A) (move : Move) (moved : Tracked A) (t : Transition) : Prop := {
  ac_id : tr_id moved = tr_id current;
  ac_about : tr_about moved = tr_about current;
  ac_revision : tr_revision moved = uint64 (tr_revision current + 1);
  ac_actor : mv_actor move ≠ "" ∧ tr_changed_by moved = mv_actor move ∧ tr_changed_at moved = mv_at move;
  ac_state : ∃ from to, FromWire (tr_state current) = Some from ∧ FromWire (tr_state moved) = Some to
    ∧ (from = to ∨ Legal from to = true ∧ to = mv_to move
                   ∧ (Explains from to = true → mv_note move ≠ ""));
  ac_expected : mv_expected move = 0 ∨ mv_expected move = tr_revision current;
  ac_line : t = mkTransition (tr_id current) (tr_revision moved) (tr_state current) (tr_state moved)
                  (tr_assignee moved) (mv_actor move) (mv_at move) (mv_note move);
}.

Lemma Apply_inv {A} (current : Tracked A) move moved t :
  Apply current move = Ok (moved, t) →
  ∃ from (changing : bool) assignee,
    FromWire (tr_state current) = Some from ∧ mv_actor move ≠ ""
    ∧ (mv_expected move = 0 ∨ mv_expected move = tr_revision current)
    ∧ (changing = true → Legal from (mv_to move) = true
         ∧ (Explains from (mv_to move) = true → mv_note move ≠ ""))
    ∧ moved = mkTracked (tr_id current) (tr_about current)
        (if changing then Wire (mv_to move) else tr_state current) assignee
        (uint64 (tr_revision current + 1)) (mv_actor move) (mv_at move)
        (if changing then closure move else tr_closure current)
    ∧ t = mkTransition (tr_id moved) (tr_revision moved) (tr_state current) (tr_state moved)
            (tr_assignee moved) (mv_actor move) (mv_at move) (mv_note move).
Proof.
  unfold Apply. destruct (FromWire (tr_state current)) as [from|] eqn:Hfrom; [| done].
  case_bool_decide as Ha; [done |].
  destruct (negb (mv_expected move =? 0) && _) eqn:Hexp; [done |].
  destruct (_ && negb (Valid (mv_to move))); [done |].
  destruct (negb (bool_decide (mv_to move = "")) && negb (bool_decide (mv_to move = from))) eqn:Hch;
    cbn [negb andb].
  - destruct (Legal from (mv_to move)) eqn:Hl; [| done]. cbn [negb].
    destruct (Explains from (mv_to move) && _) eqn:Hwhy; [done |]. intros [= <- <-].
    eexists from, true, _. split_and!; try done.
    + apply andb_false_iff in Hexp as [H|H]; apply negb_false_iff in H; to_prop; lia.
    + intros _. split; [done |]. intros He. rewrite He in Hwhy. by apply bool_decide_eq_false in Hwhy.
  - case_match eqn:Hr; [done |]. intros [= <- <-]. eexists from, false, _. split_and!; try done.
    apply andb_false_iff in Hexp as [H|H]; apply negb_false_iff in H; to_prop; lia.
Qed.

Lemma Apply_accepted {A} (current : Tracked A) move moved t :
  Apply current move = Ok (moved, t) → accepted current move moved t.
Proof.
  intros (from & changing & assignee & Hfrom & Ha & He & Hch & -> & ->)%Apply_inv.
  split; cbn; try done. destruct changing.
  - destruct (Hch eq_refl) as [Hl Hw]. destruct (Legal_states _ _ Hl) as (_ & Hto & _).
    exists from, (mv_to move). split_and!; [done | by apply FromWire_Wire | by right].
  - exists from, from. split_and!; [done | done | by left].
Qed.

Lemma Apply_closure {A} (current : Tracked A) move moved t :
  closure_ok current → Apply current move = Ok (moved, t) → closure_ok moved.
Proof.
  intros (s & Hs & Hc1 & Hc2) (from & changing & assignee & Hfrom & Ha & He & Hch & -> & ->)%Apply_inv.
  destruct changing; [| by exists s]. destruct (Hch eq_refl) as [Hl Hw].
  destruct (Legal_states _ _ Hl) as (_ & Hto & _).
  exists (mv_to move). cbn [tr_state tr_closure]. unfold closure.
  split_and!; [by apply FromWire_Wire | |]; intros ->; cbn; [by eexists | done].
Qed.

(** A move that is accepted is legal, attributable and recorded: it names its
    actor, lands in the state asked for along a legal edge or stays, gives a
    reason where one is owed, raises the revision by one, leaves the analytical
    half alone, keeps a closure exactly while the work is closed, and its line in
    the trail says the same as the record. *)
Theorem an_accepted_move_is_legal_and_recorded {A} (current : Tracked A) move moved t :
  closure_ok current → Apply current move = Ok (moved, t) →
  accepted current move moved t ∧ closure_ok moved.
Proof. intros. split; [by apply Apply_accepted | by eapply Apply_closure]. Qed.

(** Every legal move can be made: from a stored state this build knows, an
    actor who asks for a reachable state, with a reason, at the revision the work
    is at is never refused. *)
Theorem a_legal_move_is_never_refused {A} (current : Tracked A) from to note actor at_ :
  FromWire (tr_state current) = Some from → Legal from to = true → note ≠ "" → actor ≠ "" →
  ∃ moved t, Apply current (mkMove to None note actor at_ (tr_revision current)) = Ok (moved, t)
    ∧ tr_state moved = Wire to.
Proof.
  intros Hf Hl Hn Ha. destruct (Legal_states _ _ Hl) as (_ & Hto & Hne).
  unfold Apply. rewrite Hf. cbn [mv_to mv_assignee mv_note mv_actor mv_at mv_expected].
  rewrite (bool_decide_false (actor = "")), Z.eqb_refl, andb_false_r by done.
  assert (to ≠ "") as Hto' by (intros ->; unfold states in Hto; set_solver).
  rewrite (bool_decide_false (to = "")), (bool_decide_false (to = from)) by congruence.
  rewrite Hl, (bool_decide_false (note = "")), !andb_false_r by done.
  unfold Valid, contains_elem. rewrite (bool_decide_true (to ∈ states)) by done. cbn. rewrite ?andb_false_r.
  eexists _, _. split; [done |]. done.
Qed.

(** Of two people acting at once the second is told: once a move made at some
    revision was accepted, every other move made expecting that revision is
    refused as having been overtaken, and that refusal is not the caller's fault. *)
Theorem the_second_of_two_is_told {A} (current : Tracked A) first moved t second_ :
  0 < tr_revision current < 2 ^ 64 →
  Apply current first = Ok (moved, t) →
  mv_actor second_ ≠ "" → mv_expected second_ = tr_revision current →
  ∃ err, Apply moved second_ = Err err ∧ err = ErrMoved (tr_revision moved) (tr_revision current)
    ∧ Refused err = false.
Proof.
  intros Hr Ha Hactor Hexp. apply Apply_accepted in Ha as [_ _ Hrev _ (from & to & _ & Hto & _) _ _].
  unfold Apply. rewrite Hto, (bool_decide_false (mv_actor second_ = "")), Hexp by done.
  assert (tr_revision current ≠ tr_revision moved) as Hne.
  { rewrite Hrev. unfold wrap_uint. destruct (decide (tr_revision current + 1 < 2 ^ 64)).
    - rewrite Z.mod_small by lia. lia.
    - replace (tr_revision current + 1) with (2 ^ 64) by lia. rewrite Z.mod_same by lia. lia. }
  rewrite (proj2 (Z.eqb_neq _ 0)), (proj2 (Z.eqb_neq _ _)) by (done || lia). cbn. eauto.
Qed.

(** ** A life in the trail *)

(** Work raised and then moved any number of times, with the lines written. *)
Inductive worked {A} (raised : Tracked A) (first : Transition) : Tracked A → list Transition → Prop :=
| worked_raised : worked raised first raised [first]
| worked_moved current lines move moved t :
    worked raised first current lines → Apply current move = Ok (moved, t) →
    worked raised first moved (lines ++ [t]).

(** Consecutive lines meet: each starts in the state and at the revision the one
    before it left. *)
Fixpoint chained (state : WireState) (revision : Z) (lines : list Transition) : Prop :=
  match lines with
  | [] => True
  | t :: lines => tn_from t = state ∧ tn_revision t = revision
                  ∧ chained (tn_to t) (uint64 (revision + 1)) lines
  end.

Definition last_to (state : WireState) (lines : list Transition) : WireState :=
  default state (tn_to <$> last lines).

Lemma chained_snoc state revision lines t :
  chained state revision lines → tn_from t = last_to state lines →
  tn_revision t = uint64 (revision + len lines) → 0 ≤ revision < 2 ^ 64 →
  chained state revision (lines ++ [t]).
Proof.
  revert state revision. induction lines as [|l lines IH]; intros state revision Hc Hf Hr Hb.
  { cbn in *. unfold last_to in Hf. cbn in Hf. rewrite Z.add_0_r in Hr.
    unfold wrap_uint in Hr. by rewrite Z.mod_small in Hr. }
  destruct Hc as (H1 & H2 & Hc). cbn [app chained]. split_and!; [done | done |].
  apply IH; [done | | |].
  - rewrite Hf. unfold last_to. rewrite last_cons. by destruct (last lines).
  - rewrite Hr. unfold len, wrap_uint. cbn [length].
    rewrite Zplus_mod_idemp_l. f_equal. lia.
  - unfold wrap_uint. apply Z.mod_pos_bound. lia.
Qed.

(** The trail tells the whole life: of work raised open at revision one, the
    lines written chain from nothing to the state it is in with no revision
    skipped, every line but the first has a legal edge or stays, and the record is
    at the revision and in the state the last line says. *)
Theorem the_trail_tells_the_whole_life {A} (raised current : Tracked A) first lines :
  tr_state raised = STATE_OPEN → tr_revision raised = 1 → tr_closure raised = None →
  tn_from first = STATE_UNSPECIFIED → tn_to first = STATE_OPEN → tn_revision first = 1 →
  worked raised first current lines →
  chained STATE_UNSPECIFIED 1 lines
  ∧ tr_state current = last_to STATE_UNSPECIFIED lines
  ∧ tr_revision current = uint64 (len lines)
  ∧ tr_about current = tr_about raised
  ∧ closure_ok current
  ∧ Forall (λ t, tn_from t = STATE_UNSPECIFIED ∨ ∃ from to, FromWire (tn_from t) = Some from
        ∧ FromWire (tn_to t) = Some to ∧ (from = to ∨ Legal from to = true)) lines.
Proof.
  intros Hs Hr Hcl Hf Ht Hv Hw.
  induction Hw as [|current lines move moved t Hw (IHc & IHs & IHr & IHa & IHk & IHl) Ha].
  { split_and!; try done.
    - unfold last_to. cbn. congruence.
    - exists Open. rewrite Hs. by split_and!.
    - constructor; [by left | done]. }
  pose proof (Apply_closure _ _ _ _ IHk Ha) as Hk.
  apply Apply_accepted in Ha as [_ Hab Hrev _ (from & to & Hfrom & Hto & Hor) _ ->].
  split_and!; try done.
  - apply chained_snoc; cbn; [done | done | | lia].
    rewrite Hrev, IHr. unfold wrap_uint. rewrite Zplus_mod_idemp_l. f_equal. lia.
  - unfold last_to. by rewrite last_snoc.
  - rewrite Hrev, IHr. unfold len, wrap_uint. rewrite length_app. cbn [length].
    rewrite Zplus_mod_idemp_l. f_equal. lia.
  - congruence.
  - apply Forall_app. split; [done |]. constructor; [| done]. right. exists from, to. cbn. naive_solver.
Qed.
