(* ===== verification/Alert.v ===== *)
(** * Alerts: what a detection becomes when a person is responsible for it

    alert/raise.go, key.go, tuning.go and fold.go, with detection/held.go that
    they read a detection through. The states and moves of an alert are those of
    Triage.v. [strconv.Unquote] and the formatting of durations and times are
    parameters. *)

From Stdlib Require Import ZArith Lia Ascii.
From stdpp Require Import base tactics option gmap strings pretty sorting numbers list.
From S2P Require Import Prelude Text Rule Contract Validate Compile State Digest Detected Triage.


(** ** Severities and classes as they are written *)

Definition severity_number (s : WireSeverity) : Z :=
  match s with
  | SEVERITY_UNSPECIFIED => 0 | SEVERITY_LOW => 1 | SEVERITY_MEDIUM => 2
  | SEVERITY_HIGH => 3 | SEVERITY_CRITICAL => 4 | SEVERITY_OTHER n => n
  end.

(** [Severity]: [String] of a number the contract lacks is the number. *)
Definition severity_written (s : WireSeverity) : string :=
  match s with
  | SEVERITY_UNSPECIFIED => "" | SEVERITY_LOW => "low" | SEVERITY_MEDIUM => "medium"
  | SEVERITY_HIGH => "high" | SEVERITY_CRITICAL => "critical" | SEVERITY_OTHER n => pretty n
  end.

Definition Raisable (severity floor : WireSeverity) : bool :=
  negb (severity_number severity =? 0) && (severity_number floor <=? severity_number severity).

Section alert.
Context {CT : Contract} {M : Type} {EV : Events M}.
Context (Unquote : string → option string).

Definition tenant_of (made : Detection) : string := @GetTenantId M EV (d_origin made).
Definition agent_of (made : Detection) : string := @GetAgentId M EV (d_origin made).

Definition class_written (class : EventClass) : string :=
  let trimmed := TrimPrefix (default (pretty class) (EventClass_name class)) "EVENT_CLASS_" in
  if decide (trimmed = "UNSPECIFIED") then "" else ToLower trimmed.

(** ** What a detection says a field held (detection/held.go) *)

Definition carried (field : Field) (held : string) : string :=
  match KindOf field with
  | Some Text => default held (Unquote held)
  | _ => held
  end.

(** [find]: what was held, whether it was absent, and whether the detection says
    anything of the field. *)
Definition find (made : Detection) (field : Field) : string * bool * bool :=
  match List.find (λ e, bool_decide (e_field e = field)) (d_evidence made) with
  | Some seen => (carried field (e_held seen), e_absent seen, true)
  | None =>
      let groups := default [] (ag_group <$> d_aggregation made)
                    ++ default [] (cn_group <$> d_correlation made) in
      match List.find (λ b, bool_decide (bind_field b = field)) groups with
      | Some bound => (bind_value bound, bind_absent bound, true)
      | None => ("", false, false)
      end
  end.

Definition HeldIn (made : Detection) (field : Field) : option string :=
  let '(held, absent, spoken) := find made field in
  if spoken && negb absent then Some held else None.

Definition Speaks (made : Detection) (field : Field) : bool := (find made field).2.

(** ** Parts of a key (key.go) *)

Abbreviation Part := string (only parsing).
Definition PartRule : Part := "rule".
Definition PartAgent : Part := "agent".
Definition PartClass : Part := "class".
Definition PartSeverity : Part := "severity".
Definition EvidencePrefix : string := "evidence:".
Definition parts : list Part := [PartRule; PartAgent; PartClass; PartSeverity].

Definition part_Field (p : Part) : option Field :=
  if HasPrefix p EvidencePrefix && negb (bool_decide (TrimPrefix p EvidencePrefix = ""))
  then Some (TrimPrefix p EvidencePrefix) else None.

Inductive TuningError :=
| ErrUndeclaredField | ErrNoPart | ErrUnkeyed | ErrNoReason | ErrNegative | ErrNoSelection.

Definition refusal (p : Part) : option TuningError :=
  match part_Field p with
  | Some field => match KindOf field with None => Some ErrUndeclaredField | Some _ => None end
  | None => if contains_elem parts p then None else Some ErrNoPart
  end.

Definition part_Of (p : Part) (made : Detection) : option string :=
  match part_Field p with
  | Some field => HeldIn made field
  | None =>
      if decide (p = PartRule) then
        if bool_decide (dr_id (d_rule made) = "") then None else Some (dr_id (d_rule made))
      else if decide (p = PartAgent) then
        if bool_decide (agent_of made = "") then None else Some (agent_of made)
      else if decide (p = PartClass) then
        if d_class made =? 0 then None else Some (class_written (d_class made))
      else if decide (p = PartSeverity) then
        if severity_number (d_severity made) =? 0 then None
        else Some (severity_written (d_severity made))
      else None
  end.

Definition distinct (keyed : list Part) : list Part := compact (sort_strings keyed).

Definition Unspoken (made : Detection) (keyed : list Part) : list Part :=
  List.filter (λ p, match part_Field p with
                    | Some field => negb (Speaks made field)
                    | None => false
                    end) (distinct keyed).

(** What [CorrelationKey] writes to the digest. *)
Definition correlation_values (made : Detection) (keyed : list Part) : list string :=
  tenant_of made :: (distinct keyed ≫= λ p, [p; default absent_mark (part_Of p made)]).

Definition CorrelationKey (digest : string → string) (made : Detection) (keyed : list Part) : string :=
  digest (writes (correlation_values made keyed)).

(** ** Tuning (tuning.go) *)

Record Fold := mkFold { Keyed : list Part; fold_window : duration; fold_cooldown : duration }.

Abbreviation Selector := (gmap string (list string)) (only parsing).

Record Suppression := mkSuppression {
  sup_rule : string;
  sup_when : Selector;
  sup_reason : string;
  sup_until : instant;
}.

Record Tuning := mkTuning {
  tu_defaults : Fold;
  tu_by_rule : gmap string Fold;
  tu_suppressions : list Suppression;
}.

Definition Matches (s : Selector) (made : Detection) : bool :=
  forallb (λ '(part, allowed),
    match part_Of part made with
    | None => false
    | Some value => contains_elem allowed value
    end) (map_to_list s).

Definition fold_valid (f : Fold) : result TuningError unit :=
  if (fold_window f <? 0) || (fold_cooldown f <? 0) then Err ErrNegative
  else if negb (contains_elem (Keyed f) PartRule) then Err ErrUnkeyed
  else each (λ _ p, match refusal p with Some e => Err e | None => Ok tt end) (Keyed f).

Definition suppression_valid (s : Suppression) : result TuningError unit :=
  if blank (sup_reason s) then Err ErrNoReason
  else if bool_decide (sup_rule s = "") && (size (sup_when s) =? 0)%nat then Err ErrNoSelection
  else each (λ _ p, match refusal p with Some e => Err e | None => Ok tt end)
         (sort_strings (map_to_list (sup_when s)).*1).

(** Which of several invalid folds is reported depends on the map's order. *)
Definition NewTuning (defaults : Fold) (byRule : gmap string Fold) (suppressions : list Suppression)
    : result TuningError Tuning :=
  match fold_valid defaults with
  | Err e => Err e
  | Ok _ =>
  match each (λ _ '(_, f), fold_valid f) (map_to_list byRule) with
  | Err e => Err e
  | Ok _ =>
  match each (λ _ s, suppression_valid s) suppressions with
  | Err e => Err e
  | Ok _ => Ok (mkTuning defaults byRule suppressions)
  end
  end
  end.

Definition tuning_Fold (t : Tuning) (rule : string) : Fold :=
  default (tu_defaults t) (tu_by_rule t !! rule).

(** The conditions one suppression is asked, in the order they are. *)
Definition suppresses (s : Suppression) (made : Detection) (at_ : instant) : bool :=
  if negb (bool_decide (sup_rule s = "")) && negb (bool_decide (sup_rule s = dr_id (d_rule made)))
  then false
  else if negb (is_zero (sup_until s)) && negb (before at_ (sup_until s)) then false
  else Matches (sup_when s) made.

Definition Suppressed (t : Tuning) (made : Detection) (at_ : instant) : option Suppression :=
  List.find (λ s, suppresses s made at_) (tu_suppressions t).

(** What [identify] writes of a tuning. *)
Section identify.
Context (DurationString : duration → string) (RFC3339 : instant → string).

Definition fold_values (name : string) (f : Fold) : list string :=
  name :: sort_strings (Keyed f) ++ [DurationString (fold_window f); DurationString (fold_cooldown f)].

Definition suppression_values (s : Suppression) : list string :=
  [sup_rule s; sup_reason s; RFC3339 (sup_until s)]
  ++ (sort_strings (map_to_list (sup_when s)).*1 ≫= λ p,
        p :: sort_strings (default [] (sup_when s !! p))).

Definition tuning_values (t : Tuning) : list string :=
  fold_values "" (tu_defaults t)
  ++ (sort_strings (map_to_list (tu_by_rule t)).*1 ≫= λ rule,
        fold_values rule (default (mkFold [] 0 0) (tu_by_rule t !! rule)))
  ++ (tu_suppressions t ≫= suppression_values).

Definition tuning_identify (digest : string → string) (t : Tuning) : string :=
  digest (writes (tuning_values t)).
End identify.

(** ** Raising (raise.go, fold.go) *)

Definition Platform : string := "platform".

Record AlertAbout := mkAlertAbout {
  al_schema : Z;
  al_tenant : string;
  al_detection : string;
  al_rule : DetectedRule;
  al_severity : WireSeverity;
  al_technique : option Technique;
  al_class : EventClass;
  al_agent : string;
  al_event_time : option instant;
  al_raised_at : instant;
  al_occurrences : Z;
  al_first_seen : instant;
  al_last_seen : instant;
  al_key : string;
}.

Abbreviation Alert := (Tracked AlertAbout) (only parsing).

Inductive RaiseError := ErrUnnamed | ErrNoTenant | ErrNoStory.

Definition Happened (made : Detection) (fallback : instant) : instant :=
  default fallback (d_event_time made).

Definition Raise (made : Detection) (at_ : instant) : result RaiseError Alert :=
  if bool_decide (d_id made = "") then Err ErrUnnamed
  else if bool_decide (tenant_of made = "") then Err ErrNoTenant
  else Ok (mkTracked (d_id made)
    {| al_schema := 1; al_tenant := tenant_of made; al_detection := d_id made;
       al_rule := d_rule made; al_severity := d_severity made; al_technique := d_technique made;
       al_class := d_class made; al_agent := agent_of made; al_event_time := d_event_time made;
       al_raised_at := at_; al_occurrences := 1; al_first_seen := Happened made at_;
       al_last_seen := Happened made at_; al_key := "" |}
    (Wire Open) "" 1 Platform at_ None).

Definition Raised (alert : Alert) : Transition :=
  mkTransition (tr_id alert) (tr_revision alert) STATE_UNSPECIFIED (tr_state alert) ""
    Platform (al_raised_at (tr_about alert)) ("raised by " +:+ dr_id (al_rule (tr_about alert))).

Record Candidate := mkCandidate {
  ca_alert : Alert;
  ca_detection : string;
  ca_key : string;
  ca_unspoken : list Part;
  ca_at : instant;
  ca_window : duration;
  ca_cooldown : duration;
}.

Definition with_key (key : string) (a : AlertAbout) : AlertAbout :=
  mkAlertAbout (al_schema a) (al_tenant a) (al_detection a) (al_rule a) (al_severity a)
    (al_technique a) (al_class a) (al_agent a) (al_event_time a) (al_raised_at a)
    (al_occurrences a) (al_first_seen a) (al_last_seen a) key.

Definition Consider (digest : string → string) (made : Detection) (t : Tuning) (at_ : instant)
    : result RaiseError Candidate :=
  match Raise made at_ with
  | Err e => Err e
  | Ok raised =>
      let f := tuning_Fold t (dr_id (d_rule made)) in
      let key := CorrelationKey digest made (Keyed f) in
      Ok (mkCandidate
        (mkTracked (tr_id raised) (with_key key (tr_about raised)) (tr_state raised)
           (tr_assignee raised) (tr_revision raised) (tr_changed_by raised) (tr_changed_at raised)
           (tr_closure raised))
        (d_id made) key (Unspoken made (Keyed f)) (Happened made at_) (fold_window f) (fold_cooldown f))
  end.
End alert.

(** * What folds together and what is suppressed

    Theorems about the correlation keys and the tuning of Alert.v. *)


Lemma elem_of_distinct p keyed : p ∈ distinct keyed ↔ p ∈ keyed.
Proof. unfold distinct, sort_strings. by rewrite elem_of_compact, merge_sort_Permutation. Qed.

(** Parts written with their values say which parts and which values. *)
Lemma pairs_inj {A} (f g : A → A) (l1 l2 : list A) :
  (l1 ≫= λ p, [p; f p]) = (l2 ≫= λ p, [p; g p]) → l1 = l2 ∧ ∀ p, p ∈ l1 → f p = g p.
Proof.
  revert l2. induction l1 as [|x l1 IH]; intros [|y l2] Heq; cbn in Heq; try done.
  - split; [done |]. by intros p ?%elem_of_nil.
  - injection Heq as -> Hv Heq. destruct (IH l2 Heq) as [-> Hall].
    split; [done |]. intros p [->|Hp]%elem_of_cons; auto.
Qed.

Section alert_props.
Context {CT : Contract} {M : Type} {EV : Events M} (Unquote : string → option string).

Abbreviation part_Of' := (@part_Of CT M EV Unquote).
Abbreviation Suppressed' := (@Suppressed CT M EV Unquote).
Abbreviation suppresses' := (@suppresses CT M EV Unquote).

Lemma fold_valid_keyed f : fold_valid f = Ok tt → PartRule ∈ Keyed f.
Proof.
  unfold fold_valid. case_match; [done |]. destruct (contains_elem (Keyed f) PartRule) eqn:Hc; [| done].
  intros _. by apply bool_decide_eq_true in Hc.
Qed.

Lemma NewTuning_inv defaults byRule sups t :
  NewTuning defaults byRule sups = Ok t →
  t = mkTuning defaults byRule sups
  ∧ (∀ rule, fold_valid (tuning_Fold t rule) = Ok tt)
  ∧ Forall (λ s, suppression_valid s = Ok tt) sups.
Proof.
  unfold NewTuning. destruct (fold_valid defaults) as [[]|] eqn:Hd; [| done].
  destruct (each _ (map_to_list byRule)) as [[]|] eqn:Hb; [| done].
  destruct (each _ sups) as [[]|] eqn:Hs; [| done]. intros [= <-].
  rewrite each_ok in Hs. rewrite each_ok in Hb. split_and!; [done | |].
  - intros rule. unfold tuning_Fold. cbn. destruct (byRule !! rule) as [f|] eqn:Hf; [| done].
    apply elem_of_map_to_list, list_elem_of_lookup in Hf as [i Hi].
    apply (Hb _ _ Hi).
  - apply Forall_lookup. intros i s Hi. by apply (Hs i s).
Qed.

Lemma part_Of_rule made : dr_id (d_rule made) ≠ "" → part_Of' PartRule made = Some (dr_id (d_rule made)).
Proof.
  intros Hne. unfold part_Of. change (part_Field PartRule) with (@None Field). cbv iota.
  by rewrite decide_True, bool_decide_false by done.
Qed.

Lemma part_Of_agent made :
  @agent_of M EV made ≠ "" → part_Of' PartAgent made = Some (@agent_of M EV made).
Proof.
  intros Hne. unfold part_Of. change (part_Field PartAgent) with (@None Field). cbv iota.
  by rewrite decide_False, decide_True, bool_decide_false by done.
Qed.

Lemma part_Of_rule_eq made v : part_Of' PartRule made = Some v → v = dr_id (d_rule made).
Proof.
  unfold part_Of. change (part_Field PartRule) with (@None Field). cbv iota.
  rewrite decide_True by done. by case_bool_decide; intros [= <-].
Qed.

(** An alert never folds across a tenant boundary or across rules: under any
    tuning that was accepted, two detections of named rules whose correlation
    keys are taken of the same bytes are of one tenant and of one rule, and say
    the same of every part the fold is keyed by. *)
Theorem what_folds_is_one_tenants_one_rule defaults byRule sups t d1 d2 :
  NewTuning defaults byRule sups = Ok t →
  dr_id (d_rule d1) ≠ "" → dr_id (d_rule d2) ≠ "" →
  let keyed d := Keyed (tuning_Fold t (dr_id (d_rule d))) in
  writes (@correlation_values CT M EV Unquote d1 (keyed d1))
    = writes (@correlation_values CT M EV Unquote d2 (keyed d2)) →
  @tenant_of M EV d1 = @tenant_of M EV d2 ∧ dr_id (d_rule d1) = dr_id (d_rule d2)
  ∧ ∀ p, p ∈ keyed d1 →
      default absent_mark (part_Of' p d1) = default absent_mark (part_Of' p d2).
Proof.
  intros Ht Hr1 Hr2 keyed Heq. apply NewTuning_inv in Ht as (_ & Hv & _).
  apply writes_inj in Heq. unfold correlation_values in Heq. injection Heq as Hten Hp.
  apply pairs_inj in Hp as [_ Hall].
  assert (∀ p, p ∈ keyed d1 → default absent_mark (part_Of' p d1) = default absent_mark (part_Of' p d2))
    as Hparts by (intros p Hin; by apply Hall, elem_of_distinct).
  split_and!; [done | | done].
  specialize (Hparts PartRule (fold_valid_keyed _ (Hv _))).
  by rewrite !part_Of_rule in Hparts.
Qed.

Lemma suppresses_inv s made at_ :
  suppresses' s made at_ = true →
  (sup_rule s = "" ∨ sup_rule s = dr_id (d_rule made))
  ∧ (sup_until s = 0 ∨ at_ < sup_until s)
  ∧ (∀ part allowed, sup_when s !! part = Some allowed →
       ∃ value, part_Of' part made = Some value ∧ value ∈ allowed).
Proof.
  unfold suppresses. destruct (_ && negb (bool_decide (sup_rule s = dr_id _))) eqn:Hr; [done |].
  destruct (negb (is_zero (sup_until s)) && _) eqn:Hu; [done |]. intros Hm. split_and!.
  - apply andb_false_iff in Hr as [H|H]; apply negb_false_iff, bool_decide_eq_true in H; auto.
  - unfold is_zero, before in Hu. apply andb_false_iff in Hu as [H|H]; apply negb_false_iff in H; to_prop; lia.
  - intros part allowed Hin. unfold Matches in Hm. rewrite forallb_forall in Hm.
    apply elem_of_map_to_list, list_elem_of_In in Hin. specialize (Hm _ Hin). cbn in Hm.
    destruct (part_Of' part made) as [v|]; [| done]. exists v. split; [done |].
    by apply bool_decide_eq_true in Hm.
Qed.

Lemma find_first {A} (f : A → bool) (l : list A) (x : A) :
  List.find f l = Some x ↔
  ∃ pre post, l = pre ++ x :: post ∧ f x = true ∧ Forall (λ y, f y = false) pre.
Proof.
  split.
  - induction l as [|y l IH]; [done |]. cbn. destruct (f y) eqn:Hy.
    + intros [= ->]. by exists [], l.
    + intros (pre & post & -> & Hx & Hf)%IH. exists (y :: pre), post. by split_and!; [| | constructor].
  - intros (pre & post & -> & Hx & Hf). induction Hf as [|y pre Hy Hf IH]; cbn; [by rewrite Hx |].
    by rewrite Hy.
Qed.

(** A detection is held back only by a suppression that says why, is still
    in force and names it: under a tuning that was accepted, what suppresses a
    detection is the first of the document that asks for it, gives a reason, has
    not expired, is for its rule when it names one, lists the detection's own
    value of every part it selects by, and selects by something. *)
Theorem a_suppression_is_explained_and_in_force defaults byRule sups t made at_ s :
  NewTuning defaults byRule sups = Ok t → Suppressed' t made at_ = Some s →
  blank (sup_reason s) = false
  ∧ (sup_until s = 0 ∨ at_ < sup_until s)
  ∧ (sup_rule s = "" ∨ sup_rule s = dr_id (d_rule made))
  ∧ (∀ part allowed, sup_when s !! part = Some allowed →
       ∃ value, part_Of' part made = Some value ∧ value ∈ allowed)
  ∧ (sup_rule s ≠ "" ∨ sup_when s ≠ ∅)
  ∧ ∃ pre post, sups = pre ++ s :: post ∧ Forall (λ s', suppresses' s' made at_ = false) pre.
Proof.
  intros (-> & _ & Hv)%NewTuning_inv Hs. unfold Suppressed in Hs. cbn in Hs.
  apply find_first in Hs as (pre & post & -> & Hx & Hpre).
  destruct (suppresses_inv _ _ _ Hx) as (Hr & Hu & Hw).
  apply Forall_app in Hv as [_ [Hv _]%Forall_cons]. unfold suppression_valid in Hv.
  destruct (blank (sup_reason s)); [done |]. split_and!; try done; [| eauto].
  destruct (bool_decide (sup_rule s = "") && _) eqn:He; [done |].
  apply andb_false_iff in He as [H|H].
  - left. by apply bool_decide_eq_false in H.
  - right. apply Nat.eqb_neq in H. intros Hn. by rewrite Hn, map_size_empty in H.
Qed.

Definition keyed_by_rule : Fold := mkFold [PartRule] 0 0.
Definition three_agents : Suppression :=
  mkSuppression "" {[PartAgent := ["a"; "rule"; "x"]]} "noise" 0.
Definition one_agent_one_rule : Suppression :=
  mkSuppression "" {[PartAgent := ["a"]; PartRule := ["x"]]} "noise" 0.

(** The name of a tuning does not tell its documents apart: a suppression of
    the agents [a], [rule] and [x], and one of the rule [x] on the agent [a], are
    both accepted and are named the same by every digest, while the first holds
    back what any other rule finds on the agent [a] and the second does not. *)
Theorem a_tuning_s_name_is_ambiguous :
  ∃ t1 t2,
    NewTuning keyed_by_rule ∅ [three_agents] = Ok t1
    ∧ NewTuning keyed_by_rule ∅ [one_agent_one_rule] = Ok t2
    ∧ (∀ duration_string rfc3339 digest,
         tuning_identify duration_string rfc3339 digest t1
         = tuning_identify duration_string rfc3339 digest t2)
    ∧ ∀ made at_, @agent_of M EV made = "a" → dr_id (d_rule made) ≠ "x" →
        Suppressed' t1 made at_ = Some three_agents ∧ Suppressed' t2 made at_ = None.
Proof.
  exists (mkTuning keyed_by_rule ∅ [three_agents]), (mkTuning keyed_by_rule ∅ [one_agent_one_rule]).
  split; [vm_compute; reflexivity |]. split; [vm_compute; reflexivity |]. split.
  - intros. unfold tuning_identify. do 2 f_equal.
  - intros made at_ Ha Hr. unfold Suppressed. cbn [tu_suppressions List.find].
    assert (suppresses' three_agents made at_ = true) as ->.
    { unfold suppresses. cbn [three_agents sup_rule sup_until sup_when]. cbn [bool_decide negb andb is_zero].
      unfold Matches. rewrite map_to_list_singleton. cbn [forallb].
      rewrite part_Of_agent, Ha by (rewrite Ha; done). done. }
    assert (suppresses' one_agent_one_rule made at_ = false) as ->; [| split; reflexivity].
    apply not_true_is_false. intros Hs.
    destruct (suppresses_inv _ _ _ Hs) as (_ & _ & Hw).
    assert (sup_when one_agent_one_rule !! PartRule = Some ["x"]) as Hx by (vm_compute; reflexivity).
    destruct (Hw _ _ Hx) as (v & Hv & Hin).
    apply part_Of_rule_eq in Hv. apply list_elem_of_singleton in Hin. congruence.
Qed.
End alert_props.
