(* ===== verification/Incident.v ===== *)
(** * Incidents: what a correlation becomes when a person is responsible for it

    incident/raise.go and confidence.go; incident/state.go and move.go say of an
    incident what the generic definitions of Triage.v say, at the incident's own
    analytical half. *)

From Stdlib Require Import ZArith Lia Ascii.
From stdpp Require Import base tactics option gmap strings pretty sorting numbers list.
From S2P Require Import Prelude Text Rule Contract Validate Compile State Window Story Digest Detected Triage Alert Engine EngineProps.

Inductive IncidentConfidence :=
| CONFIDENCE_UNSPECIFIED | CONFIDENCE_LOW | CONFIDENCE_MEDIUM | CONFIDENCE_HIGH | CONFIDENCE_OTHER (number : Z).
#[global] Instance IncidentConfidence_eq_dec : EqDecision IncidentConfidence.
Proof. solve_decision. Defined.

(** [Span]; a stage of a detection always carries its time. *)
Definition Span (c : Correlation) : duration :=
  if len (cn_stages c) <? 2 then 0
  else match head (cn_stages c), last (cn_stages c) with
       | Some first, Some last => time_sub (ds_time last) (ds_time first)
       | _, _ => 0
       end.

Definition Confidence (c : Correlation) : IncidentConfidence :=
  if len (cn_stages c) =? 0 then CONFIDENCE_UNSPECIFIED
  else if cn_spread c <? Span c then CONFIDENCE_HIGH
  else if cn_spread c <? cn_window c then CONFIDENCE_MEDIUM
  else CONFIDENCE_LOW.

Record IncidentAbout := mkIncidentAbout {
  in_schema : Z;
  in_tenant : string;
  in_detection : string;
  in_rule : DetectedRule;
  in_ruleset : string;
  in_severity : WireSeverity;
  in_confidence : IncidentConfidence;
  in_technique : option Technique;
  in_class : EventClass;
  in_agent : string;
  in_stages : list DetectedStage;
  in_group : list Binding;
  in_window : duration;
  in_spread : duration;
  in_first : instant;
  in_last : instant;
  in_raised_at : instant;
}.

Abbreviation Incident := (Tracked IncidentAbout) (only parsing).

Definition incident_Apply (current : Incident) (move : Move)
    : result MoveError (Incident * Transition) := Apply current move.

Definition CorrelatesDetection (made : Detection) : bool :=
  match d_correlation made with Some c => 0 <? len (cn_stages c) | None => false end.

Section incident.
Context {M : Type} {EV : Events M}.

Definition RaiseIncident (made : Detection) (at_ : instant) : result RaiseError Incident :=
  if bool_decide (d_id made = "") then Err ErrUnnamed
  else if bool_decide (@tenant_of M EV made = "") then Err ErrNoTenant
  else match d_correlation made with
  | None => Err ErrNoStory
  | Some c =>
      match head (cn_stages c), last (cn_stages c) with
      | Some first, Some last =>
          Ok (mkTracked (d_id made)
            {| in_schema := 1; in_tenant := @tenant_of M EV made; in_detection := d_id made;
               in_rule := d_rule made; in_ruleset := d_ruleset made; in_severity := d_severity made;
               in_confidence := Confidence c; in_technique := d_technique made;
               in_class := d_class made; in_agent := @agent_of M EV made;
               in_stages := cn_stages c; in_group := cn_group c; in_window := cn_window c;
               in_spread := cn_spread c; in_first := ds_time first; in_last := ds_time last;
               in_raised_at := at_ |}
            (Wire Open) "" 1 Platform at_ None)
      | _, _ => Err ErrNoStory
      end
  end.

Definition RaisedIncident (one : Incident) : Transition :=
  mkTransition (tr_id one) (tr_revision one) STATE_UNSPECIFIED (tr_state one) ""
    Platform (in_raised_at (tr_about one)) ("correlated by " +:+ dr_id (in_rule (tr_about one))).
End incident.

(** ** From a match to an incident *)

Lemma span_of_detection sequence found c :
  correlation_of sequence found = Some c → Span c = corr_span found ∧ cn_spread c = corr_clock_spread found
  ∧ cn_window c = seq_within sequence ∧ len (cn_stages c) = len (corr_stages found).
Proof.
  unfold correlation_of. destruct (Correlates sequence); [| done]. cbn [negb]. intros [= <-].
  unfold Span, corr_span. cbn [cn_stages cn_spread cn_window]. unfold len. rewrite length_fmap.
  split_and!; try done. destruct (_ <? 2); [done |].
  rewrite fmap_last. destruct (corr_stages found) as [|s rest]; [done |].
  change (head (_ <$> s :: rest)) with
    (Some (mkDetectedStage (sat_name s) (sat_event s) (sat_at s) (sat_agent s))).
  cbn [head]. by destruct (last (s :: rest)).
Qed.

Section incident_props.
Context {M : Type} {MS : Messages M} {FM : Formats} {EV : Events M} {EL : EventLaws M}.
Context {S : Type} {ST : Store S} (ok : S → Prop) {SL : StoreLaws S ok}.
Context (digest : string → string) (ctx : nat → option StateError).

(** Every sequence the engine finds can be raised as an incident, and says of
    it what was found: the detection of a completed story is named and raises an
    incident of the event's tenant with the rule's stages in the rule's order,
    whose times run from its first to its last, and whose confidence is high
    exactly when the clocks that timed the story order it themselves, and low only
    when they disagree by at least the rule's window. *)
Theorem a_completed_story_raises_an_incident p record partition e e' m ruleset at_ :
  ok (eng_store e) → 0 ≤ seq_within (rule_sequence (p_rule p)) →
  Correlates (rule_sequence (p_rule p)) = true → ProgramStages p ≠ [] →
  TenantOf record ≠ "" → (∀ s, digest s ≠ "") →
  completed digest ctx p (mkMatch (p_rule p) [] no_count no_story) record partition e
    = (e', Ok (Some m)) →
  ∃ one, @RaiseIncident M EV (Detected digest m ruleset record at_) at_ = Ok one
    ∧ in_tenant (tr_about one) = TenantOf record
    ∧ (ds_name <$> in_stages (tr_about one)) = ProgramStages p
    ∧ in_first (tr_about one) ≤ in_last (tr_about one)
    ∧ (in_confidence (tr_about one) = CONFIDENCE_HIGH ↔ corr_ordered (m_correlated m) = true)
    ∧ (in_confidence (tr_about one) = CONFIDENCE_LOW →
         seq_within (rule_sequence (p_rule p)) ≤ corr_clock_spread (m_correlated m)).
Proof.
  intros Hok Hw Hcor Hne Hten Hdig Hc.
  pose proof (told_story ok digest ctx p _ record partition e e' m Hok Hw Hc)
    as (Hnames & Hsorted & Hspan & _ & _).
  assert (m_rule m = p_rule p) as Hm
    by (apply completed_inv in Hc as (? & ? & ? & ? & ? & _ & _ & _ & _ & Hm & _); done).
  set (d := Detected digest m ruleset record at_).
  destruct (correlation_of (rule_sequence (m_rule m)) (m_correlated m)) as [c|] eqn:Hcn;
    [| by unfold correlation_of in Hcn; rewrite Hm, Hcor in Hcn].
  destruct (span_of_detection _ _ _ Hcn) as (Hsp & Hsd & Hwin & Hlen).
  assert (d_correlation d = Some c) as Hdc by (unfold d; by rewrite Detected_correlation).
  assert (@tenant_of M EV d = TenantOf record) as Htd
    by (apply (Detected_tenant digest m ruleset record at_)).
  assert (d_id d ≠ "") as Hid
    by (destruct (Detected_from digest m ruleset record at_) as (from & Hi & _);
        unfold d; rewrite Hi; apply Hdig).
  assert (cn_stages c = (λ s, mkDetectedStage (sat_name s) (sat_event s) (sat_at s) (sat_agent s))
                          <$> corr_stages (m_correlated m)) as Hst.
  { unfold correlation_of in Hcn. rewrite Hm, Hcor in Hcn. by injection Hcn as <-. }
  destruct (corr_stages (m_correlated m)) as [|s rest] eqn:Hstages;
    [by rewrite <- Hnames in Hne |].
  unfold RaiseIncident. rewrite bool_decide_false, Htd, bool_decide_false, Hdc by done.
  destruct (last (s :: rest)) as [l|] eqn:Hl; [| by apply last_None in Hl].
  rewrite Hst. rewrite fmap_last, Hl. cbn [fmap list_fmap head option_fmap option_map].
  eexists. split; [reflexivity |]. cbn [tr_about in_tenant in_stages in_first in_last in_confidence].
  split_and!.
  - done.
  - rewrite <- Hnames. cbn. f_equal. by rewrite <- list_fmap_compose.
  - cbn. apply last_Some_elem_of, elem_of_cons in Hl as [->|Hl]; [done |].
    cbn in Hsorted. apply StronglySorted_inv in Hsorted as [_ Hf]. rewrite Forall_forall in Hf.
    apply Hf. by apply list_elem_of_fmap_2.
  - unfold Confidence. rewrite Hsp, Hsd. unfold corr_ordered.
    rewrite Hst. cbn. repeat case_match; split; done.
  - unfold Confidence. rewrite Hst. cbn. rewrite Hwin, Hm. repeat case_match; try done.
    intros _. to_prop. lia.
Qed.
End incident_props.
