(* ===== verification/Agent.v ===== *)
(** * Agents: what the platform decided about a machine it takes telemetry from

    agent/state.go, move.go, register.go, identity.go, certificate.go and
    roster.go, with agentidentity/identity.go for the names a certificate may
    carry. A timestamp is present when it is set and valid. *)

From Stdlib Require Import ZArith Lia Ascii.
From stdpp Require Import base tactics option gmap sets strings numbers list.
From S2P Require Import Prelude Text.


(** ** Names *)

(** [^[A-Za-z0-9][A-Za-z0-9._-]{0,63}$] *)
Definition agentIDPattern : pattern :=
  Then (One alnum) (at_most 63 (One (λ c, alnum c || among ["."; "_"; "-"]%char c))).

Definition AgentIDValid (id : string) : bool := MatchString agentIDPattern id.

(** [^[A-Za-z0-9][A-Za-z0-9._:-]{0,63}$] *)
Definition identifierPattern : pattern :=
  Then (One alnum) (at_most 63 (One (λ c, alnum c || among ["."; "_"; ":"; "-"]%char c))).

Definition ValidIdentifier (value : string) : bool := MatchString identifierPattern value.

Definition MaxTenantIDLength : Z := 64.
Definition MaxHostnameLength : Z := 255.
Definition MaxOperatingSystem : Z := 128.
Definition MaxArchitectureLen : Z := 32.

(** What a connection carries: the common names of its verified chains. *)
Definition FromConnection (chains : list (list string)) : option string :=
  match chains with
  | (name :: _) :: _ => if AgentIDValid name then Some name else None
  | _ => None
  end.

(** ** States (state.go) *)

Abbreviation AgentState := string (only parsing).
Definition Pending : AgentState := "pending".
Definition Active : AgentState := "active".
Definition Disabled : AgentState := "disabled".
Definition Revoked : AgentState := "revoked".
Definition Decommissioned : AgentState := "decommissioned".

Definition agent_states : list AgentState := [Pending; Active; Disabled; Revoked; Decommissioned].

Definition agent_Valid (s : AgentState) : bool := contains_elem agent_states s.

Definition Final (s : AgentState) : bool :=
  bool_decide (s = Revoked) || bool_decide (s = Decommissioned).

Definition Admits (s : AgentState) : bool :=
  bool_decide (s = Pending) || bool_decide (s = Active).

Definition agent_moves (s : AgentState) : list AgentState :=
  if decide (s = Pending) then [Disabled; Revoked; Decommissioned]
  else if decide (s = Active) then [Disabled; Revoked; Decommissioned]
  else if decide (s = Disabled) then [Active; Revoked; Decommissioned]
  else [].

Definition agent_Legal (from to : AgentState) : bool := contains_elem (agent_moves from) to.

Inductive AgentWire :=
| AGENT_UNSPECIFIED | AGENT_PENDING | AGENT_ACTIVE | AGENT_DISABLED | AGENT_REVOKED
| AGENT_DECOMMISSIONED | AGENT_OTHER (n : Z).
#[global] Instance AgentWire_eq_dec : EqDecision AgentWire.
Proof. solve_decision. Defined.

Definition agent_Wire (s : AgentState) : AgentWire :=
  if decide (s = Pending) then AGENT_PENDING
  else if decide (s = Active) then AGENT_ACTIVE
  else if decide (s = Disabled) then AGENT_DISABLED
  else if decide (s = Revoked) then AGENT_REVOKED
  else if decide (s = Decommissioned) then AGENT_DECOMMISSIONED
  else AGENT_UNSPECIFIED.

Definition agent_FromWire (w : AgentWire) : option AgentState :=
  List.find (λ s, bool_decide (agent_Wire s = w)) agent_states.

(** ** Errors, as the package's sentinels *)

Inductive AgentError :=
| ErrAgentStored | ErrAgentNoActor | ErrAgentMoved | ErrAgentUnknownState | ErrAgentNothingAsked
| ErrAgentIllegalMove | ErrAgentNeedsReason | ErrMalformedIdentity | ErrMalformed
| ErrCertificateReplaced | ErrConflict.
#[global] Instance AgentError_eq_dec : EqDecision AgentError.
Proof. solve_decision. Defined.

Definition agent_Refused (e : AgentError) : bool :=
  match e with
  | ErrAgentIllegalMove | ErrAgentNothingAsked | ErrAgentNeedsReason | ErrAgentUnknownState
  | ErrAgentNoActor | ErrMalformedIdentity | ErrMalformed | ErrCertificateReplaced => true
  | ErrAgentStored | ErrAgentMoved | ErrConflict => false
  end.

Definition within_length (value : string) (maximum : Z) : result AgentError unit :=
  refuse (maximum <? slen value) ErrMalformed.

(** ** Certificate identities (identity.go) *)

Record CertIdentity := mkCertIdentity {
  id_subject : string;
  id_serial : string;
  id_fingerprint : string;
  id_issued : option instant;
  id_expires : option instant;
}.

Definition MaxSubjectLength : Z := 256.
Definition MaxSerialLength : Z := 64.
Definition FingerprintLength : Z := 64.

Fixpoint hex_chars (s : string) : bool :=
  match s with
  | EmptyString => true
  | String c s => (digit c || between 97 102 c || between 65 70 c) && hex_chars s
  end.
Definition hexadecimal (value : string) : bool := hex_chars value && negb (bool_decide (value = "")).

Definition serial (value : string) : result AgentError unit :=
  if bool_decide (value = "") then Err ErrMalformedIdentity
  else if MaxSerialLength <? slen value then Err ErrMalformedIdentity
  else refuse (negb (hexadecimal value)) ErrMalformedIdentity.

Definition fingerprint (value : string) : result AgentError unit :=
  if negb (slen value =? FingerprintLength) || negb (hexadecimal value) then Err ErrMalformedIdentity
  else refuse (negb (bool_decide (ToLower value = value))) ErrMalformedIdentity.

Definition validity (held : CertIdentity) (at_ : instant) : result AgentError unit :=
  match id_expires held with
  | None => Err ErrMalformedIdentity
  | Some expires =>
      if is_zero expires then Err ErrMalformedIdentity
      else if match id_issued held with
              | Some issued => negb (is_zero issued) && negb (after expires issued)
              | None => false
              end then Err ErrMalformedIdentity
      else refuse (negb (after expires at_)) ErrMalformedIdentity
  end.

Definition Bindable (agentID : string) (held : CertIdentity) (at_ : instant) : result AgentError unit :=
  if negb (bool_decide (id_subject held = agentID)) then Err ErrMalformedIdentity
  else if MaxSubjectLength <? slen (id_subject held) then Err ErrMalformedIdentity
  else match serial (id_serial held) with
  | Err e => Err e
  | Ok _ => match fingerprint (id_fingerprint held) with
            | Err e => Err e
            | Ok _ => validity held at_
            end
  end.

(** ** Registration (register.go) *)

Definition MaxNoteLength : Z := 512.
Definition MaxVersionLength : Z := 64.

Record AgentPlatform := mkAgentPlatform { pf_os : string; pf_architecture : string; pf_hostname : string }.

Record Registration := mkRegistration {
  rg_agent : string;
  rg_tenant : string;
  rg_version : string;
  rg_note : string;
  rg_platform : AgentPlatform;
}.

Record AgentRecord := mkAgentRecord {
  a_id : string;
  a_schema : Z;
  a_tenant : string;
  a_state : AgentWire;
  a_platform : AgentPlatform;
  a_version : string;
  a_registered : instant;
  a_changed_by : string;
  a_changed_at : instant;
  a_revision : Z;
  a_identity : option CertIdentity;
}.

Record AgentTransition := mkAgentTransition {
  at_id : string;
  at_revision : Z;
  at_from : AgentWire;
  at_to : AgentWire;
  at_actor : string;
  at_at : instant;
  at_note : string;
}.

Definition tenant (value : string) : result AgentError unit :=
  if bool_decide (value = "") then Err ErrMalformed
  else refuse ((MaxTenantIDLength <? slen value) || negb (ValidIdentifier value)) ErrMalformed.

Definition platform (p : AgentPlatform) : result AgentError unit :=
  (within_length (pf_os p) MaxOperatingSystem;;
   within_length (pf_architecture p) MaxArchitectureLen;;
   within_length (pf_hostname p) MaxHostnameLength)%go.

Definition Register (asked : Registration) (actor : string) (at_ : instant)
    : result AgentError (AgentRecord * AgentTransition) :=
  if bool_decide (actor = "") then Err ErrAgentNoActor
  else if negb (AgentIDValid (rg_agent asked)) then Err ErrMalformed
  else match (tenant (rg_tenant asked);;
              within_length (rg_version asked) MaxVersionLength;;
              within_length (rg_note asked) MaxNoteLength;;
              platform (rg_platform asked))%go with
  | Err e => Err e
  | Ok _ =>
      let registered := mkAgentRecord (rg_agent asked) 1 (rg_tenant asked) (agent_Wire Pending)
        (rg_platform asked) (rg_version asked) at_ actor at_ 1 None in
      Ok (registered, mkAgentTransition (a_id registered) (a_revision registered)
            AGENT_UNSPECIFIED (a_state registered) actor at_ (rg_note asked))
  end.

(** ** Moves (move.go) *)

Record Asked := mkAsked { asked_presented : string; asked_request : string }.

Record AgentMove := mkAgentMove {
  am_to : AgentState;
  am_identity : option CertIdentity;
  am_note : string;
  am_actor : string;
  am_at : instant;
  am_authority : string;
  am_presented : string;
  am_request : string;
  am_bound : Asked;
  am_renewal : bool;
  am_expected : Z;
}.

Definition asksAgain (m : AgentMove) : bool :=
  negb (bool_decide (am_request m = "")) && bool_decide (am_request m = asked_request (am_bound m))
  && bool_decide (am_presented m = asked_presented (am_bound m)).

Definition agent_Apply (current : AgentRecord) (move : AgentMove)
    : result AgentError (AgentRecord * AgentTransition) :=
  match agent_FromWire (a_state current) with
  | None => Err ErrAgentStored
  | Some from =>
  if bool_decide (am_actor move = "") then Err ErrAgentNoActor
  else if negb (am_expected move =? 0) && negb (am_expected move =? a_revision current)
  then Err ErrAgentMoved
  else if negb (is_ok (within_length (am_note move) MaxNoteLength)) then Err ErrMalformed
  else
    let binding := bool_decide (is_Some (am_identity move)) in
    let changing := negb (bool_decide (am_to move = "")) && negb (bool_decide (am_to move = from)) in
    if negb (bool_decide (am_to move = "")) && negb (agent_Valid (am_to move))
    then Err ErrAgentUnknownState
    else if negb changing && negb binding then Err ErrAgentNothingAsked
    else if binding && Final from then Err ErrMalformedIdentity
    else if binding && am_renewal move && negb (Admits from) then Err ErrAgentIllegalMove
    else if binding && am_renewal move
            && negb (bool_decide (am_presented move = default "" (id_fingerprint <$> a_identity current)))
            && negb (asksAgain move)
    then Err ErrCertificateReplaced
    else if changing && negb (agent_Legal from (am_to move)) then Err ErrAgentIllegalMove
    else if changing && bool_decide (am_note move = "") then Err ErrAgentNeedsReason
    else match match am_identity move with
               | None => Ok tt
               | Some held => Bindable (a_id current) held (am_at move)
               end with
    | Err e => Err e
    | Ok _ =>
        let state := if binding && bool_decide (from = Pending) then agent_Wire Active
                     else a_state current in
        let state := if changing then agent_Wire (am_to move) else state in
        let moved := mkAgentRecord (a_id current) (a_schema current) (a_tenant current) state
          (a_platform current) (a_version current) (a_registered current) (am_actor move)
          (am_at move) (uint64 (a_revision current + 1))
          (match am_identity move with Some held => Some held | None => a_identity current end) in
        Ok (moved, mkAgentTransition (a_id moved) (a_revision moved) (a_state current)
                     (a_state moved) (am_actor move) (am_at move) (am_note move))
    end
  end.

Record AdmissionRecord := mkAdmission {
  ad_agent : string;
  ad_tenant : string;
  ad_state : AgentWire;
  ad_revision : Z;
  ad_changed_at : instant;
}.

Definition Admission (moved : AgentRecord) : AdmissionRecord :=
  mkAdmission (a_id moved) (a_tenant moved) (a_state moved) (a_revision moved) (a_changed_at moved).

(** ** Certificates (certificate.go) *)

Record CertificateRecord := mkCertificate {
  ce_agent : string;
  ce_identity : option CertIdentity;
  ce_authority : string;
  ce_issued_by : string;
}.

Definition Certificate (moved : AgentRecord) (move : AgentMove) : option CertificateRecord :=
  match am_identity move with
  | None => None
  | Some _ => Some (mkCertificate (a_id moved) (a_identity moved) (am_authority move) (am_actor move))
  end.

Definition Answering (move : AgentMove) : Asked :=
  if am_renewal move then mkAsked (am_presented move) (am_request move) else mkAsked "" "".

(** ** The roster (roster.go) *)

Record Decided := mkDecided { dc_admits : bool; dc_tenant : string; dc_revision : Z }.
#[global] Instance decided_eq_dec : EqDecision Decided.
Proof. solve_decision. Defined.

Abbreviation Roster := (gmap string Decided) (only parsing).

Definition NewRoster : Roster := ∅.

Definition roster_Apply (record : AdmissionRecord) (r : Roster) : Roster * option AgentError :=
  if bool_decide (ad_agent record = "") then (r, Some ErrMalformed)
  else match agent_FromWire (ad_state record) with
  | None => (r, Some ErrMalformed)
  | Some state =>
  match tenant (ad_tenant record) with
  | Err e => (r, Some e)
  | Ok _ =>
      let fresh := mkDecided (Admits state) (ad_tenant record) (ad_revision record) in
      match r !! ad_agent record with
      | None => (<[ad_agent record := fresh]> r, None)
      | Some held =>
          if ad_revision record <? dc_revision held then (r, None)
          else if (ad_revision record =? dc_revision held)
                  && negb (bool_decide (dc_admits held = Admits state))
          then (<[ad_agent record := mkDecided false "" (dc_revision held)]> r, Some ErrConflict)
          else if (ad_revision record =? dc_revision held)
                  && negb (bool_decide (dc_tenant held = ad_tenant record))
          then (<[ad_agent record := mkDecided false "" (dc_revision held)]> r, Some ErrConflict)
          else (<[ad_agent record := fresh]> r, None)
      end
  end
  end.

Definition Refuse (agentID : string) (r : Roster) : Roster :=
  if bool_decide (agentID = "") then r
  else let held := default (mkDecided false "" 0) (r !! agentID) in
       <[agentID := mkDecided false (dc_tenant held) (dc_revision held)]> r.

Definition roster_Tenant (agentID : string) (r : Roster) : option string :=
  match r !! agentID with
  | Some held => if dc_admits held then Some (dc_tenant held) else None
  | None => None
  end.

Definition Knows (agentID : string) (r : Roster) : bool := bool_decide (is_Some (r !! agentID)).
Definition Known (r : Roster) : Z := Z.of_nat (size r).
Definition RosterRefused (r : Roster) : Z :=
  map_fold (λ _ held n, if dc_admits held then n else n + 1) 0 r.

(** * What an agent may become and whom the data plane admits

    Theorems about Agent.v: the lifecycle, the certificates it binds and the
    roster a gateway keeps of what was published about each agent. *)


Lemma agent_FromWire_Wire s w : agent_FromWire w = Some s ↔ s ∈ agent_states ∧ agent_Wire s = w.
Proof.
  split.
  - intros Hf. unfold agent_FromWire in Hf. apply List.find_some in Hf as [Hin Hw].
    split; [by apply list_elem_of_In | by apply bool_decide_eq_true in Hw].
  - intros [Hin <-]. unfold agent_states in Hin.
    repeat (apply elem_of_cons in Hin as [->|Hin]; [reflexivity |]). by apply elem_of_nil in Hin.
Qed.

Lemma agent_Legal_to from to : agent_Legal from to = true → to ∈ agent_states ∧ Final from = false.
Proof.
  unfold agent_Legal, contains_elem, agent_moves, Final.
  repeat case_decide; subst; rewrite ?bool_decide_eq_true; intros Hin; try (by apply elem_of_nil in Hin);
    (split; [set_solver | done]).
Qed.

(** ** Moves *)

(** What an accepted move was and left. *)
Record agent_moved (current : AgentRecord) (move : AgentMove) (moved : AgentRecord) : Prop := {
  mo_id : a_id moved = a_id current ∧ a_tenant moved = a_tenant current;
  mo_revision : a_revision moved = uint64 (a_revision current + 1);
  mo_actor : am_actor move ≠ "" ∧ a_changed_by moved = am_actor move;
  mo_state : ∃ from to, agent_FromWire (a_state current) = Some from
    ∧ agent_FromWire (a_state moved) = Some to ∧ Final from = false
    ∧ (from = to ∨ agent_Legal from to = true ∧ am_note move ≠ ""
       ∨ from = Pending ∧ to = Active ∧ is_Some (am_identity move));
  mo_identity : ∀ held, am_identity move = Some held →
    a_identity moved = Some held ∧ Bindable (a_id current) held (am_at move) = Ok tt
    ∧ (am_renewal move = true →
         (∃ from, agent_FromWire (a_state current) = Some from ∧ Admits from = true)
         ∧ (am_presented move = default "" (id_fingerprint <$> a_identity current)
            ∨ asksAgain move = true));
  mo_kept : am_identity move = None → a_identity moved = a_identity current;
}.

Lemma renewal_granted (renewal presented again : bool) (P Q : Prop) (b : AgentState) (w : AgentWire) :
  agent_FromWire w = Some b → (presented = true → P) → (again = true → Q) →
  renewal && negb (Admits b) = false → renewal && negb presented && negb again = false →
  renewal = true → (∃ from, agent_FromWire w = Some from ∧ Admits from = true) ∧ (P ∨ Q).
Proof.
  intros Hw HP HQ H1 H2 ->. cbn in H1, H2. apply negb_false_iff in H1. split; [by exists b |].
  apply andb_false_iff in H2 as [H|H]; apply negb_false_iff in H; auto.
Qed.

Lemma agent_Apply_moved current move moved t :
  agent_Apply current move = Ok (moved, t) → agent_moved current move moved.
Proof.
  unfold agent_Apply. destruct (agent_FromWire (a_state current)) as [from|] eqn:Hfrom; [| done].
  case_bool_decide as Ha; [done |].
  destruct (negb (am_expected move =? 0) && _); [done |].
  destruct (negb (is_ok _)); [done |].
  destruct (_ && negb (agent_Valid (am_to move))); [done |].
  destruct (negb (bool_decide (am_to move = "")) && negb (bool_decide (am_to move = from))) eqn:Hch;
    cbn [negb andb]; (destruct (am_identity move) as [held|] eqn:Hid;
      [rewrite bool_decide_true by done | rewrite bool_decide_false by (by intros [])]); cbn [negb andb];
    [| | | done].
  - destruct (Final from) eqn:Hnf; [done |].
    destruct (am_renewal move && negb (Admits from)) eqn:Hadm; [done |].
    destruct (am_renewal move && negb _ && _) eqn:Hrep; [done |].
    destruct (agent_Legal from (am_to move)) eqn:Hl; [| done]. cbn [negb].
    destruct (bool_decide (am_note move = "")) eqn:Hnote; [done |].
    destruct (Bindable _ _ _) as [[]|] eqn:Hb; [| done]. intros [= <- <-].
    destruct (agent_Legal_to _ _ Hl) as [Hto _]. apply bool_decide_eq_false in Hnote.
    split; cbn [a_id a_tenant a_revision a_changed_by a_state a_identity]; try done.
    + exists from, (am_to move). split_and!; [done | by apply agent_FromWire_Wire | done | by right; left].
    + rewrite Hid. intros ? [= <-]. split_and!; [done | done |]. 
      eapply renewal_granted; [done | | | exact Hadm | exact Hrep]; [apply bool_decide_eq_true_1 | done].
    + by rewrite Hid.
  - destruct (agent_Legal from (am_to move)) eqn:Hl; [| done]. cbn [negb].
    destruct (bool_decide (am_note move = "")) eqn:Hnote; [done |]. intros [= <- <-].
    destruct (agent_Legal_to _ _ Hl) as [Hto Hnf]. apply bool_decide_eq_false in Hnote.
    split; cbn [a_id a_tenant a_revision a_changed_by a_state a_identity]; try done.
    + exists from, (am_to move). split_and!; [done | by apply agent_FromWire_Wire | done | by right; left].
    + by rewrite Hid.
  - destruct (Final from) eqn:Hnf; [done |].
    destruct (am_renewal move && negb (Admits from)) eqn:Hadm; [done |].
    destruct (am_renewal move && negb _ && _) eqn:Hrep; [done |].
    destruct (Bindable _ _ _) as [[]|] eqn:Hb; [| done]. intros [= <- <-]. split; cbn [a_id a_tenant a_revision a_changed_by a_state a_identity]; try done.
    + destruct (decide (from = Pending)) as [Hp|Hp].
      * rewrite bool_decide_true by done.
        exists from, Active. split_and!; [done | done | done |]. right. right. by rewrite Hid.
      * rewrite bool_decide_false by done. exists from, from. split_and!; [done | done | done | by left].
    + rewrite Hid. intros ? [= <-]. split_and!; [done | done |]. 
      eapply renewal_granted; [done | | | exact Hadm | exact Hrep]; [apply bool_decide_eq_true_1 | done].
    + by rewrite Hid.
Qed.

(** An accepted move of an agent is attributable, follows the lifecycle and
    binds only the agent's own certificate: it never leaves an ending, changes
    state along a legal edge with a reason or by giving a pending agent its first
    identity, binds only an identity that names the agent and has not expired, and
    grants a renewal only to an agent still admitted that presents the certificate
    bound to it or repeats the request that certificate answered. *)
Theorem an_agent_moves_by_its_lifecycle current move moved t :
  agent_Apply current move = Ok (moved, t) → agent_moved current move moved.
Proof. apply agent_Apply_moved. Qed.

(** Any acts on an agent, refused ones included. *)
Definition acts (moves : list AgentMove) (a : AgentRecord) : AgentRecord :=
  foldl (λ a m, match agent_Apply a m with Ok (moved, _) => moved | Err _ => a end) a moves.

(** Revoking and decommissioning have no way back: whatever is asked of an
    agent that is revoked or decommissioned, in whatever order, changes nothing
    of it. *)
Theorem an_ending_is_final a from moves :
  agent_FromWire (a_state a) = Some from → Final from = true → acts moves a = a.
Proof.
  intros Hf Hfin. induction moves as [|m moves IH]; [done |]. unfold acts in *. cbn [foldl].
  destruct (agent_Apply a m) as [[moved t]|e] eqn:Ha; [| done].
  apply agent_Apply_moved in Ha as [_ _ _ (from' & to & Hf' & _ & Hnf & _) _ _]. congruence.
Qed.

Definition web01 : Registration :=
  mkRegistration "web-01" "acme" "1.0.0" "" (mkAgentPlatform "linux" "amd64" "web-01").
Definition declare (to : AgentState) (expected : Z) : AgentMove :=
  mkAgentMove to None "maintenance" "operator" 10 "" "" "" (mkAsked "" "") false expected.

(** An agent can be declared active without ever having been given an
    identity: registered, disabled and enabled again it is active, is admitted by
    the data plane and holds no certificate, although a pending agent may not be
    declared active directly. *)
Theorem an_agent_is_declared_active registered t :
  Register web01 "operator" 5 = Ok (registered, t) →
  agent_Legal Pending Active = false
  ∧ a_state (acts [declare Disabled 1; declare Active 2] registered) = AGENT_ACTIVE
  ∧ a_identity (acts [declare Disabled 1; declare Active 2] registered) = None
  ∧ roster_Tenant "web-01"
      (roster_Apply (Admission (acts [declare Disabled 1; declare Active 2] registered)) NewRoster).1
    = Some "acme".
Proof.
  intros Hr. vm_compute in Hr. injection Hr as <- <-. split_and!; vm_compute; reflexivity.
Qed.

(** ** The roster *)

(** What a record says of an agent, when it is one the roster takes. *)
Definition opinion (a : string) (record : AdmissionRecord) : option Decided :=
  if bool_decide (ad_agent record = "") || negb (bool_decide (ad_agent record = a)) then None
  else match agent_FromWire (ad_state record), tenant (ad_tenant record) with
       | Some state, Ok _ => Some (mkDecided (Admits state) (ad_tenant record) (ad_revision record))
       | _, _ => None
       end.

(** Two decisions about one agent: the later, and neither when one revision was
    decided two ways. *)
Definition join (x y : Decided) : Decided :=
  if dc_revision y <? dc_revision x then x
  else if dc_revision x <? dc_revision y then y
  else if bool_decide (x = y) then y else mkDecided false "" (dc_revision x).

Definition join_opt (x y : option Decided) : option Decided :=
  match x, y with
  | Some x, Some y => Some (join x y)
  | Some x, None => Some x
  | None, y => y
  end.

Lemma join_comm x y : join x y = join y x.
Proof.
  unfold join. destruct (Z.ltb_spec (dc_revision y) (dc_revision x)),
    (Z.ltb_spec (dc_revision x) (dc_revision y)); try done; [lia |].
  repeat case_bool_decide; subst; try done. f_equal. lia.
Qed.

Lemma join_idem x : join x x = x.
Proof. unfold join. rewrite Z.ltb_irrefl. by rewrite bool_decide_true. Qed.

Lemma join_assoc x y z : join x (join y z) = join (join x y) z.
Proof.
  unfold join.
  repeat first [ progress cbn [dc_revision] | progress case_bool_decide | case_match ];
    to_prop; subst; try done; try lia; try congruence;
    try (f_equal; lia); exfalso; cbn in *; lia.
Qed.

Lemma join_opt_comm x y : join_opt x y = join_opt y x.
Proof. destruct x, y; cbn; try done. by rewrite join_comm. Qed.
Lemma join_opt_assoc x y z : join_opt x (join_opt y z) = join_opt (join_opt x y) z.
Proof. destruct x, y, z; cbn; try done. by rewrite join_assoc. Qed.
Lemma join_opt_idem x : join_opt x x = x.
Proof. destruct x; cbn; [by rewrite join_idem | done]. Qed.

Fixpoint verdict (a : string) (records : list AdmissionRecord) : option Decided :=
  match records with
  | [] => None
  | record :: records => join_opt (opinion a record) (verdict a records)
  end.

Lemma verdict_app a l1 l2 : verdict a (l1 ++ l2) = join_opt (verdict a l1) (verdict a l2).
Proof.
  induction l1 as [|x l1 IH]; [done |]. cbn [app verdict]. by rewrite IH, join_opt_assoc.
Qed.

Lemma verdict_absorbs a x l : x ∈ l → join_opt (opinion a x) (verdict a l) = verdict a l.
Proof.
  induction 1 as [x l|x y l _ IH]; cbn.
  - by rewrite join_opt_assoc, join_opt_idem.
  - rewrite join_opt_assoc, (join_opt_comm (opinion a x)), <- join_opt_assoc. by rewrite IH.
Qed.

Lemma verdict_absorbs_all a l1 l2 : (∀ x, x ∈ l1 → x ∈ l2) → verdict a (l1 ++ l2) = verdict a l2.
Proof.
  induction l1 as [|x l1 IH]; intros Hsub; [done |]. cbn.
  rewrite IH by (intros; apply Hsub; by right). apply verdict_absorbs, Hsub. left.
Qed.

Lemma verdict_same a l1 l2 : (∀ x, x ∈ l1 ↔ x ∈ l2) → verdict a l1 = verdict a l2.
Proof.
  intros Hsame. trans (verdict a (l2 ++ l1)).
  { symmetry. apply verdict_absorbs_all. intros; by apply Hsame. }
  rewrite verdict_app, join_opt_comm, <- verdict_app.
  apply verdict_absorbs_all. intros; by apply Hsame.
Qed.

(** The roster after a log of records, those it refuses included. *)
Definition read_log (records : list AdmissionRecord) : Roster :=
  foldl (λ r record, (roster_Apply record r).1) NewRoster records.

(** A record moves only its own agent's entry, to the join of the two. *)
Lemma roster_Apply_lookup record r a :
  (roster_Apply record r).1 !! a = join_opt (r !! a) (opinion a record).
Proof.
  unfold roster_Apply, opinion. case_bool_decide as He; cbn [orb fst]; [by destruct (r !! a) |].
  destruct (agent_FromWire (ad_state record)) as [state|]; [| cbn [fst]; by destruct (negb _), (r !! a)].
  destruct (tenant (ad_tenant record)) as [[]|]; [| cbn [fst]; by destruct (negb _), (r !! a)].
  case_bool_decide as Ha; cbn [negb].
  - rewrite <- Ha. destruct (r !! ad_agent record) as [held|] eqn:Hh; cbn [join_opt];
      [| cbn; by rewrite lookup_insert_eq].
    unfold join. cbn [dc_revision].
    destruct (Z.ltb_spec (ad_revision record) (dc_revision held)); [cbn [fst]; by rewrite Hh |].
    destruct (Z.eqb_spec (ad_revision record) (dc_revision held)) as [Hr|Hr]; cbn [andb].
    + rewrite (proj2 (Z.ltb_ge _ _)) by lia.
      destruct held as [ha ht hr]; cbn in *.
      case_bool_decide as H1; cbn [negb]; [case_bool_decide as H2; cbn [negb] |];
        cbn; rewrite lookup_insert_eq; case_bool_decide as H3; simplify_eq; done.
    + rewrite (proj2 (Z.ltb_lt _ _)) by lia. cbn. by rewrite lookup_insert_eq.
  - destruct (r !! ad_agent record) as [held|]; repeat case_match; cbn;
      rewrite ?lookup_insert_ne by done; by destruct (r !! a).
Qed.

Lemma read_log_verdict records a : read_log records !! a = verdict a records.
Proof.
  induction records as [|x records IH] using rev_ind; [done |].
  unfold read_log in *. rewrite foldl_snoc, roster_Apply_lookup, IH, verdict_app. cbn.
  by destruct (opinion a x).
Qed.

(** Gateways agree however the log reached them: two logs that hold the same
    admission records, in any order and repeated any number of times, leave the
    same roster. *)
Theorem rosters_converge log1 log2 :
  (∀ record, record ∈ log1 ↔ record ∈ log2) → read_log log1 = read_log log2.
Proof. intros Hsame. apply map_eq. intros a. rewrite !read_log_verdict. by apply verdict_same. Qed.

Lemma join_admits x y :
  dc_admits (join x y) = true →
  (join x y = x ∨ join x y = y)
  ∧ dc_revision x ≤ dc_revision (join x y) ∧ dc_revision y ≤ dc_revision (join x y)
  ∧ (dc_revision x = dc_revision (join x y) → x = join x y)
  ∧ (dc_revision y = dc_revision (join x y) → y = join x y).
Proof.
  unfold join. destruct (Z.ltb_spec (dc_revision y) (dc_revision x)); [intros; split_and!; auto; lia |].
  destruct (Z.ltb_spec (dc_revision x) (dc_revision y)); [intros; split_and!; auto; lia |].
  case_bool_decide; [| done]. subst. intros. split_and!; auto; lia.
Qed.

Lemma verdict_admits a records d :
  verdict a records = Some d → dc_admits d = true →
  ∀ record o, record ∈ records → opinion a record = Some o →
    dc_revision o ≤ dc_revision d ∧ (dc_revision o = dc_revision d → o = d).
Proof.
  intros Hv Hd record o Hin Ho. pose proof (verdict_absorbs a record records Hin) as Habs.
  rewrite Ho, Hv in Habs. cbn in Habs. injection Habs as Hj.
  destruct (join_admits o d) as (_ & Hr & _ & He & _); [by rewrite Hj |].
  rewrite Hj in Hr, He. auto.
Qed.

Lemma verdict_elem a records d :
  verdict a records = Some d → dc_admits d = true →
  ∃ record, record ∈ records ∧ opinion a record = Some d.
Proof.
  revert d. induction records as [|x records IH]; intros d Hv Hd; [done |]. cbn in Hv.
  destruct (opinion a x) as [o|] eqn:Ho.
  - destruct (verdict a records) as [v|] eqn:Hvr; cbn in Hv; simplify_eq.
    + destruct (join_admits o v Hd) as ([He|He] & _).
      * exists x. split; [left | by rewrite He].
      * destruct (IH v eq_refl) as (rec & Hin & Hrec); [by rewrite <- He |].
        exists rec. split; [by right | by rewrite He].
    + exists x. split; [left | done].
  - destruct (IH d Hv Hd) as (rec & Hin & Hrec). exists rec. split; [by right | done].
Qed.

(** The data plane admits an agent only by the newest decision about it: when
    a gateway takes an agent's telemetry into a tenant, some record of the log
    says so, no readable record about that agent carries a later revision, and
    every one that carries the same revision says exactly the same. *)
Theorem admission_is_the_newest_decision log a t :
  roster_Tenant a (read_log log) = Some t →
  ∃ record revision, record ∈ log ∧ opinion a record = Some (mkDecided true t revision)
    ∧ ∀ other o, other ∈ log → opinion a other = Some o →
        dc_revision o ≤ revision ∧ (dc_revision o = revision → o = mkDecided true t revision).
Proof.
  unfold roster_Tenant. rewrite read_log_verdict.
  destruct (verdict a log) as [[adm ten rev]|] eqn:Hv; [| done]. cbn.
  destruct adm; [| done]. intros [= ->].
  destruct (verdict_elem a log _ Hv eq_refl) as (record & Hin & Ho). exists record, rev.
  split_and!; [done | done |]. intros other o Hother Hoo.
  by apply (verdict_admits a log _ Hv eq_refl other o).
Qed.

(** What cannot be read is not admitted: an agent whose record a gateway
    could not read is refused from then on, whatever it was, and the records that
    were already applied, or are older, do not bring it back. *)
Theorem an_unreadable_decision_stops_admission a r record :
  a ≠ "" → ad_agent record = a →
  (∀ held, r !! a = Some held → ad_revision record ≤ dc_revision held) → is_Some (r !! a) →
  roster_Tenant a (Refuse a r) = None
  ∧ roster_Tenant a (roster_Apply record (Refuse a r)).1 = None.
Proof.
  intros Ha Hrec Hold [held Hh]. specialize (Hold held Hh).
  assert (Refuse a r !! a = Some (mkDecided false (dc_tenant held) (dc_revision held))) as Hlk.
  { unfold Refuse. rewrite bool_decide_false, Hh by done. apply lookup_insert_eq. }
  unfold roster_Tenant. split; [by rewrite Hlk |].
  rewrite roster_Apply_lookup, Hlk. destruct (opinion a record) as [o|] eqn:Ho; [| done]. cbn.
  assert (dc_revision o = ad_revision record) as Hro.
  { unfold opinion in Ho. repeat case_match; by simplify_eq. }
  unfold join. cbn [dc_revision]. destruct (Z.ltb_spec (dc_revision o) (dc_revision held)); [done |].
  rewrite (proj2 (Z.ltb_ge _ _)) by lia. case_bool_decide as He; [| done]. by rewrite <- He.
Qed.
