(* ===== verification/Trust.v ===== *)
(** * Update metadata: what authorizes an agent update

    agentupdate/update.go, root.go, catalog.go and publish.go, with the DSSE
    encoding of agentpolicy/policy.go: the root that names the keys of both roles
    and how many of them must agree, the catalog of releases agents may install,
    and what an operator publishes and assigns.

    SHA-256, ECDSA and the DER of keys are [Signing]; the wire format of the
    messages is [UpdateWire]. A timestamp is present when it is set and valid, a
    nested message that is nil reads as its zero fields. *)

From Stdlib Require Import ZArith Lia Ascii Floats.SpecFloat.
From stdpp Require Import base tactics option gmap strings pretty sorting numbers list sets.
From S2P Require Import Prelude Text Scan Version Hex Rule Contract Bytes Agent.


Definition SchemaVersion : Z := 1.
Definition RootPayloadType : string := "application/vnd.seagull.update.v1.root+protobuf".
Definition CatalogPayloadType : string := "application/vnd.seagull.update.v1.catalog+protobuf".
Definition MaxPayloadBytes : Z := 2 ^ 20.
Definition MaxEnvelopeBytes : Z := MaxPayloadBytes + 16 * 2 ^ 10.
Definition MaxSignatures : Z := 16.
Definition MaxRootKeys : Z := 16.
Definition MaxRoleKeys : Z := 8.
Definition MaxReleases : Z := 256.
Definition MaxReplaced : Z := 16.
Definition MaxPackageBytes : Z := 256 * 2 ^ 20.
Definition MaxPlatformLength : Z := 32.
Definition MaxRepositoryLength : Z := 256.
Definition MaxRoots : Z := 64.
Definition MaxNoteBytes : Z := 512.
Definition MaxVersion : Z := 2 ^ 63 - 1.
Definition MaxLifetime : duration := 366 * 24 * hour.
Definition MaxAhead : duration := 5 * minute.
Definition MaxAssignedAgents : Z := 10000.
Definition MaxAgentIDLength : Z := 64.

Inductive UpdateError :=
| ErrUnsigned | ErrMalformedUpdate | ErrExpired | ErrRoot | ErrStale | ErrNoActor
| ErrRolloutUnknown | ErrRolloutState | ErrUnencodable | ErrNotSigned | ErrDraw.
#[global] Instance UpdateError_eq_dec : EqDecision UpdateError.
Proof. solve_decision. Defined.

(** ** Messages (the update contract) *)

Record Signature := mkSignature { sg_sig : string; sg_keyid : string }.

Record Envelope := mkEnvelope {
  env_payload : string;
  env_payload_type : string;
  env_signatures : list Signature;
}.

Record NamedKey := mkNamedKey { nk_keyid : string; nk_public_key : string }.

Record KeyRole := mkKeyRole { rl_keyids : list string; rl_threshold : Z }.

Record RootMessage := mkRootMessage {
  rm_schema_version : Z;
  rm_version : Z;
  rm_issued_at : option instant;
  rm_expires_at : option instant;
  rm_keys : list NamedKey;
  rm_root : option KeyRole;
  rm_catalog : option KeyRole;
}.

Record UpdatePlatform := mkUpdatePlatform { up_os : string; up_architecture : string; up_format : Z }.

Record Release := mkRelease {
  rs_version : string;
  rs_platform : UpdatePlatform;
  rs_sha256 : string;
  rs_size : Z;
  rs_repository : string;
  rs_revision : string;
  rs_minimum_version : string;
  rs_state_generation : Z;
  rs_replaces : list string;
}.

Record CatalogMessage := mkCatalogMessage {
  cm_schema_version : Z;
  cm_version : Z;
  cm_issued_at : option instant;
  cm_expires_at : option instant;
  cm_releases : list Release;
}.

(** What an agent is handed, before it is encoded. *)
Record OfferMessage := mkOffer {
  of_version : string;
  of_roots : list Envelope;
  of_catalog : option Envelope;
}.

(** A nil role reads as one with no keys and no threshold. *)
Definition GetKeyids (role : option KeyRole) : list string :=
  match role with Some r => rl_keyids r | None => [] end.
Definition GetThreshold (role : option KeyRole) : Z :=
  match role with Some r => rl_threshold r | None => 0 end.

(** ** What the packages call *)

(** Hashing, verification, and reading a DER key: [None] when it does not parse,
    [Some None] when it is not ECDSA over P-256. *)
Class Signing := {
  PublicKey : Type;
  sha256 : string → string;
  VerifyASN1 : PublicKey → string → string → bool;
  ParsePKIXPublicKey : string → option (option PublicKey);
}.

(** The wire format: decoding answers the message and its reflection, encoding
    may fail; a package format the contract declares has a name. *)
Class UpdateWire := {
  unmarshal_envelope : string → option Envelope;
  marshal_envelope : Envelope → option string;
  unmarshal_root : string → option (RootMessage * Proto);
  unmarshal_catalog : string → option (CatalogMessage * Proto);
  marshal_offer : OfferMessage → option string;
  Format_name : Z → string;
}.

(** Unsigned fields decode to unsigned numbers. *)
Class UpdateWireLaws (wire : UpdateWire) : Prop := {
  root_unsigned payload root reflected :
    unmarshal_root payload = Some (root, reflected) →
    0 ≤ rm_version root ∧ 0 ≤ GetThreshold (rm_root root) ∧ 0 ≤ GetThreshold (rm_catalog root);
  catalog_unsigned payload catalog reflected :
    unmarshal_catalog payload = Some (catalog, reflected) → 0 ≤ cm_version catalog;
}.

(** ** DSSE's pre-authentication encoding (agentpolicy/policy.go) *)

Definition PAE (payloadType payload : string) : string :=
  "DSSEv1 " +:+ pretty (String.length payloadType) +:+ " " +:+ payloadType +:+ " "
  +:+ pretty (String.length payload) +:+ " " +:+ payload.

Section update.
Context {signing : Signing} {wire : UpdateWire}.

Definition KeyID (der : string) : string := hex_encode (sha256 der).
Definition UpdateDigest (served : string) : string := hex_encode (sha256 served).

(** ** Signatures (update.go) *)

(** One signature against the keys of the role: a key counts once. *)
Definition count_signature (keys : gmap string PublicKey) (ids : list string) (digest : string)
    (signed : list string) (signature : Signature) : list string :=
  foldl (λ signed id,
    match keys !! id with
    | Some key =>
        if negb (contains_elem signed id) && VerifyASN1 key digest (sg_sig signature)
        then signed ++ [id] else signed
    | None => signed
    end) signed ids.

Definition signedBy (keys : gmap string PublicKey) (role : option KeyRole) (payloadType : string)
    (envelope : Envelope) : result UpdateError (list string) :=
  (refuse (negb (bool_decide (env_payload_type envelope = payloadType))) ErrMalformedUpdate ;;
   refuse (bool_decide (env_payload envelope = "")) ErrMalformedUpdate ;;
   refuse (MaxPayloadBytes <? slen (env_payload envelope)) ErrMalformedUpdate ;;
   refuse (bool_decide (env_signatures envelope = [])) ErrUnsigned ;;
   refuse (MaxSignatures <? len (env_signatures envelope)) ErrMalformedUpdate ;;
   let digest := sha256 (PAE payloadType (env_payload envelope)) in
   let signed := foldl (count_signature keys (GetKeyids role) digest) [] (env_signatures envelope) in
   refuse (wrap_uint 32 (len signed) <? GetThreshold role) ErrUnsigned ;;
   Ok (sort_strings signed))%go.

Definition Encode (envelope : Envelope) : result UpdateError string :=
  match marshal_envelope envelope with
  | None => Err ErrMalformedUpdate
  | Some served => if MaxEnvelopeBytes <? slen served then Err ErrMalformedUpdate else Ok served
  end.

Definition decode (served : string) : result UpdateError Envelope :=
  if MaxEnvelopeBytes <? slen served then Err ErrMalformedUpdate
  else match unmarshal_envelope served with
       | None => Err ErrMalformedUpdate
       | Some envelope => Ok envelope
       end.

(** ** Roots (root.go) *)

Record Root := mkRoot {
  root_message : RootMessage;
  root_served : string;
  root_keys : gmap string PublicKey;
  root_signedBy : list string;
}.

Definition root_Version (r : Root) : Z := rm_version (root_message r).
Definition root_ExpiresAt (r : Root) : option instant := rm_expires_at (root_message r).

(** [AsTime] of a nil timestamp is the Unix epoch, this long after Go's zero. *)
Definition AsTime (stamp : option instant) : instant := default (62135596800 * second) stamp.

Definition root_Expired (r : Root) (at_ : instant) : bool :=
  negb (before at_ (AsTime (root_ExpiresAt r))).

Definition lifetime (issued expires : option instant) (now : instant) : result UpdateError unit :=
  match issued, expires with
  | Some issued, Some expires =>
      if after issued (time_add now MaxAhead) then Err ErrMalformedUpdate
      else if negb (after expires issued) then Err ErrMalformedUpdate
      else refuse (MaxLifetime <? time_sub expires issued) ErrMalformedUpdate
  | _, _ => Err ErrMalformedUpdate
  end.

Fixpoint hold_keys (keys : gmap string PublicKey) (named : list NamedKey)
    : result UpdateError (gmap string PublicKey) :=
  match named with
  | [] => Ok keys
  | key :: named =>
      let id := nk_keyid key in
      if negb (bool_decide (id = KeyID (nk_public_key key))) then Err ErrMalformedUpdate
      else if bool_decide (is_Some (keys !! id)) then Err ErrMalformedUpdate
      else match ParsePKIXPublicKey (nk_public_key key) with
           | Some (Some public) => hold_keys (<[id := public]> keys) named
           | _ => Err ErrMalformedUpdate
           end
  end.

Definition publicKeys (named : list NamedKey) : result UpdateError (gmap string PublicKey) :=
  if (len named =? 0) || (MaxRootKeys <? len named) then Err ErrMalformedUpdate
  else hold_keys ∅ named.

Definition role (held : option KeyRole) (keys : gmap string PublicKey) : result UpdateError unit :=
  match held with
  | None => Err ErrMalformedUpdate
  | Some held =>
      let ids := rl_keyids held in
      if (len ids =? 0) || (MaxRoleKeys <? len ids) then Err ErrMalformedUpdate
      else if (rl_threshold held =? 0) || (wrap_uint 32 (len ids) <? rl_threshold held)
      then Err ErrMalformedUpdate
      else each (λ index id,
        (refuse (negb (bool_decide (is_Some (keys !! id)))) ErrMalformedUpdate ;;
         refuse (contains_elem (take index ids) id) ErrMalformedUpdate)%go) ids
  end.

Definition decodeRoot (payload : string) (now : instant)
    : result UpdateError (RootMessage * gmap string PublicKey) :=
  match unmarshal_root payload with
  | None => Err ErrMalformedUpdate
  | Some (root, reflected) =>
      (refuse (negb (known_message reflected)) ErrMalformedUpdate ;;
       refuse (negb (rm_schema_version root =? SchemaVersion)) ErrMalformedUpdate ;;
       refuse ((rm_version root =? 0) || (MaxVersion <? rm_version root)) ErrMalformedUpdate ;;
       lifetime (rm_issued_at root) (rm_expires_at root) now ;;
       keys ← publicKeys (rm_keys root);
       role (rm_root root) keys ;;
       role (rm_catalog root) keys ;;
       Ok (root, keys))%go
  end.

(** Whatever is wrong with the root a platform is configured with is the one
    error of a root that is not usable. *)
Definition as_root_error {A} (r : result UpdateError A) : result UpdateError A :=
  match r with Ok a => Ok a | Err _ => Err ErrRoot end.

Definition Anchor (served : string) (now : instant) : result UpdateError Root :=
  as_root_error
    (envelope ← decode served;
     refuse (negb (bool_decide (env_payload_type envelope = RootPayloadType))) ErrRoot ;;
     rk ← decodeRoot (env_payload envelope) now;
     signed ← signedBy rk.2 (rm_root rk.1) RootPayloadType envelope;
     encoded ← Encode envelope;
     Ok (mkRoot rk.1 encoded rk.2 signed))%go.

Definition Next (r : Root) (envelope : Envelope) (now : instant) : result UpdateError Root :=
  (before ← signedBy (root_keys r) (rm_root (root_message r)) RootPayloadType envelope;
   rk ← decodeRoot (env_payload envelope) now;
   refuse (rm_version rk.1 <=? root_Version r) ErrStale ;;
   refuse (negb (rm_version rk.1 =? wrap_uint 64 (root_Version r + 1))) ErrMalformedUpdate ;;
   after ← signedBy rk.2 (rm_root rk.1) RootPayloadType envelope;
   encoded ← Encode envelope;
   Ok (mkRoot rk.1 encoded rk.2 (compact (sort_strings (before ++ after)))))%go.

Fixpoint Walk (r : Root) (served : list string) (now : instant) : result UpdateError Root :=
  match served with
  | [] => Ok r
  | encoded :: served =>
      (envelope ← decode encoded; next ← Next r envelope now; Walk next served now)%go
  end.

End update.

(** * What update metadata proves: thresholds, roots and the chain between them *)


(** ** The pre-authentication encoding *)

Lemma string_app_cancel (a r1 r2 : string) : a +:+ r1 = a +:+ r2 → r1 = r2.
Proof. intros H. by apply string_app_inj in H as [_ ->]. Qed.

(** A length, a space and that many bytes are read back one way. *)
Lemma counted_inj (s1 s2 r1 r2 : string) :
  pretty (String.length s1) +:+ " " +:+ s1 +:+ r1 = pretty (String.length s2) +:+ " " +:+ s2 +:+ r2 →
  s1 = s2 ∧ r1 = r2.
Proof.
  intros H. apply (split_at " "%char) in H as [Hl H];
    [| by eapply (free_of_made _ digit), pretty_nat_digits
     | by eapply (free_of_made _ digit), pretty_nat_digits].
  apply (inj pretty) in Hl. by apply string_app_inj in H.
Qed.

(** Two payloads are encoded alike only when they are one payload under one
    type: a signature over one cannot stand for another. *)
Theorem signed_bytes_tell_payloads_apart t1 p1 t2 p2 :
  PAE t1 p1 = PAE t2 p2 ↔ t1 = t2 ∧ p1 = p2.
Proof.
  split; [| by intros [-> ->]]. unfold PAE. intros H%string_app_cancel.
  apply counted_inj in H as [-> H]. apply (string_app_cancel " ") in H.
  destruct (counted_inj p1 p2 "" "") as [-> _]; [by rewrite !string_app_empty_r | done].
Qed.

Lemma NoDup_by_prefix {A} `{EqDecision A} (l : list A) :
  (∀ j x, l !! j = Some x → x ∉ take j l) → NoDup l.
Proof.
  intros H. apply NoDup_alt. intros i j x Hi Hj.
  destruct (Nat.lt_trichotomy i j) as [Hlt|[->|Hlt]]; [exfalso | done | exfalso].
  - apply (H j x Hj), list_elem_of_lookup. exists i. by rewrite lookup_take_lt.
  - apply (H i x Hi), list_elem_of_lookup. exists j. by rewrite lookup_take_lt.
Qed.

Lemma length_sort_strings l : len (sort_strings l) = len l.
Proof. unfold len. by rewrite sort_strings_perm. Qed.

Section trust.
Context {signing : Signing} {wire : UpdateWire}.

(** ** Thresholds *)

(** A key of the root made one of the signatures. *)
Definition vouched (keys : gmap string PublicKey) (digest : string) (signatures : list Signature)
    (id : string) : Prop :=
  ∃ key, keys !! id = Some key ∧ Exists (λ s, VerifyASN1 key digest (sg_sig s) = true) signatures.

#[global] Instance vouched_dec keys digest signatures id : Decision (vouched keys digest signatures id).
Proof.
  unfold vouched. destruct (keys !! id) as [key|]; [| right; naive_solver].
  destruct (decide (Exists (λ s, VerifyASN1 key digest (sg_sig s) = true) signatures));
    [left; eauto | right; naive_solver].
Defined.

Lemma count_signature_spec keys ids digest signed signature :
  NoDup signed →
  NoDup (count_signature keys ids digest signed signature) ∧
  ∀ id, id ∈ count_signature keys ids digest signed signature ↔
    id ∈ signed ∨ id ∈ ids ∧ vouched keys digest [signature] id.
Proof.
  unfold count_signature. revert signed. induction ids as [|i ids IH]; intros signed Hnd; cbn [foldl].
  { split; [done |]. set_solver. }
  assert (∀ key, keys !! i = Some key →
    (vouched keys digest [signature] i ↔ VerifyASN1 key digest (sg_sig signature) = true)) as Hv.
  { intros key Hkey. unfold vouched. setoid_rewrite Exists_cons. setoid_rewrite Exists_nil. naive_solver. }
  destruct (keys !! i) as [key|] eqn:Hkey.
  - specialize (Hv key eq_refl). unfold contains_elem.
    destruct (bool_decide_reflect (i ∈ signed)) as [Hin|Hin]; cbn [negb andb].
    { destruct (IH signed Hnd) as [H1 H2]. split; [done |]. intros id. rewrite H2, elem_of_cons.
      destruct (decide (id = i)) as [->|]; naive_solver. }
    destruct (VerifyASN1 key digest (sg_sig signature)) eqn:Hok.
    + destruct (IH (signed ++ [i])) as [H1 H2].
      { apply NoDup_app. split_and!; [done | | apply NoDup_singleton].
        intros x Hx ->%list_elem_of_singleton. done. }
      split; [done |]. intros id. rewrite H2, elem_of_app, list_elem_of_singleton, elem_of_cons. naive_solver.
    + destruct (IH signed Hnd) as [H1 H2]. split; [done |]. intros id. rewrite H2, elem_of_cons. naive_solver.
  - destruct (IH signed Hnd) as [H1 H2]. split; [done |]. intros id. rewrite H2, elem_of_cons.
    assert (¬ vouched keys digest [signature] i) by (intros (? & ? & _); congruence).
    clear -H. naive_solver.
Qed.

Lemma vouched_cons keys digest s signatures id :
  vouched keys digest (s :: signatures) id ↔
  vouched keys digest [s] id ∨ vouched keys digest signatures id.
Proof. unfold vouched. setoid_rewrite Exists_cons. setoid_rewrite Exists_nil. naive_solver. Qed.

Lemma count_signatures_spec keys ids digest signatures signed :
  NoDup signed →
  let counted := foldl (count_signature keys ids digest) signed signatures in
  NoDup counted ∧ ∀ id, id ∈ counted ↔ id ∈ signed ∨ id ∈ ids ∧ vouched keys digest signatures id.
Proof.
  revert signed. induction signatures as [|s l IH]; intros signed Hnd; cbn [foldl].
  { split; [done |]. intros id. unfold vouched. setoid_rewrite Exists_nil. naive_solver. }
  destruct (count_signature_spec keys ids digest signed s Hnd) as [H1 H2].
  destruct (IH _ H1) as [H3 H4]. split; [done |]. intros id. rewrite H4, H2, (vouched_cons _ _ s l). naive_solver.
Qed.

(** The keys of a role that signed, each once, in order. *)
Definition signers (keys : gmap string PublicKey) (role : option KeyRole) (payloadType : string)
    (envelope : Envelope) : list string :=
  sort_strings (filter (vouched keys (sha256 (PAE payloadType (env_payload envelope))) (env_signatures envelope))
    (remove_dups (GetKeyids role))).

(** An envelope fit to be checked at all. *)
Definition checkable (payloadType : string) (envelope : Envelope) : Prop :=
  env_payload_type envelope = payloadType ∧ env_payload envelope ≠ ""
  ∧ slen (env_payload envelope) ≤ MaxPayloadBytes
  ∧ env_signatures envelope ≠ [] ∧ len (env_signatures envelope) ≤ MaxSignatures.

Lemma counted_signers keys role payloadType envelope :
  sort_strings (foldl (count_signature keys (GetKeyids role) (sha256 (PAE payloadType (env_payload envelope))))
    [] (env_signatures envelope)) = signers keys role payloadType envelope.
Proof.
  set (digest := sha256 _).
  destruct (count_signatures_spec keys (GetKeyids role) digest (env_signatures envelope) []) as [H1 H2];
    [constructor |]. cbv zeta in H1, H2.
  apply sort_strings_unique, NoDup_Permutation; [done | apply NoDup_filter, NoDup_remove_dups |].
  intros id. rewrite H2, list_elem_of_filter, elem_of_remove_dups. subst digest. set_solver.
Qed.

Lemma signers_bound keys role payloadType envelope :
  len (signers keys role payloadType envelope) ≤ len (GetKeyids role).
Proof.
  unfold signers. rewrite length_sort_strings. unfold len.
  apply inj_le, submseteq_length, NoDup_submseteq; [apply NoDup_filter, NoDup_remove_dups |].
  intros id [_ Hid]%list_elem_of_filter. by rewrite elem_of_remove_dups in Hid.
Qed.

Lemma a_threshold_ok keys role payloadType envelope signed :
  len (GetKeyids role) < 2 ^ 32 →
  signedBy keys role payloadType envelope = Ok signed ↔
  checkable payloadType envelope ∧ signed = signers keys role payloadType envelope
  ∧ GetThreshold role ≤ len signed.
Proof.
  intros Hids. pose proof (counted_signers keys role payloadType envelope) as Hc.
  pose proof (signers_bound keys role payloadType envelope) as Hb.
  unfold signedBy, checkable. cbv zeta. rewrite !refuse_bind_ok, Hc.
  rewrite <- (length_sort_strings (foldl _ _ _)), Hc, wrap_uint_small
    by (pose proof (len_nonneg (signers keys role payloadType envelope)); lia).
  rewrite negb_false_iff, !bool_decide_eq_false, bool_decide_eq_true, !Z.ltb_ge. naive_solver.
Qed.

(** A signature check answers exactly the distinct keys of the role that signed
    the payload, and only when there are as many as the role asks for. *)
Theorem a_threshold_is_distinct_keys keys role payloadType envelope signed :
  len (GetKeyids role) < 2 ^ 32 →
  signedBy keys role payloadType envelope = Ok signed ↔
  checkable payloadType envelope ∧ signed = signers keys role payloadType envelope
  ∧ GetThreshold role ≤ len signed.
Proof. apply a_threshold_ok. Qed.

(** ** Roots *)

Context {laws : UpdateWireLaws wire}.

(** A role asks for between one signature and one of each of its keys, all of
    them held by the root. *)
Definition sound_role (keys : gmap string PublicKey) (held : option KeyRole) : Prop :=
  is_Some held ∧ NoDup (GetKeyids held) ∧ 1 ≤ GetThreshold held ≤ len (GetKeyids held)
  ∧ len (GetKeyids held) ≤ MaxRoleKeys ∧ ∀ id, id ∈ GetKeyids held → is_Some (keys !! id).

Definition sound_root (r : Root) : Prop :=
  1 ≤ root_Version r ≤ MaxVersion
  ∧ sound_role (root_keys r) (rm_root (root_message r))
  ∧ sound_role (root_keys r) (rm_catalog (root_message r)).

Lemma role_ok held keys : 0 ≤ GetThreshold held → role held keys = Ok tt → sound_role keys held.
Proof.
  unfold role. destruct held as [held|]; [| done]. cbn [GetThreshold]. cbv zeta. intros Ht.
  destruct (_ || _) eqn:Hlen; [done |].
  destruct ((rl_threshold held =? 0) || _) eqn:Hth; [done |]. to_prop. rewrite each_ok. intros Hids.
  unfold sound_role. cbn [GetKeyids GetThreshold]. pose proof (len_nonneg (rl_keyids held)).
  rewrite wrap_uint_small in * by (unfold MaxRoleKeys in *; lia).
  split_and!; [done | | lia | lia | lia |].
  - apply NoDup_by_prefix. intros j x Hx. specialize (Hids j x Hx). peel.
    unfold contains_elem in Hids. by to_prop.
  - intros id [j Hj]%list_elem_of_lookup. specialize (Hids j id Hj). peel. by to_prop.
Qed.

Lemma decodeRoot_ok payload now root keys :
  decodeRoot payload now = Ok (root, keys) →
  1 ≤ rm_version root ≤ MaxVersion ∧ sound_role keys (rm_root root) ∧ sound_role keys (rm_catalog root).
Proof.
  unfold decodeRoot. destruct (unmarshal_root payload) as [[m reflected]|] eqn:Hm; [| done].
  apply root_unsigned in Hm as (Hv & Ht1 & Ht2). intros H. peel. simplify_eq.
  repeat match goal with u : unit |- _ => destruct u end. to_prop.
  split_and!; [lia | lia | by apply role_ok | by apply role_ok].
Qed.

Lemma Anchor_sound served now r : Anchor served now = Ok r → sound_root r.
Proof.
  unfold Anchor, as_root_error. destruct (_ ≫= _) as [r'|] eqn:H; [| done]. intros [= ->].
  peel. destruct a1 as [m keys]. by apply decodeRoot_ok in Hstep1.
Qed.

(** What one root says of the next: enough of the keys of each, under its own
    root role, signed the one payload the next was read from. *)
Definition endorses (keys : gmap string PublicKey) (held : option KeyRole) (envelope : Envelope) : Prop :=
  checkable RootPayloadType envelope
  ∧ GetThreshold held ≤ len (signers keys held RootPayloadType envelope).

Definition succeeds (now : instant) (r next : Root) : Prop :=
  root_Version next = root_Version r + 1 ∧ sound_root next
  ∧ ∃ envelope,
      decodeRoot (env_payload envelope) now = Ok (root_message next, root_keys next)
      ∧ endorses (root_keys r) (rm_root (root_message r)) envelope
      ∧ endorses (root_keys next) (rm_root (root_message next)) envelope.

Lemma sound_role_keys keys held : sound_role keys held → len (GetKeyids held) < 2 ^ 32.
Proof. unfold sound_role, MaxRoleKeys. lia. Qed.

Lemma signedBy_endorses keys held envelope signed :
  sound_role keys held → signedBy keys held RootPayloadType envelope = Ok signed →
  endorses keys held envelope.
Proof.
  intros Hs%sound_role_keys H. apply a_threshold_ok in H as (? & -> & ?); done.
Qed.

Lemma Next_ok r envelope now next :
  sound_root r → Next r envelope now = Ok next → succeeds now r next.
Proof.
  intros (Hv & Hroot & _) H. unfold Next in H. peel. destruct a0 as [m keys].
  cbn [fst snd] in *. to_prop.
  pose proof (decodeRoot_ok _ _ _ _ Hstep0) as (Hm & Hr & Hc).
  rewrite wrap_uint_small in * by (unfold MaxVersion in *; lia).
  split_and!; [done | done |]. exists envelope.
  split_and!; [done | by eapply signedBy_endorses | by eapply signedBy_endorses].
Qed.

Lemma Walk_ok served : ∀ r now next,
  sound_root r → Walk r served now = Ok next →
  sound_root next ∧ root_Version next = root_Version r + len served
  ∧ nsteps (succeeds now) (length served) r next.
Proof.
  induction served as [|encoded served IH]; intros r now next Hr H; cbn [Walk] in H.
  { injection H as <-. split_and!; [done | unfold len; cbn; lia | constructor]. }
  peel. pose proof (Next_ok _ _ _ _ Hr Hstep0) as Hs. pose proof Hs as (Hv & Hsound & _).
  apply IH in H as (? & -> & ?); [| done]. split_and!; [done | | by econstructor].
  unfold len. cbn [length]. lia.
Qed.

(** C27. The root a platform reaches from the one it was configured with is as many
    versions on as roots it was served, and each of them was signed by enough
    distinct keys of the one before it and of its own: a root the chain did not
    vouch for is never reached. *)
Theorem a_chain_of_roots_is_vouched_for anchored served r next now :
  Anchor anchored now = Ok r → Walk r served now = Ok next →
  sound_root next ∧ root_Version next = root_Version r + len served
  ∧ nsteps (succeeds now) (length served) r next.
Proof. intros Hr%Anchor_sound. by apply Walk_ok. Qed.

(** A root served again after it was taken is refused as stale. *)
Theorem a_root_is_taken_once r envelope now next :
  sound_root r → Next r envelope now = Ok next → Next next envelope now = Err ErrStale.
Proof.
  intros Hr H. pose proof (Next_ok _ _ _ _ Hr H) as (_ & Hs & _).
  unfold Next in *. peel. destruct a0 as [m keys]. cbn [fst snd] in *.
  cbn [root_keys root_message]. rewrite Hstep3, Hstep0. cbn. by rewrite Z.leb_refl.
Qed.
End trust.
