(* ===== verification/Catalogue.v ===== *)
(** * Published rulesets: versions and the catalogue of them

    ruleset/version.go and catalogue.go. A version is a ruleset with who
    published it when; a catalogue is what a process holds after reading the
    published log. Each of its operations holds the catalogue's lock from start
    to end, so a catalogue is one state passed through them. [proto.Unmarshal],
    the digest and the formatting of durations and times are parameters; a rule
    is compiled by RuleWire.v. *)

From Stdlib Require Import ZArith Lia Ascii Floats.SpecFloat.
From stdpp Require Import base tactics option gmap strings pretty sorting numbers list.
From S2P Require Import Prelude Text Rule Contract Validate WellFormed Compile RuleWire Digest Snapshot Trust.

(** ** Messages *)

Record WireVersion := mkWireVersion {
  wv_id : string; wv_published_by : string; wv_published_at : option instant; wv_note : string;
  wv_rules : list (option WireRule) }.

Record Activation := mkActivation {
  ac_ruleset : string; ac_by : string; ac_at : option instant; ac_note : string }.

(** A nil message inside a record reads as its zero fields, except a version. *)
Inductive RulesetRecord :=
| VersionRecord (version : option WireVersion)
| ActiveRecord (active : Activation)
| OtherRecord.

(** ** Versions *)

Record RulesetVersion := mkRulesetVersion {
  rv_snapshot : Snapshot;
  rv_cases : gmap string (list Case);
  rv_by : string;
  rv_at : instant;
  rv_note : string;
}.

Definition rv_id (v : RulesetVersion) : string := sn_id (rv_snapshot v).

Section catalogue.
Context `{Contract, Formats} (url_parse : string → option (string * string)) (Heaviest : Program → Z).
Context (digest : string → string) (DurationString : duration → string) (RFC3339Nano : instant → string).
Context (Unmarshal : string → option RulesetRecord).

Abbreviation Compile := (CompileRule url_parse Heaviest).
Abbreviation compose := (Compose digest DurationString).

Definition NewVersion (programs : list (option Program)) (cases : gmap string (list Case))
    (by_ : string) (at_ : instant) (note : string) : result RulesetError RulesetVersion :=
  if bool_decide (by_ = "") then Err Unattributed
  else if is_zero at_ then Err Undated
  else match compose programs with
       | Err e => Err e
       | Ok snapshot => Ok (mkRulesetVersion snapshot cases by_ at_ note)
       end.

Definition rv_Cases (v : RulesetVersion) (rule : string) : list Case := default [] (rv_cases v !! rule).

Definition version_Encode (v : RulesetVersion) : WireVersion :=
  mkWireVersion (rv_id v) (rv_by v) (Some (rv_at v)) (rv_note v)
    ((λ p, Some (encodeRule (p_rule p) (rv_Cases v (program_id p)))) <$> sn_programs (rv_snapshot v)).

Definition version_Record (v : RulesetVersion) : RulesetRecord := VersionRecord (Some (version_Encode v)).

Fixpoint decode_rules (rules : list (option WireRule)) (programs : list (option Program))
    (cases : gmap string (list Case)) : result RulesetError (list (option Program) * gmap string (list Case)) :=
  match rules with
  | [] => Ok (programs, cases)
  | held :: rules =>
      match decodeRule held with
      | Err e => Err e
      | Ok (rule, written) =>
          match Compile rule with
          | Err why => Err (Uncompiled why)
          | Ok program =>
              decode_rules rules (programs ++ [Some program])
                (if 0 <? len written then <[rule_id rule := written]> cases else cases)
          end
      end
  end.

Definition DecodeVersion (encoded : option WireVersion) : result RulesetError RulesetVersion :=
  match encoded with
  | None => Err NothingCarried
  | Some w =>
      if bool_decide (wv_id w = "") then Err Unnamed
      else match decode_rules (wv_rules w) [] ∅ with
           | Err e => Err e
           | Ok (programs, cases) =>
               match NewVersion programs cases (wv_published_by w) (AsTime (wv_published_at w)) (wv_note w) with
               | Err e => Err e
               | Ok version => if bool_decide (rv_id version = wv_id w) then Ok version else Err Misnamed
               end
           end
  end.

(** ** The catalogue *)

Record Catalogue := mkCatalogue {
  ca_versions : gmap string RulesetVersion;
  ca_order : list string;
  ca_active : option Activation;
  ca_activated : list Activation;
  ca_recorded : gset string;
  ca_revisions : gmap (string * Z) string;
}.

Definition NewCatalogue : Catalogue := mkCatalogue ∅ [] None [] ∅ ∅.

(** What an activation's key writes to the digest. *)
Definition activation_values (a : Activation) : list string :=
  [ac_ruleset a; ac_by a; RFC3339Nano (AsTime (ac_at a)); ac_note a].

Definition ActivationKey (a : Activation) : string := "activated." +:+ digest (writes (activation_values a)).

Definition fingerprint_of (p : Program) : string := program_Fingerprint digest DurationString p.

Definition revised (p : Program) : string * Z := (rule_id (p_rule p), rule_revision (p_rule p)).

Fixpoint conflicting_from (revisions : gmap (string * Z) string) (programs : list Program) : result RulesetError unit :=
  match programs with
  | [] => Ok tt
  | p :: programs =>
      match revisions !! revised p with
      | Some held => if bool_decide (held = fingerprint_of p) then conflicting_from revisions programs
                     else Err (Conflicts (rule_id (p_rule p)) (rule_revision (p_rule p)))
      | None => conflicting_from revisions programs
      end
  end.

(** [Admits], and what [Apply] asks before it holds a version. *)
Definition catalogue_conflicting (c : Catalogue) (v : RulesetVersion) : result RulesetError unit :=
  conflicting_from (ca_revisions c) (sn_programs (rv_snapshot v)).

Definition hold_version (v : RulesetVersion) (c : Catalogue) : Catalogue :=
  mkCatalogue (<[rv_id v := v]> (ca_versions c)) (ca_order c ++ [rv_id v]) (ca_active c)
    (ca_activated c) (ca_recorded c)
    (foldl (λ m p, <[revised p := fingerprint_of p]> m) (ca_revisions c) (sn_programs (rv_snapshot v))).

Definition catalogue_Apply (record : RulesetRecord) (c : Catalogue) : Catalogue * result RulesetError unit :=
  match record with
  | VersionRecord encoded =>
      match DecodeVersion encoded with
      | Err e => (c, Err e)
      | Ok v =>
          match ca_versions c !! rv_id v with
          | Some _ => (c, Ok tt)
          | None =>
              match catalogue_conflicting c v with
              | Err e => (c, Err e)
              | Ok _ => (hold_version v c, Ok tt)
              end
          end
      end
  | ActiveRecord a =>
      if bool_decide (ac_ruleset a = "") then (c, Err Unnamed)
      else (mkCatalogue (ca_versions c) (ca_order c) (Some a) (ca_activated c) (ca_recorded c) (ca_revisions c), Ok tt)
  | OtherRecord => (c, Err UnreadableRecord)
  end.

Definition Trailed (a : Activation) (c : Catalogue) : Catalogue * result RulesetError unit :=
  if bool_decide (ac_ruleset a = "") then (c, Err Unnamed)
  else if bool_decide (ActivationKey a ∈ ca_recorded c) then (c, Ok tt)
  else (mkCatalogue (ca_versions c) (ca_order c) (ca_active c) (ca_activated c ++ [a])
          ({[ActivationKey a]} ∪ ca_recorded c) (ca_revisions c), Ok tt).

Definition catalogue_Read (value : string) (desired : bool) (c : Catalogue) : Catalogue * result RulesetError unit :=
  match Unmarshal value with
  | None => (c, Err UnreadableRecord)
  | Some (ActiveRecord a) => if desired then catalogue_Apply (ActiveRecord a) c else Trailed a c
  | Some record => catalogue_Apply record c
  end.

Definition catalogue_Versions (c : Catalogue) : list RulesetVersion :=
  omap (λ id, ca_versions c !! id) (ca_order c).

Definition catalogue_Active (c : Catalogue) : option RulesetVersion :=
  a ← ca_active c; ca_versions c !! ac_ruleset a.

(** A log is read from its start, one record at a time, each with whether its key
    says it is the desired state. *)
Definition read_published (log : list (string * bool)) (c : Catalogue) : Catalogue :=
  foldl (λ c line, (catalogue_Read line.1 line.2 c).1) c log.


(** ** Reading a version back *)

(** A program as compiling its own rule makes it, from a rule a process can hold. *)
Definition self_compiled (p : Program) : Prop :=
  Compile (p_rule p) = Ok p ∧ built_rule (p_rule p) ∧ - 2 ^ 63 ≤ rule_revision (p_rule p) < 2 ^ 63.

Lemma some_held {A} (x : A) l : (0 <? len (x :: l)) = true.
Proof. apply Z.ltb_lt. unfold len. rewrite length_cons. lia. Qed.

Lemma decode_rules_encode (cases : string → list Case) ps : ∀ programs held,
  Forall self_compiled ps → (∀ id, Forall told_case (cases id)) → NoDup (program_id <$> ps) →
  ∃ held', decode_rules ((λ p, Some (encodeRule (p_rule p) (cases (program_id p)))) <$> ps) programs held
      = Ok (programs ++ (Some <$> ps), held')
    ∧ (∀ id, id ∈ program_id <$> ps → cases id ≠ [] → held' !! id = Some (cases id))
    ∧ ∀ id, (id ∉ program_id <$> ps ∨ cases id = []) → held' !! id = held !! id.
Proof.
  clear Unmarshal RFC3339Nano.
  induction ps as [|p ps IH]; intros programs held Hps Hc Hnd.
  { exists held. rewrite app_nil_r. split_and!; [done | by intros id ?%elem_of_nil | done]. }
  apply Forall_cons in Hps as [(Hcomp & Hbuilt & Hrev) Hps].
  rewrite fmap_cons in Hnd. apply NoDup_cons in Hnd as [Hni Hnd].
  rewrite fmap_cons. cbn [decode_rules].
  rewrite (rules_decode url_parse); [| by apply (CompileRule_rule url_parse Heaviest) in Hcomp as [_ ?] | done ..].
  rewrite Hcomp.
  destruct (IH (programs ++ [Some p])
    (if 0 <? len (cases (program_id p)) then <[rule_id (p_rule p) := cases (program_id p)]> held else held)
    Hps Hc Hnd) as (held' & -> & Hin & Hout).
  exists held'. split_and!; [by rewrite <- app_assoc | |].
  - intros id [->|Hid]%elem_of_cons Hne; [| by apply Hin]. rewrite Hout by (by left).
    destruct (cases (program_id p)) eqn:Hcp; [done |]. rewrite some_held. by rewrite lookup_insert_eq.
  - intros id Hid. rewrite fmap_cons, not_elem_of_cons in Hid. rewrite Hout by naive_solver.
    destruct (cases (program_id p)) eqn:Hcp; [done |]. rewrite some_held.
    rewrite lookup_insert_ne; [done |]. change (rule_id (p_rule p)) with (program_id p). intros <-. naive_solver congruence.
Qed.

Lemma version_programs v programs cases by_ at_ note :
  NewVersion programs cases by_ at_ note = Ok v →
  by_ ≠ "" ∧ at_ ≠ 0 ∧ v = mkRulesetVersion (rv_snapshot v) cases by_ at_ note
  ∧ ∃ ps, programs = Some <$> ps ∧ compose (Some <$> ps) = Ok (rv_snapshot v)
          ∧ NoDup (program_id <$> ps) ∧ sn_programs (rv_snapshot v) ≡ₚ ps.
Proof.
  clear Unmarshal RFC3339Nano.
  unfold NewVersion, is_zero. case_bool_decide as Hby; [done |]. destruct (Z.eqb_spec at_ 0); [done |].
  destruct (compose programs) as [s|] eqn:Hc; [| done]. intros [= <-]. cbn. split_and!; try done.
  assert (∃ ps, programs = Some <$> ps) as [ps ->].
  { unfold Compose in Hc. destruct (mapM id programs) as [ps|] eqn:Hps; [| done]. exists ps. by apply mapM_id_inv. }
  exists ps. split_and!; [done | done | |]; apply Compose_spec in Hc as (Hnd & -> & _); [done |].
  cbn. apply merge_sort_Permutation.
Qed.

(** C30. What was published is what is read back: the record of a version decodes to
    the same ruleset, published by the same hand at the same time with the same
    note, and every rule of it keeps its cases. *)
Theorem published_versions_read_back programs cases by_ at_ note v :
  (∀ s, digest s ≠ "") →
  (∀ p, Some p ∈ programs → self_compiled p) → (∀ id, Forall told_case (default [] (cases !! id))) →
  NewVersion programs cases by_ at_ note = Ok v →
  ∃ v', DecodeVersion (Some (version_Encode v)) = Ok v'
    ∧ rv_snapshot v' = rv_snapshot v ∧ rv_by v' = by_ ∧ rv_at v' = at_ ∧ rv_note v' = note
    ∧ ∀ p, p ∈ sn_programs (rv_snapshot v) → rv_Cases v' (program_id p) = rv_Cases v (program_id p).
Proof.
  clear Unmarshal RFC3339Nano.
  intros Hdig Hcomp Hcases (Hby & Hat & Hv & ps & -> & Hc & Hnd & Hperm)%version_programs.
  rewrite Hv. unfold DecodeVersion, version_Encode, rv_id, rv_Cases. cbn [wv_id wv_rules wv_published_by
    wv_published_at wv_note rv_snapshot rv_cases rv_by rv_at rv_note].
  assert (sn_id (rv_snapshot v) ≠ "") as Hid.
  { apply Compose_spec in Hc as (_ & -> & _). cbn. apply Hdig. }
  rewrite bool_decide_false by done.
  destruct (decode_rules_encode (λ id, default [] (cases !! id)) (sn_programs (rv_snapshot v)) [] ∅)
    as (held' & -> & Hin & Hout).
  { rewrite Forall_forall. intros p Hp. apply Hcomp. apply list_elem_of_fmap_2. by rewrite <- Hperm. }
  { done. }
  { by rewrite Hperm. }
  cbn [app]. unfold NewVersion. rewrite bool_decide_false by done. change (AsTime (Some at_)) with at_.
  unfold is_zero. destruct (Z.eqb_spec at_ 0); [done |].
  rewrite (Compose_perm _ _ (Some <$> ps) (Some <$> sn_programs (rv_snapshot v)) (rv_snapshot v) Hc)
    by (by rewrite Hperm).
  eexists. split; [cbv beta iota; by rewrite bool_decide_true |]. split_and!; try done.
  cbn [rv_cases]. intros p Hp.
  destruct (decide (default [] (cases !! program_id p) = [])) as [He|Hne].
  - rewrite Hout by (by right). by rewrite He.
  - rewrite Hin; [done | by apply list_elem_of_fmap_2 | done].
Qed.

(** ** What a catalogue holds *)

Record catalogued (c : Catalogue) : Prop := {
  ca_named id v : ca_versions c !! id = Some v → rv_id v = id;
  ca_listed : NoDup (ca_order c) ∧ ∀ id, id ∈ ca_order c ↔ is_Some (ca_versions c !! id);
  ca_meant id v p : ca_versions c !! id = Some v → p ∈ sn_programs (rv_snapshot v) →
    ca_revisions c !! revised p = Some (fingerprint_of p);
  ca_told : NoDup (ActivationKey <$> ca_activated c)
    ∧ ∀ key, key ∈ ca_recorded c ↔ key ∈ ActivationKey <$> ca_activated c;
}.

(** The revisions a version adds to those held. *)
Definition with_revisions (revisions : gmap (string * Z) string) (ps : list Program) : gmap (string * Z) string :=
  foldl (λ m p, <[revised p := fingerprint_of p]> m) revisions ps.

Lemma revised_distinct ps p q :
  NoDup (program_id <$> ps) → p ∈ ps → q ∈ ps → revised p = revised q → p = q.
Proof.
  intros Hnd Hp Hq [=Heq _]. apply list_elem_of_lookup in Hp as [i Hi], Hq as [j Hj].
  assert (i = j) as ->; [| congruence].
  eapply NoDup_lookup; [done | by rewrite list_lookup_fmap, Hi |]. rewrite list_lookup_fmap, Hj. cbn. by f_equal.
Qed.

Lemma with_revisions_other revisions ps key :
  (∀ p, p ∈ ps → revised p ≠ key) → with_revisions revisions ps !! key = revisions !! key.
Proof.
  revert revisions. induction ps as [|p ps IH]; intros revisions Hne; [done |].
  cbn. unfold with_revisions in IH. rewrite IH by (intros q Hq; apply Hne; by right).
  apply lookup_insert_ne, Hne. left.
Qed.

Lemma with_revisions_held revisions ps p :
  NoDup (program_id <$> ps) → p ∈ ps → with_revisions revisions ps !! revised p = Some (fingerprint_of p).
Proof.
  revert revisions. induction ps as [|q ps IH]; intros revisions Hnd Hp; [by apply not_elem_of_nil in Hp |].
  rewrite fmap_cons in Hnd. apply NoDup_cons in Hnd as [Hni Hnd].
  apply elem_of_cons in Hp as [->|Hp]; [| by apply IH].
  cbn. fold (with_revisions (<[revised q := fingerprint_of q]> revisions) ps).
  rewrite with_revisions_other; [apply lookup_insert_eq |].
  intros p Hp [=Hid _]. apply Hni. change (program_id q) with (rule_id (p_rule q)). rewrite <- Hid.
  by apply (list_elem_of_fmap_2 program_id).
Qed.

Lemma conflicting_from_ok revisions ps :
  conflicting_from revisions ps = Ok tt ↔
  ∀ p, p ∈ ps → revisions !! revised p = None ∨ revisions !! revised p = Some (fingerprint_of p).
Proof.
  induction ps as [|p ps IH]; cbn [conflicting_from].
  { split; [| done]. by intros _ p ?%elem_of_nil. }
  setoid_rewrite elem_of_cons. destruct (revisions !! revised p) as [held|] eqn:Hp.
  - case_bool_decide as Hh.
    + subst. rewrite IH. naive_solver.
    + split; [done |]. intros Hall. destruct (Hall p); [by left | congruence | congruence].
  - rewrite IH. naive_solver.
Qed.

Lemma with_revisions_grow revisions ps :
  conflicting_from revisions ps = Ok tt → NoDup (program_id <$> ps) → revisions ⊆ with_revisions revisions ps.
Proof.
  intros Hc Hnd. rewrite conflicting_from_ok in Hc. apply map_subseteq_spec. intros key fp Hk.
  destruct (decide (Exists (λ p, revised p = key) ps)) as [(p & Hp & <-)%Exists_exists|Hno].
  - rewrite with_revisions_held by done. destruct (Hc p Hp); congruence.
  - rewrite with_revisions_other; [done |]. intros p Hp Heq. apply Hno, Exists_exists. eauto.
Qed.

Lemma decoded_distinct encoded v :
  DecodeVersion encoded = Ok v → NoDup (program_id <$> sn_programs (rv_snapshot v)).
Proof.
  unfold DecodeVersion. destruct encoded as [w|]; [| done]. case_bool_decide; [done |].
  destruct (decode_rules _ _ _) as [[programs cases]|]; [| done].
  destruct (NewVersion _ _ _ _ _) as [v'|] eqn:Hv; [| done]. case_bool_decide; [| done]. intros [= <-].
  apply version_programs in Hv as (_ & _ & _ & ps & _ & _ & Hnd & Hp). by rewrite Hp.
Qed.

Lemma hold_version_catalogued v c :
  catalogued c → ca_versions c !! rv_id v = None → catalogue_conflicting c v = Ok tt →
  NoDup (program_id <$> sn_programs (rv_snapshot v)) → catalogued (hold_version v c).
Proof.
  intros [Hn [Hnd Ho] Hm Ht] Hnone Hc Hd. pose proof (with_revisions_grow _ _ Hc Hd) as Hgrow.
  split; cbn [hold_version ca_versions ca_order ca_activated ca_recorded ca_revisions]; [| | | done].
  - intros id w. destruct (decide (id = rv_id v)) as [->|Hne].
    + rewrite lookup_insert_eq. by intros [= <-].
    + rewrite lookup_insert_ne by done. apply Hn.
  - split.
    + apply NoDup_app. split_and!; [done | | apply NoDup_singleton].
      intros id Hid Hin%list_elem_of_singleton. subst. apply Ho in Hid as [w Hw]. congruence.
    + intros id. rewrite elem_of_app, list_elem_of_singleton, Ho.
      destruct (decide (id = rv_id v)) as [->|Hne].
      * rewrite lookup_insert_eq. split; [eauto | by right].
      * rewrite lookup_insert_ne by done. naive_solver.
  - intros id w p. fold (with_revisions (ca_revisions c) (sn_programs (rv_snapshot v))).
    destruct (decide (id = rv_id v)) as [->|Hne].
    + rewrite lookup_insert_eq. intros [= <-] Hp. by apply with_revisions_held.
    + rewrite lookup_insert_ne by done. intros Hw Hp. eapply lookup_weaken; [by eapply Hm | done].
Qed.

Lemma Apply_catalogued record c : catalogued c → catalogued (catalogue_Apply record c).1.
Proof.
  intros Hc. destruct record as [encoded|a|]; cbn [catalogue_Apply]; [| | done].
  - destruct (DecodeVersion encoded) as [v|] eqn:Hv; [| done].
    destruct (ca_versions c !! rv_id v) eqn:Hnone; [done |].
    destruct (catalogue_conflicting c v) as [[]|] eqn:Hcon; [| done].
    apply hold_version_catalogued; try done. by eapply decoded_distinct.
  - case_bool_decide; [done |]. by destruct Hc.
Qed.

Lemma Trailed_catalogued a c : catalogued c → catalogued (Trailed a c).1.
Proof.
  intros [Hn Ho Hm [Hnd Hk]]. unfold Trailed. case_bool_decide; [done |]. case_bool_decide as Hin; [done |].
  split; cbn; try done. rewrite fmap_app. change (ActivationKey <$> [a]) with [ActivationKey a]. split.
  - apply NoDup_app. split_and!; [done | | apply NoDup_singleton].
    intros key Hkey Heq%list_elem_of_singleton. subst. by apply Hin, Hk.
  - intros key. rewrite elem_of_union, elem_of_singleton, elem_of_app, list_elem_of_singleton, Hk. naive_solver.
Qed.

Lemma Read_catalogued value desired c : catalogued c → catalogued (catalogue_Read value desired c).1.
Proof.
  intros Hc. unfold catalogue_Read. destruct (Unmarshal value) as [[encoded|a|]|]; [| | | done].
  - by apply Apply_catalogued.
  - destruct desired; [by apply Apply_catalogued | by apply Trailed_catalogued].
  - done.
Qed.

Lemma read_published_catalogued log c : catalogued c → catalogued (read_published log c).
Proof.
  revert c. induction log as [|line log IH]; intros c Hc; [done |]. cbn. by apply IH, Read_catalogued.
Qed.

Lemma NewCatalogue_catalogued : catalogued NewCatalogue.
Proof.
  split; cbn; try done.
  - split; [constructor |]. intros id. rewrite lookup_empty. split; [by intros ?%elem_of_nil | by intros [? ?]].
  - split; [constructor |]. intros key. split; [by intros ?%elem_of_empty | by intros ?%elem_of_nil].
Qed.

(** However a published log was read, in a catalogue built from it a rule and a
    revision mean one thing: wherever two of its versions hold a rule of one id
    and revision, what those rules say hashes alike, so a detection named by
    both is one question's. *)
Theorem a_revision_means_one_thing log v w p q :
  let c := read_published log NewCatalogue in
  v ∈ catalogue_Versions c → w ∈ catalogue_Versions c →
  p ∈ sn_programs (rv_snapshot v) → q ∈ sn_programs (rv_snapshot w) → revised p = revised q →
  program_Fingerprint digest DurationString p = program_Fingerprint digest DurationString q.
Proof.
  intros c (i & _ & Hv)%list_elem_of_omap (j & _ & Hw)%list_elem_of_omap Hp Hq Heq.
  destruct (read_published_catalogued log _ NewCatalogue_catalogued) as [_ _ Hm _].
  pose proof (Hm _ _ _ Hv Hp) as H1. pose proof (Hm _ _ _ Hw Hq) as H2.
  rewrite Heq in H1. fold c in H1, H2. rewrite H2 in H1. by injection H1.
Qed.

(** ** Reading a log *)

(** The pointer a line of the log moves, if it is one that does. *)
Definition desired_of (line : string * bool) : option Activation :=
  match Unmarshal line.1 with
  | Some (ActiveRecord a) => if line.2 && negb (bool_decide (ac_ruleset a = "")) then Some a else None
  | _ => None
  end.

Lemma Read_active line c :
  ca_active (catalogue_Read line.1 line.2 c).1
  = match desired_of line with Some a => Some a | None => ca_active c end.
Proof.
  unfold catalogue_Read, desired_of. destruct (Unmarshal line.1) as [[encoded|a|]|]; try done.
  - cbn [catalogue_Apply]. destruct (DecodeVersion encoded) as [v|]; [| done].
    destruct (ca_versions c !! rv_id v); [done |]. by destruct (catalogue_conflicting c v) as [[]|].
  - destruct line.2; cbn [andb].
    + cbn [catalogue_Apply]. by case_bool_decide.
    + unfold Trailed. by repeat case_bool_decide.
Qed.

Lemma pointer log c :
  ca_active (read_published log c)
  = match last (omap desired_of log) with Some a => Some a | None => ca_active c end.
Proof.
  induction log as [|line log IH] using rev_ind; [done |].
  unfold read_published in *. rewrite foldl_snoc, Read_active, omap_app, IH. cbn [omap list_omap].
  destruct (desired_of line) as [a|]; [by rewrite last_snoc | by rewrite app_nil_r].
Qed.

(** What a process is meant to run is what the last line of the log that says so
    says, whatever came between: a line of the trail, a version and a line that
    cannot be read never move the pointer. *)
Theorem the_pointer_is_the_last_desired log c :
  ca_active (read_published log c)
  = match last (omap desired_of log) with Some a => Some a | None => ca_active c end.
Proof. apply pointer. Qed.

(** A later catalogue holds everything an earlier one did. *)
Definition keeps (c c' : Catalogue) : Prop :=
  ca_versions c ⊆ ca_versions c' ∧ ca_revisions c ⊆ ca_revisions c' ∧ ca_recorded c ⊆ ca_recorded c'.

#[local] Instance keeps_preorder : PreOrder keeps.
Proof.
  split; [by intros c |].
  intros a b c (? & ? & ?) (? & ? & ?). split_and!; etrans; done.
Qed.

Lemma Read_keeps line c : keeps c (catalogue_Read line.1 line.2 c).1.
Proof.
  assert (∀ record, keeps c (catalogue_Apply record c).1) as Happly.
  { intros [encoded|a|]; cbn [catalogue_Apply]; [| by case_bool_decide | done].
    destruct (DecodeVersion encoded) as [v|] eqn:Hv; [| done].
    destruct (ca_versions c !! rv_id v) eqn:Hnone; [done |].
    destruct (catalogue_conflicting c v) as [[]|] eqn:Hcon; [| done].
    split_and!; cbn; [by apply insert_subseteq | | done].
    apply with_revisions_grow; [done | by eapply decoded_distinct]. }
  unfold catalogue_Read. destruct (Unmarshal line.1) as [[encoded|a|]|]; try done.
  destruct line.2; [done |]. unfold Trailed. case_bool_decide; [done |]. case_bool_decide; [done |]. split_and!; cbn; set_solver.
Qed.

Lemma read_published_keeps log c : keeps c (read_published log c).
Proof.
  revert c. induction log as [|line log IH]; intros c; [done |]. cbn. etrans; [apply (Read_keeps line) | apply IH].
Qed.

(** Everything but the pointer. *)
Definition holdings (c : Catalogue) :=
  (ca_versions c, ca_order c, ca_activated c, ca_recorded c, ca_revisions c).

Lemma conflict_stays c c' v e :
  keeps c c' → catalogue_conflicting c v = Err e → ∃ e', catalogue_conflicting c' v = Err e'.
Proof.
  intros (_ & Hr & _) He. destruct (catalogue_conflicting c' v) as [[]|e'] eqn:He'; [| eauto].
  unfold catalogue_conflicting in *. rewrite conflicting_from_ok in He'.
  assert (conflicting_from (ca_revisions c) (sn_programs (rv_snapshot v)) = Ok tt) as Hok; [| congruence].
  rewrite conflicting_from_ok. intros p Hp. destruct (ca_revisions c !! revised p) as [fp|] eqn:Hfp; [| by left].
  eapply lookup_weaken in Hfp; [| done]. destruct (He' p Hp) as [Hn|Hs]; [congruence |]. right. congruence.
Qed.

Lemma Read_again line c c' :
  keeps (catalogue_Read line.1 line.2 c).1 c' → holdings (catalogue_Read line.1 line.2 c').1 = holdings c'.
Proof.
  unfold catalogue_Read. destruct (Unmarshal line.1) as [[encoded|a|]|]; try done; [| destruct line.2].
  - cbn [catalogue_Apply]. destruct (DecodeVersion encoded) as [v|]; [| done]. intros Hk.
    destruct (ca_versions c' !! rv_id v) eqn:Hnone; [done |].
    destruct (ca_versions c !! rv_id v) as [w|] eqn:Hw.
    { destruct Hk as [Hk _]. eapply lookup_weaken in Hw; [| done]. congruence. }
    destruct (catalogue_conflicting c v) as [[]|e] eqn:Hcon; cbn [fst] in Hk.
    { destruct Hk as [Hk _]. cbn in Hk.
      pose proof (lookup_weaken _ _ _ v (lookup_insert_eq (ca_versions c) (rv_id v) v) Hk). congruence. }
    by destruct (conflict_stays c c' v e Hk Hcon) as [e' ->].
  - cbn [catalogue_Apply]. by case_bool_decide.
  - unfold Trailed. case_bool_decide; [done |]. intros (_ & _ & Hrec).
    rewrite bool_decide_true; [done |]. case_bool_decide; cbn in Hrec; set_solver.
Qed.

Lemma read_published_holdings log : ∀ c c',
  keeps (read_published log c) c' → holdings (read_published log c') = holdings c'.
Proof.
  induction log as [|line log IH]; intros c c' Hk; [done |]. cbn in Hk |- *.
  fold (read_published log (catalogue_Read line.1 line.2 c).1) in Hk.
  fold (read_published log (catalogue_Read line.1 line.2 c').1).
  assert (holdings (catalogue_Read line.1 line.2 c').1 = holdings c') as Hline.
  { apply (Read_again line c). etrans; [apply read_published_keeps | done]. }
  rewrite <- Hline. eapply IH. unfold holdings in Hline. injection Hline as Hv _ _ Hr Hf.
  unfold keeps. rewrite Hv, Hr, Hf. done.
Qed.

(** Reading a whole log again changes nothing: a version refused stays refused,
    one held is held once, a line of the trail is told once and the pointer ends
    where it was. *)
Theorem a_log_read_again_changes_nothing log c :
  read_published log (read_published log c) = read_published log c.
Proof.
  pose proof (read_published_holdings log c (read_published log c) ltac:(done)) as Hh.
  assert (ca_active (read_published log (read_published log c)) = ca_active (read_published log c)) as Ha.
  { rewrite !pointer. by destruct (last _). }
  destruct (read_published log (read_published log c)), (read_published log c).
  unfold holdings in Hh. cbn in *. congruence.
Qed.
End catalogue.
