(* ===== verification/Releases.v ===== *)
(** * Releases: the catalog agents may install from, and what is published

    agentupdate/catalog.go and publish.go. *)

From Stdlib Require Import ZArith Lia Ascii Floats.SpecFloat.
From stdpp Require Import base tactics option gmap strings pretty sorting numbers list sets.
From S2P Require Import Prelude Text Scan Version Hex Rule Contract Bytes Agent Trust.


(** ** Releases (catalog.go) *)

Definition platformName (name : string) : bool :=
  negb (bool_decide (name = "")) && (slen name <=? MaxPlatformLength)
  && bool_decide (TrimLeft name alnum_lower = "").

Definition revision (value : string) : bool :=
  ((slen value =? 40) || (slen value =? 64))
  && match hex_decode value with
     | Some decoded => bool_decide (hex_encode decoded = value)
     | None => false
     end.

Definition attributable (actor note : string) : result UpdateError unit :=
  if bool_decide (actor = "") then Err ErrNoActor
  else refuse (MaxNoteBytes <? slen note) ErrMalformedUpdate.

Section releases.
Context {signing : Signing} {wire : UpdateWire}.

Definition validateRelease (release : Release) : result UpdateError unit :=
  match ParseVersion (rs_version release) with
  | None => Err ErrMalformedUpdate
  | Some version =>
      let platform := rs_platform release in
      (refuse (negb (platformName (up_os platform)) || negb (platformName (up_architecture platform)))
         ErrMalformedUpdate ;;
       refuse (up_format platform =? 0) ErrMalformedUpdate ;;
       refuse (bool_decide (Format_name (up_format platform) = "")) ErrMalformedUpdate ;;
       refuse (negb (slen (rs_sha256 release) =? 32)) ErrMalformedUpdate ;;
       refuse ((rs_size release =? 0) || (MaxPackageBytes <? rs_size release)) ErrMalformedUpdate ;;
       refuse (bool_decide (rs_repository release = "") || (MaxRepositoryLength <? slen (rs_repository release)))
         ErrMalformedUpdate ;;
       refuse (negb (revision (rs_revision release))) ErrMalformedUpdate ;;
       refuse (rs_state_generation release =? 0) ErrMalformedUpdate ;;
       (if bool_decide (rs_minimum_version release = "") then Ok tt else
        match ParseVersion (rs_minimum_version release) with
        | None => Err ErrMalformedUpdate
        | Some oldest => refuse (bool_decide (Compare oldest version = Gt)) ErrMalformedUpdate
        end) ;;
       refuse (MaxReplaced <? len (rs_replaces release)) ErrMalformedUpdate ;;
       each (λ index named,
         match ParseVersion named with
         | None => Err ErrMalformedUpdate
         | Some later =>
             (refuse (negb (bool_decide (Compare later version = Gt))) ErrMalformedUpdate ;;
              refuse (contains_elem (take index (rs_replaces release)) named) ErrMalformedUpdate)%go
         end) (rs_replaces release))%go
  end.

(** The name two releases of one version and platform share. *)
Definition release_named (release : Release) : string :=
  rs_version release +:+ " for " +:+ up_os (rs_platform release) +:+ "/"
  +:+ up_architecture (rs_platform release) +:+ " " +:+ Format_name (up_format (rs_platform release)).

Fixpoint validateReleases (seen : list string) (releases : list Release) : result UpdateError unit :=
  match releases with
  | [] => Ok tt
  | release :: releases =>
      (validateRelease release ;;
       refuse (contains_elem seen (release_named release)) ErrMalformedUpdate ;;
       validateReleases (release_named release :: seen) releases)%go
  end.

Definition validateCatalog (catalog : CatalogMessage) (now : instant) : result UpdateError unit :=
  (refuse (negb (cm_schema_version catalog =? SchemaVersion)) ErrMalformedUpdate ;;
   refuse ((cm_version catalog =? 0) || (MaxVersion <? cm_version catalog)) ErrMalformedUpdate ;;
   refuse (MaxReleases <? len (cm_releases catalog)) ErrMalformedUpdate ;;
   lifetime (cm_issued_at catalog) (cm_expires_at catalog) now ;;
   validateReleases [] (cm_releases catalog))%go.

Record Catalog := mkCatalog {
  catalog_message : CatalogMessage;
  catalog_served : string;
  catalog_signedBy : list string;
}.

Definition catalog_Version (c : Catalog) : Z := cm_version (catalog_message c).

Definition catalog_Expired (c : Catalog) (at_ : instant) : bool :=
  negb (before at_ (AsTime (cm_expires_at (catalog_message c)))).

Definition catalog_Names (c : Catalog) (version : string) : bool :=
  existsb (λ release, bool_decide (rs_version release = version)) (cm_releases (catalog_message c)).

Definition root_Catalog (r : Root) (envelope : Envelope) (now : instant) : result UpdateError Catalog :=
  (signed ← signedBy (root_keys r) (rm_catalog (root_message r)) CatalogPayloadType envelope;
   match unmarshal_catalog (env_payload envelope) with
   | None => Err ErrMalformedUpdate
   | Some (catalog, reflected) =>
       refuse (negb (known_message reflected)) ErrMalformedUpdate ;;
       validateCatalog catalog now ;;
       encoded ← Encode envelope;
       Ok (mkCatalog catalog encoded signed)
   end)%go.

(** ** Publishing (publish.go) *)

Record PublishedRoot := mkPublishedRoot {
  pr_version : Z; pr_issued_at : instant; pr_expires_at : instant; pr_digest : string;
  pr_signed_by : list string; pr_published_by : string; pr_published_at : instant; pr_note : string;
}.

Definition AcceptRoot (asked : option Envelope) (note : string) (newest : Root) (actor : string)
    (at_ : instant) : result UpdateError (PublishedRoot * Root) :=
  (attributable actor note ;;
   match asked with
   | None => Err ErrMalformedUpdate
   | Some envelope =>
       next ← Next newest envelope at_;
       refuse (root_Expired next at_) ErrExpired ;;
       Ok (mkPublishedRoot (root_Version next) (AsTime (rm_issued_at (root_message next)))
             (AsTime (root_ExpiresAt next)) (UpdateDigest (root_served next)) (root_signedBy next)
             actor at_ note, next)
   end)%go.

Record Package := mkPackage { pk_sha256 : string; pk_size : Z }.

(** The packages the releases name: one for each digest, and one size each. *)
Fixpoint take_packages (packages : list Package) (releases : list Release)
    : result UpdateError (list Package) :=
  match releases with
  | [] => Ok packages
  | release :: releases =>
      match list_find (λ held, pk_sha256 held = rs_sha256 release) packages with
      | None => take_packages (packages ++ [mkPackage (rs_sha256 release) (rs_size release)]) releases
      | Some (_, held) =>
          if negb (pk_size held =? rs_size release) then Err ErrMalformedUpdate
          else take_packages packages releases
      end
  end.

Record PublishedCatalog := mkPublishedCatalog {
  pc_version : Z; pc_issued_at : instant; pc_expires_at : instant; pc_releases : Z; pc_digest : string;
  pc_signed_by : list string; pc_published_by : string; pc_published_at : instant; pc_note : string;
}.

Definition AcceptCatalog (asked : option Envelope) (note : string) (newest : Root) (actor : string)
    (at_ : instant) : result UpdateError (PublishedCatalog * Catalog * list Package) :=
  (attributable actor note ;;
   match asked with
   | None => Err ErrMalformedUpdate
   | Some envelope =>
       refuse (root_Expired newest at_) ErrExpired ;;
       catalog ← root_Catalog newest envelope at_;
       refuse (catalog_Expired catalog at_) ErrExpired ;;
       packages ← take_packages [] (cm_releases (catalog_message catalog));
       Ok (mkPublishedCatalog (catalog_Version catalog) (AsTime (cm_issued_at (catalog_message catalog)))
             (AsTime (cm_expires_at (catalog_message catalog)))
             (wrap_uint 32 (len (cm_releases (catalog_message catalog))))
             (UpdateDigest (catalog_served catalog)) (catalog_signedBy catalog) actor at_ note,
           catalog, packages)
   end)%go.

Record PublishedPackage := mkPublishedPackage {
  pp_sha256 : string; pp_size : Z; pp_published_by : string; pp_published_at : instant;
}.

Definition AcceptPackage (content actor : string) (at_ : instant)
    : result UpdateError (PublishedPackage * string) :=
  if bool_decide (actor = "") then Err ErrNoActor
  else if (slen content =? 0) || (MaxPackageBytes <? slen content) then Err ErrMalformedUpdate
  else Ok (mkPublishedPackage (sha256 content) (slen content) actor at_, content).

(** The agents a message names: usable identifiers, each once. *)
Fixpoint distinct_from (seen : list string) (agents : list string) : result UpdateError (list string) :=
  match agents with
  | [] => Ok seen
  | id :: agents =>
      (refuse ((MaxAgentIDLength <? slen id) || negb (ValidIdentifier id)) ErrMalformedUpdate ;;
       refuse (contains_elem seen id) ErrMalformedUpdate ;;
       distinct_from (id :: seen) agents)%go
  end.

Record Assignment := mkAssignment {
  as_tenant : string; as_agents : list string; as_version : string; as_note : string;
}.

Record Assigned := mkAssigned {
  ad_tenant : string; ad_version : string; ad_agents : Z; ad_by : string; ad_at : instant; ad_note : string;
}.

Definition usable_tenant (tenant : string) : bool :=
  negb (bool_decide (tenant = "") || (MaxTenantIDLength <? slen tenant) || negb (ValidIdentifier tenant)).

Definition AcceptAssignment (asked : Assignment) (actor : string) (at_ : instant)
    : result UpdateError (string * list string * string * Assigned) :=
  (attributable actor (as_note asked) ;;
   let tenant := as_tenant asked in
   let agents := as_agents asked in
   refuse (negb (usable_tenant tenant)) ErrMalformedUpdate ;;
   refuse ((len agents =? 0) || (MaxAssignedAgents <? len agents)) ErrMalformedUpdate ;;
   refuse (negb (bool_decide (as_version asked = "")) && bool_decide (ParseVersion (as_version asked) = None))
     ErrMalformedUpdate ;;
   distinct_from [] agents ;;
   Ok (tenant, agents, as_version asked,
       mkAssigned tenant (as_version asked) (wrap_uint 32 (len agents)) actor at_ (as_note asked)))%go.

(** ** Serving *)

Record UpdateServed := mkUpdateServed {
  us_roots : list string; us_catalog : string; us_version : string;
}.

Fixpoint decode_all (served : list string) : result UpdateError (list Envelope) :=
  match served with
  | [] => Ok []
  | encoded :: served => (envelope ← decode encoded; rest ← decode_all served; Ok (envelope :: rest))%go
  end.

Definition newest_roots (roots : list string) : list string :=
  if MaxRoots <? len roots then drop (length roots - Z.to_nat MaxRoots) roots else roots.

Definition offer_of (s : UpdateServed) : result UpdateError OfferMessage :=
  (roots ← decode_all (newest_roots (us_roots s));
   if bool_decide (us_catalog s = "") then Ok (mkOffer (us_version s) roots None)
   else catalog ← decode (us_catalog s); Ok (mkOffer (us_version s) roots (Some catalog)))%go.

Definition Offer (s : UpdateServed) : result UpdateError string :=
  (offer ← offer_of s;
   match marshal_offer offer with Some encoded => Ok encoded | None => Err ErrUnencodable end)%go.

End releases.

(** * What a published catalog promises *)


(** A revision is 40 or 64 lowercase hex characters. *)
Lemma hex_decode_chars s d : hex_decode s = Some d → hex_encode d = s → made_of lowercase_hex s = true.
Proof. intros _ <-. apply hex_encode_lower. Qed.

Theorem revisions_are_lowercase_hex value :
  revision value = true ↔
  (slen value = 40 ∨ slen value = 64) ∧ made_of lowercase_hex value = true.
Proof.
  unfold revision. rewrite andb_true_iff, orb_true_iff, !Z.eqb_eq.
  split; intros [Hlen H]; (split; [done |]); revert H.
  - destruct (hex_decode value) as [d|] eqn:Hd; [| done]. intros He. to_prop. by eapply hex_decode_chars.
  - intros Hm. destruct (hex_encode_decode_len (Z.to_nat (slen value) / 2) value) as (d & -> & He); [| done | ].
    + destruct Hlen as [Hlen|Hlen]; rewrite Hlen; unfold slen in Hlen; vm_compute Nat.mul; lia.
    + by rewrite bool_decide_true.
Qed.

(** ** Named agents *)

Lemma distinct_from_ok agents : ∀ seen named,
  NoDup seen → distinct_from seen agents = Ok named →
  NoDup agents ∧ NoDup named ∧ (∀ id, id ∈ named ↔ id ∈ seen ∨ id ∈ agents)
  ∧ ∀ id, id ∈ agents → id ∉ seen ∧ slen id ≤ MaxAgentIDLength ∧ ValidIdentifier id = true.
Proof.
  induction agents as [|id agents IH]; intros seen named Hseen; cbn [distinct_from].
  { intros [= <-]. split_and!; [constructor | done | set_solver | set_solver]. }
  intros H. peel. unfold contains_elem in *. to_prop.
  apply IH in H as (Hnd & Hnamed & Hin & Hout); [| by apply NoDup_cons].
  split_and!; [| done | intros x; rewrite Hin; set_solver |].
  - apply NoDup_cons. split; [| done]. intros Hid. apply (Hout id Hid). set_solver.
  - intros x [->|Hx]%elem_of_cons; [done |]. destruct (Hout x Hx) as (? & ? & ?). set_solver.
Qed.

Lemma NoDup_fmap_via {A B C} (f : A → B) (g : A → C) l :
  (∀ x y, g x = g y → f x = f y) → NoDup (f <$> l) → NoDup (g <$> l).
Proof.
  intros Hfg. induction l as [|x l IH]; [constructor |]. rewrite !fmap_cons, !NoDup_cons.
  intros [Hx Hl]. split; [| by apply IH].
  intros (y & Heq & Hy)%list_elem_of_fmap. apply Hx, list_elem_of_fmap. exists y. split; [by apply Hfg | done].
Qed.

Section release_props.
Context {signing : Signing} {wire : UpdateWire} {laws : UpdateWireLaws wire}.

(** ** Releases *)

(** A release is not later than what it replaces, nor earlier than what it may
    be installed over. *)
Definition orderly (release : Release) : Prop :=
  ∃ version, ParseVersion (rs_version release) = Some version
  ∧ (rs_minimum_version release = "" ∨
     ∃ oldest, ParseVersion (rs_minimum_version release) = Some oldest ∧ no_later oldest version)
  ∧ NoDup (rs_replaces release)
  ∧ ∀ named, named ∈ rs_replaces release →
     ∃ later, ParseVersion named = Some later ∧ Compare later version = Gt.

Lemma validateRelease_orderly release : validateRelease release = Ok tt → orderly release.
Proof.
  unfold validateRelease, orderly.
  destruct (ParseVersion (rs_version release)) as [version|]; [| done]. cbv zeta. intros H. peel.
  rewrite each_ok in H. exists version. split_and!; [done | | |].
  - destruct (bool_decide_reflect (rs_minimum_version release = "")) as [->|_]; [by left | right].
    destruct (ParseVersion (rs_minimum_version release)) as [oldest|]; [| done]. peel. to_prop.
    exists oldest. done.
  - apply NoDup_by_prefix. intros j named Hj. specialize (H j named Hj). cbv beta in H.
    destruct (ParseVersion named); [| done]. peel. unfold contains_elem in H. by to_prop.
  - intros named [j Hj]%list_elem_of_lookup. specialize (H j named Hj). cbv beta in H.
    destruct (ParseVersion named) as [later|]; [| done]. peel. to_prop. eauto.
Qed.

Lemma validateReleases_ok seen releases :
  validateReleases seen releases = Ok tt →
  Forall orderly releases ∧ NoDup (release_named <$> releases)
  ∧ ∀ r, r ∈ releases → release_named r ∉ seen.
Proof.
  revert seen. induction releases as [|r releases IH]; intros seen; cbn [validateReleases].
  { intros _. split_and!; [constructor | constructor | set_solver]. }
  intros H. peel. apply IH in H as (H1 & H2 & H3). unfold contains_elem in *. to_prop.
  repeat match goal with u : unit |- _ => destruct u end.
  split_and!; [by constructor; [apply validateRelease_orderly |] | | set_solver].
  rewrite fmap_cons. apply NoDup_cons. split; [| done].
  intros (r' & Heq & Hr')%list_elem_of_fmap. apply (H3 r' Hr'). rewrite <- Heq. set_solver.
Qed.

(** ** Catalogs *)

(** A catalog taken under a root was signed by enough distinct keys of that
    root's catalog role, names one release for a version on a platform, and
    ranks every release between what it may replace and what it may follow. *)
Theorem a_catalog_is_vouched_for r envelope now catalog :
  sound_root r → root_Catalog r envelope now = Ok catalog →
  checkable CatalogPayloadType envelope
  ∧ catalog_signedBy catalog = signers (root_keys r) (rm_catalog (root_message r)) CatalogPayloadType envelope
  ∧ GetThreshold (rm_catalog (root_message r)) ≤ len (catalog_signedBy catalog)
  ∧ (∃ reflected, unmarshal_catalog (env_payload envelope) = Some (catalog_message catalog, reflected)
      ∧ known_message reflected = true)
  ∧ Forall orderly (cm_releases (catalog_message catalog))
  ∧ NoDup ((λ release, (rs_version release, rs_platform release)) <$> cm_releases (catalog_message catalog)).
Proof.
  intros (_ & _ & Hrole%sound_role_keys) H. unfold root_Catalog in H. peel.
  apply a_threshold_ok in Hstep as (Hfits & -> & Hth); [| done].
  destruct (unmarshal_catalog _) as [[m reflected]|] eqn:Hm; [| done]. peel. to_prop.
  unfold validateCatalog in Hstep0. peel. destruct a0.
  apply validateReleases_ok in Hstep0 as (Ho & Hnd & _). cbn [catalog_signedBy catalog_message].
  split_and!; [done | done | done | by eexists | done |].
  eapply NoDup_fmap_via; [| exact Hnd]. intros x y [= Hv Hp]. unfold release_named. by rewrite Hv, Hp.
Qed.

(** ** Packages *)

(** One size for one digest. *)
Definition one_size (packages : list Package) : Prop := NoDup (pk_sha256 <$> packages).

Lemma take_packages_ok releases : ∀ packages taken,
  one_size packages → take_packages packages releases = Ok taken →
  one_size taken
  ∧ ∀ p, p ∈ taken ↔ p ∈ packages ∨ ∃ r, r ∈ releases ∧ p = mkPackage (rs_sha256 r) (rs_size r).
Proof.
  induction releases as [|r releases IH]; intros packages taken Hone; cbn [take_packages].
  { intros [= <-]. split; [done |]. set_solver. }
  destruct (list_find _ packages) as [[i held]|] eqn:Hfind.
  - apply list_find_Some in Hfind as (Hi & Hsha & _).
    destruct (Z.eqb_spec (pk_size held) (rs_size r)) as [Hsize|]; [| done]. cbn [negb]. intros H.
    apply IH in H as [H1 H2]; [| done]. split; [done |]. intros p. rewrite H2.
    assert (mkPackage (rs_sha256 r) (rs_size r) ∈ packages).
    { apply list_elem_of_lookup. exists i. rewrite Hi. f_equal. destruct held. cbn in *. congruence. }
    set_solver.
  - apply list_find_None in Hfind. intros H. apply IH in H as [H1 H2].
    + split; [done |]. intros p. rewrite H2. set_solver.
    + unfold one_size. rewrite fmap_app. apply NoDup_app. split_and!; [done | | apply NoDup_singleton].
      intros x (held & -> & Hh)%list_elem_of_fmap Hx%list_elem_of_singleton.
      rewrite Forall_forall in Hfind. by apply (Hfind held Hh).
Qed.

(** The packages a catalog is published with are exactly the ones its releases
    name, one for a digest; the root and the catalog are both in date. *)
Theorem published_packages_are_the_releases asked note newest actor at_ record catalog packages :
  AcceptCatalog asked note newest actor at_ = Ok (record, catalog, packages) →
  NoDup (pk_sha256 <$> packages)
  ∧ (∀ p, p ∈ packages ↔ ∃ r, r ∈ cm_releases (catalog_message catalog)
        ∧ p = mkPackage (rs_sha256 r) (rs_size r))
  ∧ root_Expired newest at_ = false ∧ catalog_Expired catalog at_ = false.
Proof.
  unfold AcceptCatalog. intros H. peel. destruct asked as [envelope|]; [| done]. peel. simplify_eq.
  match goal with H : take_packages _ _ = Ok _ |- _ => apply take_packages_ok in H as [Hone Hall] end;
    [| constructor].
  split_and!; [done | | done | done]. intros p. rewrite Hall. set_solver.
Qed.

(** ** Assignments and offers *)

(** An assignment that is taken names each of its agents once, by a usable
    name, and clears the assignment or names a version. *)
Theorem assignments_name_agents_once asked actor at_ tenant agents version record :
  AcceptAssignment asked actor at_ = Ok (tenant, agents, version, record) →
  agents = as_agents asked ∧ NoDup agents ∧ 1 ≤ len agents ≤ MaxAssignedAgents
  ∧ ad_agents record = len agents
  ∧ (∀ id, id ∈ agents → ValidIdentifier id = true)
  ∧ (version = "" ∨ is_Some (ParseVersion version)).
Proof.
  unfold AcceptAssignment. intros H. peel. simplify_eq.
  match goal with H : distinct_from _ _ = Ok _ |- _ => apply distinct_from_ok in H as (Hnd & _ & _ & Hids) end;
    [| constructor].
  to_prop. pose proof (len_nonneg (as_agents asked)).
  split_and!; [done | done | lia | lia | | naive_solver |].
  - cbn [ad_agents]. apply wrap_uint_small. unfold MaxAssignedAgents in *. lia.
  - match goal with H : _ && _ = false |- _ => apply andb_false_iff in H as [H|H] end; to_prop; [by left | right].
    by apply not_eq_None_Some.
Qed.
End release_props.
