(* ===== verification/Rollout.v ===== *)
(** * Rollouts: which agents are asked to run a release, wave by wave

    agentupdate/rollout.go and progress.go. The words a gate gives for what it
    did are [Wording]; the sixteen bytes an identifier is drawn from are an
    argument. *)

From Stdlib Require Import ZArith Lia Ascii Floats.SpecFloat.
From stdpp Require Import base tactics option gmap strings pretty sorting numbers list sets.
From S2P Require Import Prelude Text Scan Version Hex Rule Contract Bytes Agent Trust Releases.


Definition MaxRolloutAgents : Z := 10000.
Definition MaxWaves : Z := 16.
Definition MaxCanaryAgents : Z := 100.
Definition MaxRunning : Z := 10000.
Definition MaxFailures : Z := 10000.
Definition MinSoak : duration := minute.
Definition MaxSoak : duration := 30 * 24 * hour.
Definition Places : Z := 10000.
Definition platform_name : string := "platform".

(** ** Messages *)

Record Soak := mkSoak { sk_valid : bool; sk_duration : duration }.

Record Wave := mkWave {
  wv_agents : list string;
  wv_percent : Z;
  wv_soak : option Soak;
  wv_running : Z;
}.

Record Rollout := mkRollout {
  ro_tenant : string;
  ro_version : string;
  ro_agents : list string;
  ro_waves : list Wave;
  ro_failures : Z;
  ro_note : string;
}.

Inductive RolloutState :=
| STATE_UNSPECIFIED | STATE_ACTIVE | STATE_PAUSED | STATE_ABORTED | STATE_SUPERSEDED
| STATE_UNDECLARED (n : Z).
#[global] Instance RolloutState_eq_dec : EqDecision RolloutState.
Proof. solve_decision. Defined.

Record RolloutProgress := mkProgress {
  pg_evaluated_at : instant;
  pg_agents : Z; pg_reached : Z; pg_pinned : Z;
  pg_running : Z; pg_failed : Z; pg_acknowledged : Z; pg_ineligible : Z; pg_pending : Z;
}.

Record RolloutRecord := mkRecord {
  rr_id : string;
  rr_rollout : Rollout;
  rr_state : RolloutState;
  rr_wave : Z;
  rr_opened_at : instant;
  rr_created_by : string;
  rr_created_at : instant;
  rr_changed_by : string;
  rr_changed_at : instant;
  rr_reason : string;
  rr_progress : option RolloutProgress;
}.

(** ** Accepting a rollout *)

Definition named_once (agents : list string) : result UpdateError (list string) := distinct_from [] agents.

(** One wave of the loop, [index] of [count], with what the waves before it reached. *)
Definition validateWave (population : list string) (count index : nat) (reached : Z) (wave : Wave)
    : result UpdateError unit :=
  let last := (index =? count - 1)%nat in
  (refuse ((0 <? len (wv_agents wave)) && (0 <? wv_percent wave)) ErrMalformedUpdate ;;
   refuse ((len (wv_agents wave) =? 0) && (wv_percent wave =? 0)) ErrMalformedUpdate ;;
   refuse (MaxCanaryAgents <? len (wv_agents wave)) ErrMalformedUpdate ;;
   refuse ((100 <? wv_percent wave) || ((0 <? wv_percent wave) && (wv_percent wave <=? reached)))
     ErrMalformedUpdate ;;
   refuse (last && negb (wv_percent wave =? 100)) ErrMalformedUpdate ;;
   refuse (last && (bool_decide (is_Some (wv_soak wave)) || negb (wv_running wave =? 0))) ErrMalformedUpdate ;;
   canaries ← named_once (wv_agents wave);
   refuse ((0 <? len population) && negb (forallb (contains_elem population) canaries)) ErrMalformedUpdate ;;
   if last then Ok tt else
   match wv_soak wave with
   | None => refuse (negb (wv_running wave =? 0)) ErrMalformedUpdate
   | Some soak =>
       refuse (negb (sk_valid soak) || (sk_duration soak <? MinSoak) || (MaxSoak <? sk_duration soak))
         ErrMalformedUpdate ;;
       refuse ((wv_running wave =? 0) || (MaxRunning <? wv_running wave)) ErrMalformedUpdate
   end)%go.

Fixpoint validateWaves_from (population : list string) (count index : nat) (reached : Z) (waves : list Wave)
    : result UpdateError unit :=
  match waves with
  | [] => Ok tt
  | wave :: waves =>
      (validateWave population count index reached wave ;;
       validateWaves_from population count (S index) (Z.max reached (wv_percent wave)) waves)%go
  end.

Definition validateWaves (waves : list Wave) (population : list string) : result UpdateError unit :=
  (refuse ((len waves =? 0) || (MaxWaves <? len waves)) ErrMalformedUpdate ;;
   validateWaves_from population (length waves) 0 0 waves)%go.

(** *** Identifiers *)

(** A byte with its bits masked and others set: [b & keep | set]. *)
Definition stamp (keep set : N) (c : ascii) : ascii := ascii_of_N (N.lor (N.land (byte c) keep) set).

Fixpoint update_byte (s : string) (i : nat) (f : ascii → ascii) : string :=
  match s, i with
  | EmptyString, _ => EmptyString
  | String c s, O => String (f c) s
  | String c s, S i => String c (update_byte s i f)
  end.

Definition newRolloutID (drawn : string) : string :=
  let id := update_byte (update_byte drawn 6 (stamp 15 64)) 8 (stamp 63 128) in
  let text := hex_encode id in
  String.substring 0 8 text +:+ "-" +:+ String.substring 8 4 text +:+ "-" +:+ String.substring 12 4 text +:+ "-"
  +:+ String.substring 16 4 text +:+ "-" +:+ string_drop 20 text.

Fixpoint rollout_id_from (index : nat) (id : string) : bool :=
  match id with
  | EmptyString => true
  | String c id =>
      (if bool_decide (index ∈ [8; 13; 18; 23]%nat) then bool_decide (c = "-"%char)
       else digit c || between 97 102 c) && rollout_id_from (S index) id
  end.

Definition ValidRolloutID (id : string) : bool := (slen id =? 36) && rollout_id_from 0 id.

(** [AcceptRollout], with the bytes drawn for its identifier: none when drawing
    failed. *)
Definition AcceptRollout (asked : Rollout) (actor : string) (at_ : instant) (drawn : option string)
    : result UpdateError RolloutRecord :=
  (attributable actor (ro_note asked) ;;
   refuse (negb (usable_tenant (ro_tenant asked))) ErrMalformedUpdate ;;
   refuse (MaxRolloutAgents <? len (ro_agents asked)) ErrMalformedUpdate ;;
   refuse ((ro_failures asked =? 0) || (MaxFailures <? ro_failures asked)) ErrMalformedUpdate ;;
   refuse (bool_decide (ParseVersion (ro_version asked) = None)) ErrMalformedUpdate ;;
   population ← named_once (ro_agents asked);
   validateWaves (ro_waves asked) population ;;
   match drawn with
   | None => Err ErrDraw
   | Some drawn =>
       Ok (mkRecord (newRolloutID drawn) asked STATE_ACTIVE 0 at_ actor at_ actor at_ (ro_note asked) None)
   end)%go.

(** ** Which agents a rollout reaches *)

(** The state of a rollout, as its column spells it. *)
Definition StateName (state : RolloutState) : string :=
  match state with
  | STATE_ACTIVE => "active"
  | STATE_PAUSED => "paused"
  | STATE_ABORTED => "aborted"
  | STATE_SUPERSEDED => "superseded"
  | _ => "unspecified"
  end.

Definition declared_states : list RolloutState :=
  [STATE_ACTIVE; STATE_PAUSED; STATE_ABORTED; STATE_SUPERSEDED].

Definition ParseState (name : string) : option RolloutState :=
  List.find (λ state, bool_decide (StateName state = name)) declared_states.

Definition InForce (state : RolloutState) : bool :=
  bool_decide (state = STATE_ACTIVE) || bool_decide (state = STATE_PAUSED).

Section rollout.
Context {signing : Signing}.

Definition Place (rolloutID agentID : string) : Z :=
  wrap_uint 32 (BigEndian_Uint64 (sha256 (rolloutID +:+ String (ascii_of_nat 0) agentID)) mod Places).

(** The loop over the open waves: whether one names the agent, and else the
    share they open. *)
Fixpoint opened_share (share : Z) (waves : list Wave) (agentID : string) : option Z :=
  match waves with
  | [] => Some share
  | wave :: waves =>
      if contains_elem (wv_agents wave) agentID then None
      else opened_share (Z.max share (wv_percent wave)) waves agentID
  end.

Definition Reaches (rolloutID : string) (rollout : Rollout) (opened : Z) (agentID : string) : bool :=
  let waves := ro_waves rollout in
  if len waves =? 0 then false
  else match opened_share 0 (take (Nat.min (Z.to_nat opened + 1) (length waves)) waves) agentID with
       | None => true
       | Some share => (0 <? share) && (Place rolloutID agentID <? wrap_uint 32 (share * (Places / 100)))
       end.

Definition Offered (record : option RolloutRecord) (member : bool) (agentID : string) : string :=
  match record with
  | None => ""
  | Some record =>
      if negb member || negb (bool_decide (rr_state record = STATE_ACTIVE)) then ""
      else if negb (Reaches (rr_id record) (rr_rollout record) (rr_wave record) agentID) then ""
      else ro_version (rr_rollout record)
  end.

Definition Wanted (assigned : string) (rollout : option RolloutRecord) (member : bool) (agentID : string) : string :=
  if negb (bool_decide (assigned = "")) then assigned else Offered rollout member agentID.

End rollout.

(** ** What an operator asks of a rollout *)

Inductive RolloutAction :=
| ACTION_UNSPECIFIED | ACTION_PAUSE | ACTION_RESUME | ACTION_ADVANCE | ACTION_ABORT
| ACTION_UNDECLARED (n : Z).
#[global] Instance RolloutAction_eq_dec : EqDecision RolloutAction.
Proof. solve_decision. Defined.

Record RolloutChange := mkChange {
  ch_tenant : string; ch_rollout : string; ch_action : RolloutAction; ch_note : string;
}.

Record AcceptedChange := mkAcceptedChange {
  ac_tenant : string; ac_rollout : string; ac_action : RolloutAction;
  ac_actor : string; ac_at : instant; ac_note : string;
}.

Definition declared_action (action : RolloutAction) : bool :=
  match action with ACTION_UNDECLARED _ => false | _ => true end.

Definition AcceptChange (asked : RolloutChange) (actor : string) (at_ : instant)
    : result UpdateError AcceptedChange :=
  (attributable actor (ch_note asked) ;;
   refuse (negb (ValidIdentifier (ch_tenant asked))) ErrMalformedUpdate ;;
   refuse (negb (ValidRolloutID (ch_rollout asked))) ErrRolloutUnknown ;;
   refuse (negb (declared_action (ch_action asked)) || bool_decide (ch_action asked = ACTION_UNSPECIFIED))
     ErrMalformedUpdate ;;
   Ok (mkAcceptedChange (ch_tenant asked) (ch_rollout asked) (ch_action asked) actor at_ (ch_note asked)))%go.

(** The record with another state, another wave and when it opened. *)
Definition standing (r : RolloutRecord) (state : RolloutState) (wave : Z) (opened : instant)
    (by_ : string) (at_ : instant) (reason : string) : RolloutRecord :=
  mkRecord (rr_id r) (rr_rollout r) state wave opened (rr_created_by r) (rr_created_at r)
    by_ at_ reason (rr_progress r).

Definition change_Apply (c : AcceptedChange) (held : RolloutRecord)
    : result UpdateError (RolloutRecord * bool) :=
  let state := rr_state held in
  let becomes state wave opened acknowledge :=
    Ok (standing held state wave opened (ac_actor c) (ac_at c) (ac_note c), acknowledge) in
  match ac_action c with
  | ACTION_PAUSE =>
      if negb (bool_decide (state = STATE_ACTIVE)) then Err ErrRolloutState
      else becomes STATE_PAUSED (rr_wave held) (rr_opened_at held) false
  | ACTION_RESUME =>
      if negb (bool_decide (state = STATE_PAUSED)) then Err ErrRolloutState
      else becomes STATE_ACTIVE (rr_wave held) (rr_opened_at held) true
  | ACTION_ADVANCE =>
      if negb (bool_decide (state = STATE_ACTIVE)) then Err ErrRolloutState
      else if len (ro_waves (rr_rollout held)) <=? rr_wave held + 1 then Err ErrRolloutState
      else becomes state (wrap_uint 32 (rr_wave held + 1)) (ac_at c) false
  | ACTION_ABORT =>
      if negb (bool_decide (state = STATE_ACTIVE)) && negb (bool_decide (state = STATE_PAUSED))
      then Err ErrRolloutState
      else becomes STATE_ABORTED (rr_wave held) (rr_opened_at held) false
  | _ => becomes state (rr_wave held) (rr_opened_at held) false
  end.

(** ** What agents say of a release (progress.go) *)

Inductive UpdateStage := STAGE_ROLLED_BACK | STAGE_FAILED | STAGE_OTHER.
Inductive UpdateFailure :=
| FAILURE_UNVERIFIED | FAILURE_INSTALLATION | FAILURE_UNHEALTHY | FAILURE_REFUSED | FAILURE_OTHER.

Record UpdateReport := mkUpdateReport {
  ur_version : string; ur_stage : UpdateStage; ur_failure : UpdateFailure;
}.

(** How an agent takes updates, when it says. *)
Record Compatibility := mkCompatibility { cp_enabled : bool; cp_format : Z; cp_state_generation : Z }.

Record StatusReport := mkStatusReport {
  st_version : string; st_os : string; st_architecture : string;
  st_update : UpdateReport;
  st_compatibility : option Compatibility;
}.

Inductive UpdateOutcome := Waiting | Running | Failed | Ineligible.
#[global] Instance UpdateOutcome_eq_dec : EqDecision UpdateOutcome.
Proof. solve_decision. Defined.

Definition Takes (report : StatusReport) (target : string) (catalog : Catalog) : bool :=
  match ParseVersion (st_version report) with
  | None => false
  | Some running =>
      let described := bool_decide (is_Some (st_compatibility report)) in
      let updates := default (mkCompatibility false 0 0) (st_compatibility report) in
      if described && negb (cp_enabled updates) then false else
      let matching version := List.find (λ release,
        bool_decide (rs_version release = version)
        && bool_decide (up_os (rs_platform release) = st_os report)
        && bool_decide (up_architecture (rs_platform release) = st_architecture report)
        && (negb described || (up_format (rs_platform release) =? cp_format updates)))
        (cm_releases (catalog_message catalog)) in
      match matching target, matching (version_text running) with
      | Some release, Some _ =>
          if described && (rs_state_generation release <? cp_state_generation updates) then false else
          match Compare (default (mkVersion 0 0 0 [] "") (ParseVersion target)) running with
          | Lt => contains_elem (rs_replaces release) (version_text running)
          | Gt =>
              match ParseVersion (rs_minimum_version release) with
              | Some oldest =>
                  negb (negb (bool_decide (rs_minimum_version release = ""))
                        && bool_decide (Compare running oldest = Lt))
              | None => true
              end
          | Eq => true
          end
      | _, _ => false
      end
  end.

Definition Judge (report : option StatusReport) (target : string) (catalog : option Catalog) : UpdateOutcome :=
  match report with
  | None => Waiting
  | Some report =>
      if bool_decide (st_version report = target) then Running else
      let update := st_update report in
      let told :=
        if bool_decide (ur_version update = target) then
          match ur_stage update with
          | STAGE_ROLLED_BACK => Some Failed
          | STAGE_FAILED =>
              match ur_failure update with
              | FAILURE_UNVERIFIED | FAILURE_INSTALLATION | FAILURE_UNHEALTHY => Some Failed
              | FAILURE_REFUSED => Some Ineligible
              | FAILURE_OTHER => None
              end
          | STAGE_OTHER => None
          end
        else None in
      match told with
      | Some outcome => outcome
      | None => match catalog with
                | Some catalog => if negb (Takes report target catalog) then Ineligible else Waiting
                | None => Waiting
                end
      end
  end.

(** ** Counting and gating *)

Record Tally := mkTally { ty_progress : RolloutProgress; ty_failing : list string }.

Definition count_up (z : Z) : Z := wrap_uint 32 (z + 1).

Definition tally_Count (t : Tally) (agentID : string) (outcome : UpdateOutcome) (acknowledged : bool) : Tally :=
  let 'mkProgress ev ag re pi ru fa ac ine pe := ty_progress t in
  match outcome with
  | Running => mkTally (mkProgress ev ag re pi (count_up ru) fa ac ine pe) (ty_failing t)
  | Failed =>
      if acknowledged then mkTally (mkProgress ev ag re pi ru fa (count_up ac) ine pe) (ty_failing t)
      else mkTally (mkProgress ev ag re pi ru (count_up fa) ac ine pe) (ty_failing t ++ [agentID])
  | Ineligible => mkTally (mkProgress ev ag re pi ru fa ac (count_up ine) pe) (ty_failing t)
  | Waiting => mkTally (mkProgress ev ag re pi ru fa ac ine (count_up pe)) (ty_failing t)
  end.

Inductive Step := Hold | Pause | OpenNext.
#[global] Instance Step_eq_dec : EqDecision Step.
Proof. solve_decision. Defined.

(** The sentences a gate writes: how many failed a version against how many
    pause it, and that a wave ran for its soak. *)
Class Wording := {
  failing_pause : Z → string → Z → string;
  wave_ran : Z → duration → Z → string → string;
}.

Section gate.
Context {wording : Wording}.

Definition Gate (record : RolloutRecord) (progress : RolloutProgress) (now : instant) : Step * string :=
  let rollout := rr_rollout record in
  if negb (bool_decide (rr_state record = STATE_ACTIVE)) then (Hold, "")
  else if ro_failures rollout <=? pg_failed progress then
    (Pause, failing_pause (pg_failed progress) (ro_version rollout) (ro_failures rollout))
  else
    let index := rr_wave record in
    if len (ro_waves rollout) <=? index + 1 then (Hold, "")
    else match ro_waves rollout !! Z.to_nat index with
         | None => (Hold, "")
         | Some wave =>
             match wv_soak wave with
             | None => (Hold, "")
             | Some soak =>
                 if before now (time_add (rr_opened_at record) (sk_duration soak))
                    || (pg_running progress <? wv_running wave) then (Hold, "")
                 else (OpenNext, wave_ran index (sk_duration soak) (pg_running progress) (ro_version rollout))
             end
         end.

End gate.

Definition Opened (record : RolloutRecord) (reason : string) (at_ : instant) : RolloutRecord :=
  standing record (rr_state record) (wrap_uint 32 (rr_wave record + 1)) at_ platform_name at_ reason.

Definition Paused (record : RolloutRecord) (reason : string) (at_ : instant) : RolloutRecord :=
  standing record STATE_PAUSED (rr_wave record) (rr_opened_at record) platform_name at_ reason.

(** * What a rollout promises: reach, changes and gates *)


(** ** Waves *)

(** Unsigned fields hold unsigned numbers. *)
Definition wire_rollout (rollout : Rollout) : Prop :=
  0 ≤ ro_failures rollout ∧ Forall (λ w, 0 ≤ wv_percent w ∧ 0 ≤ wv_running w) (ro_waves rollout).

Lemma validateWave_ok population count index reached wave :
  validateWave population count index reached wave = Ok tt →
  wv_percent wave ≤ 100 ∧ (wv_percent wave = 0 ∨ wv_percent wave < 0 ∨ reached < wv_percent wave)
  ∧ (wv_percent wave > 0 → wv_agents wave = [])
  ∧ (index = (count - 1)%nat → wv_percent wave = 100)
  ∧ NoDup (wv_agents wave) ∧ len (wv_agents wave) ≤ MaxCanaryAgents
  ∧ (population ≠ [] → ∀ id, id ∈ wv_agents wave → id ∈ population)
  ∧ (index ≠ (count - 1)%nat → ∀ soak, wv_soak wave = Some soak →
       MinSoak ≤ sk_duration soak ≤ MaxSoak ∧ wv_running wave ≠ 0 ∧ wv_running wave ≤ MaxRunning).
Proof.
  unfold validateWave, named_once. cbv zeta. intros H. peel.
  apply distinct_from_ok in Hstep5 as (Hnd & _ & Hin & _); [| constructor].
  assert (wv_percent wave > 0 → wv_agents wave = []) as Hp.
  { intros Hp. apply andb_false_iff in Hstep as [Hs|Hs]; to_prop; [| lia].
    destruct (wv_agents wave); [done |]. unfold len in Hs. cbn in Hs. lia. }
  assert (population ≠ [] → ∀ id, id ∈ wv_agents wave → id ∈ population) as Hpop.
  { intros Hne id Hid. apply andb_false_iff in Hstep6 as [Hs|Hs]; to_prop.
    { destruct population; [done |]. unfold len in Hs. cbn in Hs. lia. }
    rewrite forallb_forall in Hs. specialize (Hs id). unfold contains_elem in Hs.
    rewrite bool_decide_eq_true in Hs. apply Hs, list_elem_of_In, Hin. by right. }
  to_prop. split_and!; try done.
  - apply andb_false_iff in H1 as [H1|H1]; to_prop; lia.
  - intros ->. rewrite Nat.eqb_refl in Hstep3. cbn in Hstep3. by to_prop.
  - intros Hl soak Hs. apply Nat.eqb_neq in Hl. rewrite Hl, Hs in H. peel. to_prop. lia.
Qed.

(** The waves of a rollout that is taken: shares that grow to all of it. *)
Definition sound_waves (waves : list Wave) : Prop :=
  1 ≤ len waves ≤ MaxWaves
  ∧ Forall (λ w, wv_percent w ≤ 100) waves
  ∧ (∃ w, last waves = Some w ∧ wv_percent w = 100)
  ∧ ∀ i j wi wj, (i < j)%nat → waves !! i = Some wi → waves !! j = Some wj →
      0 < wv_percent wj → wv_percent wi < wv_percent wj.

Lemma validateWaves_from_ok population count waves : ∀ index reached,
  (index + length waves)%nat = count →
  validateWaves_from population count index reached waves = Ok tt →
  Forall (λ w, wv_percent w ≤ 100) waves
  ∧ (waves ≠ [] → ∃ w, last waves = Some w ∧ wv_percent w = 100)
  ∧ (∀ j wj, waves !! j = Some wj → 0 < wv_percent wj → reached < wv_percent wj)
  ∧ ∀ i j wi wj, (i < j)%nat → waves !! i = Some wi → waves !! j = Some wj →
      0 < wv_percent wj → wv_percent wi < wv_percent wj.
Proof.
  induction waves as [|w waves IH]; intros index reached Hc; cbn [validateWaves_from].
  { intros _. split_and!; [constructor | done | done |]. intros i j wi wj _ Hi. by rewrite lookup_nil in Hi. }
  intros H. peel. destruct a. apply validateWave_ok in Hstep as (Hle & Hgrow & _ & Hlast & _).
  cbn [length] in Hc. apply IH in H as (Hall & Hlast' & Hreach & Hinc); [| lia].
  split_and!.
  - by constructor.
  - intros _. destruct waves as [|w' waves]; [| rewrite last_cons_cons; by apply Hlast'].
    exists w. split; [done |]. apply Hlast. cbn in Hc. lia.
  - intros [|j] wj Hj Hpos; cbn in Hj; [injection Hj as ->; lia |]. specialize (Hreach j wj Hj Hpos). lia.
  - intros [|i] [|j] wi wj Hij Hi Hj Hpos; cbn in Hi, Hj; [lia | | lia |].
    + injection Hi as ->. specialize (Hreach j wj Hj Hpos). lia.
    + apply (Hinc i j); [lia | done | done | done].
Qed.

Lemma validateWaves_sound waves population :
  validateWaves waves population = Ok tt → sound_waves waves.
Proof.
  unfold validateWaves. intros H. peel. to_prop. pose proof (len_nonneg waves).
  apply validateWaves_from_ok in H as (Hall & Hlast & _ & Hinc); [| lia].
  split_and!; [lia | lia | done | | done]. apply Hlast. by intros ->.
Qed.

(** ** Reach *)

Section reach.
Context {signing : Signing}.

Lemma Place_range rolloutID agentID : 0 ≤ Place rolloutID agentID < Places.
Proof.
  unfold Place. set (z := BigEndian_Uint64 _). pose proof (Z.mod_pos_bound z Places ltac:(done)).
  rewrite wrap_uint_small; [done |]. unfold Places in *. lia.
Qed.

Lemma opened_share_none waves agentID : ∀ share,
  opened_share share waves agentID = None ↔ ∃ w, w ∈ waves ∧ agentID ∈ wv_agents w.
Proof.
  induction waves as [|w waves IH]; intros share; cbn [opened_share]; [set_solver |].
  unfold contains_elem. destruct (bool_decide_reflect (agentID ∈ wv_agents w)); [set_solver |].
  rewrite IH. set_solver.
Qed.

Lemma opened_share_some waves agentID : ∀ share opened,
  opened_share share waves agentID = Some opened →
  share ≤ opened ∧ (∀ w, w ∈ waves → wv_percent w ≤ opened)
  ∧ (opened = share ∨ ∃ w, w ∈ waves ∧ opened = wv_percent w).
Proof.
  induction waves as [|w waves IH]; intros share opened; cbn [opened_share].
  { intros [= ->]. split_and!; [done | set_solver | by left]. }
  destruct (contains_elem _ _); [done |]. intros (Hle & Hall & Hmax)%IH. split_and!; [lia | |].
  - intros w' [->|Hw]%elem_of_cons; [lia | by apply Hall].
  - destruct Hmax as [->|(w' & Hw & ->)]; [| right; set_solver].
    destruct (Z.max_spec share (wv_percent w)) as [[_ ->]|[_ ->]]; [right; set_solver | by left].
Qed.

(** An open wave reaches an agent: it names it, or the agent's place is below
    the share it opens. *)
Definition wave_reaches (rolloutID : string) (w : Wave) (agentID : string) : Prop :=
  agentID ∈ wv_agents w ∨ Place rolloutID agentID < wv_percent w * (Places / 100).

Lemma Reaches_spec rolloutID rollout opened agentID :
  Forall (λ w, wv_percent w ≤ 100) (ro_waves rollout) → 0 ≤ opened →
  Reaches rolloutID rollout opened agentID = true ↔
  ∃ i w, Z.of_nat i ≤ opened ∧ ro_waves rollout !! i = Some w ∧ wave_reaches rolloutID w agentID.
Proof.
  intros Hle Hopen. unfold Reaches. cbv zeta. set (waves := ro_waves rollout) in *.
  set (n := Nat.min (Z.to_nat opened + 1) (length waves)).
  assert (∀ (P : Wave → Prop), (∃ w, w ∈ take n waves ∧ P w) ↔
    ∃ i w, Z.of_nat i ≤ opened ∧ waves !! i = Some w ∧ P w) as Htake.
  { intros P. split.
    - intros (w & [i Hi]%list_elem_of_lookup & HP). exists i, w. pose proof (lookup_lt_Some _ _ _ Hi) as Hlt.
      rewrite length_take in Hlt. rewrite lookup_take_lt in Hi by lia. split_and!; [lia | done | done].
    - intros (i & w & Hi & Hw & HP). exists w. split; [| done]. apply list_elem_of_lookup. exists i.
      pose proof (lookup_lt_Some _ _ _ Hw). rewrite lookup_take_lt; [done | lia]. }
  destruct (Z.eqb_spec (len waves) 0) as [H0|H0].
  { split; [done |]. intros (i & w & _ & Hw & _). apply lookup_lt_Some in Hw. unfold len in H0. lia. }
  rewrite <- Htake. pose proof (Place_range rolloutID agentID) as Hplace.
  destruct (opened_share 0 (take n waves) agentID) as [share|] eqn:Hs.
  - assert (¬ ∃ w, w ∈ take n waves ∧ agentID ∈ wv_agents w) as Hnone.
    { rewrite <- (opened_share_none _ _ 0), Hs. done. }
    apply opened_share_some in Hs as (Hs0 & Hall & Hmax).
    assert (share ≤ 100).
    { destruct Hmax as [->|(w & Hw & ->)]; [lia |]. rewrite Forall_forall in Hle. apply Hle.
      by eapply elem_of_take in Hw as (? & ?%list_elem_of_lookup_2 & _). }
    rewrite wrap_uint_small by (change (Places / 100) with 100; lia).
    rewrite andb_true_iff, !Z.ltb_lt. unfold wave_reaches. change (Places / 100) with 100 in *. split.
    + intros [Hpos Hp]. destruct Hmax as [->|(w & Hw & ->)]; [lia | eauto].
    + intros (w & Hw & [Hn|Hp]); [exfalso; eauto |]. specialize (Hall w Hw). lia.
  - apply opened_share_none in Hs as (w & Hw & Hn). split; [| done]. intros _. exists w. split; [done | by left].
Qed.

(** What a rollout reaches is what one of its open waves reaches: opening
    another wave takes the release from nobody, and the last one gives it to
    every agent of the rollout. *)
Theorem waves_only_widen_a_rollout rolloutID rollout population agentID :
  validateWaves (ro_waves rollout) population = Ok tt →
  (∀ opened later, 0 ≤ opened ≤ later →
     Reaches rolloutID rollout opened agentID = true → Reaches rolloutID rollout later agentID = true)
  ∧ Reaches rolloutID rollout (len (ro_waves rollout) - 1) agentID = true.
Proof.
  intros (Hlen & Hle & (w & Hlast & Hw) & _)%validateWaves_sound. split.
  - intros opened later Ho. rewrite !Reaches_spec by (done || lia).
    intros (i & v & Hi & Hv & Hr). exists i, v. split_and!; [lia | done | done].
  - rewrite Reaches_spec by (done || lia). rewrite last_lookup in Hlast.
    exists (pred (length (ro_waves rollout))), w. unfold len in *. split_and!; [lia | done |].
    right. rewrite Hw. change (100 * (Places / 100)) with Places. apply Place_range.
Qed.
End reach.

(** ** Names *)

Lemma state_names_read_back_1 state name :
  ParseState name = Some state → state ∈ declared_states ∧ StateName state = name.
Proof.
  intros [H1 H2]%find_some. apply bool_decide_eq_true in H2. split; [by apply list_elem_of_In | done].
Qed.

Lemma state_names_read_back_2 state :
  state ∈ declared_states → ParseState (StateName state) = Some state.
Proof.
  intros Hin. unfold declared_states in Hin.
  repeat (apply elem_of_cons in Hin as [->|Hin]; [by vm_compute |]). by apply not_elem_of_nil in Hin.
Qed.

(** A state's name reads back as the state, for the states the platform writes. *)
Theorem state_names_read_back state name :
  ParseState name = Some state ↔ state ∈ declared_states ∧ StateName state = name.
Proof.
  split; [apply state_names_read_back_1 |]. intros [Hin <-]. by apply state_names_read_back_2.
Qed.

Lemma update_byte_length s : ∀ i f, String.length (update_byte s i f) = String.length s.
Proof. induction s as [|c s IH]; intros [|i] f; cbn; auto. Qed.

(** The characters of a string of known length. *)
Lemma string_cons_length s n :
  String.length s = S n → ∃ c t, s = String c t ∧ String.length t = n.
Proof. destruct s as [|c t]; cbn; [done |]. intros [= <-]. eauto. Qed.

Ltac explode H :=
  repeat match type of H with
  | String.length ?s = S _ =>
      let c := fresh "c" in let t := fresh "t" in
      apply string_cons_length in H as (c & t & -> & H)
  | String.length ?s = O => destruct s; [| discriminate H]
  end.

(** An identifier the platform draws is one it takes back. *)
Theorem drawn_identifiers_are_valid drawn :
  String.length drawn = 16%nat → ValidRolloutID (newRolloutID drawn) = true.
Proof.
  intros Hlen. unfold newRolloutID. cbv zeta. set (id := update_byte _ 8 _).
  assert (String.length (hex_encode id) = 32%nat) as H32.
  { rewrite hex_encode_length. subst id. rewrite !update_byte_length. lia. }
  pose proof (hex_encode_lower id) as Hlow. revert H32 Hlow. generalize (hex_encode id). clear id Hlen drawn.
  intros text H32. explode H32. cbn [made_of]. rewrite !andb_true_iff. unfold lowercase_hex.
  intros Hlow. destruct_and! Hlow. unfold ValidRolloutID.
  cbn [String.substring string_drop]. unfold String.app. cbn [String.append rollout_id_from].
  repeat match goal with
  | |- context [bool_decide (?k ∈ [8; 13; 18; 23]%nat)] =>
      let b := eval vm_compute in (bool_decide (k ∈ [8; 13; 18; 23]%nat)) in
      change (bool_decide (k ∈ [8; 13; 18; 23]%nat)) with b
  end.
  cbv iota. repeat match goal with H : _ = true |- _ => rewrite H; clear H end. by vm_compute.
Qed.

(** ** Changes *)

(** What a change an operator may ask makes of where a rollout stands. *)
Inductive changes_to (waves : Z) : RolloutAction → RolloutState * Z → RolloutState * Z → Prop :=
| pauses w : changes_to waves ACTION_PAUSE (STATE_ACTIVE, w) (STATE_PAUSED, w)
| resumes w : changes_to waves ACTION_RESUME (STATE_PAUSED, w) (STATE_ACTIVE, w)
| advances w : w + 1 < waves → changes_to waves ACTION_ADVANCE (STATE_ACTIVE, w) (STATE_ACTIVE, w + 1)
| aborts_active w : changes_to waves ACTION_ABORT (STATE_ACTIVE, w) (STATE_ABORTED, w)
| aborts_paused w : changes_to waves ACTION_ABORT (STATE_PAUSED, w) (STATE_ABORTED, w).

Definition where_it_stands (r : RolloutRecord) : RolloutState * Z := (rr_state r, rr_wave r).

(** A rollout whose wave is one of its own. *)
Definition sound_record (r : RolloutRecord) : Prop :=
  sound_waves (ro_waves (rr_rollout r)) ∧ 0 ≤ rr_wave r < len (ro_waves (rr_rollout r)).

Lemma AcceptChange_action asked actor at_ c :
  AcceptChange asked actor at_ = Ok c →
  ac_action c ∈ [ACTION_PAUSE; ACTION_RESUME; ACTION_ADVANCE; ACTION_ABORT] ∧ ac_actor c ≠ "".
Proof.
  unfold AcceptChange, attributable. intros H. peel. simplify_eq.
  destruct (bool_decide_reflect (actor = "")); [done |]. peel. to_prop.
  split; [| done]. cbn [ac_action]. destruct (ch_action asked); try done; set_solver.
Qed.

Lemma sound_wave_width r : sound_record r → wrap_uint 32 (rr_wave r + 1) = rr_wave r + 1.
Proof. intros [[Hl _] Hw]. apply wrap_uint_small. unfold MaxWaves in *. lia. Qed.

Lemma change_Apply_moves c held r ack :
  ac_action c ∈ [ACTION_PAUSE; ACTION_RESUME; ACTION_ADVANCE; ACTION_ABORT] → sound_record held →
  change_Apply c held = Ok (r, ack) →
  changes_to (len (ro_waves (rr_rollout held))) (ac_action c) (where_it_stands held) (where_it_stands r)
  ∧ rr_id r = rr_id held ∧ rr_rollout r = rr_rollout held ∧ sound_record r
  ∧ (ack = true ↔ ac_action c = ACTION_RESUME)
  ∧ rr_changed_by r = ac_actor c ∧ rr_changed_at r = ac_at c ∧ rr_reason r = ac_note c.
Proof.
  intros Hact Hsound. pose proof Hsound as [Hwaves Hw]. unfold change_Apply, where_it_stands, standing.
  cbv zeta beta. pose proof (sound_wave_width _ Hsound) as Hwidth.
  destruct (ac_action c) eqn:Ha; try (exfalso; set_solver).
  - destruct (bool_decide_reflect (rr_state held = STATE_ACTIVE)) as [->|]; [| done].
    intros [= <- <-]. split_and!; try done; by constructor.
  - destruct (bool_decide_reflect (rr_state held = STATE_PAUSED)) as [->|]; [| done].
    intros [= <- <-]. split_and!; try done; by constructor.
  - destruct (bool_decide_reflect (rr_state held = STATE_ACTIVE)) as [->|]; [| done]. cbn [negb].
    destruct (Z.leb_spec (len (ro_waves (rr_rollout held))) (rr_wave held + 1)); [done |].
    intros [= <- <-]. cbn [rr_state rr_wave rr_rollout]. rewrite Hwidth.
    split_and!; try done; [by constructor | split; [done | cbn; lia]].
  - destruct (bool_decide_reflect (rr_state held = STATE_ACTIVE)) as [->|];
      [| destruct (bool_decide_reflect (rr_state held = STATE_PAUSED)) as [->|]; [| done]];
      cbn [negb andb]; intros [= <- <-]; (split_and!; try done; by constructor).
Qed.

(** A change that is applied is one of the four moves, by the operator who asked
    for it, and leaves the rollout within its waves; a change that does not fit
    where the rollout stands is refused, so an aborted or superseded rollout
    never moves again. *)
Theorem changes_are_the_moves asked actor at_ c held :
  AcceptChange asked actor at_ = Ok c → sound_record held →
  match change_Apply c held with
  | Ok (r, ack) =>
      changes_to (len (ro_waves (rr_rollout held))) (ac_action c) (where_it_stands held) (where_it_stands r)
      ∧ sound_record r ∧ (ack = true ↔ ac_action c = ACTION_RESUME) ∧ rr_changed_by r = actor ∧ actor ≠ ""
  | Err e => e = ErrRolloutState
      ∧ ¬ ∃ next, changes_to (len (ro_waves (rr_rollout held))) (ac_action c) (where_it_stands held) next
  end.
Proof.
  intros Hc Hsound. pose proof (AcceptChange_action _ _ _ _ Hc) as [Hact Hne].
  assert (ac_actor c = actor) as Hactor by (unfold AcceptChange in Hc; by peel; simplify_eq).
  destruct (change_Apply c held) as [[r ack]|e] eqn:Happly.
  - apply change_Apply_moves in Happly as (? & _ & _ & ? & ? & ? & _); [| done | done].
    split_and!; try done; congruence.
  - revert Happly. unfold change_Apply, where_it_stands. cbv zeta beta.
    destruct (ac_action c); try (exfalso; set_solver);
      destruct (bool_decide_reflect (rr_state held = STATE_ACTIVE));
      destruct (bool_decide_reflect (rr_state held = STATE_PAUSED)); cbn [negb andb];
      destruct (Z.leb_spec (len (ro_waves (rr_rollout held))) (rr_wave held + 1));
      intros He; try discriminate He; injection He as <-; (split; [done |]); intros [next Hn]; inversion Hn; subst; congruence || lia.
Qed.

(** ** Gates *)

Section gates.
Context {wording : Wording}.

(** A wave has run its course: it opens the next one on its own, after its soak,
    with as many agents running the release as it asks for. *)
Definition soaked (r : RolloutRecord) (progress : RolloutProgress) (now : instant) : Prop :=
  ∃ wave soak, ro_waves (rr_rollout r) !! Z.to_nat (rr_wave r) = Some wave ∧ wv_soak wave = Some soak
  ∧ rr_opened_at r + sk_duration soak ≤ now ∧ wv_running wave ≤ pg_running progress.

(** A gate pauses an active rollout exactly when enough of the agents it reached
    failed, whatever else is true of it; it opens the next wave exactly when
    there is one, too few failed, and the open wave has run its course. *)
Theorem gates_pause_before_they_open r progress now :
  let step := (Gate r progress now).1 in
  (step = Pause ↔ rr_state r = STATE_ACTIVE ∧ ro_failures (rr_rollout r) ≤ pg_failed progress)
  ∧ (step = OpenNext ↔
       rr_state r = STATE_ACTIVE ∧ pg_failed progress < ro_failures (rr_rollout r)
       ∧ rr_wave r + 1 < len (ro_waves (rr_rollout r)) ∧ soaked r progress now).
Proof.
  cbv zeta. unfold Gate, soaked, before, time_add.
  destruct (bool_decide_reflect (rr_state r = STATE_ACTIVE)) as [Ha|Ha]; cbn [negb]; [| naive_solver].
  destruct (Z.leb_spec (ro_failures (rr_rollout r)) (pg_failed progress)); [naive_solver lia |].
  destruct (Z.leb_spec (len (ro_waves (rr_rollout r))) (rr_wave r + 1)); [naive_solver lia |].
  destruct (ro_waves (rr_rollout r) !! Z.to_nat (rr_wave r)) as [wave|]; [| naive_solver lia].
  destruct (wv_soak wave) as [soak|] eqn:Hs; [| naive_solver lia].
  destruct (Z.ltb_spec now (rr_opened_at r + sk_duration soak)); cbn [orb]; [naive_solver lia |].
  destruct (Z.ltb_spec (pg_running progress) (wv_running wave)); naive_solver lia.
Qed.
End gates.

(** ** Taking a release *)

(** An agent is moved back to an earlier release only when that release says it
    replaces the one the agent runs, and forward only past the oldest release it
    may be installed over; a build the catalog does not name is left alone. *)
Theorem releases_say_what_they_replace report target catalog running wanted :
  ParseVersion (st_version report) = Some running → ParseVersion target = Some wanted →
  Takes report target catalog = true →
  ∃ release, release ∈ cm_releases (catalog_message catalog)
  ∧ rs_version release = target
  ∧ up_os (rs_platform release) = st_os report ∧ up_architecture (rs_platform release) = st_architecture report
  ∧ catalog_Names catalog (st_version report) = true
  ∧ (Compare wanted running = Lt → st_version report ∈ rs_replaces release)
  ∧ (Compare wanted running = Gt → ∀ oldest, ParseVersion (rs_minimum_version release) = Some oldest →
       no_later oldest running).
Proof.
  intros Hrun Hwant. pose proof (ParseVersion_text _ _ Hrun) as Htext.
  unfold Takes. rewrite Hrun, Hwant, Htext. cbv zeta.
  change (default (mkVersion 0 0 0 [] "") (Some wanted)) with wanted.
  destruct (_ && negb _); [done |].
  destruct (List.find _ _) as [release|] eqn:Hf; [| done]. apply find_some in Hf as [Hin Hm].
  destruct (List.find _ _) as [current|] eqn:Hf2; [| done]. apply find_some in Hf2 as [Hin2 Hm2].
  destruct (_ && (_ <? _)); [done |]. intros Hc. to_prop. exists release.
  split_and!; try done; [by apply list_elem_of_In | | |].
  - unfold catalog_Names. apply existsb_exists. exists current. split; [done | by rewrite bool_decide_true].
  - intros HLt. rewrite HLt in Hc. unfold contains_elem in Hc. by to_prop.
  - intros HGt oldest Ho. rewrite HGt, Ho in Hc. to_prop. unfold no_later.
    rewrite (Compare_opp running oldest).
    destruct (Compare running oldest) eqn:Hcmp; try done.
    cbn in Hc. exfalso. apply andb_false_iff in Hc as [Hc|Hc]; to_prop; [| done].
    by rewrite Hc in Ho.
Qed.
