(* ===== verification/RolloutStore.v ===== *)
(** * Where rollouts are kept, and how the platform reads them forward

    postgres/rollouts.go (the rows, each transaction as one step) and the
    evaluator of control/rollouts.go. A transaction that fails changes nothing. A
    timestamp column keeps what [column_time] keeps of an instant; the integer
    columns hold numbers their contract bounds far below their width. The rows of
    other tables a statement reads (the newest catalog, the tenant's agents) are
    arguments. *)

From Stdlib Require Import ZArith Lia Ascii Floats.SpecFloat.
From stdpp Require Import base tactics option gmap strings pretty sorting numbers list sets.
From S2P Require Import Prelude Text Scan Version Hex Rule Contract Bytes Agent Trust Releases Rollout.

(** What a [TIMESTAMPTZ] keeps of an instant, and keeps when it is written again. *)
Class Columns := {
  column_time : instant → instant;
  column_time_again t : column_time (column_time t) = column_time t;
}.

(** ** Rows *)

Record RolloutRow := mkRow {
  col_tenant : string;
  col_version : string;
  col_failures : Z;
  col_note : string;
  col_waves : list Wave;
  col_agents : Z;
  col_rollout : Rollout;
  col_state : string;
  col_wave : Z;
  col_opened_at : instant;
  col_changes : Z;
  col_created_by : string;
  col_created_at : instant;
  col_changed_by : string;
  col_changed_at : instant;
  col_reason : string;
  col_progress : option RolloutProgress;
}.

Record RolloutTables := mkTables {
  agent_rollouts : gmap string RolloutRow;
  agent_rollout_agents : gmap string (gset string);
  agent_rollout_failing : gmap string (gset string);
  agent_rollout_acknowledged : gmap string (gset string);
}.

Inductive StoreError :=
| ErrUncataloged | ErrUnregistered | ErrUnreadable | ErrTaken
| ErrOfRollout (e : UpdateError).

(** A rollout as the store holds it. *)
Record Held := mkHeld { held_record : RolloutRecord; held_named : bool; held_changes : Z }.

Definition scanRollout (id : string) (row : RolloutRow) : result StoreError Held :=
  match ParseState (col_state row) with
  | None => Err ErrUnreadable
  | Some parsed =>
      Ok (mkHeld
        (mkRecord id
          (mkRollout (col_tenant row) (col_version row) [] (col_waves row) (col_failures row) (col_note row))
          parsed (col_wave row) (col_opened_at row) (col_created_by row) (col_created_at row)
          (col_changed_by row) (col_changed_at row) (col_reason row) (col_progress row))
        (0 <? col_agents row) (col_changes row))
  end.

(** [state IN ('active', 'paused')] *)
Definition row_in_force (row : RolloutRow) : bool :=
  bool_decide (col_state row = "active") || bool_decide (col_state row = "paused").

Definition agents_of (m : gmap string (gset string)) (id : string) : gset string := default ∅ (m !! id).

(** The agents named that are not registered. *)
Definition unregistered (named : list string) (registered : gset string) : list string :=
  filter (λ id, id ∉ registered) named.

Section store.
Context {columns : Columns}.

(** *** Start *)

Definition superseded (tenant by_ : string) (at_ : instant) (reason : string) (row : RolloutRow) : RolloutRow :=
  if bool_decide (col_tenant row = tenant) && row_in_force row then
    mkRow (col_tenant row) (col_version row) (col_failures row) (col_note row) (col_waves row) (col_agents row)
      (col_rollout row) "superseded" (col_wave row) (col_opened_at row) (col_changes row + 1)
      (col_created_by row) (col_created_at row) by_ (column_time at_) reason (col_progress row)
  else row.

Definition inserted (record : RolloutRecord) : RolloutRow :=
  let rollout := rr_rollout record in
  let at_ := column_time (rr_created_at record) in
  mkRow (ro_tenant rollout) (ro_version rollout) (ro_failures rollout) (ro_note rollout) (ro_waves rollout)
    (len (ro_agents rollout)) rollout "active" 0 at_ 0
    (rr_created_by record) at_ (rr_changed_by record) at_ (rr_reason record) None.

Definition rollouts_Start (cataloged : string → bool) (registered : gset string)
    (record : RolloutRecord) (t : RolloutTables) : result StoreError RolloutTables :=
  let rollout := rr_rollout record in
  let named := compact (sort_strings (ro_agents rollout ++ mjoin (wv_agents <$> ro_waves rollout))) in
  if negb (cataloged (ro_version rollout)) then Err ErrUncataloged
  else if negb (len (unregistered named registered) =? 0) then Err ErrUnregistered
  else if bool_decide (is_Some (agent_rollouts t !! rr_id record)) then Err ErrTaken
  else
    let taken_over := superseded (ro_tenant rollout) (rr_created_by record) (rr_created_at record)
                        ("rollout " +:+ rr_id record +:+ " took over") in
    Ok (mkTables
      (<[rr_id record := inserted record]> (taken_over <$> agent_rollouts t))
      (<[rr_id record := list_to_set (ro_agents rollout)]> (agent_rollout_agents t))
      (agent_rollout_failing t) (agent_rollout_acknowledged t)).

(** *** Change *)

Definition written_change (changed : RolloutRecord) (row : RolloutRow) : RolloutRow :=
  mkRow (col_tenant row) (col_version row) (col_failures row) (col_note row) (col_waves row) (col_agents row)
    (col_rollout row) (StateName (rr_state changed)) (rr_wave changed) (column_time (rr_opened_at changed))
    (col_changes row + 1) (col_created_by row) (col_created_at row)
    (rr_changed_by changed) (column_time (rr_changed_at changed)) (rr_reason changed) (col_progress row).

Definition rollouts_Change (accepted : AcceptedChange) (t : RolloutTables)
    : result StoreError (RolloutTables * RolloutRecord) :=
  let id := ac_rollout accepted in
  match agent_rollouts t !! id with
  | Some row =>
      if negb (bool_decide (col_tenant row = ac_tenant accepted)) then Err (ErrOfRollout ErrRolloutUnknown)
      else match scanRollout id row with
      | Err e => Err e
      | Ok held =>
          match change_Apply accepted (held_record held) with
          | Err e => Err (ErrOfRollout e)
          | Ok (changed, acknowledge) =>
              Ok (mkTables
                (<[id := written_change changed row]> (agent_rollouts t))
                (agent_rollout_agents t) (agent_rollout_failing t)
                (if acknowledge : bool then
                   <[id := agents_of (agent_rollout_acknowledged t) id ∪ agents_of (agent_rollout_failing t) id]>
                     (agent_rollout_acknowledged t)
                 else agent_rollout_acknowledged t), changed)
          end
      end
  | None => Err (ErrOfRollout ErrRolloutUnknown)
  end.

(** *** Settle *)

Record Settled := mkSettled {
  se_held : Held; se_record : RolloutRecord; se_moved : bool; se_failing : list string;
}.

Definition written_reading (settled : Settled) (row : RolloutRow) : RolloutRow :=
  let record := se_record settled in
  mkRow (col_tenant row) (col_version row) (col_failures row) (col_note row) (col_waves row) (col_agents row)
    (col_rollout row) (StateName (rr_state record)) (rr_wave record) (column_time (rr_opened_at record))
    (held_changes (se_held settled) + (if se_moved settled then 1 else 0)) (col_created_by row) (col_created_at row)
    (rr_changed_by record) (column_time (rr_changed_at record)) (rr_reason record) (rr_progress record).

(** Written only while the rollout still stands where it was read. *)
Definition rollouts_Settle (settled : Settled) (t : RolloutTables) : RolloutTables * bool :=
  let id := rr_id (se_record settled) in
  match agent_rollouts t !! id with
  | Some row =>
      if negb (col_changes row =? held_changes (se_held settled)) then (t, false)
      else (mkTables
              (<[id := written_reading settled row]> (agent_rollouts t))
              (agent_rollout_agents t)
              (<[id := list_to_set (se_failing settled)]> (agent_rollout_failing t))
              (agent_rollout_acknowledged t), true)
  | None => (t, false)
  end.

(** *** Reach *)

Record Reach := mkReach {
  rc_agents : list string; rc_pinned : gset string; rc_acknowledged : gset string;
}.

(** [listened]: the tenant's agents the platform still listens to, in order,
    each with whether a release was assigned to it one by one. *)
Definition rollouts_Reach (listened : list (string * bool)) (held : Held) (t : RolloutTables) : Reach :=
  let id := rr_id (held_record held) in
  let mine := filter (λ a, held_named held = false ∨ a.1 ∈ agents_of (agent_rollout_agents t) id) listened in
  mkReach mine.*1 (list_to_set (filter (λ a, a.2 = true) mine).*1)
    (agents_of (agent_rollout_acknowledged t) id).

(** The rollout an agent's tenant has in force, as an agent asking reads it. *)
Definition in_force_for (tenant : string) (t : RolloutTables) : list (string * RolloutRow) :=
  filter (λ p, col_tenant p.2 = tenant ∧ row_in_force p.2 = true) (map_to_list (agent_rollouts t)).

(** ** Reading a rollout forward (control/rollouts.go) *)

Context {signing : Signing} {wording : Wording}.

(** The first loop: how many agents the open waves reach, how many of those are
    assigned a release one by one, and the rest. *)
Fixpoint reached_agents (record : RolloutRecord) (pinned : gset string) (agents : list string)
    (counts : Z * Z) : Z * Z * list string :=
  match agents with
  | [] => (counts, [])
  | id :: agents =>
      if negb (Reaches (rr_id record) (rr_rollout record) (rr_wave record) id)
      then reached_agents record pinned agents counts
      else
        let counts := (count_up counts.1, counts.2) in
        if bool_decide (id ∈ pinned)
        then reached_agents record pinned agents (counts.1, count_up counts.2)
        else match reached_agents record pinned agents counts with
             | (counts, reached) => (counts, id :: reached)
             end
  end.

(** What one reading settles, from the agents' newest reports and the newest
    catalog. *)
Definition reading (held : Held) (reach : Reach) (reports : gmap string StatusReport)
    (catalog : option Catalog) (now : instant) : Settled :=
  let record := held_record held in
  match reached_agents record (rc_pinned reach) (rc_agents reach) (0, 0) with
  | ((n_reached, n_pinned), reached) =>
      let start := mkTally (mkProgress now (wrap_uint 32 (len (rc_agents reach))) n_reached n_pinned 0 0 0 0 0) [] in
      let tally := foldl (λ t id,
        tally_Count t id (Judge (reports !! id) (ro_version (rr_rollout record)) catalog)
          (bool_decide (id ∈ rc_acknowledged reach))) start reached in
      let next := mkRecord (rr_id record) (rr_rollout record) (rr_state record) (rr_wave record)
                    (rr_opened_at record) (rr_created_by record) (rr_created_at record)
                    (rr_changed_by record) (rr_changed_at record) (rr_reason record)
                    (Some (ty_progress tally)) in
      let '(step, reason) := Gate next (ty_progress tally) now in
      let moved := match step with
                   | Pause => Paused next reason now
                   | OpenNext => Opened next reason now
                   | Hold => next
                   end in
      mkSettled held moved (negb (bool_decide (step = Hold))) (ty_failing tally)
  end.

End store.
