(* ===== verification/RolloutSystem.v ===== *)
(** * Rollouts under operators and evaluators at once

    Operators start and change rollouts while any number of evaluators hold
    readings they have not written yet. Each transaction is a step; a reading is
    taken in one step and settled in a later one, against whatever the agents'
    reports and the catalog said in between. *)

From Stdlib Require Import ZArith Lia Ascii.
From stdpp Require Import base tactics option gmap strings pretty sorting numbers list sets relations.
From S2P Require Import Prelude Text Scan Version Hex Rule Contract Bytes Agent Trust Releases Rollout RolloutStore.

(** ** Counting *)

(** The outcomes counted so far. *)
Definition counted (p : RolloutProgress) : Z :=
  pg_running p + pg_failed p + pg_acknowledged p + pg_ineligible p + pg_pending p.

Definition counts_unsigned (p : RolloutProgress) : Prop :=
  0 ≤ pg_running p ∧ 0 ≤ pg_failed p ∧ 0 ≤ pg_acknowledged p ∧ 0 ≤ pg_ineligible p ∧ 0 ≤ pg_pending p.

Lemma count_up_small z : 0 ≤ z → z + 1 < 2 ^ 32 → count_up z = z + 1.
Proof. intros. apply wrap_uint_small. lia. Qed.

Lemma Count_counts t id outcome acknowledged :
  counts_unsigned (ty_progress t) → counted (ty_progress t) + 1 < 2 ^ 32 →
  pg_failed (ty_progress t) = len (ty_failing t) →
  let t' := tally_Count t id outcome acknowledged in
  counts_unsigned (ty_progress t') ∧ counted (ty_progress t') = counted (ty_progress t) + 1
  ∧ pg_failed (ty_progress t') = len (ty_failing t')
  ∧ pg_reached (ty_progress t') = pg_reached (ty_progress t) ∧ pg_pinned (ty_progress t') = pg_pinned (ty_progress t)
  ∧ pg_agents (ty_progress t') = pg_agents (ty_progress t).
Proof.
  destruct t as [[ev ag re pi ru fa ac ine pe] failing]. unfold counts_unsigned, counted, tally_Count.
  cbn [ty_progress ty_failing pg_running pg_failed pg_acknowledged pg_ineligible pg_pending].
  intros (? & ? & ? & ? & ?) Hb Hf. cbv zeta.
  destruct outcome; [| | destruct acknowledged |]; cbn; rewrite !count_up_small by lia;
    rewrite ?len_app; unfold len in *; cbn; split_and!; try done; lia.
Qed.

Lemma Counts_count {A} (judge : A → string * UpdateOutcome * bool) (l : list A) : ∀ t,
  counts_unsigned (ty_progress t) → counted (ty_progress t) + len l < 2 ^ 32 →
  pg_failed (ty_progress t) = len (ty_failing t) →
  let t' := foldl (λ t a, let '(id, outcome, ack) := judge a in tally_Count t id outcome ack) t l in
  counted (ty_progress t') = counted (ty_progress t) + len l
  ∧ pg_failed (ty_progress t') = len (ty_failing t')
  ∧ pg_reached (ty_progress t') = pg_reached (ty_progress t) ∧ pg_pinned (ty_progress t') = pg_pinned (ty_progress t)
  ∧ pg_agents (ty_progress t') = pg_agents (ty_progress t).
Proof.
  induction l as [|a l IH]; intros t Hu Hb Hf; cbv zeta; cbn [foldl].
  { unfold len. cbn. split_and!; try done. lia. }
  destruct (judge a) as [[id outcome] ack]. unfold len in Hb. cbn [length] in Hb.
  destruct (Count_counts t id outcome ack) as (Hu' & Hc & Hf' & Hr & Hp & Ha); [done | lia | done |].
  cbv zeta in *. destruct (IH (tally_Count t id outcome ack)) as (H1 & H2 & H3 & H4 & H5); [done | unfold len; lia | done |].
  cbv zeta in *. unfold len in *. cbn [length]. split_and!; try congruence; lia.
Qed.

Section rollout_system.
Context {columns : Columns} {signing : Signing} {wording : Wording}.

Record RolloutSystem := mkSystem { sys_tables : RolloutTables; sys_readings : list Held }.

Inductive system_step : RolloutSystem → RolloutSystem → Prop :=
| starting asked actor at_ drawn record cataloged registered t t' readings :
    AcceptRollout asked actor at_ drawn = Ok record →
    rollouts_Start cataloged registered record t = Ok t' →
    system_step (mkSystem t readings) (mkSystem t' readings)
| changing asked actor at_ c t t' r readings :
    AcceptChange asked actor at_ = Ok c →
    rollouts_Change c t = Ok (t', r) →
    system_step (mkSystem t readings) (mkSystem t' readings)
| taking id row held t readings :
    agent_rollouts t !! id = Some row → row_in_force row = true → scanRollout id row = Ok held →
    system_step (mkSystem t readings) (mkSystem t (held :: readings))
| settling held reach reports catalog now t readings :
    held ∈ readings →
    system_step (mkSystem t readings)
      (mkSystem (rollouts_Settle (reading held reach reports catalog now) t).1 readings).

Definition empty_tables : RolloutTables := mkTables ∅ ∅ ∅ ∅.
Definition system_start : RolloutSystem := mkSystem empty_tables [].

Definition reachable_system (s : RolloutSystem) : Prop := rtc system_step system_start s.

(** ** Rows *)

(** A row the platform reads back: a declared state, an open wave, and times a
    column keeps. *)
Definition sound_row (row : RolloutRow) : Prop :=
  is_Some (ParseState (col_state row))
  ∧ sound_waves (col_waves row) ∧ 0 ≤ col_wave row < len (col_waves row)
  ∧ column_time (col_opened_at row) = col_opened_at row
  ∧ column_time (col_changed_at row) = col_changed_at row.

(** What never changes of a row. *)
Definition same_rollout (row row' : RolloutRow) : Prop :=
  col_tenant row' = col_tenant row ∧ col_version row' = col_version row
  ∧ col_failures row' = col_failures row ∧ col_note row' = col_note row
  ∧ col_waves row' = col_waves row ∧ col_agents row' = col_agents row
  ∧ col_created_by row' = col_created_by row ∧ col_created_at row' = col_created_at row.

(** Where a row stands and who put it there. *)
Definition row_standing (row : RolloutRow) : string * Z * instant * (string * instant * string) :=
  (col_state row, col_wave row, col_opened_at row, (col_changed_by row, col_changed_at row, col_reason row)).

(** A row after a step: standing where it stood, or moved on, once. *)
Definition evolves (row row' : RolloutRow) : Prop :=
  same_rollout row row' ∧ sound_row row' ∧ (row_in_force row' = true → row_in_force row = true)
  ∧ ((col_changes row' = col_changes row ∧ row_standing row' = row_standing row)
     ∨ (col_changes row' = col_changes row + 1 ∧ row_in_force row = true ∧ col_wave row ≤ col_wave row')).

Lemma in_force_state row state :
  ParseState (col_state row) = Some state → row_in_force row = InForce state.
Proof.
  intros [Hd Hn]%state_names_read_back_1. unfold row_in_force, InForce. rewrite <- Hn. clear Hn.
  unfold declared_states in Hd.
  repeat (apply elem_of_cons in Hd as [->|Hd]; [by vm_compute |]). by apply not_elem_of_nil in Hd.
Qed.

Lemma scanRollout_ok id row held :
  scanRollout id row = Ok held →
  ∃ state, ParseState (col_state row) = Some state
  ∧ held = mkHeld
      (mkRecord id (mkRollout (col_tenant row) (col_version row) [] (col_waves row) (col_failures row) (col_note row))
        state (col_wave row) (col_opened_at row) (col_created_by row) (col_created_at row)
        (col_changed_by row) (col_changed_at row) (col_reason row) (col_progress row))
      (0 <? col_agents row) (col_changes row).
Proof.
  unfold scanRollout. destruct (ParseState (col_state row)) as [state|]; [| done]. intros [= <-]. eauto.
Qed.

(** ** What each transaction does to a row *)

Lemma superseded_evolves tenant by_ at_ reason row :
  sound_row row → evolves row (superseded tenant by_ at_ reason row).
Proof.
  intros Hs. pose proof Hs as (Hst & Hw & Hwave & Ho & Hc). unfold superseded.
  destruct (bool_decide _ && row_in_force row) eqn:Hin.
  - to_prop. split_and!; try done; try lia.
    + split_and!; try done; cbn; [lia | lia | apply column_time_again].
    + right. split_and!; [done | done | cbn; lia].
  - split_and!; try done; by left.
Qed.

Lemma changed_evolves c id row held changed ack :
  ac_action c ∈ [ACTION_PAUSE; ACTION_RESUME; ACTION_ADVANCE; ACTION_ABORT] →
  sound_row row → scanRollout id row = Ok held → change_Apply c (held_record held) = Ok (changed, ack) →
  evolves row (written_change changed row).
Proof.
  intros Hact (Hst & Hw & Hwave & Ho & Hc) (state & Hstate & ->)%scanRollout_ok Happly.
  cbn [held_record] in Happly.
  apply change_Apply_moves in Happly as (Hmove & _ & Hro & Hsound & _); [| done | by split].
  pose proof (in_force_state row state Hstate) as Hforce.
  assert (InForce state = true) as Hin.
  { inversion Hmove; subst; try done. all: by vm_compute. }
  assert (rr_state changed ∈ declared_states) as Hdecl.
  { inversion Hmove; subst; unfold declared_states; set_solver. }
  destruct Hsound as [_ Hwave']. rewrite Hro in Hwave'.
  assert (col_wave row ≤ rr_wave changed) as Hle.
  { unfold where_it_stands in Hmove. inversion Hmove; subst; cbn in *; lia. }
  cbn in Hwave'. split_and!; [by split_and! | | by rewrite Hforce |].
  - split_and!; cbn [written_change col_state col_waves col_wave col_opened_at col_changed_at].
    + eexists. by apply state_names_read_back_2.
    + done.
    + lia.
    + lia.
    + apply column_time_again.
    + apply column_time_again.
  - right. split_and!; [done | by rewrite Hforce | done].
Qed.

(** A record with another progress. *)
Definition with_progress (r : RolloutRecord) (progress : option RolloutProgress) : RolloutRecord :=
  mkRecord (rr_id r) (rr_rollout r) (rr_state r) (rr_wave r) (rr_opened_at r) (rr_created_by r)
    (rr_created_at r) (rr_changed_by r) (rr_changed_at r) (rr_reason r) progress.

(** What a gate's step makes of a record. *)
Definition stepped (step : Step) (r : RolloutRecord) (reason : string) (now : instant) : RolloutRecord :=
  match step with
  | Pause => Paused r reason now
  | OpenNext => Opened r reason now
  | Hold => r
  end.

Lemma reading_spec held reach reports catalog now :
  let s := reading held reach reports catalog now in
  se_held s = held ∧ ∃ progress step reason,
    let next := with_progress (held_record held) (Some progress) in
    Gate next progress now = (step, reason) ∧ se_record s = stepped step next reason now
    ∧ se_moved s = negb (bool_decide (step = Hold)).
Proof.
  cbv zeta. unfold reading.
  destruct (reached_agents _ _ _ _) as [[n_reached n_pinned] reached].
  set (tally := foldl _ _ _).
  change (mkRecord _ _ _ _ _ _ _ _ _ _ (Some (ty_progress tally)))
    with (with_progress (held_record held) (Some (ty_progress tally))).
  destruct (Gate _ _ now) as [step reason] eqn:Hgate. split; [done |].
  exists (ty_progress tally), step, reason. by destruct step.
Qed.

(** A reading of the row, whatever progress was written since. *)
Definition reads (id : string) (held : Held) (row : RolloutRow) : Prop :=
  ∃ state progress, ParseState (col_state row) = Some state
  ∧ held = mkHeld
      (mkRecord id (mkRollout (col_tenant row) (col_version row) [] (col_waves row) (col_failures row) (col_note row))
        state (col_wave row) (col_opened_at row) (col_created_by row) (col_created_at row)
        (col_changed_by row) (col_changed_at row) (col_reason row) progress)
      (0 <? col_agents row) (col_changes row).

Lemma scan_reads id row held : scanRollout id row = Ok held → reads id held row.
Proof. intros (state & Hstate & ->)%scanRollout_ok. by exists state, (col_progress row). Qed.

Lemma gate_moves r progress now step reason :
  Gate r progress now = (step, reason) →
  step = Hold ∨ (rr_state r = STATE_ACTIVE ∧
    (step = Pause ∨ step = OpenNext ∧ rr_wave r + 1 < len (ro_waves (rr_rollout r)))).
Proof.
  unfold Gate. destruct (bool_decide_reflect (rr_state r = STATE_ACTIVE)); cbn [negb]; [| naive_solver].
  destruct (_ <=? pg_failed progress); [naive_solver |].
  destruct (Z.leb_spec (len (ro_waves (rr_rollout r))) (rr_wave r + 1)); [naive_solver |].
  repeat case_match; naive_solver.
Qed.

Lemma settled_evolves id held row reach reports catalog now :
  sound_row row → reads id held row →
  evolves row (written_reading (reading held reach reports catalog now) row).
Proof.
  intros Hs (state & progress & Hstate & Hr). pose proof Hs as (Hst & Hw & Hwave & Ho & Hc).
  destruct (reading_spec held reach reports catalog now)
    as (Hheld & progress' & step & reason & Hgate & Hrec & Hmoved).
  cbv zeta in *. generalize dependent (reading held reach reports catalog now). intros s Hheld Hrec Hmoved.
  apply state_names_read_back_1 in Hstate as [Hd Hn].
  assert (row_in_force row = InForce state) as Hforce
    by (apply in_force_state; rewrite <- Hn; by apply state_names_read_back_2).
  unfold evolves, written_reading. cbv zeta. rewrite Hheld, Hrec, Hmoved. rewrite Hr in Hgate |- *. clear Hheld Hrec Hmoved Hr.
  apply gate_moves in Hgate as [->|[Hactive Hstep]].
  - cbn [stepped with_progress held_record rr_state rr_wave rr_opened_at rr_changed_by rr_changed_at rr_reason rr_progress negb held_changes].
    rewrite bool_decide_true by done. cbn [negb]. rewrite Hn, Ho, Hc, Z.add_0_r.
    split_and!; try done. by left.
  - cbn in Hactive. subst state. rewrite Hforce.
    assert (wrap_uint 32 (col_wave row + 1) = col_wave row + 1) as Hwrap.
    { apply wrap_uint_small. destruct Hw as [Hl _]. unfold MaxWaves in Hl. lia. }
    destruct Hstep as [->|[-> Hnext]];
      (split_and!; [done | | done | right; split_and!; [done | done |]]); cbn; rewrite ?Hwrap; try lia;
      (split_and!; cbn; rewrite ?Hwrap; try done; try apply column_time_again; try lia).
    all: cbn in Hnext; lia.
Qed.

(** ** The invariant *)

Definition rows_of (s : RolloutSystem) : gmap string RolloutRow := agent_rollouts (sys_tables s).

Definition one_in_force (rows : gmap string RolloutRow) : Prop :=
  ∀ id1 id2 row1 row2, rows !! id1 = Some row1 → rows !! id2 = Some row2 →
    row_in_force row1 = true → row_in_force row2 = true → col_tenant row1 = col_tenant row2 → id1 = id2.

(** A reading not written yet is of a row that has moved since, or stands where
    it was read. *)
Definition reading_current (rows : gmap string RolloutRow) (held : Held) : Prop :=
  ∃ row, rows !! rr_id (held_record held) = Some row ∧ held_changes held ≤ col_changes row
  ∧ (held_changes held = col_changes row → reads (rr_id (held_record held)) held row).

Record system_inv (s : RolloutSystem) : Prop := {
  inv_rows id row : rows_of s !! id = Some row → sound_row row;
  inv_one : one_in_force (rows_of s);
  inv_readings held : held ∈ sys_readings s → reading_current (rows_of s) held;
}.

Lemma evolves_refl row : sound_row row → evolves row row.
Proof. intros Hs. split_and!; try done. by left. Qed.

(** Every row lives on, evolved; a new one is the only one its tenant has in force. *)
Definition rows_evolve (rows rows' : gmap string RolloutRow) : Prop :=
  (∀ id row, rows !! id = Some row → ∃ row', rows' !! id = Some row' ∧ evolves row row')
  ∧ (∀ id row', rows' !! id = Some row' → is_Some (rows !! id) ∨
      (sound_row row' ∧ ∀ id2 row2, rows' !! id2 = Some row2 → row_in_force row2 = true →
         col_tenant row2 = col_tenant row' → id2 = id)).

Lemma insert_evolves (rows : gmap string RolloutRow) id row row' :
  (∀ id row, rows !! id = Some row → sound_row row) →
  rows !! id = Some row → evolves row row' → rows_evolve rows (<[id := row']> rows).
Proof.
  intros Hsound Hrow Hev. split.
  - intros id2 row2 H2. destruct (decide (id = id2)) as [<-|Hne].
    + rewrite lookup_insert_eq. simplify_eq. by eexists.
    + rewrite lookup_insert_ne by done. exists row2. split; [done | apply evolves_refl; by eapply Hsound].
  - intros id2 row2. destruct (decide (id = id2)) as [<-|Hne]; [by left; eexists |].
    rewrite lookup_insert_ne by done. intros H. left. by eexists.
Qed.

Lemma started_evolves cataloged registered asked actor at_ drawn record t t' :
  (∀ id row, agent_rollouts t !! id = Some row → sound_row row) →
  AcceptRollout asked actor at_ drawn = Ok record →
  rollouts_Start cataloged registered record t = Ok t' →
  rows_evolve (agent_rollouts t) (agent_rollouts t').
Proof.
  intros Hsound Hacc. unfold rollouts_Start. cbv zeta.
  destruct (negb _); [done |]. destruct (negb _); [done |].
  destruct (bool_decide_reflect (is_Some (agent_rollouts t !! rr_id record))) as [|Hfresh]; [done |].
  intros [= <-]. cbn [agent_rollouts]. set (take := superseded _ _ _ _).
  assert (∀ id row, agent_rollouts t !! id = Some row → id ≠ rr_id record) as Hne.
  { intros id row Hrow ->. by apply Hfresh. }
  split.
  - intros id row Hrow. rewrite lookup_insert_ne by (apply not_eq_sym; by eapply Hne).
    rewrite lookup_fmap, Hrow. eexists. split; [done |]. apply superseded_evolves. by eapply Hsound.
  - intros id row'. destruct (decide (rr_id record = id)) as [<-|Hid].
    + rewrite lookup_insert_eq. intros [= <-]. right.
      unfold AcceptRollout in Hacc. peel. destruct drawn as [drawn|]; [| done]. peel.
      match goal with H : validateWaves _ _ = Ok ?u |- _ => destruct u; apply validateWaves_sound in H as Hw end.
      split.
      * unfold inserted, sound_row. cbn. pose proof Hw as [Hl _].
        split_and!; try apply column_time_again; try done; lia.
      * intros id2 row2 H2 Hin Ht. cbn [rr_id] in *.
        destruct (decide (newRolloutID drawn = id2)) as [|Hne2]; [done |]. exfalso. revert H2. rewrite lookup_insert_ne by done.
        rewrite lookup_fmap_Some. intros (row & <- & Hrow).
        revert Hin Ht. subst take. unfold superseded. cbn [rr_rollout inserted].
        destruct (bool_decide_reflect (col_tenant row = ro_tenant asked)); cbn [andb].
        -- destruct (row_in_force row) eqn:Hf; [by intros ?%bool_decide_eq_true | by rewrite Hf].
        -- by intros _ Ht.
    + rewrite lookup_insert_ne, lookup_fmap by done. destruct (agent_rollouts t !! id); [by left; eexists | done].
Qed.

Lemma settle_evolves s held reach reports catalog now :
  system_inv s → held ∈ sys_readings s →
  rows_evolve (rows_of s) (agent_rollouts (rollouts_Settle (reading held reach reports catalog now) (sys_tables s)).1).
Proof.
  intros Hinv Hin. destruct (inv_readings _ Hinv _ Hin) as (row & Hrow & Hle & Hreads).
  unfold rollouts_Settle. cbv zeta.
  destruct (reading_spec held reach reports catalog now) as (Hheld & p & step & reason & _ & Hrec & _).
  cbv zeta in *. assert (rr_id (se_record (reading held reach reports catalog now)) = rr_id (held_record held)) as Hid
    by (rewrite Hrec; by destruct step).
  rewrite Hid, Hheld. fold (rows_of s). rewrite Hrow.
  destruct (Z.eqb_spec (col_changes row) (held_changes held)) as [Heq|_]; cbn [negb fst].
  - apply (insert_evolves _ _ row); [apply (inv_rows _ Hinv) | done |].
    eapply settled_evolves; [by eapply inv_rows |]. by apply Hreads.
  - split; [| intros id row' H; left; by eexists].
    intros id row' H. exists row'. split; [done | apply evolves_refl; by eapply inv_rows].
Qed.

Lemma step_evolves s s' : system_inv s → system_step s s' → rows_evolve (rows_of s) (rows_of s').
Proof.
  intros Hinv Hstep. pose proof (inv_rows _ Hinv) as Hsound.
  destruct Hstep as [asked actor at_ drawn record cataloged registered t t' readings Hacc Hstart
    |asked actor at_ c t t' r readings Hacc Hchange|id row held t readings Hrow Hf Hscan
    |held reach reports catalog now t readings Hin]; unfold rows_of in *; cbn [sys_tables] in *.
  - by eapply started_evolves.
  - apply AcceptChange_action in Hacc as [Hact _]. unfold rollouts_Change in Hchange. cbv zeta in Hchange.
    destruct (agent_rollouts t !! ac_rollout c) as [row|] eqn:Hrow; [| done].
    destruct (negb _); [done |]. destruct (scanRollout _ row) as [held|] eqn:Hscan; [| done].
    destruct (change_Apply c (held_record held)) as [[changed ack]|] eqn:Happly; [| done].
    injection Hchange as <- _. cbn [agent_rollouts]. eapply insert_evolves; [done | done |].
    eapply changed_evolves; [done | by eapply Hsound | done | done].
  - split; [| intros ??; by left; eexists]. intros id2 row2 H2. exists row2.
    split; [done | apply evolves_refl; by eapply Hsound].
  - by apply (settle_evolves (mkSystem t readings)).
Qed.

(** A row that stands where it was read reads the same after it only gained progress. *)
Lemma evolves_reads id held row row' :
  evolves row row' → held_changes held ≤ col_changes row →
  (held_changes held = col_changes row → reads id held row) →
  held_changes held ≤ col_changes row' ∧ (held_changes held = col_changes row' → reads id held row').
Proof.
  intros ((Ht & Hv & Hf & Hn & Hw & Ha & Hcb & Hca) & _ & _ & [[Hch Hst]|[Hch _]]) Hle Hreads; [| lia].
  split; [lia |]. rewrite Hch. intros Heq. destruct (Hreads Heq) as (state & progress & Hstate & Hheld).
  injection Hst as H1 H2 H3 H4 H5 H6. exists state, progress. rewrite H1. split; [done |].
  rewrite Hheld. by rewrite Ht, Hv, Hf, Hn, Hw, Ha, Hcb, Hca, Hch, H2, H3, H4, H5, H6.
Qed.

Lemma system_inv_step s s' : system_inv s → system_step s s' → system_inv s'.
Proof.
  intros Hinv Hstep. pose proof (step_evolves _ _ Hinv Hstep) as [Hold Hnew]. split.
  - intros id row' H'. destruct (Hnew _ _ H') as [[row Hrow]|[? _]]; [| done].
    destruct (Hold _ _ Hrow) as (row2 & H2 & (_ & ? & _)). by simplify_eq.
  - intros id1 id2 row1 row2 H1 H2 Hf1 Hf2 Ht.
    destruct (Hnew _ _ H1) as [[old1 Ho1]|[_ Honly]]; [| symmetry; by eapply Honly].
    destruct (Hnew _ _ H2) as [[old2 Ho2]|[_ Honly]]; [| by eapply Honly].
    destruct (Hold _ _ Ho1) as (row1' & H1' & ((Ht1 & _) & _ & Hforce1 & _)).
    destruct (Hold _ _ Ho2) as (row2' & H2' & ((Ht2 & _) & _ & Hforce2 & _)). simplify_eq.
    eapply (inv_one _ Hinv); [done | done | by apply Hforce1 | by apply Hforce2 | congruence].
  - assert (∀ held, held ∈ sys_readings s → reading_current (rows_of s') held) as Hkeep.
    { intros held Hin. destruct (inv_readings _ Hinv _ Hin) as (row & Hrow & Hle & Hreads).
      destruct (Hold _ _ Hrow) as (row' & H' & Hev). exists row'. split; [done |]. by eapply evolves_reads. }
    intros held Hin. inversion Hstep as [| |id row held' t readings Hrow Hf Hscan|]; subst; try by apply Hkeep.
    cbn [sys_readings] in Hin. apply elem_of_cons in Hin as [->|Hin]; [| by apply Hkeep].
    apply scan_reads in Hscan as Hr. pose proof Hr as (state & progress & _ & ->).
    exists row. split_and!; [done | cbn; lia | done].
Qed.

Lemma reachable_inv s : reachable_system s → system_inv s.
Proof.
  unfold reachable_system. assert (system_inv system_start) as Hstart.
  { split.
    - intros id row H. unfold rows_of in H. cbn in H. by rewrite lookup_empty in H.
    - intros id1 id2 row1 row2 H. unfold rows_of in H. cbn in H. by rewrite lookup_empty in H.
    - intros held H. by apply not_elem_of_nil in H. }
  revert Hstart. generalize system_start. intros s0 H0 Hrtc.
  induction Hrtc as [|x y z Hxy _ IH]; [done |]. apply IH. by eapply system_inv_step.
Qed.

(** ** What holds whatever operators and evaluators do at once *)

(** C28. A tenant never has two rollouts in force. *)
Theorem a_tenant_has_one_rollout_in_force s id1 id2 row1 row2 :
  reachable_system s →
  agent_rollouts (sys_tables s) !! id1 = Some row1 → agent_rollouts (sys_tables s) !! id2 = Some row2 →
  row_in_force row1 = true → row_in_force row2 = true → col_tenant row1 = col_tenant row2 → id1 = id2.
Proof. intros Hs%reachable_inv. by apply (inv_one _ Hs). Qed.


(** Whatever steps are taken, a rollout keeps its waves, never closes one that
    was opened, and stays as it was left once it is aborted or superseded. *)
Theorem rollouts_only_move_forward s s' id row :
  reachable_system s → rtc system_step s s' →
  agent_rollouts (sys_tables s) !! id = Some row →
  ∃ row', agent_rollouts (sys_tables s') !! id = Some row'
  ∧ col_waves row' = col_waves row ∧ col_wave row ≤ col_wave row' < len (col_waves row)
  ∧ (row_in_force row = false → row_standing row' = row_standing row).
Proof.
  intros Hs%reachable_inv Hrtc. revert row.
  induction Hrtc as [s|x y z Hxy _ IH]; intros row Hrow.
  - exists row. pose proof (inv_rows _ Hs _ _ Hrow) as (_ & _ & ? & _). split_and!; [done | done | lia | lia | done].
  - destruct (step_evolves _ _ Hs Hxy) as [Hold _].
    destruct (Hold _ _ Hrow) as (row1 & H1 & ((_ & _ & _ & _ & Hw & _) & _ & Hf & Hmove)).
    destruct (IH (system_inv_step _ _ Hs Hxy) _ H1) as (row' & H' & Hw' & Hwave & Hfinal).
    exists row'. rewrite Hw' , Hw in *.
    assert (col_wave row ≤ col_wave row1) as Hle.
    { destruct Hmove as [[_ [= _ -> _ _ _ _]]|(_ & _ & ?)]; lia. }
    split_and!; [done | done | lia | lia |]. intros Hnf.
    destruct Hmove as [[_ Hst]|(_ & Hin & _)]; [| congruence].
    rewrite <- Hst. apply Hfinal. destruct (row_in_force row1) eqn:H2; [| done]. rewrite Hf in Hnf; done.
Qed.

Lemma reached_agents_count record pinned agents : ∀ r p r' p' reached,
  0 ≤ p ≤ r → r + len agents < 2 ^ 32 →
  reached_agents record pinned agents (r, p) = ((r', p'), reached) →
  r' - p' = r - p + len reached ∧ 0 ≤ p' ≤ r' ∧ r' ≤ r + len agents.
Proof.
  induction agents as [|id agents IH]; intros r p r' p' reached Hp Hb; cbn [reached_agents].
  { intros [= <- <- <-]. unfold len. cbn. lia. }
  unfold len in Hb. cbn [length] in Hb. destruct (negb _).
  { intros H%IH; [| done | unfold len; lia]. unfold len in *. cbn [length]. lia. }
  cbv zeta. cbn [fst snd]. rewrite count_up_small by lia. destruct (bool_decide _).
  { rewrite count_up_small by lia. intros H%IH; [| lia | unfold len; lia]. unfold len in *. cbn [length]. lia. }
  destruct (reached_agents record pinned agents (r + 1, p)) as [[r2 p2] reached2] eqn:He.
  intros [= <- <- <-]. apply IH in He; [| lia | unfold len; lia]. unfold len in *. cbn [length]. lia.
Qed.

(** A reading accounts for every agent the open waves reach: each is assigned a
    release of its own or counted under exactly one outcome, and the failures
    that can pause the rollout are the agents an operator is told of. *)
Theorem a_reading_counts_every_agent_once held reach reports catalog now :
  len (rc_agents reach) < 2 ^ 32 →
  let s := reading held reach reports catalog now in
  ∃ progress, rr_progress (se_record s) = Some progress
  ∧ pg_agents progress = len (rc_agents reach) ∧ pg_reached progress ≤ pg_agents progress
  ∧ pg_reached progress = pg_pinned progress + counted progress
  ∧ pg_failed progress = len (se_failing s).
Proof.
  intros Hb. cbv zeta. unfold reading.
  destruct (reached_agents _ _ _ _) as [[r p] reached] eqn:Hr.
  apply reached_agents_count in Hr as (Hsum & Hp & Hle); [| lia | lia].
  set (start := mkTally _ _). set (tally := foldl _ _ _). pose proof (len_nonneg reached).
  destruct (Counts_count (λ id, (id, Judge (reports !! id) (ro_version (rr_rollout (held_record held))) catalog,
    bool_decide (id ∈ rc_acknowledged reach))) reached start) as (H1 & H2 & H3 & H4 & H5);
    [by unfold counts_unsigned | subst start; unfold counted; cbn; lia | done |].
  cbv zeta in *. fold tally in H1, H2, H3, H4, H5.
  assert (pg_agents (ty_progress start) = len (rc_agents reach)) as Hall.
  { subst start. cbn. apply wrap_uint_small. pose proof (len_nonneg (rc_agents reach)). lia. }
  destruct (Gate _ _ now) as [step reason]. cbn [se_record se_failing].
  exists (ty_progress tally). split; [by destruct step |].
  rewrite H3, H4, H5, H1, Hall. unfold counted. cbn [start ty_progress pg_reached pg_pinned pg_agents pg_running pg_failed pg_acknowledged pg_ineligible pg_pending].
  split_and!; [done | lia | lia | done].
Qed.
End rollout_system.
