(* ===== verification/Authz.v ===== *)
(** * Authorization: who a caller is, what they may do and where

    authz/permission.go, role.go, grant.go and policy.go. Maps are keyed as the
    package keys them; SHA-256 is an argument of what names a policy. *)

From Stdlib Require Import ZArith Lia Ascii.
From stdpp Require Import base tactics option gmap strings sorting numbers list sets.
From S2P Require Import Prelude Text Scan Hex Bytes Agent.


(** ** Permissions (permission.go) *)

Abbreviation Resource := string (only parsing).
Definition EventsResource : Resource := "events".
Definition Detections : Resource := "detections".
Definition Rulesets : Resource := "rulesets".
Definition Alerts : Resource := "alerts".
Definition Incidents : Resource := "incidents".
Definition Agents : Resource := "agents".
Definition Policies : Resource := "policies".
Definition Sessions : Resource := "sessions".

Definition resources : list Resource :=
  [EventsResource; Detections; Rulesets; Alerts; Incidents; Agents; Policies; Sessions].

Definition Resource_Valid (r : Resource) : bool := contains_elem resources r.

Abbreviation Action := string (only parsing).
Definition Read : Action := "read".
Definition Write : Action := "write".
Definition Delete : Action := "delete".

Definition actions : list Action := [Read; Write; Delete].

Definition Action_Valid (a : Action) : bool := contains_elem actions a.

Record Permission := mkPermission { p_resource : Resource; p_action : Action }.
#[global] Instance Permission_eq_dec : EqDecision Permission.
Proof. solve_decision. Defined.

Definition Permission_Valid (p : Permission) : bool :=
  Resource_Valid (p_resource p) && Action_Valid (p_action p).

Definition Permission_String (p : Permission) : string := p_resource p +:+ ":" +:+ p_action p.

Inductive AuthzError :=
| NotAPermission | NoSuchResource | NoSuchAction
| BadRole | BadSubject | BadTenant | EmptyRole | EmptyBinding
| DeclaredTwice | BoundTwice | NoRole | ErrEmptyPolicy | ErrUnknownSubject.
#[global] Instance AuthzError_eq_dec : EqDecision AuthzError.
Proof. solve_decision. Defined.

Definition ParsePermission (written : string) : result AuthzError Permission :=
  let '(resource, action, found) := Cut written ":" in
  if negb found then Err NotAPermission
  else if negb (Resource_Valid resource) then Err NoSuchResource
  else if negb (Action_Valid action) then Err NoSuchAction
  else Ok (mkPermission resource action).

Definition permission_le (one other : Permission) : Prop :=
  if decide (p_resource one = p_resource other) then String.le (p_action one) (p_action other)
  else String.le (p_resource one) (p_resource other).

#[global] Instance permission_le_dec : RelDecision permission_le.
Proof. intros one other. unfold permission_le. case_decide; apply _. Defined.

Definition sortPermissions (permissions : list Permission) : list Permission :=
  merge_sort permission_le permissions.

(** ** Roles (role.go) *)

(** [^[a-z][a-z0-9-]{0,63}$] *)
Definition rolePattern : pattern :=
  Then (One lowercase) (at_most 63 (One (λ c, alnum_lower c || bool_decide (c = "-"%char)))).

Definition ValidRole (name : string) : bool := MatchString rolePattern name.

Record Role := mkRole { role_name : string; role_description : string; role_permissions : list Permission }.

(** The loop that keeps each permission once, refusing what is not one. *)
Fixpoint keep_permissions (kept permissions : list Permission) : result AuthzError (list Permission) :=
  match permissions with
  | [] => Ok kept
  | p :: permissions =>
      if negb (Permission_Valid p) then Err NotAPermission
      else keep_permissions (add_once kept p) permissions
  end.

Definition NewRole (name description : string) (permissions : list Permission) : result AuthzError Role :=
  (refuse (negb (ValidRole name)) BadRole ;;
   refuse (bool_decide (description = "")) EmptyRole ;;
   refuse (len permissions =? 0) EmptyRole ;;
   kept ← keep_permissions [] permissions;
   Ok (mkRole name description (sortPermissions kept)))%go.

Definition role_Allows (r : Role) (p : Permission) : bool := contains_elem (role_permissions r) p.

(** ** Bindings and policies (policy.go) *)

(** [^[A-Za-z0-9][A-Za-z0-9._:@-]{0,127}$] *)
Definition subjectPattern : pattern :=
  Then (One alnum) (at_most 127 (One (λ c, alnum c || among ["."; "_"; ":"; "@"; "-"]%char c))).

Definition ValidSubject (name : string) : bool := MatchString subjectPattern name.

Record PolicyBinding := mkPolicyBinding {
  pb_subject : string; pb_roles : list string; pb_tenants : list string;
}.

Fixpoint keep_names (valid : string → bool) (e : AuthzError) (kept names : list string)
    : result AuthzError (list string) :=
  match names with
  | [] => Ok kept
  | name :: names => if negb (valid name) then Err e else keep_names valid e (add_once kept name) names
  end.

Definition NewBinding (subject : string) (roles tenants : list string) : result AuthzError PolicyBinding :=
  (refuse (negb (ValidSubject subject)) BadSubject ;;
   keptRoles ← keep_names ValidRole BadRole [] roles;
   refuse (len keptRoles =? 0) EmptyBinding ;;
   keptTenants ← keep_names ValidIdentifier BadTenant [] tenants;
   refuse (len keptTenants =? 0) EmptyBinding ;;
   Ok (mkPolicyBinding subject (sort_strings keptRoles) (sort_strings keptTenants)))%go.

Record Policy := mkPolicy {
  pol_id : string;
  pol_roles : gmap string Role;
  pol_bindings : gmap string PolicyBinding;
}.

Fixpoint roles_by_name (byName : gmap string Role) (roles : list Role)
    : result AuthzError (gmap string Role) :=
  match roles with
  | [] => Ok byName
  | role :: roles =>
      if bool_decide (role_name role = "") then Err EmptyRole
      else if bool_decide (is_Some (byName !! role_name role)) then Err DeclaredTwice
      else roles_by_name (<[role_name role := role]> byName) roles
  end.

Fixpoint bindings_by_subject (byName : gmap string Role) (bySubject : gmap string PolicyBinding)
    (bindings : list PolicyBinding) : result AuthzError (gmap string PolicyBinding) :=
  match bindings with
  | [] => Ok bySubject
  | binding :: bindings =>
      if bool_decide (pb_subject binding = "") then Err EmptyBinding
      else if bool_decide (is_Some (bySubject !! pb_subject binding)) then Err BoundTwice
      else if negb (forallb (λ name, bool_decide (is_Some (byName !! name))) (pb_roles binding)) then Err NoRole
      else bindings_by_subject byName (<[pb_subject binding := binding]> bySubject) bindings
  end.

(** *** What names a policy *)

Definition sorted_keys {A} (m : gmap string A) : list string := sort_strings (map_to_list m).*1.

Definition role_parts (role : Role) : list string :=
  ["role"; role_name role; role_description role]
  ++ mjoin ((λ p, ["permission"; Permission_String p]) <$> role_permissions role).

Definition binding_parts (binding : PolicyBinding) : list string :=
  ["binding"; pb_subject binding]
  ++ mjoin ((λ role, ["holds"; role]) <$> pb_roles binding)
  ++ mjoin ((λ tenant, ["within"; tenant]) <$> pb_tenants binding).

(** What the digest is written, part by part: a key of the map is always found
    under it. *)
Definition policy_parts (roles : gmap string Role) (bindings : gmap string PolicyBinding) : list string :=
  mjoin ((λ name, match roles !! name with Some role => role_parts role | None => [] end) <$> sorted_keys roles)
  ++ mjoin ((λ subject, match bindings !! subject with Some b => binding_parts b | None => [] end)
       <$> sorted_keys bindings).

Definition policy_identify (digest : string → string) (roles : gmap string Role)
    (bindings : gmap string PolicyBinding) : string :=
  String.substring 0 32 (hex_encode (digest (frames (policy_parts roles bindings)))).

Definition policy_Compile (digest : string → string) (roles : list Role) (bindings : list PolicyBinding)
    : result AuthzError Policy :=
  (byName ← roles_by_name ∅ roles;
   bySubject ← bindings_by_subject byName ∅ bindings;
   refuse (bool_decide (bySubject = ∅)) ErrEmptyPolicy ;;
   Ok (mkPolicy (policy_identify digest byName bySubject) byName bySubject))%go.

(** ** Grants and decisions (grant.go) *)

Record Grant := mkGrant {
  g_subject : string; g_roles : list string; g_tenants : list string; g_permissions : list Permission;
}.

(** The zero value. *)
Definition no_grant : Grant := mkGrant "" [] [] [].

Definition policy_Grant (p : Policy) (subject : string) : result AuthzError Grant :=
  match pol_bindings p !! subject with
  | None => Err ErrUnknownSubject
  | Some binding =>
      let permissions := foldl add_once []
        (mjoin ((λ name, match pol_roles p !! name with Some r => role_permissions r | None => [] end)
                  <$> pb_roles binding)) in
      Ok (mkGrant (pb_subject binding) (pb_roles binding) (pb_tenants binding) (sortPermissions permissions))
  end.

Inductive AuthReason := Allowed | NoGrant | NoPermission | OutOfTenant | Undeclared.
#[global] Instance AuthReason_eq_dec : EqDecision AuthReason.
Proof. solve_decision. Defined.

Record AuthDecision := mkDecision { dn_reason : AuthReason; dn_permission : Permission; dn_tenant : string }.

Definition decision_Allowed (d : AuthDecision) : bool := bool_decide (dn_reason d = Allowed).

Definition grant_Empty (g : Grant) : bool := bool_decide (g_subject g = "").

Definition grant_Decide (g : Grant) (permission : Permission) : AuthDecision :=
  mkDecision
    (if negb (Permission_Valid permission) then Undeclared
     else if grant_Empty g then NoGrant
     else if negb (contains_elem (g_permissions g) permission) then NoPermission
     else Allowed) permission "".

Definition DecideWithin (g : Grant) (permission : Permission) (tenant : string) : AuthDecision :=
  let decision := grant_Decide g permission in
  if negb (decision_Allowed decision) then mkDecision (dn_reason decision) permission tenant
  else if bool_decide (tenant = "") || negb (contains_elem (g_tenants g) tenant)
  then mkDecision OutOfTenant permission tenant
  else mkDecision (dn_reason decision) permission tenant.

Definition grant_Within (g : Grant) (tenant : string) : bool :=
  negb (bool_decide (tenant = "")) && contains_elem (g_tenants g) tenant.

(** * What a policy grants, and what names it *)


(** ** Permissions *)

Lemma Resource_free r : Resource_Valid r = true → free_of ":" r.
Proof.
  unfold Resource_Valid, contains_elem. intros H%bool_decide_eq_true. unfold resources in H.
  repeat (apply elem_of_cons in H as [->|H]; [by vm_compute |]). by apply not_elem_of_nil in H.
Qed.

Lemma permissions_read_back_iff written p :
  ParsePermission written = Ok p ↔ Permission_Valid p = true ∧ Permission_String p = written.
Proof.
  unfold ParsePermission, Permission_Valid, Permission_String. rewrite andb_true_iff. split.
  - destruct (Cut written ":") as [[resource action] found] eqn:Hcut. apply Cut_spec in Hcut as [_ Hw].
    destruct found; [| done]. cbn [negb].
    destruct (Resource_Valid resource) eqn:Hr; [| done]. destruct (Action_Valid action) eqn:Ha; [| done].
    intros [= <-]. done.
  - destruct p as [resource action]. cbn. intros [[Hr Ha] <-].
    change (":" +:+ action) with (String ":" action). rewrite Cut_app by by apply Resource_free.
    by rewrite Hr, Ha.
Qed.

(** A permission is written one way and reads back as itself. *)
Theorem permissions_read_back written p :
  ParsePermission written = Ok p ↔ Permission_Valid p = true ∧ Permission_String p = written.
Proof. apply permissions_read_back_iff. Qed.

Lemma Permission_String_inj p q :
  Permission_Valid p = true → Permission_Valid q = true → Permission_String p = Permission_String q → p = q.
Proof.
  intros Hp Hq H.
  pose proof (proj2 (permissions_read_back_iff (Permission_String p) p) (conj Hp eq_refl)) as H1.
  pose proof (proj2 (permissions_read_back_iff (Permission_String q) q) (conj Hq eq_refl)) as H2.
  rewrite H in H1. congruence.
Qed.

(** ** Roles and bindings keep what they were given *)

Lemma elem_of_foldl_add_once {A} `{EqDecision A} (l : list A) : ∀ kept x,
  x ∈ foldl add_once kept l ↔ x ∈ kept ∨ x ∈ l.
Proof.
  induction l as [|y l IH]; intros kept x; cbn [foldl]; [set_solver |].
  rewrite IH, elem_of_add_once. set_solver.
Qed.

Lemma elem_of_sortPermissions l p : p ∈ sortPermissions l ↔ p ∈ l.
Proof. unfold sortPermissions. by rewrite merge_sort_Permutation. Qed.

Lemma elem_of_sort_strings l x : x ∈ sort_strings l ↔ x ∈ l.
Proof. by rewrite sort_strings_perm. Qed.

Lemma keep_permissions_ok permissions : ∀ kept kept',
  keep_permissions kept permissions = Ok kept' →
  (∀ p, p ∈ kept' ↔ p ∈ kept ∨ p ∈ permissions) ∧ Forall (λ p, Permission_Valid p = true) permissions.
Proof.
  induction permissions as [|p permissions IH]; intros kept kept'; cbn [keep_permissions].
  { intros [= <-]. split; [set_solver | constructor]. }
  destruct (Permission_Valid p) eqn:Hv; [| done]. cbn [negb]. intros [H1 H2]%IH.
  split; [| by constructor]. intros q. rewrite H1, elem_of_add_once. set_solver.
Qed.

Lemma keep_names_ok valid e names : ∀ kept kept',
  keep_names valid e kept names = Ok kept' →
  (∀ x, x ∈ kept' ↔ x ∈ kept ∨ x ∈ names) ∧ Forall (λ x, valid x = true) names.
Proof.
  induction names as [|x names IH]; intros kept kept'; cbn [keep_names].
  { intros [= <-]. split; [set_solver | constructor]. }
  destruct (valid x) eqn:Hv; [| done]. cbn [negb]. intros [H1 H2]%IH.
  split; [| by constructor]. intros y. rewrite H1, elem_of_add_once. set_solver.
Qed.

Lemma NewRole_ok name description permissions role :
  NewRole name description permissions = Ok role →
  role_name role = name ∧ role_description role = description
  ∧ (∀ p, p ∈ role_permissions role ↔ p ∈ permissions)
  ∧ ∀ p, p ∈ permissions → Permission_Valid p = true.
Proof.
  unfold NewRole. intros H. peel. apply keep_permissions_ok in Hstep2 as [Hk Hv]. cbn.
  split_and!; [done | done | |].
  - intros p. rewrite elem_of_sortPermissions, Hk. set_solver.
  - by rewrite Forall_forall in Hv.
Qed.

Lemma ValidIdentifier_nonempty : ValidIdentifier "" = false.
Proof. done. Qed.

Lemma NewBinding_ok subject roles tenants binding :
  NewBinding subject roles tenants = Ok binding →
  pb_subject binding = subject ∧ (∀ r, r ∈ pb_roles binding ↔ r ∈ roles)
  ∧ (∀ t, t ∈ pb_tenants binding ↔ t ∈ tenants) ∧ "" ∉ tenants.
Proof.
  unfold NewBinding. intros H. peel.
  apply keep_names_ok in Hstep0 as [Hr _], Hstep2 as [Ht Hv]. cbn.
  split_and!; [done | intros r; rewrite elem_of_sort_strings, Hr; set_solver
    | intros t; rewrite elem_of_sort_strings, Ht; set_solver |].
  intros Hin. rewrite Forall_forall in Hv. specialize (Hv _ Hin). by rewrite ValidIdentifier_nonempty in Hv.
Qed.

Lemma NewBinding_tenants subject roles tenants binding :
  NewBinding subject roles tenants = Ok binding →
  Forall (λ t, ValidIdentifier t = true) (pb_tenants binding).
Proof.
  unfold NewBinding. intros H. peel.
  apply keep_names_ok in Hstep2 as [Ht Hv]. cbn. rewrite Forall_forall in *. intros t.
  rewrite elem_of_sort_strings, Ht. set_solver.
Qed.

(** ** Policies *)

(** What is kept by name is what was given, each name once. *)
Definition keyed {A} (name : A → string) (l : list A) : gmap string A :=
  list_to_map ((λ x, (name x, x)) <$> l).

Lemma keyed_fst {A} (name : A → string) (l : list A) : ((λ x, (name x, x)) <$> l).*1 = name <$> l.
Proof. rewrite <- list_fmap_compose. by apply list_fmap_ext. Qed.

Lemma keyed_lookup {A} (name : A → string) (l : list A) n x :
  NoDup (name <$> l) → keyed name l !! n = Some x ↔ x ∈ l ∧ name x = n.
Proof.
  intros Hnd. unfold keyed.
  rewrite <- elem_of_list_to_map by by rewrite keyed_fst.
  rewrite list_elem_of_fmap. split; [intros (y & [= -> ->] & Hy); done |].
  intros [Hx <-]. by exists x.
Qed.

(** Everything given is named, no name twice nor already there, and all of it is
    in the map. *)
Definition kept_once {A} (name : A → string) (l : list A) (m0 m : gmap string A) : Prop :=
  Forall (λ x, name x ≠ "") l ∧ NoDup (name <$> l) ∧ (∀ x, x ∈ l → m0 !! name x = None)
  ∧ m = keyed name l ∪ m0.

Lemma kept_once_nil {A} (name : A → string) m0 m : kept_once name [] m0 m ↔ m = m0.
Proof.
  unfold kept_once, keyed. cbn. rewrite (left_id_L ∅ (∪)). split; [by intros (_ & _ & _ & ->) |].
  intros ->. split_and!; [constructor | constructor | set_solver | done].
Qed.

Lemma kept_once_cons {A} (name : A → string) x l m0 m :
  kept_once name (x :: l) m0 m ↔
  name x ≠ "" ∧ m0 !! name x = None ∧ kept_once name l (<[name x := x]> m0) m.
Proof.
  unfold kept_once. rewrite Forall_cons, fmap_cons, NoDup_cons.
  assert (∀ k, keyed name (x :: l) ∪ k = <[name x := x]> (keyed name l ∪ k)) as Hk.
  { intros k. unfold keyed. rewrite fmap_cons. cbn. by rewrite insert_union_l. }
  assert (name x ∉ name <$> l → ∀ k, keyed name (x :: l) ∪ k = keyed name l ∪ <[name x := x]> k) as Hr.
  { intros Hn k. rewrite Hk. apply insert_union_r, not_elem_of_list_to_map_1. by rewrite keyed_fst. }
  split.
  - intros ((Hx & Hf) & (Hnew & Hnd) & Hm & ->). split_and!; try done; [apply Hm; set_solver | | by apply Hr].
    intros y Hy. apply lookup_insert_None. split; [apply Hm; set_solver |].
    intros Heq. apply Hnew. rewrite Heq. apply list_elem_of_fmap. eauto.
  - intros (Hx & Hn & Hf & Hnd & Hm & ->).
    assert (name x ∉ name <$> l) as Hnew.
    { intros (y & Heq & Hy)%list_elem_of_fmap. specialize (Hm _ Hy). by rewrite Heq, lookup_insert_eq in Hm. }
    split_and!; try done; [| by rewrite Hr].
    intros y [->|Hy]%elem_of_cons; [done |]. by specialize (Hm _ Hy) as [? _]%lookup_insert_None.
Qed.

Lemma roles_by_name_spec roles : ∀ m0 m,
  roles_by_name m0 roles = Ok m ↔ kept_once role_name roles m0 m.
Proof.
  induction roles as [|r roles IH]; intros m0 m; cbn [roles_by_name]; [rewrite kept_once_nil; naive_solver |].
  rewrite kept_once_cons, eq_None_not_Some, <- IH.
  destruct (bool_decide_reflect (role_name r = "")); [naive_solver |].
  destruct (bool_decide_reflect (is_Some (m0 !! role_name r))); naive_solver.
Qed.

Definition roles_declared (byName : gmap string Role) (b : PolicyBinding) : Prop :=
  ∀ name, name ∈ pb_roles b → is_Some (byName !! name).

Lemma bindings_by_subject_spec byName bindings : ∀ m0 m,
  bindings_by_subject byName m0 bindings = Ok m ↔
  Forall (roles_declared byName) bindings ∧ kept_once pb_subject bindings m0 m.
Proof.
  induction bindings as [|b bindings IH]; intros m0 m; cbn [bindings_by_subject].
  { rewrite kept_once_nil, Forall_nil. naive_solver. }
  rewrite kept_once_cons, eq_None_not_Some, Forall_cons.
  assert (forallb (λ name, bool_decide (is_Some (byName !! name))) (pb_roles b) = true ↔ roles_declared byName b) as Hd.
  { rewrite forallb_forall. unfold roles_declared. setoid_rewrite list_elem_of_In.
    by setoid_rewrite bool_decide_eq_true. }
  destruct (bool_decide_reflect (pb_subject b = "")); [naive_solver |].
  destruct (bool_decide_reflect (is_Some (m0 !! pb_subject b))); [naive_solver |].
  destruct (forallb _ _) eqn:Hall; cbn [negb]; [rewrite IH; naive_solver |].
  split; [done |]. intros ((Hr & _) & _). apply Hd in Hr. done.
Qed.

Lemma policy_Compile_spec digest roles bindings p :
  policy_Compile digest roles bindings = Ok p ↔
  kept_once role_name roles ∅ (pol_roles p) ∧ kept_once pb_subject bindings ∅ (pol_bindings p)
  ∧ Forall (roles_declared (pol_roles p)) bindings ∧ bindings ≠ []
  ∧ pol_id p = policy_identify digest (pol_roles p) (pol_bindings p).
Proof.
  unfold policy_Compile. split.
  - intros H. peel. apply roles_by_name_spec in Hstep. apply bindings_by_subject_spec in Hstep0 as [Hd Hb].
    to_prop. cbn. split_and!; try done. intros ->. apply kept_once_nil in Hb. done.
  - destruct p as [id r b]. cbn. intros (Hr & Hb & Hd & Hne & ->).
    rewrite (proj2 (roles_by_name_spec roles ∅ r) Hr). cbn.
    rewrite (proj2 (bindings_by_subject_spec r bindings ∅ b) (conj Hd Hb)). cbn.
    rewrite bool_decide_false; [done |]. intros ->. destruct bindings as [|x l]; [done |].
    apply kept_once_cons in Hb as (_ & _ & _ & _ & _ & Hm).
    apply (f_equal (lookup (pb_subject x))) in Hm. symmetry in Hm.
    rewrite lookup_empty, lookup_union_None, lookup_insert_eq in Hm. naive_solver.
Qed.

Lemma kept_lookup {A} (name : A → string) l m n x :
  kept_once name l ∅ m → m !! n = Some x ↔ x ∈ l ∧ name x = n.
Proof.
  intros (_ & Hnd & _ & ->). rewrite (right_id_L ∅ (∪)). by apply keyed_lookup.
Qed.

(** ** Decisions *)

(** A policy as it is written down: roles with what they allow, and subjects with
    the roles they hold and the tenants they hold them in. *)
Record RoleDoc := mkRoleDoc { rd_name : string; rd_description : string; rd_permissions : list Permission }.
Record BindingDoc := mkBindingDoc { bd_subject : string; bd_roles : list string; bd_tenants : list string }.

Definition built_from (role_docs : list RoleDoc) (binding_docs : list BindingDoc)
    (roles : list Role) (bindings : list PolicyBinding) : Prop :=
  Forall2 (λ d r, NewRole (rd_name d) (rd_description d) (rd_permissions d) = Ok r) role_docs roles
  ∧ Forall2 (λ d b, NewBinding (bd_subject d) (bd_roles d) (bd_tenants d) = Ok b) binding_docs bindings.

(** The subject holds, in the tenant, a role that allows it. *)
Definition written_down (role_docs : list RoleDoc) (binding_docs : list BindingDoc)
    (subject : string) (permission : Permission) (tenant : string) : Prop :=
  ∃ b r, b ∈ binding_docs ∧ r ∈ role_docs ∧ bd_subject b = subject ∧ tenant ∈ bd_tenants b
  ∧ rd_name r ∈ bd_roles b ∧ permission ∈ rd_permissions r.

Lemma decided_within g permission tenant :
  decision_Allowed (DecideWithin g permission tenant) = true ↔
  Permission_Valid permission = true ∧ g_subject g ≠ "" ∧ permission ∈ g_permissions g
  ∧ tenant ≠ "" ∧ tenant ∈ g_tenants g.
Proof.
  unfold DecideWithin, grant_Decide, grant_Empty, decision_Allowed, contains_elem. cbv zeta. cbn [dn_reason].
  destruct (Permission_Valid permission); cbn [negb]; [| naive_solver].
  destruct (bool_decide_reflect (g_subject g = "")); [naive_solver |].
  destruct (bool_decide_reflect (permission ∈ g_permissions g)); cbn [negb]; [| naive_solver].
  destruct (bool_decide_reflect (tenant = "")); cbn; [naive_solver |].
  destruct (bool_decide_reflect (tenant ∈ g_tenants g)); cbn; naive_solver.
Qed.

Lemma Grant_permissions p binding permission :
  (∀ name, name ∈ pb_roles binding → is_Some (pol_roles p !! name)) →
  permission ∈ sortPermissions (foldl add_once []
    (mjoin ((λ name, match pol_roles p !! name with Some r => role_permissions r | None => [] end)
              <$> pb_roles binding))) ↔
  ∃ name r, name ∈ pb_roles binding ∧ pol_roles p !! name = Some r ∧ permission ∈ role_permissions r.
Proof.
  intros Hdecl. rewrite elem_of_sortPermissions, elem_of_foldl_add_once, list_elem_of_join.
  setoid_rewrite list_elem_of_fmap. split.
  - intros [H|(l & Hl & (name & -> & Hname))]; [by apply not_elem_of_nil in H |].
    destruct (Hdecl _ Hname) as [r Hr]. rewrite Hr in Hl. eauto.
  - intros (name & r & Hname & Hr & Hp). right. exists (role_permissions r). split; [done |].
    exists name. by rewrite Hr.
Qed.

(** The policy a plane compiled and the documents it was read from say the same. *)
Lemma access_written digest role_docs binding_docs roles bindings p subject permission tenant :
  built_from role_docs binding_docs roles bindings →
  policy_Compile digest roles bindings = Ok p →
  (∃ g, policy_Grant p subject = Ok g ∧ decision_Allowed (DecideWithin g permission tenant) = true)
  ↔ written_down role_docs binding_docs subject permission tenant.
Proof.
  intros [Hroles Hbindings] (Hr & Hb & Hd & _ & _)%policy_Compile_spec.
  rewrite Forall_forall in Hd. unfold policy_Grant, written_down. split.
  - intros (g & Hg & Hall). destruct (pol_bindings p !! subject) as [b|] eqn:Hbind; [| done].
    apply (kept_lookup pb_subject bindings) in Hbind as [Hin Hsub]; [| done].
    injection Hg as <-. apply decided_within in Hall as (_ & _ & Hp & _ & Ht). cbn [g_permissions g_tenants] in *.
    apply Grant_permissions in Hp as (name & r & Hname & Hlook & Hperm); [| by apply Hd].
    apply (kept_lookup role_name roles) in Hlook as [Hrin Hrname]; [| done].
    destruct (list_elem_of_lookup_1 _ _ Hin) as [i Hi]. destruct (list_elem_of_lookup_1 _ _ Hrin) as [j Hj].
    destruct (Forall2_lookup_r _ _ _ _ _ Hbindings Hi) as (bd & Hbd & Hnew).
    destruct (Forall2_lookup_r _ _ _ _ _ Hroles Hj) as (rd & Hrd & Hnewr).
    apply NewBinding_ok in Hnew as (Hs & HR & HT & _). apply NewRole_ok in Hnewr as (Hn & _ & HP & _).
    exists bd, rd. split_and!; try by eapply list_elem_of_lookup_2.
    + congruence. + by apply HT. + apply HR. congruence. + by apply HP.
  - intros (bd & rd & Hbd & Hrd & Hsub & Ht & Hname & Hperm).
    destruct (list_elem_of_lookup_1 _ _ Hbd) as [i Hi]. destruct (list_elem_of_lookup_1 _ _ Hrd) as [j Hj].
    destruct (Forall2_lookup_l _ _ _ _ _ Hbindings Hi) as (b & Hb2 & Hnew).
    destruct (Forall2_lookup_l _ _ _ _ _ Hroles Hj) as (r & Hr2 & Hnewr).
    apply NewBinding_ok in Hnew as (Hs & HR & HT & Hne). apply NewRole_ok in Hnewr as (Hn & _ & HP & HV).
    assert (b ∈ bindings) as Hbin by by eapply list_elem_of_lookup_2.
    assert (r ∈ roles) as Hrin by by eapply list_elem_of_lookup_2.
    assert (pol_bindings p !! subject = Some b) as -> by (apply (kept_lookup pb_subject bindings); [done | split; [done | congruence]]).
    eexists. split; [done |]. apply decided_within. cbn [g_subject g_permissions g_tenants].
    destruct Hb as (Hnon & _). rewrite Forall_forall in Hnon.
    split_and!; [by apply HV | by apply Hnon | | intros ->; done | by apply HT].
    apply Grant_permissions; [by apply Hd |]. exists (rd_name rd), r.
    split_and!; [by apply HR | | by apply HP]. apply (kept_lookup role_name roles); [done |]. by split.
Qed.

(** C29. A compiled policy allows a subject something in a tenant exactly when it is
    written down: nothing is inherited, implied by an absence, or a wildcard. *)
Theorem access_is_what_is_written digest role_docs binding_docs roles bindings p subject permission tenant :
  built_from role_docs binding_docs roles bindings →
  policy_Compile digest roles bindings = Ok p →
  (∃ g, policy_Grant p subject = Ok g ∧ decision_Allowed (DecideWithin g permission tenant) = true)
  ↔ written_down role_docs binding_docs subject permission tenant.
Proof. apply access_written. Qed.

(** A subject the policy does not mention, and a grant that never arrived, are
    refused everything. *)
Theorem what_is_missing_refuses p subject permission tenant :
  (pol_bindings p !! subject = None → policy_Grant p subject = Err ErrUnknownSubject)
  ∧ decision_Allowed (grant_Decide no_grant permission) = false
  ∧ decision_Allowed (DecideWithin no_grant permission tenant) = false
  ∧ ∀ g, decision_Allowed (DecideWithin g permission "") = false.
Proof.
  split_and!.
  - unfold policy_Grant. by intros ->.
  - unfold grant_Decide, decision_Allowed. cbn. by destruct (Permission_Valid permission).
  - apply not_true_is_false. rewrite decided_within. naive_solver.
  - intros g. apply not_true_is_false. rewrite decided_within. naive_solver.
Qed.

(** ** Order *)

Lemma keyed_perm {A} (name : A → string) l1 l2 :
  NoDup (name <$> l1) → l1 ≡ₚ l2 → keyed name l1 = keyed name l2.
Proof. intros Hnd Hp. unfold keyed. apply list_to_map_proper; [by rewrite keyed_fst | by rewrite Hp]. Qed.

Lemma kept_once_perm {A} (name : A → string) l1 l2 m0 m :
  l1 ≡ₚ l2 → kept_once name l1 m0 m → kept_once name l2 m0 m.
Proof.
  intros Hp (Hf & Hnd & Hm & ->). split_and!; [by rewrite <- Hp | by rewrite <- Hp | | ].
  - intros x Hx. apply Hm. by rewrite Hp.
  - by rewrite (keyed_perm name l1 l2).
Qed.

(** A policy does not depend on the order it is written down in, its name neither. *)
Theorem policies_have_no_order digest roles1 bindings1 roles2 bindings2 p :
  roles1 ≡ₚ roles2 → bindings1 ≡ₚ bindings2 →
  policy_Compile digest roles1 bindings1 = Ok p → policy_Compile digest roles2 bindings2 = Ok p.
Proof.
  intros Hr Hb. rewrite !policy_Compile_spec. intros (H1 & H2 & H3 & H4 & H5).
  split_and!; [by eapply kept_once_perm | by eapply kept_once_perm | by rewrite <- Hb | | done].
  intros ->. by apply Permutation_nil_r in Hb.
Qed.

(** ** What names a policy *)

(** What follows does not begin with this tag. *)
Definition not_tagged (tag : string) (rest : list string) : Prop := head rest ≠ Some tag.

Definition tagged (tag : string) (l : list string) : list string := mjoin ((λ x, [tag; x]) <$> l).

Lemma tagged_inj tag l1 : ∀ l2 r1 r2,
  not_tagged tag r1 → not_tagged tag r2 →
  tagged tag l1 ++ r1 = tagged tag l2 ++ r2 → l1 = l2 ∧ r1 = r2.
Proof.
  unfold tagged, not_tagged. induction l1 as [|x l1 IH]; intros [|y l2] r1 r2 H1 H2 H.
  - done.
  - cbn in H. subst r1. done.
  - cbn in H. subst r2. done.
  - cbn in H. injection H as -> H. destruct (IH l2 r1 r2 H1 H2 H) as [-> ->]. done.
Qed.

Lemma role_parts_eq role :
  role_parts role = "role" :: role_name role :: role_description role
    :: tagged "permission" (Permission_String <$> role_permissions role).
Proof. unfold role_parts, tagged. by rewrite <- list_fmap_compose. Qed.

Lemma binding_parts_eq b :
  binding_parts b = "binding" :: pb_subject b :: tagged "holds" (pb_roles b) ++ tagged "within" (pb_tenants b).
Proof. done. Qed.

Lemma head_roles (roles : list Role) rest tag :
  tag ≠ "role" → not_tagged tag rest → not_tagged tag (mjoin (role_parts <$> roles) ++ rest).
Proof. intros Ht Hr. destruct roles as [|r roles]; [done |]. unfold not_tagged. cbn. congruence. Qed.

Lemma head_bindings (bindings : list PolicyBinding) tag :
  tag ≠ "binding" → not_tagged tag (mjoin (binding_parts <$> bindings)).
Proof. intros Ht. destruct bindings as [|b bindings]; unfold not_tagged; cbn; congruence. Qed.

Lemma head_tagged tag other l rest :
  tag ≠ other → not_tagged tag rest → not_tagged tag (tagged other l ++ rest).
Proof. intros Ht Hr. destruct l as [|x l]; [done |]. unfold not_tagged. cbn. congruence. Qed.

Definition valid_role (r : Role) : Prop := Forall (λ p, Permission_Valid p = true) (role_permissions r).

Lemma permissions_inj l1 : ∀ l2,
  Forall (λ p, Permission_Valid p = true) l1 → Forall (λ p, Permission_Valid p = true) l2 →
  Permission_String <$> l1 = Permission_String <$> l2 → l1 = l2.
Proof.
  induction l1 as [|p l1 IH]; intros [|q l2] H1 H2 H; try done. rewrite !fmap_cons in H.
  apply Forall_cons in H1 as [Hp H1], H2 as [Hq H2]. injection H as Hpq H.
  f_equal; [by apply Permission_String_inj | by apply IH].
Qed.

Lemma roles_inj roles1 : ∀ roles2 rest1 rest2,
  Forall valid_role roles1 → Forall valid_role roles2 →
  not_tagged "role" rest1 → not_tagged "role" rest2 →
  not_tagged "permission" rest1 → not_tagged "permission" rest2 →
  mjoin (role_parts <$> roles1) ++ rest1 = mjoin (role_parts <$> roles2) ++ rest2 →
  roles1 = roles2 ∧ rest1 = rest2.
Proof.
  induction roles1 as [|r roles1 IH]; intros [|q roles2] rest1 rest2 V1 V2 R1 R2 P1 P2 H.
  - done.
  - cbn in H. subst rest1. done.
  - cbn in H. subst rest2. done.
  - rewrite !fmap_cons in H. change (mjoin (?a :: ?l)) with (a ++ mjoin l) in H.
    rewrite !role_parts_eq, <- !app_assoc in H. cbn [app] in H. injection H as Hn Hd H.
    apply Forall_cons in V1 as [Vr V1], V2 as [Vq V2].
    apply tagged_inj in H as [Hp H]; [| by apply head_roles | by apply head_roles].
    destruct (IH roles2 rest1 rest2 V1 V2 R1 R2 P1 P2 H) as [-> ->]. split; [| done]. f_equal.
    destruct r as [n1 d1 p1], q as [n2 d2 p2]. cbn in *. subst. f_equal. by apply permissions_inj.
Qed.

Lemma bindings_inj bindings1 : ∀ bindings2,
  mjoin (binding_parts <$> bindings1) = mjoin (binding_parts <$> bindings2) → bindings1 = bindings2.
Proof.
  induction bindings1 as [|b bindings1 IH]; intros [|c bindings2] H; try done.
  rewrite !fmap_cons in H. change (mjoin (?a :: ?l)) with (a ++ mjoin l) in H.
  rewrite !binding_parts_eq in H. cbn [app] in H. injection H as Hs H. rewrite <- !app_assoc in H.
  apply tagged_inj in H as [Hr H]; [| by apply head_tagged; [| apply head_bindings] | by apply head_tagged; [| apply head_bindings]].
  apply tagged_inj in H as [Ht H]; [| by apply head_bindings | by apply head_bindings].
  rewrite (IH _ H). f_equal. destruct b, c. cbn in *. by subst.
Qed.

(** The values of a map in the order of its keys determine it, when each is kept
    under its own name. *)
Definition self_keyed {A} (name : A → string) (m : gmap string A) : Prop :=
  ∀ n x, m !! n = Some x → name x = n.

Definition in_order {A} (m : gmap string A) : list A := omap (λ n, m !! n) (sorted_keys m).

Lemma elem_of_in_order {A} (m : gmap string A) x : x ∈ in_order m ↔ ∃ n, m !! n = Some x.
Proof.
  unfold in_order, sorted_keys. rewrite list_elem_of_omap. setoid_rewrite elem_of_sort_strings.
  split; [intros (n & _ & Hn); eauto |]. intros [n Hn]. exists n. split; [| done].
  apply list_elem_of_fmap. exists (n, x). split; [done | by apply elem_of_map_to_list].
Qed.

Lemma in_order_inj {A} (name : A → string) (m1 m2 : gmap string A) :
  self_keyed name m1 → self_keyed name m2 → in_order m1 = in_order m2 → m1 = m2.
Proof.
  intros H1 H2 H. apply map_eq. intros n. apply option_eq. intros x.
  pose proof (elem_of_in_order m1 x) as E1. pose proof (elem_of_in_order m2 x) as E2. rewrite H, E2 in E1.
  split; intros Hx.
  - destruct (proj2 E1 (ex_intro _ n Hx)) as [n' Hn']. by rewrite <- (H1 n x Hx), (H2 n' x Hn').
  - destruct (proj1 E1 (ex_intro _ n Hx)) as [n' Hn']. by rewrite <- (H2 n x Hx), (H1 n' x Hn').
Qed.

Lemma join_in_order {A} (f : A → list string) (m : gmap string A) :
  mjoin ((λ n, match m !! n with Some x => f x | None => [] end) <$> sorted_keys m) = mjoin (f <$> in_order m).
Proof.
  unfold in_order. induction (sorted_keys m) as [|n l IH]; [done |].
  rewrite fmap_cons. cbn [omap list_omap]. change (mjoin (?a :: ?l)) with (a ++ mjoin l). rewrite IH.
  by destruct (m !! n).
Qed.

(** What a policy's name is the digest of tells policies apart: it is the same
    bytes exactly for the same roles and the same bindings. *)
Theorem policy_bytes_tell_policies_apart roles1 bindings1 roles2 bindings2 :
  self_keyed role_name roles1 → self_keyed role_name roles2 →
  self_keyed pb_subject bindings1 → self_keyed pb_subject bindings2 →
  (∀ n r, roles1 !! n = Some r → valid_role r) → (∀ n r, roles2 !! n = Some r → valid_role r) →
  Forall in_memory (policy_parts roles1 bindings1) → Forall in_memory (policy_parts roles2 bindings2) →
  frames (policy_parts roles1 bindings1) = frames (policy_parts roles2 bindings2) ↔
  roles1 = roles2 ∧ bindings1 = bindings2.
Proof.
  intros K1 K2 B1 B2 V1 V2 M1 M2. split; [| by intros [-> ->]].
  intros H. apply frames_inj in H; [| done | done]. unfold policy_parts in H. rewrite !join_in_order in H.
  apply roles_inj in H as [Hr Hb].
  - apply bindings_inj in Hb. split; [by eapply in_order_inj | by eapply in_order_inj].
  - apply Forall_forall. intros r [n Hn]%elem_of_in_order. by eapply V1.
  - apply Forall_forall. intros r [n Hn]%elem_of_in_order. by eapply V2.
  - by apply head_bindings. - by apply head_bindings. - by apply head_bindings. - by apply head_bindings.
Qed.
