(* ===== verification/Session.v ===== *)
(** * Sessions: the token a caller spends, and who may spend it (authz/session.go)

    SHA-256 and HMAC-SHA-256 are [Hashing]; the bytes a session is named by are
    an argument. A token is a payload and its signature, each in base64: one byte
    of version, sixteen of identifier, eight of when it was issued, eight of when
    it expires, thirty-two of the certificate it is bound to, and the subject. *)

From Stdlib Require Import ZArith Lia Ascii.
From stdpp Require Import base tactics option strings numbers list.
From S2P Require Import Prelude Text Scan Hex Bytes Agent Authz.


Class Hashing := {
  Sum256 : string → string;
  HMAC : string → string → string;
  Sum256_size s : String.length (Sum256 s) = 32%nat;
}.

Definition tokenVersion : ascii := ascii_of_N 1.
Definition MinLifetime : duration := minute.
Definition sessionIDBytes : nat := 16.
Definition fixedBytes : nat := 1 + sessionIDBytes + 8 + 8 + 32.
Definition maxTokenBytes : nat := fixedBytes + 128.

Inductive SessionError := ErrToken | ErrSessionExpired | ErrWrongCertificate | ErrSubject | ErrUnbound | ErrKey.
#[global] Instance SessionError_eq_dec : EqDecision SessionError.
Proof. solve_decision. Defined.

Record Session := mkSession {
  s_id : string; s_subject : string; s_issuedAt : instant; s_expiresAt : instant; s_binding : string;
}.
#[global] Instance Session_eq_dec : EqDecision Session.
Proof. solve_decision. Defined.

Definition session_Expired (s : Session) (now : instant) : bool := negb (before now (s_expiresAt s)).

(** [string_take n] of a string: the slice [s[:n]]. *)
Fixpoint string_take (n : nat) (s : string) : string :=
  match n, s with S n, String c s => String c (string_take n s) | _, _ => "" end.

(** The zero array. *)
Definition no_binding : string := Nat.iter 32 (String (ascii_of_nat 0)) "".

(** ** Time, in milliseconds *)

Definition session_epoch : instant := 62135596800 * second.

Definition Truncate_ms (t : instant) : instant := t / millisecond * millisecond.
Definition UnixMilli (t : instant) : Z := (t - session_epoch) / millisecond.
Definition of_UnixMilli (ms : Z) : instant := session_epoch + ms * millisecond.

Record Issuer := mkIssuer { is_key : string; is_lifetime : duration }.

Definition NewIssuer (key : string) (lifetime : duration) : result SessionError Issuer :=
  if slen key <? 32 then Err ErrKey
  else if lifetime <=? 0 then Err ErrKey
  else Ok (mkIssuer key lifetime).

Definition issuer_Within (i : Issuer) (asked : duration) : duration :=
  if asked <=? 0 then is_lifetime i
  else if asked <? MinLifetime then Z.min MinLifetime (is_lifetime i)
  else Z.min asked (is_lifetime i).

Section session.
Context {hashing : Hashing}.

Definition Fingerprint (certificate : option string) : string :=
  match certificate with None => no_binding | Some raw => Sum256 raw end.

Definition issuer_sign (i : Issuer) (payload : string) : string := HMAC (is_key i) payload.

Definition token_payload (session : Session) (id : string) : string :=
  String tokenVersion "" +:+ id +:+ BigEndian_PutUint64 (UnixMilli (s_issuedAt session))
  +:+ BigEndian_PutUint64 (UnixMilli (s_expiresAt session)) +:+ s_binding session +:+ s_subject session.

Definition issuer_encode (i : Issuer) (session : Session) (id : string) : string :=
  let payload := token_payload session id in
  base64_encode payload +:+ "." +:+ base64_encode (issuer_sign i payload).

(** [Issue], with the bytes drawn for its identifier: none when drawing failed. *)
Definition Issue (i : Issuer) (subject binding : string) (now : instant) (asked : duration) (drawn : option string)
    : result SessionError (Session * string) :=
  if negb (ValidSubject subject) then Err ErrSubject
  else if bool_decide (binding = no_binding) then Err ErrUnbound
  else match drawn with
  | None => Err ErrKey
  | Some raw =>
      let session := mkSession (hex_encode raw) subject (Truncate_ms now)
                       (Truncate_ms (time_add now (issuer_Within i asked))) binding in
      Ok (session, issuer_encode i session raw)
  end.

Definition read_session (payload : string) : Session :=
  mkSession (hex_encode (string_take sessionIDBytes (string_drop 1 payload)))
    (string_drop fixedBytes payload)
    (of_UnixMilli (int64 (BigEndian_Uint64 (string_drop (1 + sessionIDBytes) payload))))
    (of_UnixMilli (int64 (BigEndian_Uint64 (string_drop (9 + sessionIDBytes) payload))))
    (string_take 32 (string_drop (17 + sessionIDBytes) payload)).

Definition Verify (i : Issuer) (token presented : string) (now : instant) : result SessionError Session :=
  let '(written, signature, found) := Cut token "." in
  if negb found then Err ErrToken else
  match base64_decode written, base64_decode signature with
  | Some payload, Some offered =>
      if (String.length payload <? fixedBytes)%nat || (maxTokenBytes <? String.length payload)%nat then Err ErrToken
      else if negb (bool_decide (offered = issuer_sign i payload)) then Err ErrToken
      else if negb (bool_decide (head (String.list_ascii_of_string payload) = Some tokenVersion)) then Err ErrToken
      else
        let session := read_session payload in
        if negb (ValidSubject (s_subject session)) then Err ErrToken
        else if session_Expired session now then Err ErrSessionExpired
        else if negb (bool_decide (s_binding session = presented)) then Err ErrWrongCertificate
        else Ok session
  | _, _ => Err ErrToken
  end.

End session.

(** * What a token proves *)


(** ** Taking and dropping *)

Lemma string_take_app a s n : String.length a = n → string_take n (a +:+ s) = a.
Proof.
  revert n. induction a as [|c a IH]; intros n <-; [done |].
  change (String c a +:+ s) with (String c (a +:+ s)). cbn. by rewrite IH.
Qed.

Lemma string_take_drop n s : string_take n s +:+ string_drop n s = s.
Proof.
  revert s. induction n as [|n IH]; intros [|c s]; cbn; try done.
  change (String c (string_take n s) +:+ string_drop n s) with (String c (string_take n s +:+ string_drop n s)).
  by rewrite IH.
Qed.

Lemma string_take_length n s : (n ≤ String.length s)%nat → String.length (string_take n s) = n.
Proof. revert s. induction n as [|n IH]; intros [|c s] H; cbn in *; [done | done | lia | f_equal; apply IH; lia]. Qed.

(** ** Big-endian bytes read back *)

Lemma be_put_cons n c z :
  0 ≤ z < 256 ^ Z.of_nat n →
  be_put (S n) (Z.of_N (byte c) * 256 ^ Z.of_nat n + z) = String c (be_put n z).
Proof.
  intros Hz. cbn [be_put]. rewrite Z.div_add_l, Z.div_small, Z.add_0_r by lia. f_equal.
  { unfold byte_of. pose proof (byte_lt c). rewrite Z.mod_small by lia. rewrite N2Z.id. apply ascii_N_embedding. }
  assert (∀ m, (m ≤ n)%nat → be_put m (Z.of_N (byte c) * 256 ^ Z.of_nat n + z) = be_put m z) as Hm.
  { induction m as [|m IH]; intros Hle; [done |]. cbn [be_put]. rewrite IH by lia. f_equal. unfold byte_of. do 2 f_equal.
    replace (Z.of_nat n) with (Z.of_nat (n - S m) + 1 + Z.of_nat m) by lia.
    rewrite !Z.pow_add_r, Z.pow_1_r by lia.
    replace (Z.of_N (byte c) * (256 ^ Z.of_nat (n - S m) * 256 * 256 ^ Z.of_nat m))
      with ((Z.of_N (byte c) * 256 ^ Z.of_nat (n - S m) * 256) * 256 ^ Z.of_nat m) by ring.
    rewrite Z.div_add_l by (apply Z.pow_nonzero; lia). rewrite Z.add_comm. apply Z.mod_add. lia. }
  by apply Hm.
Qed.

Lemma be_uint_split n : ∀ s acc, String.length s = n →
  be_uint n acc s = acc * 256 ^ Z.of_nat n + be_uint n 0 s ∧ 0 ≤ be_uint n 0 s < 256 ^ Z.of_nat n
  ∧ be_put n (be_uint n 0 s) = s.
Proof.
  induction n as [|n IH]; intros [|c s] acc Hl; try discriminate; [cbn; split_and!; try done; lia |].
  injection Hl as Hl. cbn [be_uint]. rewrite Z.mul_0_l, Z.add_0_l.
  destruct (IH s (acc * 256 + Z.of_N (byte c)) Hl) as (H1 & H2 & H3).
  destruct (IH s (Z.of_N (byte c)) Hl) as (H4 & _ & _). rewrite H1, H4.
  pose proof (byte_lt c). rewrite Nat2Z.inj_succ, Z.pow_succ_r by lia.
  split_and!; [ring | nia | nia |]. rewrite be_put_cons by done. by rewrite H3.
Qed.

Lemma BigEndian_put_back s t :
  String.length s = 8%nat → BigEndian_PutUint64 (int64 (BigEndian_Uint64 (s +:+ t))) = s.
Proof.
  intros Hl. unfold BigEndian_Uint64, BigEndian_PutUint64. rewrite be_uint_app by done.
  destruct (be_uint_split 8 s 0 Hl) as (_ & Hr & Hp). change (256 ^ Z.of_nat 8) with (2 ^ 64) in Hr.
  replace (wrap_uint 64 (int64 (be_uint 8 0 s))) with (be_uint 8 0 s); [done |].
  unfold wrap_uint, int64. rewrite Zminus_mod, Zmod_mod, <- Zminus_mod.
  replace (be_uint 8 0 s + 2 ^ 63 - 2 ^ 63) with (be_uint 8 0 s) by lia. by rewrite Z.mod_small.
Qed.

(** ** Time *)

Lemma UnixMilli_of ms : UnixMilli (of_UnixMilli ms) = ms.
Proof. unfold UnixMilli, of_UnixMilli. rewrite Z.add_simpl_l. by apply Z.div_mul. Qed.

Lemma UnixMilli_truncated t : of_UnixMilli (UnixMilli (Truncate_ms t)) = Truncate_ms t.
Proof.
  unfold of_UnixMilli, UnixMilli, Truncate_ms.
  replace session_epoch with (62135596800000 * millisecond) by reflexivity.
  rewrite <- Z.mul_sub_distr_r, Z.div_mul by done. lia.
Qed.

Lemma Truncate_bounds t : Truncate_ms t ≤ t < Truncate_ms t + millisecond.
Proof. unfold Truncate_ms. pose proof (Z.div_mod t millisecond ltac:(done)).
  pose proof (Z.mod_pos_bound t millisecond ltac:(done)). lia. Qed.

Lemma UnixMilli_mono s t : s ≤ t → UnixMilli s ≤ UnixMilli t.
Proof. intros H. apply Z.div_le_mono; [done | lia]. Qed.

(** ** Subjects *)

Lemma at_most_length n p s : matched (at_most n (One p)) s → (String.length s ≤ n)%nat.
Proof.
  revert s. induction n as [|n IH]; intros s H; cbn [at_most] in H; inversion H; subst; cbn; [done | |].
  - match goal with H : matched Nothing _ |- _ => inversion H end. cbn. lia.
  - match goal with H : matched (Then _ _) _ |- _ => apply matched_then in H as (x & y & -> & Hx & Hy) end.
    inversion Hx; subst. apply IH in Hy. rewrite string_length_app. cbn. lia.
Qed.

Lemma ValidSubject_length s : ValidSubject s = true → (1 ≤ String.length s ≤ 128)%nat.
Proof.
  unfold ValidSubject, subjectPattern. intros H%MatchString_spec.
  apply matched_then in H as (x & y & -> & Hx & Hy). inversion Hx; subst.
  apply at_most_length in Hy. rewrite string_length_app. cbn. lia.
Qed.

(** ** Tokens *)

Section tokens.
Context {hashing : Hashing}.

(** A session a token can carry: an identifier of sixteen bytes, times in whole
    milliseconds that 64 bits hold, and a certificate's fingerprint. *)
Definition tokenable (s : Session) (id : string) : Prop :=
  String.length id = sessionIDBytes ∧ s_id s = hex_encode id ∧ String.length (s_binding s) = 32%nat
  ∧ of_UnixMilli (UnixMilli (s_issuedAt s)) = s_issuedAt s
  ∧ of_UnixMilli (UnixMilli (s_expiresAt s)) = s_expiresAt s
  ∧ - 2 ^ 63 ≤ UnixMilli (s_issuedAt s) < 2 ^ 63 ∧ - 2 ^ 63 ≤ UnixMilli (s_expiresAt s) < 2 ^ 63
  ∧ ValidSubject (s_subject s) = true.

Lemma int64_put_read z t :
  - 2 ^ 63 ≤ z < 2 ^ 63 → int64 (BigEndian_Uint64 (BigEndian_PutUint64 z +:+ t)) = z.
Proof.
  intros Hz. unfold BigEndian_Uint64, BigEndian_PutUint64. rewrite be_uint_app by apply be_put_length.
  rewrite be_uint_put. change (256 ^ Z.of_nat 8) with (2 ^ 64).
  unfold wrap_uint. rewrite Zmod_mod, Z.mul_0_l, Z.add_0_l. by apply int64_of_uint64.
Qed.

(** What a payload is read as is what it was written from. *)
Lemma read_session_payload s id : tokenable s id → read_session (token_payload s id) = s.
Proof.
  intros (Hid & Hs & Hb & Hi & He & Ri & Re & Hsub). unfold read_session, token_payload.
  set (issued := BigEndian_PutUint64 (UnixMilli (s_issuedAt s))).
  set (expires := BigEndian_PutUint64 (UnixMilli (s_expiresAt s))).
  set (v := String tokenVersion ""). set (rest := s_binding s +:+ s_subject s).
  assert (string_drop 1 (v +:+ id +:+ issued +:+ expires +:+ rest) = id +:+ issued +:+ expires +:+ rest) as D1 by done.
  assert (string_drop (1 + sessionIDBytes) (v +:+ id +:+ issued +:+ expires +:+ rest) = issued +:+ expires +:+ rest) as D2.
  { rewrite <- string_drop_drop, D1. by apply string_drop_app. }
  assert (string_drop (9 + sessionIDBytes) (v +:+ id +:+ issued +:+ expires +:+ rest) = expires +:+ rest) as D3.
  { replace (9 + sessionIDBytes)%nat with ((1 + sessionIDBytes) + 8)%nat by (unfold sessionIDBytes; lia).
    rewrite <- string_drop_drop, D2. apply string_drop_app, BigEndian_length. }
  assert (string_drop (17 + sessionIDBytes) (v +:+ id +:+ issued +:+ expires +:+ rest) = rest) as D4.
  { replace (17 + sessionIDBytes)%nat with ((9 + sessionIDBytes) + 8)%nat by (unfold sessionIDBytes; lia).
    rewrite <- string_drop_drop, D3. apply string_drop_app, BigEndian_length. }
  assert (string_drop fixedBytes (v +:+ id +:+ issued +:+ expires +:+ rest) = s_subject s) as D5.
  { replace fixedBytes with ((17 + sessionIDBytes) + 32)%nat by (unfold fixedBytes, sessionIDBytes; lia).
    rewrite <- string_drop_drop, D4. by apply string_drop_app. }
  rewrite D1, D2, D3, D4, D5. subst issued expires rest. rewrite !int64_put_read by done.
  rewrite (string_take_app id _ sessionIDBytes Hid), (string_take_app (s_binding s) _ 32 Hb).
  rewrite Hi, He, <- Hs. by destruct s.
Qed.

Lemma token_payload_length s id :
  tokenable s id → String.length (token_payload s id) = (fixedBytes + String.length (s_subject s))%nat.
Proof.
  intros (Hid & _ & Hb & _). unfold token_payload.
  rewrite !string_length_app, !BigEndian_length, Hid, Hb. unfold fixedBytes, sessionIDBytes. cbn. lia.
Qed.

(** Verifying what was encoded comes down to the clock and the certificate. *)
Lemma Verify_encoded i s id presented now :
  tokenable s id →
  Verify i (issuer_encode i s id) presented now =
    if session_Expired s now then Err ErrSessionExpired
    else if bool_decide (s_binding s = presented) then Ok s else Err ErrWrongCertificate.
Proof.
  intros Hc. pose proof (token_payload_length _ _ Hc) as Hlen. pose proof Hc as (_ & _ & _ & _ & _ & _ & _ & Hsub).
  pose proof (ValidSubject_length _ Hsub) as Hs.
  unfold Verify, issuer_encode. cbv zeta.
  change ("." +:+ ?x) with (String "." x). rewrite Cut_app by apply base64_free. cbn [negb].
  rewrite !base64_roundtrip.
  assert ((String.length (token_payload s id) <? fixedBytes)%nat = false) as -> by (apply Nat.ltb_ge; lia).
  assert ((maxTokenBytes <? String.length (token_payload s id))%nat = false) as ->
    by (apply Nat.ltb_ge; unfold maxTokenBytes; lia).
  cbn [orb]. rewrite bool_decide_true by done. cbn [negb].
  rewrite bool_decide_true by done. cbn [negb]. rewrite read_session_payload by done. rewrite Hsub. cbn [negb].
  destruct (session_Expired s now); [done |]. by destruct (bool_decide_reflect (s_binding s = presented)).
Qed.

(** A moment whose milliseconds 64 bits hold. *)
Definition countable (t : instant) : Prop := - 2 ^ 63 ≤ UnixMilli (Truncate_ms t) < 2 ^ 63.

(** A token is spent by the certificate it was issued to until it expires, and by
    nobody else: whoever presents it gets the session it was issued for, or is
    told it expired, or that it is another's. *)
Theorem issued_tokens_are_spendable i subject binding now asked drawn session token presented later :
  Issue i subject binding now asked (Some drawn) = Ok (session, token) →
  String.length drawn = sessionIDBytes → String.length binding = 32%nat →
  countable now → countable (now + issuer_Within i asked) →
  Verify i token presented later =
    if Truncate_ms (now + issuer_Within i asked) <=? later then Err ErrSessionExpired
    else if bool_decide (binding = presented) then Ok session else Err ErrWrongCertificate.
Proof.
  unfold Issue. intros H Hd Hb Hn He.
  destruct (ValidSubject subject) eqn:Hsub; [| done]. cbn [negb] in H.
  destruct (bool_decide_reflect (binding = no_binding)); [done |]. cbv zeta in H. injection H as <- <-.
  rewrite Verify_encoded.
  - unfold session_Expired, before, time_add. cbn [s_expiresAt s_binding].
    destruct (Z.ltb_spec later (Truncate_ms (now + issuer_Within i asked))), (Z.leb_spec (Truncate_ms (now + issuer_Within i asked)) later);
      cbn [negb]; try done; lia.
  - unfold tokenable, time_add. cbn. split_and!; try done; try apply UnixMilli_truncated; try apply Hn; apply He.
Qed.

(** A token that verifies carries a signature over exactly the session it is
    read as: nothing of the session stands outside what was signed. *)
Theorem verified_sessions_were_signed i token presented now s :
  Verify i token presented now = Ok s →
  ∃ id offered, String.length id = sessionIDBytes ∧ s_id s = hex_encode id
  ∧ base64_decode (Cut token ".").1.1 = Some (token_payload s id)
  ∧ base64_decode (Cut token ".").1.2 = Some offered ∧ offered = issuer_sign i (token_payload s id)
  ∧ s_binding s = presented ∧ now < s_expiresAt s ∧ ValidSubject (s_subject s) = true.
Proof.
  unfold Verify. destruct (Cut token ".") as [[written signature] found]. cbn [fst snd].
  destruct found; [| done]. cbn [negb]. destruct (base64_decode written) as [payload|]; [| done].
  destruct (base64_decode signature) as [offered|]; [| done].
  destruct (_ || _) eqn:Hlen; [done |]. apply orb_false_iff in Hlen as [H1%Nat.ltb_ge H2%Nat.ltb_ge].
  destruct (bool_decide_reflect (offered = issuer_sign i payload)) as [->|]; [| done]. cbn [negb].
  destruct (bool_decide_reflect (head (String.list_ascii_of_string payload) = Some tokenVersion)) as [Hv|]; [| done].
  cbn [negb]. cbv zeta. destruct (ValidSubject _) eqn:Hsub; [| done]. cbn [negb].
  destruct (session_Expired _ now) eqn:He; [done |].
  destruct (bool_decide_reflect (s_binding (read_session payload) = presented)) as [Hb|]; [| done].
  intros [= <-]. destruct payload as [|v p]; [done |]. cbn [String.list_ascii_of_string head] in Hv. injection Hv as ->.
  set (id := string_take sessionIDBytes p). set (p1 := string_drop sessionIDBytes p).
  set (i8 := string_take 8 p1). set (p2 := string_drop 8 p1).
  set (e8 := string_take 8 p2). set (p3 := string_drop 8 p2).
  assert (String.length p1 = (String.length p - 16)%nat) as L1 by apply string_length_drop.
  assert (String.length p2 = (String.length p - 24)%nat) as L2 by (unfold p2; rewrite string_length_drop; lia).
  assert (String.length p3 = (String.length p - 32)%nat) as L3 by (unfold p3; rewrite string_length_drop; lia).
  cbn [String.length] in H1. unfold fixedBytes, sessionIDBytes in H1.
  assert (token_payload (read_session (String tokenVersion p)) id = String tokenVersion p) as Hpay.
  { unfold token_payload, read_session. cbn [s_issuedAt s_expiresAt s_binding s_subject].
    change (string_drop (1 + sessionIDBytes) (String tokenVersion p)) with p1.
    replace (string_drop (9 + sessionIDBytes) (String tokenVersion p)) with p2
      by (unfold p2, p1; rewrite string_drop_drop; done).
    replace (string_drop (17 + sessionIDBytes) (String tokenVersion p)) with p3
      by (unfold p3, p2, p1; rewrite !string_drop_drop; done).
    replace (string_drop fixedBytes (String tokenVersion p)) with (string_drop 32 p3)
      by (unfold p3, p2, p1; rewrite !string_drop_drop; done).
    rewrite !UnixMilli_of.
    rewrite <- (string_take_drop 8 p1) at 1. fold i8. rewrite BigEndian_put_back by (apply string_take_length; lia).
    rewrite <- (string_take_drop 8 p2) at 1. fold e8. rewrite BigEndian_put_back by (apply string_take_length; lia).
    rewrite string_take_drop. unfold e8, p3. rewrite string_take_drop. unfold i8, p2. rewrite string_take_drop.
    unfold id, p1. by rewrite string_take_drop. }
  exists id, (issuer_sign i (String tokenVersion p)). rewrite Hpay.
  split_and!; try done.
  - apply string_take_length. unfold sessionIDBytes. lia.
  - unfold session_Expired, before in He. by apply negb_false_iff, Z.ltb_lt in He.
Qed.

(** A session outlives neither what was asked for nor the issuer's lifetime, and
    is never too short to spend. *)
Theorem sessions_keep_to_their_lifetime i key lifetime subject binding now asked drawn session token :
  NewIssuer key lifetime = Ok i →
  Issue i subject binding now asked drawn = Ok (session, token) →
  s_issuedAt session ≤ now ∧ s_expiresAt session ≤ now + lifetime
  ∧ (0 < asked → s_expiresAt session ≤ now + Z.max asked MinLifetime)
  ∧ now + Z.min MinLifetime lifetime < s_expiresAt session + millisecond.
Proof.
  unfold NewIssuer, Issue. destruct (slen key <? 32); [done |].
  destruct (Z.leb_spec lifetime 0); [done |]. intros [= <-].
  destruct (negb _); [done |]. destruct (bool_decide _); [done |]. destruct drawn as [drawn|]; [| done].
  cbv zeta. intros [= <- <-]. cbn [s_issuedAt s_expiresAt]. unfold time_add, issuer_Within. cbn [is_lifetime].
  pose proof (Truncate_bounds now).
  set (w := if asked <=? 0 then _ else _). pose proof (Truncate_bounds (now + w)).
  assert (w ≤ lifetime ∧ (0 < asked → w ≤ Z.max asked MinLifetime) ∧ Z.min MinLifetime lifetime ≤ w) as (? & ? & ?).
  { subst w. destruct (Z.leb_spec asked 0); [| destruct (Z.ltb_spec asked MinLifetime)]; lia. }
  split_and!; lia.
Qed.
End tokens.
