(* ===== verification/Hunt.v ===== *)
(** * Hunting: what a query may ask of the store

    hunt/field.go, expression.go, query.go, scope.go, cursor.go and capacity.go:
    the vocabulary of each dataset, the compiler that turns what a caller asked
    into what the store may be asked or refuses it, the scope a caller reads in,
    and the cursor that resumes a page. The contract's descriptors, hashing and
    HMAC, and the parsing and printing of floats and times are parameters. *)

From Stdlib Require Import ZArith Lia Ascii Floats.SpecFloat.
From stdpp Require Import base tactics option gmap strings pretty sorting numbers list.
From S2P Require Import Prelude Text Scan Hex Bytes Rule Contract Compile Agent Authz Session.

(** ** The vocabulary (field.go) *)

Abbreviation Dataset := string (only parsing).
Definition EventsDataset : Dataset := "events".
Definition DetectionsDataset : Dataset := "detections".

Inductive HuntKind := HText | HNumber | HTruth | HChoice | HInstant.
#[global] Instance HuntKind_eq_dec : EqDecision HuntKind.
Proof. solve_decision. Defined.

Record hunt_held := mkHuntHeld { hh_kind : HuntKind; hh_repeated : bool; hh_choices : list string }.

(** The zero value of an enumeration is not a value to ask for. *)
Definition hunt_choicesOf (e : EnumDescriptor) : list string :=
  filter (λ short, short ≠ "unspecified") (choicesOf e).

Definition timestamp : string := "google.protobuf.Timestamp".

Section vocabulary.
Context `{Contract} (detection_message : string).

(** [depth] counts up to [maxDepth] in the source; [fuel] counts the same levels
    down. *)
Fixpoint walk (fuel : nat) (message prefix : string) (inList : bool) (into : gmap Field hunt_held)
    : gmap Field hunt_held :=
  match fuel with
  | O => into
  | S fuel =>
      foldl (λ into field,
        if fd_map field then into else
        let path := prefix +:+ fd_name field in
        let repeated := inList || fd_list field in
        match fd_kind field with
        | StringKind => <[path := mkHuntHeld HText repeated []]> into
        | BoolKind => <[path := mkHuntHeld HTruth repeated []]> into
        | EnumKind => <[path := mkHuntHeld HChoice repeated (hunt_choicesOf (fd_enum field))]> into
        | MessageKind | GroupKind =>
            if bool_decide (fd_message field = timestamp)
            then <[path := mkHuntHeld HInstant repeated []]> into
            else if HasPrefix (fd_message field) "google.protobuf." then into
            else walk fuel (fd_message field) (path +:+ ".") repeated into
        | k => if numeric k then <[path := mkHuntHeld HNumber repeated []]> into else into
        end) into (message_fields message)
  end.

Definition hunt_describe (message : string) : gmap Field hunt_held :=
  walk (S (Z.to_nat maxDepth)) message "" false ∅.

Definition vocabularies (dataset : Dataset) : option (gmap Field hunt_held) :=
  if bool_decide (dataset = EventsDataset) then Some (hunt_describe event_message)
  else if bool_decide (dataset = DetectionsDataset) then Some (hunt_describe detection_message)
  else None.

Definition hunt_lookup (dataset : Dataset) (field : Field) : option hunt_held :=
  known ← vocabularies dataset; known !! field.

Definition Known_dataset (dataset : Dataset) : bool :=
  match vocabularies dataset with Some _ => true | None => false end.
End vocabulary.

(** ** Literals and questions (expression.go) *)

Definition maxValuesPerPredicate : Z := 256.
Definition maxValueBytes : Z := 512.

Definition hunt_accepts (o : Operator) : list HuntKind :=
  match o with
  | Equals | Present => [HText; HNumber; HTruth; HChoice; HInstant]
  | OneOf => [HText; HNumber; HChoice]
  | Contains | StartsWith | EndsWith => [HText]
  | Above | AtLeast | Below | AtMost => [HNumber; HInstant]
  | Rule.Undeclared _ => []
  end.

Definition acceptsList : list Operator := [Equals; OneOf; Present].

Definition hunt_asks (o : Operator) (k : HuntKind) : bool := contains_elem (hunt_accepts o) k.

Definition hunt_takes (o : Operator) : Z * Z :=
  match o with
  | Present => (0, 0)
  | OneOf => (1, maxValuesPerPredicate)
  | _ => (1, 1)
  end.

Record HuntValue := mkHuntValue {
  hv_kind : HuntKind;
  hv_text : string;
  hv_number : float64;
  hv_whole : Z;
  hv_exact : bool;
  hv_truth : bool;
  hv_instant : instant;
}.

Definition no_number : float64 := S754_zero false.
Definition huntText (k : HuntKind) (t : string) : HuntValue := mkHuntValue k t no_number 0 false false time_zero.

Inductive HuntExpression :=
| HPred (field : Field) (operator : Operator) (values : list HuntValue)
| HAll (terms : list HuntExpression)
| HAny (terms : list HuntExpression)
| HNot (term : HuntExpression).

Class HuntFormats := {
  ParseFloat : string → option float64;
  FormatFloat : float64 → string;
  ParseRFC3339 : string → option instant;
  FormatRFC3339Nano : instant → string;
}.

(** [strconv.ParseInt] in base 10 at 64 bits. *)
Definition ParseInt (s : string) : option Z :=
  match s with
  | String "-" rest => n ← ParseUint rest; if 2 ^ 63 <? n then None else Some (- n)
  | String "+" rest => n ← ParseUint rest; if 2 ^ 63 <=? n then None else Some n
  | _ => n ← ParseUint s; if 2 ^ 63 <=? n then None else Some n
  end.

(** [strconv.ParseBool]. *)
Definition ParseBool (s : string) : option bool :=
  if contains_elem ["1"; "t"; "T"; "TRUE"; "true"; "True"] s then Some true
  else if contains_elem ["0"; "f"; "F"; "FALSE"; "false"; "False"] s then Some false
  else None.

Section literals.
Context `{HuntFormats, Formats}.

Definition literal (entry : hunt_held) (written : string) : option HuntValue :=
  if maxValueBytes <? slen written then None else
  match hh_kind entry with
  | HNumber =>
      match ParseInt written with
      | Some whole => Some (mkHuntValue HNumber "" (float64_of_Z whole) whole true false time_zero)
      | None => number ← ParseFloat written; Some (mkHuntValue HNumber "" number 0 false false time_zero)
      end
  | HTruth => truth ← ParseBool written; Some (mkHuntValue HTruth "" no_number 0 false truth time_zero)
  | HInstant => at_ ← ParseRFC3339 written; Some (mkHuntValue HInstant "" no_number 0 false false at_)
  | HChoice => if contains_elem (hh_choices entry) written then Some (huntText HChoice written) else None
  | HText => Some (huntText HText written)
  end.

Definition HuntValue_String (v : HuntValue) : string :=
  match hv_kind v with
  | HNumber => if hv_exact v then pretty (hv_whole v) else FormatFloat (hv_number v)
  | HTruth => FormatBool (hv_truth v)
  | HInstant => FormatRFC3339Nano (hv_instant v)
  | _ => Quote (hv_text v)
  end.

Fixpoint render (e : HuntExpression) : string :=
  match e with
  | HPred field operator values =>
      if bool_decide (operator = Present) then field +:+ " present"
      else field +:+ " " +:+ Operator_String operator +:+ " " +:+ String.concat ", " (HuntValue_String <$> values)
  | HAll terms => "(" +:+ String.concat " and " (render <$> terms) +:+ ")"
  | HAny terms => "(" +:+ String.concat " or " (render <$> terms) +:+ ")"
  | HNot term => "not " +:+ render term
  end.
End literals.

(** ** Scopes (scope.go) *)

Abbreviation Scope := (list string) (only parsing).

Inductive ScopeError := NoClientCertificate | NotGranted | NotPermitted | NoScope | NotATenant.

Fixpoint keep_tenants (kept tenants : list string) : result ScopeError (list string) :=
  match tenants with
  | [] => Ok kept
  | tenant :: tenants =>
      if negb (ValidIdentifier tenant) then Err NotATenant
      else keep_tenants (add_once kept tenant) tenants
  end.

Definition NewScope (tenants : list string) : result ScopeError Scope :=
  match keep_tenants [] tenants with
  | Err e => Err e
  | Ok kept => if len kept =? 0 then Err NoScope else Ok (sort_strings kept)
  end.

(** The verified chains of a connection, each certificate by its common name. *)
Definition CallerFromConnection (chains : option (list (list string))) : string :=
  match chains with
  | Some ((leaf :: _) :: _) => leaf
  | _ => ""
  end.

Definition dataset_permission (dataset : Dataset) : Permission :=
  mkPermission (if bool_decide (dataset = DetectionsDataset) then Detections else EventsResource) Read.

Definition Authorize (chains : option (list (list string))) (policy : Policy) (dataset : Dataset)
    : result ScopeError Scope :=
  let caller := CallerFromConnection chains in
  if bool_decide (caller = "") then Err NoClientCertificate
  else match policy_Grant policy caller with
       | Err _ => Err NotGranted
       | Ok grant =>
           if negb (decision_Allowed (grant_Decide grant (dataset_permission dataset))) then Err NotPermitted
           else NewScope (g_tenants grant)
       end.

(** ** Cursors (cursor.go) *)

Definition maxCursorName : Z := 128.
Definition maxCursorNames : nat := 2.
Definition cursorLayout : string := "seagull.hunt.cursor/2".

Record After := mkAfter { after_set : bool; after_time : instant; after_names : list string }.
Definition from_the_start : After := mkAfter false time_zero [].

(** [binary.AppendUvarint] of a number below [2 ^ 64]: ten groups are enough. *)
Fixpoint put_uvarint (fuel : nat) (v : Z) : string :=
  match fuel with
  | O => ""
  | S fuel =>
      if v <? 128 then String (byte_of v) ""
      else String (byte_of (Z.lor (v mod 256) 128)) (put_uvarint fuel (Z.shiftr v 7))
  end.
Definition AppendUvarint (v : Z) : string := put_uvarint 10 v.

(** [binary.Uvarint]: the number and how many bytes it took, [None] when the bytes
    run out or the number overflows. *)
Fixpoint uvarint_from (i : nat) (x s : Z) (buf : string) : option (Z * nat) :=
  match buf with
  | EmptyString => None
  | String c buf =>
      if (i =? 10)%nat then None
      else
        let b := Z.of_N (byte c) in
        if b <? 128 then
          if (i =? 9)%nat && (1 <? b) then None else Some (Z.lor x (Z.shiftl b s), S i)
        else uvarint_from (S i) (Z.lor x (Z.shiftl (Z.land b 127) s)) (s + 7) buf
  end.
Definition Uvarint (buf : string) : option (Z * nat) := uvarint_from 0 0 0 buf.

Section cursor.
Context `{Hashing}.

Definition cursor_sign (key fingerprint payload : string) : string :=
  HMAC key (cursorLayout +:+ fingerprint +:+ payload).

Definition cursor_name (name : string) : string := AppendUvarint (slen name) +:+ name.

Definition cursor_payload (at_ : instant) (names : list string) : string :=
  BigEndian_PutUint64 (UnixMilli at_) +:+ foldr (λ name rest, cursor_name name +:+ rest) "" names.

Definition encodeCursor (key fingerprint : string) (at_ : instant) (names : list string) : string :=
  let payload := cursor_payload at_ names in
  base64_encode payload +:+ "." +:+ base64_encode (cursor_sign key fingerprint payload).

(** The loop of [readNames]: every name takes a byte at least, so the bytes bound
    its turns. *)
Fixpoint readNames (fuel : nat) (names : list string) (written : string) : option (list string) :=
  match fuel, written with
  | _, EmptyString => if bool_decide (names = []) then None else Some names
  | O, _ => None
  | S fuel, _ =>
      match Uvarint written with
      | None => None
      | Some (length, read) =>
          if (maxCursorName <? length) || (slen written - Z.of_nat read <? length)
             || (List.length names =? maxCursorNames)%nat then None
          else
            let rest := string_drop read written in
            readNames fuel (names ++ [string_take (Z.to_nat length) rest]) (string_drop (Z.to_nat length) rest)
      end
  end.

Definition decodeCursor (key fingerprint token : string) : option After :=
  let '(written, signature, found) := Cut token "." in
  if negb found then None else
  payload ← base64_decode written;
  presented ← base64_decode signature;
  if negb (bool_decide (presented = cursor_sign key fingerprint payload)) then None
  else if slen payload <? 8 then None
  else
    names ← readNames (String.length payload) [] (string_drop 8 payload);
    Some (mkAfter true (of_UnixMilli (int64 (BigEndian_Uint64 payload))) names).
End cursor.

(** ** The compiler (query.go) *)

Definition maxPredicates : Z := 32.
Definition maxExpressionDepth : Z := 8.

Inductive WireOperator :=
| OPERATOR_EQUALS | OPERATOR_ONE_OF | OPERATOR_CONTAINS | OPERATOR_STARTS_WITH | OPERATOR_ENDS_WITH
| OPERATOR_ABOVE | OPERATOR_AT_LEAST | OPERATOR_BELOW | OPERATOR_AT_MOST | OPERATOR_PRESENT
| OPERATOR_OTHER (number : Z).

Definition operators (o : WireOperator) : option Operator :=
  match o with
  | OPERATOR_EQUALS => Some Equals | OPERATOR_ONE_OF => Some OneOf | OPERATOR_CONTAINS => Some Contains
  | OPERATOR_STARTS_WITH => Some StartsWith | OPERATOR_ENDS_WITH => Some EndsWith
  | OPERATOR_ABOVE => Some Above | OPERATOR_AT_LEAST => Some AtLeast | OPERATOR_BELOW => Some Below
  | OPERATOR_AT_MOST => Some AtMost | OPERATOR_PRESENT => Some Present
  | OPERATOR_OTHER _ => None
  end.

(** A term as it arrives; [QNil] is one that is not there and [QNothing] one that
    carries no form this build can read. *)
Inductive AskedTerm :=
| QPredicate (field : string) (operator : WireOperator) (values : list string)
| QAll (terms : list AskedTerm)
| QAny (terms : list AskedTerm)
| QNegated (term : AskedTerm)
| QNothing
| QNil.

Record AskedQuery := mkAskedQuery {
  aq_start : option instant; aq_end : option instant; aq_where : AskedTerm; aq_limit : Z; aq_cursor : string }.

Inductive HuntRefusal :=
| CodeUnscoped | CodeUnknownDataset | CodeMissingRange | CodeInvertedRange | CodeRangeTooWide
| CodeLimitTooLarge | CodeUnknownField (field : string) | CodeUnknownOperator (field : string)
| CodeOperatorRefused (field : string) | CodeWrongValueCount (field : string)
| CodeUnreadableValue (field : string) | CodeQueryTooLarge | CodeQueryTooDeep | CodeEmptyGroup
| CodeEmptyTerm | CodeInvalidCursor.

Record TimeRange := mkTimeRange { tr_start : instant; tr_end : instant }.

Record HuntLimits := mkHuntLimits {
  hl_window : duration; hl_page : Z; hl_maxPage : Z; hl_timeout : duration; hl_maxRowsRead : Z }.

Definition limits_valid (l : HuntLimits) : bool :=
  negb (hl_window l <=? 0)
  && negb ((hl_page l <=? 0) || (hl_maxPage l <=? 0) || (hl_maxPage l <? hl_page l))
  && negb (hl_timeout l <=? 0) && negb (hl_maxRowsRead l =? 0).

Record Query := mkQuery {
  q_dataset : Dataset;
  q_scope : Scope;
  q_window : TimeRange;
  q_where : option HuntExpression;
  q_limit : Z;
  q_after : After;
  q_limits : HuntLimits;
  q_fingerprint : string;
}.

Record HuntCompiler := mkHuntCompiler { hc_limits : HuntLimits; hc_key : string }.

Definition NewCompiler (limits : HuntLimits) (key : string) : option HuntCompiler :=
  if negb (limits_valid limits) then None
  else if slen key <? 32 then None else Some (mkHuntCompiler limits key).

Section compiler.
Context `{Contract, HuntFormats, Formats, Hashing} (detection_message : string).

Definition fingerprint_text (dataset : Dataset) (scope : Scope) (window : TimeRange)
    (where_ : option HuntExpression) (limit : Z) : string :=
  let nl := String (ascii_of_N 10) "" in
  dataset +:+ nl +:+ String.concat "," scope +:+ nl
  +:+ pretty (UnixMilli (tr_start window)) +:+ nl +:+ pretty (UnixMilli (tr_end window)) +:+ nl
  +:+ pretty limit +:+ nl +:+ (match where_ with Some e => render e | None => "" end).

Definition fingerprintOf dataset scope window where_ limit : string :=
  Sum256 (fingerprint_text dataset scope window where_ limit).

Definition compile_window (c : HuntCompiler) (start end_ : option instant) : result HuntRefusal TimeRange :=
  match start, end_ with
  | Some start, Some end_ =>
      if negb (after end_ start) then Err CodeInvertedRange
      else if hl_window (hc_limits c) <? time_sub end_ start then Err CodeRangeTooWide
      else Ok (mkTimeRange start end_)
  | _, _ => Err CodeMissingRange
  end.

Definition compile_page (c : HuntCompiler) (asked : Z) : result HuntRefusal Z :=
  if asked =? 0 then Ok (hl_page (hc_limits c))
  else if hl_maxPage (hc_limits c) <? asked then Err CodeLimitTooLarge
  else Ok asked.

Definition compile_values (entry : hunt_held) (field : string) (operator : Operator) (written : list string)
    : result HuntRefusal (list HuntValue) :=
  let '(minimum, maximum) := hunt_takes operator in
  if (len written <? minimum) || (maximum <? len written) then Err (CodeWrongValueCount field)
  else match mapM (literal entry) written with
       | None => Err (CodeUnreadableValue field)
       | Some values => Ok values
       end.

(** The predicates left are counted down before anything of one is read. *)
Definition compile_predicate (dataset : Dataset) (field : string) (asked : WireOperator) (written : list string)
    (budget : Z) : result HuntRefusal (HuntExpression * Z) :=
  let budget := budget - 1 in
  if budget <? 0 then Err CodeQueryTooLarge
  else match hunt_lookup detection_message dataset field with
  | None => Err (CodeUnknownField field)
  | Some entry =>
      match operators asked with
      | None => Err (CodeUnknownOperator field)
      | Some operator =>
          if negb (hunt_asks operator (hh_kind entry)) then Err (CodeOperatorRefused field)
          else if hh_repeated entry && negb (contains_elem acceptsList operator)
          then Err (CodeOperatorRefused field)
          else match compile_values entry field operator written with
               | Err e => Err e
               | Ok values => Ok (HPred field operator values, budget)
               end
      end
  end.

Fixpoint compile_expression (dataset : Dataset) (asked : AskedTerm) (depth : Z) (budget : Z)
    : result HuntRefusal (option HuntExpression * Z) :=
  let fix compile_terms (terms : list AskedTerm) (depth budget : Z) : result HuntRefusal (list HuntExpression * Z) :=
    match terms with
    | [] => Ok ([], budget)
    | one :: terms =>
        match compile_expression dataset one (depth + 1) budget with
        | Err e => Err e
        | Ok (None, _) => Err CodeEmptyTerm
        | Ok (Some term, budget) =>
            match compile_terms terms depth budget with
            | Err e => Err e
            | Ok (rest, budget) => Ok (term :: rest, budget)
            end
        end
    end in
  match asked with
  | QNil => Ok (None, budget)
  | _ =>
      if maxExpressionDepth <? depth then Err CodeQueryTooDeep else
      match asked with
      | QPredicate field operator written =>
          match compile_predicate dataset field operator written budget with
          | Err e => Err e
          | Ok (e, budget) => Ok (Some e, budget)
          end
      | QAll terms =>
          if len terms =? 0 then Err CodeEmptyGroup else
          match compile_terms terms depth budget with
          | Err e => Err e
          | Ok (terms, budget) => Ok (Some (HAll terms), budget)
          end
      | QAny terms =>
          if len terms =? 0 then Err CodeEmptyGroup else
          match compile_terms terms depth budget with
          | Err e => Err e
          | Ok (terms, budget) => Ok (Some (HAny terms), budget)
          end
      | QNegated term =>
          match compile_expression dataset term (depth + 1) budget with
          | Err e => Err e
          | Ok (None, _) => Err CodeEmptyTerm
          | Ok (Some term, budget) => Ok (Some (HNot term), budget)
          end
      | QNothing | QNil => Err CodeEmptyTerm
      end
  end.

Definition CompileQuery (c : HuntCompiler) (dataset : Dataset) (scope : Scope) (asked : AskedQuery)
    : result HuntRefusal Query :=
  if len scope =? 0 then Err CodeUnscoped
  else if negb (Known_dataset detection_message dataset) then Err CodeUnknownDataset
  else match compile_window c (aq_start asked) (aq_end asked) with
  | Err e => Err e
  | Ok window =>
  match compile_page c (aq_limit asked) with
  | Err e => Err e
  | Ok limit =>
  match compile_expression dataset (aq_where asked) 0 maxPredicates with
  | Err e => Err e
  | Ok (where_, _) =>
      let fingerprint := fingerprintOf dataset scope window where_ limit in
      let query := mkQuery dataset scope window where_ limit from_the_start (hc_limits c) fingerprint in
      if bool_decide (aq_cursor asked = "") then Ok query
      else match decodeCursor (hc_key c) fingerprint (aq_cursor asked) with
           | None => Err CodeInvalidCursor
           | Some after => Ok (mkQuery dataset scope window where_ limit after (hc_limits c) fingerprint)
           end
  end end end.

(** The token that resumes a query after a record. *)
Definition NextCursor (c : HuntCompiler) (query : Query) (at_ : instant) (names : list string) : string :=
  encodeCursor (hc_key c) (q_fingerprint query) at_ names.
End compiler.

(** ** How many questions are held at once (capacity.go) *)

Record Capacity := mkCapacity { cap_ceiling : Z; cap_inflight : Z; cap_released : list bool }.

Definition NewCapacity (ceiling : Z) : option Capacity :=
  if ceiling <=? 0 then None else Some (mkCapacity ceiling 0 []).

(** A hold is the place of its [released] flag; releasing it twice is once. *)
Definition capacity_Hold (c : Capacity) : option (Capacity * nat) :=
  if cap_ceiling c <=? cap_inflight c then None
  else Some (mkCapacity (cap_ceiling c) (cap_inflight c + 1) (cap_released c ++ [false]), length (cap_released c)).

Definition capacity_release (hold : nat) (c : Capacity) : Capacity :=
  match cap_released c !! hold with
  | Some false => mkCapacity (cap_ceiling c) (cap_inflight c - 1) (<[hold := true]> (cap_released c))
  | _ => c
  end.
