(* ===== verification/HuntStore.v ===== *)
(** * What a query becomes in the store (clickhouse/hunt.go)

    The statement a compiled query is written as and the arguments bound to it.
    The driver and the database are outside: a statement is its text, with a
    question mark for each argument. *)

From Stdlib Require Import ZArith Lia Ascii Floats.SpecFloat.
From stdpp Require Import base tactics option gmap strings pretty sorting numbers list.
From S2P Require Import Prelude Text Scan Hex Bytes Rule Contract Compile Agent Authz Session Hunt.

(** ** Where a field is kept *)

Definition event_columns : list (Field * string) :=
  [("event_id", "event_id"); ("schema_version", "schema_version"); ("event_class", "event_class");
   ("time.event_time", "event_time"); ("time.observed_time", "observed_time");
   ("reception.ingest_time", "ingest_time"); ("reception.gateway", "gateway");
   ("reception.batch_id", "batch_id"); ("origin.tenant_id", "tenant_id"); ("origin.agent_id", "agent_id");
   ("origin.host.hostname", "host_hostname"); ("origin.host.ip", "host_ip"); ("origin.host.os", "host_os");
   ("origin.host.architecture", "host_architecture"); ("collection.collector", "collector");
   ("collection.source", "source"); ("collection.sequence", "sequence");
   ("authentication.activity", "auth_activity"); ("authentication.outcome", "auth_outcome");
   ("authentication.outcome_reason", "auth_outcome_reason"); ("authentication.method", "auth_method");
   ("authentication.user.name", "auth_user_name"); ("authentication.user.domain", "auth_user_domain");
   ("authentication.user.uid", "auth_user_uid"); ("authentication.service.name", "auth_service_name");
   ("authentication.service.protocol", "auth_service_protocol");
   ("authentication.network.source.ip", "auth_source_ip");
   ("authentication.network.source.port", "auth_source_port");
   ("authentication.network.destination.ip", "auth_destination_ip");
   ("authentication.network.destination.port", "auth_destination_port");
   ("authentication.network.transport", "auth_transport"); ("authentication.raw_record", "auth_raw_record")].

Definition detection_fields : list (Field * string) :=
  [("detection_id", "detection_id"); ("schema_version", "schema_version"); ("rule.id", "rule_id");
   ("rule.revision", "rule_revision"); ("rule.name", "rule_name");
   ("rule.source.catalogue", "rule_source_catalogue"); ("rule.source.identifier", "rule_source_identifier");
   ("ruleset_id", "ruleset_id"); ("severity", "severity"); ("technique.tactic", "technique_tactic");
   ("technique.id", "technique_id"); ("technique.name", "technique_name"); ("event_class", "event_class");
   ("origin.tenant_id", "tenant_id"); ("origin.agent_id", "agent_id");
   ("origin.host.hostname", "host_hostname"); ("origin.host.ip", "host_ip"); ("origin.host.os", "host_os");
   ("origin.host.architecture", "host_architecture"); ("source_event_ids", "source_event_ids");
   ("event_time", "event_time"); ("detected_time", "detected_time"); ("evidence.field", "evidence_field");
   ("evidence.operator", "evidence_operator"); ("evidence.negated", "evidence_negated");
   ("evidence.held", "evidence_held"); ("evidence.absent", "evidence_absent");
   ("aggregation.count", "aggregation_count"); ("aggregation.threshold", "aggregation_threshold");
   ("aggregation.first_event_time", "aggregation_first_event_time");
   ("aggregation.saturated", "aggregation_saturated"); ("aggregation.group.field", "aggregation_group_field");
   ("aggregation.group.value", "aggregation_group_value");
   ("aggregation.group.absent", "aggregation_group_absent");
   ("correlation.stages.name", "correlation_stage_name");
   ("correlation.stages.event_id", "correlation_stage_event_id");
   ("correlation.stages.event_time", "correlation_stage_event_time");
   ("correlation.stages.agent_id", "correlation_stage_agent_id");
   ("correlation.group.field", "correlation_group_field");
   ("correlation.group.value", "correlation_group_value");
   ("correlation.group.absent", "correlation_group_absent")].

Definition huntColumns (dataset : Dataset) : list (Field * string) :=
  if bool_decide (dataset = EventsDataset) then event_columns
  else if bool_decide (dataset = DetectionsDataset) then detection_fields else [].

Definition storedColumns : list string :=
  ["event_id"; "schema_version"; "event_class"; "event_time"; "observed_time"; "ingest_time"; "tenant_id";
   "agent_id"; "host_hostname"; "host_ip"; "host_os"; "host_architecture"; "collector"; "source"; "sequence";
   "gateway"; "batch_id"; "auth_activity"; "auth_outcome"; "auth_outcome_reason"; "auth_method";
   "auth_user_name"; "auth_user_domain"; "auth_user_uid"; "auth_service_name"; "auth_service_protocol";
   "auth_source_ip"; "auth_source_port"; "auth_destination_ip"; "auth_destination_port"; "auth_transport";
   "auth_raw_record"].

Definition detectionColumns : list string :=
  ["detection_id"; "schema_version"; "rule_id"; "rule_revision"; "rule_name"; "rule_source_catalogue";
   "rule_source_identifier"; "ruleset_id"; "severity"; "technique_tactic"; "technique_id"; "technique_name";
   "event_class"; "tenant_id"; "agent_id"; "host_hostname"; "host_ip"; "host_os"; "host_architecture";
   "source_event_ids"; "event_time"; "detected_time"; "evidence_field"; "evidence_operator";
   "evidence_negated"; "evidence_held"; "evidence_absent"; "aggregation_count"; "aggregation_threshold";
   "aggregation_window_seconds"; "aggregation_first_event_time"; "aggregation_saturated";
   "aggregation_group_field"; "aggregation_group_value"; "aggregation_group_absent";
   "correlation_window_seconds"; "correlation_clock_spread_millis"; "correlation_stage_name";
   "correlation_stage_event_id"; "correlation_stage_event_time"; "correlation_stage_agent_id";
   "correlation_group_field"; "correlation_group_value"; "correlation_group_absent"].

Record HuntTable := mkHuntTable {
  ht_table : string; ht_columns : list string; ht_instant : string; ht_names : list string }.

Definition huntTables (dataset : Dataset) : HuntTable :=
  if bool_decide (dataset = EventsDataset)
  then mkHuntTable "security_events" storedColumns "event_time" ["agent_id"; "event_id"]
  else if bool_decide (dataset = DetectionsDataset)
  then mkHuntTable "security_detections" detectionColumns "event_time" ["detection_id"]
  else mkHuntTable "" [] "" [].

Definition instantPlaceholder : string := "fromUnixTimestamp64Milli(?, 'UTC')".

(** ** Arguments *)

Inductive Argument := ArgText (t : string) | ArgInt (z : Z) | ArgFloat (f : float64) | ArgBool (b : bool).

Definition bind_value (v : HuntValue) : Argument :=
  match hv_kind v with
  | HNumber => if hv_exact v then ArgInt (hv_whole v) else ArgFloat (hv_number v)
  | HTruth => ArgBool (hv_truth v)
  | HInstant => ArgInt (UnixMilli (hv_instant v))
  | _ => ArgText (hv_text v)
  end.

Definition bind_values (values : list HuntValue) : list Argument := bind_value <$> values.

(** [strings.TrimSuffix(strings.Repeat("?, ", count), ", ")]. *)
Definition placeholders (count : nat) : string :=
  if (count =? 0)%nat then "NULL" else String.concat ", " (replicate count "?").

Definition placeholder (kind : HuntKind) : string :=
  if bool_decide (kind = HInstant) then instantPlaceholder else "?".

(** ** Conditions *)

Inductive StoreRefusal := NoColumn (field : string) | NotAskable (field : string) | WrongPosition.

Definition present (column : string) (kind : HuntKind) (repeated : bool) : string * list Argument :=
  if repeated then ("notEmpty(" +:+ column +:+ ")", [])
  else match kind with
       | HNumber => (column +:+ " != 0", [])
       | HTruth => (column +:+ " = true", [])
       | HInstant => (column +:+ " != " +:+ instantPlaceholder, [ArgInt 0])
       | _ => (column +:+ " != ''", [])
       end.

Definition carries (column : string) (values : list HuntValue) : string * list Argument :=
  ("(" +:+ String.concat " OR " (replicate (length values) ("has(" +:+ column +:+ ", ?)")) +:+ ")", bind_values values).

Section store.
Context `{Contract} (detection_message : string).

Definition store_predicate (dataset : Dataset) (field : Field) (operator : Operator) (values : list HuntValue)
    : result StoreRefusal (string * list Argument) :=
  match List.find (λ e, bool_decide (e.1 = field)) (huntColumns dataset) with
  | None => Err (NoColumn field)
  | Some (_, column) =>
      let entry := default (mkHuntHeld HText false []) (hunt_lookup detection_message dataset field) in
      let kind := hh_kind entry in
      if bool_decide (operator = Present) then Ok (present column kind (hh_repeated entry))
      else if hh_repeated entry then Ok (carries column values)
      else
        let held := placeholder kind in
        match operator with
        | Equals => Ok (column +:+ " = " +:+ held, bind_values values)
        | OneOf => Ok (column +:+ " IN (" +:+ placeholders (length values) +:+ ")", bind_values values)
        | Contains => Ok ("position(" +:+ column +:+ ", ?) > 0", bind_values values)
        | StartsWith => Ok ("startsWith(" +:+ column +:+ ", ?)", bind_values values)
        | EndsWith => Ok ("endsWith(" +:+ column +:+ ", ?)", bind_values values)
        | Above => Ok (column +:+ " > " +:+ held, bind_values values)
        | AtLeast => Ok (column +:+ " >= " +:+ held, bind_values values)
        | Below => Ok (column +:+ " < " +:+ held, bind_values values)
        | AtMost => Ok (column +:+ " <= " +:+ held, bind_values values)
        | _ => Err (NotAskable field)
        end
  end.

Fixpoint condition (dataset : Dataset) (e : HuntExpression) : result StoreRefusal (string * list Argument) :=
  let fix conditions (terms : list HuntExpression) : result StoreRefusal (list string * list Argument) :=
    match terms with
    | [] => Ok ([], [])
    | term :: terms =>
        match condition dataset term with
        | Err e => Err e
        | Ok (one, arguments) =>
            match conditions terms with
            | Err e => Err e
            | Ok (written, values) => Ok (one :: written, arguments ++ values)
            end
        end
    end in
  let group (terms : list HuntExpression) (separator : string) :=
    match conditions terms with
    | Err e => Err e
    | Ok (written, values) => Ok ("(" +:+ String.concat separator written +:+ ")", values)
    end in
  match e with
  | HPred field operator values => store_predicate dataset field operator values
  | HAll terms => group terms " AND "
  | HAny terms => group terms " OR "
  | HNot term =>
      match condition dataset term with
      | Err e => Err e
      | Ok (written, values) => Ok ("NOT " +:+ written, values)
      end
  end.

(** ** The statement *)

Definition resumed (t : HuntTable) (after : After) : result StoreRefusal (list string * list Argument) :=
  if negb (after_set after) then Ok ([], [])
  else if negb (length (after_names after) =? length (ht_names t))%nat then Err WrongPosition
  else Ok (["(" +:+ ht_instant t +:+ ", " +:+ String.concat ", " (ht_names t) +:+ ") < (" +:+ instantPlaceholder
              +:+ String.concat "" (replicate (length (ht_names t)) ", ?") +:+ ")"],
           ArgInt (UnixMilli (after_time after)) :: (ArgText <$> after_names after)).

Definition asked_for (dataset : Dataset) (where_ : option HuntExpression)
    : result StoreRefusal (list string * list Argument) :=
  match where_ with
  | None => Ok ([], [])
  | Some e => match condition dataset e with
              | Err e => Err e
              | Ok (written, values) => Ok ([written], values)
              end
  end.

Definition compile_statement (q : Query) : result StoreRefusal (string * list Argument) :=
  let t := huntTables (q_dataset q) in
  match resumed t (q_after q) with
  | Err e => Err e
  | Ok (position, position_values) =>
  match asked_for (q_dataset q) (q_where q) with
  | Err e => Err e
  | Ok (asked, asked_values) =>
      let conditions :=
        ("tenant_id IN (" +:+ placeholders (length (q_scope q)) +:+ ")")
        :: (ht_instant t +:+ " >= " +:+ instantPlaceholder +:+ " AND " +:+ ht_instant t +:+ " < " +:+ instantPlaceholder)
        :: position ++ asked in
      let order := (ht_instant t +:+ " DESC") :: ((λ name, name +:+ " DESC") <$> ht_names t) in
      Ok ("SELECT " +:+ String.concat ", " (ht_columns t) +:+ " FROM " +:+ ht_table t +:+ " FINAL WHERE "
          +:+ String.concat " AND " conditions +:+ " ORDER BY " +:+ String.concat ", " order
          +:+ " LIMIT " +:+ pretty (q_limit q),
          (ArgText <$> q_scope q)
          ++ [ArgInt (UnixMilli (tr_start (q_window q))); ArgInt (UnixMilli (tr_end (q_window q)))]
          ++ position_values ++ asked_values)
  end end.

(** ** The columns agree with the vocabulary, checked when a reader is built *)

Definition hunt_Fields (dataset : Dataset) : list Field :=
  match vocabularies detection_message dataset with
  | Some known => sort_strings (map_to_list known).*1
  | None => []
  end.

Definition agreesWithVocabulary : bool :=
  forallb (λ dataset,
    let mapped := huntColumns dataset in
    let read := huntTables dataset in
    negb (bool_decide (mapped = []))
    && forallb (contains_elem (ht_columns read)) (ht_instant read :: ht_names read)
    && forallb (λ field, match List.find (λ e, bool_decide (e.1 = field)) mapped with
                         | None => false
                         | Some (_, column) => contains_elem (ht_columns read) column
                         end) (hunt_Fields dataset)
    && (len mapped =? len (hunt_Fields dataset))) [DetectionsDataset; EventsDataset].
End store.
