(* ===== verification/HuntProps.v ===== *)
(** * What a hunt may read: bounds, scope, cursors and statements *)

From Stdlib Require Import ZArith Lia Ascii Floats.SpecFloat.
From stdpp Require Import base tactics option gmap strings pretty sorting numbers list.
From S2P Require Import Prelude Text Scan Hex Rule Contract Bytes Compile Agent Authz Session Hunt HuntStore.


(** ** Induction through the lists of terms *)

Section hunt_ind.
Context (P : HuntExpression → Prop)
  (HP : ∀ field operator values, P (HPred field operator values))
  (HA : ∀ ts, Forall P ts → P (HAll ts)) (HO : ∀ ts, Forall P ts → P (HAny ts))
  (HN : ∀ t, P t → P (HNot t)).

Fixpoint HuntExpression_ind' (e : HuntExpression) : P e :=
  let fix go (ts : list HuntExpression) : Forall P ts :=
    match ts with
    | [] => List.Forall_nil P
    | t :: ts => @List.Forall_cons _ P t ts (HuntExpression_ind' t) (go ts)
    end in
  match e with
  | HPred f o vs => HP f o vs
  | HAll ts => HA ts (go ts)
  | HAny ts => HO ts (go ts)
  | HNot t => HN t (HuntExpression_ind' t)
  end.
End hunt_ind.

Section asked_ind.
Context (P : AskedTerm → Prop)
  (HP : ∀ field operator values, P (QPredicate field operator values))
  (HA : ∀ ts, Forall P ts → P (QAll ts)) (HO : ∀ ts, Forall P ts → P (QAny ts))
  (HN : ∀ t, P t → P (QNegated t)) (H0 : P QNothing) (H1 : P QNil).

Fixpoint AskedTerm_ind' (e : AskedTerm) : P e :=
  let fix go (ts : list AskedTerm) : Forall P ts :=
    match ts with
    | [] => List.Forall_nil P
    | t :: ts => @List.Forall_cons _ P t ts (AskedTerm_ind' t) (go ts)
    end in
  match e with
  | QPredicate f o vs => HP f o vs
  | QAll ts => HA ts (go ts)
  | QAny ts => HO ts (go ts)
  | QNegated t => HN t (AskedTerm_ind' t)
  | QNothing => H0
  | QNil => H1
  end.
End asked_ind.

(** ** What a compiled expression holds to *)

(** The questions of an expression, and how many groups and negations stand above
    the deepest of them. *)
Fixpoint questions (e : HuntExpression) : Z :=
  match e with
  | HPred _ _ _ => 1
  | HAll ts | HAny ts => foldr Z.add 0 (questions <$> ts)
  | HNot t => questions t
  end.

Fixpoint height (e : HuntExpression) : Z :=
  match e with
  | HPred _ _ _ => 0
  | HAll ts | HAny ts => 1 + foldr Z.max 0 (height <$> ts)
  | HNot t => 1 + height t
  end.

Lemma foldr_max_nonneg l : 0 ≤ foldr Z.max 0 l.
Proof. induction l; cbn; lia. Qed.

Lemma height_nonneg e : 0 ≤ height e.
Proof.
  induction e as [f o vs|ts IH|ts IH|t IH] using HuntExpression_ind'; cbn [height]; try lia;
    pose proof (foldr_max_nonneg (height <$> ts)); lia.
Qed.

Section bounds.
Context `{Contract, HuntFormats, Formats, Hashing} (detection_message : string).

(** A question the dataset can be asked: a declared field, an operator its kind
    takes, as many literals as the operator reads, each read as the field's kind. *)
Inductive askable (dataset : Dataset) : HuntExpression → Prop :=
| askable_pred field operator values entry :
    hunt_lookup detection_message dataset field = Some entry →
    hunt_asks operator (hh_kind entry) = true →
    (hh_repeated entry = true → operator ∈ acceptsList) →
    (hunt_takes operator).1 ≤ len values ≤ (hunt_takes operator).2 →
    Forall (λ v, ∃ written, slen written ≤ maxValueBytes ∧ literal entry written = Some v) values →
    askable dataset (HPred field operator values)
| askable_all ts : ts ≠ [] → Forall (askable dataset) ts → askable dataset (HAll ts)
| askable_any ts : ts ≠ [] → Forall (askable dataset) ts → askable dataset (HAny ts)
| askable_not t : askable dataset t → askable dataset (HNot t).

Lemma compile_values_ok entry field operator written values :
  compile_values entry field operator written = Ok values →
  (hunt_takes operator).1 ≤ len values ≤ (hunt_takes operator).2
  ∧ Forall (λ v, ∃ written, slen written ≤ maxValueBytes ∧ literal entry written = Some v) values.
Proof.
  unfold compile_values. destruct (hunt_takes operator) as [minimum maximum]. cbn [fst snd].
  destruct ((len written <? minimum) || (maximum <? len written)) eqn:Hc; [done |].
  destruct (mapM (literal entry) written) as [vs|] eqn:Hm; [| done]. intros [= <-].
  apply mapM_Some in Hm. pose proof (Forall2_length _ _ _ Hm) as Hl. unfold len in *.
  rewrite <- Hl. to_prop. split; [lia |].
  apply Forall_forall. intros v [i Hi]%list_elem_of_lookup.
  destruct (Forall2_lookup_r _ _ _ _ _ Hm Hi) as (w & _ & Hw). exists w. split; [| done].
  unfold literal in Hw. destruct (Z.ltb_spec maxValueBytes (slen w)); [done | lia].
Qed.

Lemma compile_predicate_ok dataset field asked written budget e budget' :
  compile_predicate detection_message dataset field asked written budget = Ok (e, budget') →
  askable dataset e ∧ questions e = 1 ∧ height e = 0 ∧ budget' = budget - 1 ∧ 0 ≤ budget'.
Proof.
  unfold compile_predicate. cbv zeta. destruct (Z.ltb_spec (budget - 1) 0); [done |].
  destruct (hunt_lookup detection_message dataset field) as [entry|] eqn:Hl; [| done].
  destruct (operators asked) as [operator|]; [| done].
  destruct (hunt_asks operator (hh_kind entry)) eqn:Ha; [| done]. cbn [negb].
  destruct (hh_repeated entry && negb (contains_elem acceptsList operator)) eqn:Hr; [done |].
  destruct (compile_values entry field operator written) as [values|] eqn:Hv; [| done].
  intros [= <- <-]. apply compile_values_ok in Hv as [Hc Hf]. split_and!; try done.
  econstructor; try done. intros Hrep. rewrite Hrep in Hr. cbn in Hr. to_prop.
  unfold contains_elem in Hr. by to_prop.
Qed.

(** The terms of a group, compiled in order with what is left of the budget. *)
Fixpoint compile_terms (dataset : Dataset) (terms : list AskedTerm) (depth budget : Z)
    : result HuntRefusal (list HuntExpression * Z) :=
  match terms with
  | [] => Ok ([], budget)
  | one :: terms =>
      match compile_expression detection_message dataset one (depth + 1) budget with
      | Err e => Err e
      | Ok (None, _) => Err CodeEmptyTerm
      | Ok (Some term, budget) =>
          match compile_terms dataset terms depth budget with
          | Err e => Err e
          | Ok (rest, budget) => Ok (term :: rest, budget)
          end
      end
  end.

Definition kept_to (dataset : Dataset) (depth budget : Z) (e : HuntExpression) (budget' : Z) : Prop :=
  askable dataset e ∧ questions e + budget' = budget ∧ depth + height e ≤ maxExpressionDepth ∧ 0 ≤ budget'.

Lemma compile_terms_ok dataset asked depth budget terms budget' :
  Forall (λ one, ∀ depth budget e budget', 0 ≤ budget →
    compile_expression detection_message dataset one depth budget = Ok (Some e, budget') →
    kept_to dataset depth budget e budget') asked →
  0 ≤ budget → compile_terms dataset asked depth budget = Ok (terms, budget') →
  Forall (askable dataset) terms ∧ length terms = length asked
  ∧ foldr Z.add 0 (questions <$> terms) + budget' = budget
  ∧ (asked ≠ [] → depth + 1 + foldr Z.max 0 (height <$> terms) ≤ maxExpressionDepth) ∧ 0 ≤ budget'.
Proof.
  intros Hall. revert budget terms budget'. induction Hall as [|one asked Hone _ IH]; intros budget terms budget' Hb Hok;
    cbn [compile_terms] in Hok.
  { injection Hok as <- <-. split_and!; [constructor | done | cbn; lia | done | done]. }
  destruct (compile_expression detection_message dataset one (depth + 1) budget) as [[[term|] b]|] eqn:He; try done.
  destruct (compile_terms dataset asked depth b) as [[rest b']|] eqn:Hr; [| done]. injection Hok as <- <-.
  destruct (Hone _ _ _ _ Hb He) as (Ha & Hq & Hh & Hb').
  destruct (IH _ _ _ Hb' Hr) as (Hask & Hlen & Hsum & Hdeep & Hb''). cbn [fmap list_fmap foldr length].
  split_and!; [by constructor | by rewrite Hlen | lia | | done].
  intros _. destruct asked as [|a asked].
  - destruct rest; [| done]. cbn. unfold maxExpressionDepth in *.
    assert (0 ≤ height term) by apply height_nonneg. lia.
  - specialize (Hdeep ltac:(done)). lia.
Qed.

Lemma compile_terms_inner dataset terms : ∀ depth budget,
  (fix compile_terms (terms : list AskedTerm) (depth budget : Z) : result HuntRefusal (list HuntExpression * Z) :=
    match terms with
    | [] => Ok ([], budget)
    | one :: terms =>
        match compile_expression detection_message dataset one (depth + 1) budget with
        | Err e => Err e
        | Ok (None, _) => Err CodeEmptyTerm
        | Ok (Some term, budget) =>
            match compile_terms terms depth budget with
            | Err e => Err e
            | Ok (rest, budget) => Ok (term :: rest, budget)
            end
        end
    end) terms depth budget = compile_terms dataset terms depth budget.
Proof.
  induction terms as [|one terms IH]; intros depth budget; [done |]. cbn [compile_terms].
  destruct (compile_expression detection_message dataset one (depth + 1) budget) as [[[term|] b]|]; try done.
  by rewrite IH.
Qed.

Lemma compile_expression_ok dataset asked : ∀ depth budget e budget', 0 ≤ budget →
  compile_expression detection_message dataset asked depth budget = Ok (Some e, budget') →
  kept_to dataset depth budget e budget'.
Proof.
  induction asked as [f o vs|ts IH|ts IH|t IH| |] using AskedTerm_ind'; intros depth budget e budget' Hb Hok;
    cbn [compile_expression] in Hok; try done;
    destruct (Z.ltb_spec maxExpressionDepth depth) as [|Hd]; try done.
  - destruct (compile_predicate detection_message dataset f o vs budget) as [[e' b]|] eqn:Hp; [| done].
    injection Hok as <- <-. apply compile_predicate_ok in Hp as (Ha & Hq & Hh & Hbud & Hb').
    split_and!; [done | lia | lia | done].
  - destruct (Z.eqb_spec (len ts) 0) as [|Hne]; [done |]. rewrite compile_terms_inner in Hok.
    destruct (compile_terms dataset ts depth budget) as [[terms b]|] eqn:Ht; [| done]. injection Hok as <- <-.
    apply compile_terms_ok in Ht as (Ha & Hlen & Hs & Hdeep & Hb'); [| done | done].
    assert (ts ≠ []) as Hts by (by intros ->).
    split_and!; [| cbn; lia | specialize (Hdeep Hts); cbn [height]; lia | done].
    constructor; [| done]. intros ->. by destruct ts.
  - destruct (Z.eqb_spec (len ts) 0) as [|Hne]; [done |]. rewrite compile_terms_inner in Hok.
    destruct (compile_terms dataset ts depth budget) as [[terms b]|] eqn:Ht; [| done]. injection Hok as <- <-.
    apply compile_terms_ok in Ht as (Ha & Hlen & Hs & Hdeep & Hb'); [| done | done].
    assert (ts ≠ []) as Hts by (by intros ->).
    split_and!; [| cbn; lia | specialize (Hdeep Hts); cbn [height]; lia | done].
    constructor; [| done]. intros ->. by destruct ts.
  - destruct (compile_expression detection_message dataset t (depth + 1) budget) as [[[e'|] b]|] eqn:He; try done.
    injection Hok as <- <-. destruct (IH _ _ _ _ Hb He) as (Ha & Hq & Hh & Hb').
    split_and!; [by constructor | done | cbn; lia | done].
Qed.

(** The parts of a compiled query. *)
Lemma CompileQuery_ok c dataset scope asked q :
  CompileQuery detection_message c dataset scope asked = Ok q →
  scope ≠ [] ∧ Known_dataset detection_message dataset = true
  ∧ ∃ window where_ limit left_ after,
      q = mkQuery dataset scope window where_ limit after (hc_limits c)
            (fingerprintOf dataset scope window where_ limit)
      ∧ compile_window c (aq_start asked) (aq_end asked) = Ok window
      ∧ compile_page c (aq_limit asked) = Ok limit
      ∧ compile_expression detection_message dataset (aq_where asked) 0 maxPredicates = Ok (where_, left_)
      ∧ (aq_cursor asked = "" ∧ after = from_the_start
         ∨ aq_cursor asked ≠ ""
           ∧ decodeCursor (hc_key c) (fingerprintOf dataset scope window where_ limit) (aq_cursor asked) = Some after).
Proof.
  unfold CompileQuery. destruct (Z.eqb_spec (len scope) 0) as [|Hs]; [done |].
  destruct (Known_dataset detection_message dataset) eqn:Hk; [| done]. cbn [negb].
  destruct (compile_window c (aq_start asked) (aq_end asked)) as [window|] eqn:Hw; [| done].
  destruct (compile_page c (aq_limit asked)) as [limit|] eqn:Hl; [| done].
  destruct (compile_expression detection_message dataset (aq_where asked) 0 maxPredicates) as [[where_ left_]|] eqn:He;
    [| done].
  cbv zeta. intros Hq. split_and!; [by intros -> | done |]. exists window, where_, limit, left_.
  case_bool_decide as Hc.
  - injection Hq as <-. exists from_the_start. split_and!; [done .. |]. by left.
  - destruct (decodeCursor _ _ _) as [after|] eqn:Ha; [| done]. injection Hq as <-. exists after. split_and!; [done .. |]. by right.
Qed.

Lemma query_bounds limits key c dataset scope asked q :
  NewCompiler limits key = Some c → 0 ≤ aq_limit asked →
  CompileQuery detection_message c dataset scope asked = Ok q →
  q_dataset q = dataset ∧ q_scope q = scope ∧ scope ≠ []
  ∧ tr_start (q_window q) < tr_end (q_window q)
  ∧ time_sub (tr_end (q_window q)) (tr_start (q_window q)) ≤ hl_window limits
  ∧ 1 ≤ q_limit q ≤ hl_maxPage limits
  ∧ ∀ e, q_where q = Some e →
      askable dataset e ∧ questions e ≤ maxPredicates ∧ height e ≤ maxExpressionDepth.
Proof.
  unfold NewCompiler. destruct (limits_valid limits) eqn:Hv; [| done]. cbn [negb].
  destruct (slen key <? 32); [done |]. intros [= <-] Hpos (Hs & _ & window & where_ & limit & left_ & after & -> & Hw & Hl & He & _)%CompileQuery_ok.
  unfold limits_valid in Hv. to_prop. cbn [q_dataset q_scope q_window q_limit q_where hc_limits] in *.
  unfold compile_window in Hw. destruct (aq_start asked) as [start|], (aq_end asked) as [end_|]; try done.
  unfold Prelude.after in Hw. destruct (Z.ltb_spec start end_); [| done]. cbn [negb hc_limits] in Hw.
  destruct (Z.ltb_spec (hl_window limits) (time_sub end_ start)); [done |]. injection Hw as <-.
  unfold compile_page in Hl. cbn [hc_limits] in Hl.
  assert (1 ≤ limit ≤ hl_maxPage limits).
  { destruct (Z.eqb_spec (aq_limit asked) 0); [injection Hl as <-; lia |].
    destruct (Z.ltb_spec (hl_maxPage limits) (aq_limit asked)); [done |]. injection Hl as <-. lia. }
  split_and!; try done; cbn; try lia.
  intros e ->. apply compile_expression_ok in He as (Ha & Hq & Hh & Hb); [| done].
  split_and!; [done | lia | lia].
Qed.

(** Whatever a caller asked, a query that compiles reads the tenants it was
    compiled for and some tenant, within a window of the plane's width, a page
    of at most its ceiling, and asks at most thirty-two questions nested at most
    eight deep, each of them one its dataset can answer. *)
Theorem a_query_keeps_to_its_bounds limits key c dataset scope asked q :
  NewCompiler limits key = Some c → 0 ≤ aq_limit asked →
  CompileQuery detection_message c dataset scope asked = Ok q →
  q_dataset q = dataset ∧ q_scope q = scope ∧ scope ≠ []
  ∧ tr_start (q_window q) < tr_end (q_window q)
  ∧ time_sub (tr_end (q_window q)) (tr_start (q_window q)) ≤ hl_window limits
  ∧ 1 ≤ q_limit q ≤ hl_maxPage limits
  ∧ ∀ e, q_where q = Some e →
      askable dataset e ∧ questions e ≤ maxPredicates ∧ height e ≤ maxExpressionDepth.
Proof. apply query_bounds. Qed.
End bounds.

(** * Cursors resume where they were written, and only for their own query *)


(** ** Variable-length integers *)

Lemma low_high v : 0 ≤ v → Z.lor (v mod 128) (Z.shiftl (Z.shiftr v 7) 7) = v.
Proof.
  intros Hv. change 128 with (2 ^ 7). apply Z.bits_inj'. intros n Hn.
  rewrite Z.lor_spec, Z.shiftl_spec by done. destruct (Z.ltb_spec n 7).
  - rewrite Z.mod_pow2_bits_low, (Z.testbit_neg_r _ (n - 7)) by lia. by rewrite orb_false_r.
  - rewrite Z.mod_pow2_bits_high, Z.shiftr_spec by lia. cbn. f_equal. lia.
Qed.

Lemma lor_with_high v : Z.lor (v mod 256) 128 = v mod 128 + 128.
Proof.
  assert (∀ m, 0 ≤ m < 256 → Z.lor m 128 = m mod 128 + 128) as Hall.
  { intros m Hm. assert (forallb (λ n, Z.lor (Z.of_nat n) 128 =? Z.of_nat n mod 128 + 128) (seq 0 256) = true) as Hc
      by (by vm_compute).
    rewrite forallb_forall in Hc. specialize (Hc (Z.to_nat m)). rewrite Z2Nat.id in Hc by lia.
    apply Z.eqb_eq, Hc, in_seq. lia. }
  rewrite Hall by (apply Z.mod_pos_bound; lia). f_equal.
  change 256 with (128 * 2). rewrite Z.rem_mul_r by lia. rewrite Z.add_mod by lia.
  rewrite (Z.mul_comm 128), Z.mod_mul, Z.add_0_r, !Z.mod_mod by lia. done.
Qed.

Lemma land_low v : Z.land (v mod 128 + 128) 127 = v mod 128.
Proof.
  change 127 with (Z.ones 7). rewrite Z.land_ones by lia. change (2 ^ 7) with 128.
  rewrite <- Zplus_mod_idemp_r, Z.mod_same, Z.add_0_r, Z.mod_mod by lia. done.
Qed.

Lemma uvarint_put n : ∀ i x s v t,
  (n + i = 10)%nat → s = 7 * Z.of_nat i → 0 ≤ v < 2 ^ (64 - s) →
  uvarint_from i x s (put_uvarint n v +:+ t)
  = Some (Z.lor x (Z.shiftl v s), (i + String.length (put_uvarint n v))%nat).
Proof.
  induction n as [|n IH]; intros i x s v t Hi -> Hv.
  { exfalso. assert (i = 10)%nat as -> by lia. change (2 ^ (64 - 7 * Z.of_nat 10)) with 0 in Hv. lia. }
  cbn [put_uvarint]. destruct (Z.ltb_spec v 128) as [Hs|Hs].
  - change (String (byte_of v) "" +:+ t) with (String (byte_of v) t). cbn [uvarint_from String.length].
    destruct (Nat.eqb_spec i 10); [lia |]. cbv zeta. rewrite byte_of_value, Z.mod_small by lia.
    rewrite (proj2 (Z.ltb_lt v 128)) by done.
    destruct (Nat.eqb_spec i 9) as [->|].
    + change (2 ^ (64 - 7 * Z.of_nat 9)) with 2 in Hv. rewrite (proj2 (Z.ltb_ge 1 v)) by lia. cbn [andb].
      f_equal.
    + cbn [andb]. f_equal. f_equal. lia.
  - assert (i ≤ 8)%nat as Hi8.
    { destruct (Nat.eq_dec i 9%nat) as [->|]; [| lia]. change (2 ^ (64 - 7 * Z.of_nat 9)) with 2 in Hv. lia. }
    rewrite lor_with_high.
    change (String (byte_of (v mod 128 + 128)) (put_uvarint n (Z.shiftr v 7)) +:+ t)
      with (String (byte_of (v mod 128 + 128)) (put_uvarint n (Z.shiftr v 7) +:+ t)).
    cbn [uvarint_from String.length]. destruct (Nat.eqb_spec i 10) as [|_]; [lia |]. cbv zeta.
    pose proof (Z.mod_pos_bound v 128 ltac:(lia)). rewrite byte_of_value, (Z.mod_small (_ + 128)) by lia.
    rewrite (proj2 (Z.ltb_ge (v mod 128 + 128) 128)) by lia. rewrite land_low.
    rewrite IH; [| lia | lia |].
    2: { rewrite Z.shiftr_div_pow2 by lia. split; [apply Z.div_pos; lia |].
         apply Z.div_lt_upper_bound; [lia |]. rewrite <- Z.pow_add_r by lia.
         replace (7 + (64 - (7 * Z.of_nat i + 7))) with (64 - 7 * Z.of_nat i) by lia. lia. }
    f_equal. f_equal; [| lia].
    rewrite <- Z.lor_assoc. f_equal. rewrite Z.add_comm, <- (Z.shiftl_shiftl _ 7) by lia.
    rewrite <- Z.shiftl_lor. by rewrite low_high by lia.
Qed.

Lemma Uvarint_AppendUvarint v t :
  0 ≤ v < 2 ^ 64 → Uvarint (AppendUvarint v +:+ t) = Some (v, String.length (AppendUvarint v)).
Proof.
  intros Hv. unfold Uvarint, AppendUvarint. rewrite uvarint_put by (done || lia).
  by rewrite Z.shiftl_0_r, Z.lor_0_l.
Qed.

(** ** Positions *)

Section cursors.
Context `{Hashing}.

(** A position that can be written: an instant a millisecond counter holds, one
    name or two, none over the bound. *)
Definition writable (at_ : instant) (names : list string) : Prop :=
  - 2 ^ 63 ≤ UnixMilli at_ < 2 ^ 63 ∧ names ≠ [] ∧ (length names ≤ maxCursorNames)%nat
  ∧ Forall (λ name, slen name ≤ maxCursorName) names.

Definition written_names (names : list string) : string :=
  foldr (λ name rest, cursor_name name +:+ rest) "" names.

Lemma AppendUvarint_nonempty v : (1 ≤ String.length (AppendUvarint v))%nat.
Proof. unfold AppendUvarint. cbn [put_uvarint]. destruct (v <? 128); cbn; lia. Qed.

Lemma written_names_length names : (length names ≤ String.length (written_names names))%nat.
Proof.
  induction names as [|name names IH]; [cbn; lia |]. cbn [written_names foldr length].
  unfold cursor_name at 1. rewrite !string_length_app. pose proof (AppendUvarint_nonempty (slen name)).
  unfold written_names in IH. lia.
Qed.

Lemma readNames_written names : ∀ fuel kept,
  (length names ≤ fuel)%nat → (length kept + length names ≤ maxCursorNames)%nat → kept ++ names ≠ [] →
  Forall (λ name, slen name ≤ maxCursorName) names →
  readNames fuel kept (written_names names) = Some (kept ++ names).
Proof.
  induction names as [|name names IH]; intros fuel kept Hf Hc Hne Hb.
  { rewrite app_nil_r in *. cbn. destruct fuel; cbn; by rewrite bool_decide_false. }
  apply Forall_cons in Hb as [Hname Hb]. destruct fuel as [|fuel]; [cbn in Hf; lia |].
  change (written_names (name :: names)) with ((AppendUvarint (slen name) +:+ name) +:+ written_names names).
  rewrite string_app_assoc. set (rest := name +:+ written_names names).
  assert (0 ≤ slen name < 2 ^ 64) as Hsl by (unfold slen, maxCursorName in *; lia).
  pose proof (Uvarint_AppendUvarint (slen name) rest Hsl) as Hu.
  pose proof (string_drop_app (AppendUvarint (slen name)) rest _ eq_refl) as Hd.
  pose proof (string_length_app (AppendUvarint (slen name)) rest) as Hl.
  pose proof (AppendUvarint_nonempty (slen name)) as Hone.
  destruct (AppendUvarint (slen name) +:+ rest) as [|c w] eqn:Hw; [change (String.length "") with 0%nat in Hl; lia |].
  cbn [readNames]. rewrite Hu. rewrite (proj2 (Z.ltb_ge _ _)) by done. cbn [orb].
  rewrite (proj2 (Z.ltb_ge _ _)); cycle 1.
  { unfold slen at 2. rewrite Hl. subst rest. rewrite string_length_app. unfold slen. lia. }
  cbn [orb length] in *. rewrite (proj2 (Nat.eqb_neq _ _)) by lia. cbv zeta. rewrite Hd. subst rest.
  assert (String.length name = Z.to_nat (slen name)) as Hnat by (unfold slen; lia).
  rewrite string_take_app, string_drop_app by done.
  rewrite IH; [by rewrite <- app_assoc | lia | rewrite length_app; cbn; lia | by destruct kept | done].
Qed.

(** A token written for a position is read as it, to the millisecond. *)
Lemma decode_encoded key fingerprint at_ names :
  writable at_ names →
  decodeCursor key fingerprint (encodeCursor key fingerprint at_ names)
  = Some (mkAfter true (of_UnixMilli (UnixMilli at_)) names).
Proof.
  intros (Ht & Hne & Hc & Hb). unfold decodeCursor, encodeCursor. cbv zeta.
  change ("." +:+ ?s) with (String "." s). rewrite Cut_app by apply base64_free. cbn [negb].
  rewrite !base64_roundtrip. cbn [mbind option_bind]. rewrite bool_decide_true by done. cbn [negb].
  unfold cursor_payload. fold (written_names names). set (head := BigEndian_PutUint64 _).
  assert (String.length head = 8%nat) as Hh by apply BigEndian_length.
  rewrite (proj2 (Z.ltb_ge _ _)) by (unfold slen; rewrite string_length_app; lia).
  rewrite string_drop_app by done.
  rewrite readNames_written; [| | cbn; lia | done | done].
  2: { rewrite string_length_app. pose proof (written_names_length names). lia. }
  cbn [mbind option_bind app]. do 3 f_equal.
  subst head. by apply int64_put_read.
Qed.

(** A token a query takes was signed, with the plane's key, for that query's
    fingerprint and for the very position it is read as. *)
Lemma decoded_was_signed key fingerprint token after :
  decodeCursor key fingerprint token = Some after →
  ∃ written signature payload, token = written +:+ "." +:+ signature
    ∧ base64_decode written = Some payload
    ∧ base64_decode signature = Some (cursor_sign key fingerprint payload)
    ∧ after_set after = true ∧ 8 ≤ slen payload
    ∧ after_time after = of_UnixMilli (int64 (BigEndian_Uint64 payload))
    ∧ readNames (String.length payload) [] (string_drop 8 payload) = Some (after_names after).
Proof.
  unfold decodeCursor. destruct (Cut token ".") as [[written signature] found] eqn:Hcut.
  destruct found; [| done]. cbn [negb].
  destruct (base64_decode written) as [payload|] eqn:Hp; [| done]. cbn [mbind option_bind].
  destruct (base64_decode signature) as [presented|] eqn:Hs; [| done]. cbn [mbind option_bind].
  case_bool_decide as Hm; [| done]. cbn [negb]. destruct (Z.ltb_spec (slen payload) 8); [done |].
  destruct (readNames _ _ _) as [names|] eqn:Hn; [| done]. intros [= <-].
  apply Cut_spec in Hcut as [_ ->]. exists written, signature, payload. by subst presented.
Qed.

(** A token written under one fingerprint and taken under another is read as it was
    written, and its signature is the one of both. *)
Lemma decoded_same key f1 f2 at_ names after :
  writable at_ names → decodeCursor key f2 (encodeCursor key f1 at_ names) = Some after →
  after = mkAfter true (of_UnixMilli (UnixMilli at_)) names
  ∧ cursor_sign key f1 (cursor_payload at_ names) = cursor_sign key f2 (cursor_payload at_ names).
Proof.
  intros Hw Hd. pose proof (decode_encoded key f1 at_ names Hw) as H1. revert Hd H1.
  unfold decodeCursor, encodeCursor. cbv zeta.
  change ("." +:+ ?s) with (String "." s). rewrite Cut_app by apply base64_free. cbn [negb].
  rewrite !base64_roundtrip. cbn [mbind option_bind].
  case_bool_decide as Hm; [| done]. rewrite (bool_decide_true (_ = _)) by done. cbn [negb].
  intros -> [= ->]. done.
Qed.
End cursors.

(** ** Questions told apart *)

Lemma at_most_made n p s : matched (at_most n (One p)) s → made_of p s = true.
Proof.
  revert s. induction n as [|n IH]; intros s H; cbn [at_most] in H; inversion H; subst; [done | |].
  - match goal with H : matched Nothing _ |- _ => inversion H end. done.
  - match goal with H : matched (Then _ _) _ |- _ => apply matched_then in H as (x & y & -> & Hx & Hy) end.
    inversion Hx; subst. apply IH in Hy. rewrite made_of_app. cbn. rewrite Hy. by rewrite andb_true_r, andb_true_r.
Qed.

Definition identifier_char (c : ascii) : bool := alnum c || among ["."; "_"; ":"; "-"]%char c.

Lemma ValidIdentifier_made s : ValidIdentifier s = true → made_of identifier_char s = true.
Proof.
  unfold ValidIdentifier, identifierPattern. intros H%MatchString_spec.
  apply matched_then in H as (x & y & -> & Hx & Hy). inversion Hx as [|? c Hc| | | | |]; subst.
  apply at_most_made in Hy. rewrite made_of_app. apply andb_true_intro. split; [| exact Hy].
  cbn [made_of]. unfold identifier_char. by rewrite Hc.
Qed.

Lemma concat_join sep parts : String.concat (String sep "") parts = join_at parts sep.
Proof.
  induction parts as [|p [|q ps] IH]; [done | done |].
  change (String.concat (String sep "") (p :: q :: ps)) with (p +:+ String sep (String.concat (String sep "") (q :: ps))).
  by rewrite IH.
Qed.

Lemma pretty_free c (z : Z) : digit c = false → c ≠ "-"%char → free_of c (pretty z).
Proof.
  intros Hd Hm. assert (∀ n : N, free_of c (pretty n)) as HN.
  { intros n. eapply free_of_made; [exact Hd | apply pretty_N_digits]. }
  destruct z as [|p|p]; [by apply (HN 0%N) | by apply (HN (N.pos p)) |].
  change (pretty (Zneg p)) with (String "-" (pretty (N.pos p))). split; [done | apply HN].
Qed.

Definition newline : ascii := ascii_of_N 10.

Lemma free_of_join c sep parts : c ≠ sep → Forall (free_of c) parts → free_of c (join_at parts sep).
Proof.
  intros Hc. induction 1 as [|p [|q ps] Hp _ IH]; [done | done |].
  change (join_at (p :: q :: ps) sep) with (p +:+ String sep (join_at (q :: ps) sep)).
  apply free_of_app; [done |]. by split.
Qed.

(** A scope that can be written: some tenants, each a valid identifier. *)
Definition named_tenants (scope : list string) : Prop :=
  scope ≠ [] ∧ Forall (λ t, ValidIdentifier t = true) scope.

Lemma scope_written scope :
  named_tenants scope → free_of newline (String.concat "," scope) ∧ Split (String.concat "," scope) "," = scope.
Proof.
  intros [Hne Hv]. rewrite concat_join. split.
  - apply free_of_join; [done |]. eapply Forall_impl; [exact Hv |]. intros t Ht%ValidIdentifier_made.
    by apply (free_of_made _ identifier_char).
  - apply Split_join; [done |]. eapply Forall_impl; [exact Hv |]. intros t Ht%ValidIdentifier_made.
    by apply (free_of_made _ identifier_char).
Qed.

Section fingerprints.
Context `{Contract, HuntFormats, Formats, Hashing} (detection_message : string).

Lemma known_free dataset : Known_dataset detection_message dataset = true → free_of newline dataset.
Proof.
  unfold Known_dataset, vocabularies. case_bool_decide as He; [subst; vm_compute; intuition congruence |].
  case_bool_decide as Hd; [subst; vm_compute; intuition congruence | done].
Qed.

Lemma fingerprint_text_inj d1 s1 w1 e1 l1 d2 s2 w2 e2 l2 :
  free_of newline d1 → free_of newline d2 → named_tenants s1 → named_tenants s2 →
  fingerprint_text d1 s1 w1 e1 l1 = fingerprint_text d2 s2 w2 e2 l2 →
  d1 = d2 ∧ s1 = s2 ∧ UnixMilli (tr_start w1) = UnixMilli (tr_start w2)
  ∧ UnixMilli (tr_end w1) = UnixMilli (tr_end w2) ∧ l1 = l2
  ∧ from_option render "" e1 = from_option render "" e2.
Proof.
  intros Hd1 Hd2 Hs1 Hs2. destruct (scope_written _ Hs1) as [Hf1 Hj1], (scope_written _ Hs2) as [Hf2 Hj2].
  unfold fingerprint_text. cbv zeta. fold newline.
  change (String newline "" +:+ ?t) with (String newline t). intros Heq.
  assert (∀ z : Z, free_of newline (pretty z)) as Hp by (intros z; by apply pretty_free).
  apply split_at in Heq as [-> Heq]; [| done | done].
  apply split_at in Heq as [Hscope Heq]; [| done | done].
  apply split_at in Heq as [Hstart Heq]; [| done | done].
  apply split_at in Heq as [Hend Heq]; [| done | done].
  apply split_at in Heq as [Hlimit Heq]; [| done | done].
  apply (inj pretty) in Hstart, Hend, Hlimit. split_and!; try done. by rewrite <- Hj1, <- Hj2, Hscope.
Qed.

(** Different texts the hash or the code made the same. *)
Definition collides (key : string) : Prop :=
  (∃ m1 m2, m1 ≠ m2 ∧ HMAC key m1 = HMAC key m2) ∨ (∃ t1 t2, t1 ≠ t2 ∧ Sum256 t1 = Sum256 t2).

(** A cursor is spent on the question it came from: one that a query gave and
    another query took, with the same key, names the same record, and the two
    asked the same of the same tenants, window and page, or a hash collided. *)
Theorem cursors_belong_to_their_question c d1 s1 asked1 q1 d2 s2 asked2 q2 at_ names :
  named_tenants s1 → named_tenants s2 → writable at_ names →
  CompileQuery detection_message c d1 s1 asked1 = Ok q1 → CompileQuery detection_message c d2 s2 asked2 = Ok q2 →
  aq_cursor asked2 = NextCursor c q1 at_ names →
  q_after q2 = mkAfter true (of_UnixMilli (UnixMilli at_)) names
  ∧ (d1 = d2 ∧ s1 = s2 ∧ UnixMilli (tr_start (q_window q1)) = UnixMilli (tr_start (q_window q2))
     ∧ UnixMilli (tr_end (q_window q1)) = UnixMilli (tr_end (q_window q2)) ∧ q_limit q1 = q_limit q2
     ∧ from_option render "" (q_where q1) = from_option render "" (q_where q2)
     ∨ collides (hc_key c)).
Proof.
  intros Hs1 Hs2 Hw (_ & Hk1 & w1 & e1 & l1 & ? & ? & -> & _)%CompileQuery_ok
    (_ & Hk2 & w2 & e2 & l2 & ? & after & -> & _ & _ & _ & Hafter)%CompileQuery_ok Hcur.
  rewrite Hcur in Hafter. unfold NextCursor in Hafter.
  cbn [q_fingerprint q_after q_window q_limit q_where] in *.
  set (f1 := fingerprintOf d1 s1 w1 e1 l1) in *. set (f2 := fingerprintOf d2 s2 w2 e2 l2) in *.
  destruct Hafter as [[Hno _]|[_ Hdec]].
  { exfalso. unfold encodeCursor in Hno. cbv zeta in Hno. apply string_app_nil in Hno as [_ Hno]. done. }
  destruct (decoded_same _ _ _ _ _ _ Hw Hdec) as [-> Hmac]. split; [done |].
  destruct (decide (f1 = f2)) as [Hf|Hf].
  - destruct (decide (fingerprint_text d1 s1 w1 e1 l1 = fingerprint_text d2 s2 w2 e2 l2)) as [Ht|Ht].
    + left. apply fingerprint_text_inj in Ht; [done | by eapply known_free | by eapply known_free | done | done].
    + right. right. eauto.
  - right. left. eexists _, _. split; [| exact Hmac].
    intros Heq. apply string_app_inj in Heq as [_ Heq]; [| done]. apply string_app_inj in Heq as [Heq _]; [done |].
    unfold f1, f2, fingerprintOf. by rewrite !Sum256_size.
Qed.
End fingerprints.
