(* ===== verification/HuntStatement.v ===== *)
(** * Statements carry no literal

    What clickhouse/hunt.go writes for a compiled query is fixed by the shape of
    the question; whatever a caller wrote reaches the store as an argument. *)

From Stdlib Require Import ZArith Lia Ascii Floats.SpecFloat.
From stdpp Require Import base tactics option gmap strings pretty sorting numbers list.
From S2P Require Import Prelude Text Scan Hex Bytes Rule Contract Compile Agent Authz Session Hunt HuntStore HuntProps.

(** ** Question marks *)

Fixpoint marks (s : string) : nat :=
  match s with
  | EmptyString => O
  | String c s => ((if bool_decide (c = "?"%char) then 1 else 0) + marks s)%nat
  end.

(** The marks of what is written out in full. *)
Ltac count_marks := repeat match goal with |- context [marks (String ?c ?s)] =>
  let n := eval vm_compute in (marks (String c s)) in change (marks (String c s)) with n end.

Lemma marks_app s t : marks (s +:+ t) = (marks s + marks t)%nat.
Proof.
  induction s as [|c s IH]; [done |]. change (String c s +:+ t) with (String c (s +:+ t)).
  cbn [marks]. rewrite IH. lia.
Qed.

Lemma marks_concat sep parts : marks sep = O → marks (String.concat sep parts) = sum_list_with marks parts.
Proof.
  intros Hs. induction parts as [|p [|q parts] IH]; [done | change (marks p = (marks p + 0)%nat); lia |].
  change (String.concat sep (p :: q :: parts)) with (p +:+ sep +:+ String.concat sep (q :: parts)).
  rewrite !marks_app, Hs, IH. change (sum_list_with marks (p :: q :: parts)) with (marks p + sum_list_with marks (q :: parts))%nat. lia.
Qed.

Lemma sum_replicate n s : sum_list_with marks (replicate n s) = (n * marks s)%nat.
Proof.
  induction n as [|n IH]; [done |].
  change (sum_list_with marks (replicate (S n) s)) with (marks s + sum_list_with marks (replicate n s))%nat. lia.
Qed.

Lemma marks_placeholders n : n ≠ O → marks (placeholders n) = n.
Proof.
  intros Hn. unfold placeholders. destruct (Nat.eqb_spec n 0); [done |].
  rewrite marks_concat, sum_replicate by done. change (marks "?") with 1%nat. lia.
Qed.

Lemma columns_unmarked dataset : Forall (λ e, marks e.2 = O) (huntColumns dataset).
Proof. unfold huntColumns. repeat case_bool_decide; [apply (bool_decide_unpack _); vm_compute; exact I .. | constructor]. Qed.

Lemma marks_digits s : made_of digit s = true → marks s = O.
Proof.
  induction s as [|c s IH]; [done |]. cbn [made_of marks]. intros [Hc Hs]%andb_prop. rewrite IH by done.
  rewrite bool_decide_false; [done |]. by intros ->.
Qed.

Lemma marks_pretty z : 0 ≤ z → marks (pretty z) = O.
Proof. intros Hz. destruct z as [|p|p]; [done | | lia]. apply marks_digits, (pretty_N_digits (N.pos p)). Qed.

Section statements.
Context `{Contract, HuntFormats, Formats, Hashing} (detection_message : string).

(** The same questions with other literals in them. *)
Inductive same_shape : HuntExpression → HuntExpression → Prop :=
| shape_pred field operator values values' :
    length values = length values' → same_shape (HPred field operator values) (HPred field operator values')
| shape_all ts ts' : Forall2 same_shape ts ts' → same_shape (HAll ts) (HAll ts')
| shape_any ts ts' : Forall2 same_shape ts ts' → same_shape (HAny ts) (HAny ts')
| shape_not t t' : same_shape t t' → same_shape (HNot t) (HNot t').

(** The conditions of a group, in order. *)
Fixpoint conditions_of (dataset : Dataset) (terms : list HuntExpression)
    : result StoreRefusal (list string * list Argument) :=
  match terms with
  | [] => Ok ([], [])
  | term :: terms =>
      match condition detection_message dataset term with
      | Err e => Err e
      | Ok (one, arguments) =>
          match conditions_of dataset terms with
          | Err e => Err e
          | Ok (written, values) => Ok (one :: written, arguments ++ values)
          end
      end
  end.

Lemma conditions_inner dataset terms :
  (fix conditions (terms : list HuntExpression) : result StoreRefusal (list string * list Argument) :=
    match terms with
    | [] => Ok ([], [])
    | term :: terms =>
        match condition detection_message dataset term with
        | Err e => Err e
        | Ok (one, arguments) =>
            match conditions terms with
            | Err e => Err e
            | Ok (written, values) => Ok (one :: written, arguments ++ values)
            end
        end
    end) terms = conditions_of dataset terms.
Proof. induction terms as [|t ts IH]; [done |]. cbn [conditions_of]. by rewrite IH. Qed.

(** Written alike, whatever is bound, or refused alike. *)
Definition said_alike {A} (one other : result StoreRefusal (A * list Argument)) : Prop :=
  match one with
  | Ok (w, _) => ∃ arguments, other = Ok (w, arguments)
  | Err e => other = Err e
  end.

Lemma store_predicate_alike dataset field operator values values' :
  length values = length values' →
  said_alike (store_predicate detection_message dataset field operator values)
    (store_predicate detection_message dataset field operator values').
Proof.
  intros Hl. unfold store_predicate, said_alike, carries. rewrite Hl.
  destruct (List.find _ _) as [[f column]|]; [| done]. cbv zeta.
  case_bool_decide.
  - destruct (present _ _ _) as [w a]. by exists a.
  - destruct (hh_repeated _); [by eexists |]. destruct operator; try done; by eexists.
Qed.

Lemma condition_alike dataset e : ∀ e', same_shape e e' →
  said_alike (condition detection_message dataset e) (condition detection_message dataset e').
Proof.
  assert (∀ ts ts', Forall2 same_shape ts ts' →
    Forall (λ t, ∀ t', same_shape t t' → said_alike (condition detection_message dataset t)
                                            (condition detection_message dataset t')) ts →
    said_alike (conditions_of dataset ts) (conditions_of dataset ts')) as Hgroup.
  { induction 1 as [|t t' ts ts' Ht Hts IH]; intros Hall; [by exists [] |].
    apply Forall_cons in Hall as [Hone Hall]. specialize (Hone _ Ht). specialize (IH Hall).
    cbn [conditions_of]. unfold said_alike in *.
    destruct (condition detection_message dataset t) as [[w a]|]; [| by rewrite Hone].
    destruct Hone as [a' ->]. destruct (conditions_of dataset ts) as [[ws vs]|]; [| by rewrite IH].
    destruct IH as [vs' ->]. by eexists. }
  induction e as [f o vs|ts IH|ts IH|t IH] using HuntExpression_ind'; intros e' Hs; inversion Hs; subst;
    cbn [condition].
  - by apply store_predicate_alike.
  - rewrite !conditions_inner. match goal with H : Forall2 _ _ _ |- _ => specialize (Hgroup _ _ H IH) end.
    unfold said_alike in *. destruct (conditions_of dataset ts) as [[ws vs]|]; [| by rewrite Hgroup].
    destruct Hgroup as [vs' ->]. by eexists.
  - rewrite !conditions_inner. match goal with H : Forall2 _ _ _ |- _ => specialize (Hgroup _ _ H IH) end.
    unfold said_alike in *. destruct (conditions_of dataset ts) as [[ws vs]|]; [| by rewrite Hgroup].
    destruct Hgroup as [vs' ->]. by eexists.
  - match goal with H : same_shape _ _ |- _ => specialize (IH _ H) end. unfold said_alike in *.
    destruct (condition detection_message dataset t) as [[w a]|]; [| by rewrite IH].
    destruct IH as [a' ->]. by eexists.
Qed.

(** Two queries that differ at most in what their literals, tenants, window and
    position say. *)
Definition asks_alike (q q' : Query) : Prop :=
  q_dataset q = q_dataset q' ∧ q_limit q = q_limit q' ∧ length (q_scope q) = length (q_scope q')
  ∧ after_set (q_after q) = after_set (q_after q')
  ∧ length (after_names (q_after q)) = length (after_names (q_after q'))
  ∧ option_Forall2 same_shape (q_where q) (q_where q').

Lemma compile_statement_alike q q' :
  asks_alike q q' →
  said_alike (compile_statement detection_message q) (compile_statement detection_message q').
Proof.
  intros (Hd & Hl & Hs & Ha & Hn & Hw). unfold compile_statement. rewrite <- Hd, <- Hl, <- Hs. cbv zeta.
  set (t := huntTables (q_dataset q)).
  assert (said_alike (resumed t (q_after q)) (resumed t (q_after q'))) as Hr.
  { unfold resumed. rewrite <- Ha, <- Hn. destruct (after_set _); [| by eexists].
    destruct (_ =? _)%nat; by try eexists. }
  assert (said_alike (asked_for detection_message (q_dataset q) (q_where q))
            (asked_for detection_message (q_dataset q) (q_where q'))) as Hq.
  { destruct Hw as [e e' He|]; [| by eexists]. cbn [asked_for]. pose proof (condition_alike (q_dataset q) e e' He) as Hc.
    unfold said_alike in *. destruct (condition _ _ e) as [[w a]|]; [| by rewrite Hc].
    destruct Hc as [a' ->]. by eexists. }
  unfold said_alike in *. destruct (resumed t (q_after q)) as [[w a]|]; [| by rewrite Hr].
  destruct Hr as [a' ->]. destruct (asked_for _ _ (q_where q)) as [[w2 a2]|]; [| by rewrite Hq].
  destruct Hq as [a2' ->]. by eexists.
Qed.

(** ** One argument for each mark *)

Definition balanced (one : result StoreRefusal (string * list Argument)) : Prop :=
  ∀ w a, one = Ok (w, a) → marks w = length a.

Lemma column_marks dataset field f column :
  List.find (λ e, bool_decide (e.1 = field)) (huntColumns dataset) = Some (f, column) → marks column = O.
Proof.
  intros Hf. apply List.find_some in Hf as [Hin _]. pose proof (columns_unmarked dataset) as Hall. rewrite Forall_forall in Hall.
  apply list_elem_of_In in Hin. by apply Hall in Hin.
Qed.

Lemma placeholder_marks kind : marks (placeholder kind) = 1%nat.
Proof. unfold placeholder. by case_bool_decide. Qed.

Lemma bind_values_length values : length (bind_values values) = length values.
Proof. apply length_fmap. Qed.

Lemma askable_counted dataset field operator values :
  askable detection_message dataset (HPred field operator values) →
  ∃ entry, hunt_lookup detection_message dataset field = Some entry
    ∧ (hunt_takes operator).1 ≤ len values ≤ (hunt_takes operator).2.
Proof. inversion 1; subst; eauto. Qed.

Lemma store_predicate_balanced dataset field operator values :
  askable detection_message dataset (HPred field operator values) →
  balanced (store_predicate detection_message dataset field operator values).
Proof.
  intros Hask w a. destruct (askable_counted _ _ _ _ Hask) as (entry & Hl & Hcount).
  unfold store_predicate. destruct (List.find _ _) as [[f column]|] eqn:Hc; [| done]. cbv zeta.
  apply column_marks in Hc. rewrite Hl. cbn [default id].
  case_bool_decide as Hpres.
  { intros [= Heq]. unfold present in Heq. destruct (hh_repeated entry); [| destruct (hh_kind entry)];
      injection Heq as <- <-; by rewrite !marks_app, ?Hc. }
  destruct (hh_repeated entry).
  { unfold carries. intros Heq. injection Heq as <- <-. rewrite !marks_app, marks_concat, sum_replicate, !marks_app, Hc, bind_values_length by done.
    count_marks. lia. }
  unfold hunt_takes in Hcount.
  destruct operator; try done; intros [= <- <-]; cbn [fst snd] in Hcount; unfold len in Hcount;
    rewrite !marks_app, ?Hc, ?placeholder_marks, bind_values_length; try (rewrite marks_placeholders by lia); count_marks; lia.
Qed.

Lemma conditions_balanced dataset ts : ∀ ws vs,
  Forall (λ t, balanced (condition detection_message dataset t)) ts →
  conditions_of dataset ts = Ok (ws, vs) → sum_list_with marks ws = length vs.
Proof.
  induction ts as [|t ts IH]; intros ws vs Hall; cbn [conditions_of]; [by intros [= <- <-] |].
  apply Forall_cons in Hall as [Hone Hall].
  destruct (condition detection_message dataset t) as [[w a]|] eqn:Hc; [| done].
  destruct (conditions_of dataset ts) as [[ws' vs']|]; [| done]. intros [= <- <-].
  change (sum_list_with marks (w :: ws')) with (marks w + sum_list_with marks ws')%nat.
  rewrite length_app. by rewrite (Hone _ _ eq_refl), (IH ws' vs' Hall eq_refl).
Qed.

Lemma condition_balanced dataset e :
  askable detection_message dataset e → balanced (condition detection_message dataset e).
Proof.
  assert (∀ ts sep, marks sep = O →
    Forall (λ t, askable detection_message dataset t → balanced (condition detection_message dataset t)) ts →
    Forall (askable detection_message dataset) ts →
    balanced match conditions_of dataset ts with
             | Err e => Err e
             | Ok (written, values) => Ok ("(" +:+ String.concat sep written +:+ ")", values)
             end) as Hgroup.
  { intros ts sep Hsep Hall Hask w a.
    destruct (conditions_of dataset ts) as [[ws vs]|] eqn:Hc; [| done]. intros Heq. injection Heq as <- <-.
    apply conditions_balanced in Hc; [| rewrite Forall_forall in *; auto].
    rewrite !marks_app, marks_concat by done. count_marks. lia. }
  induction e as [f o vs|ts IH|ts IH|t IH] using HuntExpression_ind'; intros Hask; cbn [condition];
    rewrite ?conditions_inner.
  - by apply store_predicate_balanced.
  - inversion Hask; subst. by apply Hgroup.
  - inversion Hask; subst. by apply Hgroup.
  - inversion Hask; subst. intros w a. destruct (condition detection_message dataset t) as [[w' a']|]; [| done].
    intros Heq. injection Heq as <- <-. rewrite marks_app. count_marks. by apply IH.
Qed.

Lemma table_unmarked dataset :
  marks (ht_table (huntTables dataset)) = O ∧ marks (ht_instant (huntTables dataset)) = O
  ∧ Forall (λ c, marks c = O) (ht_columns (huntTables dataset))
  ∧ Forall (λ c, marks c = O) (ht_names (huntTables dataset)).
Proof.
  unfold huntTables. repeat case_bool_decide; split_and!;
    first [done | apply (bool_decide_unpack _); vm_compute; exact I].
Qed.

Lemma unmarked_sum l : Forall (λ c, marks c = O) l → sum_list_with marks l = O.
Proof. induction 1 as [|c l Hc _ IH]; [done |]. cbn. rewrite Hc. exact IH. Qed.

Lemma resumed_balanced dataset after w a :
  resumed (huntTables dataset) after = Ok (w, a) → sum_list_with marks w = length a.
Proof.
  destruct (table_unmarked dataset) as (_ & Hi & _ & Hn). unfold resumed.
  destruct (after_set after); [| by intros [= <- <-]]. cbn [negb].
  destruct (Nat.eqb_spec (length (after_names after)) (length (ht_names (huntTables dataset)))) as [Hl|]; [| done].
  cbn [negb]. intros Heq. injection Heq as <- <-. cbn [sum_list_with length]. rewrite length_fmap, Hl.
  rewrite !marks_app, !marks_concat, sum_replicate, unmarked_sum, Hi by done. count_marks.
  change (marks instantPlaceholder) with 1%nat. lia.
Qed.

Lemma compile_statement_balanced q w a :
  q_scope q ≠ [] → 0 ≤ q_limit q → (∀ e, q_where q = Some e → askable detection_message (q_dataset q) e) →
  compile_statement detection_message q = Ok (w, a) → marks w = length a.
Proof.
  intros Hs Hl Hask. destruct (table_unmarked (q_dataset q)) as (Ht & Hi & Hc & Hn).
  unfold compile_statement. cbv zeta.
  destruct (resumed _ _) as [[position pv]|] eqn:Hr; [| done]. apply resumed_balanced in Hr.
  destruct (asked_for _ _ _) as [[asked av]|] eqn:Hq; [| done].
  assert (sum_list_with marks asked = length av) as Ha.
  { destruct (q_where q) as [e|]; [| by injection Hq as <- <-]. cbn [asked_for] in Hq.
    pose proof (condition_balanced (q_dataset q) e (Hask _ eq_refl)) as Hb.
    destruct (condition _ _ e) as [[w' a']|]; [| done]. injection Hq as <- <-. cbn. rewrite (Hb _ _ eq_refl). lia. }
  assert (sum_list_with marks ((λ name, name +:+ " DESC") <$> ht_names (huntTables (q_dataset q))) = O) as Hd.
  { apply unmarked_sum, Forall_fmap. eapply Forall_impl; [exact Hn |]. intros name Hname. cbn. by rewrite marks_app, Hname. }
  remember (_ :: _ :: position ++ asked) as conditions eqn:Hconds. remember (_ :: fmap _ _) as order eqn:Horder.
  intros Heq. injection Heq as <- <-.
  rewrite !marks_app, !marks_concat, !length_app, length_fmap, marks_pretty, (unmarked_sum (ht_columns _)), Ht by done.
  subst. cbn [sum_list_with length]. rewrite Hd, sum_list_with_app, Hr, Ha, !marks_app, Hi, marks_placeholders, length_app
    by (by destruct (q_scope q)).
  change (marks instantPlaceholder) with 1%nat. count_marks. lia.
Qed.

(** Whatever a caller wrote, the store is handed a statement fixed by the shape of
    the question: two queries that ask alike are written alike, whatever their
    literals, tenants, windows and positions say, and a compiled query's statement
    has a mark for each of its arguments and for nothing else. *)
Theorem statements_carry_no_literal c limits key dataset scope asked q :
  NewCompiler limits key = Some c → 0 ≤ aq_limit asked →
  CompileQuery detection_message c dataset scope asked = Ok q →
  (∀ q', asks_alike q q' →
    said_alike (compile_statement detection_message q) (compile_statement detection_message q'))
  ∧ ∀ statement arguments,
      compile_statement detection_message q = Ok (statement, arguments) → marks statement = length arguments.
Proof.
  intros Hc Hl Hq. split; [apply compile_statement_alike |].
  destruct (query_bounds _ _ _ _ _ _ _ _ Hc Hl Hq) as (Hd & Hs & Hne & _ & _ & Hp & Hw).
  intros statement arguments. apply compile_statement_balanced; [by rewrite Hs | lia |].
  intros e He. rewrite Hd. by apply Hw.
Qed.
End statements.
