(* ===== verification/Limiter.v ===== *)
(** * The limiter that holds one caller to a share of a process

    platform/ratelimit/limiter.go: buckets kept by key in a map of elements of a
    list ordered by use, newest first, the oldest given up past a capacity. The
    token bucket is golang.org/x/time/rate's, a parameter ([RateLimiter]); an
    element of the list is a pointer, and stays what it is after it is removed. *)

From Stdlib Require Import ZArith Lia.
From stdpp Require Import base tactics option gmap strings numbers list sets.
From S2P Require Import Prelude.

Class RateLimiter := {
  Limit : Type;
  Bucket : Type;
  rate_NewLimiter : Limit → Z → Bucket;
  rate_Allow : Bucket → instant → Bucket * bool;
}.

Section limiter.
Context {rate : RateLimiter}.

(** An element of the list, by its address. *)
Record Limiter := mkLimiter {
  l_perSecond : Limit;
  l_burst : Z;
  l_capacity : Z;
  l_order : list nat;
  l_buckets : gmap string nat;
  l_elements : gmap nat (string * Bucket);
  l_next : nat;
}.

Definition NewLimiter (perSecond : Limit) (burst capacity : Z) : Limiter :=
  mkLimiter perSecond burst capacity [] ∅ ∅ 0.

Definition on_elements (f : gmap nat (string * Bucket) → gmap nat (string * Bucket)) (l : Limiter) : Limiter :=
  mkLimiter (l_perSecond l) (l_burst l) (l_capacity l) (l_order l) (l_buckets l) (f (l_elements l)) (l_next l).

(** One turn removes the last element; the length of the order bounds the turns. *)
Fixpoint evictLocked (turns : nat) (l : Limiter) : Limiter :=
  match turns with
  | O => l
  | S turns =>
      if len (l_order l) <=? l_capacity l then l
      else match last (l_order l) with
      | None => l
      | Some oldest =>
          evictLocked turns
            (mkLimiter (l_perSecond l) (l_burst l) (l_capacity l)
              (take (length (l_order l) - 1) (l_order l))
              (match l_elements l !! oldest with Some (key, _) => delete key (l_buckets l) | None => l_buckets l end)
              (l_elements l) (l_next l))
      end
  end.

Definition MoveToFront (element : nat) (order : list nat) : list nat :=
  element :: filter (λ e, e ≠ element) order.

Definition limiter_Allow (key : string) (now : instant) (l : Limiter) : Limiter * bool :=
  let '(l, element) :=
    match l_buckets l !! key with
    | Some element =>
        (mkLimiter (l_perSecond l) (l_burst l) (l_capacity l) (MoveToFront element (l_order l))
          (l_buckets l) (l_elements l) (l_next l), element)
    | None =>
        let element := l_next l in
        let pushed := mkLimiter (l_perSecond l) (l_burst l) (l_capacity l) (element :: l_order l)
          (<[key := element]> (l_buckets l))
          (<[element := (key, rate_NewLimiter (l_perSecond l) (l_burst l))]> (l_elements l)) (S (l_next l)) in
        (evictLocked (length (l_order pushed)) pushed, element)
    end in
  match l_elements l !! element with
  | Some (named, bucket) =>
      let '(bucket, allowed) := rate_Allow bucket now in
      (on_elements <[element := (named, bucket)]> l, allowed)
  | None => (l, false)
  end.

(** A process that holds no limiter admits every caller. *)
Definition Allow (key : string) (now : instant) (l : option Limiter) : option Limiter * bool :=
  match l with
  | None => (None, true)
  | Some l => let '(l, allowed) := limiter_Allow key now l in (Some l, allowed)
  end.

Definition limiter_Tracked (l : option Limiter) : Z :=
  match l with None => 0 | Some l => Z.of_nat (size (l_buckets l)) end.

(** ** What it promises: buckets by key, by last use *)

Abbreviation lru := (list (string * Bucket)) (only parsing).

Definition find_bucket (key : string) (l : lru) : option Bucket :=
  snd <$> List.find (λ e, bool_decide (e.1 = key)) l.

Definition others (key : string) (l : lru) : lru := filter (λ e, e.1 ≠ key) l.

(** A known caller's bucket moves to the front; a new caller gets a new bucket in
    front, and the last are given up past the capacity. *)
Definition lru_Allow (perSecond : Limit) (burst capacity : Z) (key : string) (now : instant) (l : lru)
    : lru * bool :=
  match find_bucket key l with
  | Some bucket => let '(bucket, allowed) := rate_Allow bucket now in ((key, bucket) :: others key l, allowed)
  | None =>
      let '(bucket, allowed) := rate_Allow (rate_NewLimiter perSecond burst) now in
      (take (Z.to_nat capacity) ((key, bucket) :: l), allowed)
  end.

(** The buckets a limiter's list and map hold, whatever its capacity. *)
Record buckets_hold (l : Limiter) (spec : lru) : Prop := {
  hold_order : Forall2 (λ e kb, l_elements l !! e = Some kb) (l_order l) spec;
  hold_nodup : NoDup (l_order l);
  hold_keys : NoDup spec.*1;
  hold_buckets key e : l_buckets l !! key = Some e ↔
    e ∈ l_order l ∧ ∃ bucket, l_elements l !! e = Some (key, bucket);
  hold_fresh e kb : l_elements l !! e = Some kb → (e < l_next l)%nat;
}.

Definition represents (l : Limiter) (spec : lru) : Prop :=
  buckets_hold l spec ∧ len spec ≤ Z.max 0 (l_capacity l).

(** ** The list and the map agree *)

Lemma hold_lookup l spec e :
  buckets_hold l spec → e ∈ l_order l → ∃ kb, kb ∈ spec ∧ l_elements l !! e = Some kb.
Proof.
  intros H [i Hi]%list_elem_of_lookup.
  destruct (Forall2_lookup_l _ _ _ _ _ (hold_order _ _ H) Hi) as (kb & Hkb & He).
  exists kb. split; [by eapply list_elem_of_lookup_2 | done].
Qed.

Lemma hold_element l spec kb :
  buckets_hold l spec → kb ∈ spec → ∃ e, e ∈ l_order l ∧ l_elements l !! e = Some kb.
Proof.
  intros H [i Hi]%list_elem_of_lookup.
  destruct (Forall2_lookup_r _ _ _ _ _ (hold_order _ _ H) Hi) as (e & He & Hkb).
  exists e. split; [by eapply list_elem_of_lookup_2 | done].
Qed.

Lemma keys_unique (spec : lru) key b1 b2 :
  NoDup spec.*1 → (key, b1) ∈ spec → (key, b2) ∈ spec → b1 = b2.
Proof.
  induction spec as [|[k b] spec IH]; [by intros _ ?%not_elem_of_nil |].
  cbn. rewrite NoDup_cons, !elem_of_cons. intros [Hk Hnd] [[= -> ->]|H1] [[= ->]|H2]; [done | | |by apply IH].
  - exfalso. apply Hk, list_elem_of_fmap. by exists (k, b2).
  - exfalso. apply Hk, list_elem_of_fmap. by exists (k, b1).
Qed.

(** An element of the order is the bucket of one key only. *)
Lemma hold_unique l spec e1 e2 key b1 b2 :
  buckets_hold l spec → e1 ∈ l_order l → e2 ∈ l_order l →
  l_elements l !! e1 = Some (key, b1) → l_elements l !! e2 = Some (key, b2) → e1 = e2.
Proof.
  intros H H1 H2 He1 He2.
  assert (l_buckets l !! key = Some e1) as K1 by (apply (hold_buckets _ _ H); eauto).
  assert (l_buckets l !! key = Some e2) as K2 by (apply (hold_buckets _ _ H); eauto). congruence.
Qed.

Lemma find_bucket_spec (spec : lru) key bucket :
  NoDup spec.*1 → find_bucket key spec = Some bucket ↔ (key, bucket) ∈ spec.
Proof.
  intros Hnd. unfold find_bucket. split.
  - destruct (List.find _ spec) as [[k b]|] eqn:Hf; [| done]. cbn. intros [= ->].
    apply find_some in Hf as [Hin Hk]. to_prop. cbn in Hk. subst. by apply list_elem_of_In.
  - intros Hin. destruct (List.find _ spec) as [[k b]|] eqn:Hf.
    + apply find_some in Hf as [Hin' Hk]. to_prop. cbn in *. subst. f_equal.
      apply list_elem_of_In in Hin'. by eapply keys_unique.
    + eapply find_none in Hf; [| by apply list_elem_of_In]. by apply bool_decide_eq_false in Hf.
Qed.

Lemma find_bucket_none (spec : lru) key : find_bucket key spec = None ↔ key ∉ spec.*1.
Proof.
  unfold find_bucket. rewrite fmap_None. split.
  - intros Hf ([k b] & -> & Hin)%list_elem_of_fmap. eapply find_none in Hf; [| by apply list_elem_of_In].
    by apply bool_decide_eq_false in Hf.
  - intros Hn. destruct (List.find _ spec) as [[k b]|] eqn:Hf; [| done]. exfalso.
    apply find_some in Hf as [Hin Hk]. to_prop. apply Hn, list_elem_of_fmap. exists (k, b).
    split; [done | by apply list_elem_of_In].
Qed.

Lemma Forall2_filter_iff {A B} (R : A → B → Prop) (P : A → Prop) (Q : B → Prop)
    `{∀ x, Decision (P x), ∀ y, Decision (Q y)} l k :
  Forall2 (λ x y, (P x ↔ Q y) ∧ (P x → R x y)) l k → Forall2 R (filter P l) (filter Q k).
Proof.
  induction 1 as [|x y l k [Hpq Hr] _ IH]; [constructor |].
  destruct (decide (P x)) as [Hp|Hp].
  - rewrite !filter_cons_True by tauto. constructor; [by apply Hr | done].
  - rewrite !filter_cons_False by tauto. done.
Qed.

Lemma Forall2_and_in {A B} (R : A → B → Prop) l k :
  Forall2 R l k → Forall2 (λ x y, x ∈ l ∧ R x y) l k.
Proof.
  intros H. apply Forall2_same_length_lookup. split; [by eapply Forall2_length |].
  intros i x y Hx Hy. split; [by eapply list_elem_of_lookup_2 | by eapply Forall2_lookup_lr].
Qed.

(** A bucket spends from itself alone. *)
Lemma holds_spend l spec e key bucket bucket' :
  buckets_hold l spec → e ∈ l_order l → l_elements l !! e = Some (key, bucket) →
  buckets_hold (on_elements <[e := (key, bucket')]>
    (mkLimiter (l_perSecond l) (l_burst l) (l_capacity l) (MoveToFront e (l_order l))
      (l_buckets l) (l_elements l) (l_next l))) ((key, bucket') :: others key spec).
Proof.
  intros H He Hk. unfold on_elements, MoveToFront, others. split; cbn [l_order l_elements l_buckets l_next].
  - constructor; [by rewrite lookup_insert_eq |]. apply Forall2_filter_iff.
    eapply Forall2_impl; [apply Forall2_and_in, (hold_order _ _ H) |].
    intros x kb (Hx & Hkb). assert (x ≠ e ↔ kb.1 ≠ key) as Hiff.
    { destruct kb as [k b]. cbn. split; [intros Hne -> | intros Hne ->; congruence].
      apply Hne. by eapply hold_unique. }
    split; [done |]. intros Hne. by rewrite lookup_insert_ne.
  - apply NoDup_cons. split; [| apply NoDup_filter, (hold_nodup _ _ H)].
    intros [Hne _]%list_elem_of_filter. done.
  - cbn. apply NoDup_cons. split.
    + intros (kb & -> & [Hne _]%list_elem_of_filter)%list_elem_of_fmap. done.
    + eapply sublist_NoDup; [apply (hold_keys _ _ H) |]. apply fmap_sublist, sublist_filter.
  - intros k x. rewrite (hold_buckets _ _ H), elem_of_cons, list_elem_of_filter.
    destruct (decide (x = e)) as [->|Hne].
    + rewrite lookup_insert_eq. split; [intros [_ [b Hb]] | intros [_ [b Hb]]]; naive_solver.
    + rewrite lookup_insert_ne by done. naive_solver.
  - intros x kb. destruct (decide (x = e)) as [->|Hne]; [intros _; by eapply hold_fresh |].
    rewrite lookup_insert_ne by done. apply (hold_fresh _ _ H).
Qed.

(** *** Giving up the oldest *)

Definition without_last (l : Limiter) (oldest : nat) : Limiter :=
  mkLimiter (l_perSecond l) (l_burst l) (l_capacity l)
    (take (length (l_order l) - 1) (l_order l))
    (match l_elements l !! oldest with Some (key, _) => delete key (l_buckets l) | None => l_buckets l end)
    (l_elements l) (l_next l).

Lemma holds_without_last l spec oldest :
  buckets_hold l spec → last (l_order l) = Some oldest →
  buckets_hold (without_last l oldest) (take (length spec - 1) spec).
Proof.
  intros H Hlast. pose proof (Forall2_length _ _ _ (hold_order _ _ H)) as Hlen.
  apply last_Some in Hlast as [init Hinit].
  destruct (hold_lookup l spec oldest H) as ([key b] & Hin & Hold); [rewrite Hinit; set_solver |].
  pose proof (hold_nodup _ _ H) as Hnd. rewrite Hinit in Hnd. apply NoDup_app in Hnd as (Hnd1 & Hnd2 & _).
  assert (take (length (l_order l) - 1) (l_order l) = init) as Htake.
  { rewrite Hinit, length_app. cbn. rewrite Nat.add_sub. by rewrite take_app_length. }
  unfold without_last. split; cbn [l_order l_elements l_buckets l_next].
  - rewrite <- Hlen. apply Forall2_take, (hold_order _ _ H).
  - by rewrite Htake.
  - eapply sublist_NoDup; [apply (hold_keys _ _ H) |]. apply fmap_sublist, sublist_take.
  - intros k e. rewrite Hold, Htake.
    assert (e ∈ l_order l ↔ e ∈ init ∨ e = oldest) as Hmem by (rewrite Hinit; set_solver).
    assert (oldest ∉ init) as Hout by (intros Hi; apply (Hnd2 _ Hi); set_solver).
    destruct (decide (k = key)) as [->|Hne].
    + rewrite lookup_delete_eq. split; [done |]. intros [He [b' Hb']].
      assert (e = oldest) as -> by (eapply (hold_unique l spec); try done; [apply Hmem; by left | rewrite Hinit; set_solver]).
      done.
    + rewrite lookup_delete_ne by done. rewrite (hold_buckets _ _ H), Hmem. split; [| naive_solver].
      intros [[He| ->] Hb]; [done |]. destruct Hb as [b' Hb']. congruence.
  - apply (hold_fresh _ _ H).
Qed.

Lemma evictLocked_holds turns : ∀ l spec,
  buckets_hold l spec → (length spec ≤ turns)%nat →
  buckets_hold (evictLocked turns l) (take (Z.to_nat (l_capacity l)) spec)
  ∧ l_elements (evictLocked turns l) = l_elements l ∧ l_capacity (evictLocked turns l) = l_capacity l
  ∧ l_perSecond (evictLocked turns l) = l_perSecond l ∧ l_burst (evictLocked turns l) = l_burst l
  ∧ l_next (evictLocked turns l) = l_next l
  ∧ l_order (evictLocked turns l) = take (Z.to_nat (l_capacity l)) (l_order l).
Proof.
  induction turns as [|turns IH]; intros l spec H Hle; cbn [evictLocked].
  { assert (spec = []) as -> by (destruct spec; [done | cbn in Hle; lia]).
    pose proof (Forall2_nil_inv_r _ _ (hold_order _ _ H)) as Ho. rewrite Ho, !take_nil. done. }
  pose proof (Forall2_length _ _ _ (hold_order _ _ H)) as Hlen.
  destruct (Z.leb_spec (len (l_order l)) (l_capacity l)) as [Hc|Hc].
  { unfold len in Hc. rewrite !take_ge by lia. done. }
  destruct (last (l_order l)) as [oldest|] eqn:Hlast.
  - pose proof (holds_without_last l spec oldest H Hlast) as H'. fold (without_last l oldest).
    destruct (IH _ _ H') as (H1 & H2 & H3 & H4 & H5 & H6 & H7); [rewrite length_take; lia |].
    unfold len in Hc. cbn [without_last l_capacity l_order l_elements l_perSecond l_burst l_next] in *.
    rewrite !take_take, !Nat.min_l in * by lia. done.
  - apply last_None in Hlast. rewrite Hlast in *. cbn in Hlen. destruct spec; [| done].
    rewrite !take_nil. done.
Qed.

Lemma holds_push l spec key :
  buckets_hold l spec → key ∉ spec.*1 →
  buckets_hold (mkLimiter (l_perSecond l) (l_burst l) (l_capacity l) (l_next l :: l_order l)
          (<[key := l_next l]> (l_buckets l))
          (<[l_next l := (key, rate_NewLimiter (l_perSecond l) (l_burst l))]> (l_elements l)) (S (l_next l)))
    ((key, rate_NewLimiter (l_perSecond l) (l_burst l)) :: spec).
Proof.
  intros H Hnew.
  assert (∀ e, e ∈ l_order l → e ≠ l_next l) as Hfresh.
  { intros e He ->. destruct (hold_lookup _ _ _ H He) as (kb & _ & Hkb). apply (hold_fresh _ _ H) in Hkb. lia. }
  split; cbn [l_order l_elements l_buckets l_next].
  - constructor; [by rewrite lookup_insert_eq |].
    eapply Forall2_impl; [apply Forall2_and_in, (hold_order _ _ H) |].
    intros x kb [Hx Hkb]. by rewrite lookup_insert_ne by (apply not_eq_sym, Hfresh, Hx).
  - apply NoDup_cons. split; [| apply (hold_nodup _ _ H)]. intros He. by apply (Hfresh _ He).
  - cbn. apply NoDup_cons. split; [done | apply (hold_keys _ _ H)].
  - intros k e. rewrite elem_of_cons. destruct (decide (k = key)) as [->|Hk].
    + rewrite lookup_insert_eq. split.
      * intros [= <-]. split; [by left |]. rewrite lookup_insert_eq. by eexists.
      * intros [[->|He] Hb]; [done |]. exfalso. destruct Hb as [b Hb]. rewrite lookup_insert_ne in Hb by (apply not_eq_sym, Hfresh, He).
        destruct (hold_lookup _ _ _ H He) as (kb & Hin & Hkb). apply Hnew, list_elem_of_fmap. exists kb.
        split; [| done]. rewrite Hb in Hkb. by injection Hkb as <-.
    + rewrite lookup_insert_ne, (hold_buckets _ _ H) by done. split.
      * intros [He Hb]. split; [by right |]. by rewrite lookup_insert_ne by (apply not_eq_sym, Hfresh, He).
      * intros [[->|He] [b Hb]]; [rewrite lookup_insert_eq in Hb; naive_solver |].
        rewrite lookup_insert_ne in Hb by (apply not_eq_sym, Hfresh, He). eauto.
  - intros e kb. destruct (decide (e = l_next l)) as [->|Hne]; [lia |].
    rewrite lookup_insert_ne by done. intros He%(hold_fresh _ _ H). lia.
Qed.

Lemma holds_spend_first l spec e rest key bucket bucket' :
  buckets_hold l ((key, bucket) :: spec) → l_order l = e :: rest →
  buckets_hold (on_elements <[e := (key, bucket')]> l) ((key, bucket') :: spec).
Proof.
  intros H Ho. pose proof (hold_nodup _ _ H) as Hnd. pose proof (hold_keys _ _ H) as Hks.
  pose proof (hold_order _ _ H) as Hf. rewrite Ho in Hnd, Hf. apply Forall2_cons in Hf as [He _].
  apply NoDup_cons in Hnd as [Hout _]. cbn in Hks. apply NoDup_cons in Hks as [Hk _].
  pose proof (holds_spend l _ e key bucket bucket' H ltac:(rewrite Ho; set_solver) He) as H'.
  assert (MoveToFront e (l_order l) = l_order l) as Hm.
  { rewrite Ho. unfold MoveToFront. rewrite filter_cons_False by naive_solver. f_equal.
    apply filter_all, Forall_forall. intros x Hx. cbn. intros ->. done. }
  assert (others key ((key, bucket) :: spec) = spec) as Hs.
  { unfold others. rewrite filter_cons_False by naive_solver. apply filter_all, Forall_forall. intros kb Hkb. cbn.
    intros <-. apply Hk, list_elem_of_fmap. eauto. }
  rewrite Hm, Hs in H'. by destruct l.
Qed.

Lemma holds_elsewhere l spec e kb :
  buckets_hold l spec → e ∉ l_order l → (e < l_next l)%nat → buckets_hold (on_elements <[e := kb]> l) spec.
Proof.
  intros H Hout Hlt. split; cbn [on_elements l_order l_elements l_buckets l_next].
  - eapply Forall2_impl; [apply Forall2_and_in, (hold_order _ _ H) |].
    intros x kb' [Hx Hkb]. rewrite lookup_insert_ne; [done |]. by intros ->.
  - apply (hold_nodup _ _ H).
  - apply (hold_keys _ _ H).
  - intros k x. rewrite (hold_buckets _ _ H). split; intros [Hx Hb]; (split; [done |]);
      rewrite lookup_insert_ne in * by (by intros ->); done.
  - intros x kb'. destruct (decide (x = e)) as [->|Hne]; [done |].
    rewrite lookup_insert_ne by done. apply (hold_fresh _ _ H).
Qed.

Lemma len_others key (spec : lru) : (key ∈ spec.*1 → length (others key spec) < length spec)%nat.
Proof.
  intros ([k b] & -> & Hin)%list_elem_of_fmap. unfold others. cbn.
  eapply length_filter_lt; [exact Hin | naive_solver].
Qed.

Lemma limiter_Allow_spec l spec key now :
  represents l spec →
  ∃ l' spec' allowed, limiter_Allow key now l = (l', allowed)
  ∧ lru_Allow (l_perSecond l) (l_burst l) (l_capacity l) key now spec = (spec', allowed)
  ∧ represents l' spec'
  ∧ l_perSecond l' = l_perSecond l ∧ l_burst l' = l_burst l ∧ l_capacity l' = l_capacity l.
Proof.
  intros [H Hcap]. unfold limiter_Allow, lru_Allow.
  destruct (l_buckets l !! key) as [e|] eqn:Hb.
  - apply (hold_buckets _ _ H) in Hb as [He [bucket Hk]]. cbv zeta. cbn [l_elements]. rewrite Hk.
    destruct (hold_lookup _ _ _ H He) as (kb & Hin & Hkb). rewrite Hk in Hkb. injection Hkb as <-.
    rewrite (proj2 (find_bucket_spec spec key bucket (hold_keys _ _ H)) Hin).
    destruct (rate_Allow bucket now) as [bucket' allowed]. eexists _, _, _. split_and!; try done.
    split; [by apply (holds_spend l spec e key bucket bucket') |]. cbn [l_capacity on_elements].
    pose proof (len_others key spec) as Hl. unfold len in *. cbn [length].
    assert (length (others key spec) < length spec)%nat; [| lia].
    apply Hl, list_elem_of_fmap. by exists (key, bucket).
  - assert (key ∉ spec.*1) as Hnew.
    { intros ([k b] & -> & Hin)%list_elem_of_fmap. destruct (hold_element _ _ _ H Hin) as (e & He & Hkb).
      cbn in Hb. assert (l_buckets l !! k = Some e) by (apply (hold_buckets _ _ H); eauto). congruence. }
    rewrite (proj2 (find_bucket_none spec key) Hnew). cbv zeta.
    pose proof (holds_push l spec key H Hnew) as Hp. set (pushed := mkLimiter _ _ _ (l_next l :: l_order l) _ _ _) in *.
    pose proof (Forall2_length _ _ _ (hold_order _ _ H)) as Hlen.
    destruct (evictLocked_holds (length (l_order pushed)) pushed _ Hp) as (He & Hel & Hc & Hps & Hbu & Hnx & Ho);
      [cbn; lia |].
    set (l2 := evictLocked _ pushed) in *. rewrite Hel. cbn [pushed l_elements]. rewrite lookup_insert_eq.
    destruct (rate_Allow _ now) as [bucket' allowed]. eexists _, _, _. split_and!; try done.
    change (l_capacity pushed) with (l_capacity l) in *.
    split; [| cbn [on_elements l_capacity]; rewrite Hc; unfold len; rewrite length_take; lia].
    destruct (Z.to_nat (l_capacity l)) as [|n] eqn:Hn; cbn [take] in *.
    + apply holds_elsewhere; [done | rewrite Ho; set_solver | rewrite Hnx; cbn; lia].
    + eapply holds_spend_first; [exact He | rewrite Ho; reflexivity].
Qed.

(** The limiter is its buckets in order of use: the map and the list agree, a
    caller keeps its bucket while it is tracked, and the callers used longest ago
    are given up first. *)
Theorem limiter_is_its_buckets_by_use l spec key now :
  represents l spec →
  ∃ l' spec' allowed, limiter_Allow key now l = (l', allowed)
  ∧ lru_Allow (l_perSecond l) (l_burst l) (l_capacity l) key now spec = (spec', allowed)
  ∧ represents l' spec'.
Proof. intros H. destruct (limiter_Allow_spec l spec key now H) as (l' & spec' & a & ? & ? & ? & _). eauto 10. Qed.

Lemma NewLimiter_represents perSecond burst capacity : represents (NewLimiter perSecond burst capacity) [].
Proof.
  split; [| unfold len; cbn; lia]. split; cbn; [constructor | constructor | constructor | | done].
  intros key e. rewrite lookup_empty. set_solver.
Qed.

(** *** A caller's share is its own *)

(** Requests in the order they came. *)
Fixpoint serve (requests : list (string * instant)) (l : Limiter) : list bool :=
  match requests with
  | [] => []
  | (key, now) :: requests => let '(l, allowed) := limiter_Allow key now l in allowed :: serve requests l
  end.

Fixpoint lru_serve (perSecond : Limit) (burst capacity : Z) (requests : list (string * instant)) (l : lru) : list bool :=
  match requests with
  | [] => []
  | (key, now) :: requests =>
      let '(l, allowed) := lru_Allow perSecond burst capacity key now l in
      allowed :: lru_serve perSecond burst capacity requests l
  end.

(** One bucket alone. *)
Fixpoint alone (bucket : Bucket) (times : list instant) : list bool :=
  match times with
  | [] => []
  | now :: times => let '(bucket, allowed) := rate_Allow bucket now in allowed :: alone bucket times
  end.

Lemma serve_lru requests : ∀ l spec,
  represents l spec →
  serve requests l = lru_serve (l_perSecond l) (l_burst l) (l_capacity l) requests spec.
Proof.
  induction requests as [|[key now] requests IH]; intros l spec H; [done |]. cbn [serve lru_serve].
  destruct (limiter_Allow_spec l spec key now H) as (l' & spec' & allowed & -> & -> & H' & H1 & H2 & H3).
  by rewrite (IH l' spec' H'), H1, H2, H3.
Qed.

(** The answers one caller was given. *)
Definition answers_to (key : string) (requests : list (string * instant)) (given : list bool) : list bool :=
  (filter (λ r, r.1.1 = key) (zip requests given)).*2.

Lemma find_bucket_cons (spec : lru) key k b :
  find_bucket key ((k, b) :: others k spec) = if decide (k = key) then Some b else find_bucket key spec.
Proof.
  unfold find_bucket, others. cbn [List.find fst]. destruct (decide (k = key)) as [->|Hne].
  { by rewrite bool_decide_true. }
  rewrite bool_decide_false by done. f_equal. induction spec as [|[k' b'] spec IH]; [done |].
  destruct (decide (k' = k)) as [->|Hk'].
  - rewrite filter_cons_False by naive_solver. cbn [List.find fst]. by rewrite bool_decide_false.
  - rewrite filter_cons_True by done. cbn [List.find fst]. by rewrite IH.
Qed.

Lemma lru_serve_alone perSecond burst capacity key requests : ∀ spec callers,
  NoDup callers → (∀ k, k ∈ spec.*1 ∨ k ∈ requests.*1 → k ∈ callers) → len callers ≤ capacity →
  NoDup spec.*1 →
  answers_to key requests (lru_serve perSecond burst capacity requests spec) =
  alone (default (rate_NewLimiter perSecond burst) (find_bucket key spec)) (filter (λ r, r.1 = key) requests).*2.
Proof.
  induction requests as [|[k now] requests IH]; intros spec callers Hc Hin Hcap Hnd; [done |].
  cbn [lru_serve]. unfold lru_Allow.
  set (bucket := default (rate_NewLimiter perSecond burst) (find_bucket k spec)).
  destruct (rate_Allow bucket now) as [bucket' allowed] eqn:Hr.
  assert (∃ spec', (match find_bucket k spec with
      | Some bucket => let '(bucket, allowed) := rate_Allow bucket now in ((k, bucket) :: others k spec, allowed)
      | None => let '(bucket, allowed) := rate_Allow (rate_NewLimiter perSecond burst) now in
          (take (Z.to_nat capacity) ((k, bucket) :: spec), allowed)
      end) = (spec', allowed) ∧ spec' = (k, bucket') :: others k spec) as (spec' & -> & Hspec').
  { subst bucket. destruct (find_bucket k spec) as [b|] eqn:Hf; cbn in Hr; rewrite Hr; [by eexists |].
    eexists. split; [done |]. apply find_bucket_none in Hf.
    assert (others k spec = spec) as ->.
    { apply filter_all, Forall_forall. intros [k' b'] Hk'. cbn. intros ->. apply Hf, list_elem_of_fmap. by exists (k, b'). }
    apply take_ge. cbn. unfold len in Hcap.
    assert (length (k :: spec.*1) ≤ length callers)%nat as Hle.
    { apply submseteq_length, NoDup_submseteq; [by apply NoDup_cons |].
      intros x [->|Hx]%elem_of_cons; apply Hin; [right; cbn; set_solver | by left]. }
    cbn in Hle. rewrite length_fmap in Hle. lia. }
  assert (answers_to key ((k, now) :: requests) (allowed :: lru_serve perSecond burst capacity requests spec') =
    if decide (k = key) then allowed :: answers_to key requests (lru_serve perSecond burst capacity requests spec')
    else answers_to key requests (lru_serve perSecond burst capacity requests spec')) as ->.
  { unfold answers_to. cbn [zip zip_with]. destruct (decide (k = key)) as [->|Hne];
      [by rewrite filter_cons_True | by rewrite filter_cons_False]. }
  rewrite (IH spec' callers Hc); [| | done |].
  - rewrite Hspec', find_bucket_cons. destruct (decide (k = key)) as [->|Hne].
    + rewrite filter_cons_True by done. cbn [fmap list_fmap snd alone]. fold bucket. by rewrite Hr.
    + by rewrite filter_cons_False.
  - intros x [Hx|Hx]; [| apply Hin; right; cbn; set_solver]. rewrite Hspec' in Hx. cbn in Hx.
    apply elem_of_cons in Hx as [->|Hx]; [apply Hin; right; cbn; set_solver |].
    apply list_elem_of_fmap in Hx as (kb & -> & [_ Hkb]%list_elem_of_filter).
    apply Hin. left. apply list_elem_of_fmap. eauto.
  - rewrite Hspec'. cbn. apply NoDup_cons. split.
    + intros (kb & -> & [Hne _]%list_elem_of_filter)%list_elem_of_fmap. done.
    + eapply sublist_NoDup; [exact Hnd |]. apply fmap_sublist, sublist_filter.
Qed.

(** While no more callers come than are tracked, each is answered as if it were
    alone: one caller never spends another's share. *)
Theorem a_share_is_the_callers_own perSecond burst capacity requests key :
  len (remove_dups requests.*1) ≤ capacity →
  answers_to key requests (serve requests (NewLimiter perSecond burst capacity)) =
  alone (rate_NewLimiter perSecond burst) (filter (λ r, r.1 = key) requests).*2.
Proof.
  intros Hcap. rewrite (serve_lru _ _ [] (NewLimiter_represents _ _ _)). cbn [NewLimiter l_perSecond l_burst l_capacity].
  rewrite (lru_serve_alone _ _ _ _ _ [] (remove_dups requests.*1)); [done | apply NoDup_remove_dups | | done | constructor].
  intros k [Hk|Hk]; [by apply not_elem_of_nil in Hk | by apply elem_of_remove_dups].
Qed.

Lemma size_buckets l spec : buckets_hold l spec → size (l_buckets l) = length spec.
Proof.
  intros H. transitivity (size (dom (l_buckets l))); [by rewrite size_dom |].
  assert (dom (l_buckets l) = list_to_set spec.*1) as ->.
  { apply set_eq. intros k. rewrite elem_of_dom, elem_of_list_to_set. split.
    - intros [e [He [b Hb]]%(hold_buckets _ _ H)]. destruct (hold_lookup _ _ _ H He) as (kb & Hin & Hkb).
      rewrite Hb in Hkb. injection Hkb as <-. apply list_elem_of_fmap. by exists (k, b).
    - intros ([k' b] & -> & Hin)%list_elem_of_fmap. destruct (hold_element _ _ _ H Hin) as (e & He & Hb).
      exists e. apply (hold_buckets _ _ H). eauto. }
  rewrite size_list_to_set by apply (hold_keys _ _ H). by rewrite length_fmap.
Qed.

(** However many callers come, no more are tracked than the capacity. *)
Theorem tracking_is_bounded perSecond burst capacity requests :
  let after l := foldl (λ l r, (limiter_Allow r.1 r.2 l).1) l requests in
  limiter_Tracked (Some (after (NewLimiter perSecond burst capacity))) ≤ Z.max 0 capacity.
Proof.
  cbv zeta. cbn [limiter_Tracked].
  assert (∀ l spec, represents l spec → ∃ spec', represents (foldl (λ l r, (limiter_Allow r.1 r.2 l).1) l requests) spec'
    ∧ l_capacity (foldl (λ l r, (limiter_Allow r.1 r.2 l).1) l requests) = l_capacity l) as Hrun.
  { induction requests as [|[key now] requests IH]; intros l spec H; cbn [foldl fst snd]; [eauto |].
    destruct (limiter_Allow_spec l spec key now H) as (l' & spec' & a & -> & _ & H' & _ & _ & Hc). cbn [fst].
    destruct (IH l' spec' H') as (spec2 & ? & ?). exists spec2. split; [done | congruence]. }
  destruct (Hrun _ _ (NewLimiter_represents perSecond burst capacity)) as (spec & [Hh Hl] & Hc).
  rewrite (size_buckets _ spec Hh). rewrite Hc in Hl. done.
Qed.
End limiter.
