(* ===== verification/Event.v ===== *)
(** * Events: the contract and what admission asks of one

    event/validate.go and limits.go. An event is the message the gateway decodes,
    its parts optional where protobuf leaves them out. What the contract's
    generated code declares (the names of its enumerations, the bytes an event
    encodes to) and the parsing of addresses are parameters. *)

From Stdlib Require Import ZArith Lia Ascii.
From stdpp Require Import base tactics option strings numbers list.
From S2P Require Import Prelude Text Scan Agent.

(** ** The message *)

(** A protobuf timestamp, and the instant it is once valid. *)
Record WireTime := mkWireTime { wt_seconds : Z; wt_nanos : Z }.

Definition IsValid (t : WireTime) : bool :=
  (- 62135596800 <=? wt_seconds t) && (wt_seconds t <=? 253402300799)
  && (0 <=? wt_nanos t) && (wt_nanos t <? 1000000000).

Definition unix_seconds : Z := 62135596800.
Definition WireTime_AsTime (t : WireTime) : instant := (unix_seconds + wt_seconds t) * second + wt_nanos t.

Record HostPart := mkHostPart { ho_hostname : string; ho_ip : string; ho_os : string; ho_architecture : string }.
Record OriginPart := mkOriginPart { or_tenant : string; or_agent : string; or_host : option HostPart }.
Record TimesPart := mkTimesPart { ti_event : option WireTime; ti_observed : option WireTime }.
Record CollectionPart := mkCollectionPart { co_collector : string; co_source : string; co_sequence : Z }.
Record ReceptionPart := mkReceptionPart { re_ingest : instant; re_gateway : string; re_batch : string }.
Record UserPart := mkUserPart { us_name : string; us_domain : string; us_uid : string }.
Record ServicePart := mkServicePart { sv_name : string; sv_protocol : string }.
Record EndpointPart := mkEndpointPart { en_ip : string; en_port : Z }.
Record NetworkPart := mkNetworkPart { nw_transport : Z; nw_source : option EndpointPart; nw_destination : option EndpointPart }.

Record AuthenticationBody := mkAuthenticationBody {
  au_activity : Z;
  au_outcome : Z;
  au_outcome_reason : string;
  au_method : string;
  au_user : option UserPart;
  au_service : option ServicePart;
  au_network : option NetworkPart;
  au_raw_record : string;
}.

Record EventMessage := mkEventMessage {
  em_id : string;
  em_schema : Z;
  em_class : Z;
  em_time : option TimesPart;
  em_origin : option OriginPart;
  em_collection : option CollectionPart;
  em_reception : option ReceptionPart;
  em_authentication : option AuthenticationBody;
}.

(** ** Bounds (limits.go) *)

Definition MinSchemaVersion : Z := 1.
Definition MaxSchemaVersion : Z := 1.
Definition MinEventIDLength : Z := 8.
Definition MaxAddressLength : Z := 45.
Definition MaxCollectorLength : Z := 64.
Definition MaxSourceLength : Z := 512.
Definition MaxUserNameLength : Z := 256.
Definition MaxUserDomainLength : Z := 255.
Definition MaxUserIDLength : Z := 64.
Definition MaxServiceNameLength : Z := 64.
Definition MaxProtocolLength : Z := 32.
Definition MaxOutcomeReasonLen : Z := 64.
Definition MaxAuthMethodLength : Z := 32.
Definition MaxRawRecordLength : Z := 4096.
Definition MaxBatchIDLength : Z := 64.
Definition MaxGatewayLength : Z := 64.
Definition MaxEventBytes : Z := 983040.

(** ** Violations *)

Inductive EventReason :=
| IsMissing | IsShorter | IsMalformed | OutsideVersions | NotAnInstant | AheadOfClock | PastTheWindow
| IsRequired | IsLonger | NotAnAddress | OutsidePorts | IsUnspecified | NotDeclared | EncodesTooLong.

#[global] Instance EventReason_eq_dec : EqDecision EventReason.
Proof. solve_decision. Defined.

Record EventViolation := mkEventViolation { ev_field : string; ev_reason : EventReason }.
#[global] Instance EventViolation_eq_dec : EqDecision EventViolation.
Proof. solve_decision. Defined.

Abbreviation event_checked := (result EventViolation unit).
Definition violates (field : string) (reason : EventReason) : event_checked := Err (mkEventViolation field reason).

(** What an event's contract leaves to generated code and the standard library. *)
Class EventContract := {
  Addr : Type;
  ParseAddr : string → option Addr;
  Unmap_String : Addr → string;
  Activity_named : Z → bool;
  Outcome_named : Z → bool;
  Transport_named : Z → bool;
  proto_Size : EventMessage → Z;
}.

Definition EVENT_CLASS_AUTHENTICATION : Z := 1.

(** ** Checks *)

Definition event_text (field value : string) (maximum : Z) (required : bool) : event_checked :=
  if bool_decide (value = "") then if required then violates field IsRequired else Ok tt
  else if maximum <? slen value then violates field IsLonger else Ok tt.

Definition event_identifier (field value : string) : event_checked :=
  if slen value <? MinEventIDLength then violates field IsShorter
  else if negb (ValidIdentifier value) then violates field IsMalformed else Ok tt.

Definition event_instant (field : string) (value : option WireTime) : event_checked :=
  match value with
  | None => violates field IsMissing
  | Some t => if negb (IsValid t) then violates field NotAnInstant else Ok tt
  end.

Definition event_declared (field : string) (value : Z) (named : Z → bool) : event_checked :=
  if value =? 0 then violates field IsUnspecified
  else if negb (named value) then violates field NotDeclared else Ok tt.

Section contract.
Context `{EventContract}.

Definition event_address (field value : string) : event_checked :=
  if bool_decide (value = "") then Ok tt
  else if MaxAddressLength <? slen value then violates field IsLonger
  else match ParseAddr value with None => violates field NotAnAddress | Some _ => Ok tt end.

Definition event_endpoint (field : string) (value : option EndpointPart) : event_checked :=
  match value with
  | None => Ok tt
  | Some e =>
      (event_address (field +:+ ".ip") (en_ip e) ;;
       if 65535 <? en_port e then violates (field +:+ ".port") OutsidePorts else Ok tt)%go
  end.

Definition validateTimestamps (times : option TimesPart) : event_checked :=
  match times with
  | None => violates "time" IsMissing
  | Some t =>
      (event_instant "time.event_time" (ti_event t) ;;
       event_instant "time.observed_time" (ti_observed t))%go
  end.

Definition ValidateOrigin (origin : option OriginPart) : event_checked :=
  match origin with
  | None => violates "origin" IsMissing
  | Some o =>
      if negb (AgentIDValid (or_agent o)) then violates "origin.agent_id" IsMalformed
      else
      (event_text "origin.tenant_id" (or_tenant o) MaxTenantIDLength true ;;
       match or_host o with
       | None => Ok tt
       | Some h =>
           event_text "origin.host.hostname" (ho_hostname h) MaxHostnameLength false ;;
           event_address "origin.host.ip" (ho_ip h) ;;
           event_text "origin.host.os" (ho_os h) MaxOperatingSystem false ;;
           event_text "origin.host.architecture" (ho_architecture h) MaxArchitectureLen false
       end)%go
  end.

Definition ValidateCollection (collection : option CollectionPart) : event_checked :=
  match collection with
  | None => violates "collection" IsMissing
  | Some c =>
      (event_text "collection.collector" (co_collector c) MaxCollectorLength true ;;
       event_text "collection.source" (co_source c) MaxSourceLength false)%go
  end.

(** A reception that is not there reads as empty. *)
Definition validateReception (reception : option ReceptionPart) : event_checked :=
  let r := default (mkReceptionPart time_zero "" "") reception in
  (event_text "reception.gateway" (re_gateway r) MaxGatewayLength false ;;
   event_text "reception.batch_id" (re_batch r) MaxBatchIDLength false)%go.

Definition validateUser (user : option UserPart) : event_checked :=
  match user with
  | None => Ok tt
  | Some u =>
      (event_text "authentication.user.name" (us_name u) MaxUserNameLength false ;;
       event_text "authentication.user.domain" (us_domain u) MaxUserDomainLength false ;;
       event_text "authentication.user.uid" (us_uid u) MaxUserIDLength false)%go
  end.

Definition validateService (service : option ServicePart) : event_checked :=
  match service with
  | None => Ok tt
  | Some s =>
      (event_text "authentication.service.name" (sv_name s) MaxServiceNameLength false ;;
       event_text "authentication.service.protocol" (sv_protocol s) MaxProtocolLength false)%go
  end.

Definition validateNetwork (network : option NetworkPart) : event_checked :=
  match network with
  | None => Ok tt
  | Some n =>
      if negb (Transport_named (nw_transport n)) then violates "authentication.network.transport" NotDeclared
      else
      (event_endpoint "authentication.network.source" (nw_source n) ;;
       event_endpoint "authentication.network.destination" (nw_destination n))%go
  end.

Definition validateAuthentication (a : AuthenticationBody) : event_checked :=
  (event_declared "authentication.activity" (au_activity a) Activity_named ;;
   event_declared "authentication.outcome" (au_outcome a) Outcome_named ;;
   event_text "authentication.outcome_reason" (au_outcome_reason a) MaxOutcomeReasonLen false ;;
   event_text "authentication.method" (au_method a) MaxAuthMethodLength false ;;
   validateUser (au_user a) ;;
   validateService (au_service a) ;;
   validateNetwork (au_network a) ;;
   event_text "authentication.raw_record" (au_raw_record a) MaxRawRecordLength false)%go.

Definition validateBody (e : EventMessage) : event_checked :=
  if em_class e =? EVENT_CLASS_AUTHENTICATION then
    match em_authentication e with
    | None => violates "authentication" IsRequired
    | Some a => validateAuthentication a
    end
  else violates "event_class" IsUnspecified.

Definition held_to_contract (e : EventMessage) : event_checked :=
  (event_identifier "event_id" (em_id e) ;;
   (if (em_schema e <? MinSchemaVersion) || (MaxSchemaVersion <? em_schema e)
    then violates "schema_version" OutsideVersions else Ok tt) ;;
   validateTimestamps (em_time e) ;;
   ValidateOrigin (em_origin e) ;;
   ValidateCollection (em_collection e) ;;
   validateReception (em_reception e) ;;
   validateBody e)%go.

Definition ValidateContract (record : option EventMessage) : event_checked :=
  match record with None => violates "event" IsMissing | Some e => held_to_contract e end.

(** ** Admission *)

Record EventPolicy := mkEventPolicy { ep_maxClockSkew : duration; ep_maxAge : duration }.

Definition withinWindow (field : string) (at_ now : instant) (p : EventPolicy) : event_checked :=
  if after at_ (time_add now (ep_maxClockSkew p)) then violates field AheadOfClock
  else if before at_ (time_add now (- ep_maxAge p)) then violates field PastTheWindow
  else Ok tt.

(** [AsTime] of a timestamp that is not there is the Unix epoch. *)
Definition times_at (t : option WireTime) : instant := WireTime_AsTime (default (mkWireTime 0 0) t).

Definition admissible (times : option TimesPart) (now : instant) (p : EventPolicy) : event_checked :=
  let t := default (mkTimesPart None None) times in
  (withinWindow "time.event_time" (times_at (ti_event t)) now p ;;
   withinWindow "time.observed_time" (times_at (ti_observed t)) now p)%go.

Definition event_Validate (e : EventMessage) (now : instant) (p : EventPolicy) : event_checked :=
  (ValidateContract (Some e) ;;
   (if MaxEventBytes <? proto_Size e then violates "event" EncodesTooLong else Ok tt) ;;
   admissible (em_time e) now p)%go.
End contract.
