(* ===== verification/Canonical.v ===== *)
(** * The canonical form of an event

    analysis/normalize.go and route.go: what the engine rewrites of an event
    before a rule reads it, and the class that decides it. [strings.TrimSpace] is
    written out over the UTF-8 of the spaces it knows, and [strings.ToLower] and
    [strings.Map] over the runes a text is read as. The case of a letter beyond
    ASCII is Unicode's tables, a parameter ([UnicodeCase]), of which it is only asked
    ([UnicodeLaws]) that it makes a rune of a rune. *)

From Stdlib Require Import ZArith Lia Ascii.
From stdpp Require Import base tactics option strings numbers list.
From S2P Require Import Prelude Text Scan Hex Bytes Agent Authz Session Event.

(** ** Trimming *)

Definition space_1 (a : ascii) : bool := between 9 13 a || (byte a =? 32)%N.
Definition space_2 (a b : ascii) : bool := (byte a =? 194)%N && ((byte b =? 133) || (byte b =? 160))%N.
Definition space_3 (a b c : ascii) : bool :=
  ((byte a =? 225) && (byte b =? 154) && (byte c =? 128))%N
  || ((byte a =? 226) && (byte b =? 128))%N
     && (between 128 138 c || (byte c =? 168) || (byte c =? 169) || (byte c =? 175))%N
  || ((byte a =? 226) && (byte b =? 129) && (byte c =? 159))%N
  || ((byte a =? 227) && (byte b =? 128) && (byte c =? 128))%N.

Fixpoint trim_left (s : string) : string :=
  match s with
  | EmptyString => ""
  | String a s1 =>
      if space_1 a then trim_left s1
      else match s1 with
      | EmptyString => s
      | String b s2 =>
          if space_2 a b then trim_left s2
          else match s2 with
          | EmptyString => s
          | String c s3 => if space_3 a b c then trim_left s3 else s
          end
      end
  end.

(** The same from the other end, over the bytes turned round. *)
Fixpoint trim_turned (s : string) : string :=
  match s with
  | EmptyString => ""
  | String c s1 =>
      if space_1 c then trim_turned s1
      else match s1 with
      | EmptyString => s
      | String b s2 =>
          if space_2 b c then trim_turned s2
          else match s2 with
          | EmptyString => s
          | String a s3 => if space_3 a b c then trim_turned s3 else s
          end
      end
  end.

Fixpoint turned (s : string) : string :=
  match s with EmptyString => "" | String c s => turned s +:+ String c "" end.

Definition TrimSpace (s : string) : string := turned (trim_turned (turned (trim_left s))).

Definition TrimSuffix (s p : string) : string :=
  if HasSuffix s p then string_take (String.length s - String.length p) s else s.

(** ** Folding *)

Definition ascii_only (s : string) : bool := made_of (λ c, (byte c <? 128)%N) s.

(** Unicode's tables: [unicode.To(unicode.LowerCase, r)] of a rune beyond ASCII. *)
Class UnicodeCase := { Unicode_lower : Z → Z }.

Section canonical.
Context `{UnicodeCase, EventContract}.

Definition unicode_ToLower (r : Z) : Z :=
  if r <=? 127 then if (65 <=? r) && (r <=? 90) then r + 32 else r else Unicode_lower r.

Definition strings_ToLower (s : string) : string := if ascii_only s then ToLower s else strings_Map unicode_ToLower s.

(** A letter folded, where its fold takes no more bytes than it does. *)
Definition lower (letter : Z) : Z :=
  let folded := unicode_ToLower letter in if RuneLen folded <=? RuneLen letter then folded else letter.

Definition event_fold (value : string) : string :=
  let trimmed := TrimSpace value in
  if ascii_only trimmed then ToLower trimmed else strings_Map lower trimmed.

Definition canonical_hostname (value : string) : string := TrimSuffix (event_fold value) ".".

Definition canonical_address (value : string) : string :=
  let trimmed := TrimSpace value in
  match ParseAddr trimmed with
  | None => trimmed
  | Some parsed =>
      let canonical := Unmap_String parsed in
      if slen canonical <=? MaxAddressLength then canonical else trimmed
  end.

(** ** Rewriting: what each field becomes, and whether any changed *)

Definition set_field (field canonical : string) : string * bool := (canonical, negb (bool_decide (field = canonical))).

Definition normalize_origin (origin : option OriginPart) : option OriginPart * bool :=
  match origin with
  | Some o =>
      match or_host o with
      | Some h =>
          let '(name, r1) := set_field (ho_hostname h) (canonical_hostname (ho_hostname h)) in
          let '(ip, r2) := set_field (ho_ip h) (canonical_address (ho_ip h)) in
          let '(os, r3) := set_field (ho_os h) (event_fold (ho_os h)) in
          let '(architecture, r4) := set_field (ho_architecture h) (event_fold (ho_architecture h)) in
          (Some (mkOriginPart (or_tenant o) (or_agent o) (Some (mkHostPart name ip os architecture))),
           r4 || (r3 || (r2 || r1)))
      | None => (Some o, false)
      end
  | None => (None, false)
  end.

Definition normalize_collection (collection : option CollectionPart) : option CollectionPart * bool :=
  match collection with
  | Some c =>
      let '(collector, r) := set_field (co_collector c) (event_fold (co_collector c)) in
      (Some (mkCollectionPart collector (co_source c) (co_sequence c)), r)
  | None => (None, false)
  end.

Definition normalizeEnvelope (e : EventMessage) : EventMessage * bool :=
  (mkEventMessage (em_id e) (em_schema e) (em_class e) (em_time e) (normalize_origin (em_origin e)).1
     (normalize_collection (em_collection e)).1 (em_reception e) (em_authentication e),
   (normalize_collection (em_collection e)).2 || (normalize_origin (em_origin e)).2).

Definition normalize_endpoint (end_ : option EndpointPart) : option EndpointPart * bool :=
  match end_ with
  | Some p => let '(ip, r) := set_field (en_ip p) (canonical_address (en_ip p)) in (Some (mkEndpointPart ip (en_port p)), r)
  | None => (None, false)
  end.

Definition normalize_user (user : option UserPart) : option UserPart * bool :=
  match user with
  | Some u =>
      let '(name, q1) := set_field (us_name u) (TrimSpace (us_name u)) in
      let '(domain, q2) := set_field (us_domain u) (event_fold (us_domain u)) in
      let '(uid, q3) := set_field (us_uid u) (TrimSpace (us_uid u)) in
      (Some (mkUserPart name domain uid), q3 || (q2 || q1))
  | None => (None, false)
  end.

Definition normalize_service (service : option ServicePart) : option ServicePart * bool :=
  match service with
  | Some s =>
      let '(name, q1) := set_field (sv_name s) (event_fold (sv_name s)) in
      let '(protocol, q2) := set_field (sv_protocol s) (event_fold (sv_protocol s)) in
      (Some (mkServicePart name protocol), q2 || q1)
  | None => (None, false)
  end.

Definition normalize_network (network : option NetworkPart) : option NetworkPart * bool :=
  match network with
  | Some n =>
      (Some (mkNetworkPart (nw_transport n) (normalize_endpoint (nw_source n)).1 (normalize_endpoint (nw_destination n)).1),
       (normalize_endpoint (nw_destination n)).2 || (normalize_endpoint (nw_source n)).2)
  | None => (None, false)
  end.

Definition normalizeBody (a : AuthenticationBody) : AuthenticationBody * bool :=
  let '(method, rewritten) := set_field (au_method a) (event_fold (au_method a)) in
  (mkAuthenticationBody (au_activity a) (au_outcome a) (au_outcome_reason a) method (normalize_user (au_user a)).1
     (normalize_service (au_service a)).1 (normalize_network (au_network a)).1 (au_raw_record a),
   (normalize_network (au_network a)).2
   || ((normalize_service (au_service a)).2 || ((normalize_user (au_user a)).2 || rewritten))).

Definition normalizeAuthentication (e : EventMessage) : EventMessage * bool :=
  let '(e, rewritten) := normalizeEnvelope e in
  match em_authentication e with
  | None => (e, rewritten)
  | Some a =>
      let '(a, changed) := normalizeBody a in
      (mkEventMessage (em_id e) (em_schema e) (em_class e) (em_time e) (em_origin e) (em_collection e)
         (em_reception e) (Some a), changed || rewritten)
  end.

(** ** Routes (route.go) *)

Definition RouteAuthentication : string := "authentication".

Definition StageFor (class : Z) : option (string * (EventMessage → EventMessage * bool)) :=
  if class =? EVENT_CLASS_AUTHENTICATION then Some (RouteAuthentication, normalizeAuthentication) else None.

Definition RouteFor (class : Z) : option string := fst <$> StageFor class.
End canonical.

(** ** Canonical forms are no longer *)

Lemma string_ind3' (P : string → Prop) :
  P "" → (∀ a s, P s → (∀ b s', s = String b s' → P s') → (∀ b c s', s = String b (String c s') → P s') → P (String a s)) →
  ∀ s, P s.
Proof.
  intros H0 H1 s. remember (String.length s) as n eqn:Hn. revert s Hn.
  induction (Nat.lt_wf_0 n) as [n _ IH]. intros [|a s] ->; [done |].
  apply H1; intros; subst; eapply IH; try done; cbn; lia.
Qed.

Lemma trim_left_shorter s : (String.length (trim_left s) ≤ String.length s)%nat.
Proof.
  induction s as [|a s IH1 IH2 IH3] using string_ind3'; [done |]. cbn [trim_left].
  destruct (space_1 a); [cbn; lia |]. destruct s as [|b s]; [done |].
  destruct (space_2 a b); [specialize (IH2 _ _ eq_refl); cbn; lia |]. destruct s as [|c s]; [done |].
  destruct (space_3 a b c); [| done]. specialize (IH3 _ _ _ eq_refl). cbn. lia.
Qed.

Lemma trim_turned_shorter s : (String.length (trim_turned s) ≤ String.length s)%nat.
Proof.
  induction s as [|a s IH1 IH2 IH3] using string_ind3'; [done |]. cbn [trim_turned].
  destruct (space_1 a); [cbn; lia |]. destruct s as [|b s]; [done |].
  destruct (space_2 b a); [specialize (IH2 _ _ eq_refl); cbn; lia |]. destruct s as [|c s]; [done |].
  destruct (space_3 c b a); [| done]. specialize (IH3 _ _ _ eq_refl). cbn. lia.
Qed.

Lemma turned_length s : String.length (turned s) = String.length s.
Proof. induction s as [|c s IH]; [done |]. cbn [turned]. rewrite string_length_app, IH. cbn. lia. Qed.

Lemma TrimSpace_shorter s : slen (TrimSpace s) ≤ slen s.
Proof.
  unfold TrimSpace, slen. rewrite turned_length.
  pose proof (trim_turned_shorter (turned (trim_left s))) as H1. rewrite turned_length in H1.
  pose proof (trim_left_shorter s). lia.
Qed.

Lemma string_map_length f s : String.length (string_map f s) = String.length s.
Proof. induction s as [|c s IH]; cbn; [done | by rewrite IH]. Qed.

Lemma TrimSuffix_shorter s p : slen (TrimSuffix s p) ≤ slen s.
Proof.
  unfold TrimSuffix, slen. destruct (HasSuffix s p); [| done].
  rewrite string_take_length by lia. lia.
Qed.

Lemma text_shorter field v w most :
  0 ≤ most → slen w ≤ slen v → event_text field v most false = Ok tt → event_text field w most false = Ok tt.
Proof.
  unfold event_text. intros Hm Hw. repeat case_bool_decide; try done.
  - subst v. intros _. destruct (Z.ltb_spec most (slen w)); [| done]. change (slen "") with 0 in Hw. lia.
  - destruct (Z.ltb_spec most (slen v)); [done |]. intros _. destruct (Z.ltb_spec most (slen w)); [lia | done].
Qed.

(** *** Spaces are runes *)

Lemma string_app_cons (a : ascii) s : String a s = String a "" +:+ s.
Proof. done. Qed.

Lemma turned_app s t : turned (s +:+ t) = turned t +:+ turned s.
Proof.
  induction s as [|c s IH]; [by rewrite string_app_empty_r |].
  change (turned (String c s +:+ t)) with (turned (s +:+ t) +:+ String c ""). rewrite IH. cbn [turned]. by rewrite string_app_assoc.
Qed.

Lemma turned_twice s : turned (turned s) = s.
Proof. induction s as [|c s IH]; [done |]. cbn [turned]. rewrite turned_app, IH. done. Qed.

Ltac by_space := unfold space_1, space_2, space_3 in *; by_bytes.

Lemma trim_left_utf8 s : utf8 s → utf8 (trim_left s).
Proof.
  induction s as [|a s IH1 IH2 IH3] using string_ind3'; [done |]. cbn [trim_left]. intros Hu.
  destruct (space_1 a) eqn:H1; [inversion Hu; subst; [by apply IH1 | by_space ..] |].
  destruct s as [|b s]; [done |].
  destruct (space_2 a b) eqn:H2; [inversion Hu; subst; [by_space | by eapply IH2 | by_space ..] |].
  destruct s as [|c s]; [done |].
  destruct (space_3 a b c) eqn:H3; [inversion Hu; subst; [by_space | by_space | by eapply IH3 | by_space] | done].
Qed.

(** What is trimmed from the other end ends where a rune begins. *)
Lemma trim_turned_from s : ∃ p, s = p +:+ trim_turned s
  ∧ ∀ c t, turned p = String c t → continues c = false.
Proof.
  assert (∀ q p a, continues a = false → (∀ c t, turned p = String c t → continues c = false) →
    ∀ c t, turned (q +:+ (String a p)) = String c t → continues c = false) as Hfirst.
  { intros q p a Ha Hp c t. rewrite turned_app. cbn [turned]. destruct (turned p) as [|c' t'].
    - cbn. intros [= <- _]. done.
    - cbn. intros [= <- _]. by eapply Hp. }
  induction s as [|a s IH1 IH2 IH3] using string_ind3'; [by exists "" |]. cbn [trim_turned].
  destruct (space_1 a) eqn:H1.
  { destruct IH1 as (p & Hs & Hp). exists (String a p). split; [by rewrite Hs at 1 |].
    apply (Hfirst "" p a); [| done]. destruct (continues a) eqn:?; [by_space | done]. }
  destruct s as [|b s]; [by exists "" |]. destruct (space_2 b a) eqn:H2.
  { destruct (IH2 _ _ eq_refl) as (p & Hs & Hp). exists (String a (String b p)). split; [by rewrite Hs at 1 |].
    apply (Hfirst (String a "") p b); [| done]. destruct (continues b) eqn:?; [by_space | done]. }
  destruct s as [|c s]; [by exists "" |]. destruct (space_3 c b a) eqn:H3; [| by exists ""].
  destruct (IH3 _ _ _ eq_refl) as (p & Hs & Hp). exists (String a (String b (String c p))). split; [by rewrite Hs at 1 |].
  apply (Hfirst (String a (String b "")) p c); [| done]. destruct (continues c) eqn:?; [by_space | done].
Qed.

Lemma TrimSpace_utf8 s : utf8 s → utf8 (TrimSpace s).
Proof.
  intros Hu%trim_left_utf8. unfold TrimSpace.
  destruct (trim_turned_from (turned (trim_left s))) as (p & Hs & Hp).
  apply (utf8_before _ (turned p)); [| exact Hp]. rewrite <- turned_app, <- Hs. by rewrite turned_twice.
Qed.

(** The lower case of a letter is a letter. *)
Class UnicodeLaws `{UnicodeCase} : Prop := {
  Unicode_lower_rune r : a_rune r → a_rune (Unicode_lower r);
}.

Section kept.
Context `{UnicodeCase, !UnicodeLaws, EventContract}.

Lemma unicode_ToLower_rune r : a_rune r → a_rune (unicode_ToLower r).
Proof.
  intros Hr. unfold unicode_ToLower. destruct (Z.leb_spec r 127); [| by apply Unicode_lower_rune].
  destruct ((65 <=? r) && (r <=? 90)) eqn:Hl; [| done]. apply andb_true_iff in Hl as [Hl Hh]. apply Z.leb_le in Hl, Hh.
  unfold a_rune. rewrite (proj1 (RuneLen_spec (r + 32))) by lia. lia.
Qed.

(** The guard of [lower] is why what it makes of a text is no longer. *)
Lemma lower_kept r : a_rune r → a_rune (lower r) ∧ RuneLen (lower r) ≤ RuneLen r.
Proof.
  intros Hr. unfold lower. cbv zeta. destruct (Z.leb_spec (RuneLen (unicode_ToLower r)) (RuneLen r)); [| done].
  split; [by apply unicode_ToLower_rune | done].
Qed.

(** Folding byte by byte what is ASCII is folding it letter by letter. *)
Lemma folding_bytes_is_folding_letters s : ascii_only s = true → ToLower s = strings_Map lower s.
Proof.
  unfold strings_Map. induction s as [|a s IH]; [done |]. unfold ascii_only in *. cbn [made_of runes]. intros [Ha Hs]%andb_true_iff.
  assert (between 0 127 a = true) as Hb by (apply N.ltb_lt in Ha; unfold between; by_bytes). rewrite Hb. cbn [write_runes].
  rewrite <- (IH Hs). assert (0 ≤ Z.of_N (byte a) ∧ AppendRune (lower (Z.of_N (byte a))) = String (lower_char a) "" ∧ lower (Z.of_N (byte a)) <? 0 = false) as (_ & -> & ->).
  { clear - Hb. destruct a as [[] [] [] [] [] [] [] []]; try discriminate Hb; vm_compute; split_and!; done. }
  done.
Qed.

Lemma event_fold_kept s : ValidString s = true →
  slen (event_fold s) ≤ slen s ∧ (TrimSpace s ≠ "" → event_fold s ≠ "").
Proof.
  intros Hv%ValidString_spec%TrimSpace_utf8. unfold event_fold. cbv zeta. pose proof (TrimSpace_shorter s) as Ht.
  destruct (ascii_only (TrimSpace s)).
  - unfold ToLower, slen in *. rewrite string_map_length. split; [done |]. by destruct (TrimSpace s).
  - destruct (strings_Map_shorter lower _ Hv lower_kept). split; [lia | done].
Qed.

Lemma event_fold_shorter s : ValidString s = true → slen (event_fold s) ≤ slen s.
Proof. apply event_fold_kept. Qed.

Lemma canonical_hostname_shorter s : ValidString s = true → slen (canonical_hostname s) ≤ slen s.
Proof. intros Hv. unfold canonical_hostname. pose proof (TrimSuffix_shorter (event_fold s) "."). pose proof (event_fold_shorter s Hv). lia. Qed.

(** What the contract takes of the library: the one form of an address is an
    address, and no text but an address's form is empty. *)
Class AddressLaws : Prop := {
  Unmap_String_parses a : is_Some (ParseAddr (Unmap_String a));
}.

Context `{!AddressLaws}.

Lemma canonical_address_ok field s :
  TrimSpace s = s → event_address field s = Ok tt → event_address field (canonical_address s) = Ok tt.
Proof.
  intros Ht. unfold event_address, canonical_address. rewrite Ht. cbv zeta. case_bool_decide as Hs.
  { subst s. intros _. destruct (ParseAddr "") as [a|]; [| done].
    destruct (Z.leb_spec (slen (Unmap_String a)) MaxAddressLength) as [Hl|]; [| done].
    case_bool_decide; [done |]. rewrite (proj2 (Z.ltb_ge _ _)) by done.
    by destruct (Unmap_String_parses a) as [? ->]. }
  destruct (Z.ltb_spec MaxAddressLength (slen s)) as [|Hb]; [done |].
  destruct (ParseAddr s) as [a|] eqn:Hp; [| done]. intros _.
  destruct (Z.leb_spec (slen (Unmap_String a)) MaxAddressLength) as [Hl|].
  - case_bool_decide; [done |]. rewrite (proj2 (Z.ltb_ge _ _)) by done.
    by destruct (Unmap_String_parses a) as [? ->].
  - rewrite bool_decide_false by done. rewrite (proj2 (Z.ltb_ge _ _)) by done. by rewrite Hp.
Qed.

Lemma checks_both {E} (m k : result E unit) : (m ;; k)%go = Ok tt ↔ m = Ok tt ∧ k = Ok tt.
Proof. destruct m as [[]|]; cbn; naive_solver. Qed.

Definition bare (s : string) : Prop := TrimSpace s = s.
Definition bare_endpoint (p : option EndpointPart) : Prop := ∀ e, p = Some e → bare (en_ip e).

(** The texts that are folded are UTF-8, as every string of a protobuf message is. *)
Definition written_host (h : HostPart) : Prop :=
  ValidString (ho_hostname h) = true ∧ ValidString (ho_os h) = true ∧ ValidString (ho_architecture h) = true.
Definition written_body (a : AuthenticationBody) : Prop :=
  ValidString (au_method a) = true
  ∧ (∀ u, au_user a = Some u → ValidString (us_domain u) = true)
  ∧ (∀ v, au_service a = Some v → ValidString (sv_name v) = true ∧ ValidString (sv_protocol v) = true).
Definition written_in_utf8 (e : EventMessage) : Prop :=
  (∀ o h, em_origin e = Some o → or_host o = Some h → written_host h)
  ∧ (∀ c, em_collection e = Some c → ValidString (co_collector c) = true)
  ∧ (∀ a, em_authentication e = Some a → written_body a).

(** Nothing surrounds an address, and the collector is not space alone. *)
Definition plainly_written (e : EventMessage) : Prop :=
  (∀ o h, em_origin e = Some o → or_host o = Some h → bare (ho_ip h))
  ∧ (∀ c, em_collection e = Some c → TrimSpace (co_collector c) ≠ "")
  ∧ (∀ a n, em_authentication e = Some a → au_network a = Some n →
       bare_endpoint (nw_source n) ∧ bare_endpoint (nw_destination n)).

Lemma endpoint_kept field p :
  bare_endpoint p → event_endpoint field p = Ok tt → event_endpoint field (normalize_endpoint p).1 = Ok tt.
Proof.
  intros Hb. destruct p as [p|]; [| done]. cbn [normalize_endpoint set_field fst event_endpoint en_ip en_port].
  rewrite !checks_both. intros [Hip Hport]. split; [| done]. apply canonical_address_ok; [by apply Hb | done].
Qed.

Ltac shorten := eapply text_shorter; [done | | eassumption];
  first [by apply event_fold_shorter | apply TrimSpace_shorter | by apply canonical_hostname_shorter].

Lemma origin_kept o :
  (∀ p h, o = Some p → or_host p = Some h → bare (ho_ip h)) →
  (∀ p h, o = Some p → or_host p = Some h → written_host h) →
  ValidateOrigin o = Ok tt → ValidateOrigin (normalize_origin o).1 = Ok tt.
Proof.
  intros Hb Hw. destruct o as [[tn ag [h|]]|]; [| done | done]. specialize (Hb _ h eq_refl eq_refl).
  destruct (Hw _ h eq_refl eq_refl) as (Wn & Wo & Wa).
  cbn [normalize_origin set_field fst ValidateOrigin or_host or_agent or_tenant].
  destruct (negb (AgentIDValid ag)); [done |].
  rewrite !checks_both. intros (Ht & Hn & Hip & Hos & Har).
  split_and!; [done | shorten | by apply canonical_address_ok | shorten | shorten].
Qed.

Lemma collection_kept c :
  (∀ p, c = Some p → TrimSpace (co_collector p) ≠ "") → (∀ p, c = Some p → ValidString (co_collector p) = true) →
  ValidateCollection c = Ok tt →
  ValidateCollection (normalize_collection c).1 = Ok tt.
Proof.
  intros Hb Hw. destruct c as [[co so sq]|]; [| done]. specialize (Hb _ eq_refl). specialize (Hw _ eq_refl). cbn in Hb, Hw.
  cbn [normalize_collection set_field fst ValidateCollection co_collector co_source]. rewrite !checks_both.
  intros [Hc Hs]. split; [| done]. apply (event_fold_kept co Hw) in Hb. revert Hc. unfold event_text.
  rewrite (bool_decide_false (event_fold co = "")) by done. case_bool_decide; [done |].
  pose proof (event_fold_shorter co Hw).
  destruct (Z.ltb_spec MaxCollectorLength (slen co)); [done |].
  destruct (Z.ltb_spec MaxCollectorLength (slen (event_fold co))); [lia | done].
Qed.

Lemma network_kept n :
  (∀ p, n = Some p → bare_endpoint (nw_source p) ∧ bare_endpoint (nw_destination p)) →
  validateNetwork n = Ok tt → validateNetwork (normalize_network n).1 = Ok tt.
Proof.
  intros Hb. destruct n as [[tr src dst]|]; [| done]. destruct (Hb _ eq_refl) as [Hs Hd].
  cbn [normalize_network fst validateNetwork nw_source nw_destination nw_transport].
  destruct (negb (Transport_named tr)); [done |]. rewrite !checks_both. intros [H1' H2'].
  by split; apply endpoint_kept.
Qed.

Lemma body_kept a :
  (∀ n, au_network a = Some n → bare_endpoint (nw_source n) ∧ bare_endpoint (nw_destination n)) → written_body a →
  validateAuthentication a = Ok tt → validateAuthentication (normalizeBody a).1 = Ok tt.
Proof.
  intros Hb (Wm & Wu & Ws). destruct a as [act out why method user service network raw]. unfold validateAuthentication, normalizeBody.
  cbn [set_field fst au_activity au_outcome au_outcome_reason au_method au_user au_service au_network au_raw_record] in *.
  rewrite !checks_both. intros (Ha & Ho & Hw & Hm & Hu & Hs & Hn & Hr).
  split_and!; [done | done | done | shorten | | | by apply network_kept | done].
  - destruct user as [u|]; [| done]. specialize (Wu u eq_refl). cbn [normalize_user set_field fst validateUser us_name us_domain us_uid] in *.
    rewrite !checks_both in Hu |- *. destruct Hu as (Hu1 & Hu2 & Hu3). split_and!; shorten.
  - destruct service as [v|]; [| done]. destruct (Ws v eq_refl) as [Wn Wp]. cbn [normalize_service set_field fst validateService sv_name sv_protocol] in *.
    rewrite !checks_both in Hs |- *. destruct Hs as (Hs1 & Hs2). split_and!; shorten.
Qed.

(** C33. The canonical form of an event the contract takes is one it takes too, whatever
    the lower case of a letter beyond ASCII is, when the event's texts are UTF-8, no space
    surrounds its addresses and its collector is not space alone. *)
Theorem canonical_events_hold_to_the_contract e :
  plainly_written e → written_in_utf8 e → ValidateContract (Some e) = Ok tt →
  ValidateContract (Some (normalizeAuthentication e).1) = Ok tt.
Proof.
  intros (Ho & Hc & Ha) (Wo & Wc & Wa). destruct e as [id schema class times origin collection reception auth].
  unfold normalizeAuthentication, normalizeEnvelope. cbn [em_origin em_collection em_authentication] in *.
  cbn [ValidateContract]. unfold held_to_contract.
  cbn [em_id em_schema em_class em_time em_origin em_collection em_reception em_authentication].
  rewrite !checks_both. intros (H1' & H2' & H3' & H4' & H5' & H6' & H7').
  pose proof (origin_kept _ Ho Wo H4') as Hok. pose proof (collection_kept _ Hc Wc H5') as Hck.
  unfold validateBody in *. cbn [em_class em_authentication] in *.
  destruct (class =? EVENT_CLASS_AUTHENTICATION) eqn:Hclass; [| done].
  destruct auth as [a|]; [| done]. pose proof (body_kept a (λ n, Ha a n eq_refl) (Wa a eq_refl) H7') as Hbk.
  destruct (normalizeBody a) as [a' changed]. cbn [fst em_id em_schema em_class em_time em_origin em_collection
    em_reception em_authentication] in *.
  rewrite Hclass. by split_and!.
Qed.

(** An event whose collector is space alone. *)
Definition spaced_event (activity outcome : Z) : EventMessage :=
  mkEventMessage "evt-00001" 1 EVENT_CLASS_AUTHENTICATION
    (Some (mkTimesPart (Some (mkWireTime 0 0)) (Some (mkWireTime 0 0))))
    (Some (mkOriginPart "acme" "host-1" None)) (Some (mkCollectionPart "  " "" 0)) None
    (Some (mkAuthenticationBody activity outcome "" "" None None None "")).

(** The contract asks for a collector and takes spaces for one, and the canonical
    form of spaces is nothing: the engine's rewriting turns an event the contract
    takes into one it refuses. *)
Theorem a_canonical_event_may_break_the_contract activity outcome :
  activity ≠ 0 → outcome ≠ 0 → Activity_named activity = true → Outcome_named outcome = true →
  ValidateContract (Some (spaced_event activity outcome)) = Ok tt
  ∧ ValidateContract (Some (normalizeAuthentication (spaced_event activity outcome)).1)
    = Err (mkEventViolation "collection.collector" IsRequired).
Proof.
  intros Ha Ho Hna Hno. split.
  - cbn [ValidateContract]. unfold held_to_contract. rewrite !checks_both. split_and!; try (vm_compute; reflexivity).
    unfold validateBody. cbn. unfold validateAuthentication, event_declared.
    cbn [au_activity au_outcome au_outcome_reason au_method au_user au_service au_network au_raw_record].
    rewrite (proj2 (Z.eqb_neq activity 0)), (proj2 (Z.eqb_neq outcome 0)), Hna, Hno by done. reflexivity.
  - vm_compute. reflexivity.
Qed.

(** A name that ends in more than one dot loses one each time it is rewritten. *)
Example dots_are_lost_one_by_one :
  canonical_hostname "WEB-01.." = "web-01." ∧ canonical_hostname (canonical_hostname "WEB-01..") = "web-01".
Proof. split; vm_compute; reflexivity. Qed.
End kept.
