(* ===== verification/Ingest.v ===== *)
(** * The gateway: who a batch is from, what it holds and what is published

    ingest/admission.go, capacity.go, currency.go, weight.go and http.go, over the
    stream of events. A request goes from its verified certificate through the
    roster, the limiter and the capacity to the backbone; the backbone, the
    protobuf decoder, protowire and the media type parser are parameters, and
    metrics, logs and the prose of a refusal are not modelled. *)

From Stdlib Require Import ZArith Lia Ascii Floats.SpecFloat.
From stdpp Require Import base tactics option gmap strings pretty sorting numbers list.
From S2P Require Import Prelude Text Scan Agent Authz Session Limiter Event.


(** ** Admission (admission.go) *)

Inductive RejectionCode :=
| CodeEmptyBatch | CodeBatchTooLarge | CodeMalformedBatchID | CodeUnsupportedProtocol | CodeInvalidEvent
| CodeMalformedPayload.

Record Rejection := mkRejection { rj_code : RejectionCode; rj_field : string; rj_index : Z }.

Inductive AdmitError := Rejected (r : Rejection) | BackboneUnavailable.

Record EventBatch := mkEventBatch { eb_protocol : Z; eb_id : string; eb_events : list EventMessage }.

Record AdmissionPolicy := mkAdmissionPolicy { ap_gateway : string; ap_maxEvents : Z; ap_event : EventPolicy }.

Definition protocol_Supported (version : Z) : bool := (1 <=? version) && (version <=? 1).

Definition batch_identifier (value : string) : bool :=
  negb (bool_decide (value = "")) && negb (MaxBatchIDLength <? slen value) && ValidIdentifier value.

(** Agent, tenant and reception are assigned, whatever the producer wrote there. *)
Definition stamp_event (e : EventMessage) (agent tenant : string) (reception : ReceptionPart) : EventMessage :=
  mkEventMessage (em_id e) (em_schema e) (em_class e) (em_time e)
    (Some (mkOriginPart tenant agent (o ← em_origin e; or_host o))) (em_collection e) (Some reception)
    (em_authentication e).

Section admission.
Context `{EventContract}.

(** The loop of [Admit]: each event stamped, then held to the contract. *)
Fixpoint admit_events (index : Z) (agent tenant : string) (reception : ReceptionPart) (received : instant)
    (p : EventPolicy) (events : list EventMessage) : result Rejection (list EventMessage) :=
  match events with
  | [] => Ok []
  | record :: events =>
      let record := stamp_event record agent tenant reception in
      match event_Validate record received p with
      | Err v => Err (mkRejection CodeInvalidEvent (ev_field v) index)
      | Ok _ =>
          match admit_events (index + 1) agent tenant reception received p events with
          | Err r => Err r
          | Ok rest => Ok (record :: rest)
          end
      end
  end.

Definition whole_batch (code : RejectionCode) (field : string) : AdmitError := Rejected (mkRejection code field (-1)).

(** What was handed to the backbone, if anything was, and how many events it took.
    [publish] is the backbone's answer to a batch. *)
Definition Admit (policy : AdmissionPolicy) (publish : list EventMessage → bool) (agent tenant : string)
    (now : instant) (batch : EventBatch) : option (list EventMessage) * result AdmitError Z :=
  let events := eb_events batch in
  if len events =? 0 then (None, Err (whole_batch CodeEmptyBatch ""))
  else if ap_maxEvents policy <? len events then (None, Err (whole_batch CodeBatchTooLarge ""))
  else if negb (protocol_Supported (eb_protocol batch)) then (None, Err (whole_batch CodeUnsupportedProtocol ""))
  else if negb (batch_identifier (eb_id batch)) then (None, Err (whole_batch CodeMalformedBatchID "batch_id"))
  else
    let reception := mkReceptionPart now (ap_gateway policy) (eb_id batch) in
    match admit_events 0 agent tenant reception now (ap_event policy) events with
    | Err r => (None, Err (Rejected r))
    | Ok stamped =>
        if publish stamped then (Some stamped, Ok (uint32 (len stamped)))
        else (Some stamped, Err BackboneUnavailable)
    end.
End admission.

(** ** What the process holds (capacity.go) *)

(** A reservation is its place in the list: what it holds, and whether it was
    released. *)
Record GatewayCapacity := mkGatewayCapacity {
  gc_bytes : Z; gc_requests : Z; gc_held : Z; gc_inflight : Z; gc_reservations : list (Z * bool) }.

Definition NewGatewayCapacity (bytes requests : Z) : option GatewayCapacity :=
  if (bytes <=? 0) || (requests <=? 0) then None else Some (mkGatewayCapacity bytes requests 0 0 []).

Definition reserve (bytes : Z) (c : GatewayCapacity) : option (GatewayCapacity * nat) :=
  if (gc_requests c <=? gc_inflight c) || (gc_bytes c <? int64 (gc_held c + bytes)) then None
  else Some (mkGatewayCapacity (gc_bytes c) (gc_requests c) (int64 (gc_held c + bytes)) (gc_inflight c + 1)
               (gc_reservations c ++ [(bytes, false)]), length (gc_reservations c)).

Definition reservation_Resize (r : nat) (bytes : Z) (c : GatewayCapacity) : GatewayCapacity * bool :=
  match gc_reservations c !! r with
  | Some (had, false) =>
      if gc_bytes c <? int64 (gc_held c - had + bytes) then (c, false)
      else (mkGatewayCapacity (gc_bytes c) (gc_requests c) (int64 (gc_held c + (bytes - had))) (gc_inflight c)
              (<[r := (bytes, false)]> (gc_reservations c)), true)
  | _ => (c, false)
  end.

Definition reservation_Release (r : nat) (c : GatewayCapacity) : GatewayCapacity :=
  match gc_reservations c !! r with
  | Some (had, false) =>
      mkGatewayCapacity (gc_bytes c) (gc_requests c) (int64 (gc_held c - had)) (gc_inflight c - 1)
        (<[r := (had, true)]> (gc_reservations c))
  | _ => c
  end.

(** ** Whether the roster is recent enough to admit by (currency.go) *)

(** [cu_confirmed] is in nanoseconds of Unix time, zero before the first answer. *)
Record Currency := mkCurrency { cu_staleAfter : duration; cu_started : instant; cu_confirmed : Z }.

Definition NewCurrency (every staleAfter : duration) (now : instant) : option Currency :=
  if every <=? 0 then None
  else if staleAfter <? 2 * every then None
  else Some (mkCurrency staleAfter now 0).

Definition unix_zero : instant := unix_seconds * second.
Definition UnixNano (t : instant) : Z := int64 (t - unix_zero).

(** What asking the log found: it could not be reached, it held records the roster
    had not applied, or it held none. *)
Inductive Checked := Unreachable | Behind (records : Z).

Definition Confirm (asked : instant) (found : Checked) (c : Currency) : Currency :=
  match found with
  | Unreachable => c
  | Behind records =>
      if 0 <? records then c else mkCurrency (cu_staleAfter c) (cu_started c) (UnixNano asked)
  end.

Definition currency_age (now : instant) (c : Currency) : duration :=
  if 0 <? cu_confirmed c then time_sub now (unix_zero + cu_confirmed c) else time_sub now (cu_started c).

Definition Stale (now : instant) (c : Currency) : bool :=
  (cu_confirmed c =? 0) || (cu_staleAfter c <? currency_age now c).

(** ** What decoding a body would allocate (weight.go) *)

Inductive WireType := VarintType | Fixed64Type | BytesType | Fixed32Type | GroupType (start : bool).
#[global] Instance WireType_eq_dec : EqDecision WireType.
Proof. solve_decision. Defined.

(** protowire: a tag, a length-delimited value and any value, each with the bytes
    it took. *)
Class Protowire := {
  ConsumeTag : string → option (Z * WireType * nat);
  ConsumeBytes : string → option (string * nat);
  ConsumeFieldValue : Z → WireType → string → option nat;
}.

Definition growth : Z := 8.
Definition slot : Z := 24.
Definition wrapper : Z := 24.
Definition DefaultRecursionLimit : nat := 10000.

(** A message's shape: what its struct takes, and what each field declared in it
    is. [weighed_message] names the shape of the field's own message. *)
Record weighed_field := mkWeighedField {
  wf_wire : WireType; wf_list : bool; wf_oneof : bool; wf_text : bool; wf_message : option string }.
Record shape := mkShape { sh_size : Z; sh_fields : Z → option weighed_field }.

Definition allocation (size : Z) : Z := if size =? 0 then 0 else size + Z.quot size 4 + 16.

Section weigher.
Context `{Protowire} (shapes : string → shape).

(** [depth] counts down as the source's does; every turn of the loop takes a byte
    at least, so the payload bounds its turns ([fuel]). *)
Fixpoint weigh_shape (depth : nat) : nat → string → string → option Z :=
  match depth with
  | O => λ _ _ _, None
  | S depth =>
      fix weigh_fields (fuel : nat) (message payload : string) : option Z :=
        match payload, fuel with
        | EmptyString, _ => Some 0
        | _, O => None
        | _, S fuel =>
            '(number, kind, tagged) ← ConsumeTag payload;
            '(inner, valued) ← (if bool_decide (kind = BytesType) then ConsumeBytes (string_drop tagged payload)
                                else (λ valued, ("", valued)) <$> ConsumeFieldValue number kind (string_drop tagged payload));
            let rest := string_drop (tagged + valued) payload in
            let described := sh_fields (shapes message) number in
            let oneof := match described with Some f => if wf_oneof f then allocation wrapper else 0 | None => 0 end in
            one ← match described with
                  | None => Some (growth * Z.of_nat (tagged + valued))
                  | Some f =>
                      let packed := wf_list f && bool_decide (kind = BytesType) && negb (bool_decide (wf_wire f = BytesType)) in
                      let repeated := if wf_list f then growth * slot else 0 in
                      if negb (bool_decide (kind = wf_wire f)) && negb packed then Some (growth * Z.of_nat (tagged + valued))
                      else match wf_message f with
                           | Some nested =>
                               weight ← weigh_shape depth (String.length inner) nested inner;
                               Some (sh_size (shapes nested) + weight + repeated)
                           | None =>
                               if wf_text f then Some (allocation (slen inner) + repeated)
                               else if packed then Some (growth * slot * slen inner)
                               else Some repeated
                           end
                  end;
            others ← weigh_fields fuel message rest;
            Some (oneof + one + others)
        end
  end.

Definition weigh (root payload : string) : option Z :=
  weight ← weigh_shape DefaultRecursionLimit (String.length payload) root payload;
  Some (sh_size (shapes root) + weight).
End weigher.

(** ** A request (http.go) *)

Record GatewayRequest := mkGatewayRequest {
  gr_chains : list (list string); gr_content_type : string; gr_content_length : Z; gr_body : option string }.

Inductive GatewayResponse :=
| GatewayRefused (status : Z) (code : string) (index : Z) (retry_after : option Z)
| Acknowledged (received : Z).

Definition rejection_code (c : RejectionCode) : string :=
  match c with
  | CodeEmptyBatch => "empty_batch" | CodeBatchTooLarge => "batch_too_large"
  | CodeMalformedBatchID => "malformed_batch_id" | CodeUnsupportedProtocol => "unsupported_protocol_version"
  | CodeInvalidEvent => "invalid_event" | CodeMalformedPayload => "malformed_payload"
  end.

Definition refuseAdmission (e : AdmitError) : GatewayResponse :=
  match e with
  | Rejected r =>
      GatewayRefused (match rj_code r with CodeUnsupportedProtocol => 426 | CodeMalformedPayload => 400 | _ => 422 end)
        (rejection_code (rj_code r)) (rj_index r) None
  | BackboneUnavailable => GatewayRefused 503 "backbone_unavailable" (-1) (Some 5)
  end.

Definition refuseAtCapacity : GatewayResponse := GatewayRefused 503 "gateway_at_capacity" (-1) (Some 1).

Definition refuseUnadmitted (roster : Roster) (agent : string) : GatewayResponse :=
  GatewayRefused 403 (if Knows agent roster then "agent_not_admitted" else "agent_not_registered") (-1) None.

Definition reserving (maxBodyBytes contentLength : Z) : Z :=
  if (contentLength <=? 0) || (maxBodyBytes <? contentLength) then maxBodyBytes else contentLength.

Section gateway.
Context {rate : RateLimiter} `{EventContract, Protowire} (MediaType : string → option string).
Context (Unmarshal_batch : string → option EventBatch) (shapes : string → shape) (root : string).

(** What a gateway's requests share. *)
Record Gateway := mkGateway {
  gw_policy : AdmissionPolicy; gw_maxBody : Z; gw_roster : Roster; gw_currency : Currency;
  gw_limiter : option Limiter; gw_capacity : GatewayCapacity }.

Definition with_limiter (g : Gateway) (l : option Limiter) : Gateway :=
  mkGateway (gw_policy g) (gw_maxBody g) (gw_roster g) (gw_currency g) l (gw_capacity g).
Definition with_capacity (g : Gateway) (c : GatewayCapacity) : Gateway :=
  mkGateway (gw_policy g) (gw_maxBody g) (gw_roster g) (gw_currency g) (gw_limiter g) c.

Definition takes_protobuf (contentType : string) : bool :=
  match MediaType contentType with
  | Some m => bool_decide (m = "application/x-protobuf") || bool_decide (m = "application/protobuf")
  | None => false
  end.

(** The batch once its body is read: weighed, held, decoded and admitted. *)
Definition take_body (publish : list EventMessage → bool) (agent tenant : string) (now : instant)
    (body : option string) (reservation : nat) (g : Gateway)
    : GatewayCapacity * option (list EventMessage) * GatewayResponse :=
  match body with
  | None => (gw_capacity g, None, GatewayRefused 400 "unreadable_body" (-1) None)
  | Some payload =>
      if gw_maxBody g <? slen payload then (gw_capacity g, None, GatewayRefused 413 "batch_body_too_large" (-1) None)
      else match weigh shapes root payload with
      | None => (gw_capacity g, None, refuseAdmission (whole_batch CodeMalformedPayload ""))
      | Some weight =>
          let holding := slen payload + weight in
          if gc_bytes (gw_capacity g) <? holding then (gw_capacity g, None, GatewayRefused 413 "batch_too_large" (-1) None)
          else
            let '(capacity, resized) := reservation_Resize reservation holding (gw_capacity g) in
            if negb resized then (capacity, None, refuseAtCapacity)
            else match Unmarshal_batch payload with
                 | None => (capacity, None, refuseAdmission (whole_batch CodeMalformedPayload ""))
                 | Some batch =>
                     match Admit (gw_policy g) publish agent tenant now batch with
                     | (published, Err e) => (capacity, published, refuseAdmission e)
                     | (published, Ok received) => (capacity, published, Acknowledged received)
                     end
                 end
      end
  end.

Definition gateway_ServeHTTP (publish : list EventMessage → bool) (now : instant) (r : GatewayRequest) (g : Gateway)
    : Gateway * option (list EventMessage) * GatewayResponse :=
  match FromConnection (gr_chains r) with
  | None => (g, None, GatewayRefused 403 "unauthenticated_agent" (-1) None)
  | Some agent =>
      if Stale now (gw_currency g) then (g, None, GatewayRefused 503 "roster_stale" (-1) (Some 5))
      else match roster_Tenant agent (gw_roster g) with
      | None => (g, None, refuseUnadmitted (gw_roster g) agent)
      | Some tenant =>
          let '(limiter, allowed) := Allow agent now (gw_limiter g) in
          let g := with_limiter g limiter in
          if negb allowed then (g, None, GatewayRefused 429 "rate_limited" (-1) (Some 1))
          else if negb (takes_protobuf (gr_content_type r)) then (g, None, GatewayRefused 415 "unsupported_media_type" (-1) None)
          else match reserve (reserving (gw_maxBody g) (gr_content_length r)) (gw_capacity g) with
          | None => (g, None, refuseAtCapacity)
          | Some (capacity, reservation) =>
              let '(capacity, published, response) :=
                take_body publish agent tenant now (gr_body r) reservation (with_capacity g capacity) in
              (with_capacity g (reservation_Release reservation capacity), published, response)
          end
      end
  end.
End gateway.

(** * What the gateway promises: whose telemetry is published, and what it holds *)


(** ** What the process holds *)

Definition unreleased (l : list (Z * bool)) : list (Z * bool) := filter (λ r, r.2 = false) l.
Definition total (l : list (Z * bool)) : Z := foldr (λ r sum, r.1 + sum) 0 (unreleased l).

(** What is held is what the reservations not yet released ask for, within bounds
    far from the ends of 64 bits. *)
Definition holds_within (c : GatewayCapacity) : Prop :=
  0 < gc_bytes c < 2 ^ 62 ∧ gc_held c = total (gc_reservations c)
  ∧ gc_inflight c = len (unreleased (gc_reservations c))
  ∧ Forall (λ r, 0 ≤ r.1) (gc_reservations c)
  ∧ gc_held c ≤ gc_bytes c ∧ gc_inflight c ≤ gc_requests c.

Lemma total_released b l : total ((b, true) :: l) = total l ∧ unreleased ((b, true) :: l) = unreleased l.
Proof. unfold total, unreleased. by rewrite filter_cons_False. Qed.

Lemma total_kept b l : total ((b, false) :: l) = b + total l ∧ unreleased ((b, false) :: l) = (b, false) :: unreleased l.
Proof. unfold total, unreleased. by rewrite filter_cons_True. Qed.

Lemma total_nonneg l : Forall (λ r, 0 ≤ r.1) l → 0 ≤ total l.
Proof.
  induction 1 as [|[b []] l Hb Hl IH]; [done | by destruct (total_released b l) as [-> _] |].
  destruct (total_kept b l) as [-> _]. cbn in Hb. lia.
Qed.

Lemma total_app l b : total (l ++ [(b, false)]) = total l + b ∧ len (unreleased (l ++ [(b, false)])) = len (unreleased l) + 1.
Proof.
  induction l as [|[x []] l [IH1 IH2]]; cbn [app].
  - split; [by destruct (total_kept b []) as [-> _]; change (total []) with 0; lia | done].
  - by destruct (total_released x (l ++ [(b, false)])) as [-> ->], (total_released x l) as [-> ->].
  - destruct (total_kept x (l ++ [(b, false)])) as [-> ->], (total_kept x l) as [-> ->].
    unfold len in *. cbn [length]. split; lia.
Qed.

Lemma total_insert (l : list (Z * bool)) i had b (released : bool) :
  l !! i = Some (had, false) →
  total (<[i := (b, released)]> l) = total l - had + (if released then 0 else b)
  ∧ len (unreleased (<[i := (b, released)]> l)) = len (unreleased l) - (if released then 1 else 0).
Proof.
  revert i. induction l as [|[x []] l IH]; intros [|i] Hi; try done.
  - change (<[S i := (b, released)]> ((x, true) :: l)) with ((x, true) :: <[i := (b, released)]> l).
    destruct (total_released x l) as [-> ->], (total_released x (<[i := (b, released)]> l)) as [-> ->]. by apply IH.
  - injection Hi as ->. change (<[O := (b, released)]> ((had, false) :: l)) with ((b, released) :: l).
    destruct (total_kept had l) as [-> ->].
    destruct released; [destruct (total_released b l) as [-> ->] | destruct (total_kept b l) as [-> ->]];
      unfold len; cbn [length]; lia.
  - change (<[S i := (b, released)]> ((x, false) :: l)) with ((x, false) :: <[i := (b, released)]> l).
    destruct (total_kept x l) as [-> ->], (total_kept x (<[i := (b, released)]> l)) as [-> ->].
    destruct (IH i Hi). unfold len in *. cbn [length]. lia.
Qed.

Lemma reserve_ok bytes c c' r :
  0 ≤ bytes ≤ gc_bytes c → holds_within c → reserve bytes c = Some (c', r) →
  holds_within c' ∧ gc_reservations c' !! r = Some (bytes, false) ∧ gc_bytes c' = gc_bytes c
  ∧ gc_held c' = gc_held c + bytes ∧ gc_inflight c' = gc_inflight c + 1.
Proof.
  intros Hb (Hw & Hh & Hi & Hall & Hc & Hr). pose proof (total_nonneg _ Hall). unfold reserve.
  rewrite int64_id by lia.
  destruct (Z.leb_spec (gc_requests c) (gc_inflight c)); [done |].
  destruct (Z.ltb_spec (gc_bytes c) (gc_held c + bytes)); [done |]. cbn [orb]. intros [= <- <-].
  unfold holds_within. cbn [gc_bytes gc_requests gc_held gc_inflight gc_reservations].
  destruct (total_app (gc_reservations c) bytes) as [-> ->]. rewrite list_lookup_middle by done. split_and!; try done; try lia.
  apply Forall_app. split; [done |]. by repeat constructor; cbn; lia.
Qed.

Lemma resize_ok r bytes c :
  0 ≤ bytes ≤ gc_bytes c → holds_within c →
  let '(c', resized) := reservation_Resize r bytes c in
  holds_within c' ∧ gc_bytes c' = gc_bytes c ∧ gc_inflight c' = gc_inflight c
  ∧ (∀ had, gc_reservations c !! r = Some (had, false) →
       ∃ now, gc_reservations c' !! r = Some (now, false) ∧ gc_held c' = gc_held c - had + now).
Proof.
  intros Hb (Hw & Hh & Hi & Hall & Hc & Hr). pose proof (total_nonneg _ Hall) as Hnn. unfold reservation_Resize.
  destruct (gc_reservations c !! r) as [[had []]|] eqn:Hl.
  1,3: by split_and!.
  destruct (total_insert _ _ _ bytes false Hl) as [Ht Hn].
  assert (0 ≤ had) as Hhad by (rewrite Forall_lookup in Hall; by apply (Hall _ _ Hl)).
  assert (had ≤ gc_held c) as Hle.
  { destruct (total_insert _ _ _ 0 false Hl) as [H0 _]. assert (0 ≤ total (<[r:=(0, false)]> (gc_reservations c))).
    { apply total_nonneg, Forall_insert; done. } lia. }
  rewrite !int64_id by lia.
  destruct (Z.ltb_spec (gc_bytes c) (gc_held c - had + bytes)).
  { split_and!; try done. intros ? [= <-]. exists had. split; [done | lia]. }
  unfold holds_within. cbn [gc_bytes gc_requests gc_held gc_inflight gc_reservations].
  split_and!; try done; try lia.
  - apply Forall_insert; [done | cbn; lia].
  - intros ? [= <-]. exists bytes. split; [| lia]. apply list_lookup_insert_eq. by eapply lookup_lt_Some.
Qed.

Lemma release_held_ok r c :
  holds_within c →
  holds_within (reservation_Release r c) ∧ gc_bytes (reservation_Release r c) = gc_bytes c
  ∧ (∀ had, gc_reservations c !! r = Some (had, false) →
       gc_held (reservation_Release r c) = gc_held c - had ∧ gc_inflight (reservation_Release r c) = gc_inflight c - 1).
Proof.
  intros (Hw & Hh & Hi & Hall & Hc & Hr). unfold reservation_Release.
  destruct (gc_reservations c !! r) as [[had []]|] eqn:Hl.
  1,3: by split_and!.
  destruct (total_insert _ _ _ had true Hl) as [Ht Hn].
  assert (0 ≤ had) as Hhad by (rewrite Forall_lookup in Hall; by apply (Hall _ _ Hl)).
  assert (Forall (λ r, 0 ≤ r.1) (<[r:=(had, true)]> (gc_reservations c))) as Hall' by (by apply Forall_insert).
  pose proof (total_nonneg _ Hall'). rewrite int64_id by lia.
  unfold holds_within. cbn [gc_bytes gc_requests gc_held gc_inflight gc_reservations].
  split_and!; try done; try lia. by intros ? [= <-].
Qed.

Inductive GatewayOp := OpReserve (bytes : Z) | OpResize (r : nat) (bytes : Z) | OpFree (r : nat).

Definition gateway_op (c : GatewayCapacity) (op : GatewayOp) : GatewayCapacity :=
  match op with
  | OpReserve bytes => match reserve bytes c with Some (c, _) => c | None => c end
  | OpResize r bytes => (reservation_Resize r bytes c).1
  | OpFree r => reservation_Release r c
  end.

(** A request asks for no more than the process may hold at once. *)
Definition asks_within (bound : Z) (op : GatewayOp) : Prop :=
  match op with
  | OpReserve bytes | OpResize _ bytes => 0 ≤ bytes ≤ bound
  | OpFree _ => True
  end.

Lemma gateway_op_ok c op :
  holds_within c → asks_within (gc_bytes c) op →
  holds_within (gateway_op c op) ∧ gc_bytes (gateway_op c op) = gc_bytes c.
Proof.
  intros Hc Hop. destruct op as [bytes|r bytes|r]; cbn [gateway_op asks_within] in *.
  - destruct (reserve bytes c) as [[c' r]|] eqn:Hr; [| done].
    by destruct (reserve_ok _ _ _ _ Hop Hc Hr) as (? & _ & ? & _).
  - pose proof (resize_ok r bytes c Hop Hc) as Hs. destruct (reservation_Resize r bytes c) as [c' resized].
    by destruct Hs as (? & ? & _).
  - by destruct (release_held_ok r c Hc) as (? & ? & _).
Qed.

(** However the requests of a gateway interleave, and however often one is
    released, the gateway counts exactly the bytes and the requests that are
    reserved and not released, and never more than it was bounded to. *)
Theorem the_gateway_holds_what_is_reserved bytes requests start ops :
  NewGatewayCapacity bytes requests = Some start → bytes < 2 ^ 62 → Forall (asks_within bytes) ops →
  let c := foldl gateway_op start ops in
  gc_held c = total (gc_reservations c) ∧ 0 ≤ gc_held c ≤ bytes
  ∧ gc_inflight c = len (unreleased (gc_reservations c)) ∧ gc_inflight c ≤ requests.
Proof.
  unfold NewGatewayCapacity. intros Hs Hb Hops. cbv zeta.
  destruct ((bytes <=? 0) || (requests <=? 0)) eqn:Hp; [done |]. injection Hs as <-.
  apply orb_false_iff in Hp as [Hp1%Z.leb_gt Hp2%Z.leb_gt].
  assert (∀ ops c, holds_within c → Forall (asks_within (gc_bytes c)) ops →
    holds_within (foldl gateway_op c ops) ∧ gc_bytes (foldl gateway_op c ops) = gc_bytes c
    ∧ gc_requests (foldl gateway_op c ops) = gc_requests c) as Hrun.
  { clear. induction ops as [|op ops IH]; intros c Hc Hops; [done |]. apply Forall_cons in Hops as [Hop Hops].
    destruct (gateway_op_ok c op Hc Hop) as [H1 H2]. cbn [foldl]. rewrite <- H2 in Hops.
    destruct (IH _ H1 Hops) as (H3 & H4 & H5). split_and!; [done | congruence |]. rewrite H5.
    destruct op as [bytes|r bytes|r]; cbn [gateway_op].
    - unfold reserve. by destruct (_ || _).
    - unfold reservation_Resize. destruct (gc_reservations c !! r) as [[? []]|]; try done. by destruct (_ <? _).
    - unfold reservation_Release. by destruct (gc_reservations c !! r) as [[? []]|]. }
  destruct (Hrun ops (mkGatewayCapacity bytes requests 0 0 [])) as ((Hw & Hh & Hi & Hall & Hc & Hr) & Hbytes & Hreq);
    [split_and!; cbn; try done; lia | done |].
  cbn [gc_bytes gc_requests] in *. pose proof (total_nonneg _ Hall).
  set (c := foldl gateway_op _ ops) in *. split_and!; lia.
Qed.

(** ** What is published *)

Section admission.
Context `{EventContract}.

Lemma admit_events_ok agent tenant reception received p events : ∀ index stamped,
  admit_events index agent tenant reception received p events = Ok stamped ↔
  stamped = (λ e, stamp_event e agent tenant reception) <$> events
  ∧ Forall (λ e, event_Validate e received p = Ok tt) stamped.
Proof.
  induction events as [|e events IH]; intros index stamped; cbn [admit_events].
  { split; [intros [= <-]; by split | by intros [-> _]]. }
  cbv zeta. cbn [fmap list_fmap].
  destruct (event_Validate (stamp_event e agent tenant reception) received p) as [[]|v] eqn:Hv.
  - destruct (admit_events _ _ _ _ _ _ events) as [rest|r] eqn:Hr.
    + apply IH in Hr as [-> Hall]. split; [intros [= <-]; split; [done | by constructor] | by intros [-> _]].
    + split; [done |]. intros [-> Hall]. apply Forall_cons in Hall as [_ Hall].
      assert (admit_events (index + 1) agent tenant reception received p events
              = Ok ((λ e, stamp_event e agent tenant reception) <$> events)) as Hok by (by apply IH).
      by rewrite Hr in Hok.
  - split; [done |]. intros [-> Hall]. apply Forall_cons in Hall as [Hall _]. by rewrite Hall in Hv.
Qed.

(** A batch a gateway would hand to the backbone. *)
Definition admissible_batch (policy : AdmissionPolicy) (agent tenant : string) (now : instant) (batch : EventBatch) : Prop :=
  1 ≤ len (eb_events batch) ≤ ap_maxEvents policy ∧ protocol_Supported (eb_protocol batch) = true
  ∧ batch_identifier (eb_id batch) = true
  ∧ Forall (λ e, event_Validate (stamp_event e agent tenant (mkReceptionPart now (ap_gateway policy) (eb_id batch))) now
                   (ap_event policy) = Ok tt) (eb_events batch).

#[global] Instance admissible_batch_dec policy agent tenant now batch :
  Decision (admissible_batch policy agent tenant now batch).
Proof. unfold admissible_batch. apply _. Defined.

(** Both ways a batch goes. *)
Lemma Admit_spec policy publish agent tenant now batch :
  let stamped := (λ e, stamp_event e agent tenant (mkReceptionPart now (ap_gateway policy) (eb_id batch))) <$> eb_events batch in
  (admissible_batch policy agent tenant now batch →
   Admit policy publish agent tenant now batch
   = (Some stamped, if publish stamped then Ok (uint32 (len stamped)) else Err BackboneUnavailable))
  ∧ (¬ admissible_batch policy agent tenant now batch →
     ∃ r, Admit policy publish agent tenant now batch = (None, Err (Rejected r))).
Proof.
  cbv zeta. set (reception := mkReceptionPart now (ap_gateway policy) (eb_id batch)).
  unfold Admit, admissible_batch, whole_batch. cbv zeta. fold reception. pose proof (len_nonneg (eb_events batch)).
  destruct (Z.eqb_spec (len (eb_events batch)) 0); [split; [lia | by eexists] |].
  destruct (Z.ltb_spec (ap_maxEvents policy) (len (eb_events batch))); [split; [lia | by eexists] |].
  destruct (protocol_Supported (eb_protocol batch)); cbn [negb]; [| split; [by intros (_ & ? & _) | by eexists]].
  destruct (batch_identifier (eb_id batch)); cbn [negb]; [| split; [by intros (_ & _ & ? & _) | by eexists]].
  destruct (admit_events 0 agent tenant reception now (ap_event policy) (eb_events batch)) as [stamped|r] eqn:Ha.
  - apply admit_events_ok in Ha as [-> Hall]. split; [by intros _; destruct (publish _) |].
    intros []. split_and!; try done; [lia |]. by apply Forall_fmap in Hall.
  - split; [| by eexists]. intros (_ & _ & _ & Hall).
    assert (admit_events 0 agent tenant reception now (ap_event policy) (eb_events batch)
            = Ok ((λ e, stamp_event e agent tenant reception) <$> eb_events batch)) as Hok.
    { apply admit_events_ok. split; [done |]. by apply Forall_fmap. }
    by rewrite Ha in Hok.
Qed.

(** What the backbone is handed is the whole batch or nothing of it: every event,
    in order, under the agent and tenant the platform established, exactly when
    the batch is admissible; and it is acknowledged exactly when the backbone took
    it. *)
Theorem a_batch_is_taken_whole policy publish agent tenant now batch :
  let stamped := (λ e, stamp_event e agent tenant (mkReceptionPart now (ap_gateway policy) (eb_id batch))) <$> eb_events batch in
  (admissible_batch policy agent tenant now batch →
   Admit policy publish agent tenant now batch
   = (Some stamped, if publish stamped then Ok (uint32 (len stamped)) else Err BackboneUnavailable))
  ∧ (¬ admissible_batch policy agent tenant now batch →
     ∃ r, Admit policy publish agent tenant now batch = (None, Err (Rejected r))).
Proof. apply Admit_spec. Qed.
End admission.

(** ** Whose telemetry it is *)

Definition checked_by (c : Currency) (checks : list (instant * Checked)) : Currency :=
  foldl (λ c check, Confirm check.1 check.2 c) c checks.

(** A clock between 1970 and 2262, which a count of nanoseconds holds. *)
Definition clock_holds (t : instant) : Prop := unix_zero < t < unix_zero + 2 ^ 63.

Lemma Confirm_confirmed asked found c :
  cu_staleAfter (Confirm asked found c) = cu_staleAfter c
  ∧ (cu_confirmed (Confirm asked found c) = cu_confirmed c
     ∨ cu_confirmed (Confirm asked found c) = UnixNano asked ∧ ∃ records, found = Behind records ∧ records ≤ 0).
Proof.
  destruct found as [|records]; cbn [Confirm]; [by split; [| left] |].
  destruct (Z.ltb_spec 0 records); [by split; [| left] |]. split; [done |]. right. split; [done |]. by exists records.
Qed.

(** A roster that is not stale was found, no longer ago than it may go without, to
    hold every record its log held. *)
Lemma fresh_was_confirmed every staleAfter start c checks now :
  NewCurrency every staleAfter start = Some c → Forall (λ check, clock_holds check.1) checks →
  Stale now (checked_by c checks) = false →
  ∃ asked records, (asked, Behind records) ∈ checks ∧ records ≤ 0 ∧ time_sub now asked ≤ staleAfter.
Proof.
  unfold NewCurrency. destruct (every <=? 0); [done |]. destruct (staleAfter <? 2 * every); [done |]. intros [= <-] Hclock.
  assert (∀ checks c, Forall (λ check, clock_holds check.1) checks →
    cu_staleAfter (checked_by c checks) = cu_staleAfter c
    ∧ (cu_confirmed (checked_by c checks) = cu_confirmed c
       ∨ ∃ asked records, (asked, Behind records) ∈ checks ∧ records ≤ 0 ∧ clock_holds asked
         ∧ cu_confirmed (checked_by c checks) = UnixNano asked)) as Hrun.
  { clear. induction checks as [|[asked found] checks IH]; intros c Hall; [by split; [| left] |].
    apply Forall_cons in Hall as [Hone Hall]. cbn [checked_by foldl fst snd] in *.
    destruct (IH (Confirm asked found c) Hall) as [Hs Hc]. unfold checked_by in *.
    destruct (Confirm_confirmed asked found c) as [Hs' Hc'].
    split; [congruence |]. destruct Hc as [Hc|(a & n & Hin & Hn & Hk & Hc)]; [| right; exists a, n; set_solver].
    destruct Hc' as [Hc'|(Hc' & n & -> & Hn)]; [left; congruence |].
    right. exists asked, n. split_and!; [by left | done | done | congruence]. }
  destruct (Hrun checks (mkCurrency staleAfter start 0) Hclock) as [Hs Hc]. cbn [cu_staleAfter cu_confirmed] in *.
  unfold Stale, currency_age. rewrite Hs. intros [Hne Hage]%orb_false_iff. apply Z.eqb_neq in Hne.
  destruct Hc as [Hc|(asked & n & Hin & Hn & Hk & Hc)]; [done |]. exists asked, n. split_and!; [done | done |].
  rewrite Hc in Hage. unfold UnixNano, clock_holds in *. rewrite int64_id in Hage by lia.
  destruct (Z.ltb_spec 0 (asked - unix_zero)); [| lia].
  replace (unix_zero + (asked - unix_zero)) with asked in Hage by lia. by apply Z.ltb_ge in Hage.
Qed.

Section gateway.
Context {rate : RateLimiter} `{EventContract, Protowire} (MediaType : string → option string).
Context (Unmarshal_batch : string → option EventBatch) (shapes : string → shape) (root : string).
Hypothesis sized : ∀ message, 0 ≤ sh_size (shapes message).

Lemma allocation_nonneg size : 0 ≤ size → 0 ≤ allocation size.
Proof. intros Hs. unfold allocation. destruct (size =? 0); [lia |]. pose proof (Z.quot_pos size 4 Hs ltac:(lia)). lia. Qed.

Lemma weigh_shape_nonneg depth : ∀ fuel message payload weight,
  weigh_shape shapes depth fuel message payload = Some weight → 0 ≤ weight.
Proof using sized.
  induction depth as [|depth IHd]; [done |]. induction fuel as [|fuel IHf]; intros message payload weight.
  { destruct payload; [by intros [= <-] | done]. }
  destruct payload as [|c payload]; [by intros [= <-] |]. cbn [weigh_shape]. intros Hw.
  apply bind_Some in Hw as ([[number kind] tagged] & _ & Hw).
  apply bind_Some in Hw as ([inner valued] & _ & Hw). cbv zeta in Hw.
  apply bind_Some in Hw as (one & Hone & Hw). apply bind_Some in Hw as (others & Ho & [= <-]).
  apply IHf in Ho. pose proof (allocation_nonneg (slen inner) ltac:(unfold slen; lia)).
  assert (0 ≤ one).
  { destruct (sh_fields (shapes message) number) as [f|]; [| injection Hone as <-; unfold growth; lia].
    destruct (negb (bool_decide (kind = wf_wire f)) && _); [injection Hone as <-; unfold growth; lia |].
    destruct (wf_message f) as [nested|].
    - apply bind_Some in Hone as (w & Hnest & [= <-]). apply IHd in Hnest. pose proof (sized nested).
      destruct (wf_list f); unfold growth, slot; lia.
    - destruct (wf_text f); [| destruct (wf_list f && _ && _)]; injection Hone as <-;
        destruct (wf_list f); unfold growth, slot, slen in *; lia. }
  destruct (sh_fields (shapes message) number) as [f|]; [destruct (wf_oneof f) |]; try lia.
  pose proof (allocation_nonneg wrapper ltac:(done)). lia.
Qed.

Lemma weighs_something payload weight : weigh shapes root payload = Some weight → 0 ≤ weight.
Proof using sized.
  unfold weigh. intros (w & Hw & [= <-])%bind_Some. apply weigh_shape_nonneg in Hw. pose proof (sized root). lia.
Qed.

Lemma take_body_ok publish agent tenant now body r had g c' published response :
  holds_within (gw_capacity g) → gc_reservations (gw_capacity g) !! r = Some (had, false) →
  take_body Unmarshal_batch shapes root publish agent tenant now body r g = (c', published, response) →
  holds_within c' ∧ gc_bytes c' = gc_bytes (gw_capacity g) ∧ gc_inflight c' = gc_inflight (gw_capacity g)
  ∧ (∃ held, gc_reservations c' !! r = Some (held, false) ∧ gc_held c' = gc_held (gw_capacity g) - had + held)
  ∧ ∀ stamped, published = Some stamped → ∃ payload batch weight,
      body = Some payload ∧ Unmarshal_batch payload = Some batch
      ∧ admissible_batch (gw_policy g) agent tenant now batch
      ∧ stamped = (λ e, stamp_event e agent tenant (mkReceptionPart now (ap_gateway (gw_policy g)) (eb_id batch))) <$> eb_events batch
      ∧ weigh shapes root payload = Some weight.
Proof.
  intros Hc Hl. unfold take_body.
  assert (∀ p, holds_within (gw_capacity g) ∧ gc_bytes (gw_capacity g) = gc_bytes (gw_capacity g)
    ∧ gc_inflight (gw_capacity g) = gc_inflight (gw_capacity g)
    ∧ (∃ held, gc_reservations (gw_capacity g) !! r = Some (held, false)
       ∧ gc_held (gw_capacity g) = gc_held (gw_capacity g) - had + held)
    ∧ (∀ stamped, (None : option (list EventMessage)) = Some stamped → p stamped)) as Hsame.
  { intros p. split_and!; try done. exists had. split; [done | lia]. }
  destruct body as [payload|]; [| intros [= <- <- <-]; apply Hsame].
  destruct (gw_maxBody g <? slen payload); [intros [= <- <- <-]; apply Hsame |].
  destruct (weigh shapes root payload) as [weight|] eqn:Hw; [| intros [= <- <- <-]; apply Hsame]. cbv zeta.
  destruct (Z.ltb_spec (gc_bytes (gw_capacity g)) (slen payload + weight)); [intros [= <- <- <-]; apply Hsame |].
  pose proof (weighs_something _ _ Hw) as Hpos.
  assert (0 ≤ slen payload + weight ≤ gc_bytes (gw_capacity g)) as Hrange by (unfold slen in *; lia).
  pose proof (resize_ok r (slen payload + weight) _ Hrange Hc) as Hs.
  destruct (reservation_Resize r (slen payload + weight) (gw_capacity g)) as [c resized].
  destruct Hs as (Hc2 & Hb2 & Hi2 & Hh2). specialize (Hh2 _ Hl). destruct resized; cbn [negb];
    [| intros [= <- <- <-]; by split_and!].
  destruct (Unmarshal_batch payload) as [batch|] eqn:Hu; [| intros [= <- <- <-]; by split_and!].
  destruct (Admit_spec (gw_policy g) publish agent tenant now batch) as [Hyes Hno].
  destruct (Admit (gw_policy g) publish agent tenant now batch) as [taken answer] eqn:Ha.
  assert (∀ stamped, taken = Some stamped → admissible_batch (gw_policy g) agent tenant now batch
    ∧ stamped = (λ e, stamp_event e agent tenant (mkReceptionPart now (ap_gateway (gw_policy g)) (eb_id batch))) <$> eb_events batch)
    as Hpub.
  { intros stamped ->. destruct (decide (admissible_batch (gw_policy g) agent tenant now batch)) as [Hadm|Hn];
      [| by destruct (Hno Hn) as [? [=]]].
    split; [done |]. by injection (Hyes Hadm) as ->. }
  destruct answer; intros [= <- <- <-]; split_and!; try done; intros stamped Hst; apply Hpub in Hst as [? ?]; eauto 10.
Qed.

Lemma stamped_event e agent tenant reception now p :
  event_Validate (stamp_event e agent tenant reception) now p = Ok tt →
  ValidateContract (Some (stamp_event e agent tenant reception)) = Ok tt.
Proof. unfold event_Validate. by destruct (ValidateContract _) as [[]|]. Qed.

(** C32. What reaches the backbone is the telemetry of an agent the roster admits, in
    the tenant the roster places it in, by a roster confirmed against its log no
    longer ago than it may go without; every event of it is held to the contract;
    and the request, taken or refused, holds nothing of the gateway afterwards. *)
Theorem telemetry_is_the_rosters every staleAfter start currency checks publish now r g g' published response :
  NewCurrency every staleAfter start = Some currency → Forall (λ check, clock_holds check.1) checks →
  gw_currency g = checked_by currency checks →
  holds_within (gw_capacity g) → 0 < gw_maxBody g ≤ gc_bytes (gw_capacity g) →
  gateway_ServeHTTP MediaType Unmarshal_batch shapes root publish now r g = (g', published, response) →
  gc_held (gw_capacity g') = gc_held (gw_capacity g) ∧ gc_inflight (gw_capacity g') = gc_inflight (gw_capacity g)
  ∧ holds_within (gw_capacity g')
  ∧ ∀ events, published = Some events → ∃ agent tenant asked records,
      FromConnection (gr_chains r) = Some agent ∧ roster_Tenant agent (gw_roster g) = Some tenant
      ∧ (asked, Behind records) ∈ checks ∧ records ≤ 0 ∧ time_sub now asked ≤ staleAfter
      ∧ Forall (λ e, (∃ host, em_origin e = Some (mkOriginPart tenant agent host))
                     ∧ ValidateContract (Some e) = Ok tt) events.
Proof using sized.
  intros Hnew Hclock Hcur Hcap Hbody. unfold gateway_ServeHTTP.
  destruct (FromConnection (gr_chains r)) as [agent|]; [| by intros [= <- <- <-]].
  destruct (Stale now (gw_currency g)) eqn:Hstale; [by intros [= <- <- <-] |]. rewrite Hcur in Hstale.
  destruct (roster_Tenant agent (gw_roster g)) as [tenant|] eqn:Hplaced; [| by intros [= <- <- <-]].
  destruct (Allow agent now (gw_limiter g)) as [limiter allowed]. destruct allowed; cbn [negb]; [| by intros [= <- <- <-]].
  destruct (takes_protobuf MediaType (gr_content_type r)); cbn [negb]; [| by intros [= <- <- <-]].
  cbn [with_limiter gw_maxBody gw_capacity]. set (asked := reserving _ _).
  assert (0 ≤ asked ≤ gc_bytes (gw_capacity g)) as Hasked.
  { unfold asked, reserving. destruct (Z.leb_spec (gr_content_length r) 0); cbn [orb]; [lia |].
    destruct (Z.ltb_spec (gw_maxBody g) (gr_content_length r)); lia. }
  destruct (reserve asked (gw_capacity g)) as [[c reservation]|] eqn:Hres; [| by intros [= <- <- <-]].
  destruct (reserve_ok _ _ _ _ Hasked Hcap Hres) as (Hcap1 & Hl & Hb1 & Hh1 & Hi1).
  destruct (take_body _ _ _ _ _ _ _ _ _ _) as [[c2 pub] resp] eqn:Hbodyeq. intros [= <- <- <-].
  cbn [with_capacity with_limiter gw_capacity gw_policy] in *.
  apply (take_body_ok _ _ _ _ _ _ asked) in Hbodyeq as (Hcap2 & Hb2 & Hi2 & (held & Hl2 & Hh2) & Hpub); [| done | done].
  cbn [with_capacity with_limiter gw_capacity gw_policy] in *.
  destruct (release_held_ok reservation c2 Hcap2) as (Hcap3 & _ & Hrel). destruct (Hrel _ Hl2) as [Hh3 Hi3].
  clearbody asked. split_and!; [lia | lia | done |]. intros events Hev.
  destruct (Hpub _ Hev) as (payload & batch & weight & _ & _ & (_ & _ & _ & Hall) & -> & _).
  destruct (fresh_was_confirmed _ _ _ _ _ _ Hnew Hclock Hstale) as (at_ & n & Hin & Hn & Hage).
  exists agent, tenant, at_, n. split_and!; try done. rewrite Forall_forall in *.
  intros e (e' & -> & He)%list_elem_of_fmap. split; [by eexists |]. by eapply stamped_event, Hall.
Qed.
End gateway.
