(* ===== verification/SigmaCondition.v ===== *)
(** * The condition of a Sigma rule

    sigma/condition.go: the tokens of a condition, the recursive descent that puts
    selections together, the quantifiers over a set of them and the aggregation
    after a pipe. [strings.EqualFold] is asked of ASCII words none of whose letters
    has a fold outside ASCII. The prose of a refusal is a constructor. *)

From Stdlib Require Import ZArith Lia Ascii.
From stdpp Require Import base tactics option strings numbers list.
From S2P Require Import Prelude Text Scan Rule Contract Compile Validate.

(** ** Tokens *)

Definition sigma_space (c : ascii) : bool := among [ascii_of_N 32; ascii_of_N 9; ascii_of_N 10; ascii_of_N 13] c.
Definition sigma_mark (c : ascii) : bool := among ["("; ")"; "|"; ","]%char c.
Definition sigma_comparison (c : ascii) : bool := among [">"; "<"; "="; "!"]%char c.

Definition flush (built : string) (tokens : list string) : list string :=
  if bool_decide (built = "") then tokens else built :: tokens.

(** [tokens_from built s] is what is left to be told once [built] was read of a
    word. *)
Fixpoint tokens_from (built : string) (s : string) : list string :=
  match s with
  | EmptyString => flush built []
  | String letter rest =>
      if sigma_space letter then flush built (tokens_from "" rest)
      else if sigma_mark letter then flush built (String letter "" :: tokens_from "" rest)
      else if sigma_comparison letter then
        match rest with
        | String "=" rest => flush built (String letter "=" :: tokens_from "" rest)
        | _ => flush built (String letter "" :: tokens_from "" rest)
        end
      else tokens_from (built +:+ String letter "") rest
  end.

Definition tokensOf (condition : string) : list string := tokens_from "" condition.

(** ** Globs *)

(** [strings.Index] of a part, as what stands after its first occurrence. *)
Fixpoint after_first (part s : string) : option string :=
  if HasPrefix s part then Some (string_drop (String.length part) s)
  else match s with EmptyString => None | String _ s => after_first part s end.

Fixpoint globs_middle (parts : list string) (name : string) : bool :=
  match parts with
  | [] => true
  | [last] => HasSuffix name last
  | part :: parts => match after_first part name with None => false | Some rest => globs_middle parts rest end
  end.

Definition globs (pattern name : string) : bool :=
  match Split pattern "*" with
  | [] | [_] => bool_decide (pattern = name)
  | first :: parts =>
      if negb (HasPrefix name first) then false else globs_middle parts (string_drop (String.length first) name)
  end.

(** ** The parser *)

Inductive SigmaReason :=
| NestsTooDeep | EndsEarly | NeverClosed | QuantifiesNothing | MatchesNone (target : string)
| CountsTerms (quantity : string) | NotDeclaredHere (name : string) | NotACondition | NotACount
| OpensNoBracket | CountsDistinct | ComparesNoNumber | AsksFewer | LeftOver (token : string)
| GroupsUnknown (name : string) | GroupsByMany | OutOfTurns.

Abbreviation sigma_reading A := (result SigmaReason (A * (list string * list string))).

(** [strings.EqualFold] with one of the words of the language. *)
Definition fold_is (token word : string) : bool := bool_decide (ToLower token = word).

Definition peek (tokens : list string) : string := default "" (head tokens).

(** A parser's state is the tokens it has not read and the selections it used. *)
Abbreviation parser := (list string * list string)%type (only parsing).

Definition any_of (e : Expression) (more : list Expression) : Expression :=
  match more with [] => e | _ => Any (e :: more) end.
Definition all_of (e : Expression) (more : list Expression) : Expression :=
  match more with [] => e | _ => All (e :: more) end.

(** The terms after the first, while the joiner stands before them. *)
Fixpoint gather_more (turns : nat) (joiner : string) (read : parser → sigma_reading Expression) (p : parser)
    : sigma_reading (list Expression) :=
  if negb (fold_is (peek p.1) joiner) then Ok ([], p)
  else match turns with
       | O => Err OutOfTurns
       | S turns =>
           match read (tail p.1, p.2) with
           | Err e => Err e
           | Ok (term, p) =>
               match gather_more turns joiner read p with
               | Err e => Err e
               | Ok (terms, p) => Ok (term :: terms, p)
               end
           end
       end.

(** The first term at the depth given and the others one deeper. *)
Definition gather (joiner : string) (read : Z → parser → sigma_reading Expression) (depth : Z) (p : parser)
    : sigma_reading (Expression * list Expression) :=
  match read depth p with
  | Err e => Err e
  | Ok (term, p) =>
      match gather_more (length p.1) joiner (read (depth + 1)) p with
      | Err e => Err e
      | Ok (terms, p) => Ok ((term, terms), p)
      end
  end.

Section parser.
Context (terms : list (string * Expression)).

Definition names : list string := terms.*1.

Definition term_of (name : string) : option Expression :=
  snd <$> List.find (λ t, bool_decide (t.1 = name)) terms.

Definition matching (target : string) : result SigmaReason (list Expression * list string) :=
  if fold_is target "them" then Ok (terms.*2, names)
  else match filter (λ t, globs target t.1 = true) terms with
       | [] => Err (MatchesNone target)
       | matched => Ok (matched.*2, matched.*1)
       end.

Definition quantified (quantity target : string) : result SigmaReason (Expression * list string) :=
  if bool_decide (target = "") then Err QuantifiesNothing
  else match matching target with
       | Err e => Err e
       | Ok (matched, used) =>
           if fold_is quantity "all" then
             Ok (match matched with [one] => one | _ => All matched end, used)
           else if bool_decide (quantity = "1") || fold_is quantity "any" then
             Ok (match matched with [one] => one | _ => Any matched end, used)
           else Err (CountsTerms quantity)
       end.

(** [fuel] counts the calls that nest; three for every token are enough. *)
Fixpoint sigma_expression (fuel : nat) (depth : Z) (p : parser) {struct fuel} : sigma_reading Expression :=
  match fuel with
  | O => Err OutOfTurns
  | S fuel =>
      if MaxDepth <? depth then Err NestsTooDeep
      else match gather "or" (conjunction fuel) depth p with
           | Err e => Err e
           | Ok ((term, more), p) => Ok (any_of term more, p)
           end
  end
with conjunction (fuel : nat) (depth : Z) (p : parser) {struct fuel} : sigma_reading Expression :=
  match fuel with
  | O => Err OutOfTurns
  | S fuel =>
      match gather "and" (factor fuel) depth p with
      | Err e => Err e
      | Ok ((term, more), p) => Ok (all_of term more, p)
      end
  end
with factor (fuel : nat) (depth : Z) (p : parser) {struct fuel} : sigma_reading Expression :=
  match fuel with
  | O => Err OutOfTurns
  | S fuel =>
      if MaxDepth <? depth then Err NestsTooDeep
      else
        let '(tokens, used) := p in
        let token := peek tokens in
        if bool_decide (token = "") then Err EndsEarly
        else if fold_is token "not" then
          match factor fuel (depth + 1) (tail tokens, used) with
          | Err e => Err e
          | Ok (term, p) => Ok (Not term, p)
          end
        else if bool_decide (token = "(") then
          match sigma_expression fuel (depth + 1) (tail tokens, used) with
          | Err e => Err e
          | Ok (term, (tokens, used)) =>
              if bool_decide (peek tokens = ")") then Ok (term, (tail tokens, used)) else Err NeverClosed
          end
        else if fold_is (peek (tail tokens)) "of" then
          let target := peek (tail (tail tokens)) in
          match quantified token target with
          | Err e => Err e
          | Ok (term, more) => Ok (term, (tail (tail (tail tokens)), used ++ more))
          end
        else match term_of token with
             | None => Err (NotDeclaredHere token)
             | Some term => Ok (term, (tail tokens, used ++ [token]))
             end
  end.

Definition enough (tokens : list string) : nat := 3 * S (length tokens).

Definition read_condition (tokens : list string) : sigma_reading Expression :=
  sigma_expression (enough tokens) 0 (tokens, []).
End parser.
