(* ===== verification/SigmaGrammar.v ===== *)
(** * The parser of conditions reads exactly its grammar *)

From Stdlib Require Import ZArith Lia Ascii.
From stdpp Require Import base tactics option strings numbers list.
From S2P Require Import Prelude Text Scan Rule Contract Compile Validate SigmaCondition.

(** The phrases of a condition: a whole one, terms joined by [and], one term, and
    what follows a term after [or] ([true]) or after [and] ([false]). *)
Inductive phrase := Condition | Conjoined | Term | More (alternatives : bool).

Section grammar.
Context (terms : list (string * Expression)).

(** [derives phrase depth tokens es used]: the tokens are the phrase, at that many
    levels of nesting, and say the expressions by the selections named. *)
Inductive derives : phrase → Z → list string → list Expression → list string → Prop :=
| d_condition d ts1 e u1 ts2 es u2 :
    d ≤ MaxDepth → derives Conjoined d ts1 [e] u1 → derives (More true) (d + 1) ts2 es u2 →
    derives Condition d (ts1 ++ ts2) [any_of e es] (u1 ++ u2)
| d_conjoined d ts1 e u1 ts2 es u2 :
    derives Term d ts1 [e] u1 → derives (More false) (d + 1) ts2 es u2 →
    derives Conjoined d (ts1 ++ ts2) [all_of e es] (u1 ++ u2)
| d_no_more b d : derives (More b) d [] [] []
| d_or d k ts1 e u1 ts2 es u2 :
    fold_is k "or" = true → derives Conjoined d ts1 [e] u1 → derives (More true) d ts2 es u2 →
    derives (More true) d (k :: ts1 ++ ts2) (e :: es) (u1 ++ u2)
| d_and d k ts1 e u1 ts2 es u2 :
    fold_is k "and" = true → derives Term d ts1 [e] u1 → derives (More false) d ts2 es u2 →
    derives (More false) d (k :: ts1 ++ ts2) (e :: es) (u1 ++ u2)
| d_not d k ts e u :
    d ≤ MaxDepth → fold_is k "not" = true → derives Term (d + 1) ts [e] u → derives Term d (k :: ts) [Not e] u
| d_group d ts e u :
    d ≤ MaxDepth → derives Condition (d + 1) ts [e] u → derives Term d ("(" :: ts ++ [")"]) [e] u
| d_quantified d q k target e u :
    d ≤ MaxDepth → q ≠ "" → fold_is q "not" = false → q ≠ "(" → fold_is k "of" = true →
    quantified terms q target = Ok (e, u) → derives Term d [q; k; target] [e] u
| d_named d name e :
    d ≤ MaxDepth → name ≠ "" → fold_is name "not" = false → name ≠ "(" → term_of terms name = Some e →
    derives Term d [name] [e] [name].

Lemma derives_some ph d ts es us : derives ph d ts es us → ph = Condition ∨ ph = Conjoined ∨ ph = Term → ts ≠ [].
Proof.
  induction 1; intros Hph; try done; try naive_solver;
    intros Hnil; apply app_eq_nil in Hnil as [-> _]; naive_solver.
Qed.

(** ** What the parser reads is in the grammar *)

(** A reader of single expressions reads a phrase. *)
Definition reads_phrase (ph : phrase) (d : Z) (read : list string * list string → sigma_reading Expression) : Prop :=
  ∀ p e rest, read p = Ok (e, rest) →
    ∃ ts us, p.1 = ts ++ rest.1 ∧ rest.2 = p.2 ++ us ∧ derives ph d ts [e] us.

Definition joiner (b : bool) : string := if b then "or" else "and".
Definition joined (b : bool) : phrase := if b then Conjoined else Term.

Lemma derives_more b d k ts1 e u1 ts2 es u2 :
  fold_is k (joiner b) = true → derives (joined b) d ts1 [e] u1 → derives (More b) d ts2 es u2 →
  derives (More b) d (k :: ts1 ++ ts2) (e :: es) (u1 ++ u2).
Proof. destruct b; [apply d_or | apply d_and]. Qed.

Lemma peek_folds ts word : word ≠ "" → fold_is (peek ts) word = true → ∃ k rest, ts = k :: rest ∧ fold_is k word = true.
Proof.
  destruct ts as [|k rest]; [| by eauto]. unfold peek, fold_is. cbn. intros Hw H%bool_decide_eq_true. by subst word.
Qed.

Lemma gather_more_sound b turns d read : ∀ p es rest,
  reads_phrase (joined b) d read → gather_more turns (joiner b) read p = Ok (es, rest) →
  ∃ ts us, p.1 = ts ++ rest.1 ∧ rest.2 = p.2 ++ us ∧ derives (More b) d ts es us.
Proof.
  induction turns as [|turns IH]; intros p es rest Hread; cbn [gather_more];
    destruct (fold_is (peek p.1) (joiner b)) eqn:Hk; cbn [negb]; try done;
    try (intros [= <- <-]; exists [], []; split; [done | split; [by rewrite app_nil_r | constructor]]).
  apply peek_folds in Hk as (k & ts & Hts & Hk); [| by destruct b]. rewrite Hts. cbn [tail].
  destruct (read (ts, p.2)) as [[e p1]|] eqn:Hr; [| done].
  destruct (Hread _ _ _ Hr) as (ts1 & u1 & H1 & H2 & Hd). cbn [fst snd] in *.
  destruct (gather_more turns (joiner b) read p1) as [[es' p2]|] eqn:Hm; [| done]. intros [= <- <-].
  destruct (IH _ _ _ Hread Hm) as (ts2 & u2 & H3 & H4 & Hd2).
  exists (k :: ts1 ++ ts2), (u1 ++ u2). split_and!.
  - by rewrite H1, H3, app_comm_cons, app_assoc.
  - by rewrite H4, H2, <- app_assoc.
  - by apply derives_more.
Qed.

Lemma gather_sound b d read p e es rest :
  (∀ d, reads_phrase (joined b) d (read d)) → gather (joiner b) read d p = Ok ((e, es), rest) →
  ∃ ts1 u1 ts2 u2, p.1 = ts1 ++ ts2 ++ rest.1 ∧ rest.2 = p.2 ++ u1 ++ u2
    ∧ derives (joined b) d ts1 [e] u1 ∧ derives (More b) (d + 1) ts2 es u2.
Proof.
  intros Hread. unfold gather. destruct (read d p) as [[e' p1]|] eqn:Hr; [| done].
  destruct (gather_more _ _ _ p1) as [[es' p2]|] eqn:Hm; [| done]. intros [= <- <- <-].
  destruct (Hread _ _ _ _ Hr) as (ts1 & u1 & H1 & H2 & Hd).
  destruct (gather_more_sound _ _ _ _ _ _ _ (Hread _) Hm) as (ts2 & u2 & H3 & H4 & Hd2).
  exists ts1, u1, ts2, u2. split_and!; [by rewrite H1, H3 | by rewrite H4, H2, app_assoc | done | done].
Qed.

Lemma parser_sound fuel :
  (∀ d, reads_phrase Condition d (sigma_expression terms fuel d))
  ∧ (∀ d, reads_phrase Conjoined d (conjunction terms fuel d))
  ∧ (∀ d, reads_phrase Term d (factor terms fuel d)).
Proof.
  induction fuel as [|fuel (IHe & IHc & IHf)]; [by split_and! |]. split_and!; intros d p e rest.
  - cbn [sigma_expression]. destruct (Z.ltb_spec MaxDepth d) as [|Hd]; [done |].
    destruct (gather "or" (conjunction terms fuel) d p) as [[[t more] p']|] eqn:Hg; [| done]. intros [= <- <-].
    apply (gather_sound true) in Hg as (ts1 & u1 & ts2 & u2 & H1 & H2 & Hd1 & Hd2); [| done].
    exists (ts1 ++ ts2), (u1 ++ u2). split_and!; [by rewrite H1, app_assoc | done | by constructor].
  - cbn [conjunction].
    destruct (gather "and" (factor terms fuel) d p) as [[[t more] p']|] eqn:Hg; [| done]. intros [= <- <-].
    apply (gather_sound false) in Hg as (ts1 & u1 & ts2 & u2 & H1 & H2 & Hd1 & Hd2); [| done].
    exists (ts1 ++ ts2), (u1 ++ u2). split_and!; [by rewrite H1, app_assoc | done | by constructor].
  - cbn [factor]. destruct (Z.ltb_spec MaxDepth d) as [|Hd]; [done |].
    destruct p as [tokens used]. cbv zeta. destruct tokens as [|token tokens]; [done |].
    cbn [peek head default tail fst snd]. unfold id.
    case_bool_decide as Hempty; [done |]. destruct (fold_is token "not") eqn:Hnot.
    { destruct (factor terms fuel (d + 1) (tokens, used)) as [[t p']|] eqn:Hf; [| done]. intros [= <- <-].
      destruct (IHf _ _ _ _ Hf) as (ts & us & H1 & H2 & Hd'). cbn [fst snd] in *.
      exists (token :: ts), us. split_and!; [by rewrite H1 | done | by constructor]. }
    case_bool_decide as Hopen.
    { destruct (sigma_expression terms fuel (d + 1) (tokens, used)) as [[t [ts' us']]|] eqn:He; [| done].
      case_bool_decide as Hclose; [| done]. intros [= <- <-].
      destruct (IHe _ _ _ _ He) as (ts & us & H1 & H2 & Hd'). cbn [fst snd] in *.
      destruct ts' as [|close ts']; [done |]. cbn [peek head default] in Hclose. unfold id in Hclose. subst close token.
      exists ("(" :: ts ++ [")"]), us. cbn [tail]. split_and!; [by rewrite H1, <- app_comm_cons, <- app_assoc | done | by constructor]. }
    destruct (fold_is (peek tokens) "of") eqn:Hof.
    { apply peek_folds in Hof as (k & rest' & -> & Hk); [| done]. cbn [tail].
      destruct (quantified terms token (peek rest')) as [[t more]|] eqn:Hq; [| done]. intros [= <- <-]. cbn [fst snd].
      destruct rest' as [|target rest']; [unfold quantified in Hq; by rewrite bool_decide_true in Hq |].
      cbn [peek head default tail] in *. unfold id in Hq.
      exists [token; k; target], more. split_and!; [done | done | by constructor]. }
    destruct (term_of terms token) as [t|] eqn:Ht; [| done]. intros [= <- <-]. cbn [fst snd].
    exists [token], [token]. split_and!; [done | done | by constructor].
Qed.

(** ** Every phrase of the grammar is read *)

(** What may stand after a phrase: nothing that would have continued it. *)
Definition stops (ph : phrase) (rest : list string) : Prop :=
  fold_is (peek rest) "of" = false
  ∧ (ph ≠ Term → fold_is (peek rest) "and" = false)
  ∧ (ph = Condition ∨ ph = More true → fold_is (peek rest) "or" = false).

Definition need (ph : phrase) (tokens : list string) : nat :=
  3 * length tokens + match ph with Condition => 2 | Conjoined | More true => 1 | Term | More false => 0 end.

Definition reader (b : bool) (fuel : nat) : Z → list string * list string → sigma_reading Expression :=
  if b then conjunction terms fuel else factor terms fuel.

Definition completes (ph : phrase) (d : Z) (ts : list string) (es : list Expression) (us : list string) : Prop :=
  ∀ fuel rest used, (need ph ts ≤ fuel)%nat → stops ph rest →
    match ph with
    | Condition => ∃ e, es = [e] ∧ sigma_expression terms fuel d (ts ++ rest, used) = Ok (e, (rest, used ++ us))
    | Conjoined => ∃ e, es = [e] ∧ conjunction terms fuel d (ts ++ rest, used) = Ok (e, (rest, used ++ us))
    | Term => ∃ e, es = [e] ∧ factor terms fuel d (ts ++ rest, used) = Ok (e, (rest, used ++ us))
    | More b => ∀ turns, (length ts ≤ turns)%nat →
        gather_more turns (joiner b) (reader b fuel d) (ts ++ rest, used) = Ok (es, (rest, used ++ us))
    end.

Lemma fold_is_not k word word' : fold_is k word = true → word ≠ word' → fold_is k word' = false.
Proof. unfold fold_is. intros ->%bool_decide_eq_true ?. by apply bool_decide_eq_false. Qed.

Lemma stops_joined b k rest : fold_is k (joiner b) = true → stops (joined b) (k :: rest).
Proof.
  intros Hk. split; [by eapply fold_is_not; [exact Hk | destruct b] |].
  split; [intros Hb; destruct b; [by eapply fold_is_not | done] | intros [|]; by destruct b].
Qed.

Lemma stops_more b d ts es us rest : derives (More b) d ts es us → stops (More b) rest → stops (joined b) (ts ++ rest).
Proof.
  intros Hd Hstop. remember (More b) as ph eqn:Hph. destruct Hd; simplify_eq; cbn [app].
  - destruct Hstop as (Hof & Hand & Hor). split; [done |]. destruct b; (split; [| by intros [|]]); naive_solver.
  - by apply (stops_joined true).
  - by apply (stops_joined false).
Qed.

Lemma joined_reads b d ts e us fuel rest used :
  completes (joined b) d ts [e] us → (need (More b) ts ≤ fuel)%nat → stops (joined b) rest →
  reader b fuel d (ts ++ rest, used) = Ok (e, (rest, used ++ us)).
Proof.
  intros Hc Hfuel Hstop. destruct b; destruct (Hc fuel rest used) as (e' & [= <-] & H); done.
Qed.

Lemma more_reads b d k ts1 e u1 ts2 es u2 :
  fold_is k (joiner b) = true → completes (joined b) d ts1 [e] u1 →
  derives (More b) d ts2 es u2 → completes (More b) d ts2 es u2 →
  completes (More b) d (k :: ts1 ++ ts2) (e :: es) (u1 ++ u2).
Proof.
  intros Hk H1 Hd H2 fuel rest used Hfuel Hstop [|turns] Hturns; cbn [length] in Hturns; [lia |].
  unfold need in Hfuel. cbn [length] in Hfuel. rewrite length_app in Hfuel, Hturns.
  cbn [gather_more app peek head default fst snd tail]. unfold id. rewrite Hk. cbn [negb]. rewrite <- app_assoc.
  rewrite (joined_reads b d ts1 e u1); [| done | unfold need; lia | by eapply stops_more].
  specialize (H2 fuel rest (used ++ u1) ltac:(unfold need; lia) Hstop turns ltac:(lia)).
  cbn in H2. rewrite H2. by rewrite <- app_assoc.
Qed.

Lemma gather_reads b d ts1 e u1 ts2 es u2 fuel rest used :
  completes (joined b) d ts1 [e] u1 → derives (More b) (d + 1) ts2 es u2 → completes (More b) (d + 1) ts2 es u2 →
  (need (More b) (ts1 ++ ts2) ≤ fuel)%nat → stops (More b) rest →
  gather (joiner b) (reader b fuel) d ((ts1 ++ ts2) ++ rest, used) = Ok ((e, es), (rest, used ++ u1 ++ u2)).
Proof.
  intros H1 Hd H2 Hfuel Hstop. unfold need in Hfuel. rewrite length_app in Hfuel. unfold gather. rewrite <- app_assoc.
  rewrite (joined_reads b d ts1 e u1); [| done | unfold need; lia | by eapply stops_more]. cbn [fst].
  specialize (H2 fuel rest (used ++ u1) ltac:(unfold need; lia) Hstop (length (ts2 ++ rest))).
  cbn in H2. rewrite H2; [by rewrite <- app_assoc | rewrite length_app; lia].
Qed.

Lemma parser_complete ph d ts es us : derives ph d ts es us → completes ph d ts es us.
Proof.
  induction 1 as [d ts1 e u1 ts2 es u2 Hdep H1 IH1 H2 IH2 | d ts1 e u1 ts2 es u2 H1 IH1 H2 IH2 | b d
    | d k ts1 e u1 ts2 es u2 Hk H1 IH1 H2 IH2 | d k ts1 e u1 ts2 es u2 Hk H1 IH1 H2 IH2
    | d k ts e u Hdep Hk H IH | d ts e u Hdep H IH | d q k target e u Hdep Hq Hnot Hopen Hk H
    | d name e Hdep Hname Hnot Hopen H].
  - intros [|fuel] rest used Hfuel Hstop; unfold need in Hfuel; [lia |]. eexists. split; [done |].
    cbn [sigma_expression]. destruct (Z.ltb_spec MaxDepth d); [lia |].
    change (gather "or" (conjunction terms fuel)) with (gather (joiner true) (reader true fuel)).
    rewrite (gather_reads true d ts1 e u1 ts2 es u2 fuel rest used IH1 H2 IH2); [done | unfold need; lia |].
    destruct Hstop as (? & ? & ?). split; naive_solver.
  - intros [|fuel] rest used Hfuel Hstop; unfold need in Hfuel; [lia |]. eexists. split; [done |].
    cbn [conjunction].
    change (gather "and" (factor terms fuel)) with (gather (joiner false) (reader false fuel)).
    rewrite (gather_reads false d ts1 e u1 ts2 es u2 fuel rest used IH1 H2 IH2); [done | unfold need; lia |].
    destruct Hstop as (? & ? & ?). split; naive_solver.
  - intros fuel rest used _ (Hof & Hand & Hor) turns _. cbn [app]. rewrite app_nil_r.
    destruct turns; cbn [gather_more fst]; (replace (fold_is _ _) with false; [done |]);
      symmetry; destruct b; [by apply Hor; right | by apply Hand | by apply Hor; right | by apply Hand].
  - by apply (more_reads true).
  - by apply (more_reads false).
  - intros [|fuel] rest used Hfuel Hstop; unfold need in Hfuel; cbn [length] in Hfuel; [lia |]. eexists. split; [done |].
    cbn [factor app peek head default tail]. unfold id. destruct (Z.ltb_spec MaxDepth d); [lia |].
    rewrite bool_decide_eq_false_2 by (intros ->; done). rewrite Hk.
    destruct (IH fuel rest used) as (e' & [= <-] & ->); [unfold need; lia | done | done].
  - intros [|fuel] rest used Hfuel Hstop; unfold need in Hfuel; cbn [length] in Hfuel; [lia |]. eexists. split; [done |].
    cbn [factor app peek head default tail]. unfold id. destruct (Z.ltb_spec MaxDepth d); [lia |].
    rewrite length_app in Hfuel. cbn [length] in Hfuel. rewrite <- app_assoc. cbn [app].
    destruct (IH fuel (")" :: rest) used) as (e' & [= <-] & He); [unfold need; lia | done |].
    cbn. by rewrite He.
  - intros [|fuel] rest used Hfuel Hstop; unfold need in Hfuel; cbn [length] in Hfuel; [lia |]. eexists. split; [done |].
    cbn [factor app peek head default tail]. unfold id. destruct (Z.ltb_spec MaxDepth d); [lia |].
    rewrite !bool_decide_eq_false_2 by done. by rewrite Hnot, Hk, H.
  - intros [|fuel] rest used Hfuel (Hof & _); unfold need in Hfuel; cbn [length] in Hfuel; [lia |]. eexists. split; [done |].
    cbn [factor app peek head default tail]. unfold id. destruct (Z.ltb_spec MaxDepth d); [lia |].
    rewrite !bool_decide_eq_false_2 by done. cbn [peek head default] in Hof. by rewrite Hnot, Hof, H.
Qed.

(** ** The parser always ends *)

(** A reader of enough fuel: what it is given has no more tokens than [n], and it
    never runs out of turns. *)
Definition ends (n : nat) (read : list string * list string → sigma_reading Expression) : Prop :=
  ∀ p, (length p.1 ≤ n)%nat → read p ≠ Err OutOfTurns.

Lemma reads_shorter ph d read p e rest :
  reads_phrase ph d read → read p = Ok (e, rest) → (length rest.1 ≤ length p.1)%nat.
Proof. intros Hread (ts & us & -> & _)%Hread. rewrite length_app. lia. Qed.

Lemma gather_more_ends b turns d read : ∀ p,
  reads_phrase (joined b) d read → ends (length p.1) read → (length p.1 ≤ turns)%nat →
  gather_more turns (joiner b) read p ≠ Err OutOfTurns.
Proof.
  induction turns as [|turns IH]; intros p Hread Hends Hturns; cbn [gather_more];
    destruct (fold_is (peek p.1) (joiner b)) eqn:Hk; cbn [negb]; try done;
    apply peek_folds in Hk as (k & ts & Hts & Hk); try (by destruct b); rewrite Hts in *; cbn [length tail] in *; [lia |].
  destruct (read (ts, p.2)) as [[e p1]|] eqn:Hr;
    [| intros [= ->]; exact (Hends (ts, p.2) ltac:(cbn; lia) Hr)].
  pose proof (reads_shorter _ _ _ _ _ _ Hread Hr) as Hlen. cbn [fst] in Hlen.
  assert (gather_more turns (joiner b) read p1 ≠ Err OutOfTurns) as Hmore.
  { apply IH; [done | intros q Hq; apply Hends; lia | lia]. }
  destruct (gather_more turns (joiner b) read p1) as [[es p2]|e']; [done |]. congruence.
Qed.

Lemma gather_ends b d read p :
  (∀ d, reads_phrase (joined b) d (read d)) → (∀ d, ends (length p.1) (read d)) →
  gather (joiner b) read d p ≠ Err OutOfTurns.
Proof.
  intros Hread Hends. unfold gather.
  destruct (read d p) as [[e p1]|] eqn:Hr; [| intros [= ->]; by apply (Hends d p)].
  pose proof (reads_shorter _ _ _ _ _ _ (Hread d) Hr) as Hlen.
  pose proof (gather_more_ends b (length p1.1) (d + 1) (read (d + 1)) p1 (Hread _)) as Hmore.
  destruct (gather_more _ _ _ p1) as [[es p2]|e']; [done |]. intros [= ->].
  apply Hmore; [intros q Hq; apply Hends; lia | done | done].
Qed.

Lemma parser_ends fuel :
  (∀ d n, (3 * n + 3 ≤ fuel)%nat → ends n (sigma_expression terms fuel d))
  ∧ (∀ d n, (3 * n + 2 ≤ fuel)%nat → ends n (conjunction terms fuel d))
  ∧ (∀ d n, (3 * n + 1 ≤ fuel)%nat → ends n (factor terms fuel d)).
Proof.
  induction fuel as [|fuel (IHe & IHc & IHf)]; [split_and!; intros; lia |].
  destruct (parser_sound fuel) as (_ & Sc & Sf). split_and!; intros d n Hfuel p Hp.
  - cbn [sigma_expression]. destruct (MaxDepth <? d); [done |].
    pose proof (gather_ends true d (conjunction terms fuel) p Sc) as Hg. cbn [joiner] in Hg.
    destruct (gather "or" _ d p) as [[[t more] p']|e]; [done |]. intros [= ->].
    apply Hg; [| done]. intros d' q Hq. apply (IHc d' n); lia.
  - cbn [conjunction]. pose proof (gather_ends false d (factor terms fuel) p Sf) as Hg. cbn [joiner] in Hg.
    destruct (gather "and" _ d p) as [[[t more] p']|e]; [done |]. intros [= ->].
    apply Hg; [| done]. intros d' q Hq. apply (IHf d' n); lia.
  - cbn [factor]. destruct (MaxDepth <? d); [done |]. destruct p as [[|token tokens] used]; [done |].
    cbn [peek head default tail fst snd length] in *. unfold id. case_bool_decide; [done |].
    destruct n as [|n]; [lia |]. destruct (fold_is token "not").
    { pose proof (IHf (d + 1) n ltac:(lia) (tokens, used) ltac:(cbn; lia)) as H'.
      destruct (factor terms fuel _ _) as [[t p']|e]; [done |]. congruence. }
    case_bool_decide.
    { pose proof (IHe (d + 1) n ltac:(lia) (tokens, used) ltac:(cbn; lia)) as H'.
      destruct (sigma_expression terms fuel _ _) as [[t [ts us]]|e]; [by case_bool_decide |]. congruence. }
    destruct (fold_is _ "of").
    { assert (∀ q t, quantified terms q t ≠ Err OutOfTurns) as Hq.
      { intros q t. unfold quantified, matching. repeat case_match; congruence. }
      specialize (Hq token (peek (tail tokens))). destruct (quantified terms _ _) as [[? ?]|]; [done |]. congruence. }
    by destruct (term_of terms token).
Qed.

Lemma read_condition_ends tokens : read_condition terms tokens ≠ Err OutOfTurns.
Proof. apply (proj1 (parser_ends _) 0 (length tokens)); [unfold enough; lia | done]. Qed.

Lemma read_condition_sound tokens e rest us :
  read_condition terms tokens = Ok (e, (rest, us)) →
  ∃ ts, tokens = ts ++ rest ∧ derives Condition 0 ts [e] us.
Proof. intros (ts & us' & H1 & H2 & Hd)%(proj1 (parser_sound _)). cbn in *. subst. by eauto. Qed.

Lemma read_condition_complete ts rest e us :
  derives Condition 0 ts [e] us → stops Condition rest → read_condition terms (ts ++ rest) = Ok (e, (rest, us)).
Proof.
  intros Hd Hstop.
  destruct (parser_complete _ _ _ _ _ Hd (enough (ts ++ rest)) rest []) as (e' & [= <-] & H); [| done | done].
  unfold need, enough. rewrite length_app. lia.
Qed.
End grammar.

(** C34. The reader of a Sigma condition always ends, and it accepts a condition as a
    whole exactly when the condition is one of the grammar, saying of the selections
    what the grammar says and naming as used the ones the condition names; before
    the pipe of an aggregation it reads exactly the part before the pipe. No
    condition of the grammar has two readings. *)
Theorem a_condition_is_read_by_its_grammar (terms : list (string * Expression)) (tokens : list string) :
  read_condition terms tokens ≠ Err OutOfTurns
  ∧ (∀ e us, read_condition terms tokens = Ok (e, ([], us)) ↔ derives terms Condition 0 tokens [e] us)
  ∧ (∀ e us rest, read_condition terms (tokens ++ "|" :: rest) = Ok (e, ("|" :: rest, us))
       ↔ derives terms Condition 0 tokens [e] us)
  ∧ (∀ e us e' us', derives terms Condition 0 tokens [e] us → derives terms Condition 0 tokens [e'] us' →
       e = e' ∧ us = us').
Proof.
  split_and!; [apply read_condition_ends | intros e us; split | intros e us rest; split |].
  - intros (ts & -> & Hd)%read_condition_sound. by rewrite app_nil_r.
  - intros Hd. by apply (read_condition_complete terms tokens [] e us) in Hd; [rewrite app_nil_r in Hd |].
  - intros (ts & H & Hd)%read_condition_sound. by apply app_inj_2 in H as [-> _].
  - intros Hd. by apply read_condition_complete.
  - intros e us e' us' H H'.
    apply (read_condition_complete terms tokens []) in H, H'; [| by split_and!..]. simplify_eq. by rewrite H in H'; simplify_eq.
Qed.
