(* ===== verification/SigmaValue.v ===== *)
(** * The values and selections of a Sigma rule

    sigma/taxonomy.go, value.go, selection.go and the reading of mappings in
    document.go: what a question under a field of a selection becomes in the rule
    language. A node is yaml.v3's, by the parts the source reads of it; that library
    decodes the document and booleans, and the standard library folds text that is
    not ASCII and parses floats: parameters. The position, part and prose of a
    refusal are not modelled, its kind is a constructor. *)

From Stdlib Require Import ZArith Lia Ascii Floats.SpecFloat.
From stdpp Require Import base tactics option strings numbers list.
From S2P Require Import Prelude Text Scan Rule Contract Compile Validate Agent Authz Session Event Canonical SigmaCondition.

(** ** Nodes *)

Inductive NodeKind := DocumentNode | SequenceNode | MappingNode | ScalarNode | AliasNode.
#[global] Instance NodeKind_eq_dec : EqDecision NodeKind.
Proof. solve_decision. Defined.

Inductive YamlNode := NodeOf {
  yn_kind : NodeKind;
  yn_tag : string;
  yn_value : string;
  yn_content : list YamlNode;
  yn_alias : option YamlNode;
}.

Class SigmaLibraries := {
  ParseFloat : string → option float64;   (* strconv.ParseFloat(_, 64) *)
  Decode_bool : YamlNode → option bool;   (* node.Decode(&truth) *)
}.

Definition is_scalar (node : YamlNode) : bool := bool_decide (yn_kind node = ScalarNode).
Definition is_null (node : YamlNode) : bool := is_scalar node && bool_decide (yn_tag node = "!!null").

Fixpoint resolve_from (depth : nat) (node : option YamlNode) : option YamlNode :=
  match depth, node with
  | S depth, Some n => if bool_decide (yn_kind n = AliasNode) then resolve_from depth (yn_alias n) else node
  | _, _ => node
  end.

Definition sigma_resolve (node : option YamlNode) : option YamlNode := resolve_from (Z.to_nat MaxDepth) node.

Inductive SigmaFault :=
| NotAMapping | SaysTwice (name : string) | NotText | NotTextOrList
| UnknownField (name : string) | NoLongerDeclared (field : Field)
| AsksTwo | Untranslatable (modifier : string) | UnknownModifier (modifier : string)
| AsksPresenceAndMore | AsksAllOf (operator : Operator)
| NeitherValueNorList | EmptyList | NotTrueOrFalse | NotAValue | HoldsANumber | HoldsATruth
| NotAsked (kind : Kind) (operator : Operator)
| WildcardInside | MatchesTwice | MatchesEverything
| CasedChoice | NeedsCased | CasedCanonical | CasedTyped | CasedFolded
| NothingUnder | KeywordList | NeitherMapNorList | AsksNothing
| InCondition (reason : SigmaReason).

(** ** Mappings read one key at a time (document.go) *)

Record mapping := mkMapping {
  mp_node : YamlNode;
  mp_entries : list (string * (YamlNode * YamlNode));
  mp_taken : list string;
}.

Definition mp_order (m : mapping) : list string := (mp_entries m).*1.

Definition entry_of (m : mapping) (name : string) : option (YamlNode * YamlNode) :=
  snd <$> List.find (λ e, bool_decide (e.1 = name)) (mp_entries m).

Fixpoint fields_from (entries : list (string * (YamlNode * YamlNode))) (content : list YamlNode)
    : result SigmaFault (list (string * (YamlNode * YamlNode))) :=
  match content with
  | key :: value :: content =>
      if contains_elem entries.*1 (yn_value key) then Err (SaysTwice (yn_value key))
      else fields_from (entries ++ [(yn_value key, (key, value))]) content
  | _ => Ok entries
  end.

Definition fieldsOf (node : option YamlNode) : result SigmaFault mapping :=
  match sigma_resolve node with
  | None => Err NotAMapping
  | Some node =>
      if negb (bool_decide (yn_kind node = MappingNode)) then Err NotAMapping
      else match fields_from [] (yn_content node) with
           | Err e => Err e
           | Ok entries => Ok (mkMapping node entries [])
           end
  end.

Definition mapping_take (m : mapping) (name : string) : mapping * option YamlNode :=
  (mkMapping (mp_node m) (mp_entries m) (name :: mp_taken m), sigma_resolve (snd <$> entry_of m name)).

Definition mapping_at (m : mapping) (name : string) : YamlNode :=
  match sigma_resolve (snd <$> entry_of m name) with
  | Some value => value
  | None => match entry_of m name with Some (key, _) => key | None => mp_node m end
  end.

Definition mapping_rest (m : mapping) : list string :=
  filter (λ name, name ∉ mp_taken m) (mp_order m).

Definition words (m : mapping) (name : string) : mapping * result SigmaFault string :=
  let '(m, node) := mapping_take m name in
  (m, match node with
      | None => Ok ""
      | Some node =>
          if negb (is_scalar node) || negb (bool_decide (yn_tag node = "!!str")) then Err NotText else Ok (yn_value node)
      end).

Fixpoint text_items (items : list YamlNode) : result SigmaFault (list string) :=
  match items with
  | [] => Ok []
  | item :: items =>
      match sigma_resolve (Some item) with
      | None => Err NotText
      | Some value =>
          if negb (is_scalar value) || negb (bool_decide (yn_tag value = "!!str")) then Err NotText
          else match text_items items with Err e => Err e | Ok read => Ok (yn_value value :: read) end
      end
  end.

Definition sigma_list (m : mapping) (name : string) : mapping * result SigmaFault (list string) :=
  let '(m, node) := mapping_take m name in
  (m, match node with
      | None => Ok []
      | Some node =>
          if is_scalar node && bool_decide (yn_tag node = "!!str") then Ok [yn_value node]
          else if negb (bool_decide (yn_kind node = SequenceNode)) then Err NotTextOrList
          else text_items (yn_content node)
      end).

(** ** The taxonomy (taxonomy.go) *)

Inductive holding := folded | preserved | canonical_form | typed.
Record mapped := mkMapped { ma_field : Field; ma_holds : holding }.

Definition taxonomy_table : list (string * mapped) :=
  [("Outcome", mkMapped "authentication.outcome" typed);
   ("Activity", mkMapped "authentication.activity" typed);
   ("AuthenticationPackageName", mkMapped "authentication.method" folded);
   ("TargetUserName", mkMapped "authentication.user.name" preserved);
   ("TargetDomainName", mkMapped "authentication.user.domain" folded);
   ("ServiceName", mkMapped "authentication.service.name" folded);
   ("Protocol", mkMapped "authentication.service.protocol" folded);
   ("SourceIp", mkMapped "authentication.network.source.ip" canonical_form);
   ("SourcePort", mkMapped "authentication.network.source.port" typed);
   ("DestinationIp", mkMapped "authentication.network.destination.ip" canonical_form);
   ("DestinationPort", mkMapped "authentication.network.destination.port" typed);
   ("Transport", mkMapped "authentication.network.transport" typed);
   ("Computer", mkMapped "origin.host.hostname" folded)].

Definition taxonomy (name : string) : option mapped :=
  snd <$> List.find (λ entry, bool_decide (entry.1 = name)) taxonomy_table.

Record logsource := mkLogsource { ls_category : string; ls_product : string; ls_service : string }.
#[global] Instance logsource_eq_dec : EqDecision logsource.
Proof. solve_decision. Defined.

Definition classOf (source : logsource) : option EventClass :=
  if bool_decide (source = mkLogsource "" "linux" "sshd") then Some EVENT_CLASS_AUTHENTICATION
  else if bool_decide (source = mkLogsource "" "linux" "auth") then Some EVENT_CLASS_AUTHENTICATION
  else None.

(** ** Values (value.go) *)

Definition comparators (modifier : string) : option Operator :=
  match modifier with
  | "contains" => Some Contains
  | "startswith" => Some StartsWith
  | "endswith" => Some EndsWith
  | "lt" => Some Below
  | "lte" => Some AtMost
  | "gt" => Some Above
  | "gte" => Some AtLeast
  | _ => None
  end%string.

Definition untranslatable : list string :=
  ["re"; "cidr"; "base64"; "base64offset"; "utf16"; "utf16le"; "utf16be"; "wide"; "windash"; "expand"; "fieldref";
   "minute"; "hour"; "day"; "week"; "month"; "year"].

Record sigma_asked := mkAsked {
  as_held : mapped;
  as_kind : Kind;
  as_operator : option Operator;
  as_cased : bool;
  as_all : bool;
  as_exists : bool;
}.

Definition as_field (q : sigma_asked) : Field := ma_field (as_held q).

(** The literal of a value and whether a wildcard is at its start and its end;
    [None] for one that is not read. [first] is whether nothing was read yet. *)
Fixpoint glob_from (first : bool) (value : string) : option (string * bool * bool) :=
  match value with
  | EmptyString => Some ("", false, false)
  | String "\" EmptyString => Some ("\", false, false)
  | String "\" (String escaped value) =>
      match glob_from false value with
      | None => None
      | Some (literal, leading, trailing) =>
          Some (if among ["*"; "?"; "\"]%char escaped then String escaped literal
                else String "\" (String escaped literal), leading, trailing)
      end
  | String "*" value =>
      if first then (λ read, (read.1.1, true, read.2)) <$> glob_from false value
      else match value with EmptyString => Some ("", false, true) | _ => None end
  | String "?" _ => None
  | String letter value => (λ read, (String letter read.1.1, read.1.2, read.2)) <$> glob_from false value
  end.

Definition glob (value : string) : option (string * bool * bool) := glob_from true value.

Section values.
Context `{Contract, EventContract, UnicodeCase, SigmaLibraries}.

Definition sigma_address (literal : string) : string :=
  let trimmed := TrimSpace literal in
  match ParseAddr trimmed with None => trimmed | Some parsed => Unmap_String parsed end.

Fixpoint read_modifiers (written : list string) (q : sigma_asked) : result SigmaFault sigma_asked :=
  match written with
  | [] => Ok q
  | modifier :: written =>
      if bool_decide (modifier = "all") then
        read_modifiers written (mkAsked (as_held q) (as_kind q) (as_operator q) (as_cased q) true (as_exists q))
      else if bool_decide (modifier = "cased") then
        read_modifiers written (mkAsked (as_held q) (as_kind q) (as_operator q) true (as_all q) (as_exists q))
      else if bool_decide (modifier = "exists") then
        read_modifiers written (mkAsked (as_held q) (as_kind q) (as_operator q) (as_cased q) (as_all q) true)
      else match comparators modifier with
      | Some operator =>
          match as_operator q with
          | Some _ => Err AsksTwo
          | None =>
              read_modifiers written
                (mkAsked (as_held q) (as_kind q) (Some operator) (as_cased q) (as_all q) (as_exists q))
          end
      | None => Err (if contains_elem untranslatable modifier then Untranslatable modifier else UnknownModifier modifier)
      end
  end.

Definition textual (operator : Operator) : bool :=
  bool_decide (operator = Contains) || bool_decide (operator = StartsWith) || bool_decide (operator = EndsWith).

Definition modifiers (written : string) (q : sigma_asked) : result SigmaFault sigma_asked :=
  if bool_decide (written = "") then Ok q
  else match read_modifiers (Split written "|") q with
       | Err e => Err e
       | Ok q =>
           if as_exists q && (as_all q || as_cased q || bool_decide (as_operator q ≠ None)) then Err AsksPresenceAndMore
           else match as_operator q with
                | Some operator => if as_all q && negb (textual operator) then Err (AsksAllOf operator) else Ok q
                | None => Ok q
                end
       end.

Definition sigma_pattern (q : sigma_asked) (node : YamlNode) : result SigmaFault (Operator * string) :=
  match glob (yn_value node) with
  | None => Err WildcardInside
  | Some (literal, leading, trailing) =>
      if (leading || trailing) && bool_decide (as_operator q ≠ None) then Err MatchesTwice
      else if bool_decide (TrimSpace literal = "") then Err MatchesEverything
      else Ok (match as_operator q with
               | Some operator => operator
               | None =>
                   match leading, trailing with
                   | true, true => Contains
                   | true, false => EndsWith
                   | false, true => StartsWith
                   | false, false => Equals
                   end
               end, literal)
  end.

Definition sigma_written (q : sigma_asked) (operator : Operator) (literal : string) : result SigmaFault string :=
  if bool_decide (as_kind q = Choice) then
    if as_cased q then Err CasedChoice else Ok (strings_ToLower (TrimSpace literal))
  else match ma_holds (as_held q) with
  | preserved => if negb (as_cased q) then Err NeedsCased else Ok literal
  | canonical_form =>
      if as_cased q then Err CasedCanonical
      else if negb (bool_decide (operator = Equals)) then Ok literal
      else Ok (sigma_address literal)
  | typed => if as_cased q then Err CasedTyped else Ok literal
  | folded => if as_cased q then Err CasedFolded else Ok (strings_ToLower (TrimSpace literal))
  end.

Definition sigma_term (q : sigma_asked) (node : option YamlNode) : result SigmaFault Predicate :=
  match node with
  | None => Err NotAValue
  | Some node =>
      if negb (is_scalar node) || bool_decide (yn_tag node = "!!null") then Err NotAValue
      else match as_kind q with
      | Number =>
          match ParseFloat (TrimSpace (yn_value node)) with
          | None => Err HoldsANumber
          | Some number => Ok (mkPredicate (as_field q) (default Equals (as_operator q)) [NumberValue number])
          end
      | Truth =>
          match (if bool_decide (yn_tag node = "!!bool") then Decode_bool node else None), as_operator q with
          | Some truth, None => Ok (mkPredicate (as_field q) Equals [TruthValue truth])
          | _, _ => Err HoldsATruth
          end
      | kind =>
          if bool_decide (kind = Choice) && bool_decide (as_operator q ≠ None) then
            Err (NotAsked kind (default Equals (as_operator q)))
          else match sigma_pattern q node with
          | Err e => Err e
          | Ok (operator, literal) =>
              match sigma_written q operator literal with
              | Err e => Err e
              | Ok written => Ok (mkPredicate (as_field q) operator [TextValue written])
              end
          end
      end
  end.

(** What a list of plain values becomes; [None] when they are not one question. *)
Fixpoint one_of_values (q : sigma_asked) (items : list YamlNode) : option (list Value) :=
  match items with
  | [] => Some []
  | item :: items =>
      match sigma_resolve (Some item) with
      | None => None
      | Some item =>
          if negb (is_scalar item) || bool_decide (yn_tag item = "!!null") then None
          else match sigma_term q (Some item) with
               | Err _ => None
               | Ok predicate =>
                   if negb (bool_decide (pred_operator predicate = Equals)) then None
                   else match head (pred_values predicate), one_of_values q items with
                        | Some value, Some values => Some (value :: values)
                        | _, _ => None
                        end
               end
      end
  end.

Definition oneOf (q : sigma_asked) (node : YamlNode) : option Predicate :=
  if as_all q || bool_decide (as_operator q ≠ None) || bool_decide (as_kind q = Truth) then None
  else (λ values, mkPredicate (as_field q) OneOf values) <$> one_of_values q (yn_content node).

Definition presence (q : sigma_asked) (node : YamlNode) : result SigmaFault Expression :=
  match (if is_scalar node && bool_decide (yn_tag node = "!!bool") then Decode_bool node else None) with
  | None => Err NotTrueOrFalse
  | Some there =>
      let present := Pred (mkPredicate (as_field q) Present []) in
      Ok (if there then present else Not present)
  end.

(** The first refusal of a list, or everything it became. *)
Fixpoint collected {A B} (f : A → result SigmaFault B) (items : list A) : result SigmaFault (list B) :=
  match items with
  | [] => Ok []
  | item :: items =>
      match f item with
      | Err e => Err e
      | Ok read => match collected f items with Err e => Err e | Ok more => Ok (read :: more) end
      end
  end.

Definition compared (q : sigma_asked) (node : YamlNode) : result SigmaFault Expression :=
  if as_exists q then presence q node
  else if is_null node then Ok (Not (Pred (mkPredicate (as_field q) Present [])))
  else if is_scalar node then
    match sigma_term q (Some node) with Err e => Err e | Ok predicate => Ok (Pred predicate) end
  else if negb (bool_decide (yn_kind node = SequenceNode)) then Err NeitherValueNorList
  else if bool_decide (yn_content node = []) then Err EmptyList
  else match oneOf q node with
  | Some listed => Ok (Pred listed)
  | None =>
      match collected (λ item, sigma_term q (sigma_resolve (Some item))) (yn_content node) with
      | Err e => Err e
      | Ok terms => Ok (if as_all q then All (Pred <$> terms) else Any (Pred <$> terms))
      end
  end.

Definition question (key : string) (node : YamlNode) : result SigmaFault Expression :=
  let '(name, written, _) := Cut key "|" in
  match taxonomy name with
  | None => Err (UnknownField name)
  | Some held =>
      match KindOf (ma_field held) with
      | None => Err (NoLongerDeclared (ma_field held))
      | Some kind =>
          match modifiers written (mkAsked held kind None false false false) with
          | Err e => Err e
          | Ok q => compared q node
          end
      end
  end.

(** ** Selections (selection.go) *)

Definition sigma_questions (node : option YamlNode) : result SigmaFault Expression :=
  match fieldsOf node with
  | Err e => Err e
  | Ok held =>
      match mp_order held with
      | [] => Err AsksNothing
      | order =>
          match collected (λ key, question key (default (mapping_at held key) (mapping_take held key).2)) order with
          | Err e => Err e
          | Ok terms => Ok (match terms with [one] => one | _ => All terms end)
          end
      end
  end.

Definition listed_questions (item : YamlNode) : result SigmaFault Expression :=
  match sigma_resolve (Some item) with
  | None => Err KeywordList
  | Some item => if negb (bool_decide (yn_kind item = MappingNode)) then Err KeywordList else sigma_questions (Some item)
  end.

Definition selection (node : option YamlNode) : result SigmaFault Expression :=
  match sigma_resolve node with
  | None => Err NothingUnder
  | Some node =>
      match yn_kind node with
      | MappingNode => sigma_questions (Some node)
      | SequenceNode =>
          match yn_content node with
          | [] => Err EmptyList
          | items =>
              match collected listed_questions items with
              | Err e => Err e
              | Ok terms => Ok (Any terms)
              end
          end
      | _ => Err NeitherMapNorList
      end
  end.
End values.
