(* ===== verification/SigmaMeaning.v ===== *)
(** * What a question of a Sigma rule asks once it is translated

    Sigma compares text without case. A question about a field the canonical form
    folds is translated into comparisons that keep it, put to what that form made of
    the event; here the two are shown to ask the same. *)

From Stdlib Require Import ZArith Lia Ascii Floats.SpecFloat.
From stdpp Require Import base tactics option gmap strings numbers list.
From S2P Require Import Prelude Text Scan Rule Contract Compile Validate CompileProps Agent Authz Session Event Canonical SigmaCondition SigmaValue.

(** ** Globs *)

Definition needs_escape (c : ascii) : bool := among ["*"; "?"; "\"]%char c.

(** A literal, every letter of it that a glob would read put down as itself. *)
Fixpoint escape (s : string) : string :=
  match s with
  | EmptyString => ""
  | String c s => if needs_escape c then String "\" (String c (escape s)) else String c (escape s)
  end.

Definition star (b : bool) : string := if b then "*" else "".

Lemma needs_escape_spec c : needs_escape c = true ↔ c = "*"%char ∨ c = "?"%char ∨ c = "\"%char.
Proof. unfold needs_escape, among. rewrite bool_decide_eq_true. set_solver. Qed.

Lemma glob_from_plain c first s : needs_escape c = false →
  glob_from first (String c s) = (λ read, (String c read.1.1, read.1.2, read.2)) <$> glob_from false s.
Proof.
  intros Hc. assert (c ≠ "*"%char ∧ c ≠ "?"%char ∧ c ≠ "\"%char) as (H1 & H2 & H3).
  { split_and!; intros ->; by rewrite (proj2 (needs_escape_spec _)) in Hc by auto. }
  destruct c as [[] [] [] [] [] [] [] []]; try reflexivity; done.
Qed.

Lemma glob_from_escaped first l trailing : first = false ∨ l ≠ "" ∨ trailing = false →
  glob_from first (escape l +:+ star trailing) = Some (l, false, trailing).
Proof.
  revert first. induction l as [|c l IH]; intros first Hl.
  { destruct trailing; [| done]. destruct first; [naive_solver | done]. }
  cbn [escape]. destruct (needs_escape c) eqn:Hc; cbn [String.app].
  - change (glob_from first (String "\" (String c (escape l +:+ star trailing))) = Some (String c l, false, trailing)).
    cbn [glob_from]. rewrite IH by auto. unfold needs_escape in Hc. by rewrite Hc.
  - change (glob_from first (String c (escape l +:+ star trailing)) = Some (String c l, false, trailing)).
    rewrite glob_from_plain, IH by auto. done.
Qed.

(** Every literal can be said with a wildcard at either end or none. *)
Lemma glob_escaped l leading trailing : leading = true ∨ l ≠ "" ∨ trailing = false →
  glob (star leading +:+ escape l +:+ star trailing) = Some (l, leading, trailing).
Proof.
  unfold glob. intros Hl. destruct leading.
  - change (glob_from true (String "*" (escape l +:+ star trailing)) = Some (l, true, trailing)).
    cbn [glob_from]. by rewrite glob_from_escaped by auto.
  - apply glob_from_escaped. naive_solver.
Qed.

(** ** What Sigma says of a value *)

(** Text as it is compared: in any case of letters, unless the question is |cased. *)
Definition as_compared (cased : bool) (text : string) : string := if cased then text else ToLower text.

(** A value answers a literal with wildcards when the literal stands where the
    wildcards leave it. *)
Definition sigma_says (cased leading trailing : bool) (literal value : string) : Prop :=
  ∃ before after, as_compared cased value = before +:+ as_compared cased literal +:+ after
    ∧ (leading = false → before = "") ∧ (trailing = false → after = "").

Definition opens (operator : option Operator) : bool := bool_decide (operator = Some Contains ∨ operator = Some EndsWith).
Definition closes (operator : option Operator) : bool := bool_decide (operator = Some Contains ∨ operator = Some StartsWith).

(** A value of a document answered by an event that holds [reported] in the field. *)
Definition term_says (q : sigma_asked) (value reported : string) : Prop :=
  ∃ literal leading trailing, glob value = Some (literal, leading, trailing)
    ∧ sigma_says (as_cased q) (leading || opens (as_operator q)) (trailing || closes (as_operator q)) literal reported.

Definition held_says (said : string → Prop) (reported : option string) : Prop := ∃ v, reported = Some v ∧ said v.

(** What is asked of a field by everything under it. *)
Definition question_says (q : sigma_asked) (there : option bool) (node : YamlNode) (reported : option string) : Prop :=
  if as_exists q then (there = Some true ↔ is_Some reported)
  else if is_null node then reported = None
  else if is_scalar node then held_says (term_says q (yn_value node)) reported
  else
    let said item := ∃ item', sigma_resolve (Some item) = Some item' ∧ held_says (term_says q (yn_value item')) reported in
    if as_all q then Forall said (yn_content node) else Exists said (yn_content node).

(** A literal asked in any case is text of ASCII no space surrounds. *)
Definition plain_literal (q : sigma_asked) (node : YamlNode) : Prop :=
  ∀ l leading trailing, glob (yn_value node) = Some (l, leading, trailing) →
    as_cased q = false → ascii_only l = true ∧ TrimSpace l = l.

Definition plain_question (q : sigma_asked) (node : YamlNode) : Prop :=
  if is_scalar node then plain_literal q node
  else ∀ item item', item ∈ yn_content node → sigma_resolve (Some item) = Some item' → plain_literal q item'.

(** ** What an agent reported *)

Definition some_text (text : string) : option string := if bool_decide (text = "") then None else Some text.

(** The texts of an event by the fields a rule names them with, but its addresses. *)
Definition text_at (field : Field) (e : EventMessage) : option string :=
  let body (read : AuthenticationBody → option string) := a ← em_authentication e; read a in
  if bool_decide (field = "authentication.method") then body (λ a, some_text (au_method a))
  else if bool_decide (field = "authentication.user.name") then body (λ a, u ← au_user a; some_text (us_name u))
  else if bool_decide (field = "authentication.user.domain") then body (λ a, u ← au_user a; some_text (us_domain u))
  else if bool_decide (field = "authentication.service.name") then body (λ a, s ← au_service a; some_text (sv_name s))
  else if bool_decide (field = "authentication.service.protocol") then body (λ a, s ← au_service a; some_text (sv_protocol s))
  else if bool_decide (field = "origin.host.hostname") then o ← em_origin e; h ← or_host o; some_text (ho_hostname h)
  else None.

(** The text of a field as it names what it names: without the spaces around it, and a
    host without the dot that only says its name is absolute. *)
Definition names_it (field : Field) (text : string) : string :=
  let trimmed := TrimSpace text in
  if bool_decide (field = "origin.host.hostname") then TrimSuffix trimmed "." else trimmed.

Definition reported_text (field : Field) (e : EventMessage) : option string := text_at field e ≫= λ text, some_text (names_it field text).

Definition text_fields : list Field :=
  ["authentication.method"; "authentication.user.name"; "authentication.user.domain"; "authentication.service.name";
   "authentication.service.protocol"; "origin.host.hostname"].

(** What reflection reads of a text of an event: it is there when it is not empty and the
    messages on the way to it are set. *)
Class ReflectedEvents (M : Type) `{Contract, Messages M} := {
  reflected : EventMessage → M;
  reflected_text e field path : field ∈ text_fields →
    KindOf field = Some Text → pathOf field = Some path → read (reflected e) path = PString <$> text_at field e;
}.

(** ** One value *)

Definition shaped (o : Operator) : bool := textual o || bool_decide (o = Equals).

Lemma shaped_cases o : shaped o = true → o = Contains ∨ o = StartsWith ∨ o = EndsWith ∨ o = Equals.
Proof. by destruct o; auto. Qed.

Lemma pattern_shape q node o l :
  (∀ o, as_operator q = Some o → textual o = true) → sigma_pattern q node = Ok (o, l) →
  ∃ leading trailing, glob (yn_value node) = Some (l, leading, trailing) ∧ shaped o = true
    ∧ opens (Some o) = leading || opens (as_operator q) ∧ closes (Some o) = trailing || closes (as_operator q).
Proof.
  intros Htext. unfold sigma_pattern. destruct (glob (yn_value node)) as [[[l' leading] trailing]|]; [| done].
  destruct (as_operator q) as [o'|] eqn:Ho.
  - specialize (Htext _ eq_refl). destruct (leading || trailing) eqn:Hboth; [by rewrite bool_decide_eq_true_2 |].
    apply orb_false_iff in Hboth as [-> ->]. cbn [andb]. case_bool_decide; [done |]. intros [= <- <-].
    exists false, false. unfold shaped. by rewrite Htext.
  - rewrite andb_false_r. case_bool_decide; [done |]. intros [= <- <-]. exists leading, trailing. by destruct leading, trailing.
Qed.

Section meaning.
Context `{CT : Contract, EC : EventContract, UC : UnicodeCase, SL : SigmaLibraries} {M : Type} `{MS : Messages M, FM : Formats}.

Lemma literal_text leaf t : fd_kind leaf = StringKind → literalOf (TextValue t) leaf = Ok (PString t).
Proof. unfold literalOf. by intros ->. Qed.

Lemma text_answers f o t leaf v : fd_kind leaf = StringKind → shaped o = true →
  predicate_truth (mkPredicate f o [TextValue t]) leaf (PString v) = true
  ↔ ∃ before after, v = before +:+ t +:+ after
      ∧ (opens (Some o) = false → before = "") ∧ (closes (Some o) = false → after = "").
Proof.
  intros Hleaf Ho. unfold predicate_truth. cbn [pred_operator pred_values]. rewrite (literal_text leaf t Hleaf).
  destruct (shaped_cases o Ho) as [-> | [-> | [-> | ->]]]; cbn; rewrite andb_true_r.
  - rewrite StringContains_spec. split; [intros (a & b & ->); by exists a, b | intros (a & b & -> & _); by exists a, b].
  - rewrite HasPrefix_spec. split; [intros [b ->]; by exists "", b | intros (a & b & -> & Ha & _); exists b; by rewrite Ha].
  - rewrite HasSuffix_app. split.
    + intros [a ->]. exists a, "". by rewrite string_app_empty_r.
    + intros (a & b & -> & _ & Hb). exists a. by rewrite Hb, string_app_empty_r.
  - rewrite bool_decide_eq_true. split.
    + intros ->. exists "", "". by rewrite string_app_empty_r.
    + intros (a & b & -> & Ha & Hb). by rewrite Ha, Hb, string_app_empty_r.
Qed.

(** A field keeps the case of what was reported in it, or folds it. *)
Definition keeps_case (held : mapped) : bool := match ma_holds held with preserved => true | _ => false end.

(** A record that holds in a field what was reported in it, as the field compares it. *)
Record field_holds (record : M) (field : Field) (kept : bool) (said : option string) : Prop := {
  fh_kind : KindOf field = Some Text;
  fh_value : ∀ path, pathOf field = Some path → read record path = (λ text, PString (as_compared kept text)) <$> said;
}.

Context (record : M) (q : sigma_asked) (said : option string) (Hcase : ma_holds (as_held q) = folded ∨ ma_holds (as_held q) = preserved)
  (Hholds : field_holds record (as_field q) (keeps_case (as_held q)) said) (Hkind : as_kind q = Text)
  (Htext : ∀ o, as_operator q = Some o → textual o = true).

Lemma field_leaf : ∃ path leaf, pathOf (as_field q) = Some path ∧ last path = Some leaf ∧ fd_kind leaf = StringKind
  ∧ read record path = (λ text, PString (as_compared (keeps_case (as_held q)) text)) <$> said.
Proof using Hholds.
  destruct Hholds as [Hk Hvalue]. destruct (KindOf_path _ _ Hk) as [path Hpath].
  destruct (vocable_leaf _ _ Hpath) as (leaf & kind & Hlast & Hk' & Hleaf & _). rewrite Hk in Hk'. simplify_eq.
  exists path, leaf. split_and!; auto. by apply kind_of_leaf_text.
Qed.

Lemma denote_text o values : ∃ leaf, fd_kind leaf = StringKind
  ∧ denote (Pred (mkPredicate (as_field q) o values)) record
    = match said with
      | None => false
      | Some text => predicate_truth (mkPredicate (as_field q) o values) leaf (PString (as_compared (keeps_case (as_held q)) text))
      end.
Proof using Hholds.
  destruct field_leaf as (path & leaf & Hpath & Hlast & Hleaf & Hread). exists leaf. split; [done |].
  cbn [denote pred_field]. rewrite Hpath, Hread, Hlast. by destruct said.
Qed.

Lemma denote_present : denote (Pred (mkPredicate (as_field q) Present [])) record = true ↔ is_Some said.
Proof using Hholds.
  destruct (denote_text Present []) as (leaf & _ & ->). destruct said; cbn; [by split; eauto | split; [done | by intros [? ?]]].
Qed.

Lemma sigma_term_shape node p : sigma_term q (Some node) = Ok p → plain_literal q node →
  ∃ o l leading trailing, p = mkPredicate (as_field q) o [TextValue (as_compared (as_cased q) l)] ∧ shaped o = true
    ∧ as_cased q = keeps_case (as_held q) ∧ glob (yn_value node) = Some (l, leading, trailing)
    ∧ opens (Some o) = leading || opens (as_operator q) ∧ closes (Some o) = trailing || closes (as_operator q).
Proof using Hkind Hcase Htext.
  clear Hholds. intros Hterm Hplain. unfold sigma_term in Hterm. rewrite Hkind in Hterm.
  destruct (negb (is_scalar node) || _); [done |]. rewrite (bool_decide_eq_false_2 (Text = Choice)) in Hterm by done.
  cbn [andb] in Hterm. destruct (sigma_pattern q node) as [[o l]|] eqn:Hpattern; [| done].
  apply pattern_shape in Hpattern as (leading & trailing & Hg & Ho & Hopens & Hcloses); [| done].
  unfold sigma_written in Hterm. rewrite Hkind in Hterm. rewrite (bool_decide_eq_false_2 (Text = Choice)) in Hterm by done.
  exists o, l, leading, trailing. unfold keeps_case, plain_literal in *.
  destruct Hcase as [Hh|Hh]; rewrite Hh in *; destruct (as_cased q); try discriminate Hterm; injection Hterm as <-.
  - destruct (Hplain _ _ _ Hg eq_refl) as [Ha Ht]. unfold strings_ToLower. by rewrite Ht, Ha.
  - by split_and!.
Qed.

Lemma denote_term node p : sigma_term q (Some node) = Ok p → plain_literal q node →
  denote (Pred p) record = true ↔ held_says (term_says q (yn_value node)) said.
Proof using Hholds Hkind Hcase Htext.
  intros Hterm Hplain.
  destruct (sigma_term_shape _ _ Hterm Hplain) as (o & l & leading & trailing & -> & Ho & Hkept & Hg & Hopens & Hcloses).
  destruct (denote_text o [TextValue (as_compared (as_cased q) l)]) as (leaf & Hleaf & ->).
  unfold held_says, term_says. rewrite <- Hkept. destruct said as [text|]; [| naive_solver].
  rewrite text_answers by done. unfold sigma_says. split.
  - intros Hs. exists text. split; [done |]. exists l, leading, trailing. by rewrite <- Hopens, <- Hcloses.
  - intros (? & [= <-] & ? & ? & ? & Hg' & Hs). simplify_eq. by rewrite <- Hopens, <- Hcloses in Hs.
Qed.

(** ** A list of values, as one question or as many *)

Definition item_says (item : YamlNode) : Prop :=
  ∃ item', sigma_resolve (Some item) = Some item'
    ∧ held_says (term_says q (yn_value item')) said.

Lemma denote_one_of values :
  denote (Pred (mkPredicate (as_field q) OneOf values)) record = true
  ↔ Exists (λ v, denote (Pred (mkPredicate (as_field q) Equals [v])) record = true) values.
Proof using Hholds.
  destruct field_leaf as (path & leaf & Hpath & Hlast & Hleaf & Hread).
  assert (∀ o vs, denote (Pred (mkPredicate (as_field q) o vs)) record
    = match (λ text, PString (as_compared (keeps_case (as_held q)) text)) <$> said with
      | None => false | Some v => predicate_truth (mkPredicate (as_field q) o vs) leaf v end) as Hd.
  { intros o vs. cbn [denote pred_field]. rewrite Hpath, Hread, Hlast. by destruct said. }
  rewrite Hd. setoid_rewrite Hd. destruct said as [text|]; cbn [fmap option_fmap option_map].
  - cbn [predicate_truth pred_operator pred_values]. rewrite existsb_exists, Exists_exists.
    split; intros (v & Hin & Hv); exists v; apply list_elem_of_In in Hin; (split; [done |]);
      unfold equals_literal in *; destruct (literalOf v leaf); try done; cbn in *; by rewrite andb_true_r in *.
  - split; [done |]. by intros (v & _ & Hv)%Exists_exists.
Qed.

Lemma one_of_says items : ∀ values, one_of_values q items = Some values → as_operator q = None →
  (∀ item item', item ∈ items → sigma_resolve (Some item) = Some item' → plain_literal q item') →
  Exists (λ v, denote (Pred (mkPredicate (as_field q) Equals [v])) record = true) values ↔ Exists item_says items.
Proof using Hholds Hkind Hcase Htext.
  induction items as [|item items IH]; intros values; cbn [one_of_values].
  { intros [= <-] _ _. by rewrite !Exists_nil. }
  destruct (sigma_resolve (Some item)) as [item'|] eqn:Hr; [| done]. destruct (negb _ || _); [done |].
  destruct (sigma_term q (Some item')) as [p|] eqn:Ht; [| done]. case_bool_decide as Hop; [| done]. cbn [negb].
  intros Hvalues Hnone Hplain. assert (plain_literal q item') as Hp by (eapply Hplain; [left | done]).
  destruct (sigma_term_shape _ _ Ht Hp) as (o & l & leading & trailing & -> & _). cbn [pred_values pred_operator head] in *.
  destruct (one_of_values q items) as [more|]; [| done]. injection Hvalues as <-. subst o.
  rewrite !Exists_cons, (denote_term _ _ Ht Hp), IH; [| done | done | intros; eapply Hplain; [by right | done]].
  unfold item_says at 2. rewrite Hr. naive_solver.
Qed.

Lemma collected_says items : ∀ terms,
  collected (λ item, sigma_term q (sigma_resolve (Some item))) items = Ok terms →
  (∀ item item', item ∈ items → sigma_resolve (Some item) = Some item' → plain_literal q item') →
  Forall2 (λ term item, denote (Pred term) record = true ↔ item_says item) terms items.
Proof using Hholds Hkind Hcase Htext.
  induction items as [|item items IH]; intros terms; cbn [collected]; [by intros [= <-] _ |].
  destruct (sigma_resolve (Some item)) as [item'|] eqn:Hr; [| done].
  destruct (sigma_term q (Some item')) as [p|] eqn:Ht; [| done].
  destruct (collected _ items) as [more|]; [| done]. intros [= <-] Hplain. constructor.
  - rewrite (denote_term _ _ Ht) by (eapply Hplain; [left | done]). unfold item_says. rewrite Hr. naive_solver.
  - apply IH; [done |]. intros; eapply Hplain; [by right | done].
Qed.

Lemma denote_terms terms items :
  Forall2 (λ term item, denote (Pred term) record = true ↔ item_says item) terms items →
  (denote (All (Pred <$> terms)) record = true ↔ Forall item_says items)
  ∧ (denote (Any (Pred <$> terms)) record = true ↔ Exists item_says items).
Proof.
  induction 1 as [|term item terms items Hone _ [IHall IHany]].
  - split; cbn; [by rewrite Forall_nil | by rewrite Exists_nil].
  - split; [rewrite Forall_cons, <- Hone, <- IHall | rewrite Exists_cons, <- Hone, <- IHany];
      [exact (andb_true_iff _ _) | exact (orb_true_iff _ _)].
Qed.

Lemma presence_says node e : presence q node = Ok e →
  denote e record = true ↔ (Decode_bool node = Some true ↔ is_Some (said)).
Proof using Hholds Hcase.
  unfold presence. destruct (is_scalar node && _); [| done].
  destruct (Decode_bool node) as [there|]; [| done]. intros [= <-]. rewrite <- denote_present.
  destruct there; [naive_solver |]. change (denote (Not ?t) record) with (negb (denote t record)).
  rewrite negb_true_iff, <- not_true_iff_false. naive_solver.
Qed.

Lemma compared_says node e : compared q node = Ok e → plain_question q node →
  denote e record = true ↔ question_says q (Decode_bool node) node (said).
Proof using Hholds Hkind Hcase Htext.
  unfold compared, question_says, plain_question. destruct (as_exists q); [intros He _; by apply presence_says |].
  destruct (is_null node) eqn:Hnull.
  { intros [= <-] _. change (denote (Not ?t) record) with (negb (denote t record)).
    rewrite negb_true_iff, <- not_true_iff_false, denote_present, eq_None_not_Some. done. }
  destruct (is_scalar node).
  { destruct (sigma_term q (Some node)) as [p|] eqn:Ht; [| done]. intros [= <-] Hplain. by apply denote_term. }
  destruct (negb _); [done |]. case_bool_decide; [done |]. intros He Hplain.
  destruct (oneOf q node) as [listed|] eqn:Hone.
  - injection He as <-. unfold oneOf in Hone. destruct (as_all q); [done |]. cbn [orb] in Hone.
    case_bool_decide as Hop; [done |]. rewrite Hkind in Hone. cbn in Hone.
    destruct (one_of_values q (yn_content node)) as [values|] eqn:Hv; [| done]. injection Hone as <-.
    rewrite denote_one_of, (one_of_says _ _ Hv Hop Hplain). done.
  - destruct (collected _ _) as [terms|] eqn:Hc; [| done].
    destruct (denote_terms _ _ (collected_says _ _ Hc Hplain)) as [Hall Hany].
    by destruct (as_all q); injection He as <-.
Qed.
End meaning.

Lemma read_modifiers_held written : ∀ q q', read_modifiers written q = Ok q' →
  as_held q' = as_held q ∧ as_kind q' = as_kind q.
Proof.
  induction written as [|modifier written IH]; intros q q'; cbn [read_modifiers]; [by intros [= <-] |].
  repeat case_bool_decide; try (by intros [? ?]%IH).
  destruct (comparators modifier); [| done]. destruct (as_operator q); [done |]. by intros [? ?]%IH.
Qed.

Lemma modifiers_held written q q' : modifiers written q = Ok q' → as_held q' = as_held q ∧ as_kind q' = as_kind q.
Proof.
  unfold modifiers. case_bool_decide; [by intros [= <-] |].
  destruct (read_modifiers _ q) as [q1|] eqn:Hread; [| done]. apply read_modifiers_held in Hread.
  destruct (as_exists q1 && _); [done |]. destruct (as_operator q1); [destruct (as_all q1 && _); [done |] |]; by intros [= <-].
Qed.

(** ** What the canonical form leaves of a text *)

Lemma lower_char_dot c : lower_char c = "."%char → c = "."%char.
Proof. destruct c as [[] [] [] [] [] [] [] []]; by vm_compute. Qed.

Lemma ToLower_app s t : ToLower (s +:+ t) = ToLower s +:+ ToLower t.
Proof.
  unfold ToLower. induction s as [|c s IH]; [done |].
  change (string_map lower_char (String c s +:+ t)) with (String (lower_char c) (string_map lower_char (s +:+ t))). by rewrite IH.
Qed.

Lemma ToLower_dotted s a : ToLower s = a +:+ "." → ∃ b, s = b +:+ ".".
Proof.
  unfold ToLower. revert a. induction s as [|c s IH]; intros a; [by destruct a |].
  cbn [string_map]. destruct a as [|x a].
  - cbn. intros [= Hc Hs]. apply lower_char_dot in Hc as ->. destruct s; [by exists "" | done].
  - intros [= _ Hs]. apply IH in Hs as [b ->]. by exists (String c b).
Qed.

Lemma TrimSuffix_dot s : TrimSuffix (s +:+ ".") "." = s.
Proof.
  unfold TrimSuffix. rewrite (proj2 (HasSuffix_app (s +:+ ".") ".")) by by exists s.
  rewrite string_length_app. cbn. rewrite Nat.add_sub. by apply string_take_app.
Qed.

Lemma TrimSuffix_lower s : TrimSuffix (ToLower s) "." = ToLower (TrimSuffix s ".").
Proof.
  destruct (HasSuffix s ".") eqn:Hs.
  - apply HasSuffix_app in Hs as [a ->]. by rewrite ToLower_app, !TrimSuffix_dot.
  - unfold TrimSuffix. rewrite Hs. destruct (HasSuffix (ToLower s) ".") eqn:Hl; [| done].
    apply HasSuffix_app in Hl as [a Ha]. apply ToLower_dotted in Ha as [b ->].
    by rewrite (proj2 (HasSuffix_app (b +:+ ".") ".")) in Hs by by exists b.
Qed.

Lemma some_text_lower s : some_text (ToLower s) = ToLower <$> some_text s.
Proof. unfold some_text. by destruct s. Qed.

Lemma some_text_some s : s ≠ "" → some_text s = Some s.
Proof. unfold some_text. by case_bool_decide. Qed.

(** Which of the fields a text is read for. *)
Ltac compare_fields := repeat match goal with
  | |- context [bool_decide (?a = ?b :> string)] =>
      let v := eval vm_compute in (bool_decide (a = b)) in change (bool_decide (a = b)) with v
  | H : context [bool_decide (?a = ?b :> string)] |- _ =>
      let v := eval vm_compute in (bool_decide (a = b)) in change (bool_decide (a = b)) with v in H
  end; cbv iota in *.

Section canonical_texts.
Context `{UC : UnicodeCase, EC : EventContract}.

Definition plainly_reported (text : string) : Prop := ascii_only (TrimSpace text) = true.

Lemma trimmed_text s (left : string → string) : left (TrimSpace "") = "" →
  some_text (left (TrimSpace s)) = some_text s ≫= λ text, some_text (left (TrimSpace text)).
Proof.
  intros Hleft. destruct (decide (s = "")) as [->|Hs]; [by rewrite Hleft |].
  by rewrite (some_text_some s Hs).
Qed.

Lemma folded_text s : (∀ text, some_text s = Some text → plainly_reported text) →
  event_fold s = ToLower (TrimSpace s).
Proof.
  unfold event_fold, plainly_reported. cbv zeta. destruct (decide (s = "")) as [->|Hs]; [done |].
  rewrite (some_text_some s Hs). intros Ha. by rewrite Ha.
Qed.

Lemma kept_text s : some_text (TrimSpace s) = as_compared true <$> (some_text s ≫= λ text, some_text (TrimSpace text)).
Proof.
  pose proof (trimmed_text s id eq_refl) as Ht. unfold id in Ht. rewrite Ht. by destruct (some_text s ≫= _).
Qed.

Lemma lowered_text s (left : string → string) :
  left (TrimSpace "") = "" → (∀ text, left (ToLower text) = ToLower (left text)) →
  (∀ text, some_text s = Some text → plainly_reported text) →
  some_text (left (event_fold s)) = as_compared false <$> (some_text s ≫= λ text, some_text (left (TrimSpace text))).
Proof. intros Hempty Hleft Hplain. rewrite (folded_text s Hplain), Hleft, <- trimmed_text by done. apply some_text_lower. Qed.

(** The names of a rule whose field is text that folds case or keeps it. *)
Lemma taxonomy_texts name held : taxonomy name = Some held → ma_holds held = folded ∨ ma_holds held = preserved →
  held ∈ [mkMapped "authentication.method" folded; mkMapped "authentication.user.name" preserved;
          mkMapped "authentication.user.domain" folded; mkMapped "authentication.service.name" folded;
          mkMapped "authentication.service.protocol" folded; mkMapped "origin.host.hostname" folded].
Proof.
  unfold taxonomy. destruct (List.find _ _) as [[name' held']|] eqn:Hf; [| done]. intros [= ->] Hcase.
  apply find_some in Hf as [Hin%list_elem_of_In _]. unfold taxonomy_table in Hin.
  repeat (apply elem_of_cons in Hin as [Hin|Hin];
    [injection Hin as _ ->; first [by repeat constructor | by destruct Hcase] |]).
  by apply elem_of_nil in Hin.
Qed.

(** Each of them holds, in the canonical form of an event, the text that was reported as
    the field compares it. *)
Lemma canonical_texts name held e : taxonomy name = Some held → ma_holds held = folded ∨ ma_holds held = preserved →
  (ma_holds held = folded → ∀ text, text_at (ma_field held) e = Some text → plainly_reported text) →
  ma_field held ∈ text_fields
  ∧ text_at (ma_field held) (normalizeAuthentication e).1 = as_compared (keeps_case held) <$> reported_text (ma_field held) e.
Proof.
  intros Hname Hcase. pose proof (taxonomy_texts _ _ Hname Hcase) as Hin. clear Hname Hcase.
  destruct e as [id schema class times origin collection reception auth].
  assert (em_authentication (normalizeAuthentication (mkEventMessage id schema class times origin collection reception auth)).1
          = (λ a, (normalizeBody a).1) <$> auth) as Hauth.
  { unfold normalizeAuthentication, normalizeEnvelope. cbn [em_authentication]. destruct auth as [a|]; [| done].
    cbn [fmap option_fmap option_map]. by destruct (normalizeBody a). }
  assert (em_origin (normalizeAuthentication (mkEventMessage id schema class times origin collection reception auth)).1
          = (normalize_origin origin).1) as Horigin.
  { unfold normalizeAuthentication, normalizeEnvelope. cbn [em_authentication]. destruct auth as [a|]; [| done].
    by destruct (normalizeBody a). }
  repeat (apply elem_of_cons in Hin as [->|Hin]; [cbn [ma_holds ma_field keeps_case]; intros Hplain; split; [by repeat constructor |] |]); [.. | by apply elem_of_nil in Hin].
  all: unfold reported_text, names_it, text_at in *; rewrite ?Hauth, ?Horigin; cbn [em_authentication em_origin] in *;
    compare_fields; try specialize (Hplain eq_refl).
  all: try (destruct auth as [[? ? ? method user service network ?]|]; [cbn in Hplain |- * | done]).
  - by apply (lowered_text method (λ text, text)).
  - destruct user as [u|]; [| done]. apply kept_text.
  - destruct user as [u|]; [| done]. by apply (lowered_text (us_domain u) (λ text, text)).
  - destruct service as [v|]; [| done]. by apply (lowered_text (sv_name v) (λ text, text)).
  - destruct service as [v|]; [| done]. by apply (lowered_text (sv_protocol v) (λ text, text)).
  - destruct origin as [[? ? [h|]]|]; [| done | done].
    apply (lowered_text (ho_hostname h) (λ text, TrimSuffix text ".")); [done | apply TrimSuffix_lower | done].
Qed.
End canonical_texts.

(** C35. A question of a Sigma rule about text, but an address, holds of the canonical form
    of an event exactly when what Sigma asks holds of what the event reported in the field:
    in any case of letters, or with |cased in that case alone, every modifier, a wildcard at
    either end, a null, a list of values as one question or as many, and |exists. What was
    reported is the text without the spaces around it, and a host without the dot that makes
    its name absolute; literals and texts whose case is put aside are of ASCII, no space
    surrounds such a literal, and a numeric comparison is not asked of text. *)
Theorem a_question_asks_what_sigma_asks
    `{CT : Contract, EC : EventContract, UC : UnicodeCase, SL : SigmaLibraries} {M : Type} `{MS : Messages M, FM : Formats,
      RE : !ReflectedEvents M}
    (key name written : string) (more : bool) (held : mapped) (q : sigma_asked) (node : YamlNode) (x : Expression)
    (e : EventMessage)
    (Hkey : Cut key "|" = (name, written, more))
    (Hheld : taxonomy name = Some held)
    (Hcase : ma_holds held = folded ∨ ma_holds held = preserved)
    (Hkind : KindOf (ma_field held) = Some Text)
    (Hmodifiers : modifiers written (mkAsked held Text None false false false) = Ok q)
    (Htext : ∀ o, as_operator q = Some o → textual o = true)
    (Hplain : plain_question q node)
    (Hreported : ma_holds held = folded → ∀ text, text_at (ma_field held) e = Some text → plainly_reported text)
    (Hquestion : question key node = Ok x) :
  denote x (reflected (normalizeAuthentication e).1) = true
  ↔ question_says q (Decode_bool node) node (reported_text (ma_field held) e).
Proof.
  unfold question in Hquestion. rewrite Hkey, Hheld, Hkind, Hmodifiers in Hquestion.
  apply modifiers_held in Hmodifiers as [Hh Hk]. cbn in Hh, Hk.
  destruct (canonical_texts name held e Hheld Hcase Hreported) as [Hfield Htexts].
  assert (field_holds (reflected (normalizeAuthentication e).1) (as_field q) (keeps_case (as_held q)) (reported_text (ma_field held) e)) as Hholds.
  { unfold as_field. rewrite Hh. split; [done |]. intros path Hpath. rewrite (reflected_text _ _ _ Hfield Hkind Hpath), Htexts.
    by destruct (reported_text (ma_field held) e). }
  apply (compared_says _ q); try done. by rewrite Hh.
Qed.
