(* ===== verification/SigmaTranslate.v ===== *)
(** * A Sigma document translated into a rule

    sigma/translate.go, and the aggregation of condition.go: the parts of a rule, the
    window and the threshold, and what is refused of what is left. The document is
    given as its node: splitting and decoding YAML is the library's. *)

From Stdlib Require Import ZArith Lia Ascii Floats.SpecFloat.
From stdpp Require Import base tactics option gmap strings numbers list.
From S2P Require Import Prelude Text Scan Rule Contract Validate Compile RuleWire Agent Authz Session Event Canonical SigmaCondition SigmaGrammar SigmaValue.


(** ** Windows *)

Definition window_units (unit : string) : option duration :=
  match unit with
  | "s" => Some second
  | "m" => Some minute
  | "h" => Some hour
  | "d" => Some (24 * hour)
  | _ => None
  end%string.

Inductive TranslateFault :=
| InPart (part : string) (fault : SigmaFault)
| PartMissing (part : string)
| NoRuleID (title made : string)
| UnknownLevel (level : string)
| UnknownLogSource (source : logsource)
| NotInALogSource (name : string)
| NotAWindow | WindowScopesNothing | CountWithoutWindow
| NothingToJoin
| NeverNamed (name : string)
| IsWithdrawn (standing : string)
| BeyondOneRule (name : string) | NotPartOfARule (name : string)
| InRule (violation : Violation).

Section translate.
Context `{Contract, EventContract, UnicodeCase, SigmaLibraries}.

(** The conversion to a duration multiplies at 64 bits and wraps. *)
Definition sigma_window (written : string) : option duration :=
  let trimmed := TrimSpace written in
  if slen trimmed <? 2 then None
  else
    let last := (String.length trimmed - 1)%nat in
    unit ← window_units (strings_ToLower (string_drop last trimmed));
    quantity ← Atoi (string_take last trimmed);
    if quantity <=? 0 then None else Some (int64 (quantity * unit)).

(** ** The aggregation after a pipe *)

Definition sigma_grouped (name : string) (tokens : list string) : result SigmaReason (list Field) :=
  match taxonomy name with
  | None => Err (GroupsUnknown name)
  | Some held => if bool_decide (peek tokens = ",") then Err GroupsByMany else Ok [ma_field held]
  end.

Definition aggregation_threshold (group : list Field) (tokens : list string) : result SigmaReason (Z * list Field) :=
  let comparison := peek tokens in
  match Atoi (peek (tail tokens)) with
  | None => Err ComparesNoNumber
  | Some threshold =>
      match (if bool_decide (comparison = ">") then Some (int64 (threshold + 1))
             else if bool_decide (comparison = ">=") then Some threshold else None) with
      | None => Err AsksFewer
      | Some at_least =>
          let left := peek (tail (tail tokens)) in
          if bool_decide (left = "") then Ok (at_least, group) else Err (LeftOver left)
      end
  end.

Definition aggregation (tokens : list string) : result SigmaReason (Z * list Field) :=
  if negb (bool_decide (peek tokens = "|")) then Err NotACondition
  else
    let tokens := tail tokens in
    if negb (fold_is (peek tokens) "count") then Err NotACount
    else
      let tokens := tail tokens in
      if negb (bool_decide (peek tokens = "(")) then Err OpensNoBracket
      else
        let tokens := tail tokens in
        if negb (bool_decide (peek tokens = ")")) then Err CountsDistinct
        else
          let tokens := tail tokens in
          if fold_is (peek tokens) "by" then
            match sigma_grouped (peek (tail tokens)) (tail (tail tokens)) with
            | Err e => Err e
            | Ok group => aggregation_threshold group (tail (tail tokens))
            end
          else aggregation_threshold [] tokens.

Definition sigma_no_count : Count := mkCount 0 0 [].

Definition threshold (tokens : list string) (within : duration) : result TranslateFault Count :=
  if bool_decide (peek tokens = "") then
    if negb (within =? 0) then Err WindowScopesNothing else Ok sigma_no_count
  else match aggregation tokens with
       | Err e => Err (InPart "detection.condition" (InCondition e))
       | Ok (at_least, group) =>
           if within =? 0 then Err CountWithoutWindow else Ok (mkCount at_least within group)
       end.

(** ** The detection of a document *)

Definition in_part {A} (part : string) (r : result SigmaFault A) : result TranslateFault A :=
  match r with Err e => Err (InPart part e) | Ok a => Ok a end.

Definition timeframe (written : mapping) : mapping * result TranslateFault duration :=
  let '(written, node) := mapping_take written "timeframe" in
  (written, match node with
            | None => Ok 0
            | Some node =>
                if negb (is_scalar node) then Err NotAWindow
                else match sigma_window (yn_value node) with None => Err NotAWindow | Some within => Ok within end
            end).

Fixpoint every (used names : list string) : result TranslateFault unit :=
  match names with
  | [] => Ok tt
  | name :: names => if contains_elem used name then every used names else Err (NeverNamed name)
  end.

Fixpoint selections_of (written : mapping) (order : list string) : result TranslateFault (list (string * Expression)) :=
  match order with
  | [] => Ok []
  | name :: order =>
      match in_part ("detection." +:+ name) (selection (snd <$> entry_of written name)) with
      | Err e => Err e
      | Ok term => match selections_of written order with Err e => Err e | Ok terms => Ok ((name, term) :: terms) end
      end
  end.

Definition sigma_match (condition : string) (within : duration) (terms : list (string * Expression))
    : result TranslateFault (Expression * Count) :=
  match terms with
  | [] => Err NothingToJoin
  | _ =>
      match read_condition terms (tokensOf condition) with
      | Err e => Err (InPart "detection.condition" (InCondition e))
      | Ok (match_, (tokens, used)) =>
          match threshold tokens within with
          | Err e => Err e
          | Ok count => match every used terms.*1 with Err e => Err e | Ok _ => Ok (match_, count) end
          end
      end
  end.

Definition sigma_detection (held : mapping) : mapping * result TranslateFault (Expression * Count) :=
  let '(held, node) := mapping_take held "detection" in
  (held, match node with
         | None => Err (PartMissing "detection")
         | Some node =>
             match in_part "detection" (fieldsOf (Some node)) with
             | Err e => Err e
             | Ok written =>
                 let '(written, condition) := words written "condition" in
                 match in_part "detection.condition" condition with
                 | Err e => Err e
                 | Ok condition =>
                     if bool_decide (TrimSpace condition = "") then Err (PartMissing "detection.condition")
                     else
                       let '(written, within) := timeframe written in
                       match within with
                       | Err e => Err e
                       | Ok within =>
                           match selections_of written (mapping_rest written) with
                           | Err e => Err e
                           | Ok terms => sigma_match condition within terms
                           end
                       end
                 end
             end
         end).

(** ** The other parts *)

(** The letters of a title as the words of an id. A byte of text beyond ASCII is no
    letter of an id, and one separator stands for all that are together. *)
Fixpoint id_letters (built : string) (s : string) : string :=
  match s with
  | EmptyString => built
  | String letter s =>
      if alnum_lower letter then id_letters (built +:+ String letter "") s
      else if negb (bool_decide (built = "")) && negb (HasSuffix built "_") then id_letters (built +:+ "_") s
      else id_letters built s
  end.

Definition trim_separators (s : string) : string :=
  let separator := λ c : ascii, bool_decide (c = "_"%char) in
  turned (TrimLeft (turned (TrimLeft s separator)) separator).

Definition sigma_identify (title : string) : result TranslateFault string :=
  let named := trim_separators (id_letters "" (strings_ToLower title)) in
  match named with
  | EmptyString => Err (NoRuleID title named)
  | String first _ => if digit first then Err (NoRuleID title named) else Ok named
  end.

Definition levels (level : string) : option Severity :=
  match level with
  | "informational" | "low" => Some Low
  | "medium" => Some Medium
  | "high" => Some High
  | "critical" => Some Critical
  | _ => None
  end%string.

Definition severity (held : mapping) : mapping * result TranslateFault Severity :=
  let '(held, level) := words held "level" in
  (held, match in_part "level" level with
         | Err e => Err e
         | Ok level =>
             match levels (strings_ToLower (TrimSpace level)) with None => Err (UnknownLevel level) | Some s => Ok s end
         end).

Definition SigmaCatalogue : string := "sigma".

Definition provenance (held : mapping) (title : string) : mapping * result TranslateFault Source :=
  let '(held, identifier) := words held "id" in
  (held, match in_part "id" identifier with
         | Err e => Err e
         | Ok identifier =>
             Ok (mkSource SigmaCatalogue (if bool_decide (TrimSpace identifier = "") then title else identifier))
         end).

Fixpoint kept_guidance (written : list string) : list string :=
  match written with
  | [] => []
  | entry :: written =>
      let trimmed := TrimSpace entry in
      if bool_decide (trimmed = "") then kept_guidance written else trimmed :: kept_guidance written
  end.

Definition falsePositives (held : mapping) : mapping * result TranslateFault string :=
  let '(held, written) := sigma_list held "falsepositives" in
  (held, match in_part "falsepositives" written with
         | Err e => Err e
         | Ok written => Ok (String.concat "; " (kept_guidance written))
         end).

Definition logsource_of (held : mapping) : mapping * result TranslateFault EventClass :=
  let '(held, node) := mapping_take held "logsource" in
  (held, match node with
         | None => Err (PartMissing "logsource")
         | Some node =>
             match in_part "logsource" (fieldsOf (Some node)) with
             | Err e => Err e
             | Ok written =>
                 let '(written, category) := words written "category" in
                 match in_part "logsource.category" category with
                 | Err e => Err e
                 | Ok category =>
                     let '(written, product) := words written "product" in
                     match in_part "logsource.product" product with
                     | Err e => Err e
                     | Ok product =>
                         let '(written, service) := words written "service" in
                         match in_part "logsource.service" service with
                         | Err e => Err e
                         | Ok service =>
                             match mapping_rest written with
                             | name :: _ => Err (NotInALogSource name)
                             | [] =>
                                 let source := mkLogsource category product service in
                                 match classOf source with None => Err (UnknownLogSource source) | Some class => Ok class end
                             end
                         end
                     end
                 end
             end
         end).

Definition sigma_understood : list string :=
  ["title"; "id"; "status"; "description"; "references"; "tags"; "logsource"; "detection"; "falsepositives"; "level"].
Definition sigma_ignored : list string :=
  ["author"; "date"; "modified"; "license"; "name"; "related"; "fields"; "scope"; "taxonomy"].
Definition sigma_beyond : list string := ["correlation"; "action"; "filter"].

Definition sigma_left (held : mapping) : result TranslateFault unit :=
  let '(held, status) := words held "status" in
  match in_part "status" status with
  | Err e => Err e
  | Ok status =>
      let standing := strings_ToLower (TrimSpace status) in
      if bool_decide (standing = "deprecated") || bool_decide (standing = "unsupported") then Err (IsWithdrawn standing)
      else match mapping_rest (foldl (λ held name, (mapping_take held name).1) held sigma_ignored) with
           | [] => Ok tt
           | name :: _ => Err (if contains_elem sigma_beyond name then BeyondOneRule name else NotPartOfARule name)
           end
  end.

(** ** The rule *)

Definition sigma_no_sequence : Sequence := mkSequence [] 0 [].

Definition sigma_translate (held : mapping) : result TranslateFault Rule :=
  let '(held, title) := words held "title" in
  match in_part "title" title with
  | Err e => Err e
  | Ok title =>
  if bool_decide (TrimSpace title = "") then Err (PartMissing "title")
  else match sigma_identify title with
  | Err e => Err e
  | Ok id =>
  let '(held, description) := words held "description" in
  match in_part "description" description with
  | Err e => Err e
  | Ok description =>
  let '(held, loud) := severity held in
  match loud with
  | Err e => Err e
  | Ok loud =>
  let '(held, source) := provenance held title in
  match source with
  | Err e => Err e
  | Ok source =>
  let '(held, guidance) := falsePositives held in
  match guidance with
  | Err e => Err e
  | Ok guidance =>
  let '(held, tags) := sigma_list held "tags" in
  match in_part "tags" tags with
  | Err e => Err e
  | Ok tags =>
  let '(held, references) := sigma_list held "references" in
  match in_part "references" references with
  | Err e => Err e
  | Ok references =>
  let '(held, class) := logsource_of held in
  match class with
  | Err e => Err e
  | Ok class =>
  let '(held, found) := sigma_detection held in
  match found with
  | Err e => Err e
  | Ok (match_, count) =>
  match sigma_left held with
  | Err e => Err e
  | Ok _ =>
      Ok (mkRule id 1 title description class match_ count sigma_no_sequence loud Draft (mkTechnique "" "" "") guidance ""
            source tags references)
  end end end end end end end end end end end.

(** A document's rule, as the reader hands it back: refused by whatever refuses a
    rule of the platform. *)
Definition Translate `{Formats} (url_parse : string → option (string * string)) (Heaviest : Compile.Program → Z)
    (body : YamlNode) : result TranslateFault Rule :=
  match in_part "" (fieldsOf (Some body)) with
  | Err e => Err e
  | Ok held =>
      match sigma_translate held with
      | Err e => Err e
      | Ok rule => match CompileRule url_parse Heaviest rule with Err e => Err (InRule e) | Ok _ => Ok rule end
      end
  end.
End translate.

(** * What a translated rule keeps of its Sigma document *)


(** ** Taking keys *)

Definition took (m : mapping) (name : string) : mapping := (mapping_take m name).1.

Lemma words_took m name m' r : words m name = (m', r) → m' = took m name.
Proof. unfold words, took. destruct (mapping_take m name). by intros [= <- _]. Qed.

Lemma sigma_list_took m name m' r : sigma_list m name = (m', r) → m' = took m name.
Proof. unfold sigma_list, took. destruct (mapping_take m name). by intros [= <- _]. Qed.

Lemma rest_spec m name : name ∈ mapping_rest m ↔ name ∈ mp_order m ∧ name ∉ mp_taken m.
Proof. unfold mapping_rest. rewrite list_elem_of_filter. naive_solver. Qed.

Lemma rest_nil m : mapping_rest m = [] → ∀ name, name ∈ mp_order m → name ∈ mp_taken m.
Proof.
  intros Hrest name Hname. destruct (decide (name ∈ mp_taken m)); [done |].
  assert (name ∈ mapping_rest m) as Hin by by apply rest_spec. rewrite Hrest in Hin. by apply elem_of_nil in Hin.
Qed.

Lemma took_many names : ∀ m, mp_order (foldl took m names) = mp_order m
  ∧ ∀ name, name ∈ mp_taken (foldl took m names) ↔ name ∈ mp_taken m ∨ name ∈ names.
Proof.
  induction names as [|n names IH]; intros m; cbn [foldl]; [set_solver |].
  destruct (IH (took m n)) as [H1 H2]. split; [done |]. intros name. rewrite H2. cbn. set_solver.
Qed.

Section props.
Context `{Contract, EventContract, UnicodeCase, SigmaLibraries}.

Lemma every_spec used names : every used names = Ok tt → ∀ name, name ∈ names → name ∈ used.
Proof.
  induction names as [|n names IH]; cbn [every]; intros Hevery name Hname; [by apply elem_of_nil in Hname |].
  destruct (contains_elem used n) eqn:Hn; [| done]. unfold contains_elem in Hn. to_prop.
  apply elem_of_cons in Hname as [-> | Hname]; auto.
Qed.

Lemma selections_spec written order : ∀ terms, selections_of written order = Ok terms →
  terms.*1 = order ∧ ∀ name term, (name, term) ∈ terms → selection (snd <$> entry_of written name) = Ok term.
Proof.
  induction order as [|name order IH]; intros terms; cbn [selections_of].
  { intros [= <-]. split; [done |]. by intros ? ? ?%elem_of_nil. }
  destruct (selection _) as [term|] eqn:Hs; [| done]. cbn [in_part].
  destruct (selections_of written order) as [more|]; [| done]. intros [= <-].
  destruct (IH _ eq_refl) as [Hnames Hmore]. split; [cbn; by rewrite Hnames |].
  intros name' term' [[= -> ->] | Hin]%elem_of_cons; auto.
Qed.

(** What is said of a condition and its selections when they become a match and a
    count. *)
Record joined_by (condition : string) (within : duration) (terms : list (string * Expression))
    (match_ : Expression) (count : Count) : Prop := {
  jb_grammar : ∃ ts rest us, tokensOf condition = ts ++ rest
    ∧ derives terms Condition 0 ts [match_] us
    ∧ (∀ name, name ∈ terms.*1 → name ∈ us)
    ∧ threshold rest within = Ok count;
}.

Lemma sigma_match_spec condition within terms match_ count :
  sigma_match condition within terms = Ok (match_, count) → joined_by condition within terms match_ count.
Proof.
  unfold sigma_match. destruct terms as [|one terms]; [done |].
  destruct (read_condition _ _) as [[e [rest used]]|] eqn:Hread; [| done].
  destruct (threshold rest within) as [c|] eqn:Hcount; [| done].
  destruct (every used _) as [[]|] eqn:Hevery; [| done]. intros [= <- <-].
  apply read_condition_sound in Hread as (ts & Hts & Hd). split. exists ts, rest, used.
  split_and!; auto. by apply every_spec.
Qed.

(** A detection mapping read whole: its condition, its window and every other key
    of it a selection the condition names. *)
Record detection_read (written : mapping) (match_ : Expression) (count : Count) : Prop := {
  dr_read : ∃ condition within terms,
    (words written "condition").2 = Ok condition
    ∧ (timeframe (took written "condition")).2 = Ok within
    ∧ joined_by condition within terms match_ count
    ∧ (∀ name, name ∈ mp_order written → name = "condition" ∨ name = "timeframe" ∨ name ∈ terms.*1)
    ∧ (∀ name term, (name, term) ∈ terms → selection (snd <$> entry_of written name) = Ok term);
}.

Lemma fieldsOf_fresh node m : fieldsOf node = Ok m → mp_taken m = [].
Proof.
  unfold fieldsOf. destruct (sigma_resolve node) as [n|]; [| done]. destruct (negb _); [done |].
  destruct (fields_from _ _); [| done]. by intros [= <-].
Qed.

Lemma sigma_detection_spec held match_ count :
  (sigma_detection held).2 = Ok (match_, count) →
  ∃ node written, sigma_resolve (snd <$> entry_of held "detection") = Some node
    ∧ fieldsOf (Some node) = Ok written ∧ detection_read written match_ count.
Proof.
  unfold sigma_detection. cbn [mapping_take]. destruct (sigma_resolve _) as [node|]; [| done].
  destruct (fieldsOf (Some node)) as [written|] eqn:Hfields; [| done]. cbn [in_part].
  destruct (words written "condition") as [w1 condition'] eqn:Hwords. pose proof (words_took _ _ _ _ Hwords) as ->.
  destruct condition' as [condition|]; [| done]. cbn [in_part]. case_bool_decide; [done |].
  destruct (timeframe (took written "condition")) as [w2 within'] eqn:Htime.
  assert (w2 = took (took written "condition") "timeframe") as ->
    by (unfold timeframe, took in *; destruct (mapping_take _ "timeframe"); by simplify_eq).
  destruct within' as [within|]; [| done].
  destruct (selections_of _ _) as [terms|] eqn:Hsel; [| done]. cbn [snd]. intros Hmatch%sigma_match_spec.
  pose proof (fieldsOf_fresh _ _ Hfields) as Htaken. exists node, written. split_and!; [done | done |]. split. exists condition, within, terms.
  apply selections_spec in Hsel as [Hnames Hterms]. rewrite Hwords, Htime. split_and!; auto.
  intros name Hname. rewrite Hnames, rest_spec. cbn [took mapping_take mp_order mp_entries mp_taken fst] in *.
  rewrite Htaken. destruct (decide (name = "condition")), (decide (name = "timeframe")); set_solver.
Qed.
(** The keys a document is read by before what is left of it is looked at. *)
Definition read_keys : list string :=
  ["title"; "description"; "level"; "id"; "falsepositives"; "tags"; "references"; "logsource"; "detection"].

Lemma sigma_translate_spec held rule : sigma_translate held = Ok rule →
  (sigma_detection (foldl took held (take 8 read_keys))).2 = Ok (rule_match rule, rule_count rule)
  ∧ sigma_left (foldl took held read_keys) = Ok tt
  ∧ rule_status rule = Draft ∧ rule_revision rule = 1 ∧ src_catalogue (rule_source rule) = SigmaCatalogue.
Proof.
  unfold sigma_translate, read_keys. cbn [take foldl].
  destruct (words held "title") as [h1 r] eqn:Hw1. apply words_took in Hw1; subst h1.
  destruct r as [title|]; [| done]. cbn [in_part]. case_bool_decide; [done |].
  destruct (sigma_identify title) as [id|]; [| done].
  destruct (words _ "description") as [h2 r] eqn:Hw2. apply words_took in Hw2; subst h2.
  destruct r as [description|]; [| done]. cbn [in_part]. unfold severity, provenance, falsePositives.
  destruct (words _ "level") as [h3 r] eqn:Hw3. apply words_took in Hw3; subst h3.
  destruct r as [level|]; [| done]. cbn [in_part]. destruct (levels _) as [loud|]; [| done].
  destruct (words _ "id") as [h4 r] eqn:Hw4. apply words_took in Hw4; subst h4.
  destruct r as [identifier|]; [| done]. cbn [in_part].
  destruct (sigma_list _ "falsepositives") as [h5 r] eqn:Hw5. apply sigma_list_took in Hw5; subst h5.
  destruct r as [guidance|]; [| done]. cbn [in_part].
  destruct (sigma_list _ "tags") as [h6 r] eqn:Hw6. apply sigma_list_took in Hw6; subst h6.
  destruct r as [tags|]; [| done]. cbn [in_part].
  destruct (sigma_list _ "references") as [h7 r] eqn:Hw7. apply sigma_list_took in Hw7; subst h7.
  destruct r as [references|]; [| done]. cbn [in_part].
  destruct (logsource_of _) as [h8 r] eqn:Hw8.
  assert (h8 = took (foldl took held (take 7 read_keys)) "logsource") as ->
    by (unfold logsource_of in Hw8; cbn [mapping_take] in Hw8; by injection Hw8 as <-).
  destruct r as [class|]; [| done].
  destruct (sigma_detection _) as [h9 r] eqn:Hw9.
  assert (h9 = took (foldl took held (take 8 read_keys)) "detection") as ->
    by (unfold sigma_detection in Hw9; cbn [mapping_take] in Hw9; by injection Hw9 as <-).
  destruct r as [[match_ count]|]; [| done].
  destruct (sigma_left _) as [[]|] eqn:Hleft; [| done]. intros [= <-]. cbn [rule_match rule_count rule_status rule_revision rule_source].
  done.
Qed.

Lemma sigma_left_spec held : sigma_left held = Ok tt →
  ∀ name, name ∈ mp_order held → name ∈ mp_taken held ∨ name = "status" ∨ name ∈ sigma_ignored.
Proof.
  unfold sigma_left. destruct (words held "status") as [h r] eqn:Hw. apply words_took in Hw; subst h.
  destruct r as [status|]; [| done]. cbn [in_part]. destruct (_ || _); [done |].
  change (λ held name, (mapping_take held name).1) with took.
  destruct (mapping_rest _) as [|name rest] eqn:Hrest; [| done]. intros _ name Hname.
  destruct (took_many sigma_ignored (took held "status")) as [Horder Htaken].
  pose proof (rest_nil _ Hrest name) as Hin. rewrite Horder, Htaken in Hin. specialize (Hin Hname).
  cbn [took mapping_take mp_taken fst] in Hin. set_solver.
Qed.
End props.

(** A document that is translated says nothing the translation drops: every key of
    it is one the translation reads or one that only describes the rule, and every
    key of its detection is the condition, the window, or a selection the condition
    names, the rule's match being what the grammar of conditions makes of the
    translated selections. The rule is a draft the platform itself would take. *)
Theorem nothing_of_a_document_is_dropped `{Contract, EventContract, UnicodeCase, SigmaLibraries, Formats}
    (url_parse : string → option (string * string)) (Heaviest : Compile.Program → Z)
    (body : YamlNode) (rule : Rule)
    (Htranslated : Translate url_parse Heaviest body = Ok rule) :
  ∃ held node written,
    fieldsOf (Some body) = Ok held
    ∧ (∀ name, name ∈ mp_order held → name ∈ sigma_understood ++ sigma_ignored)
    ∧ sigma_resolve (snd <$> entry_of held "detection") = Some node
    ∧ fieldsOf (Some node) = Ok written
    ∧ detection_read written (rule_match rule) (rule_count rule)
    ∧ rule_status rule = Draft ∧ rule_revision rule = 1
    ∧ is_ok (CompileRule url_parse Heaviest rule) = true.
Proof.
  unfold Translate in Htranslated. destruct (fieldsOf (Some body)) as [held|] eqn:Hfields; [| done]. cbn [in_part] in Htranslated.
  destruct (sigma_translate held) as [r|] eqn:Ht; [| done].
  destruct (CompileRule _ _ r) as [p|] eqn:Hc; [| done]. injection Htranslated as ->.
  apply sigma_translate_spec in Ht as (Hd & Hleft & Hs & Hr & _).
  apply sigma_detection_spec in Hd as (node & written & Hnode & Hwritten & Hread).
  destruct (took_many (take 8 read_keys) held) as [_ _]. destruct (took_many read_keys held) as [Horder Htaken].
  exists held, node, written. split_and!; auto; [| by rewrite Hc].
  intros name Hname. rewrite <- Horder in Hname. eapply sigma_left_spec in Hname; [| exact Hleft].
  rewrite Htaken, (fieldsOf_fresh _ _ Hfields) in Hname. unfold read_keys, sigma_understood, sigma_ignored in *. set_solver.
Qed.
