(* ===== verification/Inventory.v ===== *)
(** * Inventory: what an asset holds, and what tells its items apart

    inventory/validate.go, limits.go, identity.go and instances.go. A record is the
    message a collector sends; the numbers the contract's generated code gives its
    kinds and states, the bytes a record encodes to, SHA-256 and the parsing of
    addresses are parameters. A violation's prose is a constructor. *)

From Stdlib Require Import ZArith Lia Ascii.
From stdpp Require Import base tactics option gmap strings pretty numbers list.
From S2P Require Import Prelude Text Scan Hex Bytes Digest Agent Session Event.


(** ** The message *)

Record OperatingSystem := mkOperatingSystem {
  os_name : string; os_version : string; os_build : string; os_platform : string; os_codename : string; os_family : string;
}.
Record KernelPart := mkKernelPart { ke_name : string; ke_release : string; ke_version : string; ke_architecture : string }.
Record PackagePart := mkPackagePart {
  pk_name : string; pk_version : string; pk_architecture : string; pk_manager : string; pk_source : string;
  pk_vendor : string; pk_installed : option WireTime;
}.
Record ServiceItem := mkServiceItem {
  si_name : string; si_display : string; si_state : Z; si_start : string; si_path : string;
}.
Record NetworkInterface := mkNetworkInterface {
  ni_name : string; ni_mac : string; ni_addresses : list string; ni_state : Z; ni_type : string;
}.
Record AccountPart := mkAccountPart {
  ac_name : string; ac_uid : string; ac_gid : string; ac_home : string; ac_shell : string; ac_groups : list string;
  ac_last : option WireTime;
}.
Record HardwarePart := mkHardwarePart { hw_cpu : string; hw_serial : string; hw_vendor : string; hw_model : string }.
Record ProcessPart := mkProcessPart {
  pr_pid : Z; pr_name : string; pr_path : string; pr_command : string; pr_user : string; pr_started : option WireTime;
}.

(** The body an item carries, at most one of them. *)
Inductive Item :=
| ItemNothing
| ItemOperatingSystem (p : OperatingSystem)
| ItemKernel (p : KernelPart)
| ItemPackage (p : PackagePart)
| ItemService (p : ServiceItem)
| ItemInterface (p : NetworkInterface)
| ItemUser (p : AccountPart)
| ItemHardware (p : HardwarePart)
| ItemProcess (p : ProcessPart).

Record InventoryRecord := mkInventoryRecord {
  ir_id : string;
  ir_schema : Z;
  ir_kind : Z;
  ir_mode : Z;
  ir_collected : option WireTime;
  ir_origin : option OriginPart;
  ir_collection : option CollectionPart;
  ir_items : list Item;
}.

(** The kinds this build knows. *)
Inductive InventoryKind :=
| KIND_OPERATING_SYSTEM | KIND_KERNEL | KIND_HARDWARE | KIND_PACKAGE | KIND_SERVICE | KIND_NETWORK_INTERFACE
| KIND_USER | KIND_PROCESS.
#[global] Instance InventoryKind_eq_dec : EqDecision InventoryKind.
Proof. solve_decision. Defined.

Definition inventory_kinds : list InventoryKind :=
  [KIND_OPERATING_SYSTEM; KIND_KERNEL; KIND_HARDWARE; KIND_PACKAGE; KIND_SERVICE; KIND_NETWORK_INTERFACE; KIND_USER;
   KIND_PROCESS].

Class InventoryContract := {
  Kind_value : InventoryKind → Z;
  Kind_named : Z → option string;
  Mode_named : Z → bool;
  MODE_DELTA : Z;
  Service_State_named : Z → bool;
  Interface_State_named : Z → bool;
  ParsePrefix : string → bool;
  record_Size : InventoryRecord → Z;
}.

(** ** Bounds (limits.go) *)

Definition MinRecordIDLength : Z := 8.
Definition MaxItemsPerRecord : Z := 10000.
Definition MaxRecordBytes : Z := 4194304.
Definition MaxItemName : Z := 256.
Definition MaxItemVersion : Z := 128.
Definition MaxItemArchitecture : Z := 32.
Definition MaxManagerLength : Z := 32.
Definition MaxItemSource : Z := 256.
Definition MaxVendorLength : Z := 256.
Definition MaxItemPath : Z := 4096.
Definition MaxCommandLineLength : Z := 8192.
Definition MaxDisplayNameLength : Z := 256.
Definition MaxStartModeLength : Z := 32.
Definition MaxBuildLength : Z := 128.
Definition MaxItemPlatform : Z := 64.
Definition MaxCodenameLength : Z := 64.
Definition MaxFamilyLength : Z := 32.
Definition MaxReleaseLength : Z := 128.
Definition MaxHardwareSerial : Z := 128.
Definition MaxModelLength : Z := 256.
Definition MaxTypeLength : Z := 32.
Definition MaxAccountIDLength : Z := 192.
Definition MaxInterfaceAddressLength : Z := MaxAddressLength + 4.
Definition MaxMACLength : Z := 64.
Definition MaxAddressesPerInterface : Z := 64.
Definition MaxGroupsPerUser : Z := 256.

(** ** What one kind of item is (identity.go) *)

Record item_shape := mkItemShape {
  sh_singleton : bool;
  sh_present : Item → bool;
  sh_identify : Item → list string;
  sh_instance : option (Item → string * bool);
}.

(** A getter of a body an item does not carry reads the empty message. *)
Definition no_package : PackagePart := mkPackagePart "" "" "" "" "" "" None.
Definition no_account : AccountPart := mkAccountPart "" "" "" "" "" [] None.
Definition no_process : ProcessPart := mkProcessPart 0 "" "" "" "" None.
Definition package_of (i : Item) : PackagePart := match i with ItemPackage p => p | _ => no_package end.
Definition account_of (i : Item) : AccountPart := match i with ItemUser p => p | _ => no_account end.
Definition process_of (i : Item) : ProcessPart := match i with ItemProcess p => p | _ => no_process end.

(** The managers whose database keeps one version of a name and architecture
    (instances.go). *)
Definition heldOnce (manager : string) : bool := contains_elem ["dpkg"; "apt"; "apk"] manager.

(** [UnixNano], which is 64 bits and wraps. *)
Definition unix_nano (t : WireTime) : Z := int64 (wt_seconds t * second + wt_nanos t).

Definition shape_of (kind : InventoryKind) : item_shape :=
  match kind with
  | KIND_OPERATING_SYSTEM =>
      mkItemShape true (λ i, match i with ItemOperatingSystem _ => true | _ => false end) (λ _, []) None
  | KIND_KERNEL => mkItemShape true (λ i, match i with ItemKernel _ => true | _ => false end) (λ _, []) None
  | KIND_HARDWARE => mkItemShape true (λ i, match i with ItemHardware _ => true | _ => false end) (λ _, []) None
  | KIND_PACKAGE =>
      mkItemShape false (λ i, match i with ItemPackage _ => true | _ => false end)
        (λ i, let p := package_of i in [pk_name p; pk_architecture p; pk_manager p])
        (Some (λ i, let p := package_of i in (pk_version p, negb (heldOnce (pk_manager p)))))
  | KIND_SERVICE =>
      mkItemShape false (λ i, match i with ItemService _ => true | _ => false end)
        (λ i, [match i with ItemService s => si_name s | _ => "" end]) None
  | KIND_NETWORK_INTERFACE =>
      mkItemShape false (λ i, match i with ItemInterface _ => true | _ => false end)
        (λ i, [match i with ItemInterface n => ni_name n | _ => "" end]) None
  | KIND_USER =>
      mkItemShape false (λ i, match i with ItemUser _ => true | _ => false end)
        (λ i, let a := account_of i in if negb (bool_decide (ac_uid a = "")) then [ac_uid a] else [ac_name a])
        (Some (λ i, let a := account_of i in (ac_name a, negb (bool_decide (ac_uid a = "")))))
  | KIND_PROCESS =>
      mkItemShape false (λ i, match i with ItemProcess _ => true | _ => false end)
        (λ i, let p := process_of i in
              [Itoa (pr_pid p); match pr_started p with Some t => Itoa (unix_nano t) | None => "" end])
        None
  end.

Section identity.
Context `{InventoryContract} (digest : string → string).

Definition shaped_kind (kind : Z) : option InventoryKind :=
  List.find (λ k, Kind_value k =? kind) inventory_kinds.

Definition inventory_shape (kind : Z) : option item_shape := shape_of <$> shaped_kind kind.

Definition digestOf (kind : Z) (parts : list string) : string :=
  hex_encode (digest (BigEndian_PutUint64 kind +:+ frames parts)).

Definition itemID (kind : Z) (item : Item) : string :=
  match inventory_shape kind with None => "" | Some shape => digestOf kind (sh_identify shape item) end.

(** ** Instances (instances.go) *)

(** The identities shown with more than one instance: what was told first of each
    is remembered, and another said later of the same one makes it several. *)
Fixpoint several_from (first : gmap string string) (several : gset string) (shown : list (string * (string * bool)))
    : gset string :=
  match shown with
  | [] => several
  | (identifier, (told, tellable)) :: shown =>
      if negb tellable then several_from first several shown
      else match first !! identifier with
           | None => several_from (<[identifier := told]> first) several shown
           | Some said =>
               several_from first (if bool_decide (said = told) then several else {[identifier]} ∪ several) shown
           end
  end.

Definition shownSeveral (identifiers : list string) (items : list Item) (instance : Item → string * bool) : gset string :=
  several_from ∅ ∅ (zip identifiers (instance <$> items)).

Definition name_item (kind : Z) (shape : item_shape) (instance : Item → string * bool) (partial : bool)
    (several : gset string) (identifier : string) (item : Item) : string :=
  let '(told, tellable) := instance item in
  if tellable && (partial || bool_decide (identifier ∈ several))
  then digestOf kind (sh_identify shape item ++ [told])
  else identifier.

Definition ItemIDs (record : InventoryRecord) : list string :=
  let kind := ir_kind record in
  let identifiers := itemID kind <$> ir_items record in
  match inventory_shape kind ≫= (λ shape, pair shape <$> sh_instance shape) with
  | None => identifiers
  | Some (shape, instance) =>
      let partial := ir_mode record =? MODE_DELTA in
      let several := shownSeveral identifiers (ir_items record) instance in
      zip_with (name_item kind shape instance partial several) identifiers (ir_items record)
  end.

Definition KindName (kind : Z) : string :=
  match Kind_named kind with None => "unknown" | Some name => ToLower (TrimPrefix name "KIND_") end.
End identity.

(** ** Validation (validate.go) *)

Inductive InventoryReason :=
| OfEvent (reason : EventReason)
| UnknownKind | EmptyDelta | TooManyItems | SeveralOfASingleton | CarriesNoBody | TooManyEntries | NeitherAddressNorPrefix.

Record InventoryViolation := mkInventoryViolation { iv_field : string; iv_reason : InventoryReason }.
Abbreviation inventory_checked := (result InventoryViolation unit).

Definition lifted (r : event_checked) : inventory_checked :=
  match r with Ok u => Ok u | Err v => Err (mkInventoryViolation (ev_field v) (OfEvent (ev_reason v))) end.
Definition item_violates (field : string) (reason : InventoryReason) : inventory_checked :=
  Err (mkInventoryViolation field reason).

Definition item_text (field value : string) (maximum : Z) (required : bool) : inventory_checked :=
  lifted (event_text field value maximum required).

Definition item_instant (field : string) (value : option WireTime) : inventory_checked :=
  match value with
  | Some t => if negb (IsValid t) then item_violates field (OfEvent NotAnInstant) else Ok tt
  | None => Ok tt
  end.

Definition item_named (field : string) (value : Z) (named : Z → bool) : inventory_checked :=
  if negb (named value) then item_violates field (OfEvent NotDeclared) else Ok tt.

Definition item_declared (field : string) (value : Z) (named : Z → bool) : inventory_checked :=
  if value =? 0 then item_violates field (OfEvent IsUnspecified) else item_named field value named.

Section validate.
Context `{EventContract, InventoryContract}.

Definition interfaceAddress (field value : string) : inventory_checked :=
  if bool_decide (value = "") then item_violates field (OfEvent IsRequired)
  else if MaxInterfaceAddressLength <? slen value then item_violates field (OfEvent IsLonger)
  else if ParsePrefix value then Ok tt
  else match ParseAddr value with None => item_violates field NeitherAddressNorPrefix | Some _ => Ok tt end.

Definition validateOperatingSystem (field : string) (o : OperatingSystem) : inventory_checked :=
  (item_text (field +:+ ".operating_system.name") (os_name o) MaxItemName true ;;
   item_text (field +:+ ".operating_system.version") (os_version o) MaxItemVersion false ;;
   item_text (field +:+ ".operating_system.build") (os_build o) MaxBuildLength false ;;
   item_text (field +:+ ".operating_system.platform") (os_platform o) MaxItemPlatform false ;;
   item_text (field +:+ ".operating_system.codename") (os_codename o) MaxCodenameLength false ;;
   item_text (field +:+ ".operating_system.family") (os_family o) MaxFamilyLength false)%go.

Definition validateKernel (field : string) (k : KernelPart) : inventory_checked :=
  (item_text (field +:+ ".kernel.name") (ke_name k) MaxItemName true ;;
   item_text (field +:+ ".kernel.release") (ke_release k) MaxReleaseLength false ;;
   item_text (field +:+ ".kernel.version") (ke_version k) MaxItemVersion false ;;
   item_text (field +:+ ".kernel.architecture") (ke_architecture k) MaxItemArchitecture false)%go.

Definition validatePackage (field : string) (p : PackagePart) : inventory_checked :=
  (item_text (field +:+ ".package.name") (pk_name p) MaxItemName true ;;
   item_text (field +:+ ".package.version") (pk_version p) MaxItemVersion false ;;
   item_text (field +:+ ".package.architecture") (pk_architecture p) MaxItemArchitecture false ;;
   item_text (field +:+ ".package.manager") (pk_manager p) MaxManagerLength false ;;
   item_text (field +:+ ".package.source") (pk_source p) MaxItemSource false ;;
   item_text (field +:+ ".package.vendor") (pk_vendor p) MaxVendorLength false ;;
   item_instant (field +:+ ".package.installed_at") (pk_installed p))%go.

Definition validateServiceItem (field : string) (s : ServiceItem) : inventory_checked :=
  (item_text (field +:+ ".service.name") (si_name s) MaxItemName true ;;
   item_text (field +:+ ".service.display_name") (si_display s) MaxDisplayNameLength false ;;
   item_named (field +:+ ".service.state") (si_state s) Service_State_named ;;
   item_text (field +:+ ".service.start_mode") (si_start s) MaxStartModeLength false ;;
   item_text (field +:+ ".service.path") (si_path s) MaxItemPath false)%go.

Definition validateNetworkInterface (field : string) (n : NetworkInterface) : inventory_checked :=
  (item_text (field +:+ ".network_interface.name") (ni_name n) MaxItemName true ;;
   item_text (field +:+ ".network_interface.mac") (ni_mac n) MaxMACLength false ;;
   (if MaxAddressesPerInterface <? len (ni_addresses n)
    then item_violates (field +:+ ".network_interface.addresses") TooManyEntries else Ok tt) ;;
   each (λ index value,
     interfaceAddress (field +:+ ".network_interface.addresses[" +:+ pretty index +:+ "]") value) (ni_addresses n) ;;
   item_named (field +:+ ".network_interface.state") (ni_state n) Interface_State_named ;;
   item_text (field +:+ ".network_interface.type") (ni_type n) MaxTypeLength false)%go.

Definition validateAccountItem (field : string) (a : AccountPart) : inventory_checked :=
  (item_text (field +:+ ".user.name") (ac_name a) MaxItemName true ;;
   item_text (field +:+ ".user.uid") (ac_uid a) MaxAccountIDLength false ;;
   item_text (field +:+ ".user.gid") (ac_gid a) MaxAccountIDLength false ;;
   item_text (field +:+ ".user.home") (ac_home a) MaxItemPath false ;;
   item_text (field +:+ ".user.shell") (ac_shell a) MaxItemPath false ;;
   (if MaxGroupsPerUser <? len (ac_groups a) then item_violates (field +:+ ".user.groups") TooManyEntries else Ok tt) ;;
   each (λ index group, item_text (field +:+ ".user.groups[" +:+ pretty index +:+ "]") group MaxItemName true)
     (ac_groups a) ;;
   item_instant (field +:+ ".user.last_login") (ac_last a))%go.

Definition validateHardware (field : string) (h : HardwarePart) : inventory_checked :=
  (item_text (field +:+ ".hardware.cpu_name") (hw_cpu h) MaxItemName false ;;
   item_text (field +:+ ".hardware.serial") (hw_serial h) MaxHardwareSerial false ;;
   item_text (field +:+ ".hardware.vendor") (hw_vendor h) MaxVendorLength false ;;
   item_text (field +:+ ".hardware.model") (hw_model h) MaxModelLength false)%go.

Definition validateProcess (field : string) (p : ProcessPart) : inventory_checked :=
  (item_text (field +:+ ".process.name") (pr_name p) MaxItemName true ;;
   item_text (field +:+ ".process.path") (pr_path p) MaxItemPath false ;;
   item_text (field +:+ ".process.command_line") (pr_command p) MaxCommandLineLength false ;;
   item_text (field +:+ ".process.user") (pr_user p) MaxItemName false ;;
   item_instant (field +:+ ".process.started_at") (pr_started p))%go.

(** The body is the kind's, so the check of the kind is the check of the body. *)
Definition validateItem (kind : Z) (index : nat) (item : Item) : inventory_checked :=
  let field := "items[" +:+ pretty index +:+ "]" in
  match inventory_shape kind with
  | None => item_violates "kind" (OfEvent IsUnspecified)
  | Some shape =>
      if negb (sh_present shape item) then item_violates field CarriesNoBody
      else match item with
      | ItemOperatingSystem p => validateOperatingSystem field p
      | ItemKernel p => validateKernel field p
      | ItemPackage p => validatePackage field p
      | ItemService p => validateServiceItem field p
      | ItemInterface p => validateNetworkInterface field p
      | ItemUser p => validateAccountItem field p
      | ItemHardware p => validateHardware field p
      | ItemProcess p => validateProcess field p
      | ItemNothing => item_violates "kind" (OfEvent IsUnspecified)
      end
  end.

Definition singleton_kind (kind : Z) : bool :=
  match inventory_shape kind with None => false | Some shape => sh_singleton shape end.

Definition validateItems (record : InventoryRecord) : inventory_checked :=
  let items := ir_items record in
  if (len items =? 0) && (ir_mode record =? MODE_DELTA) then item_violates "items" EmptyDelta
  else if MaxItemsPerRecord <? len items then item_violates "items" TooManyItems
  else if singleton_kind (ir_kind record) && (1 <? len items) then item_violates "items" SeveralOfASingleton
  else each (validateItem (ir_kind record)) items.

Definition inventory_recordID (value : string) : inventory_checked :=
  if slen value <? MinRecordIDLength then item_violates "record_id" (OfEvent IsShorter)
  else if negb (ValidIdentifier value) then item_violates "record_id" (OfEvent IsMalformed) else Ok tt.

Definition validateKind (kind : Z) : inventory_checked :=
  (item_declared "kind" kind (λ k, bool_decide (is_Some (Kind_named k))) ;;
   match inventory_shape kind with None => item_violates "kind" UnknownKind | Some _ => Ok tt end)%go.

Definition inventory_ValidateContract (record : option InventoryRecord) : inventory_checked :=
  match record with
  | None => item_violates "record" (OfEvent IsMissing)
  | Some r =>
      (inventory_recordID (ir_id r) ;;
       (if (ir_schema r <? MinSchemaVersion) || (MaxSchemaVersion <? ir_schema r)
        then item_violates "schema_version" (OfEvent OutsideVersions) else Ok tt) ;;
       validateKind (ir_kind r) ;;
       item_declared "mode" (ir_mode r) Mode_named ;;
       lifted (event_instant "collected_at" (ir_collected r)) ;;
       lifted (ValidateOrigin (ir_origin r)) ;;
       lifted (ValidateCollection (ir_collection r)) ;;
       validateItems r)%go
  end.

Definition inventory_Validate (record : InventoryRecord) (now : instant) (p : EventPolicy) : inventory_checked :=
  (inventory_ValidateContract (Some record) ;;
   (if MaxRecordBytes <? record_Size record then item_violates "record" (OfEvent EncodesTooLong) else Ok tt) ;;
   lifted (withinWindow "collected_at" (times_at (ir_collected record)) now p))%go.
End validate.

(** * What the name of an item tells apart *)


(** ** What is shown of an identity *)

(** An identity of which two instances are told. *)
Definition shown_twice (shown : list (string * (string * bool))) (identifier : string) : Prop :=
  ∃ t u, (identifier, (t, true)) ∈ shown ∧ (identifier, (u, true)) ∈ shown ∧ t ≠ u.

Lemma several_from_spec shown : ∀ first several identifier,
  identifier ∈ several_from first several shown
  ↔ identifier ∈ several
    ∨ match first !! identifier with
      | Some t => ∃ u, (identifier, (u, true)) ∈ shown ∧ t ≠ u
      | None => shown_twice shown identifier
      end.
Proof.
  unfold shown_twice. induction shown as [|[other [told tellable]] shown IH]; intros first several identifier; cbn [several_from].
  { split; [by left | intros [?|Hbad]; [done |]]. destruct (first !! identifier);
      [destruct Hbad as (u & ?%elem_of_nil & _) | destruct Hbad as (t & u & ?%elem_of_nil & _)]; done. }
  destruct tellable; cbn [negb];
    [| rewrite IH; clear IH; destruct (first !! identifier); setoid_rewrite elem_of_cons; firstorder congruence].
  destruct (decide (other = identifier)) as [->|Hother].
  - destruct (first !! identifier) as [said|] eqn:Hfirst; setoid_rewrite elem_of_cons.
    + rewrite IH, Hfirst. clear IH. case_bool_decide as Hsaid; [subst said; firstorder congruence |].
      rewrite elem_of_union, elem_of_singleton. split; [intros _; right; exists told; firstorder congruence | firstorder congruence].
    + rewrite IH, lookup_insert_eq. clear IH. split; [firstorder congruence |].
      intros [Hin|(t & u & Ht & Hu & Hne)]; [by left | right].
      destruct Ht as [[= ->]|Ht], Hu as [[= ->]|Hu]; [done | by exists u | by exists t |].
      destruct (decide (told = t)) as [->|]; [by exists u | by exists t].
  - destruct (first !! other) as [said|] eqn:Hfirst.
    + rewrite IH. clear IH. destruct (first !! identifier); case_bool_decide;
        rewrite ?elem_of_union, ?elem_of_singleton; setoid_rewrite elem_of_cons; firstorder congruence.
    + rewrite IH, lookup_insert_ne by done. clear IH. destruct (first !! identifier); setoid_rewrite elem_of_cons; firstorder congruence.
Qed.

Lemma elem_zip_fmap {A B C} (f : A → B) (g : A → C) l x y :
  (x, y) ∈ zip (f <$> l) (g <$> l) ↔ ∃ a, a ∈ l ∧ x = f a ∧ y = g a.
Proof.
  induction l as [|a l IH]; cbn; [set_solver |]. rewrite elem_of_cons, IH. split.
  - intros [[= -> ->]|(b & Hb & -> & ->)]; [exists a; set_solver | exists b; set_solver].
  - intros (b & Hb & -> & ->). apply elem_of_cons in Hb as [->|Hb]; [by left | right; by exists b].
Qed.

Section names.
Context `{InventoryContract} (digest : string → string).

(** ** The bytes a name is the digest of *)

Definition written_parts (kind : Z) (parts : list string) : string := BigEndian_PutUint64 kind +:+ frames parts.

Lemma digestOf_eq k1 p1 k2 p2 : digestOf digest k1 p1 = digestOf digest k2 p2 ↔
  digest (written_parts k1 p1) = digest (written_parts k2 p2).
Proof. unfold digestOf, written_parts. split; [apply hex_encode_inj | by intros ->]. Qed.

Lemma written_parts_inj k1 p1 k2 p2 :
  0 ≤ k1 < 2 ^ 64 → 0 ≤ k2 < 2 ^ 64 → Forall in_memory p1 → Forall in_memory p2 →
  written_parts k1 p1 = written_parts k2 p2 → k1 = k2 ∧ p1 = p2.
Proof.
  intros Hk1 Hk2 H1 H2 Heq. unfold written_parts in Heq.
  apply string_app_inj in Heq as [Hk Hp]; [| by rewrite !BigEndian_length].
  split; [| by apply frames_inj].
  pose proof (BigEndian_roundtrip k1 "" Hk1) as R1. rewrite Hk, (BigEndian_roundtrip k2 "" Hk2) in R1. done.
Qed.

(** ** A record's names *)

Context (record : InventoryRecord) (kind : InventoryKind) (instance : Item → string * bool).
Context (Hkind : shaped_kind (ir_kind record) = Some kind) (Hinstance : sh_instance (shape_of kind) = Some instance).

Definition identity_of (i : Item) : list string := sh_identify (shape_of kind) i.
Definition instance_of (i : Item) : list string := identity_of i ++ [(instance i).1].

Definition record_several : gset string :=
  shownSeveral (itemID digest (ir_kind record) <$> ir_items record) (ir_items record) instance.

(** The parts an item of the record is named by. *)
Definition parts_of (i : Item) : list string :=
  if (instance i).2 && ((ir_mode record =? MODE_DELTA)
       || bool_decide (digestOf digest (ir_kind record) (identity_of i) ∈ record_several))
  then instance_of i else identity_of i.

Lemma itemID_identity i : itemID digest (ir_kind record) i = digestOf digest (ir_kind record) (identity_of i).
Proof using Hkind. unfold itemID, inventory_shape, identity_of. by rewrite Hkind. Qed.

Lemma ItemIDs_parts : ItemIDs digest record = (λ i, digestOf digest (ir_kind record) (parts_of i)) <$> ir_items record.
Proof using Hkind Hinstance.
  unfold ItemIDs. unfold inventory_shape. rewrite Hkind. cbn. rewrite Hinstance. cbn.
  fold record_several. unfold name_item, parts_of, instance_of.
  assert (∀ items, zip_with (λ identifier item,
      let '(told, tellable) := instance item in
      if tellable && ((ir_mode record =? MODE_DELTA) || bool_decide (identifier ∈ record_several))
      then digestOf digest (ir_kind record) (sh_identify (shape_of kind) item ++ [told]) else identifier)
      (itemID digest (ir_kind record) <$> items) items
    = (λ i, digestOf digest (ir_kind record)
        (if (instance i).2 && ((ir_mode record =? MODE_DELTA)
             || bool_decide (digestOf digest (ir_kind record) (identity_of i) ∈ record_several))
         then identity_of i ++ [(instance i).1] else identity_of i)) <$> items) as Hall; [| apply Hall].
  induction items as [|i items IH]; [done |]. cbn. rewrite IH, itemID_identity. f_equal.
  destruct (instance i) as [told tellable]. cbn. by destruct (tellable && _).
Qed.

Lemma record_several_spec identifier : identifier ∈ record_several ↔
  ∃ a b, a ∈ ir_items record ∧ b ∈ ir_items record
    ∧ digestOf digest (ir_kind record) (identity_of a) = identifier
    ∧ digestOf digest (ir_kind record) (identity_of b) = identifier
    ∧ (instance a).2 = true ∧ (instance b).2 = true ∧ (instance a).1 ≠ (instance b).1.
Proof using Hkind.
  clear Hinstance.
  unfold record_several, shownSeveral. rewrite several_from_spec, lookup_empty. unfold shown_twice.
  setoid_rewrite elem_zip_fmap. setoid_rewrite itemID_identity. split.
  - intros [?|(t & u & (a & Ha & Hia & Hta) & (b & Hb & Hib & Htb) & Hne)]; [set_solver |].
    rewrite (surjective_pairing (instance a)) in Hta. rewrite (surjective_pairing (instance b)) in Htb. simplify_eq.
    exists a, b. by split_and!.
  - intros (a & b & Ha & Hb & Hia & Hib & Hta & Htb & Hne). right. exists (instance a).1, (instance b).1.
    split_and!; [exists a | exists b |]; [| | done]; split_and!; auto; [destruct (instance a) | destruct (instance b)]; cbn in *; by subst.
Qed.

(** The digest tells apart what this record has it hash. *)
Definition collision_free : Prop :=
  ∀ a b p q, a ∈ ir_items record → b ∈ ir_items record →
    p = identity_of a ∨ p = instance_of a → q = identity_of b ∨ q = instance_of b →
    digest (written_parts (ir_kind record) p) = digest (written_parts (ir_kind record) q) → p = q.

Lemma identity_arity a b : length (identity_of a) = length (identity_of b).
Proof using Hinstance.
  clear Hkind. unfold identity_of. destruct kind; try discriminate Hinstance; cbn; [done |]. by repeat case_match.
Qed.

Lemma parts_cases i : parts_of i = identity_of i ∨ parts_of i = instance_of i.
Proof. unfold parts_of. destruct (_ && _); auto. Qed.

Lemma names_tell_identities a b :
  collision_free → a ∈ ir_items record → b ∈ ir_items record →
  digestOf digest (ir_kind record) (parts_of a) = digestOf digest (ir_kind record) (parts_of b) →
  parts_of a = parts_of b ∧ identity_of a = identity_of b.
Proof using Hkind Hinstance.
  intros Hfree Ha Hb Heq%digestOf_eq.
  assert (parts_of a = parts_of b) as Hparts by (apply (Hfree a b); auto using parts_cases).
  split; [done |]. pose proof (identity_arity a b) as Hlen.
  destruct (parts_cases a) as [Hpa|Hpa], (parts_cases b) as [Hpb|Hpb]; rewrite Hpa, Hpb in Hparts; [done | | |].
  - apply (f_equal length) in Hparts. unfold instance_of in Hparts. rewrite length_app in Hparts. cbn in Hparts. lia.
  - apply (f_equal length) in Hparts. unfold instance_of in Hparts. rewrite length_app in Hparts. cbn in Hparts. lia.
  - unfold instance_of in Hparts. by apply app_inj_1 in Hparts as [? _].
Qed.

Lemma same_identity_shown a b :
  collision_free → a ∈ ir_items record → b ∈ ir_items record →
  digestOf digest (ir_kind record) (identity_of a) = digestOf digest (ir_kind record) (identity_of b) →
  identity_of a = identity_of b.
Proof. intros Hfree Ha Hb Heq%digestOf_eq. apply (Hfree a b); auto. Qed.
End names.

Section told.
Context `{InventoryContract} (digest : string → string).
Context (record : InventoryRecord) (kind : InventoryKind) (instance : Item → string * bool).
Context (Hkind : shaped_kind (ir_kind record) = Some kind) (Hinstance : sh_instance (shape_of kind) = Some instance).
Context (Hfree : collision_free digest record kind instance).

Lemma alone_keeps_identity a : ir_mode record ≠ MODE_DELTA → a ∈ ir_items record →
  (∀ c, c ∈ ir_items record → (instance c).2 = true → identity_of kind c = identity_of kind a →
        (instance c).1 = (instance a).1) →
  parts_of digest record kind instance a = identity_of kind a.
Proof using Hkind Hinstance Hfree.
  intros Hmode Ha Hone. unfold parts_of. destruct (instance a).2 eqn:Htell; [| done]. cbn [andb].
  rewrite (proj2 (Z.eqb_neq _ _) Hmode). cbn [orb]. case_bool_decide as Hin; [| done]. exfalso.
  apply (record_several_spec digest record kind instance Hkind) in Hin as (c & d & Hc & Hd & Hic & Hid & Htc & Htd & Hne).
  apply (same_identity_shown digest record kind instance) in Hic, Hid; try done. apply Hne. by rewrite (Hone c), (Hone d).
Qed.

Lemma names_are_instances a b :
  a ∈ ir_items record → b ∈ ir_items record → (instance a).2 = true → (instance b).2 = true →
  digestOf digest (ir_kind record) (parts_of digest record kind instance a)
    = digestOf digest (ir_kind record) (parts_of digest record kind instance b)
  ↔ identity_of kind a = identity_of kind b ∧ (instance a).1 = (instance b).1.
Proof using Hkind Hinstance Hfree.
  intros Ha Hb Hta Htb. split.
  - intros Heq. destruct (names_tell_identities digest record kind instance Hkind Hinstance a b Hfree Ha Hb Heq) as [Hparts Hid].
    split; [done |]. unfold parts_of in Hparts. rewrite Hta, Htb, Hid in Hparts. cbn [andb] in Hparts.
    destruct ((ir_mode record =? MODE_DELTA) || _) eqn:Hseveral.
    + unfold instance_of in Hparts. rewrite Hid in Hparts. by simplify_list_eq.
    + destruct (decide ((instance a).1 = (instance b).1)) as [|Hne]; [done | exfalso].
      apply orb_false_iff in Hseveral as [_ Hnot]. to_prop. apply Hnot.
      apply (record_several_spec digest record kind instance Hkind). exists a, b. rewrite Hid. by split_and!.
  - intros [Hid Htold]. f_equal. unfold parts_of, instance_of. by rewrite Hta, Htb, Hid, Htold.
Qed.
End told.

(** In one record, of packages or accounts, two items that can be told apart have
    one name exactly when they have one identity and one instance, unless SHA-256
    collides on what the record has it hash. In a snapshot an item alone in its
    identity keeps the name an upgrade replaces, whatever its version; in a delta
    every item is named by its own instance. *)
Theorem a_record_keeps_instances_apart `{InventoryContract} (digest : string → string)
    (record : InventoryRecord) (kind : InventoryKind) (instance : Item → string * bool) (i j : nat) (a b : Item)
    (Hkind : shaped_kind (ir_kind record) = Some kind)
    (Hinstance : sh_instance (shape_of kind) = Some instance)
    (Hfree : collision_free digest record kind instance)
    (Ha : ir_items record !! i = Some a) (Hb : ir_items record !! j = Some b)
    (Hta : (instance a).2 = true) (Htb : (instance b).2 = true) :
  (ItemIDs digest record !! i = ItemIDs digest record !! j
     ↔ sh_identify (shape_of kind) a = sh_identify (shape_of kind) b ∧ (instance a).1 = (instance b).1)
  ∧ (ir_mode record = MODE_DELTA → ItemIDs digest record !! i
       = Some (digestOf digest (ir_kind record) (sh_identify (shape_of kind) a ++ [(instance a).1])))
  ∧ (ir_mode record ≠ MODE_DELTA →
       (∀ c, c ∈ ir_items record → (instance c).2 = true → sh_identify (shape_of kind) c = sh_identify (shape_of kind) a →
             (instance c).1 = (instance a).1) →
       ItemIDs digest record !! i = Some (itemID digest (ir_kind record) a)).
Proof.
  pose proof (list_elem_of_lookup_2 _ _ _ Ha) as Hina. pose proof (list_elem_of_lookup_2 _ _ _ Hb) as Hinb.
  rewrite (ItemIDs_parts digest record kind instance Hkind Hinstance), !list_lookup_fmap, Ha, Hb. cbn. split_and!.
  - rewrite (inj_iff Some). by apply names_are_instances.
  - intros Hmode. unfold parts_of. by rewrite Hta, (proj2 (Z.eqb_eq _ _) Hmode).
  - intros Hmode Hone. rewrite (itemID_identity digest record kind Hkind).
    by rewrite (alone_keeps_identity digest record kind instance Hkind Hinstance Hfree a).
Qed.
