(* ===== verification/Ecosystem.v ===== *)
(** * Ecosystems: where an advisory and an installed package meet

    vulnerability/ecosystem.go. A distribution's advisories and the packages of a
    host that runs it are found under one key, built here on both sides. *)

From Stdlib Require Import ZArith Lia Ascii.
From stdpp Require Import base tactics option gmap strings pretty numbers list.
From S2P Require Import Prelude Text Scan Hex Digest Agent Event Canonical Inventory.

Inductive EcosystemError :=
| ErrUnsupportedEcosystem | ErrUnknownDistribution | ErrForeignManager | ErrUnknownRelease | ErrUnnamedPackage.
#[global] Instance EcosystemError_eq_dec : EqDecision EcosystemError.
Proof. solve_decision. Defined.

Record AdvisoryKey := mkAdvisoryKey { ak_ecosystem : string; ak_package : string }.

(** ** Releases *)

Definition release_number (digits : string) : option Z :=
  if bool_decide (digits = "") || (4 <? slen digits) then None
  else if negb (made_of digit digits) then None else Atoi digits.

Definition debianRelease (spelled : string) : option string :=
  match Split spelled "." with
  | [] => None
  | first :: rest =>
      major ← release_number first;
      if 7 <=? major then Some (Itoa major)
      else match rest with
           | [] => None
           | second :: _ => minor ← release_number second; Some (Itoa major +:+ "." +:+ Itoa minor)
           end
  end.

Definition ubuntuRelease (spelled : string) : option string :=
  match Split spelled "." with
  | year :: month :: _ =>
      if negb (slen year =? 2) || negb (slen month =? 2) then None
      else _ ← release_number year;
           parsed ← release_number month;
           if (parsed <? 1) || (12 <? parsed) then None else Some (year +:+ "." +:+ month)
  | _ => None
  end.

(** [Atoi] of a year that is no number is 0 with an error nobody reads. *)
Definition ubuntuEcosystem (release : string) : string :=
  let '(year, month, _) := Cut release "." in
  let parsed := default 0 (Atoi year) in
  if bool_decide (month = "04") && (Z.rem parsed 2 =? 0) then "Ubuntu:" +:+ release +:+ ":LTS"
  else "Ubuntu:" +:+ release.

Definition alpineRelease (spelled : string) : option string :=
  match Split spelled "." with
  | first :: second :: _ =>
      major ← release_number first; minor ← release_number second; Some (Itoa major +:+ "." +:+ Itoa minor)
  | _ => None
  end.

Definition majorRelease (spelled : string) : option string :=
  let '(major, _, _) := Cut spelled "." in
  parsed ← release_number major; Some (Itoa parsed).

(** ** Names of packages *)

Definition dpkgSource (source : string) : string := (Cut (TrimSpace source) " ").1.1.

Definition CutSuffix (s p : string) : string * bool := if HasSuffix s p then (TrimSuffix s p, true) else (s, false).

Definition rpmSource (source : string) : string :=
  let trimmed := TrimSpace source in
  let '(file, packaged) :=
    match CutSuffix trimmed ".src.rpm" with
    | (file, true) => (file, true)
    | (file, false) => CutSuffix file ".nosrc.rpm"
    end in
  if negb packaged then trimmed
  else
    let parts := Split file "-" in
    if len parts <? 3 then trimmed else join_at (take (length parts - 2) parts) "-".

Definition orName (source : string) (installed : PackagePart) : string :=
  if negb (bool_decide (source = "")) then source else TrimSpace (pk_name installed).

(** ** Distributions *)

Record distribution := mkDistribution {
  di_name : string;
  di_platform : string;
  di_managers : list string;
  di_release : string → option string;
  di_spell : string → string;
  di_codenames : list (string * string);
  di_named : PackagePart → string;
}.

Definition debian_codenames : list (string * string) :=
  [("woody", "3.0"); ("sarge", "3.1"); ("etch", "4.0"); ("lenny", "5.0"); ("squeeze", "6.0"); ("wheezy", "7");
   ("jessie", "8"); ("stretch", "9"); ("buster", "10"); ("bullseye", "11"); ("bookworm", "12"); ("trixie", "13");
   ("forky", "14"); ("duke", "15")].

Definition distributions : list distribution := [
  mkDistribution "Debian" "debian" ["dpkg"; "apt"] debianRelease (λ r, "Debian:" +:+ r) debian_codenames
    (λ p, orName (dpkgSource (pk_source p)) p);
  mkDistribution "Ubuntu" "ubuntu" ["dpkg"; "apt"] ubuntuRelease ubuntuEcosystem []
    (λ p, orName (dpkgSource (pk_source p)) p);
  mkDistribution "Alpine" "alpine" ["apk"] alpineRelease (λ r, "Alpine:v" +:+ r) [] (λ p, orName (pk_source p) p);
  mkDistribution "Rocky Linux" "rocky" ["rpm"; "dnf"; "yum"] majorRelease (λ r, "Rocky Linux:" +:+ r) []
    (λ p, orName (rpmSource (pk_source p)) p);
  mkDistribution "AlmaLinux" "almalinux" ["rpm"; "dnf"; "yum"] majorRelease (λ r, "AlmaLinux:" +:+ r) []
    (λ p, TrimSpace (pk_name p))].

Definition Distributions : list string := di_name <$> distributions.
Definition byName (name : string) : option distribution := List.find (λ d, bool_decide (di_name d = name)) distributions.
Definition Distribution (name : string) : bool := bool_decide (is_Some (byName name)).

Definition CutPrefix (s p : string) : string * bool := if HasPrefix s p then (TrimPrefix s p, true) else (s, false).

(** The part of an ecosystem that says the release; [None] where it is not spelled
    the way the distribution spells it. *)
Definition ecosystem_qualifier (name qualifier : string) : option string :=
  if bool_decide (name = "Alpine") then
    let '(trimmed, prefixed) := CutPrefix qualifier "v" in if negb prefixed then None else Some trimmed
  else if bool_decide (name = "Ubuntu") then Some (TrimSuffix qualifier ":LTS")
  else Some qualifier.

Definition Ecosystem (spelled : string) : result EcosystemError string :=
  let '(name, qualifier, scoped) := Cut spelled ":" in
  match byName name with
  | None => Err ErrUnsupportedEcosystem
  | Some known =>
      if negb scoped then Err ErrUnsupportedEcosystem
      else match ecosystem_qualifier (di_name known) qualifier with
      | None => Err ErrUnsupportedEcosystem
      | Some qualifier =>
          match di_release known qualifier with
          | None => Err ErrUnsupportedEcosystem
          | Some release => if StringContains qualifier ":" then Err ErrUnsupportedEcosystem else Ok (di_spell known release)
          end
      end
  end.

Section hosts.
Context `{UnicodeCase}.

Definition byPlatform (platform : string) : option distribution :=
  List.find (λ d, bool_decide (di_platform d = strings_ToLower (TrimSpace platform))) distributions.

Definition PackageOf (system : OperatingSystem) (installed : PackagePart) : result EcosystemError AdvisoryKey :=
  match byPlatform (os_platform system) with
  | None => Err ErrUnknownDistribution
  | Some known =>
      if negb (contains_elem (di_managers known) (strings_ToLower (TrimSpace (pk_manager installed)))) then Err ErrForeignManager
      else
        match (match di_release known (TrimSpace (os_version system)) with
               | Some release => Some release
               | None =>
                   snd <$> List.find (λ c, bool_decide (c.1 = strings_ToLower (TrimSpace (os_codename system))))
                             (di_codenames known)
               end) with
        | None => Err ErrUnknownRelease
        | Some release =>
            let name := di_named known installed in
            if bool_decide (name = "") then Err ErrUnnamedPackage
            else Ok (mkAdvisoryKey (di_spell known release) name)
        end
  end.
End hosts.

(** ** What a release comes to *)

Lemma release_number_spec s n : release_number s = Some n → 0 ≤ n < 10000 ∧ made_of digit s = true ∧ s ≠ "".
Proof.
  unfold release_number. case_bool_decide as Hs; [done |]. cbn [orb]. destruct (Z.ltb_spec 4 (slen s)) as [|Hlen]; [done |].
  destruct (made_of digit s) eqn:Hd; [| done]. cbn [negb]. rewrite Atoi_digits by done.
  destruct (ParseUint s) as [v|] eqn:Hv; [| done]. cbn. destruct (v <? 2 ^ 63); [| done]. intros [= <-].
  apply ParseUint_spec in Hv as (_ & Hv & _). apply decimal_from_range in Hv.
  assert (10 ^ slen s ≤ 10 ^ 4) by (apply Z.pow_le_mono_r; lia). split_and!; [lia | lia | done | done].
Qed.

(** A number of a release is written one way. *)
Definition numbered_once : bool :=
  forallb (λ n : nat, match release_number (Itoa (Z.of_nat n)) with Some m => m =? Z.of_nat n | None => false end)
    (seq 0 (Z.to_nat 10000)).

Lemma release_number_Itoa n : 0 ≤ n < 10000 → release_number (Itoa n) = Some n.
Proof.
  intros Hn. assert (numbered_once = true) as Hall by (vm_compute; reflexivity).
  unfold numbered_once in Hall. rewrite forallb_forall in Hall.
  specialize (Hall (Z.to_nat n) ltac:(apply in_seq; lia)). rewrite Z2Nat.id in Hall by lia.
  destruct (release_number (Itoa n)) as [m|]; [| done]. by apply Z.eqb_eq in Hall as ->.
Qed.

Lemma Itoa_digits n : 0 ≤ n < 10000 → made_of digit (Itoa n) = true.
Proof. intros Hn%release_number_Itoa. by apply release_number_spec in Hn as (_ & ? & _). Qed.

Lemma digits_free c s : digit c = false → made_of digit s = true → free_of c s.
Proof. apply free_of_made. Qed.

(** The text a release is spelled with: digits and dots. *)
Definition release_char (c : ascii) : bool := digit c || bool_decide (c = "."%char).

Lemma digits_release s : made_of digit s = true → made_of release_char s = true.
Proof. apply made_of_mono. intros c Hc. unfold release_char. rewrite Hc. reflexivity. Qed.

Lemma dotted_release a b :
  made_of digit a = true → made_of digit b = true → made_of release_char (a +:+ "." +:+ b) = true.
Proof. intros Ha Hb. rewrite !made_of_app, (digits_release a), (digits_release b) by done. reflexivity. Qed.

Lemma Split_dotted a b : made_of digit a = true → made_of digit b = true → Split (a +:+ "." +:+ b) "." = [a; b].
Proof.
  intros Ha Hb. change (Split (a +:+ String "." b) "." = [a; b]).
  rewrite Split_app by (by apply digits_free). by rewrite Split_none by (by apply digits_free).
Qed.

Lemma contains_none c s : free_of c s → StringContains s (String c "") = false.
Proof.
  induction s as [|d s IH]; [done |]. intros [Hd Hs]. cbn [StringContains HasPrefix].
  rewrite bool_decide_eq_false_2 by done. by apply IH.
Qed.

(** ** Canonical releases *)

(** A release a distribution spells the way it reads it. *)
Definition canonical_release (d : distribution) (r : string) : Prop :=
  di_release d r = Some r ∧ made_of release_char r = true.

Lemma major_release_ok s r : majorRelease s = Some r → majorRelease r = Some r ∧ made_of release_char r = true.
Proof.
  unfold majorRelease. destruct (Cut s ".") as [[major ?] ?]. destruct (release_number major) as [n|] eqn:Hn; [| done].
  cbn. intros [= <-]. apply release_number_spec in Hn as (Hn & _). pose proof (Itoa_digits n Hn) as Hd.
  split; [| by apply digits_release]. rewrite Cut_none by (by apply digits_free). by rewrite release_number_Itoa.
Qed.

Lemma alpine_release_ok s r : alpineRelease s = Some r → alpineRelease r = Some r ∧ made_of release_char r = true.
Proof.
  unfold alpineRelease. destruct (Split s ".") as [|a [|b ?]]; [done | done |].
  destruct (release_number a) as [m|] eqn:Hm; [| done]. cbn. destruct (release_number b) as [n|] eqn:Hn; [| done]. cbn.
  intros [= <-]. apply release_number_spec in Hm as (Hm & _), Hn as (Hn & _).
  pose proof (Itoa_digits m Hm). pose proof (Itoa_digits n Hn). split; [| by apply dotted_release].
  rewrite Split_dotted by done. rewrite !release_number_Itoa by done. done.
Qed.

Lemma debian_release_ok s r : debianRelease s = Some r → debianRelease r = Some r ∧ made_of release_char r = true.
Proof.
  unfold debianRelease. destruct (Split s ".") as [|a rest]; [done |].
  destruct (release_number a) as [m|] eqn:Hm; [| done]. cbn. apply release_number_spec in Hm as (Hm & _).
  pose proof (Itoa_digits m Hm) as Hdm. destruct (7 <=? m) eqn:Hseven.
  - intros [= <-]. split; [| by apply digits_release]. rewrite Split_none by (by apply digits_free).
    rewrite release_number_Itoa by done. cbn. by rewrite Hseven.
  - destruct rest as [|b rest]; [done |]. destruct (release_number b) as [n|] eqn:Hn; [| done]. cbn. intros [= <-].
    apply release_number_spec in Hn as (Hn & _). pose proof (Itoa_digits n Hn) as Hdn. split; [| by apply dotted_release].
    rewrite Split_dotted by done. rewrite !release_number_Itoa by done. cbn. by rewrite Hseven.
Qed.

Lemma ubuntu_release_shape s r : ubuntuRelease s = Some r →
  ∃ a b c d, r = String a (String b (String "." (String c (String d ""))))
    ∧ made_of digit (String a (String b "")) = true ∧ made_of digit (String c (String d "")) = true
    ∧ ubuntuRelease r = Some r.
Proof.
  unfold ubuntuRelease at 1. destruct (Split s ".") as [|year [|month ?]]; [done | done |].
  destruct (slen year =? 2) eqn:Hy; [| done]. destruct (slen month =? 2) eqn:Hm; [| done]. cbn [negb orb].
  destruct (release_number year) as [y|] eqn:Hny; [| done]. cbn. destruct (release_number month) as [m|] eqn:Hnm; [| done]. cbn.
  destruct ((m <? 1) || (12 <? m)) eqn:Hrange; [done |]. intros [= <-].
  pose proof (release_number_spec _ _ Hny) as (_ & Hdy & _). pose proof (release_number_spec _ _ Hnm) as (_ & Hdm & _).
  assert (ubuntuRelease (year +:+ "." +:+ month) = Some (year +:+ "." +:+ month)) as Hsame.
  { unfold ubuntuRelease. rewrite Split_dotted by done. rewrite Hy, Hm, Hny, Hnm. cbn. by rewrite Hrange. }
  destruct year as [|a [|b [|? ?]]]; try discriminate Hy; [| exfalso; apply Z.eqb_eq in Hy; unfold slen in Hy; cbn [String.length] in Hy; lia].
  destruct month as [|c [|d [|? ?]]]; try discriminate Hm; [| exfalso; apply Z.eqb_eq in Hm; unfold slen in Hm; cbn [String.length] in Hm; lia].
  by exists a, b, c, d.
Qed.

Lemma ubuntu_release_ok s r : ubuntuRelease s = Some r → ubuntuRelease r = Some r ∧ made_of release_char r = true.
Proof.
  intros (a & b & c & d & -> & H1 & H2 & H3)%ubuntu_release_shape. split; [done |].
  exact (dotted_release (String a (String b "")) (String c (String d "")) H1 H2).
Qed.

Lemma distribution_release_ok d s r : d ∈ distributions → di_release d s = Some r → canonical_release d r.
Proof.
  intros Hd. unfold canonical_release. repeat apply elem_of_cons in Hd as [-> | Hd]; cbn [di_release];
    [apply debian_release_ok | apply ubuntu_release_ok | apply alpine_release_ok | apply major_release_ok
    | apply major_release_ok | by apply elem_of_nil in Hd].
Qed.

Lemma release_char_free r : made_of release_char r = true → StringContains r ":" = false.
Proof. intros Hr. apply contains_none. by eapply free_of_made; [| exact Hr]. Qed.

(** ** Canonical ecosystems *)

Lemma Cut_scope name rest : free_of ":" name → Cut (name +:+ ":" +:+ rest) ":" = (name, rest, true).
Proof. intros Hname. exact (Cut_app name rest ":" Hname). Qed.

Lemma ubuntu_spelled s r : ubuntuRelease s = Some r →
  ∃ suffix, ubuntuEcosystem r = "Ubuntu" +:+ ":" +:+ (r +:+ suffix)
    ∧ TrimSuffix (r +:+ suffix) ":LTS" = r.
Proof.
  intros (a & b & c & d & -> & _)%ubuntu_release_shape.
  unfold ubuntuEcosystem. destruct (Cut _ ".") as [[year month] ?]. destruct (bool_decide (month = "04") && _).
  - exists ":LTS". split; [reflexivity |]. reflexivity.
  - exists "". split; [reflexivity |]. unfold TrimSuffix, HasSuffix. cbn. rewrite bool_decide_eq_false_2; [done | by intros [=]].
Qed.

(** What is spelled for a release reads back as its distribution and the release. *)
Lemma spelled_parts d s r : d ∈ distributions → di_release d s = Some r →
  ∃ spelled, di_spell d r = di_name d +:+ ":" +:+ spelled ∧ free_of ":" (di_name d)
    ∧ byName (di_name d) = Some d ∧ ecosystem_qualifier (di_name d) spelled = Some r.
Proof.
  intros Hd Hs. repeat apply elem_of_cons in Hd as [-> | Hd]; [| | | | | by apply elem_of_nil in Hd].
  - exists r. repeat split; done.
  - destruct (ubuntu_spelled s r Hs) as (suffix & Hspell & Htrim). exists (r +:+ suffix).
    cbn [di_spell di_name]. rewrite Hspell. split_and!; [done | repeat split; done | done | exact (f_equal Some Htrim)].
  - exists ("v" +:+ r). repeat split; done.
  - exists r. repeat split; done.
  - exists r. repeat split; done.
Qed.

Lemma spelled_canonical d s r : d ∈ distributions → di_release d s = Some r → Ecosystem (di_spell d r) = Ok (di_spell d r).
Proof.
  intros Hd Hs. destruct (distribution_release_ok d s r Hd Hs) as [Hr Hchars].
  destruct (spelled_parts d s r Hd Hs) as (spelled & Hspell & Hfree & Hname & Hq).
  rewrite Hspell at 1. unfold Ecosystem. rewrite Cut_scope by done. rewrite Hname. cbn [negb].
  rewrite Hq, Hr, release_char_free by done. done.
Qed.

Lemma byName_in name d : byName name = Some d → d ∈ distributions.
Proof. intros [Hin _]%find_some. by apply list_elem_of_In. Qed.

Lemma codename_release d c : d ∈ distributions → c ∈ di_codenames d → di_release d c.2 = Some c.2.
Proof.
  intros Hd Hc. repeat apply elem_of_cons in Hd as [-> | Hd];
    try (cbn in Hc; by apply elem_of_nil in Hc); [| by apply elem_of_nil in Hd].
  assert (Forall (λ c : string * string, debianRelease c.2 = Some c.2) debian_codenames) as Hall
    by (repeat constructor).
  rewrite Forall_forall in Hall. by apply Hall.
Qed.

Lemma Ecosystem_idempotent spelled e : Ecosystem spelled = Ok e → Ecosystem e = Ok e.
Proof.
  unfold Ecosystem at 1. destruct (Cut spelled ":") as [[name qualifier] scoped].
  destruct (byName name) as [d|] eqn:Hname; [| done]. destruct scoped; [| done]. cbn [negb].
  destruct (ecosystem_qualifier _ qualifier) as [q|]; [| done]. destruct (di_release d q) as [r|] eqn:Hr; [| done].
  destruct (StringContains q ":"); [done |]. intros [= <-]. apply (spelled_canonical d q); [by eapply byName_in | done].
Qed.

(** An ecosystem is spelled one way: what the platform calls an ecosystem it
    calls itself, every installed package it can place is placed under an ecosystem
    it would accept of an advisory, and no two releases of its distributions are
    spelled alike. So advisory and package meet by looking the key up. *)
Theorem ecosystems_are_spelled_one_way `{UnicodeCase} :
  (∀ spelled e, Ecosystem spelled = Ok e → Ecosystem e = Ok e)
  ∧ (∀ system installed key, PackageOf system installed = Ok key →
       Ecosystem (ak_ecosystem key) = Ok (ak_ecosystem key) ∧ ak_package key ≠ "")
  ∧ (∀ d1 d2 s1 s2 r1 r2, d1 ∈ distributions → d2 ∈ distributions →
       di_release d1 s1 = Some r1 → di_release d2 s2 = Some r2 →
       di_spell d1 r1 = di_spell d2 r2 → d1 = d2 ∧ r1 = r2).
Proof.
  split_and!.
  - exact Ecosystem_idempotent.
  - intros system installed key. unfold PackageOf. destruct (byPlatform _) as [d|] eqn:Hd; [| done].
    assert (d ∈ distributions) as Hin by (unfold byPlatform in Hd; apply find_some in Hd as [Hd _]; by apply list_elem_of_In).
    destruct (negb _); [done |].
    destruct (match di_release d _ with Some release => _ | None => _ end) as [r|] eqn:Hr; [| done].
    case_bool_decide as Hpackage; [done |]. intros [= <-]. cbn. split; [| done].
    destruct (di_release d (TrimSpace (os_version system))) as [r'|] eqn:Hversion.
    + injection Hr as ->. by eapply spelled_canonical.
    + destruct (List.find _ (di_codenames d)) as [c|] eqn:Hc; [| done]. injection Hr as <-.
      apply find_some in Hc as [Hc _]. eapply spelled_canonical; [done |]. apply codename_release; [done |].
      by apply list_elem_of_In.
  - intros d1 d2 s1 s2 r1 r2 H1 H2 Hs1 Hs2 Hspell.
    destruct (spelled_parts d1 s1 r1 H1 Hs1) as (sp1 & E1 & F1 & N1 & Q1).
    destruct (spelled_parts d2 s2 r2 H2 Hs2) as (sp2 & E2 & F2 & N2 & Q2).
    pose proof (Cut_scope (di_name d1) sp1 F1) as C1. rewrite <- E1, Hspell, E2, (Cut_scope _ _ F2) in C1.
    injection C1 as Hn Hsp. rewrite Hn in *. split; congruence.
Qed.
