(* ===== verification/Advisory.v ===== *)
(** * Advisories: the contract, and the reading of OSV

    vulnerability/validate.go, limits.go and osv/translate.go. An advisory is the
    message published; a record of OSV is given decoded. The numbers generated code
    gives enumerations, the bytes an advisory encodes to, Unicode's tables beyond
    ASCII and the parsing of RFC 3339 times are parameters; prose is a constructor. *)

From Stdlib Require Import ZArith Lia Ascii.
From stdpp Require Import base tactics option gmap strings pretty sorting numbers list.
From S2P Require Import Prelude Text Scan Hex Agent Session Event Canonical Inventory Ecosystem.


(** ** The message *)

Inductive boundary := Introduced (v : string) | Fixed (v : string) | LastAffected (v : string) | Limit (v : string).
Record VersionRange := mkVersionRange { vr_type : Z; vr_events : list (option boundary) }.
Record Rating := mkRating { ra_type : Z; ra_score : string; ra_assessed : string }.
Record Affected := mkAffected {
  af_ecosystem : string; af_name : string; af_ranges : list VersionRange; af_versions : list string;
  af_severities : list Rating;
}.
Record Provenance := mkProvenance {
  pv_feed : string; pv_feed_version : string; pv_location : string; pv_fetched : option WireTime; pv_digest : string;
  pv_format : string; pv_normalization : Z;
}.
Record Advisory := mkAdvisory {
  av_schema : Z; av_source : string; av_id : string;
  av_modified : option WireTime; av_published : option WireTime; av_withdrawn : option WireTime;
  av_aliases : list string; av_upstream : list string; av_related : list string;
  av_summary : string; av_details : string;
  av_severities : list Rating; av_affected : list Affected; av_provenance : option Provenance;
}.
Record FeedSync := mkFeedSync {
  fs_source : string; fs_feed : string; fs_feed_version : string; fs_outcome : Z;
  fs_checked : option WireTime; fs_synced : option WireTime; fs_newest : option WireTime; fs_failure : string;
  fs_listed : Z; fs_held : Z; fs_published : Z; fs_refused : Z;
}.
Inductive AdvisoryRecord := RecordAdvisory (a : Advisory) | RecordSync (s : FeedSync) | RecordNothing.

Class AdvisoryContract := {
  Severity_TYPE_CVSS_V2 : Z; Severity_TYPE_CVSS_V3 : Z; Severity_TYPE_CVSS_V4 : Z; Severity_TYPE_UBUNTU : Z;
  Severity_Type_named : Z → bool;
  Range_TYPE_ECOSYSTEM : Z; Range_TYPE_SEMVER : Z;
  Range_Type_named : Z → bool;
  OUTCOME_COMPLETE : Z; OUTCOME_PARTIAL : Z; OUTCOME_FAILED : Z;
  Sync_Outcome_named : Z → bool;
  advisory_Size : Advisory → Z;
  ParseRFC3339 : string → option instant;
  Unicode_ToUpper : string → string;
}.

(** ** Bounds (limits.go) *)

Definition AdvisoryClockSkew : duration := hour.
Definition EarliestInstant : instant := (unix_seconds - 2208988800) * second.
Definition LatestInstant : instant := (unix_seconds + 9223372036) * second.
Definition AdvisorySchemaVersion : Z := 1.
Definition MaxFeedSourceLength : Z := 32.
Definition MaxAdvisoryIDLength : Z := 128.
Definition MaxNamesPerList : Z := 4096.
Definition MaxSummaryLength : Z := 1024.
Definition MaxDetailsLength : Z := 16384.
Definition MaxSeverities : Z := 16.
Definition MaxScoreLength : Z := 256.
Definition MaxAssessorLength : Z := 32.
Definition MaxAffected : Z := 10000.
Definition MaxAffectedName : Z := 256.
Definition MaxRangesPerAffected : Z := 64.
Definition MaxEventsPerRange : Z := 64.
Definition MaxAffectedVersion : Z := 128.
Definition MaxVersionsPerAffected : Z := 10000.
Definition MaxFeedLength : Z := 64.
Definition MaxFeedVersionLength : Z := 256.
Definition MaxLocationLength : Z := 2048.
Definition MaxFormatLength : Z := 64.
Definition AdvisoryDigestLength : Z := 64.
Definition MaxFailureLength : Z := 512.
Definition MaxAdvisoryBytes : Z := 786432.

(** ** Violations (validate.go) *)

Inductive AdvisoryReason :=
| AdvisoryOf (reason : EventReason)
| NotAsPlatformNames | TooManyHeld | AffectsNothing | NoBoundary | IntroducesNothing | FixedAndLastAffected
| NotADigest | LaterThanRead | NeitherBody.

Record AdvisoryViolation := mkAdvisoryViolation { avi_field : string; avi_reason : AdvisoryReason }.
Abbreviation advisory_checked := (result AdvisoryViolation unit).
Definition breaks (field : string) (reason : AdvisoryReason) : advisory_checked := Err (mkAdvisoryViolation field reason).

Definition advisory_text (field value : string) (maximum : Z) (required : bool) : advisory_checked :=
  if bool_decide (value = "") then if required then breaks field (AdvisoryOf IsRequired) else Ok tt
  else if maximum <? slen value then breaks field (AdvisoryOf IsLonger) else Ok tt.

Definition advisory_instant (field : string) (value : option WireTime) (required : bool) : advisory_checked :=
  match value with
  | None => if required then breaks field (AdvisoryOf IsMissing) else Ok tt
  | Some t =>
      if negb (IsValid t) then breaks field (AdvisoryOf NotAnInstant)
      else if before (WireTime_AsTime t) EarliestInstant || after (WireTime_AsTime t) LatestInstant
           then breaks field (AdvisoryOf PastTheWindow) else Ok tt
  end.

Definition advisory_declared (field : string) (value : Z) (named : Z → bool) : advisory_checked :=
  if value =? 0 then breaks field (AdvisoryOf IsUnspecified)
  else if negb (named value) then breaks field (AdvisoryOf NotDeclared) else Ok tt.

Definition advisory_char (c : ascii) : bool := alnum c || among ["."; "_"; ":"; "+"; "-"]%char c.

Definition Identifier (value : string) : bool :=
  if bool_decide (value = "") || (MaxAdvisoryIDLength <? slen value) then false
  else match value with
       | EmptyString => false
       | String first _ => alnum first && made_of advisory_char value
       end.

Definition advisory_identifier (field value : string) : advisory_checked :=
  (advisory_text field value MaxAdvisoryIDLength true ;;
   if negb (Identifier value) then breaks field (AdvisoryOf IsMalformed) else Ok tt)%go.

Definition at_index (field : string) (index : nat) : string := field +:+ "[" +:+ pretty index +:+ "]".

Definition advisory_names (field : string) (listed : list string) : advisory_checked :=
  if MaxNamesPerList <? len listed then breaks field TooManyHeld
  else each (λ index name, advisory_identifier (at_index field index) name) listed.

Section validate.
Context `{AdvisoryContract}.

Definition validate_severities (field : string) (listed : list Rating) : advisory_checked :=
  if MaxSeverities <? len listed then breaks field TooManyHeld
  else each (λ index rating,
    let at_ := at_index field index in
    (advisory_declared (at_ +:+ ".type") (ra_type rating) Severity_Type_named ;;
     advisory_text (at_ +:+ ".score") (ra_score rating) MaxScoreLength true ;;
     advisory_text (at_ +:+ ".assessed_by") (ra_assessed rating) MaxAssessorLength false)%go) listed.

Definition boundary_version (b : boundary) : string :=
  match b with Introduced v | Fixed v | LastAffected v | Limit v => v end.
Definition introduces (b : option boundary) : bool := match b with Some (Introduced _) => true | _ => false end.
Definition fixes (b : option boundary) : bool := match b with Some (Fixed _) => true | _ => false end.
Definition lasts (b : option boundary) : bool := match b with Some (LastAffected _) => true | _ => false end.

Definition validate_range (field : string) (span : VersionRange) : advisory_checked :=
  (advisory_declared (field +:+ ".type") (vr_type span) Range_Type_named ;;
   (if MaxEventsPerRange <? len (vr_events span) then breaks (field +:+ ".events") TooManyHeld else Ok tt) ;;
   each (λ index event,
     match event with
     | None => breaks (at_index (field +:+ ".events") index) NoBoundary
     | Some b => advisory_text (at_index (field +:+ ".events") index) (boundary_version b) MaxAffectedVersion true
     end) (vr_events span) ;;
   if negb (existsb introduces (vr_events span)) then breaks (field +:+ ".events") IntroducesNothing
   else if existsb fixes (vr_events span) && existsb lasts (vr_events span)
        then breaks (field +:+ ".events") FixedAndLastAffected
        else Ok tt)%go.

Definition validate_affected (field : string) (entry : Affected) : advisory_checked :=
  ((match Ecosystem (af_ecosystem entry) with
    | Ok named => if bool_decide (named = af_ecosystem entry) then Ok tt else breaks (field +:+ ".ecosystem") NotAsPlatformNames
    | Err _ => breaks (field +:+ ".ecosystem") NotAsPlatformNames
    end) ;;
   advisory_text (field +:+ ".name") (af_name entry) MaxAffectedName true ;;
   (if MaxRangesPerAffected <? len (af_ranges entry) then breaks (field +:+ ".ranges") TooManyHeld else Ok tt) ;;
   each (λ index span, validate_range (at_index (field +:+ ".ranges") index) span) (af_ranges entry) ;;
   (if MaxVersionsPerAffected <? len (af_versions entry) then breaks (field +:+ ".versions") TooManyHeld else Ok tt) ;;
   each (λ index version, advisory_text (at_index (field +:+ ".versions") index) version MaxAffectedVersion true)
     (af_versions entry) ;;
   (if (len (af_ranges entry) =? 0) && (len (af_versions entry) =? 0) then breaks field AffectsNothing else Ok tt) ;;
   validate_severities (field +:+ ".severities") (af_severities entry))%go.

Definition validate_entries (entries : list Affected) : advisory_checked :=
  if MaxAffected <? len entries then breaks "affected" TooManyHeld
  else each (λ index entry, validate_affected (at_index "affected" index) entry) entries.

Definition validate_provenance (read : option Provenance) : advisory_checked :=
  match read with
  | None => breaks "provenance" (AdvisoryOf IsMissing)
  | Some p =>
      (advisory_text "provenance.feed" (pv_feed p) MaxFeedLength true ;;
       advisory_text "provenance.feed_version" (pv_feed_version p) MaxFeedVersionLength true ;;
       advisory_text "provenance.location" (pv_location p) MaxLocationLength true ;;
       advisory_instant "provenance.fetched_at" (pv_fetched p) true ;;
       (match hex_decode (pv_digest p) with
        | Some decoded => if slen decoded * 2 =? AdvisoryDigestLength then Ok tt else breaks "provenance.digest" NotADigest
        | None => breaks "provenance.digest" NotADigest
        end) ;;
       advisory_text "provenance.format" (pv_format p) MaxFormatLength true ;;
       if pv_normalization p =? 0 then breaks "provenance.normalization" (AdvisoryOf IsUnspecified) else Ok tt)%go
  end.

Definition fetched_at (a : Advisory) : instant := times_at (p ← av_provenance a; pv_fetched p).

Definition advisory_Validate (a : Advisory) : advisory_checked :=
  ((if (av_schema a <? AdvisorySchemaVersion) || (AdvisorySchemaVersion <? av_schema a)
    then breaks "schema_version" (AdvisoryOf OutsideVersions) else Ok tt) ;;
   advisory_text "source" (av_source a) MaxFeedSourceLength true ;;
   advisory_identifier "id" (av_id a) ;;
   advisory_instant "modified" (av_modified a) true ;;
   advisory_instant "published" (av_published a) false ;;
   advisory_instant "withdrawn" (av_withdrawn a) false ;;
   advisory_names "aliases" (av_aliases a) ;;
   advisory_names "upstream" (av_upstream a) ;;
   advisory_names "related" (av_related a) ;;
   advisory_text "summary" (av_summary a) MaxSummaryLength false ;;
   advisory_text "details" (av_details a) MaxDetailsLength false ;;
   validate_severities "severities" (av_severities a) ;;
   validate_entries (av_affected a) ;;
   validate_provenance (av_provenance a) ;;
   (if after (times_at (av_modified a)) (time_add (fetched_at a) AdvisoryClockSkew)
    then breaks "modified" LaterThanRead else Ok tt) ;;
   if MaxAdvisoryBytes <? advisory_Size a then breaks "advisory" (AdvisoryOf EncodesTooLong) else Ok tt)%go.

Definition ValidateSync (s : FeedSync) : advisory_checked :=
  (advisory_text "source" (fs_source s) MaxFeedSourceLength true ;;
   advisory_text "feed" (fs_feed s) MaxFeedLength true ;;
   advisory_text "feed_version" (fs_feed_version s) MaxFeedVersionLength false ;;
   advisory_declared "outcome" (fs_outcome s) Sync_Outcome_named ;;
   advisory_instant "checked_at" (fs_checked s) true ;;
   advisory_instant "synced_at" (fs_synced s) (fs_outcome s =? OUTCOME_COMPLETE) ;;
   advisory_instant "newest_listed" (fs_newest s) false ;;
   advisory_text "failure" (fs_failure s) MaxFailureLength false)%go.

Definition ValidateRecord (record : AdvisoryRecord) : advisory_checked :=
  match record with
  | RecordAdvisory a => advisory_Validate a
  | RecordSync s => ValidateSync s
  | RecordNothing => breaks "record" NeitherBody
  end.
End validate.

(** * Reading a record of OSV (osv/translate.go)

    The record is given decoded. What it says of ecosystems no asset runs, or in
    ranges of commits, is left out; prose is cut to fit; the rest is kept. *)


(** ** The record *)

Record OsvSeverity := mkOsvSeverity { ov_type : string; ov_score : string; ov_source : string }.
Record OsvBoundary := mkOsvBoundary {
  ob_introduced : option string; ob_fixed : option string; ob_last : option string; ob_limit : option string;
}.
Record OsvRange := mkOsvRange { ora_type : string; ora_events : list OsvBoundary }.
Record OsvAffected := mkOsvAffected {
  oa_ecosystem : string; oa_name : string; oa_severity : list OsvSeverity; oa_ranges : list OsvRange;
  oa_versions : list string;
}.
Record OsvRecord := mkOsvRecord {
  osv_schema : string; osv_id : string; osv_modified : string; osv_published : string; osv_withdrawn : string;
  osv_aliases : list string; osv_upstream : list string; osv_related : list string;
  osv_summary : string; osv_details : string;
  osv_severity : list OsvSeverity; osv_affected : list OsvAffected;
}.

Inductive OsvError :=
| OtherFormat (format : string) | NotAnIdentifier (id : string) | NoTime (field : string) | NotATime (field : string)
| ZeroTime (field : string) | NoPackage (index : nat) | ManyBoundaries (index : nat).

Definition OsvSource : string := "osv".
Definition OsvNormalization : Z := 1.
Definition assumedFormat : string := "1.0.0".

Section osv.
Context `{UnicodeCase, AdvisoryContract}.

(** ** Parts *)

Definition severityTypes (name : string) : option Z :=
  match name with
  | "CVSS_V2" => Some Severity_TYPE_CVSS_V2
  | "CVSS_V3" => Some Severity_TYPE_CVSS_V3
  | "CVSS_V4" => Some Severity_TYPE_CVSS_V4
  | "Ubuntu" => Some Severity_TYPE_UBUNTU
  | _ => None
  end%string.

Definition rangeTypes (name : string) : option Z :=
  match name with
  | "ECOSYSTEM" => Some Range_TYPE_ECOSYSTEM
  | "SEMVER" => Some Range_TYPE_SEMVER
  | _ => None
  end%string.

(** The ratings kept, up to as many as an advisory holds. *)
Fixpoint osv_severities_from (kept : list Rating) (listed : list OsvSeverity) : list Rating :=
  match listed with
  | [] => kept
  | rated :: listed =>
      match severityTypes (TrimSpace (ov_type rated)), TrimSpace (ov_score rated) with
      | Some kind, String _ _ as score =>
          let kept := kept ++ [mkRating kind score (TrimSpace (ov_source rated))] in
          if len kept =? MaxSeverities then kept else osv_severities_from kept listed
      | _, _ => osv_severities_from kept listed
      end
  end.
Definition osv_severities (listed : list OsvSeverity) : list Rating := osv_severities_from [] listed.

Definition strings_ToUpper (s : string) : string := if ascii_only s then ToUpper s else Unicode_ToUpper s.

Definition osv_name (name : string) : string :=
  let name := TrimSpace name in
  let upper := strings_ToUpper name in
  if HasPrefix upper "CVE-" then upper else name.

Definition osv_names (listed : list string) (self : string) : list string :=
  compact (sort_strings (filter (λ name, name ≠ self ∧ Identifier name = true) (osv_name <$> listed))).

Definition osv_trimmed (listed : list string) : list string := filter (λ v, v ≠ "") (TrimSpace <$> listed).

Definition timestamp_of (t : instant) : WireTime := mkWireTime (t / second - unix_seconds) (t mod second).

Definition osv_instant (field spelled : string) (required : bool) : result OsvError (option WireTime) :=
  let spelled := TrimSpace spelled in
  if bool_decide (spelled = "") then if required then Err (NoTime field) else Ok None
  else match ParseRFC3339 spelled with
  | None => Err (NotATime field)
  | Some parsed =>
      if is_zero parsed then if required then Err (ZeroTime field) else Ok None
      else Ok (Some (timestamp_of parsed))
  end.

(** [utf8.RuneStart]: not a continuation byte. *)
Definition RuneStart (c : ascii) : bool := negb (between 128 191 c).

Fixpoint cut_back (prose : string) (cut : nat) : nat :=
  match cut with
  | O => O
  | S less =>
      match String.get cut prose with
      | Some c => if RuneStart c then cut else cut_back prose less
      | None => cut
      end
  end.

Definition osv_fit (prose : string) (maximum : Z) : string :=
  let prose := TrimSpace prose in
  if slen prose <=? maximum then prose else string_take (cut_back prose (Z.to_nat maximum)) prose.

Definition osv_event (b : OsvBoundary) : option boundary :=
  match ob_introduced b, ob_fixed b, ob_last b, ob_limit b with
  | Some v, None, None, None => Some (Introduced (TrimSpace v))
  | None, Some v, None, None => Some (Fixed (TrimSpace v))
  | None, None, Some v, None => Some (LastAffected (TrimSpace v))
  | None, None, None, Some v => Some (Limit (TrimSpace v))
  | _, _, _, _ => None
  end.

Fixpoint osv_events (index : nat) (events : list OsvBoundary) : result OsvError (list (option boundary)) :=
  match events with
  | [] => Ok []
  | b :: events =>
      match osv_event b with
      | None => Err (ManyBoundaries index)
      | Some event =>
          match osv_events (S index) events with Err e => Err e | Ok more => Ok (Some event :: more) end
      end
  end.

Fixpoint osv_spans (listed : list OsvRange) : result OsvError (list VersionRange) :=
  match listed with
  | [] => Ok []
  | span :: listed =>
      match rangeTypes (TrimSpace (ora_type span)) with
      | None => osv_spans listed
      | Some kind =>
          match osv_events 0 (ora_events span) with
          | Err e => Err e
          | Ok events =>
              match osv_spans listed with Err e => Err e | Ok more => Ok (mkVersionRange kind events :: more) end
          end
      end
  end.

Fixpoint osv_entries (index : nat) (listed : list OsvAffected) : result OsvError (list Affected) :=
  match listed with
  | [] => Ok []
  | entry :: listed =>
      match Ecosystem (TrimSpace (oa_ecosystem entry)) with
      | Err _ => osv_entries (S index) listed
      | Ok ecosystem =>
          let name := TrimSpace (oa_name entry) in
          if bool_decide (name = "") then Err (NoPackage index)
          else match osv_spans (oa_ranges entry) with
          | Err e => Err e
          | Ok ranges =>
              let versions := osv_trimmed (oa_versions entry) in
              if (len ranges =? 0) && (len versions =? 0) then osv_entries (S index) listed
              else match osv_entries (S index) listed with
                   | Err e => Err e
                   | Ok more =>
                       Ok (mkAffected ecosystem name ranges versions (osv_severities (oa_severity entry)) :: more)
                   end
          end
      end
  end.

(** ** The translation *)

Definition osv_format (r : OsvRecord) : string :=
  let format := TrimSpace (osv_schema r) in if bool_decide (format = "") then assumedFormat else format.

Definition osv_Translate (r : OsvRecord) : result OsvError Advisory :=
  let format := osv_format r in
  if negb (bool_decide ((Cut format ".").1.1 = "1")) then Err (OtherFormat format)
  else
    let id := TrimSpace (osv_id r) in
    if negb (Identifier id) then Err (NotAnIdentifier (osv_id r))
    else
      match osv_instant "modified" (osv_modified r) true with
      | Err e => Err e
      | Ok modified =>
          match osv_instant "published" (osv_published r) false with
          | Err e => Err e
          | Ok published =>
              match osv_instant "withdrawn" (osv_withdrawn r) false with
              | Err e => Err e
              | Ok withdrawn =>
                  match osv_entries 0 (osv_affected r) with
                  | Err e => Err e
                  | Ok entries =>
                      Ok (mkAdvisory AdvisorySchemaVersion OsvSource id modified published withdrawn
                            (osv_names (osv_aliases r) id) (osv_names (osv_upstream r) id) (osv_names (osv_related r) id)
                            (osv_fit (osv_summary r) MaxSummaryLength) (osv_fit (osv_details r) MaxDetailsLength)
                            (osv_severities (osv_severity r)) entries
                            (Some (mkProvenance "" "" "" None "" ("osv " +:+ format) OsvNormalization)))
                  end
              end
          end
      end.
End osv.
