(* ===== verification/Importer.v ===== *)
(** * Following the feeds of advisories

    advisoryfeed/importer.go and ports.go. What the platform holds is a map every feed's
    goroutine shares under a lock. A feed is followed by reading its index, asking for
    what is owed and settling every answer in the order it arrives; a batch is published
    outside the lock and held once the backbone took it. Each of those is a step of the
    feed's own ([doing]), and the steps of several feeds interleave in any order
    ([follows_on]), as do crashes, restarts and the compaction of the log. The origin's
    answers, hashing and protobuf's encoding are parameters; logs and metrics are not
    modelled. *)

From Stdlib Require Import ZArith Lia Ascii.
From stdpp Require Import base tactics option gmap strings pretty sorting numbers list.
From S2P Require Import Prelude Text Scan Hex Agent Session Event Canonical Inventory Ecosystem Advisory.

(** ** The origin's answers (ports.go) *)

Record Listing := mkListing { li_id : string; li_modified : instant }.
Record FeedIndex := mkFeedIndex { fi_listings : list Listing; fi_version : string; fi_unchanged : bool; fi_malformed : Z }.
Inductive feed_answer (A : Type) := Answered (a : A) | IsGone | IsUnavailable | IsFailed.
Arguments Answered {A} a.
Arguments IsGone {A}.
Arguments IsUnavailable {A}.
Arguments IsFailed {A}.
Record Fetched := mkFetched { fe_body : string; fe_location : string }.

(** An origin asked again while it is unavailable: [asked] are its answers in order,
    and the last of [attempts] is taken whatever it is. *)
Fixpoint retried {A} (attempts : nat) (asked : nat → feed_answer A) : feed_answer A :=
  match asked O with
  | IsUnavailable => match attempts with S (S _ as attempts) => retried attempts (λ n, asked (S n)) | _ => IsUnavailable end
  | given => given
  end.

(** ** What is held and followed *)

Record held_advisory := mkHolding { hd_feed : string; hd_modified : instant; hd_normalization : Z; hd_statement : string }.
#[global] Instance holding_eq_dec : EqDecision held_advisory.
Proof. solve_decision. Defined.

Record feed_follow := mkFollow {
  fo_known : string;
  fo_listings : list Listing;
  fo_settled : gmap string instant;
  fo_synced : option instant;
}.

Record Importer := mkImporter { im_held : gmap string held_advisory; im_follows : gmap string feed_follow }.

Definition fresh_follow : feed_follow := mkFollow "" [] ∅ None.

Definition NewImporter (feeds : list string) : option Importer :=
  if bool_decide (feeds = []) || negb (forallb Distribution feeds) || negb (bool_decide (NoDup feeds)) then None
  else Some (mkImporter ∅ (list_to_map ((λ feed, (feed, fresh_follow)) <$> feeds))).

Record FeedHashing := { Sum256_hex : string → string; marshal_advisory : Advisory → string }.

Section importer.
Context `{AdvisoryContract}.
Context (source : string) (normalization : Z) (batch : Z).
Context (hashing : FeedHashing) (translate : string → option Advisory).

(** What an advisory says, its time and where it was read left out. *)
Definition statement (a : Advisory) : string :=
  Sum256_hex hashing (marshal_advisory hashing
    (mkAdvisory (av_schema a) (av_source a) (av_id a) None (av_published a) (av_withdrawn a) (av_aliases a)
       (av_upstream a) (av_related a) (av_summary a) (av_details a) (av_severities a) (av_affected a) None)).

Definition provenance_of (a : Advisory) : Provenance := default (mkProvenance "" "" "" None "" "" 0) (av_provenance a).
Definition modified_at (a : Advisory) : instant := times_at (av_modified a).
Definition holding_of (a : Advisory) : held_advisory :=
  mkHolding (pv_feed (provenance_of a)) (modified_at a) (pv_normalization (provenance_of a)) (statement a).

(** ** Reading the log back *)

Definition keep (held : gmap string held_advisory) (a : Advisory) : gmap string held_advisory :=
  match held !! av_id a with
  | Some current => if before (modified_at a) (hd_modified current) then held else <[av_id a := holding_of a]> held
  | None => <[av_id a := holding_of a]> held
  end.

Definition not_after (t : option WireTime) (latest : instant) : bool :=
  match t with Some t => negb (after (WireTime_AsTime t) latest) | None => true end.

Definition learn (now : instant) (i : Importer) (record : AdvisoryRecord) : Importer :=
  let latest := time_add now AdvisoryClockSkew in
  match record with
  | RecordAdvisory a =>
      if negb (bool_decide (av_source a = source)) || negb (is_ok (advisory_Validate a)) then i
      else if bool_decide (is_Some (im_follows i !! pv_feed (provenance_of a))) && negb (after (fetched_at a) latest)
           then mkImporter (keep (im_held i) a) (im_follows i) else i
  | RecordSync s =>
      match im_follows i !! fs_feed s with
      | None => i
      | Some state =>
          if negb (bool_decide (fs_source s = source)) || negb (is_ok (ValidateSync s)) then i
          else if negb (not_after (Some (default (mkWireTime 0 0) (fs_checked s))) latest
                        && not_after (fs_synced s) latest && not_after (fs_newest s) latest) then i
          else match fs_synced s with
          | None => i
          | Some synced =>
              let at_ := WireTime_AsTime synced in
              if match fo_synced state with None => true | Some held => after at_ held end
              then mkImporter (im_held i)
                     (<[fs_feed s := mkFollow (fo_known state) (fo_listings state) (fo_settled state) (Some at_)]> (im_follows i))
              else i
          end
      end
  | RecordNothing => i
  end.

Definition Recall (now : instant) (i : Importer) (log : list AdvisoryRecord) : Importer := foldl (learn now) i log.

(** ** What is owed *)

(** The newest listing of every record, in the order of their names. *)
Definition newest_listings (listings : list Listing) : gmap string instant :=
  foldl (λ newest listing,
    match newest !! li_id listing with
    | Some current => if after (li_modified listing) current then <[li_id listing := li_modified listing]> newest else newest
    | None => <[li_id listing := li_modified listing]> newest
    end) ∅ listings.

Definition latest (listings : list Listing) : list Listing :=
  let newest := newest_listings listings in
  (λ id, mkListing id (default time_zero (newest !! id))) <$> sort_strings (map_to_list newest).*1.

Definition newestOf (listings : list Listing) : option instant :=
  match listings with
  | [] => None
  | _ => Some (foldl (λ newest l, if after (li_modified l) newest then li_modified l else newest) time_zero listings)
  end.

Definition is_owed (held : gmap string held_advisory) (state : feed_follow) (listing : Listing) : bool :=
  negb (match fo_settled state !! li_id listing with
        | Some settled => negb (after (li_modified listing) settled)
        | None => false
        end)
  && negb (match held !! li_id listing with
           | Some current => (normalization <=? hd_normalization current) && negb (after (li_modified listing) (hd_modified current))
           | None => false
           end).

Definition owed (held : gmap string held_advisory) (state : feed_follow) : list Listing :=
  filter (λ l, is_owed held state l = true) (fo_listings state).

(** ** Settling *)

Inductive outcome := Gone | Refused | Owed | Told (a : Advisory) (stated : string).
Record settlement := mkSettlement { se_listing : Listing; se_outcome : outcome }.

(** The translation says what it read and by which rules; where and when is written
    here. *)
Definition located (a : Advisory) (feed version location digest : string) (now : instant) : Advisory :=
  mkAdvisory (av_schema a) (av_source a) (av_id a) (av_modified a) (av_published a) (av_withdrawn a) (av_aliases a)
    (av_upstream a) (av_related a) (av_summary a) (av_details a) (av_severities a) (av_affected a)
    (Some (mkProvenance feed version location (Some (mkWireTime (now / second - unix_seconds) (now mod second))) digest
             (pv_format (provenance_of a)) (pv_normalization (provenance_of a)))).

Definition settle (feed version : string) (now : instant) (listing : Listing) (fetched : feed_answer Fetched) : settlement :=
  mkSettlement listing
    match fetched with
    | IsGone => Gone
    | IsUnavailable => Owed
    | IsFailed => Refused
    | Answered f =>
        match translate (fe_body f) with
        | None => Refused
        | Some a =>
            if negb (bool_decide (av_id a = li_id listing)) then Refused
            else if negb (pv_normalization (provenance_of a) =? normalization) then Refused
            else
              let a := located a feed version (fe_location f) (Sum256_hex hashing (fe_body f)) now in
              if negb (is_ok (advisory_Validate a)) then Refused else Told a (statement a)
        end
    end.

Definition publishable (held : gmap string held_advisory) (listing : Listing) (a : Advisory) (stated : string) : bool :=
  match held !! li_id listing with
  | None => true
  | Some current =>
      if before (modified_at a) (hd_modified current) then false
      else if hd_normalization current <? normalization then true
      else negb (bool_decide (stated = hd_statement current))
  end.

(** ** An attempt, step by step *)

(** One of a batch: its listing, the advisory and what it states. *)
Definition told : Type := Listing * Advisory * string.
Definition told_id (one : told) : string := li_id one.1.1.
Definition told_advisory (one : told) : Advisory := one.1.2.

(** What the goroutine that settles a feed's answers knows of the attempt it is at. *)
Record attempt := mkAttempt {
  at_version : string;
  at_checked : instant;
  at_asked : list Listing;   (* owed, and not answered yet *)
  at_batch : list told;
  at_stranded : bool;
  at_unwritable : bool;
  at_published : Z;
  at_refused : Z;
}.

(** Between attempts, settling answers, or between the backbone taking a batch and the
    importer holding it. *)
Inductive doing := Waiting | Reading (t : attempt) | Written (t : attempt).

Definition settleAt (settled : gmap string instant) (listing : Listing) : gmap string instant :=
  <[li_id listing := li_modified listing]> settled.

(** The feed after its index was read: [None] when it could not be. *)
Definition indexed_follow (state : feed_follow) (index : feed_answer FeedIndex) : option (feed_follow * Z) :=
  match index with
  | Answered i =>
      if fi_unchanged i then Some (state, 0)
      else if bool_decide (fi_listings i = []) && (0 <? fi_malformed i) then None
      else Some (mkFollow (fi_version i) (latest (fi_listings i)) (fo_settled state) (fo_synced state), uint32 (fi_malformed i))
  | _ => None
  end.

Definition state_of (i : Importer) (feed : string) : feed_follow := default fresh_follow (im_follows i !! feed).
Definition with_state (i : Importer) (feed : string) (state : feed_follow) : Importer :=
  mkImporter (im_held i) (<[feed := state]> (im_follows i)).

(** Sync as far as what is owed: an index that cannot be read ends the attempt. *)
Definition begin_attempt (feed : string) (checked : instant) (index : feed_answer FeedIndex) (i : Importer) : Importer * doing :=
  match indexed_follow (state_of i feed) index with
  | None => (with_state i feed (state_of i feed), Waiting)
  | Some (state, refused) =>
      (with_state i feed state,
       Reading (mkAttempt (fo_known state) checked (owed (im_held i) state) [] false false 0 refused))
  end.

(** One answer, as the loop of read takes it. *)
Definition take_answer (feed : string) (s : settlement) (i : Importer) (t : attempt) : Importer * attempt :=
  let listing := se_listing s in
  let state := state_of i feed in
  let asked := filter (λ l, li_id l ≠ li_id listing) (at_asked t) in
  let settled := with_state i feed (mkFollow (fo_known state) (fo_listings state) (settleAt (fo_settled state) listing) (fo_synced state)) in
  let still (batch : list told) (stranded : bool) (refused : Z) :=
    mkAttempt (at_version t) (at_checked t) asked batch stranded (at_unwritable t) (at_published t) refused in
  match se_outcome s with
  | Owed => (i, still (at_batch t) true (at_refused t))
  | Gone => (settled, still (at_batch t) (at_stranded t) (at_refused t))
  | Refused => (settled, still (at_batch t) (at_stranded t) (uint32 (at_refused t + 1)))
  | Told a stated =>
      if negb (publishable (im_held i) listing a stated) then
        (if before (modified_at a) (li_modified listing) then i else settled, still (at_batch t) (at_stranded t) (at_refused t))
      else (i, still (at_batch t ++ [(listing, a, stated)]) (at_stranded t) (at_refused t))
  end.

Definition batch_full (t : attempt) : bool := batch <=? len (at_batch t).

(** Nothing more is awaited: every record owed was answered, or the attempt was stopped. *)
Definition all_answered (t : attempt) : bool := bool_decide (at_asked t = []) || at_stranded t.

Definition with_batch (t : attempt) (batch : list told) : attempt :=
  mkAttempt (at_version t) (at_checked t) (at_asked t) batch (at_stranded t) (at_unwritable t) (at_published t) (at_refused t).

(** A batch the backbone did not take, whatever of it was written. *)
Definition strand (t : attempt) : attempt :=
  mkAttempt (at_version t) (at_checked t) (at_asked t) [] true true (at_published t) (at_refused t).

(** One of a batch the backbone took. *)
Definition hold_published (feed : string) (s : gmap string held_advisory * gmap string instant) (one : told)
    : gmap string held_advisory * gmap string instant :=
  let '(listing, a, stated) := one in
  (<[li_id listing := mkHolding feed (modified_at a) (pv_normalization (provenance_of a)) stated]> s.1,
   if before (modified_at a) (li_modified listing) then s.2 else settleAt s.2 listing).

(** What publish does under the lock, once the backbone took the batch. *)
Definition hold_batch (feed : string) (i : Importer) (t : attempt) : Importer * attempt :=
  let state := state_of i feed in
  let '(held, settled) := foldl (hold_published feed) (im_held i, fo_settled state) (at_batch t) in
  (mkImporter held (<[feed := mkFollow (fo_known state) (fo_listings state) settled (fo_synced state)]> (im_follows i)),
   mkAttempt (at_version t) (at_checked t) (at_asked t) [] (at_stranded t) (at_unwritable t)
     (uint32 (at_published t + uint32 (len (at_batch t)))) (at_refused t)).

Definition heldFrom (i : Importer) (feed : string) : Z :=
  uint32 (len (filter (λ held, hd_feed held = feed) (map_to_list (im_held i)).*2)).

Definition timestamppb_New (at_ : instant) : WireTime := mkWireTime (at_ / second - unix_seconds) (at_ mod second).

(** The end of an attempt, and what it reports: [why] is the prose of a failure. *)
Definition end_attempt (feed why : string) (i : Importer) (t : attempt) : Importer * FeedSync :=
  let state := state_of i feed in
  let state := mkFollow (fo_known state) (fo_listings state) (fo_settled state)
                 (if at_stranded t then fo_synced state else Some (at_checked t)) in
  let i := with_state i feed state in
  (i, mkFeedSync source feed (fo_known state) (if at_stranded t then OUTCOME_PARTIAL else OUTCOME_COMPLETE)
        (Some (timestamppb_New (at_checked t))) (timestamppb_New <$> fo_synced state) (timestamppb_New <$> newestOf (fo_listings state))
        (if at_stranded t then why else "") (uint32 (len (fo_listings state))) (heldFrom i feed) (at_published t) (at_refused t)).

(** What an attempt reports whose index could not be read. *)
Definition failed_report (feed why : string) (checked : instant) (i : Importer) : FeedSync :=
  mkFeedSync source feed "" OUTCOME_FAILED (Some (timestamppb_New checked)) (timestamppb_New <$> fo_synced (state_of i feed)) None why 0
    (heldFrom i feed) 0 0.

(** ** Feeds followed at once (Run) *)

(** The importer with every goroutine of it and the log they share. What was written of
    a batch the backbone said it did not take is [doubtful]. *)
Record Running := mkRunning {
  rn_importer : Importer;
  rn_doing : gmap string doing;
  rn_log : list AdvisoryRecord;
  rn_doubtful : list string;
}.

Definition doing_of (r : Running) (feed : string) : doing := default Waiting (rn_doing r !! feed).
Definition now_doing (r : Running) (i : Importer) (feed : string) (d : doing) (log : list AdvisoryRecord) : Running :=
  mkRunning i (<[feed := d]> (rn_doing r)) (rn_log r ++ log) (rn_doubtful r).

Definition advisories_of (log : list AdvisoryRecord) : list Advisory :=
  omap (λ r, match r with RecordAdvisory a => Some a | _ => None end) log.
Definition about (id : string) (log : list AdvisoryRecord) : list Advisory := filter (λ a, av_id a = id) (advisories_of log).

(** A log some of whose records were compacted away: of every advisory the last is kept. *)
Definition compaction (log log' : list AdvisoryRecord) : Prop :=
  log' `sublist_of` log ∧ ∀ id, last (about id log') = last (about id log).

Context (feeds : list string).
(** The records a feed ever lists. *)
Context (lists : string → string → Prop).

(** A clock never reads past the horizon of its time. *)
Inductive follows_on (horizon : instant) (r : Running) : Running → Prop :=
| Indexes feed checked index why reports i d :
    feed ∈ feeds → doing_of r feed = Waiting →
    (∀ ix l, index = Answered ix → l ∈ fi_listings ix → lists feed (li_id l)) →
    begin_attempt feed checked index (rn_importer r) = (i, d) →
    (reports = [] ∨ d = Waiting ∧ reports = [RecordSync (failed_report feed why checked i)]) →
    follows_on horizon r (now_doing r i feed d reports)
| Answers feed t listing now fetched i t' :
    doing_of r feed = Reading t → batch_full t = false → listing ∈ at_asked t → now ≤ horizon →
    take_answer feed (settle feed (at_version t) now listing fetched) (rn_importer r) t = (i, t') →
    follows_on horizon r (now_doing r i feed (Reading t') [])
| Publishes feed t :
    doing_of r feed = Reading t → batch_full t = true ∨ all_answered t = true → at_batch t ≠ [] → at_unwritable t = false →
    follows_on horizon r (now_doing r (rn_importer r) feed (Written t) (RecordAdvisory ∘ told_advisory <$> at_batch t))
| FailsToPublish feed t written :
    doing_of r feed = Reading t → batch_full t = true ∨ all_answered t = true → at_batch t ≠ [] →
    at_unwritable t = false → written `sublist_of` at_batch t →
    follows_on horizon r
      (mkRunning (rn_importer r) (<[feed := Reading (strand t)]> (rn_doing r))
         (rn_log r ++ (RecordAdvisory ∘ told_advisory <$> written)) ((told_id <$> written) ++ rn_doubtful r))
| Drops feed t :
    doing_of r feed = Reading t → batch_full t = true ∨ all_answered t = true → at_unwritable t = true →
    follows_on horizon r (now_doing r (rn_importer r) feed (Reading (with_batch t [])) [])
| Holds feed t i t' :
    doing_of r feed = Written t → hold_batch feed (rn_importer r) t = (i, t') →
    follows_on horizon r (now_doing r i feed (Reading t') [])
| Ends feed t why reports i report :
    doing_of r feed = Reading t → all_answered t = true → at_batch t = [] →
    end_attempt feed why (rn_importer r) t = (i, report) →
    reports = [] ∨ reports = [RecordSync report] →
    follows_on horizon r (now_doing r i feed Waiting reports)
| Compacts log :
    compaction (rn_log r) log → follows_on horizon r (mkRunning (rn_importer r) (rn_doing r) log (rn_doubtful r))
| Restarts now fresh :
    NewImporter feeds = Some fresh → horizon ≤ time_add now AdvisoryClockSkew →
    follows_on horizon r (mkRunning (Recall now fresh (rn_log r)) ∅ (rn_log r) (rn_doubtful r)).

(** What an importer went through from its first start, time passing between its steps. *)
Inductive went_through : instant → Running → Prop :=
| first_start horizon fresh : NewImporter feeds = Some fresh → went_through horizon (mkRunning fresh ∅ [] [])
| later horizon horizon' r r' : went_through horizon r → horizon ≤ horizon' → follows_on horizon' r r' → went_through horizon' r'.
End importer.
