(* ===== verification/ImporterProps.v ===== *)
(** * When a translation is taken, and what following a feed holds

    First when a record translated from OSV is one the platform takes, then what an importer
    holds across interleavings, crashes and restarts. *)

From Stdlib Require Import ZArith Lia Ascii.
From stdpp Require Import base tactics option gmap strings pretty sorting numbers list.
From S2P Require Import Prelude Text Scan Hex Rule Contract Bytes Agent Session Event Canonical Inventory Ecosystem Advisory Importer.


(** ** What each check asks *)

Lemma if_breaks (b : bool) field reason (k : advisory_checked) :
  (if b then breaks field reason else k) = Ok tt ↔ b = false ∧ k = Ok tt.
Proof. destruct b; naive_solver. Qed.

Lemma text_taken field v maximum required : 0 ≤ maximum →
  advisory_text field v maximum required = Ok tt ↔ (required = true → v ≠ "") ∧ slen v ≤ maximum.
Proof.
  intros Hm. unfold advisory_text. case_bool_decide as Hv.
  - subst v. change (slen "") with 0. destruct required; naive_solver.
  - rewrite if_breaks, Z.ltb_ge. naive_solver.
Qed.

(** A time the platform holds. *)
Definition in_time (t : option WireTime) : Prop :=
  ∀ at_, t = Some at_ → IsValid at_ = true ∧ EarliestInstant ≤ WireTime_AsTime at_ ≤ LatestInstant.

Lemma instant_taken field t required :
  advisory_instant field t required = Ok tt ↔ (required = true → is_Some t) ∧ in_time t.
Proof.
  unfold in_time. destruct t as [t|]; cbn [advisory_instant].
  - rewrite !if_breaks, negb_false_iff, orb_false_iff. unfold before, after. rewrite !Z.ltb_ge. split.
    + intros (Hv & [H1 H2] & _). split; [by eexists |]. intros ? [= <-]. done.
    + intros [_ Ht]. destruct (Ht t eq_refl) as (? & ? & ?). done.
  - split; [intros Hr; split; [by destruct required | by intros] |].
    intros [Hr _]. destruct required; [by destruct (Hr eq_refl) | done].
Qed.

Lemma declared_taken field value named : value ≠ 0 → named value = true → advisory_declared field value named = Ok tt.
Proof. intros Hv Hn. unfold advisory_declared. by rewrite (proj2 (Z.eqb_neq _ _) Hv), Hn. Qed.

Lemma identifier_taken field name : Identifier name = true → advisory_identifier field name = Ok tt.
Proof.
  intros Hname. unfold advisory_identifier. rewrite checks_both, Hname. split; [| done]. apply text_taken; [done |].
  unfold Identifier in Hname. case_bool_decide as He; [done |]. cbn [orb] in Hname.
  destruct (Z.ltb_spec MaxAdvisoryIDLength (slen name)); [done |]. done.
Qed.

Lemma each_member {E A} (f : nat → A → result E unit) (P : A → Prop) l :
  (∀ j x, x ∈ l → f j x = Ok tt ↔ P x) → each f l = Ok tt ↔ ∀ x, x ∈ l → P x.
Proof.
  intros Hf. rewrite each_ok. split.
  - intros Hall x [j Hj]%list_elem_of_lookup. apply (Hf j); [by eapply list_elem_of_lookup_2 | by apply Hall].
  - intros Hall j x Hj. apply list_elem_of_lookup_2 in Hj as Hin. apply Hf; auto.
Qed.

(** What generated code declares of its enumerations. *)
Class AdvisoryLaws `{AdvisoryContract} : Prop := {
  severities_declared : Forall (λ t, t ≠ 0 ∧ Severity_Type_named t = true)
    [Severity_TYPE_CVSS_V2; Severity_TYPE_CVSS_V3; Severity_TYPE_CVSS_V4; Severity_TYPE_UBUNTU];
  ranges_declared : Forall (λ t, t ≠ 0 ∧ Range_Type_named t = true) [Range_TYPE_ECOSYSTEM; Range_TYPE_SEMVER];
}.

(** ** What fits *)

Definition no_longer (maximum : Z) (text : string) : Prop := slen text ≤ maximum.

Definition rating_fits (r : Rating) : Prop := no_longer MaxScoreLength (ra_score r) ∧ no_longer MaxAssessorLength (ra_assessed r).

(** A range of versions, each of them written, that introduces something and is not both
    fixed and last affected. *)
Definition range_fits (span : VersionRange) : Prop :=
  len (vr_events span) ≤ MaxEventsPerRange
  ∧ (∀ b, Some b ∈ vr_events span → boundary_version b ≠ "" ∧ no_longer MaxAffectedVersion (boundary_version b))
  ∧ existsb introduces (vr_events span) = true
  ∧ existsb fixes (vr_events span) && existsb lasts (vr_events span) = false.

Definition entry_fits (entry : Affected) : Prop :=
  no_longer MaxAffectedName (af_name entry) ∧ len (af_ranges entry) ≤ MaxRangesPerAffected
  ∧ (∀ span, span ∈ af_ranges entry → range_fits span) ∧ len (af_versions entry) ≤ MaxVersionsPerAffected
  ∧ (∀ v, v ∈ af_versions entry → no_longer MaxAffectedVersion v) ∧ ∀ r, r ∈ af_severities entry → rating_fits r.

(** What an advisory says fits, *)
Definition advisory_fits (a : Advisory) : Prop :=
  in_time (av_modified a) ∧ in_time (av_published a) ∧ in_time (av_withdrawn a)
  ∧ len (av_aliases a) ≤ MaxNamesPerList ∧ len (av_upstream a) ≤ MaxNamesPerList ∧ len (av_related a) ≤ MaxNamesPerList
  ∧ (∀ r, r ∈ av_severities a → rating_fits r)
  ∧ len (av_affected a) ≤ MaxAffected ∧ ∀ entry, entry ∈ av_affected a → entry_fits entry.

(** and so does where and when it was read. *)
Definition reading_fits (feed version location format : string) (now : instant) : Prop :=
  no_longer MaxFeedLength feed ∧ no_longer MaxFeedVersionLength version ∧ no_longer MaxLocationLength location
  ∧ no_longer MaxFormatLength format ∧ in_time (Some (mkWireTime (now / second - unix_seconds) (now mod second))).

Section translated.
Context `{UnicodeCase, AdvisoryContract, AL : !AdvisoryLaws}.

Lemma severityTypes_declared name kind : severityTypes name = Some kind → kind ≠ 0 ∧ Severity_Type_named kind = true.
Proof using AL.
  pose proof severities_declared as Hall. rewrite !Forall_cons in Hall. destruct Hall as (? & ? & ? & ? & _).
  unfold severityTypes. repeat case_match; try discriminate; intros [= <-]; done.
Qed.

Lemma rangeTypes_declared name kind : rangeTypes name = Some kind → kind ≠ 0 ∧ Range_Type_named kind = true.
Proof using AL.
  pose proof ranges_declared as Hall. rewrite !Forall_cons in Hall. destruct Hall as (? & ? & _).
  unfold rangeTypes. repeat case_match; try discriminate; intros [= <-]; done.
Qed.

(** A rating as a translation makes it. *)
Definition rated (r : Rating) : Prop := ra_type r ≠ 0 ∧ Severity_Type_named (ra_type r) = true ∧ ra_score r ≠ "".

Lemma osv_severities_rated listed : ∀ kept, Forall rated kept → len kept < MaxSeverities →
  Forall rated (osv_severities_from kept listed) ∧ len (osv_severities_from kept listed) ≤ MaxSeverities.
Proof using AL.
  induction listed as [|r listed IH]; intros kept Hkept Hlen; cbn [osv_severities_from]; [split; [done | lia] |].
  destruct (severityTypes _) as [kind|] eqn:Hkind; [| by apply IH].
  destruct (TrimSpace (ov_score r)) as [|c s]; [by apply IH |].
  apply severityTypes_declared in Hkind as [Hz Hn].
  assert (Forall rated (kept ++ [mkRating kind (String c s) (TrimSpace (ov_source r))])) as Hmore
    by (apply Forall_app; split; [done | by repeat constructor]).
  assert (len (kept ++ [mkRating kind (String c s) (TrimSpace (ov_source r))]) = len kept + 1) as Hlen'
    by (unfold len; rewrite length_app; cbn; lia).
  destruct (_ =? MaxSeverities) eqn:Hfull; to_prop; [split; [done | lia] |]. apply IH; [done | lia].
Qed.

Lemma severities_taken field listed :
  validate_severities field (osv_severities listed) = Ok tt ↔ ∀ r, r ∈ osv_severities listed → rating_fits r.
Proof using AL.
  destruct (osv_severities_rated listed []) as [Hrated Hlen]; [constructor | done |]. unfold validate_severities.
  rewrite if_breaks, Z.ltb_ge, (each_member _ rating_fits); [split; [by intros [_ ?] | intros ?; done] |].
  intros j r Hr. rewrite Forall_forall in Hrated. destruct (Hrated r Hr) as (Hz & Hn & Hs).
  rewrite !checks_both, declared_taken, !text_taken by done. unfold rating_fits, no_longer. naive_solver.
Qed.

Lemma names_taken field listed self :
  advisory_names field (osv_names listed self) = Ok tt ↔ len (osv_names listed self) ≤ MaxNamesPerList.
Proof.
  unfold advisory_names. rewrite if_breaks, Z.ltb_ge, (each_member _ (λ _, True)); [naive_solver |].
  intros j name Hname. split; [done | intros _]. apply identifier_taken.
  unfold osv_names in Hname. rewrite elem_of_compact, sort_strings_perm, list_elem_of_filter in Hname. naive_solver.
Qed.

Lemma instant_read field spelled required t : osv_instant field spelled required = Ok t → required = true → is_Some t.
Proof.
  unfold osv_instant. intros Ht ->. case_bool_decide; [done |]. destruct (ParseRFC3339 _) as [parsed|]; [| done].
  destruct (is_zero parsed); [done |]. injection Ht as <-. by eexists.
Qed.

Lemma events_some events : ∀ index read, osv_events index events = Ok read → Forall is_Some read.
Proof.
  induction events as [|b events IH]; intros index read; cbn [osv_events]; [by intros [= <-] |].
  destruct (osv_event b) as [event|]; [| done]. destruct (osv_events (S index) events) as [more|] eqn:Hmore; [| done].
  intros [= <-]. constructor; [by eexists | by eapply IH].
Qed.

Lemma range_taken field kind events : kind ≠ 0 → Range_Type_named kind = true → Forall is_Some events →
  validate_range field (mkVersionRange kind events) = Ok tt ↔ range_fits (mkVersionRange kind events).
Proof.
  intros Hz Hn Hevents. unfold validate_range, range_fits. cbn [vr_type vr_events]. rewrite declared_taken by done.
  rewrite !checks_both, !if_breaks, Z.ltb_ge, negb_false_iff.
  rewrite (each_member _ (λ event, ∀ b, event = Some b → boundary_version b ≠ "" ∧ no_longer MaxAffectedVersion (boundary_version b))).
  - split.
    + intros (_ & [Hl _] & Hall & Hi & Hf & _). split_and!; [done | | done | done]. intros b Hb. by apply (Hall (Some b)).
    + intros (Hl & Hall & Hi & Hf). split_and!; try done. intros x Hx b ->. by apply Hall.
  - intros j event Hevent. rewrite Forall_forall in Hevents. destruct (Hevents event Hevent) as [b ->].
    rewrite text_taken by done. unfold no_longer. naive_solver.
Qed.

Lemma spans_taken listed : ∀ ranges, osv_spans listed = Ok ranges →
  ∀ span field, span ∈ ranges → validate_range field span = Ok tt ↔ range_fits span.
Proof using AL.
  induction listed as [|span listed IH]; intros ranges; cbn [osv_spans]; [intros [= <-] ? ? ?%elem_of_nil; done |].
  destruct (rangeTypes _) as [kind|] eqn:Hkind; [| by apply IH].
  destruct (osv_events 0 _) as [events|] eqn:Hevents; [| done]. destruct (osv_spans listed) as [more|]; [| done].
  intros [= <-] span' field [-> | Hin]%elem_of_cons; [| by eapply IH].
  apply rangeTypes_declared in Hkind as [Hz Hn]. apply events_some in Hevents. by apply range_taken.
Qed.

Lemma entries_taken listed : ∀ index entries, osv_entries index listed = Ok entries →
  ∀ entry field, entry ∈ entries → validate_affected field entry = Ok tt ↔ entry_fits entry.
Proof using AL.
  induction listed as [|a listed IH]; intros index entries; cbn [osv_entries]; [intros [= <-] ? ? ?%elem_of_nil; done |].
  destruct (Ecosystem _) as [ecosystem|] eqn:Heco; [| by apply IH]. case_bool_decide as Hname; [done |].
  destruct (osv_spans _) as [ranges|] eqn:Hranges; [| done].
  destruct ((len ranges =? 0) && _) eqn:Hnothing; [by apply IH |].
  destruct (osv_entries (S index) listed) as [more|] eqn:Hmore; [| done].
  intros [= <-] entry field [-> | Hin]%elem_of_cons; [| by eapply IH].
  pose proof (Ecosystem_idempotent _ _ Heco) as Hsame.
  unfold validate_affected, entry_fits. cbn [af_ecosystem af_name af_ranges af_versions af_severities].
  rewrite Hsame, bool_decide_eq_true_2, Hnothing by done.
  rewrite !checks_both, !if_breaks, !Z.ltb_ge, severities_taken, text_taken by done.
  rewrite (each_member _ range_fits), (each_member _ (no_longer MaxAffectedVersion)); [unfold no_longer; naive_solver | |].
  - intros j v Hv. rewrite text_taken by done. unfold no_longer. split; [naive_solver |]. intros ?. split; [| done]. intros _.
    unfold osv_trimmed in Hv. apply list_elem_of_filter in Hv. by destruct Hv.
  - intros j span Hspan. by eapply spans_taken.
Qed.

Lemma cut_back_within prose cut : (cut_back prose cut ≤ cut)%nat.
Proof. induction cut as [|cut IH]; [done |]. cbn [cut_back]. repeat case_match; lia. Qed.

Lemma string_take_shorter n s : (String.length (string_take n s) ≤ n)%nat.
Proof. revert s. induction n as [|n IH]; intros [|c s]; cbn; try lia. specialize (IH s). lia. Qed.

Lemma osv_fit_fits prose maximum : 0 ≤ maximum → slen (osv_fit prose maximum) ≤ maximum.
Proof.
  intros Hm. unfold osv_fit. cbv zeta. destruct (Z.leb_spec (slen (TrimSpace prose)) maximum); [done |]. unfold slen.
  pose proof (cut_back_within (TrimSpace prose) (Z.to_nat maximum)).
  pose proof (string_take_shorter (cut_back (TrimSpace prose) (Z.to_nat maximum)) (TrimSpace prose)). lia.
Qed.

(** What is always so of a translation. *)
Record translation (a : Advisory) : Prop := {
  tr_schema : av_schema a = AdvisorySchemaVersion;
  tr_source : av_source a = OsvSource;
  tr_id : Identifier (av_id a) = true;
  tr_modified : is_Some (av_modified a);
  tr_names : ∀ field names, names ∈ [av_aliases a; av_upstream a; av_related a] →
    advisory_names field names = Ok tt ↔ len names ≤ MaxNamesPerList;
  tr_prose : slen (av_summary a) ≤ MaxSummaryLength ∧ slen (av_details a) ≤ MaxDetailsLength;
  tr_severities : ∀ field, validate_severities field (av_severities a) = Ok tt ↔ ∀ r, r ∈ av_severities a → rating_fits r;
  tr_affected : ∀ field entry, entry ∈ av_affected a → validate_affected field entry = Ok tt ↔ entry_fits entry;
  tr_provenance : pv_format (provenance_of a) ≠ "" ∧ pv_normalization (provenance_of a) = OsvNormalization;
}.

Lemma Translate_translation r a : osv_Translate r = Ok a → translation a.
Proof using AL.
  unfold osv_Translate. destruct (negb _); [done |]. destruct (Identifier _) eqn:Hid; [| done]. cbn [negb].
  destruct (osv_instant "modified" _ _) as [modified|] eqn:Hm; [| done].
  destruct (osv_instant "published" _ _) as [published|]; [| done].
  destruct (osv_instant "withdrawn" _ _) as [withdrawn|]; [| done].
  destruct (osv_entries 0 _) as [entries|] eqn:He; [| done]. intros [= <-]. split; cbn; try done.
  - by eapply instant_read.
  - intros field names Hin. repeat (apply elem_of_cons in Hin as [-> | Hin]; [apply names_taken |]). by apply elem_of_nil in Hin.
  - split; by apply osv_fit_fits.
  - intros field. apply severities_taken.
  - intros field entry Hin. by eapply entries_taken.
Qed.

Lemma provenance_taken feed version location digest decoded now format :
  feed ≠ "" → version ≠ "" → location ≠ "" → format ≠ "" → hex_decode digest = Some decoded → slen decoded = 32 →
  validate_provenance (Some (mkProvenance feed version location (Some (mkWireTime (now / second - unix_seconds) (now mod second)))
    digest format OsvNormalization)) = Ok tt ↔ reading_fits feed version location format now.
Proof.
  intros Hf Hv Hl Hfmt Hd Hlen. cbn [validate_provenance pv_feed pv_feed_version pv_location pv_fetched pv_digest pv_format
    pv_normalization]. rewrite Hd, Hlen, !checks_both, !text_taken, instant_taken by done. unfold reading_fits, no_longer.
  split; [naive_solver |]. intros (? & ? & ? & ? & ?). by split_and!.
Qed.

(** C36. A record of OSV that was translated, and located where it was read, is taken
    exactly when what it says fits the contract, and where and when it was read does: its
    times are in the window and it was not changed later than it was read, no list, version,
    name of a package or score is too long, every range introduces something and is not both
    fixed and last affected, and it is not too large. It is never refused for what the
    translation named, spelled, typed, rated, counted, cut or left out. *)
Theorem a_translation_is_taken_when_it_fits r a feed version location digest decoded now :
  osv_Translate r = Ok a → feed ≠ "" → version ≠ "" → location ≠ "" →
  hex_decode digest = Some decoded → slen decoded = 32 →
  advisory_Validate (located a feed version location digest now) = Ok tt
  ↔ advisory_fits a ∧ reading_fits feed version location (pv_format (provenance_of a)) now
    ∧ times_at (av_modified a) ≤ time_add (fetched_at (located a feed version location digest now)) AdvisoryClockSkew
    ∧ advisory_Size (located a feed version location digest now) ≤ MaxAdvisoryBytes.
Proof using AL.
  intros [Hschema Hsource Hid Hm Hnames [Hsum Hdet] Hsev Haff [Hfmt Hnorm]]%Translate_translation Hf Hv Hl Hd Hlen.
  set (fresh := located a feed version location digest now).
  unfold advisory_Validate. change (av_provenance fresh) with (Some (mkProvenance feed version location
    (Some (mkWireTime (now / second - unix_seconds) (now mod second))) digest (pv_format (provenance_of a)) (pv_normalization (provenance_of a)))).
  change (av_schema fresh) with (av_schema a). change (av_source fresh) with (av_source a). change (av_id fresh) with (av_id a).
  change (av_modified fresh) with (av_modified a). change (av_published fresh) with (av_published a).
  change (av_withdrawn fresh) with (av_withdrawn a). change (av_aliases fresh) with (av_aliases a).
  change (av_upstream fresh) with (av_upstream a). change (av_related fresh) with (av_related a).
  change (av_summary fresh) with (av_summary a). change (av_details fresh) with (av_details a).
  change (av_severities fresh) with (av_severities a). change (av_affected fresh) with (av_affected a).
  rewrite Hschema, Hsource, Hnorm, !checks_both, !if_breaks, !instant_taken, !Hnames, Hsev by set_solver.
  rewrite (identifier_taken _ _ Hid), (provenance_taken _ _ _ _ decoded), !text_taken by done.
  unfold validate_entries. rewrite if_breaks, Z.ltb_ge, (each_member _ entry_fits) by (intros; by apply Haff).
  unfold after. rewrite !Z.ltb_ge. unfold advisory_fits. split; [naive_solver |].
  intros ((? & ? & ? & ? & ? & ? & ? & ? & ?) & ? & ? & ?). by split_and!.
Qed.
End translated.

(** * What following feeds at once holds *)

(** ** What is kept of one advisory *)

Section kept.
Context `{AdvisoryContract}.
Context (hashing : FeedHashing).

Definition keep_one (held : option held_advisory) (a : Advisory) : option held_advisory :=
  match held with
  | Some current => if before (modified_at a) (hd_modified current) then held else Some (holding_of hashing a)
  | None => Some (holding_of hashing a)
  end.

Lemma keep_lookup held a id :
  keep hashing held a !! id = if decide (av_id a = id) then keep_one (held !! id) a else held !! id.
Proof.
  unfold keep, keep_one. case_decide as Hid.
  - subst id. destruct (held !! av_id a) as [current|] eqn:Hc; [destruct (before _ _); [done |] |]; by rewrite lookup_insert_eq.
  - destruct (held !! av_id a) as [current|]; [destruct (before _ _); [done |] |]; by rewrite lookup_insert_ne.
Qed.

Lemma keeps_lookup l id : ∀ held,
  foldl (keep hashing) held l !! id = foldl keep_one (held !! id) (filter (λ a, av_id a = id) l).
Proof.
  induction l as [|a l IH]; intros held; [done |]. cbn [foldl]. rewrite IH, keep_lookup. case_decide as Hid.
  - by rewrite filter_cons_True.
  - by rewrite filter_cons_False.
Qed.

Definition not_older (a b : Advisory) : Prop := modified_at a ≤ modified_at b.

(** Of versions none of which is older than one before it, the last is what is kept. *)
Lemma ordered_kept l : StronglySorted not_older l → foldl keep_one None l = holding_of hashing <$> last l.
Proof.
  induction l as [|a l IH] using rev_ind; intros Hl; [done |]. rewrite foldl_app, last_snoc. cbn [foldl].
  apply StronglySorted_app in Hl as (Hbefore & Hl & _). rewrite (IH Hl).
  destruct (last l) as [b|] eqn:Hlast; [| done]. cbn. unfold before.
  rewrite (proj2 (Z.ltb_ge _ _)); [done |]. apply (Hbefore b a); [| by left].
  by apply last_Some_elem_of.
Qed.

Lemma ordered_more l a : StronglySorted not_older l → (∀ b, last l = Some b → not_older b a) → StronglySorted not_older (l ++ [a]).
Proof.
  intros Hl Ha. apply StronglySorted_app. split_and!; [| done | by repeat constructor].
  intros x y Hx ->%list_elem_of_singleton. destruct (last l) as [b|] eqn:Hlast.
  - apply last_Some in Hlast as [l' ->]. specialize (Ha b eq_refl). apply StronglySorted_app in Hl as (Hb & _ & _).
    apply elem_of_app in Hx as [Hx | ->%list_elem_of_singleton]; [| done].
    specialize (Hb x b Hx ltac:(by left)). unfold not_older in *. lia.
  - apply last_None in Hlast as ->. by apply elem_of_nil in Hx.
Qed.

Lemma ordered_part l l' : l' `sublist_of` l → StronglySorted not_older l → StronglySorted not_older l'.
Proof.
  induction 1 as [|x l1 l2 Hsub IH|x l1 l2 Hsub IH]; intros Hs; [done | |].
  - apply StronglySorted_inv in Hs as [Hs Hall]. constructor; [by apply IH |].
    rewrite Forall_forall in *. intros y Hy. apply Hall. eapply elem_of_submseteq; [exact Hy | by apply sublist_submseteq].
  - apply StronglySorted_inv in Hs as [Hs _]. by apply IH.
Qed.

(** *** A batch held *)

Lemma hold_other feed b : ∀ s id, id ∉ told_id <$> b → (foldl (hold_published feed) s b).1 !! id = s.1 !! id.
Proof.
  induction b as [|[[l a] st] b IH]; intros s id Hid; [done |]. cbn [fmap list_fmap foldl] in *.
  apply not_elem_of_cons in Hid as [Hne Hid]. rewrite IH by done. cbn. by apply lookup_insert_ne.
Qed.

Lemma hold_one feed b : ∀ s one, NoDup (told_id <$> b) → one ∈ b →
  (foldl (hold_published feed) s b).1 !! told_id one
  = Some (mkHolding feed (modified_at (told_advisory one)) (pv_normalization (provenance_of (told_advisory one))) one.2).
Proof.
  induction b as [|other b IH]; intros s one Hdup Hin; [by apply elem_of_nil in Hin |]. cbn [fmap list_fmap foldl] in *.
  apply NoDup_cons in Hdup as [Hnot Hdup]. apply elem_of_cons in Hin as [-> | Hin]; [| by apply IH].
  rewrite hold_other by done. destruct other as [[l a] st]. apply lookup_insert_eq.
Qed.

Lemma hold_batch_held feed i t :
  im_held (hold_batch feed i t).1 = (foldl (hold_published feed) (im_held i, fo_settled (state_of i feed)) (at_batch t)).1.
Proof. unfold hold_batch. by destruct (foldl _ _ _). Qed.

Lemma hold_batch_same feed i i' t id : im_held i !! id = im_held i' !! id → NoDup (told_id <$> at_batch t) →
  im_held (hold_batch feed i t).1 !! id = im_held (hold_batch feed i' t).1 !! id.
Proof.
  intros Heq Hdup. rewrite !hold_batch_held. destruct (decide (id ∈ told_id <$> at_batch t)) as [Hin|Hout].
  - apply list_elem_of_fmap in Hin as (one & -> & Hone). by rewrite !hold_one.
  - by rewrite !hold_other.
Qed.

(** What a batch says of one advisory. *)
Lemma batch_about b id : NoDup (told_id <$> b) → (∀ one, one ∈ b → av_id (told_advisory one) = told_id one) →
  (id ∉ told_id <$> b → filter (λ a, av_id a = id) (told_advisory <$> b) = [])
  ∧ ∀ one, one ∈ b → told_id one = id → filter (λ a, av_id a = id) (told_advisory <$> b) = [told_advisory one].
Proof.
  induction b as [|other b IH]; intros Hdup Hid; [split; [done | by intros one ?%elem_of_nil] |].
  cbn [fmap list_fmap] in *. apply NoDup_cons in Hdup as [Hnot Hdup].
  destruct IH as [IHout IHin]; [done | intros one Hone; apply Hid; by right |].
  pose proof (Hid other ltac:(by left)) as Ho. split.
  - intros [Hne Hout]%not_elem_of_cons. rewrite filter_cons_False by congruence. by apply IHout.
  - intros one [-> | Hin]%elem_of_cons Heq.
    + rewrite filter_cons_True by congruence. f_equal. apply IHout. by rewrite <- Heq.
    + rewrite filter_cons_False; [by apply IHin |]. intros Hq. apply Hnot. rewrite <- Ho, Hq, <- Heq. by apply list_elem_of_fmap_2.
Qed.
End kept.

(** ** What every step keeps *)

Section running.
Context `{AdvisoryContract}.
Context (source : string) (normalization batch : Z) (hashing : FeedHashing) (translate : string → option Advisory).
Context (feeds : list string) (lists : string → string → Prop).
Context (Hsource : ∀ body a, translate body = Some a → av_source a = source).

Abbreviation follows := (follows_on source normalization batch hashing translate feeds lists).
Abbreviation went := (went_through source normalization batch hashing translate feeds lists).

(** An advisory a later start reads back. *)
Definition read_back (horizon : instant) (a : Advisory) : Prop :=
  av_source a = source ∧ is_ok (advisory_Validate a) = true ∧ fetched_at a ≤ horizon.

(** One of a batch, as settling made it of what a feed lists. *)
Definition told_well (horizon : instant) (feed : string) (one : told) : Prop :=
  av_id (told_advisory one) = told_id one ∧ one.2 = statement hashing (told_advisory one)
  ∧ pv_feed (provenance_of (told_advisory one)) = feed ∧ lists feed (told_id one) ∧ read_back horizon (told_advisory one).

Definition attempt_of (d : doing) : option attempt :=
  match d with Waiting => None | Reading t | Written t => Some t end.

Record at_work (horizon : instant) (feed : string) (t : attempt) : Prop := {
  aw_once : NoDup ((told_id <$> at_batch t) ++ (li_id <$> at_asked t));
  aw_lists : ∀ l, l ∈ at_asked t → lists feed (li_id l);
  aw_told : ∀ one, one ∈ at_batch t → told_well horizon feed one;
}.

Definition listed_by (feed : string) (state : feed_follow) : Prop :=
  NoDup (li_id <$> fo_listings state) ∧ ∀ l, l ∈ fo_listings state → lists feed (li_id l).

Record following (i : Importer) : Prop := {
  fw_feeds : ∀ feed, is_Some (im_follows i !! feed) ↔ feed ∈ feeds;
  fw_listed : ∀ feed state, im_follows i !! feed = Some state → listed_by feed state;
}.

Record running_well (horizon : instant) (r : Running) : Prop := {
  so_following : following (rn_importer r);
  so_work : ∀ feed t, attempt_of (doing_of r feed) = Some t → feed ∈ feeds ∧ at_work horizon feed t;
  so_log : ∀ a, a ∈ advisories_of (rn_log r) →
    read_back horizon a ∧ pv_feed (provenance_of a) ∈ feeds ∧ lists (pv_feed (provenance_of a)) (av_id a);
}.

Lemma settle_told horizon feed version now listing fetched a st :
  now ≤ horizon → lists feed (li_id listing) →
  se_outcome (settle normalization hashing translate feed version now listing fetched) = Told a st →
  told_well horizon feed (listing, a, st).
Proof using Hsource.
  intros Hnow Hlists. cbn. destruct fetched as [f| | |]; try done. destruct (translate _) as [b|] eqn:Hb; [| done].
  case_bool_decide as Hid; [| done]. cbn [negb]. destruct (negb (_ =? _)); [done |].
  destruct (is_ok _) eqn:Hok; [| done]. cbn [negb]. intros [= <- <-]. split_and!; try done.
  split_and!; [exact (Hsource _ _ Hb) | done |]. unfold fetched_at, times_at, located, WireTime_AsTime. cbn.
  unfold second. pose proof (Z.div_mod now 1000000000). lia.
Qed.

Lemma following_state i feed : following i → listed_by feed (state_of i feed).
Proof.
  intros [_ Hl]. unfold state_of. destruct (im_follows i !! feed) as [state|] eqn:Hs; [by eapply Hl |].
  split; [constructor | by intros l ?%elem_of_nil].
Qed.

Lemma following_with i feed state held : following i → feed ∈ feeds → listed_by feed state →
  following (mkImporter held (<[feed := state]> (im_follows i))).
Proof.
  intros [Hdom Hl] Hin Hnew. split; cbn; intros other.
  - destruct (decide (other = feed)) as [-> | Hne]; [by rewrite lookup_insert_eq | by rewrite lookup_insert_ne].
  - intros st. destruct (decide (other = feed)) as [-> | Hne].
    + rewrite lookup_insert_eq. by intros [= <-].
    + rewrite lookup_insert_ne by done. apply Hl.
Qed.

Lemma NewImporter_following i : NewImporter feeds = Some i → following i ∧ im_held i = ∅.
Proof.
  unfold NewImporter. destruct (_ || _); [done |]. intros [= <-]. split; [| done]. split; cbn.
  - intros feed. generalize feeds as l. induction l as [|other l IH]; cbn.
    + rewrite lookup_empty. split; [by intros [? ?] | by intros ?%elem_of_nil].
    + rewrite elem_of_cons. destruct (decide (feed = other)) as [-> | Hne].
      * rewrite lookup_insert_eq. split; [by left | by eexists].
      * rewrite lookup_insert_ne by done. rewrite IH. split; [by right | by intros [? | ?]].
  - intros feed state Hl. apply elem_of_list_to_map_2 in Hl as (f & [= -> ->] & _)%list_elem_of_fmap.
    split; [constructor | by intros l ?%elem_of_nil].
Qed.

Lemma latest_once listings : NoDup (li_id <$> latest listings).
Proof.
  unfold latest. rewrite <- list_fmap_compose. erewrite list_fmap_ext; [| by intros ? ? ?].
  rewrite list_fmap_id, sort_strings_perm. apply NoDup_fst_map_to_list.
Qed.

Lemma newest_listed listings : ∀ id, is_Some (newest_listings listings !! id) → ∃ l, l ∈ listings ∧ li_id l = id.
Proof.
  unfold newest_listings. induction listings as [|l listings IH] using rev_ind; intros id Hid; [cbn [foldl] in Hid; rewrite lookup_empty in Hid; by destruct Hid |].
  rewrite foldl_app in Hid. cbn [foldl] in Hid. set (m := foldl _ _ listings) in *.
  assert (is_Some (m !! id) ∨ id = li_id l) as [Hm | ->].
  { destruct (decide (id = li_id l)) as [-> | Hne]; [by right | left].
    destruct (m !! li_id l); [destruct (after _ _) |]; try done; by rewrite lookup_insert_ne in Hid. }
  - destruct (IH id Hm) as (l' & Hl' & ?). exists l'. split; [apply elem_of_app; by left | done].
  - exists l. split; [apply elem_of_app; right; by left | done].
Qed.

Lemma latest_listed listings l : l ∈ latest listings → ∃ l', l' ∈ listings ∧ li_id l' = li_id l.
Proof.
  unfold latest. intros (id & -> & Hid)%list_elem_of_fmap. rewrite sort_strings_perm in Hid. cbn.
  apply list_elem_of_fmap in Hid as ([id' at_] & -> & Hin). apply newest_listed. exists at_. by apply elem_of_map_to_list.
Qed.

Lemma indexed_listed feed state index next refused :
  indexed_follow state index = Some (next, refused) → (∀ ix l, index = Answered ix → l ∈ fi_listings ix → lists feed (li_id l)) →
  listed_by feed state → listed_by feed next.
Proof.
  unfold indexed_follow. intros Hindex Hlists Hl. destruct index as [ix| | |]; try done. destruct (fi_unchanged ix); [by simplify_eq |].
  destruct (_ && _); [done |]. simplify_eq. split; [apply latest_once |]. cbn.
  intros l (l' & Hl' & <-)%latest_listed. by eapply Hlists.
Qed.

Lemma owed_listed feed held state : listed_by feed state →
  NoDup (li_id <$> owed normalization held state) ∧ ∀ l, l ∈ owed normalization held state → lists feed (li_id l).
Proof.
  intros [Hdup Hl]. unfold owed. split.
  - eapply sublist_NoDup; [exact Hdup |]. apply fmap_sublist, sublist_filter.
  - intros l [_ Hin]%list_elem_of_filter. by apply Hl.
Qed.
(** *** The steps of one goroutine *)

Lemma asked_less t id : NoDup ((told_id <$> at_batch t) ++ (li_id <$> at_asked t)) →
  NoDup ((told_id <$> at_batch t) ++ (li_id <$> filter (λ l, li_id l ≠ id) (at_asked t)))
  ∧ id ∉ (li_id <$> filter (λ l, li_id l ≠ id) (at_asked t)).
Proof.
  intros Hdup. split.
  - eapply sublist_NoDup; [exact Hdup |]. apply sublist_app; [done | apply fmap_sublist, sublist_filter].
  - intros (l & -> & [Hne _]%list_elem_of_filter)%list_elem_of_fmap. done.
Qed.

Lemma take_answer_sound horizon feed s i t i' t' :
  following i → feed ∈ feeds → at_work horizon feed t → se_listing s ∈ at_asked t →
  (∀ a st, se_outcome s = Told a st → told_well horizon feed (se_listing s, a, st)) →
  take_answer normalization feed s i t = (i', t') →
  following i' ∧ at_work horizon feed t' ∧ im_held i' = im_held i
  ∧ ∀ one, one ∈ at_batch t' → one ∈ at_batch t
      ∨ publishable normalization (im_held i) one.1.1 (told_advisory one) one.2 = true.
Proof.
  intros Hf Hin [Honce Hlists Htold] Hasked Hs. destruct (asked_less t (li_id (se_listing s)) Honce) as [Hless Hnot].
  pose proof (following_state i feed Hf) as Hst.
  assert (∀ settled, following (with_state i feed (mkFollow (fo_known (state_of i feed)) (fo_listings (state_of i feed)) settled (fo_synced (state_of i feed)))))
    as Hsettled by (intros settled; by apply following_with).
  assert (∀ st un pub ref, at_work horizon feed (mkAttempt (at_version t) (at_checked t)
      (filter (λ l, li_id l ≠ li_id (se_listing s)) (at_asked t)) (at_batch t) st un pub ref)) as Hwork.
  { intros. split; cbn; [done | | done]. intros l [_ Hl]%list_elem_of_filter. by apply Hlists. }
  unfold take_answer. destruct (se_outcome s) as [| | |a st] eqn:Ho; try (intros [= <- <-]; cbn; by split_and!; auto).
  destruct (publishable _ _ _ _ _) eqn:Hp; cbn [negb].
  2:{ intros [= <- <-]. cbn. split_and!; [by destruct (before _ _) | apply Hwork | by destruct (before _ _) | auto]. }
  intros [= <- <-]. cbn. split_and!; [done | | done |].
  - split; cbn; [| intros l [_ Hl]%list_elem_of_filter; by apply Hlists |].
    + rewrite fmap_app, <- app_assoc. cbn. apply NoDup_app in Hless as (H1 & H2 & H3). apply NoDup_app. split_and!; [done | |].
      * intros x Hx [-> | Hx']%elem_of_cons; [| by apply (H2 x)]. apply NoDup_app in Honce as (_ & Hdis & _).
        apply (Hdis _ Hx). by apply (list_elem_of_fmap_2 li_id).
      * by apply NoDup_cons.
    + intros one [Hone | ->%list_elem_of_singleton]%elem_of_app; [by apply Htold | by apply Hs].
  - intros one [Hone | ->%list_elem_of_singleton]%elem_of_app; [by left | by right].
Qed.

Lemma hold_batch_sound horizon feed i t i' t' :
  following i → feed ∈ feeds → at_work horizon feed t → hold_batch feed i t = (i', t') →
  following i' ∧ at_work horizon feed t' ∧ at_batch t' = [].
Proof.
  intros Hf Hin [Honce Hlists _]. pose proof (following_state i feed Hf) as Hst. unfold hold_batch.
  destruct (foldl _ _ _) as [held settled]. intros [= <- <-]. split_and!; [by apply following_with | | done].
  split; cbn; [by apply NoDup_app in Honce as (_ & _ & ?) | done | by intros one ?%elem_of_nil].
Qed.

Lemma doing_one i doings feed d log doubtful other :
  doing_of (mkRunning i (<[feed := d]> doings) log doubtful) other
  = if decide (other = feed) then d else default Waiting (doings !! other).
Proof.
  unfold doing_of. cbn. case_decide as Heq; [subst; by rewrite lookup_insert_eq | by rewrite lookup_insert_ne].
Qed.

Lemma advisories_of_app l1 l2 : advisories_of (l1 ++ l2) = advisories_of l1 ++ advisories_of l2.
Proof. apply omap_app. Qed.

Lemma advisories_of_told b : advisories_of (RecordAdvisory ∘ told_advisory <$> b) = told_advisory <$> b.
Proof.
  induction b as [|one b IH]; [done |].
  change (told_advisory one :: advisories_of (RecordAdvisory ∘ told_advisory <$> b) = told_advisory one :: (told_advisory <$> b)). by rewrite IH.
Qed.

Lemma sound_step horizon r i feed d new doubtful :
  running_well horizon r → following i → (∀ t, attempt_of d = Some t → feed ∈ feeds ∧ at_work horizon feed t) →
  (∀ a, a ∈ advisories_of new → read_back horizon a ∧ pv_feed (provenance_of a) ∈ feeds ∧ lists (pv_feed (provenance_of a)) (av_id a)) →
  running_well horizon (mkRunning i (<[feed := d]> (rn_doing r)) (rn_log r ++ new) doubtful).
Proof.
  intros [Hf Hw Hl] Hf' Hd Hnew. split; cbn; [done | |].
  - intros other t. rewrite doing_one. case_decide as Heq; [subst; apply Hd | apply Hw].
  - intros a. rewrite advisories_of_app, elem_of_app. intros [Ha|Ha]; [by apply Hl | by apply Hnew].
Qed.

(** A batch, or part of it, written. *)
Lemma batch_well horizon feed t b : feed ∈ feeds → at_work horizon feed t → b `sublist_of` at_batch t →
  ∀ a, a ∈ advisories_of (RecordAdvisory ∘ told_advisory <$> b) →
  read_back horizon a ∧ pv_feed (provenance_of a) ∈ feeds ∧ lists (pv_feed (provenance_of a)) (av_id a).
Proof.
  intros Hin [_ _ Htold] Hsub a. rewrite advisories_of_told. intros (one & -> & Hone)%list_elem_of_fmap.
  destruct (Htold one) as (Hid & _ & Hfeed & Hlists & Hback).
  { eapply elem_of_submseteq; [exact Hone | by apply sublist_submseteq]. }
  by rewrite Hid, Hfeed.
Qed.

Lemma reports_say_nothing reports report d :
  reports = [] ∨ d ∧ reports = [RecordSync report] → advisories_of reports = [].
Proof. by intros [-> | [_ ->]]. Qed.

(** *** Starting anew *)

Lemma learn_sync_held now i s : im_held (learn source hashing now i (RecordSync s)) = im_held i.
Proof. unfold learn. by repeat case_match. Qed.

Lemma learn_sync_following now i s : following i → following (learn source hashing now i (RecordSync s)).
Proof.
  intros Hfollow. unfold learn. destruct (im_follows i !! fs_feed s) as [state|] eqn:Hst; [| done].
  repeat (case_match; try done).
  all: apply following_with; [done | apply (fw_feeds _ Hfollow); rewrite Hst; by eexists | exact (fw_listed _ Hfollow _ _ Hst)].
Qed.

Lemma Recall_held horizon now log : ∀ i,
  following i → horizon ≤ time_add now AdvisoryClockSkew →
  (∀ a, a ∈ advisories_of log → read_back horizon a ∧ pv_feed (provenance_of a) ∈ feeds) →
  im_held (Recall source hashing now i log) = foldl (keep hashing) (im_held i) (advisories_of log)
  ∧ following (Recall source hashing now i log).
Proof.
  unfold Recall. induction log as [|r log IH]; intros i Hfollow Hclock Hlog; [done |]. cbn [foldl].
  destruct r as [a | s |].
  - change (advisories_of (RecordAdvisory a :: log)) with (a :: advisories_of log) in *.
    destruct (Hlog a ltac:(by left)) as [(Hs & Hok & Hat) Hfeed].
    assert (learn source hashing now i (RecordAdvisory a) = mkImporter (keep hashing (im_held i) a) (im_follows i)) as ->.
    { unfold learn. rewrite bool_decide_eq_true_2 by done. rewrite Hok. cbn [negb orb].
      rewrite bool_decide_eq_true_2 by (by apply (fw_feeds _ Hfollow)). cbn [andb].
      unfold after. rewrite (proj2 (Z.ltb_ge _ _)) by lia. done. }
    cbn [foldl]. apply IH; [| done | intros b Hb; apply Hlog; by right]. by destruct Hfollow.
  - change (advisories_of (RecordSync s :: log)) with (advisories_of log) in *.
    rewrite <- (learn_sync_held now i s). apply IH; [by apply learn_sync_following | done | done].
  - change (advisories_of (RecordNothing :: log)) with (advisories_of log) in *. by apply IH.
Qed.

Lemma start_anew horizon r now fresh : running_well horizon r → NewImporter feeds = Some fresh → horizon ≤ time_add now AdvisoryClockSkew →
  following (Recall source hashing now fresh (rn_log r))
  ∧ ∀ id, im_held (Recall source hashing now fresh (rn_log r)) !! id = foldl (keep_one hashing) None (about id (rn_log r)).
Proof.
  intros [_ _ Hl] Hnew Hclock. destruct (NewImporter_following fresh Hnew) as [Hf Hempty].
  destruct (Recall_held horizon now (rn_log r) fresh Hf Hclock) as [Hheld Hf']; [intros a Ha; by apply Hl in Ha as (? & ? & _) |].
  split; [done |]. intros id. rewrite Hheld, Hempty, keeps_lookup, lookup_empty. done.
Qed.

Lemma follows_sound horizon r r' : running_well horizon r → follows horizon r r' → running_well horizon r'.
Proof using Hsource.
  intros Hsound. pose proof Hsound as [Hf Hw Hl]. destruct 1 as [feed checked index why reports i d Hin Hd Hlists Hbegin Hreports
    |feed t listing now fetched i t' Hd Hfull Hasked Hnow Htake|feed t Hd Hdue Hne Hun|feed t written Hd Hdue Hne Hun Hsub
    |feed t Hd Hdue Hun|feed t i t' Hd Hhold|feed t why reports i report Hd Hall Hempty Hend Hreports|log Hsub|now fresh Hnew Hclock].
  - apply sound_step; [done | | |].
    all: unfold begin_attempt in Hbegin; pose proof (following_state _ feed Hf) as Hst;
      destruct (indexed_follow _ index) as [[state refused]|] eqn:Hindex; injection Hbegin as <- <-.
    + apply following_with; [done | done | by eapply indexed_listed].
    + by apply following_with.
    + intros t [= <-]. split; [done |]. assert (listed_by feed state) as Hls by (by eapply indexed_listed).
      destruct (owed_listed feed (im_held (rn_importer r)) state Hls) as [H1 H2]. split; cbn; [done | done | by intros one ?%elem_of_nil].
    + done.
    + apply reports_say_nothing in Hreports. rewrite Hreports. by intros a ?%elem_of_nil.
    + apply reports_say_nothing in Hreports. rewrite Hreports. by intros a ?%elem_of_nil.
  - destruct (Hw feed t) as [Hin Hwork]; [by rewrite Hd |].
    destruct (take_answer_sound horizon feed (settle normalization hashing translate feed (at_version t) now listing fetched) _ t i t' Hf Hin Hwork Hasked)
      as (Hf' & Hw' & _); [| exact Htake |].
    + intros a st. apply settle_told; [done | by apply (aw_lists _ _ _ Hwork)].
    + apply sound_step; [done | done | by intros ? [= <-] | by intros a ?%elem_of_nil].
  - destruct (Hw feed t) as [Hin Hwork]; [by rewrite Hd |].
    apply sound_step; [done | done | by intros ? [= <-] | by eapply batch_well].
  - destruct (Hw feed t) as [Hin Hwork]; [by rewrite Hd |].
    apply sound_step; [done | done | | by eapply batch_well].
    intros ? [= <-]. split; [done |]. destruct Hwork as [Honce Hls _]. split; cbn; [by apply NoDup_app in Honce as (_ & _ & ?) | done | by intros one ?%elem_of_nil].
  - destruct (Hw feed t) as [Hin Hwork]; [by rewrite Hd |].
    apply sound_step; [done | done | | by intros a ?%elem_of_nil].
    intros ? [= <-]. split; [done |]. destruct Hwork as [Honce Hls _]. split; cbn; [by apply NoDup_app in Honce as (_ & _ & ?) | done | by intros one ?%elem_of_nil].
  - destruct (Hw feed t) as [Hin Hwork]; [by rewrite Hd |].
    destruct (hold_batch_sound horizon feed _ t i t' Hf Hin Hwork Hhold) as (Hf' & Hw' & _).
    apply sound_step; [done | done | by intros ? [= <-] | by intros a ?%elem_of_nil].
  - destruct (Hw feed t) as [Hin Hwork]; [by rewrite Hd |]. injection Hend as <- _.
    apply sound_step; [done | | done |].
    + apply following_with; [done | done | by apply following_state].
    + assert (advisories_of reports = []) as -> by (by destruct Hreports as [-> | ->]). by intros a ?%elem_of_nil.
  - destruct Hsub as [Hsub _]. split; cbn; [done | done |]. intros a Ha. apply Hl.
    apply list_elem_of_omap in Ha as (x & Hx & Hxa). apply list_elem_of_omap. exists x. split; [| done].
    eapply elem_of_submseteq; [exact Hx | by apply sublist_submseteq].
  - destruct (start_anew horizon r now fresh Hsound Hnew Hclock) as [Hf' _]. split; cbn; [done | by intros feed t; unfold doing_of; cbn; rewrite lookup_empty | done].
Qed.
(** *** One advisory, that one feed lists *)

#[local] Arguments about : simpl never.
#[local] Arguments hold_batch : simpl never.

Section one.
Context (feed : string) (id : string) (Hone : ∀ other, lists other id → other = feed).

(** What the importer holds of it, or will once it holds the batch the backbone took. *)
Definition held_soon (r : Running) : option held_advisory :=
  match doing_of r feed with
  | Written t => im_held (hold_batch feed (rn_importer r) t).1 !! id
  | _ => im_held (rn_importer r) !! id
  end.

Record accounted (r : Running) : Prop := {
  ac_batch : ∀ t one, attempt_of (doing_of r feed) = Some t → one ∈ at_batch t → told_id one = id →
    publishable normalization (im_held (rn_importer r)) one.1.1 (told_advisory one) one.2 = true;
  ac_log : id ∈ rn_doubtful r
    ∨ StronglySorted not_older (about id (rn_log r)) ∧ held_soon r = holding_of hashing <$> last (about id (rn_log r));
}.

Lemma about_app l1 l2 : about id (l1 ++ l2) = about id l1 ++ about id l2.
Proof. unfold about. by rewrite advisories_of_app, filter_app. Qed.

Lemma about_part l' l : l' `sublist_of` l → about id l' `sublist_of` about id l.
Proof.
  induction 1 as [|x l1 l2 _ IH|x l1 l2 _ IH]; [done | |].
  - change (x :: l1) with ([x] ++ l1). change (x :: l2) with ([x] ++ l2). rewrite !about_app. by apply sublist_app.
  - change (x :: l2) with ([x] ++ l2). rewrite about_app. by apply sublist_inserts_l.
Qed.

(** A batch says nothing of it, or one thing. *)
Lemma batch_says horizon other t : at_work horizon other t →
  (id ∉ told_id <$> at_batch t ∧ about id (RecordAdvisory ∘ told_advisory <$> at_batch t) = []
   ∧ ∀ i, im_held (hold_batch other i t).1 !! id = im_held i !! id)
  ∨ other = feed ∧ ∃ one, one ∈ at_batch t ∧ told_id one = id
    ∧ about id (RecordAdvisory ∘ told_advisory <$> at_batch t) = [told_advisory one]
    ∧ ∀ i, im_held (hold_batch other i t).1 !! id = Some (holding_of hashing (told_advisory one)).
Proof using Hone.
  intros [Honce _ Htold]. apply NoDup_app in Honce as (Hdup & _ & _).
  destruct (batch_about (at_batch t) id Hdup) as [Hout Hin]; [intros one Hin; by apply Htold |].
  unfold about. rewrite advisories_of_told. destruct (decide (id ∈ told_id <$> at_batch t)) as [Hid|Hid].
  - right. apply list_elem_of_fmap in Hid as (one & Heq & Hmem). destruct (Htold one Hmem) as (_ & Hst & Hfeed & Hls & _).
    rewrite <- Heq in Hls. split; [by apply Hone |]. exists one. split_and!; [done | done | by apply Hin |].
    intros i. rewrite hold_batch_held, Heq, hold_one by done. unfold holding_of. by rewrite Hst, Hfeed.
  - left. split_and!; [done | by apply Hout |]. intros i. by rewrite hold_batch_held, hold_other.
Qed.

Lemma publishable_same held held' l a st : held !! li_id l = held' !! li_id l →
  publishable normalization held l a st = publishable normalization held' l a st.
Proof. intros Heq. unfold publishable. by rewrite Heq. Qed.

(** A step of another goroutine, or one that leaves what is held of it as it was. *)
Lemma account_step r r' : accounted r →
  im_held (rn_importer r') !! id = im_held (rn_importer r) !! id →
  (∀ t' one, attempt_of (doing_of r' feed) = Some t' → one ∈ at_batch t' →
    (∃ t, attempt_of (doing_of r feed) = Some t ∧ one ∈ at_batch t)
    ∨ publishable normalization (im_held (rn_importer r)) one.1.1 (told_advisory one) one.2 = true) →
  (id ∈ rn_doubtful r → id ∈ rn_doubtful r') →
  (id ∉ rn_doubtful r' → about id (rn_log r') = about id (rn_log r) ∧ held_soon r' = held_soon r) →
  accounted r'.
Proof.
  intros [Hb Hl] Hheld Hbatch Hdoubt Hsame. split.
  - intros t' one Ht' Hin Heq. rewrite (publishable_same _ (im_held (rn_importer r))).
    + destruct (Hbatch t' one Ht' Hin) as [(t & Ht & Hin') | Hp]; [by eapply Hb | done].
    + unfold told_id in Heq. by rewrite Heq.
  - destruct (decide (id ∈ rn_doubtful r')) as [|Hnot]; [by left | right].
    destruct Hl as [Hin | [Hs Hh]]; [by apply Hdoubt in Hin |]. destruct (Hsame Hnot) as [-> ->]. done.
Qed.

Lemma held_soon_same horizon r r' : running_well horizon r → doing_of r' feed = doing_of r feed →
  im_held (rn_importer r') !! id = im_held (rn_importer r) !! id → held_soon r' = held_soon r.
Proof.
  intros [_ Hw _] Hd Hh. unfold held_soon. rewrite Hd. destruct (doing_of r feed) as [|t|t] eqn:Hr; [done | done |].
  destruct (Hw feed t) as [_ [Honce _ _]]; [by rewrite Hr |]. apply NoDup_app in Honce as (Hdup & _ & _). by apply hold_batch_same.
Qed.

(** A step of a goroutine that publishes nothing and holds nothing more. *)
Lemma account_quiet horizon r other i d new : running_well horizon r → accounted r →
  im_held i = im_held (rn_importer r) → advisories_of new = [] →
  (∀ t, doing_of r other ≠ Written t) → (∀ t, d ≠ Written t) →
  (∀ t' one, attempt_of d = Some t' → one ∈ at_batch t' →
    (∃ t, attempt_of (doing_of r other) = Some t ∧ one ∈ at_batch t)
    ∨ publishable normalization (im_held (rn_importer r)) one.1.1 (told_advisory one) one.2 = true) →
  accounted (now_doing r i other d new).
Proof.
  intros Hsound Hac Hheld Hnew Hr Hd Hbatch. eapply account_step; [exact Hac | cbn; by rewrite Hheld | | done |].
  - intros t' one. unfold now_doing. rewrite doing_one. case_decide as Heq.
    + subst. apply Hbatch.
    + intros Ht' Hin. left. by exists t'.
  - intros _. split.
    + cbn. rewrite about_app. unfold about at 2. rewrite Hnew. by rewrite app_nil_r.
    + destruct (decide (feed = other)) as [Heq|Hne].
      * unfold held_soon, now_doing. rewrite doing_one, decide_True by done. cbn. rewrite Hheld. subst other.
        destruct d as [| |t]; destruct (doing_of r feed) as [| |t0] eqn:Hr0; try done;
          first [by destruct (Hr t0) | by destruct (Hd t) | by destruct (Hd t0)].
      * apply (held_soon_same horizon); [done | | cbn; by rewrite Hheld].
        unfold now_doing. rewrite doing_one, decide_False by done. done.
Qed.

(** The goroutine of the feed publishes a batch, or another does. *)
Lemma account_published horizon r other t : running_well horizon r → accounted r → doing_of r other = Reading t →
  accounted (now_doing r (rn_importer r) other (Written t) (RecordAdvisory ∘ told_advisory <$> at_batch t)).
Proof using Hone.
  intros Hsound Hac Hd. destruct (so_work _ _ Hsound other t) as [Hin Hwork]; [by rewrite Hd |].
  destruct (batch_says horizon other t Hwork) as [(Hid & Hsays & Hhold) | (-> & one & Hin1 & Heq & Hsays & Hhold)].
  - eapply account_step; [exact Hac | done | | done |].
    + intros t' one. unfold now_doing. rewrite doing_one. case_decide as Hc; intros Ht' Hin'; left; [| by exists t'].
      injection Ht' as <-. exists t. subst other. by rewrite Hd.
    + intros _. split; [cbn; rewrite about_app, Hsays; by rewrite app_nil_r |].
      destruct (decide (feed = other)) as [Hc|Hc].
      * unfold held_soon, now_doing. rewrite doing_one, decide_True by done. subst other. rewrite Hd. cbn. apply Hhold.
      * apply (held_soon_same horizon); [done | | done]. unfold now_doing. rewrite doing_one, decide_False by done. done.
  - destruct Hac as [Hb Hl]. split.
    + intros t' one'. unfold now_doing. rewrite doing_one, decide_True by done. intros [= <-]. cbn. apply Hb. by rewrite Hd.
    + destruct Hl as [Hl | [Hs Hh]]; [by left | right]. cbn. rewrite about_app, Hsays. split.
      * apply ordered_more; [done |]. intros b Hb'. unfold held_soon in Hh. rewrite Hd, Hb' in Hh. cbn in Hh.
        specialize (Hb t one ltac:(by rewrite Hd) Hin1 Heq). unfold publishable in Hb. unfold told_id in Heq. rewrite Heq, Hh in Hb.
        unfold not_older. cbn in Hb. destruct (before (modified_at (told_advisory one)) (modified_at b)) eqn:Hbef; [done |].
        unfold before in Hbef. by apply Z.ltb_ge in Hbef.
      * unfold held_soon, now_doing. rewrite doing_one, decide_True by done. cbn. rewrite Hhold. by rewrite last_snoc.
Qed.

Lemma follows_accounted horizon r r' : running_well horizon r → accounted r → follows horizon r r' → accounted r'.
Proof using Hsource Hone.
  intros Hsound Hac. pose proof Hsound as [Hf Hw Hl]. destruct 1 as [other checked index why reports i d Hin Hd Hlists Hbegin Hreports
    |other t listing now fetched i t' Hd Hfull Hasked Hnow Htake|other t Hd Hdue Hne Hun|other t written Hd Hdue Hne Hun Hsub
    |other t Hd Hdue Hun|other t i t' Hd Hhold|other t why reports i report Hd Hall Hempty Hend Hreports|log Hsub|now fresh Hnew Hclock].
  - apply (account_quiet horizon); try done; rewrite ?Hd; try done.
    + unfold begin_attempt in Hbegin. destruct (indexed_follow _ _) as [[state refused]|]; by injection Hbegin as <- <-.
    + by apply reports_say_nothing in Hreports.
    + unfold begin_attempt in Hbegin. destruct (indexed_follow _ _) as [[state refused]|]; by injection Hbegin as <- <-.
    + unfold begin_attempt in Hbegin. destruct (indexed_follow _ _) as [[state refused]|]; injection Hbegin as <- <-; [| done].
      intros t' one [= <-] Hone'. by apply elem_of_nil in Hone'.
  - destruct (Hw other t) as [Hin Hwork]; [by rewrite Hd |].
    destruct (take_answer_sound horizon other (settle normalization hashing translate other (at_version t) now listing fetched) _ t i t' Hf Hin Hwork Hasked)
      as (Hf' & Hw' & Hheld & Hbatch); [| exact Htake |].
    + intros a st. apply settle_told; [done | by apply (aw_lists _ _ _ Hwork)].
    + apply (account_quiet horizon); try done; rewrite ?Hd; try done. intros ? one [= <-] Hin'.
      destruct (Hbatch one Hin') as [|]; [left; by exists t | by right].
  - by apply (account_published horizon).
  - destruct (Hw other t) as [Hin Hwork]; [by rewrite Hd |]. destruct Hwork as [Honce Hls Htold].
    eapply account_step; [exact Hac | done | | |].
    + intros t' one. rewrite doing_one. case_decide as Hc; [intros [= <-] Hn; by apply elem_of_nil in Hn |]. intros Ht' Hin'. left. by exists t'.
    + cbn. intros Hid. apply elem_of_app. by right.
    + cbn. intros [Hnot _]%not_elem_of_app. split.
      * rewrite about_app. unfold about at 2. rewrite advisories_of_told.
        destruct (batch_about written id) as [Hout _]; [| | by rewrite Hout, app_nil_r].
        -- apply NoDup_app in Honce as (Hdup & _ & _). eapply sublist_NoDup; [exact Hdup | by apply fmap_sublist].
        -- intros one Hone'. apply Htold. eapply elem_of_submseteq; [exact Hone' | by apply sublist_submseteq].
      * destruct (decide (feed = other)) as [Hc|Hc].
        -- unfold held_soon. rewrite doing_one, decide_True by done. subst other. by rewrite Hd.
        -- apply (held_soon_same horizon); [done | | done]. rewrite doing_one, decide_False by done. done.
  - apply (account_quiet horizon); try done; rewrite ?Hd; try done. intros t' one [= <-] Hone'. by apply elem_of_nil in Hone'.
  - destruct (Hw other t) as [Hin Hwork]; [by rewrite Hd |].
    destruct (hold_batch_sound horizon other _ t i t' Hf Hin Hwork Hhold) as (_ & _ & Hnone).
    destruct (decide (feed = other)) as [<-|Hc].
    + destruct Hac as [Hb Hlog]. split.
      * intros t'' one. unfold now_doing. rewrite doing_one, decide_True by done. intros [= <-]. rewrite Hnone. by intros ?%elem_of_nil.
      * destruct Hlog as [|[Hs Hh]]; [by left | right]. cbn. rewrite app_nil_r. split; [done |]. rewrite <- Hh.
        unfold held_soon, now_doing. rewrite doing_one, decide_True by done. cbn. by rewrite Hd, Hhold.
    + assert (im_held i !! id = im_held (rn_importer r) !! id) as Hsame.
      { destruct (batch_says horizon other t Hwork) as [(_ & _ & Hh) | (-> & _)]; [| done].
        specialize (Hh (rn_importer r)). by rewrite Hhold in Hh. }
      eapply account_step; [exact Hac | done | | done |].
      * intros t'' one. unfold now_doing. rewrite doing_one, decide_False by done. intros Ht'' Hin'. left. by exists t''.
      * intros _. cbn. rewrite app_nil_r. split; [done |]. apply (held_soon_same horizon); [done | | done].
        unfold now_doing. rewrite doing_one, decide_False by done. done.
  - apply (account_quiet horizon); try done; rewrite ?Hd; try done.
    + by injection Hend as <- _.
    + by destruct Hreports as [-> | ->].
  - destruct Hsub as [Hsub Hlast]. destruct Hac as [Hb Hlog]. split; [done |]. cbn.
    destruct Hlog as [|[Hs Hh]]; [by left | right]. rewrite Hlast. split; [| done].
    eapply ordered_part; [| exact Hs]. by apply about_part.
  - destruct (start_anew horizon r now fresh Hsound Hnew Hclock) as [_ Hheld]. destruct Hac as [Hb Hlog]. split.
    + unfold doing_of. cbn. rewrite lookup_empty. intros t one [=].
    + destruct Hlog as [|[Hs Hh]]; [by left | right]. split; [done |]. unfold held_soon, doing_of. cbn. rewrite lookup_empty. cbn.
      rewrite Hheld. by apply ordered_kept.
Qed.

Lemma sound_later horizon horizon' r : horizon ≤ horizon' → running_well horizon r → running_well horizon' r.
Proof.
  intros Hle [Hf Hw Hl]. assert (∀ a, read_back horizon a → read_back horizon' a) as Hback.
  { intros a (? & ? & ?). split_and!; [done | done | lia]. }
  split; [done | |].
  - intros other t Ht. destruct (Hw other t Ht) as [Hin [H1 H2 H3]]. split; [done |]. split; [done | done |].
    intros one Hin1. destruct (H3 one Hin1) as (? & ? & ? & ? & ?). split_and!; auto.
  - intros a Ha. destruct (Hl a Ha) as (? & ? & ?). auto.
Qed.

Lemma went_accounted horizon r : went horizon r → running_well horizon r ∧ accounted r.
Proof using Hsource Hone.
  induction 1 as [horizon fresh Hnew | horizon horizon' r r' _ [Hsound Hac] Hle Hstep].
  - destruct (NewImporter_following fresh Hnew) as [Hf Hempty]. split.
    + split; cbn; [done | intros other t; unfold doing_of; cbn; by rewrite lookup_empty | by intros a ?%elem_of_nil].
    + split; [intros t one; unfold doing_of; cbn; by rewrite lookup_empty | right].
      split; [constructor |]. unfold held_soon, doing_of. cbn. rewrite lookup_empty. cbn. by rewrite Hempty, lookup_empty.
  - apply (sound_later _ horizon') in Hsound; [| done]. split; [by eapply follows_sound | by eapply follows_accounted].
Qed.
End one.
End running.

(** C37. A restart loses nothing, and finds nothing else: whatever feeds are followed at
    once, whatever they answer and in whatever order their goroutines settle, publish and
    hold, however often the importer crashed and read back the log, compacted or not, one
    started anew from the log holds of an advisory that a single feed lists exactly what the
    one running holds of it, or will once it holds the batch the backbone took; as long as
    no clock is further behind than records are tolerated to be ahead, and the backbone
    wrote of the advisory nothing it said it did not take. *)
Theorem a_restarted_importer_holds_what_it_held `{AdvisoryContract}
    source normalization batch hashing translate feeds lists horizon r now fresh feed id :
  (∀ body a, translate body = Some a → av_source a = source) →
  (∀ other, lists other id → other = feed) →
  went_through source normalization batch hashing translate feeds lists horizon r →
  NewImporter feeds = Some fresh → horizon ≤ time_add now AdvisoryClockSkew → id ∉ rn_doubtful r →
  im_held (Recall source hashing now fresh (rn_log r)) !! id
  = match doing_of r feed with
    | Written t => im_held (hold_batch feed (rn_importer r) t).1 !! id
    | _ => im_held (rn_importer r) !! id
    end.
Proof.
  intros Hsource Hone Hwent Hnew Hclock Hcertain.
  destruct (went_accounted _ _ _ _ _ _ _ Hsource feed id Hone horizon r Hwent) as [Hsound [_ [|[Hs Hh]]]]; [done |].
  destruct (start_anew _ _ _ _ horizon r now fresh Hsound Hnew Hclock) as [_ ->].
  rewrite (ordered_kept hashing) by done. by rewrite <- Hh.
Qed.
