(* ===== verification/Assessment.v ===== *)
(** * Assessments: the checklist a host is assessed by, and what it answers

    assessment/checklist.go and validate.go. A problem is where it lies and why; its
    prose is a constructor. What generated code declares of enumerations and the
    bytes an assessment encodes to are parameters. [path.Clean] and the
    folding of case are written out as far as they are used. *)

From Stdlib Require Import ZArith Lia Ascii.
From stdpp Require Import base tactics option gmap strings pretty numbers list.
From S2P Require Import Prelude Text Scan Hex Rule Contract Bytes Agent Event Canonical.

(** ** Paths *)

(** [path.Clean]: elements are read left to right, nothing and a dot are dropped,
    two dots drop the element before them, and none of them is left above a root. *)
Definition clean_step (rooted : bool) (kept : list string) (element : string) : list string :=
  if bool_decide (element = "") || bool_decide (element = ".") then kept
  else if bool_decide (element = "..") then
    match kept with
    | [] => if rooted then [] else [".."]
    | last :: rest => if bool_decide (last = "..") then ".." :: kept else rest
    end
  else element :: kept.

Definition path_Clean (written : string) : string :=
  let rooted := HasPrefix written "/" in
  let kept := join_at (rev (foldl (clean_step rooted) [] (Split written "/"))) "/" in
  if rooted then "/" +:+ kept else if bool_decide (kept = "") then "." else kept.

(** ** Text *)

(** [unicode.IsControl]: U+0000 to U+001F and U+007F to U+009F. *)
Definition Readable (value : string) (maximum : Z) : bool :=
  (slen value <=? maximum) && valid_runes (λ c, between 0 31 c || between 127 127 c) (between 128 159) value.

Definition printable : ascii → bool := between 32 126.

Definition Normalized (value : string) (maximum : Z) : bool :=
  if bool_decide (value = "") || (maximum <? slen value) || negb (bool_decide (TrimSpace value = value))
     || StringContains value "  " then false
  else made_of printable value.

(** [strings.EqualFold] with a word of ASCII: letters without case, and the two runes
    beyond ASCII that fold into one, U+017F into s and U+212A into k. *)
Fixpoint equal_fold (held value : string) : bool :=
  match value with
  | EmptyString => bool_decide (held = "")
  | String v value =>
      match held with
      | EmptyString => false
      | String a rest =>
          if bool_decide (lower_char a = lower_char v) then equal_fold rest value
          else match rest with
          | String b rest =>
              if bool_decide (lower_char v = "s"%char) && (byte a =? 197)%N && (byte b =? 191)%N then equal_fold rest value
              else match rest with
              | String c rest =>
                  bool_decide (lower_char v = "k"%char) && (byte a =? 226)%N && (byte b =? 132)%N && (byte c =? 170)%N
                  && equal_fold rest value
              | EmptyString => false
              end
          | EmptyString => false
          end
      end
  end.

Definition containsFold (held : list string) (value : string) : bool := existsb (λ each, equal_fold each value) held.

(** ** Integers *)

(** The value of a digit of a base, letters in either case after the digits. *)
Definition base_digit (base : Z) (c : ascii) : option Z :=
  let value :=
    if digit c then Some (digit_value c)
    else if between 97 122 c then Some (Z.of_N (byte c) - 87)
    else if between 65 90 c then Some (Z.of_N (byte c) - 55) else None in
  match value with Some v => if v <? base then Some v else None | None => None end.

Fixpoint base_from (base acc : Z) (s : string) : option Z :=
  match s with
  | EmptyString => Some acc
  | String c s => match base_digit base c with Some v => base_from base (acc * base + v) s | None => None end
  end.

(** [strconv.ParseInt(s, base, 64)], the sign told apart. *)
Definition signed_in (base : Z) (negative : bool) (digits : string) : option Z :=
  if bool_decide (digits = "") then None
  else match base_from base 0 digits with
       | None => None
       | Some n => if negative then if n <=? 2 ^ 63 then Some (- n) else None else if n <? 2 ^ 63 then Some n else None
       end.

Definition sign_of (s : string) : option bool * string :=
  match s with
  | String "-" digits => (Some true, digits)
  | String "+" digits => (Some false, digits)
  | _ => (None, s)
  end.

Definition ParseIntBase (base : Z) (s : string) : option Z :=
  let '(sign, digits) := sign_of s in signed_in base (default false sign) digits.

(** ** Bounds (limits.go) *)

Definition MaxChecks : Z := 512.
Definition MaxResults : Z := MaxChecks.
Definition MaxAssessmentBytes : Z := 983040.
Definition MaxTitleLength : Z := 256.
Definition MaxEvidenceLength : Z := 512.
Definition MinAssessmentIDLength : Z := 8.
Definition MaxAssessmentIDLength : Z := 64.
Definition MaxCheckedPath : Z := 4096.
Definition MaxGroupLength : Z := 64.
Definition MaxParameterLength : Z := 255.
Definition MaxModuleLength : Z := 55.
Definition MaxPackageLength : Z := 255.
Definition MaxUnitLength : Z := 255.
Definition MaxDirectiveLength : Z := 64.
Definition MaxCheckValues : Z := 16.
Definition MaxParameterValueLength : Z := 128.
Definition MaxDirectiveValueLength : Z := 256.
Definition MaxPermissions : Z := 4095.
Definition Unexamined : list string := ["/proc"; "/sys"; "/dev"; "/run"; "/tmp"; "/var/tmp"].

(** ** The checklist *)

Record FileTest := mkFileTest {
  ft_path : string; ft_presence : Z; ft_kind : Z; ft_user : option Z; ft_group : option Z; ft_permissions : option Z;
}.
Record AccountTest := mkAccountTest { at_rule : Z; at_group : string }.
Record ParameterTest := mkParameterTest {
  kp_name : string; kp_presence : Z; kp_allowed : list string; kp_least : option Z; kp_most : option Z;
}.
Record ModuleTest := mkModuleTest { km_name : string; km_loaded : Z; km_disabled : bool }.
Record PackageTest := mkPackageTest { pt_name : string; pt_presence : Z }.
Record ServiceTest := mkServiceTest { sv_unit : string; sv_startup : Z; sv_activity : Z }.
Record DirectiveTest := mkDirectiveTest {
  dt_source : Z; dt_name : string; dt_allowed : list string; dt_least : option Z; dt_most : option Z; dt_assumed : string;
}.
Inductive CheckTest :=
| CheckFile (t : FileTest) | CheckAccount (t : AccountTest) | CheckParameter (t : ParameterTest) | CheckModule (t : ModuleTest)
| CheckPackage (t : PackageTest) | CheckService (t : ServiceTest) | CheckDirective (t : DirectiveTest).
Record Check_ := mkCheck { ck_id : string; ck_title : string; ck_test : option CheckTest }.

Class AssessmentContract := {
  Presence_named : Z → bool; PRESENCE_FORBIDDEN : Z;
  File_Kind_named : Z → bool;
  Rule_named : Z → bool; RULE_GROUP_HAS_NO_MEMBERS : Z;
  Startup_named : Z → bool; Activity_named_service : Z → bool;
  Source_named : Z → bool; SOURCE_LOGIN_DEFS : Z;
  Assessed_Outcome_named : Z → bool;
}.

Inductive CheckReason :=
| NamesNoCheck | NamesTooManyChecks | NotACheckID | CheckedTwice (first : nat) | TitleUnreadable | NoTest
| PathEmpty | PathTooLong | PathUnclean | PathIsRoot | PathWithin (held : string)
| NotDeclaredThere | PermissionsBeyond | JudgesTheForbidden | JudgesNothing
| RuleUnspecified | GroupUnasked | GroupMalformed | NameMalformed | AllowedAndBounds | PresenceUnspecified
| UnitMalformed | UnitTemplate | SourceUnspecified | TooManyValues | ValueMalformed | ValueTwice | BoundsCrossed
| AssumedMalformed | AssumedNotInteger.

Record CheckProblem := mkCheckProblem { cp_where : string; cp_what : CheckReason }.

(** One problem, where a condition holds. *)
Definition noted (b : bool) (where_ : string) (what : CheckReason) : list CheckProblem :=
  if b then [mkCheckProblem where_ what] else [].

Definition prefixed (test : string) (problems : list CheckProblem) : list CheckProblem :=
  (λ p, mkCheckProblem (test +:+ "." +:+ cp_where p) (cp_what p)) <$> problems.

(** *** Patterns *)

Definition word_char (c : ascii) : bool := alnum c || among ["_"; "-"]%char c.
Definition slashed_word : pattern := Then (some (One word_char)) (Many (Then (chr "/") (some (One word_char)))).
(** Words apart by a slash, and such apart by a dot. *)
Definition parameterPattern : pattern := Then slashed_word (Many (Then (chr ".") slashed_word)).
(** [^[A-Za-z0-9_-]+$] *)
Definition modulePattern : pattern := some (One word_char).
(** [^[A-Za-z0-9+._-]+$] *)
Definition packagePattern : pattern := some (One (λ c, alnum c || among ["+"; "."; "_"; "-"]%char c)).
Fixpoint literally (s : string) : pattern :=
  match s with EmptyString => Nothing | String c s => Then (chr c) (literally s) end.
Definition unit_kinds : list string :=
  ["service"; "socket"; "timer"; "path"; "mount"; "automount"; "swap"; "target"; "slice"; "scope"; "device"].
(** [^[A-Za-z0-9:_.\\@-]+\.(service|socket|...)$] *)
Definition unitPattern : pattern :=
  Then (some (One (λ c, alnum c || among [":"; "_"; "."; "\"; "@"; "-"]%char c)))
    (Then (chr ".") (foldr (λ kind p, Or (literally kind) p) Never unit_kinds)).
(** [^[A-Za-z0-9_]+$] *)
Definition directivePattern : pattern := some (One (λ c, alnum c || among ["_"]%char c)).

(** [unit[:strings.LastIndexByte(unit, '.')]], of a unit that has a dot. *)
Definition before_last_dot (unit_ : string) : string :=
  join_at (removelast (Split unit_ ".")) ".".

Section checklist.
Context `{AssessmentContract}.

Definition enumerated (field : string) (value : Z) (named : Z → bool) : list CheckProblem :=
  noted (negb (named value)) field NotDeclaredThere.

Definition value_problem (field : string) (held : list string) (maximum : Z) (index : nat) (value : string) : list CheckProblem :=
  let where_ := field +:+ "[" +:+ pretty index +:+ "]" in
  if negb (Normalized value maximum) then [mkCheckProblem where_ ValueMalformed]
  else noted (containsFold (take index held) value) where_ ValueTwice.

Definition check_values (field : string) (held : list string) (maximum : Z) : list CheckProblem :=
  noted (MaxCheckValues <? len held) field TooManyValues
  ++ mjoin (imap (value_problem field held maximum) held).

Definition check_bounds (least most : option Z) : list CheckProblem :=
  match least, most with
  | Some least, Some most => noted (most <? least) "at_least" BoundsCrossed
  | _, _ => []
  end.

(** How the program a directive belongs to reads a number. *)
Definition Integer (source : Z) (value : string) : option Z :=
  if negb (source =? SOURCE_LOGIN_DEFS) then ParseIntBase 10 value
  else
    let '(sign, digits) := sign_of value in
    let '(base, digits) :=
      if (2 <? slen digits) && (HasPrefix digits "0x" || HasPrefix digits "0X") then (16, string_drop 2 digits)
      else if (1 <? slen digits) && HasPrefix digits "0" then (8, string_drop 1 digits)
      else (10, digits) in
    if bool_decide (digits = "") || negb (made_of (λ c, negb (among ["_"; "+"; "-"]%char c)) digits) then None
    else signed_in base (default false sign) digits.

Definition validateFile (test : FileTest) : list CheckProblem :=
  let written := ft_path test in
  (if bool_decide (written = "") then [mkCheckProblem "path" PathEmpty]
   else if MaxCheckedPath <? slen written then [mkCheckProblem "path" PathTooLong]
   else if negb (HasPrefix written "/") || negb (bool_decide (path_Clean written = written)) || StringContains written (String "000" "")
        then [mkCheckProblem "path" PathUnclean]
   else if bool_decide (written = "/") then [mkCheckProblem "path" PathIsRoot]
   else Unexamined ≫= λ held,
          noted (bool_decide (written = held) || HasPrefix written (held +:+ "/")) "path" (PathWithin held))
  ++ enumerated "presence" (ft_presence test) Presence_named
  ++ enumerated "kind" (ft_kind test) File_Kind_named
  ++ noted (match ft_permissions test with Some p => MaxPermissions <? p | None => false end) "permissions" PermissionsBeyond
  ++ (let judged := negb (ft_kind test =? 0) || bool_decide (is_Some (ft_user test)) || bool_decide (is_Some (ft_group test))
                    || bool_decide (is_Some (ft_permissions test)) in
      if ft_presence test =? PRESENCE_FORBIDDEN then noted judged "" JudgesTheForbidden
      else if ft_presence test =? 0 then noted (negb judged) "" JudgesNothing
      else []).

Definition group_char (c : ascii) : bool := printable c && negb (among [" "; ":"]%char c).

Definition validateAccount (test : AccountTest) : list CheckProblem :=
  enumerated "rule" (at_rule test) Rule_named
  ++ noted (at_rule test =? 0) "rule" RuleUnspecified
  ++ (if negb (at_rule test =? RULE_GROUP_HAS_NO_MEMBERS)
      then noted (negb (bool_decide (at_group test = ""))) "group" GroupUnasked
      else noted (bool_decide (at_group test = "") || (MaxGroupLength <? slen (at_group test))
                  || negb (made_of group_char (at_group test))) "group" GroupMalformed).

Definition bounded_by (least most : option Z) : bool := bool_decide (is_Some least) || bool_decide (is_Some most).

Definition validateParameter (test : ParameterTest) : list CheckProblem :=
  noted ((MaxParameterLength <? slen (kp_name test)) || negb (MatchString parameterPattern (kp_name test))) "name" NameMalformed
  ++ enumerated "presence" (kp_presence test) Presence_named
  ++ check_values "allowed" (kp_allowed test) MaxParameterValueLength
  ++ check_bounds (kp_least test) (kp_most test)
  ++ (let carried := (0 <? len (kp_allowed test)) || bounded_by (kp_least test) (kp_most test) in
      if kp_presence test =? PRESENCE_FORBIDDEN then noted carried "" JudgesTheForbidden
      else if (0 <? len (kp_allowed test)) && bounded_by (kp_least test) (kp_most test) then [mkCheckProblem "" AllowedAndBounds]
      else noted (negb carried && (kp_presence test =? 0)) "" JudgesNothing).

Definition validateModule (test : ModuleTest) : list CheckProblem :=
  noted ((MaxModuleLength <? slen (km_name test)) || negb (MatchString modulePattern (km_name test))) "name" NameMalformed
  ++ enumerated "loaded" (km_loaded test) Presence_named
  ++ noted ((km_loaded test =? 0) && negb (km_disabled test)) "" JudgesNothing.

Definition validatePackageTest (test : PackageTest) : list CheckProblem :=
  noted ((MaxPackageLength <? slen (pt_name test)) || negb (MatchString packagePattern (pt_name test))) "name" NameMalformed
  ++ enumerated "presence" (pt_presence test) Presence_named
  ++ noted (pt_presence test =? 0) "presence" PresenceUnspecified.

Definition validateServiceTest (test : ServiceTest) : list CheckProblem :=
  (if (MaxUnitLength <? slen (sv_unit test)) || negb (MatchString unitPattern (sv_unit test))
   then [mkCheckProblem "unit" UnitMalformed]
   else noted (HasSuffix (before_last_dot (sv_unit test)) "@") "unit" UnitTemplate)
  ++ enumerated "startup" (sv_startup test) Startup_named
  ++ enumerated "activity" (sv_activity test) Activity_named_service
  ++ noted ((sv_startup test =? 0) && (sv_activity test =? 0)) "" JudgesNothing.

Definition validateDirective (test : DirectiveTest) : list CheckProblem :=
  let bounded := bounded_by (dt_least test) (dt_most test) in
  enumerated "source" (dt_source test) Source_named
  ++ noted (dt_source test =? 0) "source" SourceUnspecified
  ++ noted ((MaxDirectiveLength <? slen (dt_name test)) || negb (MatchString directivePattern (dt_name test))) "name" NameMalformed
  ++ check_values "allowed" (dt_allowed test) MaxDirectiveValueLength
  ++ check_bounds (dt_least test) (dt_most test)
  ++ (if (0 <? len (dt_allowed test)) && bounded then [mkCheckProblem "" AllowedAndBounds]
      else noted ((len (dt_allowed test) =? 0) && negb bounded) "" JudgesNothing)
  ++ (if bool_decide (dt_assumed test = "") then []
      else if negb (Normalized (dt_assumed test) MaxDirectiveValueLength) then [mkCheckProblem "assumed" AssumedMalformed]
      else noted (bounded && negb (bool_decide (is_Some (Integer (dt_source test) (dt_assumed test))))) "assumed" AssumedNotInteger).

Definition validateTest (test : option CheckTest) : list CheckProblem :=
  match test with
  | Some (CheckFile t) => prefixed "file" (validateFile t)
  | Some (CheckAccount t) => prefixed "account" (validateAccount t)
  | Some (CheckParameter t) => prefixed "kernel_parameter" (validateParameter t)
  | Some (CheckModule t) => prefixed "kernel_module" (validateModule t)
  | Some (CheckPackage t) => prefixed "package" (validatePackageTest t)
  | Some (CheckService t) => prefixed "service" (validateServiceTest t)
  | Some (CheckDirective t) => prefixed "directive" (validateDirective t)
  | None => [mkCheckProblem "test" NoTest]
  end.

(** Each check in order, [seen] the checks already named and where. *)
Fixpoint validate_checks (index : nat) (seen : gmap string nat) (checks : list Check_) : list CheckProblem :=
  match checks with
  | [] => []
  | check :: checks =>
      let name := "checks[" +:+ pretty index +:+ "]" in
      let id := ck_id check in
      let '(of_id, seen) :=
        if negb (AgentIDValid id) then ([mkCheckProblem (name +:+ ".check_id") NotACheckID], seen)
        else match seen !! id with
             | Some first => ([mkCheckProblem (name +:+ ".check_id") (CheckedTwice first)], seen)
             | None => ([], <[id := index]> seen)
             end in
      of_id ++ noted (negb (Readable (ck_title check) MaxTitleLength)) (name +:+ ".title") TitleUnreadable
      ++ prefixed name (validateTest (ck_test check)) ++ validate_checks (S index) seen checks
  end.

Definition ValidateChecklist (checks : list Check_) : list CheckProblem :=
  noted (len checks =? 0) "checks" NamesNoCheck ++ noted (MaxChecks <? len checks) "checks" NamesTooManyChecks
  ++ validate_checks 0 ∅ checks.
End checklist.

(** ** An assessment (validate.go) *)

Record AssessedResult := mkAssessedResult { rs_check : string; rs_outcome : Z; rs_evidence : string }.
Record Assessment := mkAssessment {
  as_id : string; as_schema : Z; as_policy : string; as_revision : Z; as_at : option WireTime;
  as_origin : option OriginPart; as_collection : option CollectionPart; as_results : list AssessedResult;
}.

Inductive AssessmentReason := AssessedAs (reason : EventReason) | BeyondRevisions | TooManyResults | AnsweredTwice | NotEvidence.
Record AssessmentViolation := mkAssessmentViolation { asv_field : string; asv_reason : AssessmentReason }.
Abbreviation assessment_checked := (result AssessmentViolation unit).
Definition misassessed (field : string) (reason : AssessmentReason) : assessment_checked := Err (mkAssessmentViolation field reason).
Definition assessed_lift (r : event_checked) : assessment_checked :=
  match r with Ok u => Ok u | Err v => misassessed (ev_field v) (AssessedAs (ev_reason v)) end.

Section validate.
Context `{EventContract, AssessmentContract} (assessment_Size : Assessment → Z).

Fixpoint validate_results (index : nat) (seen : gset string) (results : list AssessedResult) : assessment_checked :=
  match results with
  | [] => Ok tt
  | r :: results =>
      let field := "results[" +:+ pretty index +:+ "]" in
      if negb (AgentIDValid (rs_check r)) then misassessed (field +:+ ".check_id") (AssessedAs IsMalformed)
      else if bool_decide (rs_check r ∈ seen) then misassessed (field +:+ ".check_id") AnsweredTwice
      else if negb (Assessed_Outcome_named (rs_outcome r)) || (rs_outcome r =? 0)
           then misassessed (field +:+ ".outcome") (AssessedAs NotDeclared)
      else if (MaxEvidenceLength <? slen (rs_evidence r)) || negb (ValidString (rs_evidence r))
              || StringContains (rs_evidence r) (String "000" "")
           then misassessed (field +:+ ".evidence") NotEvidence
      else validate_results (S index) ({[rs_check r]} ∪ seen) results
  end.

Definition validateResults (results : list AssessedResult) : assessment_checked :=
  if MaxResults <? len results then misassessed "results" TooManyResults else validate_results 0 ∅ results.

Definition assessment_ValidateContract (assessed : option Assessment) : assessment_checked :=
  match assessed with
  | None => misassessed "assessment" (AssessedAs IsMissing)
  | Some a =>
      ((if slen (as_id a) <? MinAssessmentIDLength then misassessed "assessment_id" (AssessedAs IsShorter)
        else if (MaxAssessmentIDLength <? slen (as_id a)) || negb (ValidIdentifier (as_id a))
             then misassessed "assessment_id" (AssessedAs IsMalformed) else Ok tt) ;;
       (if (as_schema a <? MinSchemaVersion) || (MaxSchemaVersion <? as_schema a)
        then misassessed "schema_version" (AssessedAs OutsideVersions) else Ok tt) ;;
       (if negb (AgentIDValid (as_policy a)) then misassessed "policy_id" (AssessedAs IsMalformed) else Ok tt) ;;
       (if (as_revision a =? 0) || (2 ^ 63 - 1 <? as_revision a) then misassessed "policy_revision" BeyondRevisions else Ok tt) ;;
       assessed_lift (event_instant "assessed_at" (as_at a)) ;;
       assessed_lift (ValidateOrigin (as_origin a)) ;;
       assessed_lift (ValidateCollection (as_collection a)) ;;
       validateResults (as_results a))%go
  end.

Definition assessment_Validate (a : Assessment) (now : instant) (p : EventPolicy) : assessment_checked :=
  (assessment_ValidateContract (Some a) ;;
   (if MaxAssessmentBytes <? assessment_Size a then misassessed "assessment" (AssessedAs EncodesTooLong) else Ok tt) ;;
   assessed_lift (withinWindow "assessed_at" (times_at (as_at a)) now p))%go.
End validate.

(** * A check that is accepted can be met *)

(** ** Decimals are read as they are written *)

Lemma pretty_char_value x : (x < 10)%N → digit_value (pretty_N_char x) = Z.of_N x.
Proof.
  intros Hx. assert (x = 0 ∨ x = 1 ∨ x = 2 ∨ x = 3 ∨ x = 4 ∨ x = 5 ∨ x = 6 ∨ x = 7 ∨ x = 8 ∨ x = 9)%N as Hcase by lia.
  by repeat destruct Hcase as [-> | Hcase]; [..| subst].
Qed.

Lemma decimal_pretty_go x s : decimal_from 0 (pretty_N_go x s) = decimal_from (Z.of_N x) s.
Proof.
  revert s. induction (N.lt_wf_0 x) as [x _ IH]; intros s. destruct (decide (0 < x)%N) as [Hx|Hx].
  - rewrite pretty_N_go_step by done. rewrite IH by (by apply N.div_lt). cbn [decimal_from].
    rewrite pretty_N_char_digit, pretty_char_value by (by apply N.mod_lt). f_equal.
    pose proof (N.div_mod x 10 ltac:(done)). lia.
  - assert (x = 0%N) as -> by lia. by rewrite pretty_N_go_0.
Qed.

Lemma decimal_pretty (n : N) : decimal_from 0 (pretty n) = Some (Z.of_N n).
Proof. unfold pretty, pretty_N. case_decide; [by subst |]. apply decimal_pretty_go. Qed.

(** What is written of a positive number does not start with a zero. *)
Lemma pretty_go_head x s : (0 < x)%N →
  ∃ c r, pretty_N_go x s = String c r ∧ c ≠ "0"%char ∧ digit c = true ∧ 1 ≤ digit_value c.
Proof.
  revert s. induction (N.lt_wf_0 x) as [x _ IH]; intros s Hx. rewrite pretty_N_go_step by done.
  destruct (decide (x < 10)%N) as [Hsmall|Hbig].
  - rewrite N.div_small, pretty_N_go_0, N.mod_small by done. eexists _, _. split; [done |].
    pose proof (pretty_char_value x Hsmall) as Hv. split_and!; [| apply pretty_N_char_digit | lia].
    intros Heq. rewrite Heq in Hv. change (digit_value "0") with 0 in Hv. lia.
  - apply IH; [by apply N.div_lt |]. apply N.div_str_pos. lia.
Qed.

Lemma pretty_head (n : N) : (0 < n)%N →
  ∃ c r, pretty n = String c r ∧ c ≠ "0"%char ∧ digit c = true ∧ 1 ≤ digit_value c.
Proof. intros Hn. unfold pretty, pretty_N. rewrite decide_False by (intros ->; discriminate Hn). by apply pretty_go_head. Qed.

Lemma pretty_short (n : N) : Z.of_N n ≤ 2 ^ 63 → (String.length (pretty n) ≤ 19)%nat.
Proof.
  intros Hn. destruct (decide (n = 0%N)) as [-> | Hne]; [by apply Nat.leb_le |].
  destruct (pretty_head n ltac:(lia)) as (c & r & Hp & _ & Hd & Hv). pose proof (decimal_pretty n) as Hval.
  rewrite Hp in Hval |- *. cbn [decimal_from] in Hval. rewrite Hd in Hval. apply decimal_from_range in Hval.
  unfold slen in Hval. cbn [String.length]. destruct (Nat.le_gt_cases (String.length r) 18) as [|Hlong]; [lia | exfalso].
  pose proof (Z.pow_le_mono_r 10 19 (Z.of_nat (String.length r)) ltac:(lia) ltac:(lia)).
  change (10 ^ 19) with 10000000000000000000 in *. change (2 ^ 63) with 9223372036854775808 in *. nia.
Qed.

Lemma base_ten_digit c : base_digit 10 c = if digit c then Some (digit_value c) else None.
Proof. by destruct c as [[] [] [] [] [] [] [] []]. Qed.

Lemma base_ten s : ∀ acc, base_from 10 acc s = decimal_from acc s.
Proof. induction s as [|c s IH]; intros acc; [done |]. cbn. rewrite base_ten_digit. destruct (digit c); [apply IH | done]. Qed.

Lemma signed_pretty negative (n : N) :
  Z.of_N n < 2 ^ 63 ∨ negative = true ∧ Z.of_N n = 2 ^ 63 →
  signed_in 10 negative (pretty n) = Some (if negative then - Z.of_N n else Z.of_N n).
Proof.
  intros Hn. unfold signed_in. rewrite base_ten, decimal_pretty.
  rewrite bool_decide_eq_false_2 by (intros Heq; pose proof (decimal_pretty n) as Hd; rewrite Heq in Hd; injection Hd as Hd;
    assert (n = 0%N) as -> by lia; discriminate Heq).
  destruct negative; [rewrite (proj2 (Z.leb_le _ _)) by lia; done |]. rewrite (proj2 (Z.ltb_lt _ _)) by (destruct Hn as [? | [? _]]; done).
  done.
Qed.

Lemma sign_of_digits s : made_of digit s = true → sign_of s = (None, s).
Proof. destruct s as [|[[] [] [] [] [] [] [] []] s]; try done; by intros H%andb_true_iff%proj1. Qed.

(** A 64-bit number is what its magnitude and sign write. *)
Lemma pretty_parts (n : Z) : - 2 ^ 63 ≤ n < 2 ^ 63 →
  ∃ (m : N) sign, pretty n = (if default false sign then String "-" (pretty m) else pretty m)
    ∧ sign_of (pretty n) = (sign, pretty m) ∧ signed_in 10 (default false sign) (pretty m) = Some n ∧ Z.of_N m ≤ 2 ^ 63.
Proof.
  intros Hn. destruct n as [|p|p].
  - exists 0%N, None. split_and!; [done | done | by vm_compute | lia].
  - exists (N.pos p), None. split_and!; [done | | | lia].
    + apply sign_of_digits, pretty_N_digits.
    + rewrite signed_pretty by (left; lia). done.
  - exists (N.pos p), (Some true). split_and!; [done | done | | lia].
    rewrite signed_pretty; [done |]. destruct (Z.eq_dec (Z.pos p) (2 ^ 63)) as [He|Hne]; [by right | left; lia].
Qed.

Lemma ParseIntBase_pretty (n : Z) : - 2 ^ 63 ≤ n < 2 ^ 63 → ParseIntBase 10 (pretty n) = Some n.
Proof.
  intros Hn. destruct (pretty_parts n Hn) as (m & sign & _ & Hsign & Hval & _). unfold ParseIntBase. by rewrite Hsign.
Qed.

(** ** Numbers are values a check compares against *)

Definition plain_char (c : ascii) : bool := digit c || bool_decide (c = "-"%char).

Lemma plain_not_space c : plain_char c = true → space_1 c = false ∧ (byte c < 128)%N.
Proof. destruct c as [[] [] [] [] [] [] [] []]; vm_compute; intros H; try discriminate H; done. Qed.

Lemma trim_left_plain s : made_of plain_char s = true → trim_left s = s.
Proof.
  destruct s as [|a [|b [|c s]]]; [done | | |]; intros [Ha Hs]%andb_true_iff;
    pose proof (plain_not_space a Ha) as [Hsp Hb]; cbn [trim_left]; rewrite Hsp; [done | |];
    (assert (space_2 a b = false) as -> by (unfold space_2; rewrite (proj2 (N.eqb_neq _ _)) by lia; done)); [done |].
  assert (space_3 a b c = false) as ->; [| done].
  unfold space_3. rewrite !(proj2 (N.eqb_neq (byte a) _)) by lia. done.
Qed.

Lemma trim_turned_plain s : made_of plain_char s = true → trim_turned s = s.
Proof.
  destruct s as [|c [|b [|a s]]]; [done | | |]; intros [Hc Hs]%andb_true_iff;
    pose proof (plain_not_space c Hc) as [Hsp Hb]; cbn [trim_turned]; rewrite Hsp; [done | |];
    (assert (space_2 b c = false) as -> by
      (unfold space_2; rewrite !(proj2 (N.eqb_neq (byte c) _)) by lia; apply andb_false_r)); [done |].
  assert (space_3 a b c = false) as ->; [| done]. unfold space_3, between.
  rewrite !(proj2 (N.eqb_neq (byte c) _)) by lia. rewrite (proj2 (N.leb_gt 128 (byte c))) by lia. cbn.
  by rewrite !andb_false_r.
Qed.

Lemma made_of_turned p s : made_of p (turned s) = made_of p s.
Proof.
  induction s as [|c s IH]; [done |]. cbn [turned]. rewrite made_of_app, IH. cbn. rewrite andb_true_r. apply andb_comm.
Qed.

Lemma TrimSpace_plain s : made_of plain_char s = true → TrimSpace s = s.
Proof.
  intros Hs. unfold TrimSpace. rewrite trim_left_plain by done. rewrite trim_turned_plain by (by rewrite made_of_turned).
  apply turned_twice.
Qed.

Lemma no_spaces_plain s : made_of plain_char s = true → StringContains s "  " = false.
Proof.
  induction s as [|c s IH]; [done |]. intros [Hc Hs]%andb_true_iff. cbn [StringContains HasPrefix].
  rewrite (bool_decide_eq_false_2 (" "%char = c)) by (intros <-; discriminate Hc). by apply IH.
Qed.

Lemma pretty_plain (n : Z) : made_of plain_char (pretty n) = true.
Proof.
  assert (∀ m : N, made_of plain_char (pretty m) = true) as Hm.
  { intros m. eapply made_of_mono; [| apply pretty_N_digits]. intros c Hc. unfold plain_char. by rewrite Hc. }
  destruct n as [|p|p]; [done | apply Hm |]. change (pretty (Z.neg p)) with (String "-" (pretty (N.pos p))).
  cbn [made_of]. by rewrite Hm.
Qed.

Lemma Normalized_pretty (n : Z) maximum : - 2 ^ 63 ≤ n < 2 ^ 63 → 20 ≤ maximum → Normalized (pretty n) maximum = true.
Proof.
  intros Hn Hmax. pose proof (pretty_plain n) as Hplain. destruct (pretty_parts n Hn) as (m & sign & Hp & Hsign & Hval & Hm).
  unfold Normalized. rewrite TrimSpace_plain, no_spaces_plain by done.
  rewrite bool_decide_eq_false_2.
  2:{ intros Heq. rewrite Heq in Hsign. injection Hsign as <- Hm'. rewrite <- Hm' in Hval. discriminate Hval. }
  rewrite (bool_decide_eq_true_2 (pretty n = pretty n)) by done.
  rewrite (proj2 (Z.ltb_ge _ _)).
  - cbn. eapply made_of_mono; [| exact Hplain]. intros c Hc. by destruct c as [[] [] [] [] [] [] [] []].
  - pose proof (pretty_short m Hm). rewrite Hp. unfold slen. destruct (default false sign); cbn [String.length]; lia.
Qed.

(** ** Reading a number back *)

Section meets.
Context `{AssessmentContract}.

Lemma Integer_pretty source (n : Z) : - 2 ^ 63 ≤ n < 2 ^ 63 → Integer source (pretty n) = Some n.
Proof.
  intros Hn. destruct (pretty_parts n Hn) as (m & sign & _ & Hsign & Hval & _). unfold Integer, ParseIntBase. rewrite Hsign.
  destruct (negb _); [done |].
  assert ((1 <? slen (pretty m)) && HasPrefix (pretty m) "0" = false) as Hzero.
  { destruct (decide (m = 0%N)) as [-> | Hne]; [done |]. destruct (pretty_head m ltac:(lia)) as (c & r & -> & Hc & _).
    cbn [HasPrefix]. rewrite (bool_decide_eq_false_2 ("0"%char = c)) by congruence. apply andb_false_r. }
  assert ((2 <? slen (pretty m)) && (HasPrefix (pretty m) "0x" || HasPrefix (pretty m) "0X") = false) as ->.
  { destruct (decide (m = 0%N)) as [-> | Hne]; [done |]. destruct (pretty_head m ltac:(lia)) as (c & r & -> & Hc & _).
    cbn [HasPrefix]. rewrite (bool_decide_eq_false_2 ("0"%char = c)) by congruence. apply andb_false_r. }
  rewrite Hzero. rewrite bool_decide_eq_false_2.
  2:{ intros Heq. rewrite Heq in Hval. discriminate Hval. }
  assert (made_of (λ c, negb (among ["_"; "+"; "-"]%char c)) (pretty m) = true) as ->; [| done].
  eapply made_of_mono; [| apply pretty_N_digits]. intros c Hc. by destruct c as [[] [] [] [] [] [] [] []].
Qed.

(** ** What a value has to do for a check *)

(** A value is one of those allowed, case aside, or a number within the bounds. *)
Definition meets (source : Z) (allowed : list string) (least most : option Z) (value : string) : Prop :=
  match allowed with
  | [] => ∃ n, Integer source value = Some n ∧ (∀ l, least = Some l → l ≤ n) ∧ ∀ m, most = Some m → n ≤ m
  | _ => ∃ each, each ∈ allowed ∧ equal_fold each value = true
  end.

Lemma equal_fold_refl s : equal_fold s s = true.
Proof. induction s as [|c s IH]; [done |]. cbn [equal_fold]. by rewrite bool_decide_eq_true_2. Qed.

Lemma noted_nil b where_ what : noted b where_ what = [] ↔ b = false.
Proof. by destruct b. Qed.

Lemma check_values_first field value held maximum :
  check_values field (value :: held) maximum = [] → Normalized value maximum = true.
Proof.
  unfold check_values. intros [_ Hall]%app_nil. rewrite imap_cons in Hall. cbn [mjoin list_join] in Hall.
  apply app_nil in Hall as [Hvalue _]. unfold value_problem in Hvalue. by destruct (Normalized value maximum).
Qed.

(** The 64 bits the wire carries of a bound. *)
Definition in_int64 (bound : option Z) : Prop := ∀ n, bound = Some n → - 2 ^ 63 ≤ n < 2 ^ 63.

Lemma values_or_bounds_met source allowed least most maximum :
  check_values "allowed" allowed maximum = [] → check_bounds least most = [] → 20 ≤ maximum →
  in_int64 least → in_int64 most → allowed ≠ [] ∨ bounded_by least most = true →
  ∃ value, Normalized value maximum = true ∧ meets source allowed least most value.
Proof.
  intros Hvalues Hbounds Hmax Hl Hm Hsome. destruct allowed as [|value allowed].
  - destruct Hsome as [Hne | Hsome]; [done |]. unfold bounded_by in Hsome.
    assert (∃ n, - 2 ^ 63 ≤ n < 2 ^ 63 ∧ (∀ l, least = Some l → l ≤ n) ∧ ∀ m, most = Some m → n ≤ m) as (n & Hn & Hlow & Hhigh).
    { destruct least as [l|]; [exists l | destruct most as [m|]; [exists m | done]].
      - split; [by apply Hl | split; [intros ? [= <-]; lia |]]. intros m ->. cbn in Hbounds. apply noted_nil in Hbounds. to_prop. lia.
      - split; [by apply Hm | split; [done | intros ? [= <-]; lia]]. }
    exists (pretty n). split; [by apply Normalized_pretty |]. exists n. split_and!; [by apply Integer_pretty | done | done].
  - exists value. split; [by eapply check_values_first |]. exists value. split; [by left | apply equal_fold_refl].
Qed.

(** A check that is accepted can be met: some value a host could answer, printable
    and short enough to be compared, is among those a directive allows or is a number,
    as the program the directive belongs to reads numbers, within its bounds. The same
    holds of a kernel parameter, unless it is judged on its presence alone. What a
    directive is assumed to be is a value, and a number where the check has bounds. *)
Theorem an_accepted_check_can_be_met :
  (∀ t, validateDirective t = [] → in_int64 (dt_least t) → in_int64 (dt_most t) →
     (∃ value, Normalized value MaxDirectiveValueLength = true
        ∧ meets (dt_source t) (dt_allowed t) (dt_least t) (dt_most t) value)
     ∧ (dt_assumed t = "" ∨ Normalized (dt_assumed t) MaxDirectiveValueLength = true
          ∧ (bounded_by (dt_least t) (dt_most t) = true → is_Some (Integer (dt_source t) (dt_assumed t)))))
  ∧ (∀ t source, validateParameter t = [] → in_int64 (kp_least t) → in_int64 (kp_most t) →
       (kp_allowed t = [] ∧ bounded_by (kp_least t) (kp_most t) = false
          ∧ (kp_presence t = PRESENCE_FORBIDDEN ∨ kp_presence t ≠ 0))
       ∨ kp_presence t ≠ PRESENCE_FORBIDDEN
         ∧ ∃ value, Normalized value MaxParameterValueLength = true
             ∧ meets source (kp_allowed t) (kp_least t) (kp_most t) value).
Proof.
  split.
  - intros t. unfold validateDirective.
    intros [_ [_ [_ [Hvalues [Hbounds [Hjudges Hassumed]%app_nil]%app_nil]%app_nil]%app_nil]%app_nil]%app_nil Hl Hm. split.
    + apply values_or_bounds_met; [done | done | by vm_compute | done | done |].
      destruct (dt_allowed t) as [|v allowed]; [right | by left]. cbn in Hjudges. apply noted_nil in Hjudges.
      by destruct (bounded_by _ _).
    + case_bool_decide as Hempty; [by left | right]. destruct (Normalized _ _); [| done]. cbn [negb] in Hassumed.
      apply noted_nil in Hassumed. split; [done |]. intros Hb. rewrite Hb in Hassumed. cbn in Hassumed. to_prop. done.
  - intros t source. unfold validateParameter.
    intros [_ [_ [Hvalues [Hbounds Hjudges]%app_nil]%app_nil]%app_nil]%app_nil Hl Hm.
    destruct (kp_presence t =? PRESENCE_FORBIDDEN) eqn:Hforbidden; to_prop.
    + left. apply noted_nil, orb_false_iff in Hjudges as [Hlen Hbounded].
      destruct (kp_allowed t); [| done]. split_and!; [done | done | by left].
    + destruct ((0 <? len (kp_allowed t)) || bounded_by (kp_least t) (kp_most t)) eqn:Hcarried.
      * right. split; [done |]. apply values_or_bounds_met; [done | done | by vm_compute | done | done |].
        apply orb_true_iff in Hcarried as [Hlen | ?]; [left | by right]. by destruct (kp_allowed t).
      * left. apply orb_false_iff in Hcarried as [Hlen Hbounded]. rewrite Hlen, Hbounded in Hjudges. cbn in Hjudges.
        apply noted_nil in Hjudges. to_prop. destruct (kp_allowed t); [| done]. split_and!; [done | done | by right].
Qed.
End meets.
