(* ===== verification/Policy.v ===== *)
(** * Agent policies: what is signed, what it may set and who is handed it

    agentpolicy/policy.go, validate.go and publish.go, and the publishing and serving
    of postgres/policies.go. SHA-256 and ECDSA are [Signing]; PEM, the DER of keys, the
    wire format and the patterns [path.Match] takes are parameters. Every problem of a
    policy is noted where it lies with why, its prose a constructor. *)

From Stdlib Require Import ZArith Lia Ascii.
From stdpp Require Import base tactics option gmap strings pretty sorting numbers list.
From S2P Require Import Prelude Text Scan Hex Bytes Agent Trust Event Canonical Assessment.

(** ** Durations on the wire *)

Record WireDuration := mkWireDuration { wd_seconds : Z; wd_nanos : Z }.

(** [durationpb]'s [IsValid]: ten thousand years either way, and one sign. *)
Definition duration_IsValid (d : WireDuration) : bool :=
  (- 315576000000 <=? wd_seconds d) && (wd_seconds d <=? 315576000000)
  && (- 1000000000 <? wd_nanos d) && (wd_nanos d <? 1000000000)
  && negb ((0 <? wd_seconds d) && (wd_nanos d <? 0)) && negb ((wd_seconds d <? 0) && (0 <? wd_nanos d)).

(** [AsDuration] saturates at 64 bits. *)
Definition duration_AsDuration (d : WireDuration) : duration :=
  Z.max min_duration (Z.min max_duration (wd_seconds d * second + wd_nanos d)).

(** ** The policy *)

Record ModuleSettings := mkModuleSettings {
  mo_module : Z; mo_collection : Z; mo_interval : option WireDuration;
  mo_paths : option (list string); mo_exclude : option (list string);
}.
Record PolicyBudgets := mkPolicyBudgets {
  bu_spool_bytes : Z; bu_batch_bytes : Z; bu_events : Z; bu_inventory : Z; bu_upload : Z; bu_memory : Z; bu_scans : Z;
  bu_scan_bytes : Z; bu_uploads : Z; bu_spool_age : option WireDuration;
}.
Record PolicySettings := mkPolicySettings {
  ps_log_level : Z; ps_modules : list ModuleSettings; ps_budgets : PolicyBudgets; ps_checklist : option (list Check_);
}.
Record AgentPolicy := mkAgentPolicy {
  po_schema : Z; po_id : string; po_revision : Z; po_targets : list string; po_settings : PolicySettings;
  po_issued : option WireTime; po_expires : option WireTime;
}.

Class PolicyContract := {
  LogLevel_named : Z → bool; Module_named : Z → bool; Collection_named : Z → bool;
  MODULE_INVENTORY : Z; MODULE_PROCESSES : Z; MODULE_FILES : Z; MODULE_NETWORK : Z; MODULE_ASSESSMENT : Z;
  path_Match_takes : string → bool;
}.

Definition PolicyPayloadType : string := "application/vnd.seagull.policy.v1+protobuf".
Definition PolicySchema : Z := 1.
Definition MaxPolicyEnvelope : Z := MaxPayloadBytes + 4 * 2 ^ 10.
Definition MaxPolicySignatures : Z := 4.
Definition MaxSigners : Z := 64.
Definition MaxSignersBytes : Z := 64 * 2 ^ 10.
Definition MaxTargets : Z := 10000.
Definition PolicyLifetime : duration := 366 * 24 * hour.
Definition PolicyClockSkew : duration := 5 * minute.
Definition MaxWatchedPaths : Z := 64.
Definition MaxExcluded : Z := 256.
Definition MaxPathBytes : Z := 4 * 2 ^ 10.
Definition MaxNameBytes : Z := 255.
Definition MaxProblems : nat := 16.
Definition unwatched : list string := ["/proc"; "/sys"; "/dev"; "/tmp"; "/var/tmp"].

(** ** Problems *)

Inductive PolicyReason :=
| OtherSchema | NotAPolicyID | RevisionZero | RevisionBeyond | NamesNobody | NamesTooMany | NotAnAgentID | NamedAgain
| NotALevel | NotAModule | ModuleAgain | NotACollection | NotADuration | TakesNoStock | IntervalOutside
| PathsUnwatchable | WatchesNothing | WatchesTooMuch | WithinUnwatched (held : string) | PathAgain
| ExcludesTooMuch | ExcludedAgain | NeitherPathNorPattern | LeavesOutAWhole | WithinNone
| PolicyPathEmpty | PolicyPathLong | PolicyPathUnclean | PolicyPathRoot
| BudgetOutside | AgeNotADuration | AgeOutside | ChecklistProblem (what : CheckReason)
| NotIssued | NotExpiring | IssuedAhead | ExpiresFirst | VouchedTooLong.

Record PolicyProblem := mkPolicyProblem { pp_where : string; pp_what : PolicyReason }.
Definition troubled (b : bool) (where_ : string) (what : PolicyReason) : list PolicyProblem :=
  if b then [mkPolicyProblem where_ what] else [].

Inductive PolicyError :=
| PolicyMalformed | PolicyProblems (shown : list PolicyProblem) (more : Z) | PolicyUnsigned | PolicyExpired | PolicySigners
| PolicyNoActor | PolicyStale | PolicyUnregistered | PolicyAgentUnknown.

(** Sixteen problems are named and the rest counted. *)
Definition problems_err (found : list PolicyProblem) : option PolicyError :=
  if len found =? 0 then None else Some (PolicyProblems (take MaxProblems found) (len found - len (take MaxProblems found))).

(** ** Paths *)

Definition path_within (written held : string) : bool := bool_decide (written = held) || HasPrefix written (held +:+ "/").

Definition absolute (name written : string) : list PolicyProblem :=
  if bool_decide (written = "") then [mkPolicyProblem name PolicyPathEmpty]
  else if MaxPathBytes <? slen written then [mkPolicyProblem name PolicyPathLong]
  else if negb (HasPrefix written "/") || negb (bool_decide (path_Clean written = written))
       then [mkPolicyProblem name PolicyPathUnclean]
  else troubled (bool_decide (written = "/")) name PolicyPathRoot.

(** The first place of a value, as [slices.Index] finds it. *)
Fixpoint index_of (values : list string) (value : string) : option nat :=
  match values with
  | [] => None
  | v :: values => if bool_decide (v = value) then Some O else S <$> index_of values value
  end.
Definition index_before (values : list string) (value : string) (index : nat) : bool :=
  match index_of values value with Some i => (i <? index)%nat | None => true end.

Definition watched_problems (name : string) (paths : list string) (index : nat) (written : string) : list PolicyProblem :=
  let entry := name +:+ ".paths[" +:+ pretty index +:+ "]" in
  match absolute entry written with
  | [] =>
      match List.find (path_within written) unwatched with
      | Some held => [mkPolicyProblem entry (WithinUnwatched held)]
      | None => troubled (index_before paths written index) entry PathAgain
      end
  | found => found
  end.

Section validate.
Context `{AssessmentContract, PolicyContract}.

Definition excluded_problems (name : string) (watched : option (list string)) (entries : list string) (index : nat)
    (written : string) : list PolicyProblem :=
  let entry := name +:+ ".exclude[" +:+ pretty index +:+ "]" in
  if index_before entries written index then [mkPolicyProblem entry ExcludedAgain]
  else if negb (HasPrefix written "/") then
    troubled (negb (path_Match_takes written) || bool_decide (written = "") || (MaxNameBytes <? slen written)
              || StringContains written "/") entry NeitherPathNorPattern
  else match absolute entry written with
       | [] =>
           match watched with
           | None => []
           | Some paths =>
               if existsb (λ held, path_within held written) paths then [mkPolicyProblem entry LeavesOutAWhole]
               else troubled (negb (existsb (λ held, HasPrefix written (held +:+ "/")) paths)) entry WithinNone
           end
       | found => found
       end.

Definition policy_scope (name : string) (held : ModuleSettings) : list PolicyProblem :=
  if negb (mo_module held =? MODULE_FILES) then
    troubled (bool_decide (is_Some (mo_paths held)) || bool_decide (is_Some (mo_exclude held))) name PathsUnwatchable
  else
    match mo_paths held with
    | None => []
    | Some paths =>
        (if len paths =? 0 then [mkPolicyProblem (name +:+ ".paths") WatchesNothing]
         else troubled (MaxWatchedPaths <? len paths) (name +:+ ".paths") WatchesTooMuch)
        ++ mjoin (imap (watched_problems name paths) paths)
    end
    ++ match mo_exclude held with
       | None => []
       | Some entries =>
           troubled (MaxExcluded <? len entries) (name +:+ ".exclude") ExcludesTooMuch
           ++ mjoin (imap (excluded_problems name (mo_paths held) entries) entries)
       end.

(** ** Settings *)

Definition intervals (module : Z) : option (duration * duration) :=
  if module =? MODULE_INVENTORY then Some (minute, 24 * hour)
  else if module =? MODULE_PROCESSES then Some (minute, 24 * hour)
  else if module =? MODULE_FILES then Some (minute, 24 * hour)
  else if module =? MODULE_NETWORK then Some (10 * second, hour)
  else if module =? MODULE_ASSESSMENT then Some (minute, 24 * hour)
  else None.

Definition policy_interval (name : string) (module : Z) (every : option WireDuration) : list PolicyProblem :=
  match every with
  | None => []
  | Some every =>
      if negb (duration_IsValid every) then [mkPolicyProblem (name +:+ ".interval") NotADuration]
      else
        let value := duration_AsDuration every in
        if value =? 0 then []
        else match intervals module with
             | None => [mkPolicyProblem (name +:+ ".interval") TakesNoStock]
             | Some (least, most) => troubled ((value <? least) || (most <? value)) (name +:+ ".interval") IntervalOutside
             end
  end.

Fixpoint policy_modules (index : nat) (seen : gset Z) (modules : list ModuleSettings) : list PolicyProblem :=
  match modules with
  | [] => []
  | module :: modules =>
      let name := "settings.modules[" +:+ pretty index +:+ "]" in
      let named := mo_module module in
      if negb (Module_named named) || (named =? 0)
      then mkPolicyProblem name NotAModule :: policy_modules (S index) seen modules
      else troubled (bool_decide (named ∈ seen)) name ModuleAgain
           ++ troubled (negb (Collection_named (mo_collection module))) (name +:+ ".collection") NotACollection
           ++ policy_interval name named (mo_interval module) ++ policy_scope name module
           ++ policy_modules (S index) ({[named]} ∪ seen) modules
  end.

Record ceiling := mkCeiling { ce_name : string; ce_value : Z; ce_least : Z; ce_most : Z }.

Definition ceilings (b : PolicyBudgets) : list ceiling := [
  mkCeiling "spool_max_bytes" (bu_spool_bytes b) (16 * 2 ^ 20) (64 * 2 ^ 30);
  mkCeiling "max_batch_bytes" (bu_batch_bytes b) (64 * 2 ^ 10) (8 * 2 ^ 20);
  mkCeiling "max_events_per_batch" (bu_events b) 1 1000;
  mkCeiling "max_inventory_records_per_batch" (bu_inventory b) 1 64;
  mkCeiling "max_upload_bytes_per_second" (bu_upload b) (64 * 2 ^ 10) (2 ^ 30);
  mkCeiling "memory_limit_bytes" (bu_memory b) (64 * 2 ^ 20) (8 * 2 ^ 30);
  mkCeiling "max_concurrent_scans" (bu_scans b) 1 64;
  mkCeiling "max_scan_bytes_per_second" (bu_scan_bytes b) (2 ^ 20) (2 ^ 30);
  mkCeiling "max_concurrent_uploads" (bu_uploads b) 1 16].

Definition spoolAge : duration * duration := (hour, 720 * hour).

Definition policy_budgets (b : PolicyBudgets) : list PolicyProblem :=
  (ceilings b ≫= λ each,
     troubled (negb (ce_value each =? 0) && ((ce_value each <? ce_least each) || (ce_most each <? ce_value each)))
       ("settings.budgets." +:+ ce_name each) BudgetOutside)
  ++ match bu_spool_age b with
     | None => []
     | Some age =>
         let value := duration_AsDuration age in
         if negb (duration_IsValid age) then [mkPolicyProblem "settings.budgets.spool_max_age" AgeNotADuration]
         else troubled (negb (value =? 0) && ((value <? spoolAge.1) || (spoolAge.2 <? value)))
                "settings.budgets.spool_max_age" AgeOutside
     end.

Definition policy_settings (held : PolicySettings) : list PolicyProblem :=
  troubled (negb (LogLevel_named (ps_log_level held))) "settings.log_level" NotALevel
  ++ policy_modules 0 ∅ (ps_modules held)
  ++ policy_budgets (ps_budgets held)
  ++ match ps_checklist held with
     | None => []
     | Some checks =>
         (λ p, mkPolicyProblem ("settings.assessment." +:+ cp_where p) (ChecklistProblem (cp_what p))) <$> ValidateChecklist checks
     end.

(** ** Targets and times *)

Fixpoint policy_targets_from (index : nat) (seen : gset string) (ids : list string) : list PolicyProblem :=
  match ids with
  | [] => []
  | id :: ids =>
      let name := "targets.agent_ids[" +:+ pretty index +:+ "]" in
      if negb (AgentIDValid id) then mkPolicyProblem name NotAnAgentID :: policy_targets_from (S index) seen ids
      else troubled (bool_decide (id ∈ seen)) name NamedAgain ++ policy_targets_from (S index) ({[id]} ∪ seen) ids
  end.

Definition policy_targets (ids : list string) : list PolicyProblem :=
  if len ids =? 0 then [mkPolicyProblem "targets" NamesNobody]
  else if MaxTargets <? len ids then [mkPolicyProblem "targets" NamesTooMany]
  else policy_targets_from 0 ∅ ids.

(** The problems of the times, and whether the policy has expired. *)
Definition policy_times (p : AgentPolicy) (now : instant) : list PolicyProblem * bool :=
  let set t := match t with Some t => IsValid t | None => false end in
  let unwritten := negb (set (po_issued p)) in
  let unbounded := negb (set (po_expires p)) in
  if unwritten || unbounded
  then (troubled unwritten "issued_at" NotIssued ++ troubled unbounded "expires_at" NotExpiring, false)
  else
    let written := times_at (po_issued p) in
    let ending := times_at (po_expires p) in
    if after written (time_add now PolicyClockSkew) then ([mkPolicyProblem "issued_at" IssuedAhead], false)
    else if negb (after ending written) then ([mkPolicyProblem "expires_at" ExpiresFirst], false)
    else if PolicyLifetime <? time_sub ending written then ([mkPolicyProblem "expires_at" VouchedTooLong], false)
    else ([], negb (after ending now)).

Definition policy_Validate (p : AgentPolicy) (now : instant) : option PolicyError :=
  let '(of_times, expired) := policy_times p now in
  match problems_err
    (troubled (negb (po_schema p =? PolicySchema)) "schema_version" OtherSchema
     ++ troubled (negb (AgentIDValid (po_id p))) "policy_id" NotAPolicyID
     ++ (if po_revision p =? 0 then [mkPolicyProblem "revision" RevisionZero]
         else troubled (2 ^ 63 - 1 <? po_revision p) "revision" RevisionBeyond)
     ++ policy_targets (po_targets p) ++ policy_settings (po_settings p) ++ of_times)
  with
  | Some e => Some e
  | None => if expired then Some PolicyExpired else None
  end.
End validate.

(** ** Signers *)

Class PolicyLibraries `{Signing} := {
  pem_Decode : string → option (string * string * string);
  MarshalPKIXPublicKey : PublicKey → option string;
  unmarshal_policy : string → option (AgentPolicy * Proto);
  marshal_signed : Envelope → option string;
}.

Section policy.
Context {signing : Signing} {libraries : PolicyLibraries} `{AssessmentContract, PolicyContract}.

Definition Signers : Type := list (string * PublicKey).

Definition policy_KeyID (key : PublicKey) : result PolicyError string :=
  match MarshalPKIXPublicKey key with Some der => Ok (hex_encode (sha256 der)) | None => Err PolicySigners end.

(** Block after block: [fuel] turns, each holding one more key. *)
Fixpoint parse_signers (fuel : nat) (held : Signers) (rest : string) : result PolicyError Signers :=
  match fuel with
  | O => Err PolicySigners
  | S fuel =>
      if bool_decide (TrimSpace rest = "") then Ok held
      else match pem_Decode rest with
      | None => Err PolicySigners
      | Some (kind, block, remainder) =>
          if negb (bool_decide (kind = "PUBLIC KEY")) then Err PolicySigners
          else if len held =? MaxSigners then Err PolicySigners
          else match ParsePKIXPublicKey block with
          | None => Err PolicySigners
          | Some None => Err PolicySigners
          | Some (Some key) =>
              match policy_KeyID key with
              | Err e => Err e
              | Ok id =>
                  if existsb (λ known, bool_decide (known.1 = id)) held then Err PolicySigners
                  else parse_signers fuel (held ++ [(id, key)]) remainder
              end
          end
      end
  end.

Definition ParseSigners (content : string) : result PolicyError Signers :=
  if MaxSignersBytes <? slen content then Err PolicySigners
  else match parse_signers (S (Z.to_nat MaxSigners)) [] content with
       | Ok [] => Err PolicySigners
       | parsed => parsed
       end.

(** One signature against every signer: a key counts once. *)
Definition policy_signature (signers : Signers) (digest : string) (signed : list string) (signature : Signature) : list string :=
  foldl (λ signed candidate,
    if negb (contains_elem signed candidate.1) && VerifyASN1 candidate.2 digest (sg_sig signature)
    then signed ++ [candidate.1] else signed) signed signers.

Record Verified := mkVerified { vf_policy : AgentPolicy; vf_signed_by : list string }.

Definition policy_Verify (signers : Signers) (envelope : Envelope) : result PolicyError Verified :=
  let payload := env_payload envelope in
  if negb (bool_decide (env_payload_type envelope = PolicyPayloadType)) then Err PolicyMalformed
  else if bool_decide (payload = "") then Err PolicyMalformed
  else if MaxPayloadBytes <? slen payload then Err PolicyMalformed
  else if len (env_signatures envelope) =? 0 then Err PolicyUnsigned
  else if MaxPolicySignatures <? len (env_signatures envelope) then Err PolicyMalformed
  else
    let digest := sha256 (PAE PolicyPayloadType payload) in
    let signed := foldl (policy_signature signers digest) [] (env_signatures envelope) in
    if len signed =? 0 then Err PolicyUnsigned
    else match unmarshal_policy payload with
    | None => Err PolicyMalformed
    | Some (policy, reflected) =>
        if negb (known_message reflected) then Err PolicyMalformed else Ok (mkVerified policy (sort_strings signed))
    end.

(** ** Accepting a publication *)

Record Publication := mkPublication { pu_tenant : string; pu_note : string; pu_policy : option Envelope }.

Record PublishedPolicy := mkPublishedPolicy {
  pr_tenant : string; pr_revision : Z; pr_policy_id : string; pr_issued : option WireTime; pr_expires : option WireTime;
  pr_targets : Z; pr_digest : string; pr_signed_by : list string; pr_by : string; pr_at : instant; pr_note : string;
  pr_policy : Envelope;
}.
Record Accepted := mkAccepted { ac_record : PublishedPolicy; ac_served : string; ac_targets : list string }.

Definition Accept (asked : Publication) (signers : Signers) (actor : string) (at_ : instant) : result PolicyError Accepted :=
  let tenant := pu_tenant asked in
  if bool_decide (actor = "") then Err PolicyNoActor
  else if bool_decide (tenant = "") || (MaxTenantIDLength <? slen tenant) || negb (ValidIdentifier tenant)
       then Err PolicyMalformed
  else if MaxNoteLength <? slen (pu_note asked) then Err PolicyMalformed
  else match pu_policy asked with
  | None => Err PolicyMalformed
  | Some envelope =>
      match policy_Verify signers envelope with
      | Err e => Err e
      | Ok verified =>
          let policy := vf_policy verified in
          match policy_Validate policy at_ with
          | Some e => Err e
          | None =>
              match marshal_signed envelope with
              | None => Err PolicyMalformed
              | Some served =>
                  if MaxPolicyEnvelope <? slen served then Err PolicyMalformed
                  else Ok (mkAccepted
                    (mkPublishedPolicy tenant (po_revision policy) (po_id policy) (po_issued policy) (po_expires policy)
                       (uint32 (len (po_targets policy))) (UpdateDigest served) (vf_signed_by verified) actor at_
                       (pu_note asked) envelope)
                    served (po_targets policy))
              end
          end
      end
  end.

(** ** The store (postgres/policies.go) *)

Record PolicyRow := mkPolicyRow { pw_record : PublishedPolicy; pw_envelope : string }.

(** Agents with their tenant and state, policies in the order they were recorded, and
    whom each names. *)
Record PolicyTables := mkPolicyTables {
  ag_agents : gmap string (string * AgentState);
  ag_policies : list PolicyRow;
  ag_targets : list (string * Z * string);
}.

Definition row_tenant (row : PolicyRow) : string := pr_tenant (pw_record row).
Definition row_revision (row : PolicyRow) : Z := pr_revision (pw_record row).

(** [coalesce(max(revision), 0)] of a tenant. *)
Definition highest_revision (tenant : string) (rows : list PolicyRow) : Z :=
  foldr (λ row highest, if bool_decide (row_tenant row = tenant) then Z.max (row_revision row) highest else highest) 0 rows.

Definition policy_unregistered (named registered : list string) : list string := filter (λ id, id ∉ registered) named.

(** The whole transaction, under the tenant's lock: a failure leaves nothing. *)
Definition policies_Publish (accepted : Accepted) (t : PolicyTables) : PolicyTables * result PolicyError PublishedPolicy :=
  let record := ac_record accepted in
  let tenant := pr_tenant record in
  if pr_revision record <=? highest_revision tenant (ag_policies t) then (t, Err PolicyStale)
  else
    let registered := filter (λ id, fst <$> ag_agents t !! id = Some tenant) (ac_targets accepted) in
    if negb (len (policy_unregistered (ac_targets accepted) registered) =? 0) then (t, Err PolicyUnregistered)
    else (mkPolicyTables (ag_agents t) (ag_policies t ++ [mkPolicyRow record (ac_served accepted)])
            (ag_targets t ++ ((λ id, (tenant, pr_revision record, id)) <$> ac_targets accepted)), Ok record).

Record ServedPolicy := mkServedPolicy { sp_state : AgentState; sp_held : option (Z * string * string) }.

(** The rows whose targets name an agent of a tenant, newest revision first; one row
    for every target and policy that agree. *)
Definition naming (t : PolicyTables) (tenant id : string) : list PolicyRow :=
  ag_targets t ≫= λ target,
    if bool_decide (target.2 = id) && bool_decide (target.1.1 = tenant)
    then filter (λ row, row_tenant row = tenant ∧ row_revision row = target.1.2) (ag_policies t) else [].

(** The highest of them, the first of the highest. *)
Definition newest_row (rows : list PolicyRow) : option PolicyRow :=
  foldl (λ best row, match best with
    | None => Some row
    | Some held => if row_revision held <? row_revision row then Some row else best
    end) None rows.

Definition policies_Served (id : string) (t : PolicyTables) : result PolicyError ServedPolicy :=
  match ag_agents t !! id with
  | None => Err PolicyAgentUnknown
  | Some (tenant, state) =>
      Ok (mkServedPolicy state
        ((λ row, (row_revision row, pw_envelope row, pr_digest (pw_record row))) <$> newest_row (naming t tenant id)))
  end.
End policy.
