(* ===== verification/PolicyProps.v ===== *)
(** * What an accepted policy watches, and what an agent is handed *)

From Stdlib Require Import ZArith Lia Ascii.
From stdpp Require Import base tactics option gmap strings pretty sorting numbers list.
From S2P Require Import Prelude Text Scan Hex Bytes Agent Trust Event Canonical Assessment Policy.

(** ** Paths as the elements they name *)

(** An element that names a file: nothing to resolve in it. *)
Definition proper (element : string) : Prop := element ≠ "" ∧ element ≠ "." ∧ element ≠ ".." ∧ free_of "/" element.

(** The path of some elements. *)
Definition path_of (parts : list string) : string := String "/" (join_at parts "/").

Definition names_a_path (parts : list string) : Prop := parts ≠ [] ∧ Forall proper parts.

Lemma proper_free parts : Forall proper parts → Forall (free_of "/") parts.
Proof. intros H. eapply Forall_impl; [exact H |]. by intros e (_ & _ & _ & ?). Qed.

Lemma clean_step_proper kept element :
  free_of "/" element → Forall proper kept → Forall proper (clean_step true kept element).
Proof.
  intros Hfree Hkept. unfold clean_step. case_bool_decide as H1; [done |]. case_bool_decide as H2; [done |]. cbn [orb].
  case_bool_decide as H3.
  - destruct kept as [|last rest]; [done |]. apply Forall_cons in Hkept as [(? & ? & Hdots & ?) Hrest].
    by rewrite bool_decide_eq_false_2.
  - by constructor.
Qed.

Lemma clean_steps_proper elements : ∀ kept,
  Forall (free_of "/") elements → Forall proper kept → Forall proper (foldl (clean_step true) kept elements).
Proof.
  induction elements as [|e elements IH]; intros kept Hfree Hkept; [done |]. apply Forall_cons in Hfree as [He Hfree].
  cbn [foldl]. apply IH; [done |]. by apply clean_step_proper.
Qed.

Lemma clean_steps_same elements : ∀ kept,
  Forall proper elements → foldl (clean_step true) kept elements = rev elements ++ kept.
Proof.
  induction elements as [|e elements IH]; intros kept Hproper; [done |]. apply Forall_cons in Hproper as [(H1 & H2 & H3 & _) Hp].
  cbn [foldl rev]. rewrite IH by done. unfold clean_step. rewrite !bool_decide_eq_false_2 by done. cbn [orb].
  by rewrite <- app_assoc.
Qed.

Lemma clean_rooted rest :
  path_Clean (String "/" rest) = path_of (rev (foldl (clean_step true) [] (Split rest "/"))).
Proof.
  unfold path_Clean. change (HasPrefix (String "/" rest) "/") with true. cbn [Split]. rewrite decide_True by done. done.
Qed.

(** An absolute path with nothing to resolve, other than the root, is one of elements
    that name files. *)
Lemma clean_path_spec written :
  HasPrefix written "/" = true ∧ path_Clean written = written ∧ written ≠ "/" ↔ ∃ parts, names_a_path parts ∧ written = path_of parts.
Proof.
  split.
  - intros (Hpre & Hclean & Hroot). apply HasPrefix_spec in Hpre as [rest ->]. change ("/" +:+ rest) with (String "/" rest) in *.
    rewrite clean_rooted in Hclean. set (kept := rev _) in Hclean.
    assert (Forall proper kept) as Hkept.
    { apply Forall_rev. apply clean_steps_proper; [apply Split_free | constructor]. }
    exists kept. split; [| done]. split; [| done]. intros Hnil. rewrite Hnil in Hclean. by apply Hroot.
  - intros (parts & [Hne Hproper] & ->). split_and!; [done | |].
    + unfold path_of. rewrite clean_rooted, Split_join by auto using proper_free.
      by rewrite clean_steps_same, app_nil_r, rev_involutive.
    + destruct parts as [|p parts]; [done |]. apply Forall_cons in Hproper as [(Hp & _) _]. unfold path_of. intros [= Heq].
      destruct p as [|c p]; [done |]. destruct parts; discriminate Heq.
Qed.

Lemma join_app ps qs : ps ≠ [] → qs ≠ [] → join_at (ps ++ qs) "/" = join_at ps "/" +:+ String "/" (join_at qs "/").
Proof.
  intros Hp Hq. induction ps as [|p ps IH]; [done |]. destruct ps as [|p' ps].
  - destruct qs as [|q qs]; [done | done].
  - change (join_at ((p :: p' :: ps) ++ qs) "/") with (p +:+ String "/" (join_at ((p' :: ps) ++ qs) "/")).
    rewrite IH by done. change (join_at (p :: p' :: ps) "/") with (p +:+ String "/" (join_at (p' :: ps) "/")).
    by rewrite string_app_assoc.
Qed.

Lemma Split_joined ps s : ps ≠ [] → Forall (free_of "/") ps →
  Split (join_at ps "/" +:+ String "/" s) "/" = ps ++ Split s "/".
Proof.
  intros Hne Hfree. induction ps as [|p ps IH]; [done |]. apply Forall_cons in Hfree as [Hp Hfree].
  destruct ps as [|p' ps]; [by apply Split_app |].
  change (join_at (p :: p' :: ps) "/") with (p +:+ String "/" (join_at (p' :: ps) "/")).
  rewrite string_app_assoc. change (String "/" (join_at (p' :: ps) "/") +:+ ?x) with (String "/" (join_at (p' :: ps) "/" +:+ x)).
  rewrite Split_app by done. by rewrite IH.
Qed.

Lemma path_of_inj ps qs : names_a_path ps → names_a_path qs → path_of ps = path_of qs → ps = qs.
Proof.
  intros [Hp Hps] [Hq Hqs] [= Heq]. rewrite <- (Split_join ps "/"), <- (Split_join qs "/") by auto using proper_free.
  by rewrite Heq.
Qed.

(** Lying strictly within a path is continuing its elements. *)
Lemma below_parts ps qs : names_a_path ps → names_a_path qs →
  HasPrefix (path_of ps) (path_of qs +:+ "/") = true ↔ ∃ k, k ≠ [] ∧ ps = qs ++ k.
Proof.
  intros [Hp Hps] [Hq Hqs]. rewrite HasPrefix_spec. unfold path_of. split.
  - intros [r Heq]. rewrite string_app_assoc in Heq.
    change (String "/" (join_at qs "/") +:+ ?x) with (String "/" (join_at qs "/" +:+ x)) in Heq. injection Heq as Heq.
    change ("/" +:+ r) with (String "/" r) in Heq. exists (Split r "/"). split; [apply Split_nonempty |].
    rewrite <- (Split_join ps "/"), Heq by auto using proper_free. by rewrite Split_joined by auto using proper_free.
  - intros (k & Hk & ->). exists (join_at k "/"). rewrite join_app, string_app_assoc by done. done.
Qed.

Lemma within_parts ps qs : names_a_path ps → names_a_path qs →
  path_within (path_of ps) (path_of qs) = true ↔ qs `prefix_of` ps.
Proof.
  intros Hp Hq. unfold path_within. rewrite orb_true_iff, bool_decide_eq_true, below_parts by done. split.
  - intros [Heq | (k & _ & ->)]; [| by exists k]. apply path_of_inj in Heq as ->; [| done | done]. done.
  - intros [k ->]. destruct k as [|x k]; [left; by rewrite app_nil_r | right; by exists (x :: k)].
Qed.

Lemma absolute_spec name written :
  absolute name written = [] ↔ slen written ≤ MaxPathBytes ∧ ∃ parts, names_a_path parts ∧ written = path_of parts.
Proof.
  rewrite <- clean_path_spec. unfold absolute, troubled. case_bool_decide as Hempty; [subst; split; [done | by intros (_ & ? & _)] |].
  destruct (MaxPathBytes <? slen written) eqn:Hlong; to_prop; [split; [done | intros [? _]; lia] |].
  destruct (HasPrefix written "/"); cbn [negb orb]; [| split; [done | by intros (_ & ? & _)]].
  case_bool_decide as Hclean; cbn [negb]; [| split; [done | by intros (_ & _ & ? & _)]].
  case_bool_decide as Hroot; [split; [done | by intros (_ & _ & _ & ?)] |].
  split; [intros _; split; [lia |]; split; [done | by split] | done].
Qed.

(** ** No problem noted *)

Lemma troubled_nil b where_ what : troubled b where_ what = [] ↔ b = false.
Proof. by destruct b. Qed.

Lemma problems_none found : problems_err found = None ↔ found = [].
Proof.
  unfold problems_err. destruct found as [|p found]; [done |].
  rewrite (proj2 (Z.eqb_neq _ _)); [done |]. unfold len. cbn. lia.
Qed.

Lemma mjoin_imap_nil {A B} (f : nat → A → list B) l :
  mjoin (imap f l) = [] → ∀ i x, l !! i = Some x → f i x = [].
Proof.
  revert f. induction l as [|y l IH]; intros f; [done |]. rewrite imap_cons. cbn [mjoin list_join].
  intros [Hy Hl]%app_nil [|i] x; cbn; [by intros [= <-] | by apply (IH (f ∘ S))].
Qed.

Lemma index_of_first l x k i : index_of l x = Some k → l !! i = Some x → (k ≤ i)%nat.
Proof.
  revert k i. induction l as [|y l IH]; intros k i; cbn [index_of]; [done |]. case_bool_decide as Hy; [intros [= <-]; lia |].
  destruct (index_of l x) as [k'|] eqn:Hk; [| done]. intros [= <-]. destruct i as [|i]; cbn; [congruence |].
  intros Hi. specialize (IH k' i eq_refl Hi). lia.
Qed.

Lemma index_before_NoDup l : (∀ i x, l !! i = Some x → index_before l x i = false) → NoDup l.
Proof.
  intros Hall. apply NoDup_alt. intros i j x Hi Hj. pose proof (Hall i x Hi) as H1. pose proof (Hall j x Hj) as H2.
  unfold index_before in *. destruct (index_of l x) as [k|] eqn:Hk; [| done].
  pose proof (index_of_first l x k i Hk Hi). pose proof (index_of_first l x k j Hk Hj).
  apply Nat.ltb_ge in H1, H2. lia.
Qed.

(** ** What a policy watches *)

Definition unwatched_parts : list (list string) := [["proc"]; ["sys"]; ["dev"]; ["tmp"]; ["var"; "tmp"]].

Lemma unwatched_paths : unwatched = path_of <$> unwatched_parts.
Proof. done. Qed.

Lemma unwatched_names : Forall names_a_path unwatched_parts.
Proof. repeat constructor; done. Qed.

Lemma watched_spec name paths index written :
  watched_problems name paths index written = [] →
  index_before paths written index = false
  ∧ ∃ parts, names_a_path parts ∧ written = path_of parts ∧ ∀ u, u ∈ unwatched_parts → ¬ u `prefix_of` parts.
Proof.
  unfold watched_problems. destruct (absolute _ written) as [|p found] eqn:Habs; [| done].
  apply absolute_spec in Habs as (_ & parts & Hparts & ->).
  destruct (List.find _ unwatched) as [held|] eqn:Hfind; [done |]. intros Hagain%troubled_nil. split; [done |].
  exists parts. split_and!; [done | done |]. intros u Hu Hpre. pose proof unwatched_names as Hnames.
  rewrite Forall_forall in Hnames.
  apply within_parts in Hpre; [| done | by apply Hnames].
  pose proof (List.find_none _ _ Hfind (path_of u)) as Hnone. cbn beta in Hnone. rewrite Hpre in Hnone.
  discriminate Hnone. apply list_elem_of_In. rewrite unwatched_paths. by apply list_elem_of_fmap_2.
Qed.

Section watched.
Context `{AssessmentContract, PolicyContract}.

Lemma excluded_spec name watched entries index written :
  excluded_problems name watched entries index written = [] →
  index_before entries written index = false
  ∧ (HasPrefix written "/" = false ∧ path_Match_takes written = true ∧ written ≠ "" ∧ slen written ≤ MaxNameBytes
       ∧ StringContains written "/" = false
     ∨ ∃ parts, names_a_path parts ∧ written = path_of parts ∧
         ∀ paths, watched = Some (path_of <$> paths) → Forall names_a_path paths →
           (∃ w k, w ∈ paths ∧ k ≠ [] ∧ parts = w ++ k) ∧ ∀ w, w ∈ paths → ¬ parts `prefix_of` w).
Proof.
  unfold excluded_problems. destruct (index_before entries written index); [done |].
  destruct (HasPrefix written "/") eqn:Hroot; cbn [negb].
  - destruct (absolute _ written) as [|p found] eqn:Habs; [| done].
    apply absolute_spec in Habs as (_ & parts & Hparts & ->). intros Hnone. split; [done | right]. exists parts.
    split_and!; [done | done |]. intros paths -> Hnames. rewrite Forall_forall in Hnames.
    destruct (existsb (λ held, path_within held _) _) eqn:Hwhole; [done |].
    apply troubled_nil, negb_false_iff, existsb_exists in Hnone as (held & Hheld & Hbelow).
    apply list_elem_of_In, list_elem_of_fmap in Hheld as (w & -> & Hw).
    apply below_parts in Hbelow as (k & Hk & ->); [| done | by apply Hnames]. split; [by exists w, k |].
    intros v Hv Hpre. apply within_parts in Hpre; [| by apply Hnames | done].
    assert (existsb (λ held, path_within held (path_of (w ++ k))) (path_of <$> paths) = true) as Htrue; [| congruence].
    apply existsb_exists. exists (path_of v). split; [| done]. apply list_elem_of_In. by apply list_elem_of_fmap_2.
  - intros Hok%troubled_nil. apply orb_false_iff in Hok as [[[Hp Hne]%orb_false_iff Hlong]%orb_false_iff Hslash].
    destruct (path_Match_takes written); [| done]. to_prop. split; [done | left]. by repeat split.
Qed.

(** What the settings of a module say of files. *)
Record scoped (m : ModuleSettings) : Prop := {
  sc_others : mo_module m ≠ MODULE_FILES → mo_paths m = None ∧ mo_exclude m = None;
  sc_watched : ∀ paths, mo_paths m = Some paths → 0 < len paths ≤ MaxWatchedPaths ∧ NoDup paths ∧
    ∃ watched, paths = path_of <$> watched ∧ Forall names_a_path watched
      ∧ ∀ w u, w ∈ watched → u ∈ unwatched_parts → ¬ u `prefix_of` w;
  sc_excluded : ∀ entries, mo_exclude m = Some entries → len entries ≤ MaxExcluded ∧ NoDup entries ∧
    ∀ e, e ∈ entries →
      HasPrefix e "/" = false ∧ path_Match_takes e = true ∧ e ≠ "" ∧ slen e ≤ MaxNameBytes ∧ StringContains e "/" = false
      ∨ ∃ parts, names_a_path parts ∧ e = path_of parts ∧
          ∀ watched, mo_paths m = Some (path_of <$> watched) → Forall names_a_path watched →
            (∃ w k, w ∈ watched ∧ k ≠ [] ∧ parts = w ++ k) ∧ ∀ w, w ∈ watched → ¬ parts `prefix_of` w;
}.

Lemma elements_of_paths name paths :
  (∀ i x, paths !! i = Some x → watched_problems name paths i x = []) →
  ∃ watched, paths = path_of <$> watched ∧ Forall names_a_path watched
    ∧ ∀ w u, w ∈ watched → u ∈ unwatched_parts → ¬ u `prefix_of` w.
Proof.
  intros Hall.
  assert (∀ x, x ∈ paths → ∃ parts, names_a_path parts ∧ x = path_of parts ∧ ∀ u, u ∈ unwatched_parts → ¬ u `prefix_of` parts) as Hone.
  { intros x [i Hi]%list_elem_of_lookup. by destruct (watched_spec name paths i x (Hall i x Hi)) as [_ ?]. }
  clear Hall. induction paths as [|x paths IH]; [exists []; split_and!; [done | constructor | by intros ? ? ?%elem_of_nil] |].
  destruct IH as (watched & -> & Hnames & Hout); [intros y Hy; apply Hone; by right |].
  destruct (Hone x) as (parts & Hp & -> & Hu); [by left |]. exists (parts :: watched). split_and!; [done | by constructor |].
  intros w u [-> | Hw]%elem_of_cons Hin; [by apply Hu | by apply Hout].
Qed.

Lemma policy_scope_scoped name m : policy_scope name m = [] → scoped m.
Proof.
  unfold policy_scope. destruct (mo_module m =? MODULE_FILES) eqn:Hmodule; cbn [negb]; to_prop.
  - intros [Hpaths Hexclude]%app_nil. split; [done | |].
    + intros paths Hp. rewrite Hp in Hpaths. apply app_nil in Hpaths as [Hlen Hnone].
      pose proof (mjoin_imap_nil _ _ Hnone) as Hall.
      destruct (len paths =? 0) eqn:Hzero; [done |]. apply troubled_nil in Hlen. to_prop. split; [unfold len in *; lia |].
      split; [apply index_before_NoDup; intros i x Hx; by destruct (watched_spec name paths i x (Hall i x Hx)) |].
      by eapply elements_of_paths.
    + intros entries He. rewrite He in Hexclude. apply app_nil in Hexclude as [Hlen%troubled_nil Hnone].
      pose proof (mjoin_imap_nil _ _ Hnone) as Hall.
      to_prop. split; [done |]. split; [apply index_before_NoDup; intros i x Hx; by destruct (excluded_spec _ _ _ _ _ (Hall i x Hx)) |].
      intros e [i Hi]%list_elem_of_lookup. by destruct (excluded_spec _ _ _ _ _ (Hall i e Hi)) as [_ ?].
  - intros Hnone%troubled_nil. apply orb_false_iff in Hnone as [Hp He]. to_prop.
    apply eq_None_not_Some in Hp, He. split; [done | by rewrite Hp | by rewrite He].
Qed.

Lemma policy_modules_scoped modules : ∀ index seen,
  policy_modules index seen modules = [] →
  (∀ m, m ∈ modules → scoped m) ∧ NoDup (mo_module <$> modules) ∧ ∀ m, m ∈ modules → mo_module m ∉ seen.
Proof.
  induction modules as [|m modules IH]; intros index seen; cbn [policy_modules].
  { intros _. split_and!; [by intros ? ?%elem_of_nil | constructor | by intros ? ?%elem_of_nil]. }
  destruct (negb _ || _); [done |]. intros [Hagain%troubled_nil [_ [_ [Hscope Hrest]%app_nil]%app_nil]%app_nil]%app_nil.
  to_prop. destruct (IH _ _ Hrest) as (Hall & Hdup & Hseen). split_and!.
  - intros m' [-> | Hm]%elem_of_cons; [by eapply policy_scope_scoped | by apply Hall].
  - cbn. constructor; [| done]. intros (m' & Heq & Hm)%list_elem_of_fmap. apply (Hseen m' Hm). set_solver.
  - intros m' [-> | Hm]%elem_of_cons; [done |]. specialize (Hseen m' Hm). set_solver.
Qed.

Lemma policy_Validate_none p now : policy_Validate p now = None →
  policy_targets (po_targets p) = [] ∧ policy_settings (po_settings p) = [] ∧ po_revision p ≠ 0 ∧ po_revision p ≤ 2 ^ 63 - 1.
Proof.
  unfold policy_Validate. destruct (policy_times p now) as [of_times expired]. destruct (problems_err _) eqn:Hnone; [done |].
  apply problems_none in Hnone. intros _.
  apply app_nil in Hnone as [_ [_ [Hrev [Htargets [Hsettings _]%app_nil]%app_nil]%app_nil]%app_nil].
  split_and!; [done | done | |]; destruct (po_revision p =? 0) eqn:Hz; try done; to_prop; [done |].
  apply troubled_nil in Hrev. to_prop. lia.
Qed.

(** An accepted policy configures each module at most once, and only the files
    module names paths. What it watches are paths of elements that name files, each
    once, none within what the kernel or services make up; what it leaves out is a
    pattern of names or a path strictly within something watched that holds nothing
    watched whole. *)
Theorem what_an_accepted_policy_watches p now :
  policy_Validate p now = None →
  NoDup (mo_module <$> ps_modules (po_settings p)) ∧ ∀ m, m ∈ ps_modules (po_settings p) → scoped m.
Proof.
  intros (_ & Hsettings & _)%policy_Validate_none. apply app_nil in Hsettings as [_ [Hmodules _]%app_nil].
  by apply policy_modules_scoped in Hmodules as (? & ? & _).
Qed.
End watched.

(** ** What an agent is handed *)

Section served.
Context {signing : Signing} {libraries : PolicyLibraries} `{AssessmentContract, PolicyContract}.

(** A file of signers is read in as many turns as it may hold keys and one more, whatever
    PEM's decoder leaves of it: more turns change nothing. *)
Lemma parse_signers_enough spare more held rest :
  (length held + spare = Z.to_nat MaxSigners)%nat → parse_signers (S spare + more) held rest = parse_signers (S spare) held rest.
Proof.
  revert held rest. induction spare as [|spare IH]; intros held rest Hlen; cbn.
  - case_bool_decide; [done |]. destruct (pem_Decode rest) as [[[kind block] remainder]|]; [| done].
    case_bool_decide; [cbn [negb] | done]. assert ((len held =? MaxSigners) = true) as -> by (unfold len, MaxSigners in *; apply Z.eqb_eq; lia). done.
  - case_bool_decide; [done |]. destruct (pem_Decode rest) as [[[kind block] remainder]|]; [| done].
    case_bool_decide; [cbn [negb] | done]. destruct (len held =? MaxSigners); [done |].
    destruct (ParsePKIXPublicKey block) as [[key|]|]; [| done | done]. destruct (policy_KeyID key) as [id|]; [| done].
    destruct (existsb _ held); [done |]. apply (IH (held ++ [(id, key)])). rewrite length_app. cbn. lia.
Qed.

(** A publication that was taken: what was asked, under which signers, when, and what
    was accepted of it. *)
Record publishing := mkPublishing {
  pe_asked : Publication; pe_signers : Signers; pe_at : instant; pe_accepted : Accepted;
}.
Definition pe_tenant (e : publishing) : string := pr_tenant (ac_record (pe_accepted e)).
Definition pe_revision (e : publishing) : Z := pr_revision (ac_record (pe_accepted e)).
Definition pe_row (e : publishing) : PolicyRow := mkPolicyRow (ac_record (pe_accepted e)) (ac_served (pe_accepted e)).

(** What the tables went through: agents registered and moved, and publications taken,
    in any order. *)
Inductive policies_reach : PolicyTables → list publishing → Prop :=
| reach_start : policies_reach (mkPolicyTables ∅ [] []) []
| reach_register t log id tenant state :
    policies_reach t log → ag_agents t !! id = None →
    policies_reach (mkPolicyTables (<[id := (tenant, state)]> (ag_agents t)) (ag_policies t) (ag_targets t)) log
| reach_move t log id tenant state state' :
    policies_reach t log → ag_agents t !! id = Some (tenant, state) →
    policies_reach (mkPolicyTables (<[id := (tenant, state')]> (ag_agents t)) (ag_policies t) (ag_targets t)) log
| reach_publish t log asked signers actor at_ accepted t' record :
    policies_reach t log → Accept asked signers actor at_ = Ok accepted →
    policies_Publish accepted t = (t', Ok record) →
    policies_reach t' (log ++ [mkPublishing asked signers at_ accepted]).

(** What the tables hold of the log. *)
Record tabled (t : PolicyTables) (log : list publishing) : Prop := {
  tb_accepted : ∀ e, e ∈ log → ∃ actor, Accept (pe_asked e) (pe_signers e) actor (pe_at e) = Ok (pe_accepted e);
  tb_rows : ag_policies t = pe_row <$> log;
  tb_targets : ag_targets t = log ≫= λ e, (λ id, (pe_tenant e, pe_revision e, id)) <$> ac_targets (pe_accepted e);
  tb_increasing : StronglySorted (λ e e', pe_tenant e = pe_tenant e' → pe_revision e < pe_revision e') log;
}.

Lemma highest_revision_bound tenant rows row :
  row ∈ rows → row_tenant row = tenant → row_revision row ≤ highest_revision tenant rows.
Proof.
  intros Hin Ht. induction rows as [|r rows IH]; [by apply elem_of_nil in Hin |]. cbn [highest_revision foldr].
  fold (highest_revision tenant rows). apply elem_of_cons in Hin as [<- | Hin].
  - rewrite bool_decide_eq_true_2 by done. lia.
  - specialize (IH Hin). case_bool_decide; lia.
Qed.

Lemma StronglySorted_snoc {A} (R : A → A → Prop) l x :
  StronglySorted R l → (∀ y, y ∈ l → R y x) → StronglySorted R (l ++ [x]).
Proof.
  induction l as [|y l IH]; cbn; intros Hs Hall; [by repeat constructor |]. apply StronglySorted_inv in Hs as [Hs Hy].
  constructor; [apply IH; [done | intros z Hz; apply Hall; by right] |].
  apply Forall_app. split; [done |]. constructor; [apply Hall; by left | constructor].
Qed.

Lemma reach_tabled t log : policies_reach t log → tabled t log.
Proof.
  induction 1 as [| t log id tenant state _ [H1 H2 H3 H4] _ | t log id tenant state state' _ [H1 H2 H3 H4] _
    | t log asked signers actor at_ accepted t' record _ [H1 H2 H3 H4] Hacc Hpub]; try by split.
  - split; try done; [by intros ? ?%elem_of_nil | constructor].
  - unfold policies_Publish in Hpub. destruct (_ <=? _) eqn:Hstale; [done |]. destruct (negb _); [done |].
    injection Hpub as <- _. to_prop. split; cbn.
    + intros e [He | ->%list_elem_of_singleton]%elem_of_app; [by apply H1 | by exists actor].
    + by rewrite fmap_app, H2.
    + rewrite bind_app, H3. cbn. by rewrite app_nil_r.
    + apply StronglySorted_snoc; [done |]. intros e He Ht.
      assert (pe_revision e ≤ highest_revision (pr_tenant (ac_record accepted)) (ag_policies t)); [| unfold pe_revision in *; cbn in *; lia].
      apply (highest_revision_bound _ _ (pe_row e)); [rewrite H2; by apply list_elem_of_fmap_2 | done].
Qed.

(** *** The newest row *)

Lemma newest_row_spec rows : ∀ best,
  match foldl (λ best row, match best with
    | None => Some row
    | Some held => if row_revision held <? row_revision row then Some row else best
    end) best rows with
  | None => best = None ∧ rows = []
  | Some row => (best = Some row ∨ row ∈ rows) ∧ (∀ held, best = Some held → row_revision held ≤ row_revision row)
      ∧ ∀ other, other ∈ rows → row_revision other ≤ row_revision row
  end.
Proof.
  induction rows as [|r rows IH]; intros best; cbn [foldl].
  { destruct best as [b|]; [| done]. split_and!; [by left | intros ? [= ->]; lia | by intros ? ?%elem_of_nil]. }
  set (next := match best with None => Some r | Some held => _ end). specialize (IH next).
  assert (∃ n, next = Some n ∧ row_revision r ≤ row_revision n ∧ (best = Some n ∨ n = r)
    ∧ ∀ held, best = Some held → row_revision held ≤ row_revision n) as (n & Hn & Hr & Hcase & Hb).
  { unfold next. destruct best as [b|]; [| exists r; split_and!; [done | lia | by right | done]].
    destruct (_ <? _) eqn:Hlt; to_prop; [exists r | exists b]; split_and!; try done; try lia; try (by left); try (by right);
      intros ? [= <-]; lia. }
  rewrite Hn in IH |- *. destruct (foldl _ _ rows) as [row|]; [| by destruct IH as [? _]].
  destruct IH as (Hin & Hheld & Hall). specialize (Hheld n eq_refl). split; [| split].
  - destruct Hin as [[= <-] | Hin]; [destruct Hcase as [-> | ->]; [by left | right; by left] | right; by right].
  - intros held Hh. specialize (Hb held Hh). lia.
  - intros other [-> | Ho]%elem_of_cons; [lia | by apply Hall].
Qed.

Lemma newest_among rows :
  match newest_row rows with
  | None => rows = []
  | Some row => row ∈ rows ∧ ∀ other, other ∈ rows → row_revision other ≤ row_revision row
  end.
Proof.
  pose proof (newest_row_spec rows None) as Hspec. unfold newest_row.
  destruct (foldl _ None rows) as [row|]; [| by destruct Hspec]. destruct Hspec as ([? | ?] & _ & ?); [done | by split].
Qed.

(** *** The rows that name an agent *)

Lemma naming_spec t log tenant id row : tabled t log →
  row ∈ naming t tenant id ↔
  ∃ e e', e ∈ log ∧ e' ∈ log ∧ pe_tenant e = tenant ∧ id ∈ ac_targets (pe_accepted e)
    ∧ pe_tenant e' = tenant ∧ pe_revision e' = pe_revision e ∧ row = pe_row e'.
Proof.
  intros [_ Hrows Htargets _]. unfold naming. rewrite list_elem_of_bind. split.
  - intros (target & Hrow & Htarget). rewrite Htargets in Htarget.
    apply list_elem_of_bind in Htarget as (e & (i & -> & Hi)%list_elem_of_fmap & He). cbn in Hrow.
    destruct (bool_decide (i = id) && bool_decide (pe_tenant e = tenant)) eqn:Hsame; [| by apply elem_of_nil in Hrow].
    apply andb_true_iff in Hsame as [H1 H2]. to_prop. subst i. apply list_elem_of_filter in Hrow as [[Ht Hr] Hrow].
    rewrite Hrows in Hrow. apply list_elem_of_fmap in Hrow as (e' & -> & He'). by exists e, e'.
  - intros (e & e' & He & He' & Ht & Hid & Ht' & Hr & ->). exists (pe_tenant e, pe_revision e, id). cbn. split.
    + rewrite !bool_decide_eq_true_2 by done. cbn [andb]. apply list_elem_of_filter. split; [by split |].
      rewrite Hrows. by apply list_elem_of_fmap_2.
    + rewrite Htargets. apply list_elem_of_bind. exists e. split; [| done]. apply list_elem_of_fmap. by exists id.
Qed.

Lemma one_revision_each t log e e' : tabled t log → e ∈ log → e' ∈ log →
  pe_tenant e = pe_tenant e' → pe_revision e = pe_revision e' → e = e'.
Proof.
  intros [_ _ _ Hsorted] He He' Ht Hr. induction log as [|x log IH]; [by apply elem_of_nil in He |].
  apply StronglySorted_inv in Hsorted as [Hs Hx]. rewrite Forall_forall in Hx.
  apply elem_of_cons in He as [-> | He], He' as [-> | He']; [done | | | by apply IH].
  - specialize (Hx e' He' Ht). lia.
  - specialize (Hx e He (eq_sym Ht)). lia.
Qed.

(** *** Accepting *)

Lemma policy_signature_signer signers digest signature : ∀ signed id,
  id ∈ policy_signature signers digest signed signature →
  id ∈ signed ∨ ∃ key, (id, key) ∈ signers ∧ VerifyASN1 key digest (sg_sig signature) = true.
Proof.
  unfold policy_signature. induction signers as [|[i key] signers IH]; intros signed id; cbn [foldl fst snd]; [by left |].
  intros [Hin | (k & Hk & Hv)]%IH; [| right; exists k; split; [by right | done]].
  destruct (negb _ && VerifyASN1 key digest (sg_sig signature)) eqn:Hok; [| by left].
  apply elem_of_app in Hin as [Hin | ->%list_elem_of_singleton]; [by left | right]. exists key.
  apply andb_true_iff in Hok as [_ Hok]. split; [by left | done].
Qed.

Lemma signatures_signed signers digest signatures : ∀ signed id,
  id ∈ foldl (policy_signature signers digest) signed signatures →
  id ∈ signed ∨ ∃ key signature, (id, key) ∈ signers ∧ signature ∈ signatures ∧ VerifyASN1 key digest (sg_sig signature) = true.
Proof.
  induction signatures as [|s signatures IH]; intros signed id; cbn [foldl]; [by left |].
  intros [Hin | (key & s' & Hk & Hs & Hv)]%IH.
  - apply policy_signature_signer in Hin as [? | (key & Hk & Hv)]; [by left | right].
    exists key, s. split_and!; [done | by left | done].
  - right. exists key, s'. split_and!; [done | by right | done].
Qed.

(** What stands behind a policy that was accepted. *)
Definition stands_behind (asked : Publication) (signers : Signers) (at_ : instant) (accepted : Accepted)
    (envelope : Envelope) (policy : AgentPolicy) : Prop :=
  pu_policy asked = Some envelope
  ∧ (∃ signer signature, signer ∈ signers ∧ signature ∈ env_signatures envelope
       ∧ VerifyASN1 signer.2 (sha256 (PAE PolicyPayloadType (env_payload envelope))) (sg_sig signature) = true)
  ∧ (∃ reflected, unmarshal_policy (env_payload envelope) = Some (policy, reflected) ∧ known_message reflected = true)
  ∧ policy_Validate policy at_ = None
  ∧ marshal_signed envelope = Some (ac_served accepted).

Lemma policy_Verify_spec signers envelope verified :
  policy_Verify signers envelope = Ok verified →
  (∃ signer signature, signer ∈ signers ∧ signature ∈ env_signatures envelope
     ∧ VerifyASN1 signer.2 (sha256 (PAE PolicyPayloadType (env_payload envelope))) (sg_sig signature) = true)
  ∧ ∃ reflected, unmarshal_policy (env_payload envelope) = Some (vf_policy verified, reflected) ∧ known_message reflected = true.
Proof.
  unfold policy_Verify. destruct (negb (bool_decide _)); [done |]. case_bool_decide; [done |].
  destruct (MaxPayloadBytes <? _); [done |]. destruct (len (env_signatures envelope) =? 0); [done |].
  destruct (MaxPolicySignatures <? _); [done |].
  destruct (foldl _ [] (env_signatures envelope)) as [|id signed] eqn:Hsigned; [done |].
  rewrite (proj2 (Z.eqb_neq _ _)) by (unfold len; cbn; lia).
  destruct (unmarshal_policy _) as [[policy reflected]|]; [| done]. destruct (known_message reflected) eqn:Hknown; [| done].
  intros [= <-]. split; [| by exists reflected].
  destruct (signatures_signed signers (sha256 (PAE PolicyPayloadType (env_payload envelope))) (env_signatures envelope) [] id)
    as [Hnil | (key & signature & Hk & Hs & Hv)]; [rewrite Hsigned; by left | by apply elem_of_nil in Hnil |].
  by exists (id, key), signature.
Qed.

Lemma Accept_spec asked signers actor at_ accepted :
  Accept asked signers actor at_ = Ok accepted →
  ∃ envelope policy, stands_behind asked signers at_ accepted envelope policy
    ∧ pe_tenant (mkPublishing asked signers at_ accepted) = pu_tenant asked
    ∧ pe_revision (mkPublishing asked signers at_ accepted) = po_revision policy
    ∧ ac_targets accepted = po_targets policy
    ∧ pr_digest (ac_record accepted) = UpdateDigest (ac_served accepted).
Proof.
  unfold Accept. case_bool_decide; [done |]. destruct (_ || _); [done |]. destruct (MaxNoteLength <? _); [done |].
  destruct (pu_policy asked) as [envelope|] eqn:Hasked; [| done].
  destruct (policy_Verify signers envelope) as [verified|] eqn:Hverify; [| done].
  destruct (policy_Validate (vf_policy verified) at_) eqn:Hvalid; [done |].
  destruct (marshal_signed envelope) as [served|] eqn:Hserved; [| done]. destruct (MaxPolicyEnvelope <? _); [done |].
  intros [= <-]. exists envelope, (vf_policy verified). split; [| done]. apply policy_Verify_spec in Hverify as (Hsig & Hread).
  by split_and!.
Qed.

(** C38. Whatever agents are registered and moved and whatever is published, in any
    order, an agent is handed the envelope of the newest revision of its tenant that
    names it, byte for byte as it was recorded, with its digest: a policy whose payload
    one of the signers of its day signed and that was valid when it was published. An
    agent handed none is one no publication of its tenant names. *)
Theorem an_agent_is_handed_its_newest_policy t log id s :
  policies_reach t log → policies_Served id t = Ok s →
  ∃ tenant, ag_agents t !! id = Some (tenant, sp_state s) ∧
  match sp_held s with
  | None => ∀ e, e ∈ log → pe_tenant e = tenant → id ∉ ac_targets (pe_accepted e)
  | Some (revision, bytes, digest) =>
      ∃ e envelope policy, e ∈ log ∧ pu_tenant (pe_asked e) = tenant
        ∧ stands_behind (pe_asked e) (pe_signers e) (pe_at e) (pe_accepted e) envelope policy
        ∧ id ∈ po_targets policy ∧ po_revision policy = revision
        ∧ marshal_signed envelope = Some bytes ∧ digest = UpdateDigest bytes
        ∧ ∀ other, other ∈ log → pe_tenant other = tenant → id ∈ ac_targets (pe_accepted other) →
            other = e ∨ pe_revision other < revision
  end.
Proof.
  intros Hreach%reach_tabled. unfold policies_Served. destruct (ag_agents t !! id) as [[tenant state]|] eqn:Hagent; [| done].
  intros [= <-]. exists tenant. split; [done |]. cbn [sp_held]. pose proof (newest_among (naming t tenant id)) as Hnewest.
  destruct (newest_row (naming t tenant id)) as [row|]; cbn [fmap option_fmap option_map].
  - destruct Hnewest as [Hrow Hall]. apply (naming_spec t log) in Hrow as (e & e' & He & He' & Ht & Hid & Ht' & Hr & ->); [| done].
    assert (e' = e) as -> by (eapply one_revision_each; [done.. | congruence | done]).
    destruct (tb_accepted t log Hreach e He) as [actor Haccept]. pose proof (Accept_spec _ _ _ _ _ Haccept) as Hspec.
    destruct Hspec as (envelope & policy & Hstands & Htenant & Hrevision & Htargets & Hdigest).
    exists e, envelope, policy. destruct e as [asked signers at_ accepted]. cbn in *.
    pose proof Hstands as (_ & _ & _ & _ & Hmarshal). split_and!; try done; [congruence | congruence |].
    intros other Ho Hto Hido. destruct (decide (pe_revision other = pe_revision (mkPublishing asked signers at_ accepted))) as [Heq | Hne].
    + left. eapply one_revision_each; [done.. | congruence | done].
    + right. specialize (Hall (pe_row other)). change (row_revision (pe_row other)) with (pe_revision other) in Hall.
      unfold row_revision, pe_revision in *. cbn in *. assert (pr_revision (ac_record (pe_accepted other)) ≤ pr_revision (ac_record accepted)); [| lia].
      apply Hall. apply (naming_spec t log); [done |]. by exists other, other.
  - intros e He Ht Hid. assert (pe_row e ∈ naming t tenant id) as Hin.
    { apply (naming_spec t log); [done |]. by exists e, e. }
    rewrite Hnewest in Hin. by apply elem_of_nil in Hin.
Qed.
End served.
