(* ===== verification/Status.v ===== *)
(** * What agents report of themselves, and whether they are alive

    agentstatus/validate.go, limits.go and liveness.go. What generated code declares of
    conditions and stages and the bytes a report encodes to are parameters; a
    violation's prose is a constructor. *)

From Stdlib Require Import ZArith Lia Ascii.
From stdpp Require Import base tactics option gmap strings pretty numbers list.
From S2P Require Import Prelude Text Scan Hex Agent Event Canonical Assessment Trust Policy.

(** ** The report *)

Record StatusRun := mkStatusRun {
  sr_boot : string; sr_started : option WireTime; sr_ending : Z; sr_seen : option WireTime; sr_reason : string;
}.
Record StatusBuild := mkStatusBuild {
  sb_version : string; sb_revision : string; sb_toolchain : string; sb_os : string; sb_architecture : string;
}.
Record StatusPart := mkStatusPart { sp_name : string; sp_condition : Z; sp_since : option WireTime; sp_reason : string }.
Record StatusStream := mkStatusStream {
  ss_name : string; ss_oldest : option WireTime; ss_delivered : option WireTime; ss_paused : option WireTime;
  ss_failing : option WireTime;
}.
Record StatusCredential := mkStatusCredential {
  sc_not_after : option WireTime; sc_renews : option WireTime; sc_failing : option WireTime;
}.
Record StatusConfiguration := mkStatusConfiguration { sf_digest : string; sf_policy : string; sf_expires : option WireTime }.
Record StatusPrivileges := mkStatusPrivileges {
  sv_user : string; sv_groups : list string; sv_capabilities : list string; sv_seccomp : string;
}.
Record StatusUpdate := mkStatusUpdate {
  su_stage : Z; su_version : string; su_since : option WireTime; su_failure : Z; su_reason : string;
}.
Record StatusCompatibility := mkStatusCompatibility { sy_contracts : string; sy_format : option Z }.
Record AgentStatus := mkAgentStatus {
  st_schema : Z; st_installation : string; st_sequence : Z; st_reported : option WireTime; st_interval : option WireDuration;
  st_origin : option OriginPart; st_run : option StatusRun; st_build : option StatusBuild; st_condition : Z;
  st_components : list StatusPart; st_modules : list StatusPart; st_spool : option (list StatusStream);
  st_credential : option StatusCredential; st_configuration : option StatusConfiguration;
  st_privileges : option StatusPrivileges; st_update : option StatusUpdate; st_compatibility : option StatusCompatibility;
}.

Class StatusContract := {
  Condition_named : Z → bool; CONDITION_STOPPED : Z;
  Ending_named : Z → bool; Update_Stage_named : Z → bool; Update_Failure_named : Z → bool; Format_named : Z → bool;
  status_Size : AgentStatus → Z;
}.

(** ** Bounds (limits.go) *)

Definition MaxReportBytes : Z := 983040.
Definition MinInterval : duration := 10 * second.
Definition MaxInterval : duration := hour.
Definition MaxBootIDLength : Z := 64.
Definition MaxPartName : Z := 64.
Definition MaxReasonLength : Z := 1024.
Definition MaxReportedVersion : Z := 128.
Definition MaxRevisionLength : Z := 64.
Definition MaxToolchainLength : Z := 32.
Definition MaxReportedPlatform : Z := 32.
Definition MaxPolicyIDLength : Z := 64.
Definition MaxAccountLength : Z := 64.
Definition MaxCapabilityLength : Z := 32.
Definition MaxSeccompLength : Z := 32.
Definition MaxComponents : Z := 32.
Definition MaxModules : Z := 32.
Definition MaxStreams : Z := 8.
Definition MaxGroups : Z := 64.
Definition MaxCapabilities : Z := 64.
Definition Allowance : Z := 2.
Definition Silence : Z := 5.

(** ** Violations *)

Inductive StatusReason := StatusOf (reason : EventReason) | NoSequence | NotADurationThere | OutsideIntervals | CarriesTooMany
| NotALowercaseDigest.
Record StatusViolation := mkStatusViolation { stv_field : string; stv_reason : StatusReason }.
Abbreviation status_checked := (result StatusViolation unit).
Definition misreports (field : string) (reason : StatusReason) : status_checked := Err (mkStatusViolation field reason).
Definition status_lift (r : event_checked) : status_checked :=
  match r with Ok u => Ok u | Err v => misreports (ev_field v) (StatusOf (ev_reason v)) end.

Definition status_text (field value : string) (maximum : Z) (needed : bool) : status_checked :=
  status_lift (event_text field value maximum needed).
Definition status_optional (field : string) (instant : option WireTime) : status_checked :=
  match instant with
  | Some t => if negb (IsValid t) then misreports field (StatusOf NotAnInstant) else Ok tt
  | None => Ok tt
  end.
Definition status_required (field : string) (instant : option WireTime) : status_checked :=
  match instant with None => misreports field (StatusOf IsMissing) | Some _ => status_optional field instant end.
Definition status_named (field : string) (value : Z) (named : Z → bool) : status_checked :=
  if negb (named value) then misreports field (StatusOf NotDeclared) else Ok tt.
Definition status_declared (field : string) (value : Z) (named : Z → bool) : status_checked :=
  if value =? 0 then misreports field (StatusOf IsUnspecified) else status_named field value named.

Definition lowercaseDigest (value : string) : bool :=
  if negb (slen value =? 64) then false
  else match hex_decode value with Some decoded => bool_decide (hex_encode decoded = value) | None => false end.

Definition status_listed (field : string) (values : list string) (most longest : Z) : status_checked :=
  if most <? len values then misreports field CarriesTooMany
  else each (λ index value, status_text (field +:+ "[" +:+ pretty index +:+ "]") value longest true) values.

Definition status_interval (announced : option WireDuration) : status_checked :=
  match announced with
  | None => misreports "interval" (StatusOf IsMissing)
  | Some announced =>
      if negb (duration_IsValid announced) then misreports "interval" NotADurationThere
      else
        let every := duration_AsDuration announced in
        if (every <? MinInterval) || (MaxInterval <? every) then misreports "interval" OutsideIntervals else Ok tt
  end.

Section status.
Context `{EventContract, StatusContract}.

Definition validateRun (run : option StatusRun) : status_checked :=
  match run with
  | None => misreports "run" (StatusOf IsMissing)
  | Some r =>
      (status_text "run.boot_id" (sr_boot r) MaxBootIDLength false ;;
       status_required "run.started_at" (sr_started r) ;;
       status_named "run.previous_ending" (sr_ending r) Ending_named ;;
       status_optional "run.previous_seen_at" (sr_seen r) ;;
       status_text "run.previous_reason" (sr_reason r) MaxReasonLength false)%go
  end.

Definition validateBuild (build : option StatusBuild) : status_checked :=
  match build with
  | None => misreports "build" (StatusOf IsMissing)
  | Some b =>
      (status_text "build.version" (sb_version b) MaxReportedVersion true ;;
       status_text "build.revision" (sb_revision b) MaxRevisionLength false ;;
       status_text "build.toolchain" (sb_toolchain b) MaxToolchainLength false ;;
       status_text "build.os" (sb_os b) MaxReportedPlatform false ;;
       status_text "build.architecture" (sb_architecture b) MaxReportedPlatform false)%go
  end.

Definition status_part (field : string) (p : StatusPart) : status_checked :=
  (status_text (field +:+ ".name") (sp_name p) MaxPartName true ;;
   status_declared (field +:+ ".condition") (sp_condition p) Condition_named ;;
   status_optional (field +:+ ".since") (sp_since p) ;;
   status_text (field +:+ ".reason") (sp_reason p) MaxReasonLength false)%go.

Definition validateComponents (components : list StatusPart) : status_checked :=
  if MaxComponents <? len components then misreports "components" CarriesTooMany
  else each (λ index p, status_part ("components[" +:+ pretty index +:+ "]") p) components.

Definition validateModules (modules : list StatusPart) : status_checked :=
  if MaxModules <? len modules then misreports "modules" CarriesTooMany
  else each (λ index p, status_part ("modules[" +:+ pretty index +:+ "]") p) modules.

Definition validateSpool (spool : option (list StatusStream)) : status_checked :=
  match spool with
  | None => misreports "spool" (StatusOf IsMissing)
  | Some streams =>
      if MaxStreams <? len streams then misreports "spool.streams" CarriesTooMany
      else each (λ index s,
        let field := "spool.streams[" +:+ pretty index +:+ "]" in
        (status_text (field +:+ ".name") (ss_name s) MaxPartName true ;;
         status_optional (field +:+ ".oldest_admitted") (ss_oldest s) ;;
         status_optional (field +:+ ".last_delivered") (ss_delivered s) ;;
         status_optional (field +:+ ".paused_since") (ss_paused s) ;;
         status_optional (field +:+ ".failing_since") (ss_failing s))%go) streams
  end.

Definition validateCredential (credential : option StatusCredential) : status_checked :=
  match credential with
  | None => Ok tt
  | Some c =>
      (status_required "credential.not_after" (sc_not_after c) ;;
       status_optional "credential.renews_at" (sc_renews c) ;;
       status_optional "credential.renewal_failing_since" (sc_failing c))%go
  end.

Definition validateConfiguration (configuration : option StatusConfiguration) : status_checked :=
  match configuration with
  | None => misreports "configuration" (StatusOf IsMissing)
  | Some c =>
      ((if negb (lowercaseDigest (sf_digest c)) then misreports "configuration.digest_sha256" NotALowercaseDigest else Ok tt) ;;
       status_text "configuration.policy_id" (sf_policy c) MaxPolicyIDLength false ;;
       status_optional "configuration.policy_expires_at" (sf_expires c))%go
  end.

Definition validatePrivileges (privileges : option StatusPrivileges) : status_checked :=
  match privileges with
  | None => misreports "privileges" (StatusOf IsMissing)
  | Some p =>
      (status_text "privileges.user" (sv_user p) MaxAccountLength true ;;
       status_listed "privileges.groups" (sv_groups p) MaxGroups MaxAccountLength ;;
       status_listed "privileges.capabilities" (sv_capabilities p) MaxCapabilities MaxCapabilityLength ;;
       status_text "privileges.seccomp" (sv_seccomp p) MaxSeccompLength false)%go
  end.

Definition validateUpdate (update : option StatusUpdate) : status_checked :=
  match update with
  | None => Ok tt
  | Some u =>
      (status_declared "update.stage" (su_stage u) Update_Stage_named ;;
       status_text "update.version" (su_version u) MaxReportedVersion true ;;
       status_required "update.since" (su_since u) ;;
       status_named "update.failure" (su_failure u) Update_Failure_named ;;
       status_text "update.reason" (su_reason u) MaxReasonLength false)%go
  end.

Definition validateCompatibility (compatibility : option StatusCompatibility) : status_checked :=
  match compatibility with
  | None => Ok tt
  | Some c =>
      (status_text "compatibility.contracts" (sy_contracts c) MaxReportedVersion false ;;
       match sy_format c with
       | Some format => status_named "compatibility.updates.format" format Format_named
       | None => Ok tt
       end)%go
  end.

Definition status_ValidateContract (report : option AgentStatus) : status_checked :=
  match report with
  | None => misreports "report" (StatusOf IsMissing)
  | Some r =>
      ((if (st_schema r <? MinSchemaVersion) || (MaxSchemaVersion <? st_schema r)
        then misreports "schema_version" (StatusOf OutsideVersions) else Ok tt) ;;
       (if negb (ValidIdentifier (st_installation r)) then misreports "installation_id" (StatusOf IsMalformed) else Ok tt) ;;
       (if st_sequence r =? 0 then misreports "sequence" NoSequence else Ok tt) ;;
       status_required "reported_at" (st_reported r) ;;
       status_interval (st_interval r) ;;
       status_lift (ValidateOrigin (st_origin r)) ;;
       validateRun (st_run r) ;;
       validateBuild (st_build r) ;;
       status_declared "condition" (st_condition r) Condition_named ;;
       validateComponents (st_components r) ;;
       validateModules (st_modules r) ;;
       validateSpool (st_spool r) ;;
       validateCredential (st_credential r) ;;
       validateConfiguration (st_configuration r) ;;
       validatePrivileges (st_privileges r) ;;
       validateUpdate (st_update r) ;;
       validateCompatibility (st_compatibility r))%go
  end.

Definition status_Validate (report : AgentStatus) (now : instant) (p : EventPolicy) : status_checked :=
  (status_ValidateContract (Some report) ;;
   (if MaxReportBytes <? status_Size report then misreports "report" (StatusOf EncodesTooLong) else Ok tt) ;;
   status_lift (withinWindow "reported_at" (times_at (st_reported report)) now p))%go.

(** ** Liveness (liveness.go) *)

Inductive Liveness := LIVENESS_UNSPECIFIED | LIVENESS_STOPPED | LIVENESS_ACTIVE | LIVENESS_LATE | LIVENESS_SILENT.
#[global] Instance Liveness_eq_dec : EqDecision Liveness.
Proof. solve_decision. Defined.

Record HeardReport := mkHeardReport { rp_received : instant; rp_status : option AgentStatus }.

(** [AsDuration] of an interval that is not there is zero. *)
Definition announced_interval (s : AgentStatus) : duration :=
  duration_AsDuration (default (mkWireDuration 0 0) (st_interval s)).

Definition report_Liveness (r : HeardReport) (now : instant) : Liveness :=
  match rp_status r with
  | None => LIVENESS_UNSPECIFIED
  | Some s =>
      if is_zero (rp_received r) then LIVENESS_UNSPECIFIED
      else if st_condition s =? CONDITION_STOPPED then LIVENESS_STOPPED
      else
        let every := Z.min (Z.max (announced_interval s) MinInterval) MaxInterval in
        let late := time_sub now (rp_received r) in
        if late <=? int64 (Allowance * every) then LIVENESS_ACTIVE
        else if late <=? int64 (Silence * every) then LIVENESS_LATE
        else LIVENESS_SILENT
  end.

(** ** When an agent counts as what *)

Lemma status_interval_ok s : status_interval (st_interval s) = Ok tt → MinInterval ≤ announced_interval s ≤ MaxInterval.
Proof.
  unfold status_interval, announced_interval. destruct (st_interval s) as [announced|]; [| done].
  change (default _ (Some announced)) with announced. destruct (negb _); [done |]. destruct (_ || _) eqn:Hout; [done |]. intros _. apply orb_false_iff in Hout as [? ?]. to_prop. lia.
Qed.

Lemma go_then {E} (m k : result E unit) : (m ;; k)%go = Ok tt → m = Ok tt ∧ k = Ok tt.
Proof. destruct m as [[]|e]; cbn; [done | done]. Qed.

Lemma status_ValidateContract_interval s : status_ValidateContract (Some s) = Ok tt → status_interval (st_interval s) = Ok tt.
Proof.
  cbn [status_ValidateContract]. intros [_ H1]%go_then. apply go_then in H1 as [_ H1]. apply go_then in H1 as [_ H1].
  apply go_then in H1 as [_ H1]. by apply go_then in H1 as [? _].
Qed.

Lemma late_by now received bound :
  - 9223372036854775808 < bound < 9223372036854775807 → (time_sub now received <=? bound) = (now <=? received + bound).
Proof.
  intros Hb. unfold time_sub, max_duration, min_duration. change (2 ^ 63) with 9223372036854775808.
  apply eq_true_iff_eq. rewrite !Z.leb_le. lia.
Qed.

Lemma waits_fit every times : MinInterval ≤ every ≤ MaxInterval → 0 < times ≤ 5 →
  int64 (times * every) = times * every ∧ 0 < times * every < 9223372036854775807.
Proof.
  intros Hev Ht. unfold MinInterval, MaxInterval, hour, minute, second in *.
  assert (0 < times * every ≤ 5 * 3600000000000) as Hp by nia.
  split; [apply int64_id; change (2 ^ 63) with 9223372036854775808; lia | lia].
Qed.

(** What the platform says of an agent it holds a report from: the clocks are read in the
    integers, with nothing saturated, wrapped or brought within bounds. *)
Definition liveness_spec (stopped : bool) (received every now : Z) : Liveness :=
  if stopped then LIVENESS_STOPPED
  else if now <=? received + 2 * every then LIVENESS_ACTIVE
  else if now <=? received + 5 * every then LIVENESS_LATE
  else LIVENESS_SILENT.

(** How far an agent is from being heard. *)
Definition liveness_rank (l : Liveness) : Z :=
  match l with LIVENESS_ACTIVE => 0 | LIVENESS_LATE => 1 | LIVENESS_SILENT => 2 | _ => 3 end.

Lemma report_Liveness_spec s received now :
  status_ValidateContract (Some s) = Ok tt → received ≠ 0 →
  report_Liveness (mkHeardReport received (Some s)) now
  = liveness_spec (st_condition s =? CONDITION_STOPPED) received (announced_interval s) now.
Proof.
  intros Hok%status_ValidateContract_interval%status_interval_ok Hrec.
  unfold report_Liveness, liveness_spec, is_zero. cbn [rp_status rp_received].
  rewrite (proj2 (Z.eqb_neq _ _) Hrec). destruct (st_condition s =? CONDITION_STOPPED); [done |].
  rewrite (Z.max_l _ MinInterval) by lia. rewrite (Z.min_l _ MaxInterval) by lia.
  destruct (waits_fit _ Allowance Hok ltac:(unfold Allowance; lia)) as [-> Ha].
  destruct (waits_fit _ Silence Hok ltac:(unfold Silence; lia)) as [-> Hs].
  rewrite !late_by by lia. unfold Allowance, Silence. done.
Qed.

Lemma liveness_spec_monotone stopped received every now later :
  0 ≤ every → now ≤ later → liveness_rank (liveness_spec stopped received every now) ≤ liveness_rank (liveness_spec stopped received every later).
Proof. intros Hev Hle. unfold liveness_spec. destruct stopped; [done |]. repeat case_match; to_prop; cbn; lia. Qed.

(** Whether an agent is alive is read off the platform's own clock. For a report that
    passed validation, the saturating subtraction of times, the 64-bit products and the clamp
    of the announced interval change nothing: an agent that said it was stopping is stopped at
    every later time; any other is active through twice the interval it announced after its
    report arrived, late through five times, and silent from then on. Without a new report
    an agent never becomes more alive, and a later time written into the report's own
    [reported_at] changes nothing. *)
Theorem silence_is_measured_from_arrival s received :
  status_ValidateContract (Some s) = Ok tt → received ≠ 0 →
  (∀ now, report_Liveness (mkHeardReport received (Some s)) now
          = liveness_spec (st_condition s =? CONDITION_STOPPED) received (announced_interval s) now) ∧
  (∀ now later, now ≤ later →
     liveness_rank (report_Liveness (mkHeardReport received (Some s)) now)
     ≤ liveness_rank (report_Liveness (mkHeardReport received (Some s)) later)) ∧
  (∀ s' now, st_condition s' = st_condition s → st_interval s' = st_interval s →
     report_Liveness (mkHeardReport received (Some s')) now = report_Liveness (mkHeardReport received (Some s)) now).
Proof.
  intros Hok Hrec. split_and!.
  - intros now. by apply report_Liveness_spec.
  - intros now later Hle. rewrite !report_Liveness_spec by done.
    apply status_ValidateContract_interval, status_interval_ok in Hok.
    apply liveness_spec_monotone; [unfold MinInterval, second in Hok; lia | done].
  - intros s' now Hc Hi. unfold report_Liveness, announced_interval. cbn [rp_status rp_received]. by rewrite Hc, Hi.
Qed.

End status.
