(* ===== verification/SampleUpdates.v ===== *)
(** * Concrete roots, catalogs and rollouts

    Toy signatures and a toy wire format, and inputs at which the theorems about
    updates hold with every hypothesis met. *)

From Stdlib Require Import ZArith Lia Ascii Floats.SpecFloat.
From stdpp Require Import base tactics option gmap strings pretty sorting numbers list sets relations.
From S2P Require Import Prelude Text Scan Version Hex Bytes Rule Contract Agent Trust Releases Rollout RolloutStore RolloutSystem Authz Session Limiter.


(** ** Signatures and messages *)

#[global] Instance toy_signing : Signing := {|
  PublicKey := string;
  sha256 := λ s, s;
  VerifyASN1 := λ key digest sig, bool_decide (sig = key +:+ digest);
  ParsePKIXPublicKey := λ der, Some (Some der);
|}.

Definition signed_with (key type payload : string) : Signature :=
  mkSignature (key +:+ PAE type payload) (KeyID key).

Definition named (key : string) : NamedKey := mkNamedKey (KeyID key) key.

Definition sample_root (version : Z) (keys : list string) : RootMessage :=
  mkRootMessage 1 version (Some 0) (Some (1000 * second)) (named <$> keys)
    (Some (mkKeyRole (KeyID <$> keys) 2)) (Some (mkKeyRole (KeyID <$> take 1 keys) 1)).

Definition envelope_of (type payload : string) (keys : list string) : Envelope :=
  mkEnvelope payload type ((λ key, signed_with key type payload) <$> keys).

Definition sample_release : Release :=
  mkRelease "v1.2.0" (mkUpdatePlatform "linux" "amd64" 1) (Nat.iter 32 (String "a") "") 10
    "github.com/acme/agent" (Nat.iter 40 (String "a") "") "v1.0.0" 1 ["v1.3.0"].

Definition sample_catalog : CatalogMessage :=
  mkCatalogMessage 1 1 (Some 0) (Some (1000 * second)) [sample_release].

Definition empty_message : Proto := mkProto "" [].

#[global] Instance toy_wire : UpdateWire := {|
  unmarshal_envelope := λ served,
    if bool_decide (served = "anchor") then Some (envelope_of RootPayloadType "root 1" ["k1"; "k2"])
    else if bool_decide (served = "next") then Some (envelope_of RootPayloadType "root 2" ["k1"; "k2"; "k3"])
    else None;
  marshal_envelope := λ e, Some (env_payload e);
  unmarshal_root := λ payload,
    if bool_decide (payload = "root 1") then Some (sample_root 1 ["k1"; "k2"], empty_message)
    else if bool_decide (payload = "root 2") then Some (sample_root 2 ["k2"; "k3"], empty_message)
    else None;
  unmarshal_catalog := λ payload,
    if bool_decide (payload = "catalog") then Some (sample_catalog, empty_message) else None;
  marshal_offer := λ o, Some (of_version o);
  Format_name := λ n, if (n =? 1)%Z then "FORMAT_TAR" else "";
|}.

#[global] Instance toy_wire_laws : UpdateWireLaws toy_wire.
Proof.
  split.
  - intros payload root reflected. cbn. repeat case_bool_decide; intros [= <- <-] || done; cbn; lia.
  - intros payload catalog reflected. cbn. case_bool_decide; intros [= <- <-] || done; cbn; lia.
Qed.

Definition sample_now : instant := 10 * second.

Definition root_or (r : result UpdateError Root) : Root :=
  match r with Ok r => r | Err _ => mkRoot (sample_root 0 []) "" ∅ [] end.

Definition anchored : Root := root_or (Anchor "anchor" sample_now).
Definition walked : Root := root_or (Walk anchored ["next"] sample_now).

Lemma anchored_ok : Anchor "anchor" sample_now = Ok anchored.
Proof. vm_compute. reflexivity. Qed.
Lemma walked_ok : Walk anchored ["next"] sample_now = Ok walked.
Proof. vm_compute. reflexivity. Qed.

(** ** Witnesses: trust *)

Lemma a_chain_of_roots_is_vouched_for_witness : sound_root walked ∧ root_Version walked = 2.
Proof.
  destruct (a_chain_of_roots_is_vouched_for "anchor" ["next"] anchored walked sample_now
    anchored_ok walked_ok) as (Hs & Hv & _).
  split; [exact Hs | rewrite Hv; reflexivity].
Defined.

Definition root_envelope : Envelope := envelope_of RootPayloadType "root 1" ["k1"; "k2"].

Lemma a_threshold_is_distinct_keys_witness :
  GetThreshold (rm_root (root_message anchored)) ≤ len (root_signedBy anchored).
Proof.
  apply (a_threshold_is_distinct_keys (root_keys anchored) (rm_root (root_message anchored)) RootPayloadType
    root_envelope (root_signedBy anchored)); vm_compute; reflexivity.
Defined.

Definition catalog_envelope : Envelope := envelope_of CatalogPayloadType "catalog" ["k2"].

Definition catalog_or (r : result UpdateError Catalog) : Catalog :=
  match r with Ok c => c | Err _ => mkCatalog sample_catalog "" [] end.

Definition held_catalog : Catalog := catalog_or (root_Catalog walked catalog_envelope sample_now).

Lemma walked_sound : sound_root walked.
Proof. destruct (Walk_ok ["next"] anchored sample_now walked) as (Hs & _); [apply (Anchor_sound _ _ _ anchored_ok) | apply walked_ok | done]. Qed.

Lemma a_catalog_is_vouched_for_witness :
  catalog_signedBy held_catalog = [KeyID "k2"] ∧ Forall orderly (cm_releases (catalog_message held_catalog)).
Proof.
  destruct (a_catalog_is_vouched_for walked catalog_envelope sample_now held_catalog) as (_ & Hs & _ & _ & Ho & _).
  - apply walked_sound.
  - vm_compute. reflexivity.
  - split; [rewrite Hs; vm_compute; reflexivity | exact Ho].
Defined.

Lemma a_root_is_taken_once_witness :
  Next walked (envelope_of RootPayloadType "root 2" ["k1"; "k2"; "k3"]) sample_now = Err ErrStale.
Proof.
  apply (a_root_is_taken_once anchored (envelope_of RootPayloadType "root 2" ["k1"; "k2"; "k3"]) sample_now walked).
  - apply (Anchor_sound _ _ _ anchored_ok).
  - vm_compute. reflexivity.
Defined.

(** ** Witnesses: rollouts *)

#[global] Instance toy_columns : Columns.
Proof. by refine {| column_time := λ t, t |}. Defined.

#[global] Instance toy_wording : Wording := {|
  failing_pause := λ _ version _, "failing " +:+ version;
  wave_ran := λ _ _ _ version, "ran " +:+ version;
|}.

Definition sample_waves : list Wave :=
  [mkWave ["web-01"] 0 (Some (mkSoak true hour)) 1; mkWave [] 100 None 0].

Definition sample_rollout : Rollout := mkRollout "acme" "v1.2.0" [] sample_waves 2 "".

Lemma waves_only_widen_a_rollout_witness :
  Reaches "r" sample_rollout 0 "web-01" = true ∧ Reaches "r" sample_rollout 1 "web-02" = true.
Proof.
  split.
  - vm_compute. reflexivity.
  - apply (waves_only_widen_a_rollout "r" sample_rollout [] "web-02"). vm_compute. reflexivity.
Defined.

(** One rollout started, read by the evaluator, and taken over from by another. *)
Definition drawn_of (c : ascii) : string := Nat.iter 16 (String c) "".

Definition record_or (r : result UpdateError RolloutRecord) : RolloutRecord :=
  match r with
  | Ok r => r
  | Err _ => mkRecord "" sample_rollout STATE_ACTIVE 0 0 "" 0 "" 0 "" None
  end.

Definition first_record : RolloutRecord := record_or (AcceptRollout sample_rollout "operator" 5 (Some (drawn_of "a"))).
Definition second_record : RolloutRecord := record_or (AcceptRollout sample_rollout "operator" 9 (Some (drawn_of "b"))).

Definition tables_or (r : result StoreError RolloutTables) : RolloutTables :=
  match r with Ok t => t | Err _ => empty_tables end.

Definition any_version : string → bool := λ _, true.
Definition fleet : gset string := {["web-01"; "web-02"]}.

Definition once : RolloutTables := tables_or (rollouts_Start any_version fleet first_record empty_tables).
Definition twice : RolloutTables := tables_or (rollouts_Start any_version fleet second_record once).

Definition held_or (r : result StoreError Held) : Held :=
  match r with Ok h => h | Err _ => mkHeld first_record false 0 end.

Definition first_row : RolloutRow :=
  match agent_rollouts once !! rr_id first_record with Some row => row | None => inserted first_record end.
Definition second_row : RolloutRow :=
  match agent_rollouts twice !! rr_id second_record with Some row => row | None => inserted second_record end.
Definition first_held : Held := held_or (scanRollout (rr_id first_record) first_row).

Definition sample_system : RolloutSystem := mkSystem twice [first_held].

Lemma sample_reachable : reachable_system sample_system.
Proof.
  unfold reachable_system, system_start.
  eapply rtc_l.
  { apply (starting sample_rollout "operator" 5 (Some (drawn_of "a")) first_record any_version fleet _ once);
      vm_compute; reflexivity. }
  eapply rtc_l.
  { apply (taking (rr_id first_record) first_row first_held); vm_compute; reflexivity. }
  eapply rtc_l.
  { apply (starting sample_rollout "operator" 9 (Some (drawn_of "b")) second_record any_version fleet _ twice);
      vm_compute; reflexivity. }
  apply rtc_refl.
Qed.

Lemma a_tenant_has_one_rollout_in_force_witness :
  row_in_force second_row = true
  ∧ match agent_rollouts twice !! rr_id first_record with
    | Some row => row_in_force row = false
    | None => False
    end.
Proof.
  split; [vm_compute; reflexivity |].
  destruct (agent_rollouts twice !! rr_id first_record) as [row|] eqn:Hrow; [| vm_compute in Hrow; discriminate].
  destruct (row_in_force row) eqn:Hin; [| reflexivity].
  assert (rr_id first_record = rr_id second_record) as Heq; [| vm_compute in Heq; discriminate].
  apply (a_tenant_has_one_rollout_in_force sample_system (rr_id first_record) (rr_id second_record)
    row second_row sample_reachable);
    [exact Hrow | vm_compute; reflexivity | exact Hin | vm_compute; reflexivity |].
  vm_compute in Hrow. injection Hrow as <-. vm_compute. reflexivity.
Defined.



Lemma rollouts_only_move_forward_witness :
  ∃ row', agent_rollouts twice !! rr_id first_record = Some row' ∧ col_waves row' = col_waves first_row.
Proof.
  destruct (rollouts_only_move_forward (mkSystem once []) (mkSystem twice []) (rr_id first_record) first_row)
    as (row' & Hr & Hw & _).
  - apply rtc_once.
    apply (starting sample_rollout "operator" 5 (Some (drawn_of "a")) first_record any_version fleet _ once);
      vm_compute; reflexivity.
  - apply rtc_once.
    apply (starting sample_rollout "operator" 9 (Some (drawn_of "b")) second_record any_version fleet _ twice);
      vm_compute; reflexivity.
  - vm_compute. reflexivity.
  - by exists row'.
Defined.

(** * Concrete policies, sessions and callers

    Inputs at which the theorems about access hold with every hypothesis met: a
    role, the subject it is bound to, a token issued and spent, and a caller of
    a limiter that counts. *)


(** ** Policies *)

Definition reads_alerts : Permission := mkPermission Alerts Read.
Definition analyst_doc : RoleDoc := mkRoleDoc "analyst" "reads alerts" [reads_alerts].
Definition alice_doc : BindingDoc := mkBindingDoc "alice" ["analyst"] ["acme"].
Definition analyst : Role := mkRole "analyst" "reads alerts" [reads_alerts].
Definition alice : PolicyBinding := mkPolicyBinding "alice" ["analyst"] ["acme"].

Definition policy_or (r : result AuthzError Policy) : Policy :=
  match r with Ok p => p | Err _ => mkPolicy "" ∅ ∅ end.
Definition sample_policy : Policy := policy_or (policy_Compile id [analyst] [alice]).

Lemma access_is_what_is_written_witness :
  ∃ g, policy_Grant sample_policy "alice" = Ok g
  ∧ decision_Allowed (DecideWithin g reads_alerts "acme") = true.
Proof.
  apply (access_is_what_is_written id [analyst_doc] [alice_doc] [analyst] [alice] sample_policy "alice"
    reads_alerts "acme").
  - split; repeat constructor; vm_compute; reflexivity.
  - vm_compute. reflexivity.
  - exists alice_doc, analyst_doc. split_and!; try reflexivity; left.
Defined.

(** ** Sessions *)

#[global] Instance toy_hashing : Hashing.
Proof.
  by refine {| Sum256 := λ _, Nat.iter 32 (String "x") ""; HMAC := λ key payload, key +:+ payload |}.
Defined.

Definition sample_issuer : Issuer := mkIssuer "a key of thirty-two bytes, kept." (8 * hour).
Definition sample_binding : string := Nat.iter 32 (String "b") "".
Definition sample_draw : string := Nat.iter 16 (String "d") "".
Definition asked_at : instant := session_epoch + 5 * second.

Definition issued_or (r : result SessionError (Session * string)) : Session * string :=
  match r with Ok s => s | Err _ => (mkSession "" "" 0 0 "", "") end.
Definition issued : Session * string :=
  issued_or (Issue sample_issuer "alice" sample_binding asked_at hour (Some sample_draw)).

Lemma issued_tokens_are_spendable_witness :
  Verify sample_issuer issued.2 sample_binding (asked_at + minute) = Ok issued.1.
Proof.
  rewrite (issued_tokens_are_spendable sample_issuer "alice" sample_binding asked_at hour sample_draw
    issued.1 issued.2 sample_binding (asked_at + minute)); [| vm_compute; try reflexivity; try split; done ..].
  vm_compute. reflexivity.
Defined.

Lemma verified_sessions_were_signed_witness :
  s_binding issued.1 = sample_binding ∧ asked_at + minute < s_expiresAt issued.1.
Proof.
  destruct (verified_sessions_were_signed sample_issuer issued.2 sample_binding (asked_at + minute) issued.1)
    as (id & offered & _ & _ & _ & _ & _ & Hb & Ht & _); [vm_compute; reflexivity |].
  split; [exact Hb | exact Ht].
Defined.

(** ** Callers *)

#[global] Instance toy_rate : RateLimiter := {|
  Limit := Z; Bucket := Z;
  rate_NewLimiter := λ _ burst, burst;
  rate_Allow := λ bucket _, if 0 <? bucket then (bucket - 1, true) else (bucket, false);
|}.

Definition sample_limiter : Limiter := NewLimiter (rate := toy_rate) 1 2 8.

Lemma limiter_is_its_buckets_by_use_witness :
  ∃ l' spec' allowed, limiter_Allow "a" 0 sample_limiter = (l', allowed)
  ∧ lru_Allow (rate := toy_rate) 1 2 8 "a" 0 [] = (spec', allowed) ∧ represents l' spec'.
Proof.
  apply (limiter_is_its_buckets_by_use sample_limiter [] "a" 0). apply NewLimiter_represents.
Defined.

Lemma a_share_is_the_callers_own_witness :
  answers_to "a" [("a", 0); ("b", 0); ("a", 1); ("a", 2)]
    (serve [("a", 0); ("b", 0); ("a", 1); ("a", 2)] sample_limiter) = [true; true; false].
Proof.
  etrans; [apply (a_share_is_the_callers_own (1 : Limit (RateLimiter := toy_rate)) 2 8
    [("a", 0); ("b", 0); ("a", 1); ("a", 2)] "a"); vm_compute; discriminate | vm_compute; reflexivity].
Defined.
