(* ===== verification/Listing.v ===== *)
(** * What the control stores use of PostgreSQL, and their listings

    The stores of internal/postgres share one shape of listing: a filter, an order
    over a key no two rows share, a page one row longer than asked and a cursor written
    from the last row served. The shape is generic here; each store gives its own rows, key
    and cursor. What PostgreSQL is relied on for is a parameter. *)

From Stdlib Require Import ZArith Lia Ascii.
From stdpp Require Import base tactics option gmap strings pretty sorting numbers list.
From S2P Require Import Prelude Text Scan Hex Bytes Session Event Canonical Assessment.

(** ** PostgreSQL *)

(** Text is ordered by a collation, a TIMESTAMPTZ keeps whole microseconds, and of rows
    an ORDER BY ties, LIMIT 1 answers one; rows are found in some order. *)
Class Postgres := {
  collate : string → string → bool;
  timestamptz : instant → instant;
  any_of : ∀ {A : Type}, list A → option A;
  heap_order : ∀ {A : Type}, list A → list A;
}.

Class PostgresLaws `{Postgres} := {
  collate_irreflexive a : collate a a = false;
  collate_transitive a b c : collate a b = true → collate b c = true → collate a c = true;
  collate_total a b : collate a b = true ∨ a = b ∨ collate b a = true;
  timestamptz_floor t : timestamptz t ≤ t < timestamptz t + 1000;
  timestamptz_whole t : (t mod 1000 = 0) → timestamptz t = t;
  timestamptz_micros t : timestamptz t mod 1000 = 0;
  any_of_in {A} (l : list A) x : any_of l = Some x → x ∈ l;
  any_of_some {A} (l : list A) : l ≠ [] → is_Some (any_of l);
  heap_order_all {A} (l : list A) : heap_order l ≡ₚ l;
}.

Lemma timestamptz_mono `{PostgresLaws} a b : a ≤ b → timestamptz a ≤ timestamptz b.
Proof.
  intros Hab. pose proof (timestamptz_floor a). pose proof (timestamptz_floor b).
  pose proof (timestamptz_micros a) as Ha. pose proof (timestamptz_micros b) as Hb.
  apply Z.mod_divide in Ha as [x Hx]; [| done]. apply Z.mod_divide in Hb as [y Hy]; [| done]. nia.
Qed.

Lemma timestamptz_idem `{PostgresLaws} t : timestamptz (timestamptz t) = timestamptz t.
Proof. apply timestamptz_whole, timestamptz_micros. Qed.

(** ** Strict orders of rows *)

Section strictly_sorted.
Context {A} (R : relation A) `{!StrictOrder R, !RelDecision R}.

(** What comes after an element of a list in strict order is what the order puts
    after it. *)
Lemma filter_after pre x post :
  StronglySorted R (pre ++ x :: post) → filter (R x) (pre ++ x :: post) = post.
Proof.
  intros Hs. rewrite filter_app, filter_cons_False by (apply irreflexivity; apply _).
  apply StronglySorted_app in Hs as (Hpre & _ & Hx). apply StronglySorted_inv in Hx as [_ Hx].
  rewrite (filter_all _ post) by done.
  assert (filter (R x) pre = []) as ->; [| done].
  destruct (filter (R x) pre) as [|y l] eqn:Hf; [done | exfalso].
  assert (y ∈ filter (R x) pre) as [Hr Hy]%list_elem_of_filter by (rewrite Hf; by left).
  apply (irreflexivity R y). trans x; [| done]. apply Hpre; [done | by left].
Qed.

Lemma strictly_sorted_once l : StronglySorted R l → NoDup l.
Proof.
  induction 1 as [|x l _ IH Hx]; [constructor |]. constructor; [| done].
  rewrite Forall_forall in Hx. intros Hin. by apply (irreflexivity R x), Hx.
Qed.
End strictly_sorted.

(** ** Pages (Page of alerts, incidents, agents, policies, updates and rollouts) *)

Definition DefaultPageSize : Z := 50.
Definition MaxPageSize : Z := 500.

Definition page_limit (asked : Z) : Z := Z.min (if asked <=? 0 then DefaultPageSize else asked) MaxPageSize.

Section listing.
Context {A K : Type} (key : A → K) (precedes : K → K → bool).

(** ORDER BY the key. *)
Definition not_after_row (a b : A) : Prop := precedes (key b) (key a) = false.
#[global] Instance no_later_dec : RelDecision not_after_row.
Proof. intros a b. unfold not_after_row. apply _. Defined.
Definition ordered_rows (rows : list A) : list A := merge_sort not_after_row rows.

(** WHERE the row is seen and lies past the cursor, LIMIT one more than the page. *)
Definition select (rows : list A) (sees : A → bool) (after : option K) (limit : Z) : list A :=
  take (Z.to_nat (limit + 1))
    (ordered_rows (filter (λ r, sees r && match after with Some k => precedes k (key r) | None => true end) rows)).

(** What is served of what was selected, and the row a cursor is written from. *)
Definition paged (limit : Z) (found : list A) : list A * option A :=
  if limit <? len found then let served := take (Z.to_nat limit) found in (served, last served) else (found, None).

Definition page {E} (decode : string → result E K) (encode : A → string)
    (rows : list A) (sees : A → bool) (cursor : string) (asked : Z) : result E (list A * string) :=
  let limit := page_limit asked in
  let answer after := let '(served, next) := paged limit (select rows sees after limit) in
                      Ok (served, match next with Some r => encode r | None => "" end) in
  if bool_decide (cursor = "") then answer None
  else match decode cursor with Ok after => answer (Some after) | Err e => Err e end.
End listing.

(** A caller that follows the cursors until a page has none. *)
Fixpoint follow_pages {E A} (fuel : nat) (ask : string → result E (list A * string)) (cursor : string) : option (result E (list A)) :=
  match fuel with
  | O => None
  | S fuel =>
      match ask cursor with
      | Err e => Some (Err e)
      | Ok (served, next) =>
          if bool_decide (next = "") then Some (Ok served)
          else match follow_pages fuel ask next with
               | Some (Ok rest) => Some (Ok (served ++ rest))
               | other => other
               end
      end
  end.

(** ** Following the pages of a listing *)

Section pages.
Context {A K E : Type} (key : A → K) (precedes : K → K → bool).
Context (decode : string → result E K) (encode : A → string).
Context (rows : list A) (sees : A → bool) (asked : Z).

(** What a listing rests on: its keys are ordered, no two rows share one, and the cursor
    written of a row that is seen reads back as the row's key. *)
Record pages_well : Prop := {
  pw_irreflexive k : precedes k k = false;
  pw_transitive a b c : precedes a b = true → precedes b c = true → precedes a c = true;
  pw_total a b : precedes a b = true ∨ a = b ∨ precedes b a = true;
  pw_keys : NoDup (key <$> rows);
  pw_cursor r : r ∈ rows → sees r = true → encode r ≠ "" ∧ decode (encode r) = Ok (key r);
}.
Context (Hwell : pages_well).

Definition row_before (a b : A) : Prop := precedes (key a) (key b) = true.
#[local] Instance row_before_dec : RelDecision row_before.
Proof. intros a b. unfold row_before. apply _. Defined.
#[local] Instance row_before_strict : StrictOrder row_before.
Proof.
  split; unfold row_before.
  - intros a Ha. by rewrite (pw_irreflexive Hwell) in Ha.
  - intros a b c. apply (pw_transitive Hwell).
Qed.

Lemma in_order_perm (l : list A) : ordered_rows key precedes l ≡ₚ l.
Proof. apply merge_sort_Permutation. Qed.

Lemma not_before_total : Total (not_after_row key precedes).
Proof.
  intros a b. unfold not_after_row. destruct (precedes (key b) (key a)) eqn:Hba; [right | by left].
  destruct (precedes (key a) (key b)) eqn:Hab; [| done]. pose proof (pw_transitive Hwell _ _ _ Hab Hba) as Haa.
  by rewrite (pw_irreflexive Hwell) in Haa.
Qed.

Lemma not_before_transitive : Transitive (not_after_row key precedes).
Proof.
  unfold not_after_row. intros a b c Hab Hbc. destruct (precedes (key c) (key a)) eqn:Hca; [| done]. exfalso.
  destruct (pw_total Hwell (key a) (key b)) as [Hlt | [Heq | Hlt]]; [| rewrite Heq in Hca; congruence | congruence].
  pose proof (pw_transitive Hwell _ _ _ Hca Hlt). congruence.
Qed.

Lemma in_order_sorted l : NoDup (key <$> l) → StronglySorted row_before (ordered_rows key precedes l).
Proof.
  intros Hkeys. pose proof not_before_total as Htotal. pose proof not_before_transitive as Htrans.
  assert (StronglySorted (not_after_row key precedes) (ordered_rows key precedes l)) as Hs by (apply StronglySorted_merge_sort; assumption).
  assert (NoDup (key <$> ordered_rows key precedes l)) as Hnd by (by rewrite in_order_perm).
  revert Hs Hnd. generalize (ordered_rows key precedes l). clear - Hwell. intros l Hs Hnd.
  induction Hs as [|x l Hs IH Hx]; [constructor |]. cbn in Hnd. apply NoDup_cons in Hnd as [Hnew Hnd].
  constructor; [by apply IH |]. apply Forall_forall. intros y Hy. rewrite Forall_forall in Hx. specialize (Hx y Hy). unfold row_before, not_after_row in *.
  destruct (pw_total Hwell (key x) (key y)) as [? | [Heq | ?]]; [done | | congruence].
  exfalso. apply Hnew. rewrite Heq. by apply list_elem_of_fmap_2.
Qed.

Lemma filtered_keys (P : A → Prop) `{!∀ r, Decision (P r)} : NoDup (key <$> filter P rows).
Proof. eapply sublist_NoDup; [apply (pw_keys Hwell) | apply fmap_sublist, sublist_filter]. Qed.

Lemma row_before_antisym : AntiSymm (=) row_before.
Proof. intros a b Hab Hba. exfalso. apply (irreflexivity row_before a). by trans b. Qed.

(** Everything a caller may see, in order. *)
Definition everything : list A := ordered_rows key precedes (filter (λ r, sees r) rows).

Lemma everything_sorted : StronglySorted row_before everything.
Proof. apply in_order_sorted, filtered_keys. Qed.

Lemma in_everything x : x ∈ everything ↔ x ∈ rows ∧ sees x = true.
Proof. unfold everything. rewrite in_order_perm, list_elem_of_filter. destruct (sees x); naive_solver. Qed.

(** What is left past a cursor. *)
Definition left_after (after : option K) : list A :=
  ordered_rows key precedes (filter (λ r, sees r && match after with Some k => precedes k (key r) | None => true end) rows).

Lemma left_after_none : left_after None = everything.
Proof.
  unfold left_after, everything. f_equal. apply list_filter_iff. intros r. by rewrite andb_true_r.
Qed.

Lemma left_after_some k : left_after (Some k) = filter (λ r, precedes k (key r) = true) everything.
Proof.
  pose proof row_before_antisym as Hanti. apply (StronglySorted_unique row_before).
  - apply in_order_sorted, filtered_keys.
  - apply StronglySorted_filter, everything_sorted.
  - unfold left_after, everything. rewrite in_order_perm. rewrite (filter_Permutation _ _ _ (in_order_perm _)).
    rewrite list_filter_filter. apply reflexive_eq, list_filter_iff. intros r. rewrite andb_True, !Is_true_true. tauto.
Qed.

(** Past a row of what is left, what is left is what stood after it. *)
Lemma left_after_row after pre x post : left_after after = pre ++ x :: post → left_after (Some (key x)) = post.
Proof.
  intros Hleft. pose proof row_before_strict as Hstrict.
  assert (StronglySorted row_before (left_after after)) as Hs.
  { destruct after as [k|]; [rewrite left_after_some; apply StronglySorted_filter | rewrite left_after_none]; apply everything_sorted. }
  rewrite Hleft in Hs. rewrite <- (filter_after row_before pre x post Hs), <- Hleft.
  destruct after as [k|]; [| by rewrite left_after_none, left_after_some].
  rewrite !left_after_some, list_filter_filter. apply list_filter_iff. intros r. unfold row_before. split; [| naive_solver].
  intros Hr. split; [done |].
  assert (x ∈ left_after (Some k)) as Hx by (rewrite Hleft; set_solver).
  rewrite left_after_some, list_elem_of_filter in Hx. destruct Hx as [Hx _]. by eapply (pw_transitive Hwell).
Qed.

Lemma page_limit_pos : 1 ≤ page_limit asked.
Proof. unfold page_limit, DefaultPageSize, MaxPageSize. destruct (Z.leb_spec asked 0); lia. Qed.

Lemma page_spec cursor after :
  (cursor = "" ∧ after = None) ∨ (cursor ≠ "" ∧ ∃ k, decode cursor = Ok k ∧ after = Some k) →
  ∃ served next, page key precedes decode encode rows sees cursor asked = Ok (served, next)
    ∧ ((next = "" ∧ served = left_after after)
       ∨ ∃ pre x post, next = encode x ∧ served = pre ++ [x] ∧ left_after after = pre ++ x :: post).
Proof.
  intros Hcursor. pose proof page_limit_pos as Hpos. set (limit := page_limit asked) in *.
  assert (∃ served next, paged limit (select key precedes rows sees after limit) = (served, next)
    ∧ ((next = None ∧ served = left_after after)
       ∨ ∃ pre x post, next = Some x ∧ served = pre ++ [x] ∧ left_after after = pre ++ x :: post)) as (served & next & Hpaged & Hor).
  { unfold paged, select. change (ordered_rows key precedes _) with (left_after after). set (l := left_after after).
    replace (Z.to_nat (limit + 1)) with (S (Z.to_nat limit)) by lia. unfold len. rewrite length_take.
    destruct (Z.ltb_spec limit (Z.of_nat (S (Z.to_nat limit) `min` length l))) as [Hlong|Hshort].
    - eexists _, _. split; [done | right]. rewrite take_take, (Nat.min_l (Z.to_nat limit)) by lia.
      destruct (lookup_lt_is_Some_2 l (Z.to_nat limit - 1)) as [x Hx]; [lia |]. exists (take (Z.to_nat limit - 1) l), x, (drop (Z.to_nat limit) l).
      assert (take (Z.to_nat limit) l = take (Z.to_nat limit - 1) l ++ [x]) as Htake.
      { replace (Z.to_nat limit) with (S (Z.to_nat limit - 1)) at 1 by lia. by apply take_S_r. }
      rewrite Htake, last_snoc. split_and!; [done | done |]. rewrite <- (take_drop (Z.to_nat limit) l) at 1.
      by rewrite Htake, <- app_assoc.
    - eexists _, _. split; [done | left]. split; [done |]. apply take_ge. lia. }
  exists served, (match next with Some r => encode r | None => "" end). split; [| naive_solver].
  unfold page. destruct Hcursor as [[-> ->] | (Hne & k & Hk & ->)].
  - rewrite bool_decide_true by done. fold limit. by rewrite Hpaged.
  - rewrite bool_decide_false, Hk by done. fold limit. by rewrite Hpaged.
Qed.

Lemma follow_left fuel : ∀ cursor after,
  (cursor = "" ∧ after = None) ∨ (cursor ≠ "" ∧ ∃ k, decode cursor = Ok k ∧ after = Some k) →
  (length (left_after after) < fuel)%nat →
  follow_pages fuel (λ cursor, page key precedes decode encode rows sees cursor asked) cursor = Some (Ok (left_after after)).
Proof.
  induction fuel as [|fuel IH]; intros cursor after Hcursor Hfuel; [lia |]. cbn [follow_pages].
  destruct (page_spec cursor after Hcursor) as (served & next & -> & [[-> ->] | (pre & x & post & -> & -> & Hleft)]).
  { by rewrite bool_decide_true. }
  assert (x ∈ left_after after) as Hx by (rewrite Hleft; set_solver).
  assert (x ∈ rows ∧ sees x = true) as [Hrow Hsees].
  { apply in_everything. destruct after as [k|]; [| by rewrite <- left_after_none].
    rewrite left_after_some in Hx. by apply list_elem_of_filter in Hx as [_ ?]. }
  destruct (pw_cursor Hwell x Hrow Hsees) as [Hne Hdecode]. rewrite bool_decide_false by done.
  pose proof (left_after_row _ _ _ _ Hleft) as Hpost. rewrite (IH (encode x) (Some (key x))).
  - by rewrite Hpost, Hleft, <- app_assoc.
  - right. split; [done |]. by exists (key x).
  - rewrite Hpost. rewrite Hleft, length_app in Hfuel. cbn in Hfuel. lia.
Qed.

(** Following the cursors from the first page collects everything that is seen, each row
    once and in order, in one page more than there are rows at most. *)
Lemma pages_collect_everything fuel :
  (length rows < fuel)%nat →
  follow_pages fuel (λ cursor, page key precedes decode encode rows sees cursor asked) "" = Some (Ok everything)
  ∧ NoDup everything ∧ ∀ x, x ∈ everything ↔ x ∈ rows ∧ sees x = true.
Proof.
  intros Hfuel. split_and!.
  - rewrite (follow_left fuel "" None), left_after_none; [done | by left |].
    rewrite left_after_none. unfold everything. rewrite in_order_perm.
    pose proof (length_filter (λ r, sees r) rows). lia.
  - apply (strictly_sorted_once row_before), everything_sorted.
  - apply in_everything.
Qed.
End pages.

(** ** Listings by a time and then a name *)

(** [encodeCursor] and [decodeCursor], of alerts and of incidents. *)
Definition time_cursor (at_ : instant) (id : string) : string := base64_encode (pretty (UnixMilli at_) +:+ "." +:+ id).

Definition read_time_cursor (token : string) : option (instant * string) :=
  match base64_decode token with
  | None => None
  | Some payload =>
      let '(written, id, found) := Cut payload "." in
      if negb found || bool_decide (id = "") then None
      else match ParseIntBase 10 written with
           | None => None
           | Some millis => Some (of_UnixMilli millis, id)
           end
  end.

Section timed.
Context {postgres : Postgres}.

(** The order of a listing by a time and then a name. *)
Definition timed_before (a b : instant * string) : bool := (a.1 <? b.1) || ((a.1 =? b.1) && collate a.2 b.2).

Definition timed_after (a b : instant * string) : bool := timed_before b a.

(** A cursor's instant is compared as the column keeps it. *)
Definition time_position (token : string) : option (instant * string) :=
  match read_time_cursor token with Some (at_, id) => Some (timestamptz at_, id) | None => None end.

Context `{!PostgresLaws}.

Lemma of_UnixMilli_micros ms : of_UnixMilli ms mod 1000 = 0.
Proof.
  unfold of_UnixMilli, millisecond. apply Z.mod_divide; [done |]. exists (session_epoch / 1000 + ms * 1000).
  assert (session_epoch = session_epoch / 1000 * 1000) as He by (by vm_compute). rewrite He at 1. ring.
Qed.

Lemma time_cursor_read at_ id :
  - 2 ^ 63 ≤ UnixMilli at_ < 2 ^ 63 → id ≠ "" →
  time_cursor at_ id ≠ "" ∧ read_time_cursor (time_cursor at_ id) = Some (of_UnixMilli (UnixMilli at_), id).
Proof.
  intros Hms Hid. assert (read_time_cursor (time_cursor at_ id) = Some (of_UnixMilli (UnixMilli at_), id)) as Hread.
  { unfold read_time_cursor, time_cursor. rewrite base64_roundtrip. change ("." +:+ id) with (String "." id).
    rewrite Cut_app by (eapply free_of_made; [| apply pretty_plain]; done). rewrite bool_decide_false by done. cbn [negb orb].
    by rewrite ParseIntBase_pretty. }
  split; [| done]. intros Hnil. rewrite Hnil in Hread. change (read_time_cursor "") with (@None (instant * string)) in Hread. discriminate.
Qed.

Lemma timed_after_ordered :
  (∀ k, timed_after k k = false) ∧ (∀ a b c, timed_after a b = true → timed_after b c = true → timed_after a c = true)
  ∧ ∀ a b, timed_after a b = true ∨ a = b ∨ timed_after b a = true.
Proof.
  unfold timed_after, timed_before. split_and!.
  - intros [t id]. cbn. by rewrite Z.ltb_irrefl, Z.eqb_refl, collate_irreflexive.
  - intros [t1 i1] [t2 i2] [t3 i3]. cbn. rewrite !orb_true_iff, !andb_true_iff, !Z.ltb_lt, !Z.eqb_eq.
    intros [?|[-> H1]] [?|[-> H2]]; [left; lia | left; lia | left; lia | right; split; [done |]]. by eapply collate_transitive.
  - intros [t1 i1] [t2 i2]. cbn. rewrite !orb_true_iff, !andb_true_iff, !Z.ltb_lt, !Z.eqb_eq.
    destruct (Z.lt_trichotomy t1 t2) as [?|[->|?]]; [tauto | | tauto].
    destruct (collate_total i1 i2) as [?|[->|?]]; tauto.
Qed.

(** An instant at a whole millisecond reads back as itself. *)
Definition whole_millis (t : instant) : Prop := of_UnixMilli (UnixMilli t) = t ∧ - 2 ^ 63 ≤ UnixMilli t < 2 ^ 63.

Lemma time_position_read at_ id :
  whole_millis at_ → id ≠ "" → time_cursor at_ id ≠ "" ∧ time_position (time_cursor at_ id) = Some (at_, id).
Proof.
  intros [Hms Hrange] Hid. destruct (time_cursor_read at_ id Hrange Hid) as [Hne Hread]. split; [done |].
  unfold time_position. rewrite Hread, timestamptz_whole by apply of_UnixMilli_micros. by rewrite Hms.
Qed.
End timed.
