(* ===== verification/HuntPlane.v ===== *)
(** * The query plane: who may ask, and what a question answers

    hunt/hunt.go and http.go: the hunter that puts a compiled question to a store
    and writes the cursor that follows its page, and the handler that decides who
    may ask before it reads what is asked. The store, the protobuf decoder and the
    media type parser are parameters; what a refusal says in prose is not
    modelled. *)

From Stdlib Require Import ZArith Lia Ascii Floats.SpecFloat.
From stdpp Require Import base tactics option gmap strings pretty sorting numbers list.
From S2P Require Import Prelude Text Scan Hex Rule Contract Bytes Compile Agent Authz Session Hunt HuntProps Limiter Listing.


(** ** The hunter (hunt.go) *)

Inductive SourceError := DeadlineExceeded | StoreFailed.

Inductive HuntError := Unanswerable (r : HuntRefusal) | Unanswered (e : SourceError).

(** What the plane needs of a store, and what it reads of a record. *)
Class HuntSource := {
  EventRecord : Type;
  DetectionRecord : Type;
  source_Events : Query → result SourceError (list EventRecord);
  source_Detections : Query → result SourceError (list DetectionRecord);
  event_record_time : EventRecord → instant;
  event_record_agent : EventRecord → string;
  event_record_id : EventRecord → string;
  detection_record_time : DetectionRecord → instant;
  detection_record_id : DetectionRecord → string;
}.

Section hunter.
Context `{Contract, HuntFormats, Formats, Hashing} (detection_message : string).

Definition answer {R} (query : Query) (read : Query → result SourceError (list R)) : result HuntError (list R) :=
  match read query with
  | Err e => Err (Unanswered e)
  | Ok records => Ok records
  end.

(** The body [Events] and [Detections] share: compile, ask, and write the cursor
    of the last record; a page of no record is followed by nothing. *)
Definition hunted {R} (c : HuntCompiler) (dataset : Dataset) (read : Query → result SourceError (list R))
    (position : R → instant * list string) (scope : Scope) (asked : AskedQuery) : result HuntError (list R * string) :=
  match CompileQuery detection_message c dataset scope asked with
  | Err e => Err (Unanswerable e)
  | Ok query =>
      match answer query read with
      | Err e => Err e
      | Ok records =>
          Ok (records, match last records with
                       | Some record => NextCursor c query (position record).1 (position record).2
                       | None => ""
                       end)
      end
  end.

Context {source : HuntSource}.

Definition event_position (record : EventRecord) : instant * list string :=
  (event_record_time record, [event_record_agent record; event_record_id record]).

Definition detection_position (record : DetectionRecord) : instant * list string :=
  (detection_record_time record, [detection_record_id record]).

Definition Hunter_Events (c : HuntCompiler) (scope : Scope) (asked : AskedQuery) :=
  hunted c EventsDataset source_Events event_position scope asked.

Definition Hunter_Detections (c : HuntCompiler) (scope : Scope) (asked : AskedQuery) :=
  hunted c DetectionsDataset source_Detections detection_position scope asked.
End hunter.

(** ** Refusals on the wire (query.go, http.go) *)

Definition refusal_code (r : HuntRefusal) : string :=
  match r with
  | CodeUnscoped => "unscoped" | CodeUnknownDataset => "unknown_dataset" | CodeMissingRange => "missing_range"
  | CodeInvertedRange => "inverted_range" | CodeRangeTooWide => "range_too_wide"
  | CodeLimitTooLarge => "limit_too_large" | CodeUnknownField _ => "unknown_field"
  | CodeUnknownOperator _ => "unknown_operator" | CodeOperatorRefused _ => "operator_refused"
  | CodeWrongValueCount _ => "wrong_value_count" | CodeUnreadableValue _ => "unreadable_value"
  | CodeQueryTooLarge => "query_too_large" | CodeQueryTooDeep => "query_too_deep"
  | CodeEmptyGroup => "empty_group" | CodeEmptyTerm => "empty_term" | CodeInvalidCursor => "invalid_cursor"
  end.

Inductive HuntResponse {R : Type} :=
| HuntRefused (status : Z) (code : string) (retry_after : option Z)
| HuntPage (records : list R) (next_cursor : string).
Arguments HuntResponse : clear implicits.

Definition refuseQuery {R} (e : HuntError) : HuntResponse R :=
  match e with
  | Unanswerable refusal =>
      HuntRefused (if bool_decide (refusal_code refusal = "unscoped") then 403 else 422) (refusal_code refusal) None
  | Unanswered DeadlineExceeded => HuntRefused 504 "store_too_slow" (Some 5)
  | Unanswered StoreFailed => HuntRefused 503 "store_unavailable" (Some 5)
  end.

(** ** The handler (http.go) *)

Class HuntWire := {
  ParseMediaType : string → option string;
  Unmarshal_query : string → option AskedQuery;
}.

(** A request: its verified chains, its content type, and its body, [None] when it
    could not be read to its end. *)
Record HuntRequest := mkHuntRequest {
  hr_chains : option (list (list string)); hr_content_type : string; hr_body : option string }.

Definition protobufRequest `{HuntWire} (r : HuntRequest) : bool :=
  match ParseMediaType (hr_content_type r) with
  | Some mediaType =>
      bool_decide (mediaType = "application/x-protobuf") || bool_decide (mediaType = "application/protobuf")
  | None => false
  end.

Definition handler_read `{HuntWire} {R} (maxBodyBytes : Z) (r : HuntRequest) : HuntResponse R + AskedQuery :=
  if negb (protobufRequest r) then inl (HuntRefused 415 "unsupported_media_type" None) else
  match hr_body r with
  | None => inl (HuntRefused 400 "unreadable_body" None)
  | Some payload =>
      if maxBodyBytes <? slen payload then inl (HuntRefused 413 "query_body_too_large" None)
      else match Unmarshal_query payload with
           | None => inl (HuntRefused 400 "malformed_payload" None)
           | Some asked => inr asked
           end
  end.

Definition scope_refusal (e : ScopeError) : string :=
  match e with
  | NotGranted | NotPermitted => "forbidden"
  | _ => "unscoped"
  end.

Section handler.
Context {rate : RateLimiter} `{HuntWire}.

(** What the requests of one process share. *)
Record HuntProcess := mkHuntProcess { hp_limiter : option Limiter; hp_capacity : Capacity }.

(** Everything before the body: the scope, the caller's share and a place among
    what the process holds. *)
Definition admitted {R} (policy : Policy) (dataset : Dataset) (r : HuntRequest) (now : instant) (p : HuntProcess)
    : HuntProcess * (HuntResponse R + Scope * nat) :=
  match Authorize (hr_chains r) policy dataset with
  | Err e => (p, inl (HuntRefused 403 (scope_refusal e) None))
  | Ok scope =>
      let '(limiter, allowed) := Allow (CallerFromConnection (hr_chains r)) now (hp_limiter p) in
      if negb allowed then (mkHuntProcess limiter (hp_capacity p), inl (HuntRefused 429 "rate_limited" (Some 1)))
      else match capacity_Hold (hp_capacity p) with
           | None => (mkHuntProcess limiter (hp_capacity p),
                      inl (HuntRefused 503 "query_plane_at_capacity" (Some 1)))
           | Some (capacity, hold) => (mkHuntProcess limiter capacity, inr (scope, hold))
           end
  end.

(** What is done with the place, up to the deferred release. *)
Definition handled {R} (read : Scope → AskedQuery → result HuntError (list R * string)) (maxBodyBytes : Z)
    (r : HuntRequest) (scope : Scope) : HuntResponse R :=
  match handler_read maxBodyBytes r with
  | inl refused => refused
  | inr asked =>
      match read scope asked with
      | Err e => refuseQuery e
      | Ok (records, next) => HuntPage records next
      end
  end.

Definition ServeHTTP {R} (policy : Policy) (dataset : Dataset)
    (read : Scope → AskedQuery → result HuntError (list R * string)) (maxBodyBytes : Z)
    (r : HuntRequest) (now : instant) (p : HuntProcess) : HuntProcess * HuntResponse R :=
  match admitted policy dataset r now p with
  | (p, inl refused) => (p, refused)
  | (p, inr (scope, hold)) =>
      (mkHuntProcess (hp_limiter p) (capacity_release hold (hp_capacity p)), handled read maxBodyBytes r scope)
  end.
End handler.

(** * What the query plane promises: scopes, pages and the process it holds *)


(** ** Pages follow one another *)

Section paging.
Context `{Contract, HuntFormats, Formats, Hashing} (detection_message : string).
Context {R : Type} (position : R → instant * list string) (width : nat).
Context (before : relation (instant * list string)) `{!StrictOrder before, !RelDecision before}.
Context (read : Query → result SourceError (list R)).
Context (held : Dataset → Scope → TimeRange → option HuntExpression → list R).

Definition newer (a b : R) : Prop := before (position b) (position a).

#[local] Instance newer_strict : StrictOrder newer.
Proof.
  unfold newer. split; [intros a Ha; by apply (irreflexivity before (position a)) | intros a b c Hab Hbc; by trans (position b)].
Qed.
#[local] Instance newer_dec : RelDecision newer.
Proof. intros a b. unfold newer. apply _. Defined.

(** Of what answers a question, what stands after the position its cursor names. *)
Definition remaining (q : Query) : list R :=
  let rows := held (q_dataset q) (q_scope q) (q_window q) (q_where q) in
  if after_set (q_after q)
  then filter (λ r, before (position r) (after_time (q_after q), after_names (q_after q))) rows
  else rows.

(** What a store promises of its pages: it holds what answers a question in strict
    order, newest first, at positions a cursor can name, and answers with a run of
    what remains that is empty only when nothing does. A page may be short: a store
    answers within a budget. *)
Class Paged := {
  held_sorted : ∀ dataset scope window where_, StronglySorted newer (held dataset scope window where_);
  held_writable : ∀ dataset scope window where_, Forall (λ r,
    writable (position r).1 (position r).2 ∧ length (position r).2 = width
    ∧ of_UnixMilli (UnixMilli (position r).1) = (position r).1) (held dataset scope window where_);
  read_run : ∀ q, 1 ≤ q_limit q → (after_set (q_after q) = true → length (after_names (q_after q)) = width) →
    ∃ page, read q = Ok page ∧ page `prefix_of` remaining q ∧ (remaining q ≠ [] → page ≠ []);
}.

(** The same question, resumed with a token. *)
Definition resumed_with (asked : AskedQuery) (token : string) : AskedQuery :=
  mkAskedQuery (aq_start asked) (aq_end asked) (aq_where asked) (aq_limit asked) token.

(** A caller that follows the cursors until a page has none. *)
Fixpoint follow (fuel : nat) (c : HuntCompiler) (dataset : Dataset) (scope : Scope) (asked : AskedQuery)
    : option (result HuntError (list R)) :=
  match fuel with
  | O => None
  | S fuel =>
      match hunted detection_message c dataset read position scope asked with
      | Err e => Some (Err e)
      | Ok (records, next) =>
          if bool_decide (next = "") then Some (Ok records)
          else match follow fuel c dataset scope (resumed_with asked next) with
               | Some (Ok rest) => Some (Ok (records ++ rest))
               | other => other
               end
      end
  end.

Definition resumed_after (q : Query) (at_ : instant) (names : list string) : Query :=
  mkQuery (q_dataset q) (q_scope q) (q_window q) (q_where q) (q_limit q)
    (mkAfter true (of_UnixMilli (UnixMilli at_)) names) (q_limits q) (q_fingerprint q).

(** The cursor a plane writes after a record resumes the question at the record. *)
Lemma Next_compiles c dataset scope asked q at_ names :
  CompileQuery detection_message c dataset scope asked = Ok q → writable at_ names →
  CompileQuery detection_message c dataset scope (resumed_with asked (NextCursor c q at_ names))
  = Ok (resumed_after q at_ names) ∧ NextCursor c q at_ names ≠ "".
Proof.
  intros (Hs & Hk & window & where_ & limit & left_ & after & -> & Hw & Hl & He & _)%CompileQuery_ok Hwr.
  assert (NextCursor c (mkQuery dataset scope window where_ limit after (hc_limits c)
    (fingerprintOf dataset scope window where_ limit)) at_ names ≠ "") as Hne.
  { unfold NextCursor, encodeCursor. cbv zeta. intros Hnil%string_app_nil. by destruct Hnil. }
  split; [| done]. unfold CompileQuery. cbn [resumed_with aq_start aq_end aq_where aq_limit aq_cursor].
  destruct (Z.eqb_spec (len scope) 0) as [Hz|]; [by destruct scope |].
  rewrite Hk, Hw, Hl, He. cbn [negb]. cbv zeta. rewrite bool_decide_false by done.
  unfold NextCursor. cbn [q_fingerprint]. by rewrite decode_encoded.
Qed.

Context `{!Paged}.

Lemma remaining_sorted q : StronglySorted newer (remaining q).
Proof.
  unfold remaining. cbv zeta. destruct (after_set _); [apply StronglySorted_filter |]; apply held_sorted.
Qed.

Lemma remaining_held q x :
  x ∈ remaining q → x ∈ held (q_dataset q) (q_scope q) (q_window q) (q_where q).
Proof.
  unfold remaining. cbv zeta. destruct (after_set _); [by intros [_ ?]%list_elem_of_filter | done].
Qed.

(** Past a record of what remains, what is left is what stood after it. *)
Lemma remaining_resumed q pre x post :
  remaining q = pre ++ x :: post →
  remaining (resumed_after q (position x).1 (position x).2) = post.
Proof.
  intros Hq. pose proof (remaining_sorted q) as Hs. rewrite Hq in Hs.
  assert (x ∈ remaining q) as Hin by (rewrite Hq; set_solver). pose proof (remaining_held _ _ Hin) as Hx.
  pose proof (held_writable (q_dataset q) (q_scope q) (q_window q) (q_where q)) as Hwr.
  rewrite Forall_forall in Hwr. destruct (Hwr _ Hx) as (_ & _ & Hms).
  rewrite <- (filter_after newer pre x post Hs), <- Hq.
  unfold remaining. cbn [resumed_after q_dataset q_scope q_window q_where q_after after_set after_time after_names].
  rewrite Hms, <- surjective_pairing. cbv zeta.
  destruct (after_set (q_after q)) eqn:Ha; [| done].
  rewrite list_filter_filter. apply list_filter_iff. intros r. unfold newer. split; [| tauto].
  intros Hr. split; [done |]. trans (position x); [done |].
  unfold remaining in Hin. rewrite Ha in Hin.
  by apply list_elem_of_filter in Hin as [? _].
Qed.

Lemma follow_remaining c dataset scope fuel : ∀ asked q,
  CompileQuery detection_message c dataset scope asked = Ok q → 1 ≤ q_limit q →
  (after_set (q_after q) = true → length (after_names (q_after q)) = width) →
  (length (remaining q) < fuel)%nat →
  follow fuel c dataset scope asked = Some (Ok (remaining q)).
Proof.
  induction fuel as [|fuel IH]; intros asked q Hc Hlimit Hwidth Hf; [lia |].
  cbn [follow]. unfold hunted, answer. rewrite Hc.
  destruct (read_run q Hlimit Hwidth) as (page & -> & [rest Hrest] & Hne).
  induction page as [|x pre _] using rev_ind.
  { cbn [last]. rewrite bool_decide_true by done. do 2 f_equal. destruct (remaining q); [done |].
    by destruct (Hne ltac:(done)). }
  rewrite last_snoc, <- app_assoc in *. cbn [app] in Hrest.
  assert (x ∈ held (q_dataset q) (q_scope q) (q_window q) (q_where q)) as Hx by (apply remaining_held; rewrite Hrest; set_solver).
  pose proof (held_writable (q_dataset q) (q_scope q) (q_window q) (q_where q)) as Hwr.
  rewrite Forall_forall in Hwr. destruct (Hwr _ Hx) as (Hw & Hlen & _).
  destruct (Next_compiles c dataset scope asked q (position x).1 (position x).2 Hc Hw) as [Hnext Htoken].
  rewrite bool_decide_false by done.
  pose proof (remaining_resumed _ _ _ _ Hrest) as Hleft.
  rewrite (IH _ _ Hnext); [by rewrite Hleft, Hrest, <- app_assoc | done | done |].
  rewrite Hleft. rewrite Hrest, length_app in Hf. cbn in Hf. lia.
Qed.

(** C31. A caller that follows cursors until a page has none collects everything that
    answers its question, each record once and newest first, however short the
    store's pages are; it is done after one page more than there are records. *)
Theorem pages_read_everything_once limits key c dataset scope asked q fuel :
  NewCompiler limits key = Some c → 0 ≤ aq_limit asked → aq_cursor asked = "" → CompileQuery detection_message c dataset scope asked = Ok q →
  (length (held dataset scope (q_window q) (q_where q)) < fuel)%nat →
  follow fuel c dataset scope asked = Some (Ok (held dataset scope (q_window q) (q_where q)))
  ∧ NoDup (held dataset scope (q_window q) (q_where q)).
Proof.
  intros Hnew Hpos Hcur Hc Hf. destruct (query_bounds _ _ _ _ _ _ _ _ Hnew Hpos Hc) as (_ & _ & _ & _ & _ & Hlimit & _).
  pose proof Hc as (_ & _ & window & where_ & limit & left_ & after & -> & _ & _ & _ & Ha)%CompileQuery_ok.
  destruct Ha as [[_ ->]|[? _]]; [| done]. cbn [q_window q_where] in *. split.
  - rewrite (follow_remaining _ _ _ _ _ _ Hc); [done | lia | done | done].
  - apply (strictly_sorted_once newer), held_sorted.
Qed.
End paging.

(** ** Who may read what *)

Lemma keep_tenants_ok tenants : ∀ kept scope,
  keep_tenants kept tenants = Ok scope →
  (∀ t, t ∈ scope ↔ t ∈ kept ∨ t ∈ tenants) ∧ Forall (λ t, ValidIdentifier t = true) tenants.
Proof.
  induction tenants as [|t tenants IH]; intros kept scope Hok; cbn [keep_tenants] in Hok.
  { injection Hok as <-. split; [set_solver | constructor]. }
  destruct (ValidIdentifier t) eqn:Hv; [| done]. cbn [negb] in Hok.
  apply IH in Hok as [Hin Hall]. split; [| by constructor].
  intros x. rewrite Hin, elem_of_add_once. set_solver.
Qed.

Lemma keep_tenants_total tenants : ∀ kept,
  Forall (λ t, ValidIdentifier t = true) tenants → ∃ scope, keep_tenants kept tenants = Ok scope.
Proof.
  induction tenants as [|t tenants IH]; intros kept Hall; [by eexists |].
  apply Forall_cons in Hall as [Hv Hall]. cbn [keep_tenants]. rewrite Hv. cbn [negb]. by apply IH.
Qed.

Lemma NewScope_ok tenants scope :
  NewScope tenants = Ok scope →
  (∀ t, t ∈ scope ↔ t ∈ tenants) ∧ Forall (λ t, ValidIdentifier t = true) tenants.
Proof.
  unfold NewScope. destruct (keep_tenants [] tenants) as [kept|] eqn:Hk; [| done].
  destruct (len kept =? 0); [done |]. intros [= <-]. apply keep_tenants_ok in Hk as [Hin Hv]. split; [| done].
  intros t. rewrite elem_of_sort_strings, Hin. set_solver.
Qed.

Lemma NewScope_total tenants :
  tenants ≠ [] → Forall (λ t, ValidIdentifier t = true) tenants → ∃ scope, NewScope tenants = Ok scope.
Proof.
  intros Hne Hv. unfold NewScope. destruct (keep_tenants_total tenants [] Hv) as [kept Hk]. rewrite Hk.
  destruct (Z.eqb_spec (len kept) 0) as [Hz|]; [| by eexists].
  destruct kept; [| done]. destruct tenants as [|t tenants]; [done |].
  apply keep_tenants_ok in Hk as [Hin _]. exfalso. apply (not_elem_of_nil t), Hin. right. by left.
Qed.

Lemma dataset_permission_valid dataset : Permission_Valid (dataset_permission dataset) = true.
Proof. unfold dataset_permission. by case_bool_decide. Qed.

Lemma grant_tenants_valid digest role_docs binding_docs roles bindings p subject g :
  built_from role_docs binding_docs roles bindings → policy_Compile digest roles bindings = Ok p →
  policy_Grant p subject = Ok g → Forall (λ t, ValidIdentifier t = true) (g_tenants g).
Proof.
  intros [_ Hb] (_ & Hk & _)%policy_Compile_spec. unfold policy_Grant.
  destruct (pol_bindings p !! subject) as [b|] eqn:Hl; [| done]. intros [= <-]. cbn [g_tenants].
  apply (kept_lookup pb_subject bindings) in Hl as [Hin _]; [| done].
  destruct (list_elem_of_lookup_1 _ _ Hin) as [i Hi].
  destruct (Forall2_lookup_r _ _ _ _ _ Hb Hi) as (bd & _ & Hnew). by eapply NewBinding_tenants.
Qed.

(** The scope a caller reads in is the tenants the policy writes down for it. *)
Lemma Authorize_written digest role_docs binding_docs roles bindings p chains dataset tenant :
  built_from role_docs binding_docs roles bindings → policy_Compile digest roles bindings = Ok p →
  (∃ scope, Authorize chains p dataset = Ok scope ∧ tenant ∈ scope) ↔
  CallerFromConnection chains ≠ ""
  ∧ written_down role_docs binding_docs (CallerFromConnection chains) (dataset_permission dataset) tenant.
Proof.
  intros Hbuilt Hp. rewrite <- (access_written _ _ _ _ _ _ _ _ _ Hbuilt Hp). unfold Authorize. cbv zeta.
  setoid_rewrite decided_within. pose proof (dataset_permission_valid dataset) as Hv.
  destruct (bool_decide_reflect (CallerFromConnection chains = "")); [naive_solver |].
  destruct (policy_Grant p (CallerFromConnection chains)) as [g|] eqn:Hg; [| naive_solver].
  pose proof (grant_tenants_valid _ _ _ _ _ _ _ _ Hbuilt Hp Hg) as Hvalid.
  assert (decision_Allowed (grant_Decide g (dataset_permission dataset)) = true ↔
    g_subject g ≠ "" ∧ dataset_permission dataset ∈ g_permissions g) as Hall.
  { unfold grant_Decide, decision_Allowed, grant_Empty, contains_elem. rewrite Hv. cbn [negb dn_reason].
    repeat case_bool_decide; cbn; naive_solver. }
  destruct (decision_Allowed _); cbn [negb]; [| naive_solver].
  destruct (proj1 Hall eq_refl) as [Hs Hin]. split.
  - intros (scope & Hscope & Ht). apply NewScope_ok in Hscope as [Heq _]. apply Heq in Ht.
    split; [done |]. exists g. split_and!; try done. intros ->.
    rewrite Forall_forall in Hvalid. by specialize (Hvalid _ Ht).
  - intros (_ & g' & [= <-] & _ & _ & _ & _ & Ht).
    destruct (NewScope_total (g_tenants g)) as [scope Hscope]; [by intros He; rewrite He in Ht; apply not_elem_of_nil in Ht | done |].
    exists scope. split; [done |]. by apply (NewScope_ok _ _ Hscope).
Qed.

(** ** What a process holds *)

Definition open_holds (c : Capacity) : Z := len (filter (λ released, released = false) (cap_released c)).

(** The counter is the holds not yet released, within the ceiling. *)
Definition capacity_ok (c : Capacity) : Prop :=
  cap_inflight c = open_holds c ∧ cap_inflight c ≤ cap_ceiling c.

Lemma open_holds_release (l : list bool) i :
  l !! i = Some false →
  len (filter (λ released, released = false) (<[i := true]> l)) = len (filter (λ released, released = false) l) - 1.
Proof.
  revert i. induction l as [|b l IH]; intros [|i] Hi; try done.
  - injection Hi as ->. change (<[O := true]> (false :: l)) with (true :: l). rewrite filter_cons_False, filter_cons_True by done.
    unfold len. cbn. lia.
  - change (<[S i := true]> (b :: l)) with (b :: <[i := true]> l). specialize (IH i Hi). unfold len in *. destruct b.
    + by rewrite !filter_cons_False by done.
    + rewrite !filter_cons_True by done. cbn [length]. lia.
Qed.

Lemma Hold_ok c c' hold :
  capacity_ok c → capacity_Hold c = Some (c', hold) →
  capacity_ok c' ∧ cap_released c' !! hold = Some false ∧ cap_inflight c' = cap_inflight c + 1
  ∧ cap_ceiling c' = cap_ceiling c.
Proof.
  intros [Hn Hc]. unfold capacity_Hold. destruct (Z.leb_spec (cap_ceiling c) (cap_inflight c)); [done |].
  intros [= <- <-]. unfold capacity_ok, open_holds in *. cbn [cap_inflight cap_ceiling cap_released].
  rewrite filter_app, len_app, list_lookup_middle by done. rewrite <- Hn. split_and!; try done; try lia.
Qed.

Lemma release_ok c hold :
  capacity_ok c → capacity_ok (capacity_release hold c)
  ∧ cap_ceiling (capacity_release hold c) = cap_ceiling c
  ∧ cap_inflight (capacity_release hold c)
    = cap_inflight c - (if decide (cap_released c !! hold = Some false) then 1 else 0).
Proof.
  intros [Hn Hc]. unfold capacity_release.
  destruct (cap_released c !! hold) as [[]|] eqn:Hl; [| | rewrite decide_False by done; split_and!; try done; lia].
  { rewrite decide_False by done. split_and!; try done; lia. }
  rewrite decide_True by done. unfold capacity_ok, open_holds in *. cbn [cap_inflight cap_ceiling cap_released].
  rewrite (open_holds_release _ _ Hl). split_and!; try done; lia.
Qed.

Inductive CapacityOp := OpHold | OpRelease (hold : nat).

Definition capacity_op (c : Capacity) (op : CapacityOp) : Capacity :=
  match op with
  | OpHold => match capacity_Hold c with Some (c, _) => c | None => c end
  | OpRelease hold => capacity_release hold c
  end.

(** However the questions of a process interleave, and however often one is
    released, the process counts exactly the questions it still holds and never
    more than its ceiling; one is refused only at the ceiling. *)
Theorem the_plane_holds_what_it_counts ceiling start ops :
  NewCapacity ceiling = Some start →
  let c := foldl capacity_op start ops in
  0 ≤ cap_inflight c ≤ ceiling ∧ cap_inflight c = open_holds c
  ∧ (capacity_Hold c = None ↔ open_holds c = ceiling).
Proof.
  unfold NewCapacity. destruct (Z.leb_spec ceiling 0); [done |]. intros [= <-]. cbv zeta.
  assert (∀ ops c, capacity_ok c → capacity_ok (foldl capacity_op c ops)
    ∧ cap_ceiling (foldl capacity_op c ops) = cap_ceiling c) as Hrun.
  { clear. induction ops as [|op ops IH]; intros c Hc; [done |]. cbn [foldl].
    assert (capacity_ok (capacity_op c op) ∧ cap_ceiling (capacity_op c op) = cap_ceiling c) as [H1 H2].
    { destruct op as [|hold]; cbn [capacity_op]; [| by destruct (release_ok c hold Hc) as (? & ? & _)].
      destruct (capacity_Hold c) as [[c' hold]|] eqn:Hh; [| done].
      by destruct (Hold_ok _ _ _ Hc Hh) as (? & _ & _ & ?). }
    destruct (IH _ H1) as [H3 H4]. split; [done | congruence]. }
  destruct (Hrun ops (mkCapacity ceiling 0 [])) as [[Hn Hc] Hceil]; [split; cbn; [done | lia] |].
  cbn [cap_ceiling] in Hceil. rewrite Hceil in Hc. set (c := foldl capacity_op _ ops) in *.
  pose proof (len_nonneg (filter (λ released, released = false) (cap_released c))). unfold open_holds in *.
  split_and!; try lia. unfold capacity_Hold. rewrite Hceil.
  destruct (Z.leb_spec ceiling (cap_inflight c)); split; intros; try done; lia.
Qed.

(** ** Whole requests *)

Section serving.
Context `{Contract, HuntFormats, Formats, Hashing, HuntWire} {rate : RateLimiter} (detection_message : string).
Context {R : Type} (position : R → instant * list string) (read : Query → result SourceError (list R)).

(** A page is served only to a caller the policy writes something down for, from a
    question that compiled for exactly the tenants written down, as the store
    answered it; and no request, served or refused, keeps a place in the process
    once it is over. *)
Theorem pages_are_read_within_grants digest role_docs binding_docs roles bindings policy dataset c maxBodyBytes
    r now p p' response :
  built_from role_docs binding_docs roles bindings → policy_Compile digest roles bindings = Ok policy →
  capacity_ok (hp_capacity p) →
  ServeHTTP policy dataset (hunted detection_message c dataset read position) maxBodyBytes r now p = (p', response) →
  capacity_ok (hp_capacity p') ∧ cap_inflight (hp_capacity p') = cap_inflight (hp_capacity p)
  ∧ ∀ records next, response = HuntPage records next →
      ∃ asked q, CompileQuery detection_message c dataset (q_scope q) asked = Ok q ∧ read q = Ok records
      ∧ ∀ tenant, tenant ∈ q_scope q ↔
          written_down role_docs binding_docs (CallerFromConnection (hr_chains r)) (dataset_permission dataset) tenant.
Proof.
  intros Hbuilt Hpol Hcap. unfold ServeHTTP, admitted.
  pose proof (λ tenant, Authorize_written _ _ _ _ _ _ (hr_chains r) dataset tenant Hbuilt Hpol) as Hscope.
  destruct (Authorize (hr_chains r) policy dataset) as [scope|e] eqn:Ha; [| by intros [= <- <-]].
  destruct (Allow _ now (hp_limiter p)) as [limiter allowed]. destruct allowed; [| by intros [= <- <-]]. cbn [negb].
  destruct (capacity_Hold (hp_capacity p)) as [[capacity hold]|] eqn:Hh; [| by intros [= <- <-]].
  intros [= <- <-]. cbn [hp_capacity hp_limiter].
  destruct (Hold_ok _ _ _ Hcap Hh) as (Hcap' & Hopen & Hin & _).
  destruct (release_ok capacity hold Hcap') as (Hcap'' & _ & Hout). rewrite decide_True in Hout by done.
  split_and!; [done | lia |]. intros records next. unfold handled.
  destruct (handler_read maxBodyBytes r) as [refused|asked] eqn:Hread.
  { intros ->. exfalso. revert Hread. unfold handler_read.
    repeat (case_match; try discriminate). }
  unfold hunted, answer. destruct (CompileQuery detection_message c dataset scope asked) as [q|e] eqn:Hq;
    [| discriminate]. destruct (read q) as [page|[]] eqn:Hp; try discriminate.
  intros [= <- _]. assert (q_scope q = scope) as Hqs.
  { by pose proof Hq as (_ & _ & ? & ? & ? & ? & ? & -> & _)%CompileQuery_ok. }
  exists asked, q. rewrite Hqs. split_and!; [exact Hq | exact Hp |]. intros tenant.
  unfold Authorize in Ha. split.
  - intros Ht. by apply (Hscope tenant); exists scope.
  - intros Hw. destruct (proj2 (Hscope tenant)) as (s & [= <-] & Ht); [| done].
    split; [| done]. intros Hno. rewrite Hno in Ha. by rewrite bool_decide_true in Ha.
Qed.
End serving.
