(* ===== verification/SampleHunt.v ===== *)
(** * A question, its pages and its cursors, at concrete inputs *)

From Stdlib Require Import ZArith Lia Ascii Floats.SpecFloat.
From stdpp Require Import base tactics option gmap strings pretty sorting numbers list lexico.
From S2P Require Import Prelude Text Scan Hex Rule Contract Bytes Compile Sample Agent Authz Session Hunt HuntStore HuntProps HuntStatement Limiter Event Canonical HuntPlane Ingest SampleUpdates.


#[global] Instance toy_hunt_formats : HuntFormats := {|
  ParseFloat := λ _, None;
  FormatFloat := λ _, "";
  ParseRFC3339 := λ _, None;
  FormatRFC3339Nano := pretty;
|}.

Definition plane_limits : HuntLimits := mkHuntLimits (24 * hour) 2 100 (10 * second) 1000000.
Definition plane : HuntCompiler := mkHuntCompiler plane_limits "a key of thirty-two bytes, kept.".

(** Who logged in as root, or failed to, on either of two hosts. *)
Definition sample_asked (user cursor : string) : AskedQuery :=
  mkAskedQuery (Some 0) (Some hour)
    (QAll [QPredicate "authentication.user.name" OPERATOR_EQUALS [user];
           QNegated (QPredicate "origin.agent_id" OPERATOR_ONE_OF ["host-1"; "host-2"])]) 0 cursor.

Definition query_or (r : result HuntRefusal Query) : Query :=
  match r with
  | Ok q => q
  | Err _ => mkQuery "" [] (mkTimeRange 0 0) None 0 from_the_start plane_limits ""
  end.
Definition sample_query (user cursor : string) : Query :=
  query_or (CompileQuery "Detection" plane EventsDataset ["acme"] (sample_asked user cursor)).

Lemma a_query_keeps_to_its_bounds_witness :
  q_limit (sample_query "root" "") ≤ 100.
Proof.
  apply (a_query_keeps_to_its_bounds "Detection" plane_limits "a key of thirty-two bytes, kept." plane EventsDataset
    ["acme"] (sample_asked "root" "") (sample_query "root" "")); [vm_compute; reflexivity | vm_compute; discriminate | vm_compute; reflexivity].
Defined.

(** A name that tries to leave its quotes changes what is bound and nothing else. *)
Lemma statements_carry_no_literal_witness :
  ∃ statement arguments, compile_statement "Detection" (sample_query "root" "") = Ok (statement, arguments)
  ∧ marks statement = length arguments
  ∧ said_alike (compile_statement "Detection" (sample_query "root" ""))
      (compile_statement "Detection" (sample_query "' OR 1 = 1 -- ?" "")).
Proof.
  destruct (statements_carry_no_literal "Detection" plane plane_limits "a key of thirty-two bytes, kept." EventsDataset
    ["acme"] (sample_asked "root" "") (sample_query "root" "")) as [Halike Hmarks];
    [vm_compute; reflexivity | vm_compute; discriminate | vm_compute; reflexivity |].
  destruct (compile_statement "Detection" (sample_query "root" "")) as [[statement arguments]|] eqn:Hc;
    [| vm_compute in Hc; discriminate].
  exists statement, arguments. split; [reflexivity |]. split; [by apply Hmarks |].
  apply Halike. vm_compute. repeat split; repeat constructor.
Defined.

(** ** Cursors *)

Definition sample_position : list string := ["host-3"; "evt-9"].
Definition sample_next : string := NextCursor plane (sample_query "root" "") minute sample_position.

Lemma cursors_belong_to_their_question_witness :
  q_after (sample_query "root" sample_next) = mkAfter true minute sample_position.
Proof.
  destruct (cursors_belong_to_their_question "Detection" plane EventsDataset ["acme"] (sample_asked "root" "")
    (sample_query "root" "") EventsDataset ["acme"] (sample_asked "root" sample_next) (sample_query "root" sample_next)
    minute sample_position) as [Hafter _];
    [split; [discriminate | repeat constructor; vm_compute; reflexivity] ..
    | split_and!; [vm_compute; discriminate | vm_compute; reflexivity | discriminate | vm_compute; lia
                  | repeat constructor; vm_compute; discriminate]
    | vm_compute; reflexivity | vm_compute; reflexivity | reflexivity | exact Hafter].
Defined.

(** ** Pages *)

#[global] Instance string_lexico : Lexico string := λ s t, String.compare s t = Lt.
#[global] Instance string_lexico_strict : StrictOrder (@lexico string _).
Proof.
  split.
  - intros s Hs. unfold lexico, string_lexico in Hs. by rewrite (proj2 (string_compare_eq s s)) in Hs.
  - intros a b c. unfold lexico, string_lexico. apply (cmp_lt (cmp := String.compare)).
Qed.
#[global] Instance string_lexico_trichotomy : TrichotomyT (@lexico string _).
Proof.
  intros s t. unfold lexico, string_lexico. destruct (String.compare s t) eqn:Hc.
  - left. right. by apply string_compare_eq.
  - left. by left.
  - right. by rewrite (cmp_opp (cmp := String.compare)), Hc.
Defined.

Definition tuple_before : relation (instant * list string) := lexico.
#[global] Instance tuple_before_strict : StrictOrder tuple_before.
Proof. unfold tuple_before. apply _. Qed.
#[global] Instance tuple_before_dec : RelDecision tuple_before.
Proof. unfold tuple_before. apply trichotomyT_dec. Defined.

Definition sample_rows : list (instant * list string) :=
  [(3 * second, ["host-3"; "evt-4"]); (2 * second, ["host-3"; "evt-3"]);
   (2 * second, ["host-3"; "evt-2"]); (second, ["host-4"; "evt-1"])].
Definition toy_held : Dataset → Scope → TimeRange → option HuntExpression → list (instant * list string) :=
  λ _ _ _ _, sample_rows.
Definition toy_read (q : Query) : result SourceError (list (instant * list string)) :=
  Ok (take (Z.to_nat (q_limit q)) (remaining id tuple_before toy_held q)).

Lemma toy_paged : Paged id 2 tuple_before toy_read toy_held.
Proof.
  split.
  - intros ????. unfold toy_held, sample_rows, newer.
    repeat (constructor; [| repeat (constructor; [apply (bool_decide_unpack _); vm_compute; exact I |]); constructor]). constructor.
  - intros ????. unfold toy_held, sample_rows. repeat constructor; cbn; try done; vm_compute; done.
  - intros q Hl _. exists (take (Z.to_nat (q_limit q)) (remaining id tuple_before toy_held q)). split; [done |].
    split; [apply prefix_take |]. intros Hne Hnil. destruct (remaining id tuple_before toy_held q); [done |].
    destruct (Z.to_nat (q_limit q)) eqn:Hn; [lia | done].
Qed.

Lemma pages_read_everything_once_witness :
  follow "Detection" id toy_read 5 plane EventsDataset ["acme"] (sample_asked "root" "") = Some (Ok sample_rows).
Proof.
  apply (pages_read_everything_once "Detection" id 2 tuple_before toy_read toy_held (H3 := toy_paged) plane_limits
    "a key of thirty-two bytes, kept." plane EventsDataset ["acme"] (sample_asked "root" "") (sample_query "root" "") 5);
    [vm_compute; reflexivity | vm_compute; discriminate | reflexivity | vm_compute; reflexivity | vm_compute; lia].
Defined.

(** ** Requests *)

#[global] Instance toy_hunt_wire : HuntWire := {|
  ParseMediaType := Some;
  Unmarshal_query := λ payload, Some (sample_asked payload "");
|}.

Definition reads_events : Permission := mkPermission EventsResource Read.
Definition hunter_doc : RoleDoc := mkRoleDoc "hunter" "reads events" [reads_events].
Definition bob_doc : BindingDoc := mkBindingDoc "bob" ["hunter"] ["acme"].
Definition hunter_role : Role := mkRole "hunter" "reads events" [reads_events].
Definition bob : PolicyBinding := mkPolicyBinding "bob" ["hunter"] ["acme"].
Definition hunt_policy : Policy := policy_or (policy_Compile Datatypes.id [hunter_role] [bob]).

Definition bobs_request : HuntRequest :=
  mkHuntRequest (Some [["bob"; "root-ca"]]) "application/x-protobuf" (Some "root").
Definition idle_process : HuntProcess := mkHuntProcess None (mkCapacity 4 0 []).

Lemma pages_are_read_within_grants_witness :
  ∃ asked q, CompileQuery "Detection" plane EventsDataset (q_scope q) asked = Ok q
  ∧ toy_read q = Ok (take 2 sample_rows) ∧ "acme" ∈ q_scope q.
Proof.
  destruct (ServeHTTP hunt_policy EventsDataset (hunted "Detection" plane EventsDataset toy_read id) 1024 bobs_request 0
    idle_process) as [p' response] eqn:Hs.
  destruct (pages_are_read_within_grants "Detection" id toy_read Datatypes.id [hunter_doc] [bob_doc] [hunter_role] [bob]
    hunt_policy EventsDataset plane 1024 bobs_request 0 idle_process p' response) as (_ & _ & Hpage);
    [split; repeat constructor; vm_compute; reflexivity | vm_compute; reflexivity
    | split; vm_compute; [reflexivity | discriminate] | exact Hs |].
  vm_compute in Hs. injection Hs as _ Hr. destruct (Hpage _ _ (eq_sym Hr)) as (asked & q & Hq & Hread & Hscope).
  exists asked, q. split; [exact Hq |]. split; [exact Hread |].
  apply Hscope. exists bob_doc, hunter_doc. split_and!; try reflexivity; left.
Defined.

Lemma the_plane_holds_what_it_counts_witness :
  cap_inflight (foldl capacity_op (mkCapacity 2 0 []) [OpHold; OpHold; OpHold; OpRelease 0; OpRelease 0]) ≤ 2.
Proof. apply (the_plane_holds_what_it_counts 2 (mkCapacity 2 0 [])). reflexivity. Defined.

(** * An event at the gateway, at concrete inputs *)


(** Any text but none is an address, and is its own form. *)
#[global] Instance toy_event_contract : EventContract := {|
  Addr := string;
  ParseAddr := λ s, if bool_decide (s = "") then None else Some s;
  Unmap_String := λ a, if bool_decide (a = "") then "0.0.0.0" else a;
  Activity_named := λ z, (1 <=? z) && (z <=? 3);
  Outcome_named := λ z, (1 <=? z) && (z <=? 3);
  Transport_named := λ z, (0 <=? z) && (z <=? 2);
  proto_Size := λ _, 200;
|}.

#[global] Instance toy_address_laws : AddressLaws.
Proof.
  split. intros a. cbn. destruct (decide (a = "")) as [Ha|Ha].
  - rewrite (bool_decide_true (a = "")) by done. by eexists.
  - rewrite (bool_decide_false (a = "")) by done. rewrite bool_decide_false by done. by eexists.
Qed.

(** The capitals of Latin-1, and one letter whose lower case takes a byte more. *)
#[global] Instance toy_unicode_case : UnicodeCase := {|
  Unicode_lower r := if (192 <=? r) && (r <=? 222) && negb (r =? 215) then r + 32 else if r =? 570 then 11365 else r;
|}.

#[global] Instance toy_unicode_laws : UnicodeLaws.
Proof.
  split. intros r Hr. cbn. destruct ((192 <=? r) && (r <=? 222) && negb (r =? 215)) eqn:Hl.
  - apply andb_true_iff in Hl as [[Hl Hh]%andb_true_iff _]. apply Z.leb_le in Hl, Hh.
    unfold a_rune. rewrite (proj1 (proj2 (RuneLen_spec (r + 32)))) by lia. lia.
  - by destruct (r =? 570).
Qed.

Definition ten_o_clock : instant := unix_zero + 10 * hour.

Definition login_event : EventMessage :=
  mkEventMessage "evt-00001" 1 EVENT_CLASS_AUTHENTICATION
    (Some (mkTimesPart (Some (mkWireTime 36000 0)) (Some (mkWireTime 36000 0))))
    (Some (mkOriginPart "somebody-elses" "host-1" (Some (mkHostPart "WEB-01." "10.0.0.5" "Linux" "AMD64"))))
    (Some (mkCollectionPart "SSHD" "/var/log/auth.log" 7)) None
    (Some (mkAuthenticationBody 1 2 "" "PASSWORD" (Some (mkUserPart " root " "" "")) None
       (Some (mkNetworkPart 1 (Some (mkEndpointPart "203.0.113.10" 22)) None)) "")).

Definition accented_event : EventMessage :=
  mkEventMessage "evt-00002" 1 EVENT_CLASS_AUTHENTICATION
    (Some (mkTimesPart (Some (mkWireTime 36000 0)) (Some (mkWireTime 36000 0))))
    (Some (mkOriginPart "acme" "host-1" (Some (mkHostPart " ÉCRAN-01." "10.0.0.5" "ȺRCH" "AMD64"))))
    (Some (mkCollectionPart "SSHD" "/var/log/auth.log" 7)) None
    (Some (mkAuthenticationBody 1 2 "" "PASSWORD" (Some (mkUserPart " root " "CAFÉ" "")) None None "")).

Example accents_are_folded :
  event_fold " ÉCRAN-01." = "écran-01." ∧ event_fold "ȺRCH" = "Ⱥrch"
  ∧ strings_ToLower "ȺRCH" = "ⱥrch" ∧ slen (strings_ToLower "ȺRCH") = slen "ȺRCH" + 1.
Proof. vm_compute. by split_and!. Qed.

Lemma canonical_events_hold_to_the_contract_witness :
  ValidateContract (Some (normalizeAuthentication accented_event).1) = Ok tt.
Proof.
  apply (canonical_events_hold_to_the_contract accented_event); [| | vm_compute; reflexivity].
  - split_and!.
    + intros o h [= <-] [= <-]. vm_compute. reflexivity.
    + intros c [= <-]. vm_compute. discriminate.
    + intros a n [= <-] [=].
  - split_and!.
    + intros o h [= <-] [= <-]. vm_compute. by split_and!.
    + intros c [= <-]. vm_compute. reflexivity.
    + intros a [= <-]. split_and!; [vm_compute; reflexivity | intros u [= <-]; vm_compute; reflexivity | intros v [=]].
Defined.

Lemma a_canonical_event_may_break_the_contract_witness :
  ValidateContract (Some (spaced_event 1 2)) = Ok tt
  ∧ ValidateContract (Some (normalizeAuthentication (spaced_event 1 2)).1)
    = Err (mkEventViolation "collection.collector" IsRequired).
Proof. apply (a_canonical_event_may_break_the_contract 1 2); [lia | lia | reflexivity | reflexivity]. Defined.

(** ** Capacity *)

Lemma the_gateway_holds_what_is_reserved_witness :
  gc_held (foldl gateway_op (mkGatewayCapacity 100 2 0 0 [])
    [OpReserve 60; OpReserve 60; OpReserve 40; OpResize 0 20; OpFree 1; OpFree 1]) = 20.
Proof.
  etrans; [apply (the_gateway_holds_what_is_reserved 100 2 (mkGatewayCapacity 100 2 0 0 [])
    [OpReserve 60; OpReserve 60; OpReserve 40; OpResize 0 20; OpFree 1; OpFree 1]) | vm_compute; reflexivity].
  - reflexivity.
  - lia.
  - repeat constructor; cbn; lia.
Defined.

(** ** A batch *)

Definition gateway_policy : AdmissionPolicy := mkAdmissionPolicy "gw-1" 100 (mkEventPolicy minute (24 * hour)).
Definition login_batch : EventBatch := mkEventBatch 1 "batch-0001" [login_event].
Definition backbone (events : list EventMessage) : bool := true.

Lemma a_batch_is_taken_whole_witness :
  Admit gateway_policy backbone "host-1" "acme" ten_o_clock login_batch
  = (Some [stamp_event login_event "host-1" "acme" (mkReceptionPart ten_o_clock "gw-1" "batch-0001")], Ok 1).
Proof.
  apply (proj1 (a_batch_is_taken_whole gateway_policy backbone "host-1" "acme" ten_o_clock login_batch)).
  apply (bool_decide_unpack _). vm_compute. exact I.
Defined.

(** ** A request *)

#[global] Instance toy_protowire : Protowire := {|
  ConsumeTag := λ s, match s with String c _ => Some (1, VarintType, 1%nat) | EmptyString => None end;
  ConsumeBytes := λ s, None;
  ConsumeFieldValue := λ _ _ s, match s with String c _ => Some 1%nat | EmptyString => None end;
|}.

Definition batch_shapes (message : string) : shape := mkShape 64 (λ number, None).
Definition host_roster : Roster := <["host-1" := mkDecided true "acme" 1]> ∅.
Definition fresh_currency : Currency := mkCurrency minute ten_o_clock 0.
Definition sample_checks : list (instant * Checked) := [(ten_o_clock, Behind 0)].

Definition sample_gateway : Gateway :=
  mkGateway gateway_policy 1000 host_roster (checked_by fresh_currency sample_checks) None
    (mkGatewayCapacity 5000 2 0 0 []).

Definition sample_request : GatewayRequest :=
  mkGatewayRequest [["host-1"; "agents-ca"]] "application/x-protobuf" 4 (Some "body").

Lemma telemetry_is_the_rosters_witness :
  ∃ events, (gateway_ServeHTTP Some (λ _, Some login_batch) batch_shapes "EventBatch" backbone (ten_o_clock + second)
               sample_request sample_gateway).1.2 = Some events
  ∧ Forall (λ e, ∃ host, em_origin e = Some (mkOriginPart "acme" "host-1" host)) events.
Proof.
  destruct (gateway_ServeHTTP Some (λ _, Some login_batch) batch_shapes "EventBatch" backbone (ten_o_clock + second)
    sample_request sample_gateway) as [[g' published] response] eqn:Hs.
  destruct (telemetry_is_the_rosters Some (λ _, Some login_batch) batch_shapes "EventBatch" (λ _, ltac:(cbn; lia)) (10 * second)
    minute ten_o_clock fresh_currency sample_checks backbone (ten_o_clock + second) sample_request sample_gateway
    g' published response) as (_ & _ & _ & Hpub); try exact Hs.
  - reflexivity.
  - repeat constructor; vm_compute; reflexivity.
  - reflexivity.
  - split_and!; try (vm_compute; reflexivity); try (vm_compute; discriminate). constructor.
  - split; vm_compute; [reflexivity | discriminate].
  - destruct published as [events|]; [| vm_compute in Hs; discriminate].
    exists events. split; [reflexivity |]. destruct (Hpub _ eq_refl) as (agent & tenant & _ & _ & Ha & Ht & _ & _ & _ & Hall).
    injection Ha as <-. injection Ht as <-. rewrite Forall_forall in *. intros e He. by apply Hall in He as [? _].
Defined.
