(* ===== verification/SampleRulesets.v ===== *)
(** * Concrete rulesets and Sigma documents: a version published, read back and
    catalogued, and questions asked as Sigma asks them *)

From Stdlib Require Import ZArith Lia Ascii Floats.SpecFloat.
From stdpp Require Import base tactics option gmap strings pretty sorting numbers list.
From S2P Require Import Prelude Text Scan Rule Contract Validate WellFormed Compile CompileProps Contradiction RuleWire Digest Sample Snapshot Trust Catalogue Event Canonical SigmaCondition SigmaGrammar SigmaValue SigmaMeaning SigmaTranslate SampleHunt.

Definition no_url : string → option (string * string) := λ _, None.
Definition weightless : Program → Z := λ _, 0.
Definition tagged_digest (s : string) : string := String "#" s.
Definition written_duration (d : duration) : string := pretty d.

Definition program_or (r : result Violation Program) : Program :=
  match r with Ok p => p | Err _ => sample_program end.

Definition ssh_program : Program := program_or (CompileRule no_url weightless sample_match).

Definition renamed (id : string) (r : Rule) : Rule :=
  {| rule_id := id; rule_revision := rule_revision r; rule_name := rule_name r;
     rule_description := rule_description r; rule_class := rule_class r; rule_match := rule_match r;
     rule_count := rule_count r; rule_sequence := rule_sequence r; rule_severity := rule_severity r;
     rule_status := Disabled; rule_technique := rule_technique r;
     rule_false_positives := rule_false_positives r; rule_response := rule_response r;
     rule_source := rule_source r; rule_tags := rule_tags r; rule_references := rule_references r |}.

Definition other_program : Program := program_or (CompileRule no_url weightless (renamed "ssh_quiet" sample_match)).

Definition failing_case : Case :=
  mkCase "a failed login" "" ExpectsMatch {["authentication.outcome" := TextValue "failure"]}
    ["authentication.outcome"] no_severity.
Definition sample_cases : gmap string (list Case) := {["ssh_bruteforce" := [failing_case]]}.

Definition new_version := NewVersion tagged_digest written_duration.

Definition version_or (r : result RulesetError RulesetVersion) : RulesetVersion :=
  match r with
  | Ok v => v
  | Err _ => mkRulesetVersion (mkSnapshot "" [] ∅ 0) ∅ "" 0 ""
  end.

Definition first_version : RulesetVersion :=
  version_or (new_version [Some ssh_program] sample_cases "alice" 5 "the first").
Definition second_version : RulesetVersion :=
  version_or (new_version [Some other_program; Some ssh_program] sample_cases "alice" 6 "").

Lemma sample_built : built failed_by_others.
Proof.
  assert (∀ t, Forall constructed [TextValue t]) as Ht
    by (intros t; constructor; [left; by eexists | constructor]).
  apply built_all. constructor; [apply built_pred, Ht |].
  constructor; [apply built_not, built_pred, Ht | constructor].
Qed.

Lemma ssh_self_compiled : self_compiled no_url weightless ssh_program.
Proof.
  split_and!; [vm_compute; reflexivity | | vm_compute; discriminate | vm_compute; reflexivity].
  split; [apply sample_built | constructor].
Qed.

Lemma failing_case_told : told_case failing_case.
Proof.
  split_and!; [discriminate | by right |]. intros f v Hv. cbn [case_event failing_case] in Hv.
  apply lookup_singleton_Some in Hv as [_ <-]. left. by eexists.
Qed.

Lemma sample_cases_told id : Forall told_case (default [] (sample_cases !! id)).
Proof.
  unfold sample_cases. destruct (decide (id = "ssh_bruteforce")) as [->|Hne].
  - rewrite lookup_singleton_eq. constructor; [apply failing_case_told | constructor].
  - rewrite lookup_singleton_ne by done. constructor.
Qed.

Lemma published_versions_read_back_witness :
  ∃ v', DecodeVersion no_url weightless tagged_digest written_duration (Some (version_Encode first_version)) = Ok v'
  ∧ rv_snapshot v' = rv_snapshot first_version ∧ rv_Cases v' "ssh_bruteforce" = [failing_case].
Proof.
  destruct (published_versions_read_back no_url weightless tagged_digest written_duration [Some ssh_program]
    sample_cases "alice" 5 "the first" first_version) as (v' & Hd & Hs & _ & _ & _ & Hc).
  - discriminate.
  - intros p Hp%list_elem_of_singleton. injection Hp as ->. apply ssh_self_compiled.
  - apply sample_cases_told.
  - vm_compute. reflexivity.
  - exists v'. split_and!; [exact Hd | exact Hs |].
    etrans; [apply (Hc ssh_program) |]; [| vm_compute; reflexivity].
    vm_compute. left.
Defined.

Lemma rules_read_back_witness :
  decodeRule (Some (encodeRule sample_match [failing_case])) = Ok (sample_match, [failing_case]).
Proof.
  apply (rules_read_back no_url sample_match [failing_case]);
    [vm_compute; reflexivity | split; [vm_compute; discriminate | vm_compute; reflexivity]
    | split; [apply sample_built | constructor] | constructor; [apply failing_case_told | constructor]].
Defined.

(** A log of two versions that share a rule, and the first of them activated. *)
Definition toy_unmarshal (value : string) : option RulesetRecord :=
  if bool_decide (value = "first") then Some (version_Record first_version)
  else if bool_decide (value = "second") then Some (version_Record second_version)
  else if bool_decide (value = "activate") then Some (ActiveRecord (mkActivation (rv_id first_version) "alice" (Some 7) ""))
  else None.

Definition sample_log : list (string * bool) :=
  [("first", true); ("torn", true); ("second", true); ("activate", true); ("activate", false)].

Definition sample_catalogue : Catalogue.Catalogue :=
  read_published no_url weightless tagged_digest written_duration pretty toy_unmarshal sample_log NewCatalogue.

Example the_log_is_read :
  ca_order sample_catalogue = [rv_id first_version; rv_id second_version]
  ∧ ca_active sample_catalogue = Some (mkActivation (rv_id first_version) "alice" (Some 7) "")
  ∧ len (ca_activated sample_catalogue) = 1.
Proof. vm_compute. done. Qed.

Lemma a_revision_means_one_thing_witness :
  revised ssh_program = ("ssh_bruteforce", 1)
  ∧ program_Fingerprint tagged_digest written_duration
      (default ssh_program (head (sn_programs (rv_snapshot first_version))))
    = program_Fingerprint tagged_digest written_duration
      (default ssh_program (head (sn_programs (rv_snapshot second_version)))).
Proof.
  split; [vm_compute; reflexivity |].
  apply (a_revision_means_one_thing no_url weightless tagged_digest written_duration pretty toy_unmarshal
    sample_log (match catalogue_Versions sample_catalogue with v :: _ => v | [] => first_version end)
    (match catalogue_Versions sample_catalogue with _ :: v :: _ => v | _ => second_version end)).
  - fold sample_catalogue. vm_compute. left.
  - fold sample_catalogue. vm_compute. right. left.
  - vm_compute. left.
  - vm_compute. left.
  - vm_compute. reflexivity.
Defined.

Lemma ruleset_bytes_tell_rulesets_apart_witness :
  writes ([ssh_program] ≫= describe_rule written_duration)
  ≠ writes ([other_program] ≫= describe_rule written_duration).
Proof.
  intros Heq. apply (ruleset_bytes_tell_rulesets_apart written_duration) in Heq;
    [vm_compute in Heq; discriminate | apply (inj pretty)
    | repeat constructor; vm_compute; discriminate | repeat constructor; vm_compute; discriminate].
Defined.

(** A record that does not say when it was published is read as one published at
    the Unix epoch: [AsTime] of no timestamp is not the zero time [NewVersion]
    refuses. *)
Definition undated : WireVersion :=
  mkWireVersion (wv_id (version_Encode first_version)) "alice" None "" (wv_rules (version_Encode first_version)).

Example an_undated_version_is_read :
  match DecodeVersion no_url weightless tagged_digest written_duration (Some undated) with
  | Ok v => rv_at v = 62135596800 * second
  | Err _ => False
  end.
Proof. vm_compute. reflexivity. Qed.

(** * Sigma documents at concrete inputs *)

(** ** A contract with the fields of the taxonomy's text *)

Definition host_outcome : EnumDescriptor :=
  mkEnum "AuthenticationOutcome" [("AUTHENTICATION_OUTCOME_UNSPECIFIED", 0); ("AUTHENTICATION_OUTCOME_FAILURE", 2)].

#[local] Instance sigma_contract : Contract := {|
  message_fields name :=
    if decide (name = "Event") then
      [scalar "event_id" StringKind; message "origin" "Origin"; message "authentication" "Authentication"]
    else if decide (name = "Origin") then [message "host" "Host"]
    else if decide (name = "Host") then [scalar "hostname" StringKind]
    else if decide (name = "Authentication") then
      [choice_of "outcome" host_outcome; scalar "method" StringKind; message "user" "User"; message "service" "Service";
       message "network" "Network"]
    else if decide (name = "User") then [scalar "name" StringKind]
    else if decide (name = "Service") then [scalar "name" StringKind]
    else if decide (name = "Network") then [message "source" "Endpoint"]
    else if decide (name = "Endpoint") then [scalar "ip" StringKind; scalar "port" Uint32Kind]
    else [];
  event_message := "Event";
  event_oneofs := ["authentication"];
  EventClass_name z := if z =? 1 then Some "EVENT_CLASS_AUTHENTICATION" else None;
|}.

#[local] Instance toy_sigma_libraries : SigmaLibraries := {|
  ParseFloat s := float64_of_Z <$> ParseUint s;
  Decode_bool node :=
    if bool_decide (yn_value node = "true") then Some true
    else if bool_decide (yn_value node = "false") then Some false else None;
|}.

Definition said_node (value : string) : YamlNode := NodeOf ScalarNode "!!str" value [] None.
Definition listed (items : list YamlNode) : YamlNode := NodeOf SequenceNode "!!seq" "" items None.
Definition mapped_to (pairs : list (string * YamlNode)) : YamlNode :=
  NodeOf MappingNode "!!map" "" (concat ((λ p : string * YamlNode, [said_node p.1; p.2]) <$> pairs)) None.

(** ** A document *)

Definition failed_logins : YamlNode := mapped_to [
  ("title", said_node "Failed logins, as Root");
  ("author", said_node "somebody");
  ("description", said_node "Root could not log in.");
  ("level", said_node "High");
  ("logsource", mapped_to [("product", said_node "linux"); ("service", said_node "sshd")]);
  ("detection", mapped_to [
     ("selection", mapped_to [("Outcome", said_node "Failure"); ("AuthenticationPackageName|startswith", said_node "Pass")]);
     ("filter_backup", mapped_to [("ServiceName", listed [said_node "Backup"; said_node "Sync*"])]);
     ("timeframe", said_node "5m");
     ("condition", said_node "selection and not 1 of filter_* | count() by Computer > 19")])].

Definition failed_logins_rule : result TranslateFault Rule :=
  Translate (λ _, None) (λ _, 0) failed_logins.

Example failed_logins_translated :
  (λ r, (rule_id r, rule_match r, rule_count r)) <$> (match failed_logins_rule with Ok r => Some r | Err _ => None end)
  = Some ("failed_logins_as_root",
          All [All [Pred (mkPredicate "authentication.outcome" Equals [TextValue "failure"]);
                    Pred (mkPredicate "authentication.method" StartsWith [TextValue "pass"])];
               Not (Any [Pred (mkPredicate "authentication.service.name" Equals [TextValue "backup"]);
                         Pred (mkPredicate "authentication.service.name" StartsWith [TextValue "sync"])])],
          mkCount 20 (5 * minute) ["origin.host.hostname"]).
Proof. vm_compute. reflexivity. Qed.

Lemma nothing_of_a_document_is_dropped_witness :
  is_ok failed_logins_rule = true
  ∧ ∃ rule held node written, failed_logins_rule = Ok rule ∧ fieldsOf (Some failed_logins) = Ok held
      ∧ (∀ name, name ∈ mp_order held → name ∈ sigma_understood ++ sigma_ignored)
      ∧ sigma_resolve (snd <$> entry_of held "detection") = Some node
      ∧ fieldsOf (Some node) = Ok written ∧ detection_read written (rule_match rule) (rule_count rule).
Proof.
  assert (is_ok failed_logins_rule = true) as Hok by (vm_compute; reflexivity). split; [exact Hok |].
  destruct failed_logins_rule as [rule|] eqn:Hrule; [| discriminate Hok].
  destruct (nothing_of_a_document_is_dropped (λ _, None) (λ _, 0) failed_logins rule Hrule)
    as (held & node & written & H1 & H2 & H3 & H4 & H5 & _).
  exists rule, held, node, written. split_and!; assumption || reflexivity.
Defined.

(** ** A question, put to an event *)

Definition text_of (name text : string) : list (string * PValue) := if bool_decide (text = "") then [] else [(name, PString text)].
Definition part_of {A} (name : string) (part : option A) (tree_of : A → tree) : list (string * tree) :=
  match part with Some p => [(name, tree_of p)] | None => [] end.

(** An event as reflection shows the fields of this contract. *)
Definition event_tree (e : EventMessage) : tree :=
  Tree (em_class e) (text_of "event_id" (em_id e))
    (part_of "origin" (em_origin e) (λ o, Tree 0 []
       (part_of "host" (or_host o) (λ h, Tree 0 (text_of "hostname" (ho_hostname h)) [])))
     ++ part_of "authentication" (em_authentication e) (λ a, Tree 0 (text_of "method" (au_method a))
       (part_of "user" (au_user a) (λ u, Tree 0 (text_of "name" (us_name u)) [])
        ++ part_of "service" (au_service a) (λ s, Tree 0 (text_of "name" (sv_name s)) [])))).

Lemma text_read name text : (if bool_decide (is_Some (tree_value (Tree 0 (text_of name text) []) (scalar name StringKind)))
    then Some (default (PString "") (tree_value (Tree 0 (text_of name text) []) (scalar name StringKind))) else None)
  = PString <$> some_text text.
Proof.
  unfold text_of, some_text. destruct (decide (text = "")) as [->|Ht]; [done |].
  rewrite !(bool_decide_eq_false_2 (text = "")) by done. unfold tree_value, assoc. cbn [List.find fst fd_name scalar].
  by rewrite (bool_decide_eq_true_2 (name = name)).
Qed.

#[local] Instance reflected_events : ReflectedEvents tree.
Proof.
  refine {| reflected := event_tree |}. intros [i schema class times origin collection reception auth] field path Hin Hkind Hpath.
  repeat (apply elem_of_cons in Hin as [->|Hin]; [vm_compute in Hkind; try discriminate Hkind; vm_compute in Hpath; injection Hpath as <-;
    unfold text_at; compare_fields; cbn [em_authentication em_origin] |]); [.. | by apply elem_of_nil in Hin].
  - destruct origin, auth as [a|]; try reflexivity; exact (text_read "method" (au_method a)).
  - destruct origin, auth as [[? ? ? ? [u|] [s|] ? ?]|]; try reflexivity; exact (text_read "name" (us_name u)).
  - destruct origin, auth as [[? ? ? ? [u|] [s|] ? ?]|]; try reflexivity; exact (text_read "name" (sv_name s)).
  - destruct origin as [[? ? [h|]]|], auth; try reflexivity; exact (text_read "hostname" (ho_hostname h)).
Defined.

Definition reported_by (host service user : string) : EventMessage :=
  mkEventMessage "evt-00001" 1 EVENT_CLASS_AUTHENTICATION None (Some (mkOriginPart "acme" "host-1" (Some (mkHostPart host "" "" "")))) None None
    (Some (mkAuthenticationBody 1 2 "" "" (Some (mkUserPart user "" "")) (Some (mkServicePart service "")) None "")).
Definition asked_text (field : Field) (h : holding) (operator : option Operator) (cased : bool) : sigma_asked :=
  mkAsked (mkMapped field h) Text operator cased false false.

(** A question whose parts are known, put to an event. *)
Ltac asked_of_event key written held q node x e :=
  refine (a_question_asks_what_sigma_asks key _ written _ held q node x e _ _ _ _ _ _ _ _ _);
  [vm_compute; reflexivity | vm_compute; reflexivity | by (left; reflexivity) || (right; reflexivity) | vm_compute; reflexivity
  | vm_compute; reflexivity | cbn; intros ? [=]; subst; reflexivity || done | | | ].

Definition backup_service : YamlNode := listed [said_node "Backup"; said_node "*SYNC*"].

Lemma a_question_asks_what_sigma_asks_witness :
  (∃ x, question "ServiceName" backup_service = Ok x
     ∧ (denote x (reflected (normalizeAuthentication (reported_by "WEB-01." " RSync " "Root")).1) = true
        ↔ question_says (asked_text "authentication.service.name" folded None false) None backup_service (Some "RSync")))
  ∧ (∃ x, question "TargetUserName|cased" (said_node "root") = Ok x
     ∧ (denote x (reflected (normalizeAuthentication (reported_by "WEB-01." " RSync " "Root")).1) = true
        ↔ question_says (asked_text "authentication.user.name" preserved None true) None (said_node "root") (Some "Root")))
  ∧ (∃ x, question "Computer" (said_node "WEB-01.") = Ok x
     ∧ (denote x (reflected (normalizeAuthentication (reported_by "WEB-01." " RSync " "Root")).1) = true
        ↔ question_says (asked_text "origin.host.hostname" folded None false) None (said_node "WEB-01.") (Some "WEB-01"))).
Proof.
  split_and!.
  - destruct (question "ServiceName" backup_service) as [x|] eqn:Hx; [| vm_compute in Hx; discriminate Hx].
    exists x. split; [reflexivity |].
    asked_of_event "ServiceName" "" (mkMapped "authentication.service.name" folded) (asked_text "authentication.service.name" folded None false)
      backup_service x (reported_by "WEB-01." " RSync " "Root"); [| | exact Hx].
    + intros item item' Hin. cbn in Hin. repeat apply elem_of_cons in Hin as [-> | Hin];
        try (intros [= <-] l leading trailing Hl _; vm_compute in Hl; injection Hl as <- <- <-; vm_compute; by split).
      by apply elem_of_nil in Hin.
    + intros _ text Ht. vm_compute in Ht. injection Ht as <-. vm_compute. reflexivity.
  - destruct (question "TargetUserName|cased" (said_node "root")) as [x|] eqn:Hx; [| vm_compute in Hx; discriminate Hx].
    exists x. split; [reflexivity |].
    asked_of_event "TargetUserName|cased" "cased" (mkMapped "authentication.user.name" preserved)
      (asked_text "authentication.user.name" preserved None true) (said_node "root") x (reported_by "WEB-01." " RSync " "Root"); [| | exact Hx].
    + intros l leading trailing _ [=].
    + intros [=].
  - destruct (question "Computer" (said_node "WEB-01.")) as [x|] eqn:Hx; [| vm_compute in Hx; discriminate Hx].
    exists x. split; [reflexivity |].
    asked_of_event "Computer" "" (mkMapped "origin.host.hostname" folded) (asked_text "origin.host.hostname" folded None false)
      (said_node "WEB-01.") x (reported_by "WEB-01." " RSync " "Root"); [| | exact Hx].
    + intros l leading trailing Hl _. vm_compute in Hl. injection Hl as <- <- <-. vm_compute. by split.
    + intros _ text Ht. vm_compute in Ht. injection Ht as <-. vm_compute. reflexivity.
Defined.

(** Whoever is asked for by the service or, with |cased, by the user of the event; a rule
    that names a host with the dot its name ends in names no host, that of this event too. *)
Definition told_of_event (key : string) (node : YamlNode) : option bool :=
  match question key node with
  | Ok x => Some (denote x (reflected (normalizeAuthentication (reported_by "WEB-01." " RSync " "Root")).1))
  | Err _ => None
  end.
Example questions_answered :
  told_of_event "ServiceName" backup_service = Some true ∧ told_of_event "TargetUserName|cased" (said_node "root") = Some false
  ∧ told_of_event "TargetUserName|cased" (said_node "Root") = Some true ∧ told_of_event "Computer" (said_node "web-01") = Some true
  ∧ told_of_event "Computer" (said_node "WEB-01.") = Some false.
Proof. vm_compute. by split_and!. Qed.

(** ** What a translation says otherwise *)

(** A fragment loses the spaces around it: a name with [ ssh ] in it is asked for
    any name with [ssh] in it. *)
Example a_fragment_loses_its_spaces :
  question "ServiceName|contains" (said_node " ssh ")
  = Ok (Pred (mkPredicate "authentication.service.name" Contains [TextValue "ssh"])).
Proof. vm_compute. reflexivity. Qed.

(** The prefix of an address keeps the case it was written in, which no canonical
    address has. *)
Example a_prefix_of_an_address_keeps_its_case :
  question "SourceIp" (said_node "2001:DB8:*")
  = Ok (Pred (mkPredicate "authentication.network.source.ip" StartsWith [TextValue "2001:DB8:"])).
Proof. vm_compute. reflexivity. Qed.

(** A window past what a duration holds wraps: more than a thousand million years
    are a minute. *)
Example a_window_wraps : sigma_window "36028797018964028s" = Some minute.
Proof. vm_compute. reflexivity. Qed.

(** The id of a title drops what no id carries. *)
Example an_id_of_a_title : sigma_identify "  Root: 2 failed (logins)!" = Ok "root_2_failed_logins".
Proof. vm_compute. reflexivity. Qed.
