(* ===== verification/SampleInventory.v ===== *)
(** * Inventories and advisories at concrete inputs *)

From Stdlib Require Import ZArith Lia Ascii.
From stdpp Require Import base tactics option gmap strings pretty sorting numbers list.
From S2P Require Import Prelude Text Scan Hex Bytes Digest Agent Session Event Canonical Inventory Ecosystem Advisory Importer ImporterProps Sample SampleHunt SampleRulesets Trust Assessment Policy PolicyProps Status SampleUpdates.

(** ** A record of packages *)

Definition kind_number (kind : InventoryKind) : Z :=
  match kind with
  | KIND_OPERATING_SYSTEM => 1 | KIND_KERNEL => 2 | KIND_HARDWARE => 3 | KIND_PACKAGE => 4 | KIND_SERVICE => 5
  | KIND_NETWORK_INTERFACE => 6 | KIND_USER => 7 | KIND_PROCESS => 8
  end.

#[local] Instance toy_inventory : InventoryContract := {|
  Kind_value := kind_number;
  Kind_named kind := if kind =? 4 then Some "KIND_PACKAGE" else None;
  Mode_named mode := (0 <=? mode) && (mode <=? 2);
  MODE_DELTA := 2;
  Service_State_named state := state =? 1;
  Interface_State_named state := state =? 1;
  ParsePrefix _ := false;
  record_Size _ := 100;
|}.

Definition kernel_rpm (version : string) : Item := ItemPackage (mkPackagePart "kernel" version "x86_64" "rpm" "" "" None).
Definition kernels : InventoryRecord :=
  mkInventoryRecord "record-0001" 1 4 1 None None None [kernel_rpm "5.14.0-1"; kernel_rpm "5.14.0-2"].

Definition package_instance (i : Item) : string * bool :=
  match sh_instance (shape_of KIND_PACKAGE) with Some instance => instance i | None => ("", false) end.

Lemma a_record_keeps_instances_apart_witness :
  ItemIDs id kernels !! 0%nat ≠ ItemIDs id kernels !! 1%nat.
Proof.
  destruct (a_record_keeps_instances_apart id kernels KIND_PACKAGE package_instance 0 1
    (kernel_rpm "5.14.0-1") (kernel_rpm "5.14.0-2")) as [Hiff _];
    [reflexivity | reflexivity | | reflexivity.. |].
  - intros a b p q Ha Hb Hp Hq Heq. cbn in Ha, Hb. rewrite !elem_of_cons, elem_of_nil in Ha, Hb.
    apply written_parts_inj in Heq as [_ Heq]; [done |..].
    all: destruct Ha as [-> | [-> | []]], Hb as [-> | [-> | []]], Hp as [-> | ->], Hq as [-> | ->].
    all: apply (bool_decide_unpack _); vm_compute; exact I.
  - intros Heq. apply Hiff in Heq as [_ Heq]. vm_compute in Heq. discriminate.
Defined.

(** An account that names no identifier has its name for an identity, and one whose
    identifier is that name has the same. *)
Example a_name_is_taken_for_an_identifier :
  itemID id 7 (ItemUser (mkAccountPart "1000" "" "" "" "" [] None))
  = itemID id 7 (ItemUser (mkAccountPart "alice" "1000" "" "" "" [] None)).
Proof. vm_compute. reflexivity. Qed.

(** ** A record of OSV *)

#[local] Instance toy_advisories : AdvisoryContract := {|
  Severity_TYPE_CVSS_V2 := 1; Severity_TYPE_CVSS_V3 := 2; Severity_TYPE_CVSS_V4 := 3; Severity_TYPE_UBUNTU := 4;
  Severity_Type_named kind := (0 <=? kind) && (kind <=? 4);
  Range_TYPE_ECOSYSTEM := 1; Range_TYPE_SEMVER := 2;
  Range_Type_named kind := (0 <=? kind) && (kind <=? 2);
  OUTCOME_COMPLETE := 1; OUTCOME_PARTIAL := 2; OUTCOME_FAILED := 3;
  Sync_Outcome_named outcome := (0 <=? outcome) && (outcome <=? 3);
  advisory_Size _ := 100;
  ParseRFC3339 spelled := if bool_decide (spelled = "10:00") then Some ten_o_clock
                          else if bool_decide (spelled = "11:00") then Some (ten_o_clock + hour) else None;
  Unicode_ToUpper := ToUpper;
|}.

#[local] Instance toy_advisory_laws : AdvisoryLaws.
Proof. split; repeat constructor; discriminate. Qed.

Definition openssl_entry : OsvAffected :=
  mkOsvAffected "Debian:12" "openssl" [mkOsvSeverity "CVSS_V3" "AV:N" ""]
    [mkOsvRange "GIT" []; mkOsvRange "ECOSYSTEM" [mkOsvBoundary (Some "0") None None None; mkOsvBoundary None (Some "3.0.1") None None]] [].

Definition openssl_record (modified : string) : OsvRecord :=
  mkOsvRecord "1.6.0" "DSA-1" modified "" "" ["cve-2024-1"; "DSA-1"] [] [] "a flaw" "" [] [openssl_entry].

Definition a_digest : string := "aaaaaaaaaaaaaaaaaaaaaaaaaaaaaaaaaaaaaaaaaaaaaaaaaaaaaaaaaaaaaaaa".

Definition openssl_advisory : Advisory :=
  match osv_Translate (openssl_record "10:00") with Ok a => a | Err _ => mkAdvisory 0 "" "" None None None [] [] [] "" "" [] [] None end.

Lemma a_translation_is_taken_when_it_fits_witness :
  advisory_Validate (located openssl_advisory "Debian" "v1" "feed/DSA-1" a_digest ten_o_clock) = Ok tt
  ∧ advisory_fits openssl_advisory
  ∧ ¬ times_at (av_modified openssl_advisory)
      ≤ time_add (fetched_at (located openssl_advisory "Debian" "v1" "feed/DSA-1" a_digest (ten_o_clock - 2 * hour))) AdvisoryClockSkew.
Proof.
  assert (advisory_Validate (located openssl_advisory "Debian" "v1" "feed/DSA-1" a_digest ten_o_clock) = Ok tt) as Hok
    by (vm_compute; reflexivity).
  split; [exact Hok |]. split; [| vm_compute; by intros Hle].
  eapply (a_translation_is_taken_when_it_fits (openssl_record "10:00") openssl_advisory "Debian" "v1" "feed/DSA-1" a_digest);
    [vm_compute; reflexivity | discriminate.. | vm_compute; reflexivity | vm_compute; reflexivity | exact Hok].
Defined.

(** ** Importers *)

Definition osv_read (body : string) : option Advisory :=
  match osv_Translate (openssl_record body) with Ok a => Some a | Err _ => None end.

Lemma osv_read_source body a : osv_read body = Some a → av_source a = OsvSource.
Proof.
  unfold osv_read, osv_Translate. intros Hread.
  repeat (case_match; try discriminate). simplify_eq. reflexivity.
Qed.

Definition toy_feed_hashing : FeedHashing := {| Sum256_hex := λ _, a_digest; marshal_advisory := λ a, av_id a |}.

Definition running_at (i : Importer) : Running := mkRunning i ∅ [] [].
Definition new_importer (feeds : list string) : Running := running_at (default (mkImporter ∅ ∅) (NewImporter feeds)).

(** What a goroutine does next, when it can. *)
Inductive doing_next :=
| ReadIndex (feed : string) (index : FeedIndex)
| TakeAnswer (feed id : string) (answer : feed_answer Fetched)
| WriteBatch (feed : string)
| HoldBatch (feed : string).

Definition next_step (r : Running) (s : doing_next) : Running :=
  match s with
  | ReadIndex feed index =>
      let '(i, d) := begin_attempt 1 feed ten_o_clock (Answered index) (rn_importer r) in now_doing r i feed d []
  | TakeAnswer feed id answer =>
      match doing_of r feed with
      | Reading t =>
          match List.find (λ l, bool_decide (li_id l = id)) (at_asked t) with
          | Some listing =>
              let '(i, t) := take_answer 1 feed (settle 1 toy_feed_hashing osv_read feed (at_version t) (ten_o_clock + hour) listing answer)
                               (rn_importer r) t in now_doing r i feed (Reading t) []
          | None => r
          end
      | _ => r
      end
  | WriteBatch feed =>
      match doing_of r feed with
      | Reading t => now_doing r (rn_importer r) feed (Written t) (RecordAdvisory ∘ told_advisory <$> at_batch t)
      | _ => r
      end
  | HoldBatch feed =>
      match doing_of r feed with
      | Written t => let '(i, t) := hold_batch feed (rn_importer r) t in now_doing r i feed (Reading t) []
      | _ => r
      end
  end.

Definition may_list (feed id : string) : bool :=
  bool_decide (id = "DSA-1" ∧ feed = "Debian") || bool_decide (id = "USN-1" ∧ feed = "Ubuntu").

Definition enabled (feeds : list string) (lists : string → string → bool) (r : Running) (s : doing_next) : bool :=
  match s with
  | ReadIndex feed index =>
      bool_decide (feed ∈ feeds) && match doing_of r feed with Waiting => true | _ => false end
      && forallb (λ l, lists feed (li_id l)) (fi_listings index)
  | TakeAnswer feed id answer =>
      match doing_of r feed with
      | Reading t => negb (batch_full 10 t) && bool_decide (is_Some (List.find (λ l, bool_decide (li_id l = id)) (at_asked t)))
      | _ => false
      end
  | WriteBatch feed =>
      match doing_of r feed with
      | Reading t => all_answered t && bool_decide (at_batch t ≠ []) && negb (at_unwritable t)
      | _ => false
      end
  | HoldBatch feed => match doing_of r feed with Written t => true | _ => false end
  end.

Fixpoint all_enabled (feeds : list string) (lists : string → string → bool) (r : Running) (steps : list doing_next) : bool :=
  match steps with
  | [] => true
  | s :: steps => enabled feeds lists r s && all_enabled feeds lists (next_step r s) steps
  end.

Abbreviation sample_went feeds lists :=
  (went_through OsvSource 1 10 toy_feed_hashing osv_read feeds (λ feed id, lists feed id = true) (ten_o_clock + hour)).

Lemma step_follows feeds lists r s : enabled feeds lists r s = true →
  follows_on OsvSource 1 10 toy_feed_hashing osv_read feeds (λ feed id, lists feed id = true) (ten_o_clock + hour) r (next_step r s).
Proof.
  destruct s as [feed index|feed id answer|feed|feed]; cbn [enabled next_step].
  - intros [[Hin Hd]%andb_true_iff Hlists]%andb_true_iff. destruct (begin_attempt _ _ _ _ _) as [i d] eqn:Hbegin.
    eapply Indexes with (why := ""); [by to_prop | by destruct (doing_of r feed) | | exact Hbegin | by left].
    intros ix l [= <-] Hl. rewrite forallb_forall in Hlists. by apply Hlists, list_elem_of_In.
  - destruct (doing_of r feed) as [|t|] eqn:Hd; try done. intros [Hfull Hfind]%andb_true_iff.
    destruct (List.find _ _) as [listing|] eqn:Hl; [| by apply bool_decide_eq_true in Hfind as [? ?]].
    apply find_some in Hl as [Hl%list_elem_of_In _]. destruct (take_answer _ _ _ _ _) as [i t'] eqn:Htake.
    eapply Answers; [exact Hd | by apply negb_true_iff | exact Hl | done | exact Htake].
  - destruct (doing_of r feed) as [|t|] eqn:Hd; try done. intros [[Hall Hne]%andb_true_iff Hun]%andb_true_iff.
    apply bool_decide_eq_true in Hne. apply negb_true_iff in Hun. by eapply Publishes; [| right | |].
  - destruct (doing_of r feed) as [| |t] eqn:Hd; try done. intros _. destruct (hold_batch _ _ _) as [i t'] eqn:Hhold. by eapply Holds.
Qed.

Lemma steps_went feeds lists steps : ∀ r, sample_went feeds lists r → all_enabled feeds lists r steps = true →
  sample_went feeds lists (foldl next_step r steps).
Proof.
  induction steps as [|s steps IH]; intros r Hr; cbn [all_enabled foldl]; [done |].
  intros [Hs Hsteps]%andb_true_iff. apply IH; [| done]. by eapply later; [exact Hr | | by apply step_follows].
Qed.

(** The importer follows two feeds; one of its goroutines wrote a batch the importer does
    not hold yet when it crashes. *)
Definition two_feeds : list string := ["Debian"; "Ubuntu"].
Definition one_record (version : string) : FeedIndex := mkFeedIndex [mkListing "DSA-1" ten_o_clock] version false 0.
Definition debian_steps : list doing_next :=
  [ReadIndex "Debian" (one_record "v1"); ReadIndex "Ubuntu" (mkFeedIndex [mkListing "USN-1" ten_o_clock] "u1" false 0);
   TakeAnswer "Debian" "DSA-1" (Answered (mkFetched "10:00" "feed/DSA-1")); TakeAnswer "Ubuntu" "USN-1" IsGone;
   WriteBatch "Debian"].
Definition before_crash : Running := foldl next_step (new_importer two_feeds) debian_steps.
Definition recalled (r : Running) : Importer :=
  Recall OsvSource toy_feed_hashing (ten_o_clock + hour) (rn_importer (new_importer two_feeds)) (rn_log r).

Lemma a_restarted_importer_holds_what_it_held_witness :
  (hd_modified <$> im_held (recalled before_crash) !! "DSA-1") = Some ten_o_clock
  ∧ im_held (rn_importer before_crash) !! "DSA-1" = None
  ∧ im_held (recalled before_crash) !! "DSA-1"
    = match doing_of before_crash "Debian" with
      | Written t => im_held (hold_batch "Debian" (rn_importer before_crash) t).1 !! "DSA-1"
      | _ => im_held (rn_importer before_crash) !! "DSA-1"
      end.
Proof.
  split; [vm_compute; reflexivity |]. split; [vm_compute; reflexivity |].
  apply (a_restarted_importer_holds_what_it_held OsvSource 1 10 toy_feed_hashing osv_read two_feeds (λ feed id, may_list feed id = true)
    (ten_o_clock + hour) before_crash (ten_o_clock + hour) (rn_importer (new_importer two_feeds)) "Debian" "DSA-1" osv_read_source).
  - intros other Ho. unfold may_list in Ho. apply orb_true_iff in Ho as [Ho|Ho]; to_prop; naive_solver.
  - apply steps_went; [apply first_start; vm_compute; reflexivity | vm_compute; reflexivity].
  - vm_compute. reflexivity.
  - vm_compute. discriminate.
  - intros Hin. vm_compute in Hin. by apply elem_of_nil in Hin.
Defined.

(** Two feeds that list one record: the later version is written first and held last, and
    the importer goes on holding the earlier one, until a restart reads back the later. *)
Definition racing_steps : list doing_next :=
  [ReadIndex "Debian" (one_record "v1"); ReadIndex "Ubuntu" (one_record "u1");
   TakeAnswer "Debian" "DSA-1" (Answered (mkFetched "11:00" "debian/DSA-1"));
   TakeAnswer "Ubuntu" "DSA-1" (Answered (mkFetched "10:00" "ubuntu/DSA-1"));
   WriteBatch "Debian"; HoldBatch "Debian"; WriteBatch "Ubuntu"; HoldBatch "Ubuntu"].
Definition after_race : Running := foldl next_step (new_importer two_feeds) racing_steps.

Example two_feeds_race_over_one_record :
  all_enabled two_feeds (λ _ _, true) (new_importer two_feeds) racing_steps = true
  ∧ hd_modified <$> im_held (rn_importer after_race) !! "DSA-1" = Some ten_o_clock
  ∧ hd_modified <$> im_held (recalled after_race) !! "DSA-1" = Some (ten_o_clock + hour).
Proof. vm_compute. by split_and!. Qed.

(** ** A policy *)

#[local] Instance toy_assessments : AssessmentContract := {|
  Presence_named presence := (0 <=? presence) && (presence <=? 2); PRESENCE_FORBIDDEN := 2;
  File_Kind_named kind := (0 <=? kind) && (kind <=? 3);
  Rule_named rule := (0 <=? rule) && (rule <=? 3); RULE_GROUP_HAS_NO_MEMBERS := 3;
  Startup_named startup := (0 <=? startup) && (startup <=? 2);
  Activity_named_service activity := (0 <=? activity) && (activity <=? 2);
  Source_named source := (0 <=? source) && (source <=? 2); SOURCE_LOGIN_DEFS := 2;
  Assessed_Outcome_named outcome := (0 <=? outcome) && (outcome <=? 4);
|}.

#[local] Instance toy_policies : PolicyContract := {|
  LogLevel_named level := (0 <=? level) && (level <=? 4);
  Module_named module := (0 <=? module) && (module <=? 6);
  Collection_named collection := (0 <=? collection) && (collection <=? 2);
  MODULE_INVENTORY := 1; MODULE_PROCESSES := 2; MODULE_FILES := 3; MODULE_NETWORK := 4; MODULE_ASSESSMENT := 5;
  path_Match_takes pattern := negb (StringContains pattern "[");
|}.

Definition password_age : DirectiveTest := mkDirectiveTest 2 "PASS_MAX_DAYS" [] (Some 1) (Some 90) "0x1F".
Definition password_check : Check_ := mkCheck "password-age" "passwords expire" (Some (CheckDirective password_age)).

Definition files_module : ModuleSettings :=
  mkModuleSettings 3 1 (Some (mkWireDuration 300 0)) (Some ["/etc"; "/usr/bin"]) (Some ["/etc/ssl/private"; "*.swp"]).

Definition no_budgets : PolicyBudgets := mkPolicyBudgets 0 0 0 0 0 0 0 0 0 None.

Definition sample_agent_policy (revision : Z) : AgentPolicy :=
  mkAgentPolicy 1 "baseline" revision ["web-01"]
    (mkPolicySettings 1 [files_module] no_budgets (Some [password_check]))
    (Some (mkWireTime 0 0)) (Some (mkWireTime 86400 0)).

Lemma what_an_accepted_policy_watches_witness :
  policy_Validate (sample_agent_policy 1) ten_o_clock = None ∧ scoped files_module.
Proof.
  assert (policy_Validate (sample_agent_policy 1) ten_o_clock = None) as Hvalid by (vm_compute; reflexivity).
  split; [exact Hvalid |]. apply (what_an_accepted_policy_watches (sample_agent_policy 1) ten_o_clock Hvalid). by left.
Defined.

(** A check whose bounds are met reads login.defs the way its program does. *)
Example login_defs_are_read_in_c : Integer 2 "0x1F" = Some 31 ∧ Integer 2 "010" = Some 8 ∧ Integer 1 "010" = Some 10.
Proof. vm_compute. done. Qed.

Definition policy_payload (revision : Z) : string := if revision =? 1 then "policy 1" else "policy 2".

#[local] Instance toy_policy_libraries : @PolicyLibraries toy_signing := {|
  pem_Decode := λ rest, Some ("PUBLIC KEY", rest, "");
  MarshalPKIXPublicKey := λ key : @PublicKey toy_signing, Some key;
  unmarshal_policy := λ payload,
    if bool_decide (payload = "policy 1") then Some (sample_agent_policy 1, empty_message)
    else if bool_decide (payload = "policy 2") then Some (sample_agent_policy 2, empty_message) else None;
  marshal_signed := λ e, Some (env_payload e);
|}.

Definition publish_revision (revision : Z) : Publication :=
  mkPublication "acme" "" (Some (envelope_of PolicyPayloadType (policy_payload revision) ["k1"])).
Definition policy_signers : Signers := [(hex_encode "k1", "k1")].

Definition accepted_policy (revision : Z) : Accepted :=
  match Accept (publish_revision revision) policy_signers "operator" ten_o_clock with
  | Ok accepted => accepted
  | Err _ => mkAccepted (mkPublishedPolicy "" 0 "" None None 0 "" [] "" 0 "" (mkEnvelope "" "" [])) "" []
  end.
Definition registered_tables : PolicyTables := mkPolicyTables (<["web-01" := ("acme", Active)]> ∅) [] [].
Definition after_first_policy : PolicyTables := (policies_Publish (accepted_policy 1) registered_tables).1.
Definition after_second : PolicyTables := (policies_Publish (accepted_policy 2) after_first_policy).1.
Definition policy_log : list publishing :=
  ([] ++ [mkPublishing (publish_revision 1) policy_signers ten_o_clock (accepted_policy 1)])
  ++ [mkPublishing (publish_revision 2) policy_signers ten_o_clock (accepted_policy 2)].

Lemma policy_tables_reached : policies_reach after_second policy_log.
Proof.
  apply (reach_publish after_first_policy _ (publish_revision 2) policy_signers "operator" ten_o_clock (accepted_policy 2)
    after_second (ac_record (accepted_policy 2))); [| vm_compute; reflexivity | vm_compute; reflexivity].
  apply (reach_publish registered_tables [] (publish_revision 1) policy_signers "operator" ten_o_clock (accepted_policy 1)
    after_first_policy (ac_record (accepted_policy 1))); [| vm_compute; reflexivity | vm_compute; reflexivity].
  apply (reach_register (mkPolicyTables ∅ [] []) [] "web-01" "acme" Active); [constructor | reflexivity].
Qed.

Lemma an_agent_is_handed_its_newest_policy_witness :
  policies_Served "web-01" after_second = Ok (mkServedPolicy Active (Some (2, "policy 2", hex_encode "policy 2")))
  ∧ ∃ e envelope policy, e ∈ policy_log
      ∧ stands_behind (pe_asked e) (pe_signers e) (pe_at e) (pe_accepted e) envelope policy ∧ po_revision policy = 2.
Proof.
  assert (policies_Served "web-01" after_second = Ok (mkServedPolicy Active (Some (2, "policy 2", hex_encode "policy 2")))) as Hserved
    by (vm_compute; reflexivity).
  split; [exact Hserved |].
  destruct (an_agent_is_handed_its_newest_policy after_second policy_log "web-01" _ policy_tables_reached Hserved)
    as (tenant & _ & e & envelope & policy & He & _ & Hstands & _ & Hrevision & _).
  exists e, envelope, policy. split; [exact He |]. split; [exact Hstands | exact Hrevision].
Defined.

(** ** A report *)

#[local] Instance toy_statuses : StatusContract := {|
  Condition_named condition := (0 <=? condition) && (condition <=? 4); CONDITION_STOPPED := 4;
  Ending_named ending := (0 <=? ending) && (ending <=? 2);
  Update_Stage_named stage := (0 <=? stage) && (stage <=? 5);
  Update_Failure_named failure := (0 <=? failure) && (failure <=? 3);
  Format_named format := (0 <=? format) && (format <=? 1);
  status_Size _ := 400;
|}.

Definition sample_report : AgentStatus :=
  mkAgentStatus 1 "installation-01" 7 (Some (mkWireTime 10 0)) (Some (mkWireDuration 60 0))
    (Some (mkOriginPart "acme" "web-01" None))
    (Some (mkStatusRun "boot" (Some (mkWireTime 1 0)) 0 None ""))
    (Some (mkStatusBuild "1.4.0" "" "" "linux" "amd64")) 1
    [mkStatusPart "spool" 1 None ""] [] (Some [mkStatusStream "events" None None None None]) None
    (Some (mkStatusConfiguration (hex_encode "0123456789abcdef0123456789abcdef") "" None))
    (Some (mkStatusPrivileges "seagull" [] [] "")) None None.

Lemma silence_is_measured_from_arrival_witness :
  status_ValidateContract (Some sample_report) = Ok tt
  ∧ report_Liveness (mkHeardReport ten_o_clock (Some sample_report)) (ten_o_clock + 2 * minute) = LIVENESS_ACTIVE
  ∧ report_Liveness (mkHeardReport ten_o_clock (Some sample_report)) (ten_o_clock + 2 * minute + 1) = LIVENESS_LATE
  ∧ report_Liveness (mkHeardReport ten_o_clock (Some sample_report)) (ten_o_clock + 6 * minute) = LIVENESS_SILENT.
Proof.
  assert (status_ValidateContract (Some sample_report) = Ok tt) as Hvalid by (vm_compute; reflexivity).
  split; [exact Hvalid |].
  pose proof (proj1 (silence_is_measured_from_arrival sample_report ten_o_clock Hvalid ltac:(vm_compute; discriminate))) as Hspec.
  split; [| split]; rewrite Hspec; vm_compute; reflexivity.
Defined.

(** ** A check *)

Definition password_days : DirectiveTest := mkDirectiveTest 2 "PASS_MAX_DAYS" [] (Some 1) (Some 365) "0x63".

Lemma an_accepted_check_can_be_met_witness :
  validateDirective password_days = []
  ∧ (∃ value, Normalized value MaxDirectiveValueLength = true ∧ meets 2 [] (Some 1) (Some 365) value).
Proof.
  assert (validateDirective password_days = []) as Hvalid by (vm_compute; reflexivity). split; [exact Hvalid |].
  apply (proj1 an_accepted_check_can_be_met password_days Hvalid); intros n [= <-]; vm_compute; split; (discriminate || reflexivity).
Defined.
