(* ===== verification/Trail.v ===== *)
(** * Trails: the lines the control stores keep of a life

    What the stores of alerts and incidents share: the state a column keeps, the table of
    transitions, the line a move writes and the reading of a trail (state, trail and
    restoreTransition of postgres/alerts.go; incidentState, incidentTrail and
    restoreIncidentTransition of postgres/incidents.go say the same of an incident). *)

From Stdlib Require Import ZArith Lia Ascii.
From stdpp Require Import base tactics option gmap strings pretty sorting numbers list.
From S2P Require Import Prelude Text Scan Hex Bytes Session Event Canonical Assessment Triage Listing.

Record TrailRow := mkTrailRow {
  tw_id : string; tw_revision : Z; tw_from : string; tw_to : string; tw_assignee : string; tw_actor : string;
  tw_at : instant; tw_note : string;
}.
(** By its primary key: what it is about and the revision. *)
Abbreviation TrailTable := (gmap (string * Z) TrailRow) (only parsing).

Definition state_column (value : WireState) : string :=
  match FromWire value with Some named => named | None => "" end.

Definition states_asked (asked : list WireState) : list string := filter (λ written, written ≠ "") (state_column <$> asked).

Definition int32 (z : Z) : Z := (z + 2 ^ 31) mod 2 ^ 32 - 2 ^ 31.

(** INSERT ... ON CONFLICT DO NOTHING. *)
Definition insert_once {K V} `{EqDecision K, Countable K} (k : K) (v : V) (m : gmap K V) : gmap K V :=
  if bool_decide (is_Some (m !! k)) then m else <[k := v]> m.

Section trail.
Context {postgres : Postgres}.

Definition trail_columns (line : Transition) : TrailRow :=
  mkTrailRow (tn_id line) (int64 (tn_revision line)) (state_column (tn_from line)) (state_column (tn_to line))
    (tn_assignee line) (tn_actor line) (timestamptz (tn_at line)) (tn_note line).

Definition insert_line (line : Transition) (table : TrailTable) : TrailTable :=
  let written := trail_columns line in insert_once (tw_id written, tw_revision written) written table.

Definition restoreTransition (row : TrailRow) : Transition :=
  mkTransition (tw_id row) (uint64 (tw_revision row)) (Wire (tw_from row)) (Wire (tw_to row)) (tw_assignee row)
    (tw_actor row) (tw_at row) (tw_note row).

(** ORDER BY revision. *)
Definition lines_of (table : TrailTable) (id : string) : list TrailRow :=
  ordered_rows tw_revision Z.ltb (filter (λ row, tw_id row = id) (map_to_list table).*2).

(** ** What columns keep of a state *)

Lemma FromWire_states w s : FromWire w = Some s → s ∈ states ∧ Wire s = w.
Proof. by apply FromWire_Wire. Qed.

Lemma state_column_Wire s : s ∈ states → state_column (Wire s) = s.
Proof. intros Hs. unfold state_column. by rewrite (proj2 (FromWire_Wire s (Wire s)) (conj Hs eq_refl)). Qed.

Lemma Wire_state_column w : is_Some (FromWire w) → Wire (state_column w) = w ∧ state_column w ∈ states ∧ state_column w ≠ "".
Proof.
  intros [s Hs]. unfold state_column. rewrite Hs. apply FromWire_states in Hs as [Hin <-]. split_and!; [done | done |].
  intros ->. unfold states in Hin. set_solver.
Qed.

Lemma insert_once_new {K V} `{Countable K} (k : K) (v : V) m : m !! k = None → insert_once k v m = <[k := v]> m.
Proof. intros Hk. unfold insert_once. rewrite bool_decide_false; [done |]. rewrite Hk. by intros [? ?]. Qed.


(** ** Lives *)

(** Where what is worked stands: its revision, its state and who changed it last and when. *)
Record place_held := mkStanding { sg_revision : Z; sg_state : string; sg_by : string; sg_at : instant }.

Definition keyed_trail (table : TrailTable) : Prop :=
  ∀ k line, table !! k = Some line → (tw_id line, tw_revision line) = k.

(** The trail of one thing: a line for each revision and no other, each leading from the
    state the one before it left along a legal edge or staying, signed, and the last telling
    where it stands. *)
Record life (table : TrailTable) (id : string) (s : place_held) : Prop := {
  lf_revision : 1 ≤ sg_revision s < 2 ^ 63;
  lf_lines r : is_Some (table !! (id, r)) ↔ 1 ≤ r ≤ sg_revision s;
  lf_first line : table !! (id, 1) = Some line → tw_from line = "" ∧ tw_to line = Open ∧ tw_actor line ≠ "";
  lf_next r line next : table !! (id, r) = Some line → table !! (id, r + 1) = Some next →
    tw_from next = tw_to line ∧ (tw_to next = tw_from next ∨ Legal (tw_from next) (tw_to next) = true) ∧ tw_actor next ≠ "";
  lf_now line : table !! (id, sg_revision s) = Some line →
    tw_to line = sg_state s ∧ tw_actor line = sg_by s ∧ tw_at line = sg_at s ∧ sg_state s ∈ states;
}.

(** A life that only other things' lines were added to. *)
Lemma life_other table table' id s :
  life table id s → (∀ r, table' !! (id, r) = table !! (id, r)) → life table' id s.
Proof. intros [? ? ? ? ?] Ht. split; try done; intros *; rewrite ?Ht; eauto. Qed.

Lemma keyed_insert table line k :
  keyed_trail table → (tw_id line, tw_revision line) = k → keyed_trail (<[k := line]> table).
Proof. intros Hk He k' line'. rewrite lookup_insert_Some. intros [[<- <-] | [_ H]]; [done | by apply Hk]. Qed.

Lemma life_raised table id line :
  (∀ r, table !! (id, r) = None) → tw_from line = "" → tw_to line = Open → tw_actor line ≠ "" →
  life (<[(id, 1) := line]> table) id (mkStanding 1 Open (tw_actor line) (tw_at line)).
Proof.
  intros Hnone Hfrom Hto Hactor. split; cbn [sg_revision sg_state sg_by sg_at].
  - lia.
  - intros r. rewrite lookup_insert_is_Some. destruct (decide (r = 1)) as [-> | Hr].
    + split; [lia | by left].
    + split; [| lia]. intros [[= ->] | [_ [l Hl]]]; [done |]. by rewrite Hnone in Hl.
  - intros l. rewrite lookup_insert_eq. by intros [= <-].
  - intros r l next. rewrite !lookup_insert_Some, !Hnone. intros [[Hr _] | [_ ?]]; [| done].
    intros [[Hr' _] | [_ ?]]; [| done]. apply pair_eq in Hr, Hr'. lia.
  - intros l. rewrite lookup_insert_eq. intros [= <-]. split_and!; try done. by left.
Qed.

(** What a move that was taken writes: the line of the next revision, from the state it was
    made in to the one it led to. *)
Lemma moved_next {A} (current moved : Tracked A) table id s asked line :
  life table id s → tr_id current = id → tr_state current = Wire (sg_state s) → tr_revision current = uint64 (sg_revision s) →
  Apply current asked = Ok (moved, line) → 0 < int64 (tr_revision moved) →
  let written := trail_columns line in
  tr_id moved = id ∧ tw_id written = id ∧ tw_revision written = sg_revision s + 1
  ∧ int64 (tr_revision moved) = sg_revision s + 1 ∧ sg_revision s + 1 < 2 ^ 63
  ∧ tw_from written = sg_state s ∧ tw_to written = state_column (tr_state moved)
  ∧ (tw_to written = tw_from written ∨ Legal (tw_from written) (tw_to written) = true)
  ∧ state_column (tr_state moved) ∈ states ∧ tw_actor written = tr_changed_by moved ∧ tw_actor written ≠ ""
  ∧ tw_at written = timestamptz (tr_changed_at moved).
Proof.
  intros [Hrange Hlines _ _ Hnow] Hid Hst Hrv Happly Hpos.
  destruct (proj2 (Hlines (sg_revision s))) as [last Hlast]; [lia |]. destruct (Hnow last Hlast) as (_ & _ & _ & Hstate).
  apply Apply_accepted in Happly as [Hmid _ Hrev [Hactor [Hby Hat]] (from & to & Hfrom & Hto & Hor) _ ->].
  rewrite Hst in *. rewrite Hrv in *. change (2 ^ 63) with 9223372036854775808 in *.
  assert (uint64 (sg_revision s) = sg_revision s) as Hu by (unfold wrap_uint; apply Z.mod_small; lia). rewrite Hu in Hrev.
  assert (tr_revision moved = sg_revision s + 1) as Hnew by (rewrite Hrev; unfold wrap_uint; apply Z.mod_small; lia).
  assert (sg_revision s + 1 < 9223372036854775808) as Hfits.
  { destruct (decide (sg_revision s + 1 < 9223372036854775808)) as [|Hbig]; [done | exfalso].
    rewrite Hnew in Hpos. replace (sg_revision s + 1) with 9223372036854775808 in Hpos by lia. by vm_compute in Hpos. }
  assert (int64 (tr_revision moved) = sg_revision s + 1) as Hint
    by (rewrite Hnew; apply int64_id; change (2 ^ 63) with 9223372036854775808; lia).
  assert (from = sg_state s) as ->.
  { rewrite (proj2 (FromWire_Wire (sg_state s) (Wire (sg_state s)))) in Hfrom by done. by injection Hfrom. }
  assert (state_column (tr_state moved) = to) as Hcol by (unfold state_column; by rewrite Hto).
  cbn [trail_columns tw_id tw_revision tw_from tw_to tw_actor tw_at tn_id tn_revision tn_from tn_to tn_actor tn_at].
  rewrite Hcol, (state_column_Wire (sg_state s)), Hby, Hat, Hint by done. cbv zeta.
  split_and!; try done; try congruence; [naive_solver | by apply FromWire_states in Hto as [? _]].
Qed.

(** Where it stands after a move. *)
Definition moved_standing {A} (moved : Tracked A) : place_held :=
  mkStanding (int64 (tr_revision moved)) (state_column (tr_state moved)) (tr_changed_by moved) (timestamptz (tr_changed_at moved)).

Lemma life_moved {A} (current moved : Tracked A) table id s asked line :
  life table id s → tr_id current = id → tr_state current = Wire (sg_state s) → tr_revision current = uint64 (sg_revision s) →
  Apply current asked = Ok (moved, line) → 0 < int64 (tr_revision moved) →
  tr_id moved = id ∧ insert_line line table = <[(id, sg_revision s + 1) := trail_columns line]> table
  ∧ (tw_id (trail_columns line), tw_revision (trail_columns line)) = (id, sg_revision s + 1)
  ∧ life (<[(id, sg_revision s + 1) := trail_columns line]> table) id (moved_standing moved).
Proof.
  intros Hlife Hid Hst Hrv Happly Hpos. pose proof (moved_next current moved table id s asked line Hlife Hid Hst Hrv Happly Hpos) as Hnext.
  cbv zeta in Hnext. destruct Hnext as (Hmid & Htid & Htrev & Hint & Hfits & Hfrom & Hto & Hlegal & Hstates & Hactor & Hnamed & Hat).
  destruct Hlife as [Hrange Hlines Hfirst Hchain Hnow]. split_and!; [done | | congruence |].
  { unfold insert_line. cbv zeta. rewrite Htid, Htrev. apply insert_once_new, eq_None_not_Some. rewrite Hlines. lia. }
  split; cbn [moved_standing sg_revision sg_state sg_by sg_at]; rewrite ?Hint.
  - lia.
  - intros r. rewrite lookup_insert_is_Some, Hlines. split.
    + intros [[= <-] | [_ ?]]; lia.
    + intros Hr. destruct (decide (r = sg_revision s + 1)) as [-> | Hne]; [by left |]. right. split; [congruence | lia].
  - intros l. rewrite lookup_insert_ne by (intros [=]; lia). apply Hfirst.
  - intros r l next. rewrite !lookup_insert_Some. intros [[Hr <-] | [_ Hl]].
    + intros [[Hr' _] | [_ Hl']]; [apply pair_eq in Hr, Hr'; lia |]. apply pair_eq in Hr as [_ <-].
      assert (1 ≤ sg_revision s + 1 + 1 ≤ sg_revision s) by (by apply Hlines; eexists). lia.
    + intros [[Hr <-] | [_ Hl']]; [| by eapply Hchain]. apply pair_eq in Hr as [_ Hr].
      assert (r = sg_revision s) as -> by lia. destruct (Hnow l Hl) as (Htol & _). rewrite Hfrom, Htol.
      rewrite Hfrom in Hlegal. naive_solver.
  - intros l. rewrite lookup_insert_eq. intros [= <-]. done.
Qed.

(** ** Reading a trail *)

Definition earlier : relation TrailRow := row_before tw_revision Z.ltb.
#[local] Instance earlier_dec : RelDecision earlier.
Proof. intros a b. unfold earlier, row_before. apply _. Defined.
#[local] Instance earlier_strict : StrictOrder earlier.
Proof.
  unfold earlier, row_before. split; [intros a Ha | intros a b c Hab Hbc]; [apply Z.ltb_lt in Ha | apply Z.ltb_lt in Hab, Hbc; apply Z.ltb_lt]; lia.
Qed.

Section reading.
Context (table : TrailTable) (id : string) (s : place_held) (Hkeyed : keyed_trail table) (Hlife : life table id s).

(** The lines of the first [k] revisions, one after the other. *)
Lemma first_lines k :
  Z.of_nat k ≤ sg_revision s →
  ∃ l, StronglySorted earlier l ∧ length l = k ∧ (∀ i, (i < k)%nat → l !! i = table !! (id, Z.of_nat i + 1))
    ∧ ∀ line, line ∈ l ↔ ∃ r, 1 ≤ r ≤ Z.of_nat k ∧ table !! (id, r) = Some line.
Proof.
  destruct Hlife as [_ Hlines _ _ _]. induction k as [|k IH]; intros Hk.
  - exists []. split_and!; [constructor | done | lia |]. intros line. split; [by intros ?%elem_of_nil |]. intros (r & Hr & _). lia.
  - destruct IH as (l & Hsorted & Hlen & Hat & Hin); [lia |].
    destruct (proj2 (Hlines (Z.of_nat k + 1))) as [line Hline]; [lia |]. exists (l ++ [line]). split_and!.
    + apply StronglySorted_app. split_and!; [| done | by repeat constructor]. intros a b Ha Hb. apply list_elem_of_singleton in Hb as ->.
      apply Hin in Ha as (r & Hr & Ha). pose proof (Hkeyed _ _ Ha) as [= _ Hra].
      pose proof (Hkeyed _ _ Hline) as [= _ Hrl]. unfold earlier, row_before. apply Z.ltb_lt. lia.
    + rewrite length_app. cbn. lia.
    + intros i Hi. destruct (decide (i = k)) as [-> | Hne]; [| rewrite lookup_app_l by lia; apply Hat; lia].
      rewrite list_lookup_middle by lia. congruence.
    + intros x. rewrite elem_of_app, list_elem_of_singleton, Hin. split.
      * intros [(r & ? & ?) | ->]; [exists r | exists (Z.of_nat k + 1)]; (split; [lia | done]).
      * intros (r & Hr & Hx). destruct (decide (r = Z.of_nat k + 1)) as [-> | Hne]; [right; congruence | left].
        exists r. split; [lia | done].
Qed.

Lemma in_lines line : line ∈ lines_of table id ↔ ∃ r, table !! (id, r) = Some line.
Proof.
  unfold lines_of, ordered_rows. rewrite merge_sort_Permutation, list_elem_of_filter, list_elem_of_fmap. split.
  - intros [Hid ([[id' r] line'] & -> & Hin)]. cbn in *. apply elem_of_map_to_list in Hin.
    pose proof (Hkeyed _ _ Hin) as [= Hid' _]. exists r. congruence.
  - intros (r & Hr). pose proof (Hkeyed _ _ Hr) as [= Hid _]. split; [done |].
    exists ((id, r), line). split; [done |]. by apply elem_of_map_to_list.
Qed.

Lemma lines_sorted : StronglySorted earlier (lines_of table id).
Proof.
  unfold lines_of. set (l := filter _ _).
  assert (NoDup (tw_revision <$> l)) as Hnd.
  { assert (∀ m : list ((string * Z) * TrailRow), NoDup m.*1 → (∀ k line, (k, line) ∈ m → (tw_id line, tw_revision line) = k) →
      NoDup (tw_revision <$> filter (λ row, tw_id row = id) m.*2)) as Hgen.
    { clear. induction m as [|[k line] m IH]; intros Hnd Hk; [constructor |]. apply NoDup_cons in Hnd as [Hnew Hnd]. cbn [fmap list_fmap].
      assert (NoDup (tw_revision <$> filter (λ row, tw_id row = id) m.*2)) as Hrest by (apply IH; [done | intros; apply Hk; by right]).
      change (snd (k, line)) with line. destruct (decide (tw_id line = id)) as [He|He];
        [rewrite filter_cons_True by done | by rewrite filter_cons_False by done].
      cbn. apply NoDup_cons. split; [| done]. rewrite list_elem_of_fmap. intros (other & Hr & Hin).
      apply list_elem_of_filter in Hin as [Hoid Hin]. apply list_elem_of_fmap in Hin as ([k' ?] & -> & Hin). cbn in *.
      apply Hnew, list_elem_of_fmap. exists (k', t). split; [| done]. cbn. rewrite <- (Hk k line), <- (Hk k' t); [congruence | by right | by left]. }
    apply Hgen; [apply NoDup_fst_map_to_list |]. intros k line Hin%elem_of_map_to_list. by apply Hkeyed. }
  apply (in_order_sorted (E := unit) tw_revision Z.ltb (λ _, Err tt) (λ _, "") l (λ _, false)); [| done].
  split; [intros k; apply Z.ltb_irrefl | | | done | done].
  - intros a b c Hab%Z.ltb_lt Hbc%Z.ltb_lt. apply Z.ltb_lt. lia.
  - intros a b. rewrite !Z.ltb_lt. lia.
Qed.

(** The lines of an alert, oldest first, are those of its revisions from the first. *)
Lemma lines_of_at :
  len (lines_of table id) = sg_revision s
  ∧ ∀ i, (i < length (lines_of table id))%nat → lines_of table id !! i = table !! (id, Z.of_nat i + 1).
Proof.
  pose proof Hlife as [Hrange Hlines _ _ _].
  destruct (first_lines (Z.to_nat (sg_revision s))) as (l & Hsorted & Hlen & Hat & Hin); [lia |].
  assert (lines_of table id = l) as ->.
  { assert (AntiSymm (=) earlier) by (intros a b Hab Hba; exfalso; apply (irreflexivity earlier a); by trans b).
    apply (StronglySorted_unique earlier); [apply lines_sorted | done |].
    apply NoDup_Permutation; [apply (strictly_sorted_once earlier), lines_sorted | by apply (strictly_sorted_once earlier) |].
    intros line. rewrite in_lines, Hin. split.
    - intros (r & Hr). exists r. split; [| done]. assert (1 ≤ r ≤ sg_revision s) by (apply Hlines; by eexists). lia.
    - intros (r & _ & Hr). by exists r. }
  unfold len. rewrite Hlen. split; [lia | exact Hat].
Qed.

Lemma chained_rows l : ∀ k from,
  1 ≤ k → k + len l - 1 ≤ sg_revision s →
  (∀ i, (i < length l)%nat → l !! i = table !! (id, k + Z.of_nat i)) →
  (k = 1 ∧ from = "" ∨ ∃ line, table !! (id, k - 1) = Some line ∧ tw_to line = from) →
  chained (Wire from) k (restoreTransition <$> l) ∧ Forall (λ line, tn_actor line ≠ "") (restoreTransition <$> l).
Proof.
  induction l as [|line l IH]; intros k from Hk Hfits Hat Hfrom; [by split |].
  pose proof Hlife as [Hrange Hlines Hfirst Hnext _].
  assert (table !! (id, k) = Some line) as Hline by (rewrite <- (Z.add_0_r k); symmetry; apply (Hat O); cbn; lia).
  pose proof (Hkeyed _ _ Hline) as [= _ Hrev]. unfold len in Hfits. cbn [length] in Hfits.
  change (2 ^ 63) with 9223372036854775808 in *.
  assert (uint64 k = k) as Hwrap by (unfold wrap_uint; apply Z.mod_small; lia).
  assert (uint64 (k + 1) = k + 1) as Hwrap' by (unfold wrap_uint; apply Z.mod_small; lia).
  assert (tw_from line = from ∧ tw_actor line ≠ "") as [Hline_from Hactor].
  { destruct Hfrom as [[-> ->] | (before & Hbefore & <-)].
    - by destruct (Hfirst line Hline) as (-> & _ & ?).
    - destruct (Hnext (k - 1) before line Hbefore) as (-> & _ & ?); [by replace (k - 1 + 1) with k by lia | done]. }
  destruct (IH (k + 1) (tw_to line)) as [Hc Ha]; [lia | unfold len; lia | | |].
  - intros i Hi. rewrite <- (Z.add_assoc k 1). replace (1 + Z.of_nat i) with (Z.of_nat (S i)) by lia. apply (Hat (S i)). cbn. lia.
  - right. exists line. by replace (k + 1 - 1) with k by lia.
  - cbn. rewrite Hrev, Hwrap, Hwrap', Hline_from. split; [done | by constructor].
Qed.

(** A trail read back tells the whole life. *)
Lemma history_of_life :
  let lines := restoreTransition <$> lines_of table id in
  chained STATE_UNSPECIFIED 1 lines ∧ len lines = sg_revision s ∧ Wire (sg_state s) = last_to STATE_UNSPECIFIED lines
  ∧ Forall (λ line, tn_actor line ≠ "") lines
  ∧ ∃ line, last lines = Some line ∧ tn_actor line = sg_by s ∧ tn_at line = sg_at s.
Proof.
  pose proof Hlife as [Hrange Hlines Hfirst Hnext Hnow]. destruct lines_of_at as [Hlen Hat]. cbv zeta.
  destruct (chained_rows (lines_of table id) 1 "") as [Hchained Hactors];
    [lia | lia | intros i Hi; by rewrite Hat, (Z.add_comm 1) by done | by left |].
  assert (∃ line, last (lines_of table id) = Some line ∧ table !! (id, sg_revision s) = Some line) as (line & Hlast & Hline).
  { rewrite last_lookup. unfold len in Hlen. rewrite Hat by lia.
    replace (Z.of_nat (pred (length (lines_of table id))) + 1) with (sg_revision s) by lia.
    destruct (proj2 (Hlines (sg_revision s))) as [line Hline]; [lia |]. by exists line. }
  destruct (Hnow line Hline) as (Hto & Hby & Hwhen & _). split_and!.
  - exact Hchained.
  - unfold len in *. by rewrite length_fmap.
  - unfold last_to. rewrite fmap_last, Hlast. cbn. by rewrite Hto.
  - done.
  - rewrite fmap_last, Hlast. eexists. split; [done |]. cbn. by rewrite Hby, Hwhen.
Qed.
End reading.
End trail.
