(* ===== verification/AlertStore.v ===== *)
(** * The store of alerts

    postgres/alerts.go and fold.go: the columns an alert and its trail are kept in, the
    transaction that folds a batch of detections, the move of an alert and the reads. A
    transaction is one step: the advisory locks of a batch and the row lock of a move are
    what makes it one. *)

From Stdlib Require Import ZArith Lia Ascii.
From stdpp Require Import base tactics option gmap strings pretty sorting numbers list.
From S2P Require Import Prelude Text Scan Hex Bytes Session Event Canonical Assessment Rule Contract Detected Triage Alert Listing Trail.

(** ** Columns *)

Record AlertRow := mkAlertRow {
  ar_id : string; ar_schema : Z; ar_tenant : string; ar_detection : string;
  ar_rule : string; ar_rule_revision : Z; ar_rule_name : string; ar_catalogue : string; ar_identifier : string;
  ar_severity : string; ar_tactic : string; ar_technique : string; ar_technique_name : string;
  ar_class : string; ar_agent : string; ar_event_time : option instant; ar_raised_at : instant;
  ar_state : string; ar_assignee : string; ar_changed_by : string; ar_changed_at : instant; ar_revision : Z;
  ar_closure_state : string; ar_closure_reason : string; ar_closure_by : string; ar_closure_at : option instant;
  ar_key : string; ar_occurrences : Z; ar_first_seen : instant; ar_last_seen : instant;
}.

Record OccurrenceRow := mkOccurrenceRow { oc_alert : string; oc_event_time : instant; oc_folded_at : instant }.

(** The tables by their primary keys; an occurrence by the detection its unique index
    names. *)
Record AlertTables := mkAlertTables {
  tb_alerts : gmap string AlertRow;
  tb_trail : gmap (string * Z) TrailRow;
  tb_folded : gmap string OccurrenceRow;
}.

(** ** Values as columns keep them *)

Definition severities_asked (asked : list WireSeverity) : list string :=
  filter (λ written, written ≠ "") (severity_written <$> asked).

Definition enum_name (prefix value : string) : string :=
  if bool_decide (value = "") then prefix +:+ "UNSPECIFIED" else prefix +:+ ToUpper value.

(** The generated map from names to severities: a name it lacks is the zero value. *)
Definition Severity_value (name : string) : WireSeverity :=
  if bool_decide (name = "SEVERITY_LOW") then SEVERITY_LOW
  else if bool_decide (name = "SEVERITY_MEDIUM") then SEVERITY_MEDIUM
  else if bool_decide (name = "SEVERITY_HIGH") then SEVERITY_HIGH
  else if bool_decide (name = "SEVERITY_CRITICAL") then SEVERITY_CRITICAL
  else SEVERITY_UNSPECIFIED.

(** What generated code promises of the classes of events: each declared name is its
    prefix and an upper-case word and stands for its number. *)
Class ClassValues `{Contract} := { EventClass_value : string → EventClass }.
Class ClassLaws `{ClassValues} := {
  class_unspecified : EventClass_name 0 = Some "EVENT_CLASS_UNSPECIFIED" ∧ EventClass_value "EVENT_CLASS_UNSPECIFIED" = 0;
  class_value c name : EventClass_name c = Some name → c ≠ 0 →
    ∃ word, name = "EVENT_CLASS_" +:+ word ∧ word ≠ "UNSPECIFIED" ∧ ToLower word ≠ "" ∧ ToUpper (ToLower word) = word
      ∧ EventClass_value name = c;
}.

Inductive AlertStoreError :=
| StoreMove (why : MoveError) | ErrUnknownAlert | ErrCursor | StoreFails.

Inductive AlertOutcome := OutcomeRaised | OutcomeFolded | OutcomeRepeated | OutcomeSuppressed | OutcomeCooledDown.
#[global] Instance AlertOutcome_eq_dec : EqDecision AlertOutcome.
Proof. solve_decision. Defined.

Section store.
Context {contract : Contract} {values : ClassValues} {postgres : Postgres}.

Definition stored_alert (one : Tracked AlertAbout) : AlertRow :=
  let a := tr_about one in
  let source := default (mkSource "" "") (dr_source (al_rule a)) in
  let technique := default (mkTechnique "" "" "") (al_technique a) in
  mkAlertRow (tr_id one) (int32 (al_schema a)) (al_tenant a) (al_detection a)
    (dr_id (al_rule a)) (int64 (dr_revision (al_rule a))) (dr_name (al_rule a)) (src_catalogue source) (src_identifier source)
    (severity_written (al_severity a)) (tech_tactic technique) (tech_id technique) (tech_name technique)
    (class_written (al_class a)) (al_agent a) (timestamptz <$> al_event_time a) (timestamptz (al_raised_at a))
    (state_column (tr_state one)) (tr_assignee one) (tr_changed_by one) (timestamptz (tr_changed_at one)) (int64 (tr_revision one))
    (match tr_closure one with Some c => state_column (cl_state c) | None => "" end)
    (match tr_closure one with Some c => cl_reason c | None => "" end)
    (match tr_closure one with Some c => cl_by c | None => "" end)
    (match tr_closure one with Some c => Some (timestamptz (cl_at c)) | None => None end)
    (al_key a) (int64 (al_occurrences a)) (timestamptz (al_first_seen a)) (timestamptz (al_last_seen a)).

(** A closure kept without an instant reads back without one; none is ever written so. *)
Definition restore_alert (row : AlertRow) : Tracked AlertAbout :=
  mkTracked (ar_id row)
    {| al_schema := uint32 (ar_schema row); al_tenant := ar_tenant row; al_detection := ar_detection row;
       al_rule := mkDetectedRule (ar_rule row) (uint32 (ar_rule_revision row)) (ar_rule_name row)
         (if negb (bool_decide (ar_catalogue row = "")) || negb (bool_decide (ar_identifier row = ""))
          then Some (mkSource (ar_catalogue row) (ar_identifier row)) else None);
       al_severity := Severity_value (enum_name "SEVERITY_" (ar_severity row));
       al_technique :=
         if negb (bool_decide (ar_tactic row = "")) || negb (bool_decide (ar_technique row = ""))
            || negb (bool_decide (ar_technique_name row = ""))
         then Some (mkTechnique (ar_tactic row) (ar_technique row) (ar_technique_name row)) else None;
       al_class := EventClass_value (enum_name "EVENT_CLASS_" (ar_class row));
       al_agent := ar_agent row; al_event_time := ar_event_time row; al_raised_at := ar_raised_at row;
       al_occurrences := uint64 (ar_occurrences row); al_first_seen := ar_first_seen row; al_last_seen := ar_last_seen row;
       al_key := ar_key row |}
    (Wire (ar_state row)) (ar_assignee row) (uint64 (ar_revision row)) (ar_changed_by row) (ar_changed_at row)
    (if bool_decide (ar_closure_state row = "") then None
     else Some (mkClosure (Wire (ar_closure_state row)) (ar_closure_reason row) (ar_closure_by row)
                  (default time_zero (ar_closure_at row)))).

(** ** Folding a batch (fold.go) *)

(** The locks a batch takes, in the one order every batch takes them in. *)
Definition key_before (one other : string * string) : Prop :=
  (String.le one.1 other.1 ∧ one.1 ≠ other.1) ∨ (one.1 = other.1 ∧ String.le one.2 other.2).
#[global] Instance key_before_dec : RelDecision key_before.
Proof. intros a b. unfold key_before. apply _. Defined.

Definition lock_keys (candidates : list Candidate) : list (string * string) :=
  compact (merge_sort key_before ((λ c, (al_tenant (tr_about (ca_alert c)), ca_key c)) <$> candidates)).

Definition alreadyFolded (t : AlertTables) (detection : string) : bool := bool_decide (is_Some (tb_folded t !! detection)).

(** Rows of a key in a state that satisfies [in_state]. *)
Definition keyed_rows (t : AlertTables) (tenant key : string) (in_state : string → bool) : list AlertRow :=
  filter (λ row, ar_tenant row = tenant ∧ ar_key row = key ∧ in_state (ar_state row) = true) (map_to_list (tb_alerts t)).*2.

(** ORDER BY a time DESC LIMIT 1. *)
Definition newest_by (time : AlertRow → instant) (rows : list AlertRow) : option AlertRow :=
  any_of (filter (λ row, Forall (λ other, time other ≤ time row) rows) rows).

Definition openAlert (t : AlertTables) (c : Candidate) : option AlertRow :=
  newest_by ar_last_seen (keyed_rows t (al_tenant (tr_about (ca_alert c))) (ca_key c) (λ state, negb (Closed state))).

Definition coolingDown (t : AlertTables) (c : Candidate) : bool :=
  let closed := filter (λ row, is_Some (ar_closure_at row))
                  (keyed_rows t (al_tenant (tr_about (ca_alert c))) (ca_key c) Closed) in
  match newest_by (λ row, default 0 (ar_closure_at row)) closed with
  | Some row => before (ca_at c) (time_add (default 0 (ar_closure_at row)) (ca_cooldown c))
  | None => false
  end.

Definition fold_occurrence (now : instant) (into : string) (c : Candidate) (t : AlertTables) : AlertTables :=
  mkAlertTables (tb_alerts t) (tb_trail t)
    (insert_once (ca_detection c) (mkOccurrenceRow into (timestamptz (ca_at c)) (timestamptz now)) (tb_folded t)).

(** The alert is stored under the key it was looked up by. *)
Definition keyed_alert (c : Candidate) : Tracked AlertAbout :=
  let a := ca_alert c in
  mkTracked (tr_id a) (with_key (ca_key c) (tr_about a)) (tr_state a) (tr_assignee a) (tr_revision a) (tr_changed_by a)
    (tr_changed_at a) (tr_closure a).

Definition raise_alert (now : instant) (c : Candidate) (t : AlertTables) : AlertTables :=
  let a := keyed_alert c in
  fold_occurrence now (tr_id a) c
    (mkAlertTables (insert_once (tr_id a) (stored_alert a) (tb_alerts t)) (insert_line (Raised a) (tb_trail t)) (tb_folded t)).

(** [foldInto]: a count that leaves BIGINT fails the statement. *)
Definition fold_row (at_ : instant) (row : AlertRow) : AlertRow :=
  mkAlertRow (ar_id row) (ar_schema row) (ar_tenant row) (ar_detection row)
    (ar_rule row) (ar_rule_revision row) (ar_rule_name row) (ar_catalogue row) (ar_identifier row)
    (ar_severity row) (ar_tactic row) (ar_technique row) (ar_technique_name row)
    (ar_class row) (ar_agent row) (ar_event_time row) (ar_raised_at row)
    (ar_state row) (ar_assignee row) (ar_changed_by row) (ar_changed_at row) (ar_revision row)
    (ar_closure_state row) (ar_closure_reason row) (ar_closure_by row) (ar_closure_at row)
    (ar_key row) (ar_occurrences row + 1) (ar_first_seen row) (Z.max (ar_last_seen row) (timestamptz at_)).

Definition record_one (now : instant) (c : Candidate) (t : AlertTables) : result AlertStoreError (AlertTables * AlertOutcome) :=
  if alreadyFolded t (ca_detection c) then Ok (t, OutcomeRepeated)
  else
    let raised := Ok (raise_alert now c t, OutcomeRaised) in
    match openAlert t c with
    | Some row =>
        if negb (after (ca_at c) (time_add (ar_last_seen row) (ca_window c))) then
          if 2 ^ 63 <=? ar_occurrences row + 1 then Err StoreFails
          else Ok (fold_occurrence now (ar_id row) c
                     (mkAlertTables (<[ar_id row := fold_row (ca_at c) row]> (tb_alerts t)) (tb_trail t) (tb_folded t)),
                   OutcomeFolded)
        else raised
    | None => if (0 <? ca_cooldown c) && coolingDown t c then Ok (t, OutcomeCooledDown) else raised
    end.

(** One transaction: every candidate in order, or nothing. *)
Fixpoint record_each (now : instant) (candidates : list Candidate) (t : AlertTables) : result AlertStoreError (AlertTables * list AlertOutcome) :=
  match candidates with
  | [] => Ok (t, [])
  | c :: candidates =>
      match record_one now c t with
      | Err e => Err e
      | Ok (t', outcome) =>
          match record_each now candidates t' with
          | Err e => Err e
          | Ok (t'', outcomes) => Ok (t'', outcome :: outcomes)
          end
      end
  end.

Definition alerts_Record (now : instant) (candidates : list Candidate) (t : AlertTables) : AlertTables * result AlertStoreError (list AlertOutcome) :=
  match record_each now candidates t with
  | Ok (t', outcomes) => (t', Ok outcomes)
  | Err e => (t, Err e)
  end.

(** ** Reading and moving (alerts.go) *)

Definition alerts_Alert (t : AlertTables) (id : string) (tenants : list string) : result AlertStoreError (Tracked AlertAbout) :=
  match tb_alerts t !! id with
  | Some row => if bool_decide (ar_tenant row ∈ tenants) then Ok (restore_alert row) else Err ErrUnknownAlert
  | None => Err ErrUnknownAlert
  end.

Definition alerts_History (t : AlertTables) (id : string) (tenants : list string) : result AlertStoreError (list Transition) :=
  match alerts_Alert t id tenants with
  | Err e => Err e
  | Ok _ => Ok (restoreTransition <$> lines_of (tb_trail t) id)
  end.

(** What a move writes of a row. *)
Definition moved_row (moved : Tracked AlertAbout) (row : AlertRow) : AlertRow :=
  mkAlertRow (ar_id row) (ar_schema row) (ar_tenant row) (ar_detection row)
    (ar_rule row) (ar_rule_revision row) (ar_rule_name row) (ar_catalogue row) (ar_identifier row)
    (ar_severity row) (ar_tactic row) (ar_technique row) (ar_technique_name row)
    (ar_class row) (ar_agent row) (ar_event_time row) (ar_raised_at row)
    (state_column (tr_state moved)) (tr_assignee moved) (tr_changed_by moved) (timestamptz (tr_changed_at moved))
    (int64 (tr_revision moved))
    (match tr_closure moved with Some c => state_column (cl_state c) | None => "" end)
    (match tr_closure moved with Some c => cl_reason c | None => "" end)
    (match tr_closure moved with Some c => cl_by c | None => "" end)
    (match tr_closure moved with Some c => Some (timestamptz (cl_at c)) | None => None end)
    (ar_key row) (ar_occurrences row) (ar_first_seen row) (ar_last_seen row).

(** The schema holds a revision above zero, so a statement that would leave one that is
    not fails. *)
Definition alerts_Move (id : string) (tenants : list string) (asked : Move) (t : AlertTables)
    : AlertTables * result AlertStoreError (Tracked AlertAbout) :=
  match tb_alerts t !! id with
  | None => (t, Err ErrUnknownAlert)
  | Some row =>
      if negb (bool_decide (ar_tenant row ∈ tenants)) then (t, Err ErrUnknownAlert)
      else match Apply (restore_alert row) asked with
      | Err e => (t, Err (StoreMove e))
      | Ok (moved, line) =>
          if int64 (tr_revision moved) <=? 0 then (t, Err StoreFails)
          else (mkAlertTables (<[tr_id moved := moved_row moved row]> (tb_alerts t))
               (insert_line line (tb_trail t)) (tb_folded t), Ok moved)
      end
  end.

(** ** Occurrences (fold.go) *)

Record Occurrence := mkOccurrence { on_detection : string; on_event_time : instant; on_folded_at : instant }.

Definition alerts_Occurrences (t : AlertTables) (id : string) (tenants : list string) : result AlertStoreError (list Occurrence) :=
  match alerts_Alert t id tenants with
  | Err e => Err e
  | Ok _ =>
      Ok (ordered_rows (λ o, (on_event_time o, on_detection o)) timed_before
            ((λ '(detection, row), mkOccurrence detection (oc_event_time row) (oc_folded_at row))
               <$> filter (λ '(_, row), oc_alert row = id) (map_to_list (tb_folded t))))
  end.

(** ** Listing (alerts.go) *)

Record AlertQuery := mkAlertQuery {
  aq_from : option instant; aq_until : option instant; aq_states : list WireState; aq_severities : list WireSeverity;
  aq_assignee : string; aq_rule : string; aq_agent : string; aq_alerts_limit : Z; aq_alerts_cursor : string;
}.

(** WHERE, the cursor aside: an empty filter is left out of the statement. *)
Definition alert_seen (q : AlertQuery) (tenants : list string) (row : AlertRow) : bool :=
  bool_decide (ar_tenant row ∈ tenants)
  && match aq_from q with Some start => timestamptz start <=? ar_raised_at row | None => true end
  && match aq_until q with Some ending => ar_raised_at row <? timestamptz ending | None => true end
  && (let named := states_asked (aq_states q) in (len named =? 0) || bool_decide (ar_state row ∈ named))
  && (let named := severities_asked (aq_severities q) in (len named =? 0) || bool_decide (ar_severity row ∈ named))
  && (bool_decide (aq_assignee q = "") || bool_decide (ar_assignee row = aq_assignee q))
  && (bool_decide (aq_rule q = "") || bool_decide (ar_rule row = aq_rule q))
  && (bool_decide (aq_agent q = "") || bool_decide (ar_agent row = aq_agent q)).

(** ORDER BY raised_at DESC, alert_id DESC. *)
Definition alert_key (row : AlertRow) : instant * string := (ar_raised_at row, ar_id row).
Definition decode_alert_cursor (token : string) : result AlertStoreError (instant * string) :=
  match time_position token with Some position => Ok position | None => Err ErrCursor end.

Definition alert_rows (t : AlertTables) : list AlertRow := (map_to_list (tb_alerts t)).*2.

Definition alert_pages (t : AlertTables) (q : AlertQuery) (tenants : list string) (cursor : string)
    : result AlertStoreError (list AlertRow * string) :=
  page alert_key timed_after decode_alert_cursor (λ row, time_cursor (ar_raised_at row) (ar_id row)) (alert_rows t)
    (alert_seen q tenants) cursor (aq_alerts_limit q).

Definition alerts_Page (t : AlertTables) (q : AlertQuery) (tenants : list string) : result AlertStoreError (list (Tracked AlertAbout) * string) :=
  match alert_pages t q tenants (aq_alerts_cursor q) with
  | Ok (rows, next) => Ok (restore_alert <$> rows, next)
  | Err e => Err e
  end.
End store.
