(* ===== verification/AlertStoreProps.v ===== *)
(** * What the store of alerts keeps

    Whatever batches are recorded, redelivered and moved in whatever order: what a row
    says it is made of, what its trail says of it, and what reading it back gives. *)

From Stdlib Require Import ZArith Lia Ascii.
From stdpp Require Import base tactics option gmap strings pretty sorting numbers list.
From S2P Require Import Prelude Text Scan Hex Bytes Session Event Canonical Assessment Rule Contract Detected Triage Alert Listing Trail AlertStore.

(** ** What columns keep *)

Lemma int_there z : 0 ≤ z < 2 ^ 63 → uint64 (int64 z) = z ∧ int64 z = z.
Proof. intros Hz. rewrite int64_id by lia. split; [| done]. unfold wrap_uint. rewrite Z.mod_small; lia. Qed.

Lemma uint32_int32 z : 0 ≤ z < 2 ^ 32 → uint32 (int32 z) = z.
Proof.
  intros Hz. unfold int32, wrap_uint. change (2 ^ 31) with 2147483648 in *. change (2 ^ 32) with 4294967296 in *.
  rewrite <- Zminus_mod_idemp_l, Z.mod_mod by lia. rewrite Zminus_mod_idemp_l.
  replace (z + 2147483648 - 2147483648) with z by lia. apply Z.mod_small. lia.
Qed.

Lemma TrimPrefix_own p s : TrimPrefix (p +:+ s) p = s.
Proof.
  unfold TrimPrefix. rewrite (proj2 (HasPrefix_spec _ p)) by (by exists s). induction p as [|c p IH]; [by destruct s | exact IH].
Qed.

(** What an alert made of declared values has for the columns to keep. *)
Record keepable `{Contract} (a : Tracked AlertAbout) : Prop := {
  kp_schema : 0 ≤ al_schema (tr_about a) < 2 ^ 32;
  kp_rule : 0 ≤ dr_revision (al_rule (tr_about a)) < 2 ^ 32;
  kp_source s : dr_source (al_rule (tr_about a)) = Some s → source_empty s = false;
  kp_technique t : al_technique (tr_about a) = Some t → technique_empty t = false;
  kp_severity n : al_severity (tr_about a) ≠ SEVERITY_OTHER n;
  kp_class : is_Some (EventClass_name (al_class (tr_about a)));
  kp_occurrences : 0 ≤ al_occurrences (tr_about a) < 2 ^ 63;
  kp_state : is_Some (FromWire (tr_state a));
  kp_revision : 0 ≤ tr_revision a < 2 ^ 63;
  kp_closure c : tr_closure a = Some c → is_Some (FromWire (cl_state c));
}.

Section columns.
Context {contract : Contract} {values : ClassValues} {postgres : Postgres}.

(** The alert with its instants at whole microseconds. *)
Definition at_micros (one : Tracked AlertAbout) : Tracked AlertAbout :=
  let a := tr_about one in
  mkTracked (tr_id one)
    {| al_schema := al_schema a; al_tenant := al_tenant a; al_detection := al_detection a; al_rule := al_rule a;
       al_severity := al_severity a; al_technique := al_technique a; al_class := al_class a; al_agent := al_agent a;
       al_event_time := timestamptz <$> al_event_time a; al_raised_at := timestamptz (al_raised_at a);
       al_occurrences := al_occurrences a; al_first_seen := timestamptz (al_first_seen a);
       al_last_seen := timestamptz (al_last_seen a); al_key := al_key a |}
    (tr_state one) (tr_assignee one) (tr_revision one) (tr_changed_by one) (timestamptz (tr_changed_at one))
    ((λ c, mkClosure (cl_state c) (cl_reason c) (cl_by c) (timestamptz (cl_at c))) <$> tr_closure one).

Lemma severity_kept s : (∀ n, s ≠ SEVERITY_OTHER n) → Severity_value (enum_name "SEVERITY_" (severity_written s)) = s.
Proof. intros Hs. destruct s; try by vm_compute. by destruct (Hs number). Qed.

Lemma class_kept `{!ClassLaws} c : is_Some (EventClass_name c) → EventClass_value (enum_name "EVENT_CLASS_" (class_written c)) = c.
Proof.
  intros [name Hname]. destruct class_unspecified as [Hzero Hvalue]. destruct (decide (c = 0)) as [-> | Hc].
  - unfold class_written. rewrite Hzero. exact Hvalue.
  - destruct (class_value c name Hname Hc) as (word & -> & Hword & Hlow & Hup & Hval).
    assert (class_written c = ToLower word) as ->.
    { unfold class_written. rewrite Hname. change (default (pretty c) (Some ("EVENT_CLASS_" +:+ word))) with ("EVENT_CLASS_" +:+ word).
      rewrite TrimPrefix_own. cbv zeta. by rewrite decide_False. }
    unfold enum_name. rewrite bool_decide_false by done. by rewrite Hup.
Qed.

Lemma closure_kept (one : Tracked AlertAbout) :
  (∀ c, tr_closure one = Some c → is_Some (FromWire (cl_state c))) →
  tr_closure (restore_alert (stored_alert one)) = (λ c, mkClosure (cl_state c) (cl_reason c) (cl_by c) (timestamptz (cl_at c))) <$> tr_closure one.
Proof.
  intros Hc. cbn. destruct (tr_closure one) as [c|]; [| done]. destruct (Wire_state_column _ (Hc c eq_refl)) as (Hw & _ & Hne).
  rewrite bool_decide_false by done. cbn. by rewrite Hw.
Qed.

(** What is read back is what was written, its instants at whole microseconds. *)
Lemma restore_stored `{!ClassLaws} a : keepable a → restore_alert (stored_alert a) = at_micros a.
Proof.
  intros [Hschema Hrule Hsource Htechnique Hseverity Hclass Hocc Hstate Hrev Hclosure].
  pose proof (closure_kept a Hclosure) as Hkept. unfold at_micros. rewrite <- Hkept. unfold restore_alert. cbn [stored_alert].
  destruct a as [id about state assignee revision by_ at_ closure]. cbn in *. destruct about as [schema tenant detection rule severity technique
    class agent event raised occurrences first last_ key]. destruct rule as [rule rrevision name source]. cbn in *.
  destruct (Wire_state_column _ Hstate) as (Hw & _ & _). rewrite Hw, severity_kept, class_kept by done.
  rewrite uint32_int32 by lia. destruct (int_there occurrences Hocc) as [-> _]. destruct (int_there revision Hrev) as [-> _].
  f_equal. f_equal.
  - rewrite (int64_id rrevision) by (split; [lia |]; change (2 ^ 63) with 9223372036854775808; lia).
    f_equal; [unfold wrap_uint; apply Z.mod_small; lia |]. destruct source as [[catalogue identifier]|]; [| done].
    specialize (Hsource _ eq_refl). unfold source_empty in Hsource. cbn in *. by destruct (bool_decide _), (bool_decide _).
  - destruct technique as [[tactic tid tname]|]; [| done]. specialize (Htechnique _ eq_refl). unfold technique_empty in Htechnique.
    cbn in *. by destruct (bool_decide _), (bool_decide _), (bool_decide _).
Qed.
End columns.

(** ** What goes on over the tables *)

(** A candidate as [Consider] makes one. *)
Record considered (c : Candidate) : Prop := {
  cd_name : tr_id (ca_alert c) = ca_detection c;
  cd_named : ca_detection c ≠ "";
  cd_state : tr_state (ca_alert c) = Wire Open;
  cd_revision : tr_revision (ca_alert c) = 1;
  cd_closure : tr_closure (ca_alert c) = None;
  cd_changed : tr_changed_by (ca_alert c) = Platform ∧ tr_changed_at (ca_alert c) = al_raised_at (tr_about (ca_alert c));
  cd_occurrences : al_occurrences (tr_about (ca_alert c)) = 1;
  cd_seen : al_first_seen (tr_about (ca_alert c)) = ca_at c ∧ al_last_seen (tr_about (ca_alert c)) = ca_at c;
}.

Lemma Consider_considered {CT : Contract} {M} {EV : Events M} Unquote digest made tuning at_ c :
  Consider (EV := EV) Unquote digest made tuning at_ = Ok c → considered c.
Proof.
  unfold Consider, Raise. case_bool_decide; [done |]. case_bool_decide; [done |]. intros [= <-]. by split.
Qed.

Section reach.
Context {contract : Contract} {values : ClassValues} {postgres : Postgres}.

(** The detections of a batch with what became of each. *)
Definition what_became (candidates : list Candidate) (outcomes : list AlertOutcome) : list (string * AlertOutcome) :=
  zip (ca_detection <$> candidates) outcomes.

(** Batches recorded, in full or not at all, and alerts moved, in any order; the log says
    what became of every detection. *)
Inductive alerts_reach : AlertTables → list (string * AlertOutcome) → Prop :=
| alerts_start : alerts_reach (mkAlertTables ∅ ∅ ∅) []
| alerts_recorded t log now candidates t' answer :
    alerts_reach t log → Forall considered candidates → alerts_Record now candidates t = (t', answer) →
    alerts_reach t' (log ++ match answer with Ok outcomes => what_became candidates outcomes | Err _ => [] end)
| alerts_moved t log id tenants asked t' answer :
    alerts_reach t log → alerts_Move id tenants asked t = (t', answer) → alerts_reach t' log.

(** What is folded into an alert. *)
Definition folded_into (t : AlertTables) (id : string) : list (string * OccurrenceRow) :=
  filter (λ '(_, row), oc_alert row = id) (map_to_list (tb_folded t)).

(** Where a row stands. *)
Definition alert_standing (row : AlertRow) : place_held :=
  mkStanding (ar_revision row) (ar_state row) (ar_changed_by row) (ar_changed_at row).

Record sound (t : AlertTables) : Prop := {
  so_id id row : tb_alerts t !! id = Some row → ar_id row = id;
  so_keyed : keyed_trail (tb_trail t);
  so_trail k : is_Some (tb_trail t !! k) → is_Some (tb_alerts t !! k.1);
  so_folded detection o : tb_folded t !! detection = Some o → is_Some (tb_alerts t !! oc_alert o);
  so_own id row : tb_alerts t !! id = Some row →
    ∃ o, tb_folded t !! id = Some o ∧ oc_alert o = id ∧ oc_event_time o = ar_first_seen row;
  so_count id row : tb_alerts t !! id = Some row → ar_occurrences row = len (folded_into t id) ∧ ar_occurrences row < 2 ^ 63;
  so_last id row : tb_alerts t !! id = Some row →
    (∃ detection o, tb_folded t !! detection = Some o ∧ oc_alert o = id ∧ oc_event_time o = ar_last_seen row)
    ∧ ∀ detection o, tb_folded t !! detection = Some o → oc_alert o = id → oc_event_time o ≤ ar_last_seen row;
  so_life id row : tb_alerts t !! id = Some row → life (tb_trail t) id (alert_standing row);
  so_named id row : tb_alerts t !! id = Some row → id ≠ "";
}.

Lemma sound_start : sound (mkAlertTables ∅ ∅ ∅).
Proof. split; cbn; try (intros *; rewrite ?lookup_empty; done). Qed.

Lemma folded_into_new t trail_columns id detection o :
  tb_folded t !! detection = None →
  len (folded_into (mkAlertTables (tb_alerts t) trail_columns (<[detection := o]> (tb_folded t))) id)
  = len (folded_into t id) + (if decide (oc_alert o = id) then 1 else 0).
Proof.
  intros Hnew. unfold folded_into. cbn [tb_folded].
  assert (length (filter (λ '(_, row), oc_alert row = id) (map_to_list (<[detection := o]> (tb_folded t))))
    = length (filter (λ '(_, row), oc_alert row = id) ((detection, o) :: map_to_list (tb_folded t)))) as Hlen.
  { apply Permutation_length, filter_Permutation. by apply map_to_list_insert. }
  unfold len. rewrite Hlen. destruct (decide (oc_alert o = id)) as [He|He].
  - rewrite filter_cons_True by done. cbn. lia.
  - rewrite filter_cons_False by done. lia.
Qed.

Lemma alreadyFolded_false t detection : alreadyFolded t detection = false → tb_folded t !! detection = None.
Proof. unfold alreadyFolded. intros H%bool_decide_eq_false. by apply eq_None_not_Some. Qed.

Lemma fold_sound t id row detection at_ now :
  sound t → tb_alerts t !! id = Some row → tb_folded t !! detection = None → ar_occurrences row + 1 < 2 ^ 63 →
  sound (mkAlertTables (<[id := fold_row at_ row]> (tb_alerts t)) (tb_trail t)
           (<[detection := mkOccurrenceRow id (timestamptz at_) now]> (tb_folded t))).
Proof.
  intros Hs Hrow Hnew Hfits. pose proof (so_id t Hs id row Hrow) as Hid. split; cbn [tb_alerts tb_trail tb_folded].
  - intros id' row'. rewrite lookup_insert_Some. intros [[<- <-] | [_ H]]; [done | by apply (so_id t Hs)].
  - apply (so_keyed t Hs).
  - intros k Hk. apply lookup_insert_is_Some'. right. by apply (so_trail t Hs).
  - intros d o. rewrite lookup_insert_Some. intros [[<- <-] | [_ H]]; apply lookup_insert_is_Some'; [by left | right].
    by apply (so_folded t Hs d).
  - intros id' row'. rewrite lookup_insert_Some. intros Hor.
    assert (∃ held, tb_alerts t !! id' = Some held ∧ ar_first_seen row' = ar_first_seen held) as (held & Hheld & ->)
      by (destruct Hor as [[<- <-] | [_ H]]; eauto).
    destruct (so_own t Hs id' held Hheld) as (o & Ho & Hin & Hfirst). exists o. split; [| done].
    rewrite lookup_insert_ne; [done |]. intros ->. congruence.
  - intros id' row'. rewrite lookup_insert_Some. intros Hor.
    pose proof (folded_into_new t (tb_trail t) id' detection (mkOccurrenceRow id (timestamptz at_) now) Hnew) as Hlen.
    unfold folded_into in Hlen |- *. cbn [tb_folded oc_alert] in Hlen |- *. rewrite Hlen.
    destruct Hor as [[<- <-] | [Hne H]].
    + rewrite decide_True by done. destruct (so_count t Hs id row Hrow) as [Hc _]. unfold folded_into in Hc. cbn. lia.
    + rewrite decide_False by done. destruct (so_count t Hs id' row' H) as [Hc ?]. unfold folded_into in Hc. lia.
  - intros id' row'. rewrite lookup_insert_Some. intros [[<- <-] | [Hne H]].
    + cbn [fold_row ar_last_seen]. destruct (so_last t Hs id row Hrow) as [(d & o & Ho & Hin & Hlast) Hall]. split.
      * destruct (Z.max_spec (ar_last_seen row) (timestamptz at_)) as [[_ ->] | [_ ->]].
        -- exists detection. eexists. by rewrite lookup_insert_eq.
        -- exists d, o. split; [| done]. rewrite lookup_insert_ne; [done |]. intros ->. congruence.
      * intros d' o'. rewrite lookup_insert_Some. intros [[<- <-] | [_ Ho']]; cbn; [lia |]. intros Hin'. specialize (Hall d' o' Ho' Hin'). lia.
    + destruct (so_last t Hs id' row' H) as [(d & o & Ho & Hin & Hlast) Hall]. split.
      * exists d, o. split; [| done]. rewrite lookup_insert_ne; [done |]. intros ->. congruence.
      * intros d' o'. rewrite lookup_insert_Some. intros [[<- <-] | [_ Ho']]; [done |]. by eapply Hall.
  - intros id' row'. rewrite lookup_insert_Some. intros [[<- <-] | [_ H]].
    + apply (so_life t Hs id row Hrow).
    + apply (so_life t Hs id' row' H).
  - intros id' row'. rewrite lookup_insert_Some. intros [[<- <-] | [_ H]]; by eapply so_named.
Qed.

Lemma raise_new t c :
  sound t → considered c → tb_folded t !! ca_detection c = None →
  tb_alerts t !! ca_detection c = None ∧ ∀ r, tb_trail t !! (ca_detection c, r) = None.
Proof.
  intros Hs Hc Hnew. assert (tb_alerts t !! ca_detection c = None) as Hnone.
  { destruct (tb_alerts t !! ca_detection c) as [row|] eqn:Hrow; [| done]. destruct (so_own t Hs _ _ Hrow) as (o & Ho & _). congruence. }
  split; [done |]. intros r. destruct (tb_trail t !! (ca_detection c, r)) as [line|] eqn:Hline; [| done].
  destruct (so_trail t Hs (ca_detection c, r)) as [row Hrow]; [by eexists |]. cbn in Hrow. congruence.
Qed.

Lemma raise_alert_new t c now :
  sound t → considered c → tb_folded t !! ca_detection c = None →
  raise_alert now c t = mkAlertTables (<[ca_detection c := stored_alert (keyed_alert c)]> (tb_alerts t))
    (<[(ca_detection c, 1) := trail_columns (Raised (keyed_alert c))]> (tb_trail t))
    (<[ca_detection c := mkOccurrenceRow (ca_detection c) (timestamptz (ca_at c)) (timestamptz now)]> (tb_folded t)).
Proof.
  intros Hs Hc Hnew. destruct (raise_new t c Hs Hc Hnew) as [Ha Ht]. unfold raise_alert, fold_occurrence.
  cbn [tb_alerts tb_trail tb_folded]. change (tr_id (keyed_alert c)) with (tr_id (ca_alert c)).
  unfold insert_line. cbv zeta.
  cbn [trail_columns Raised tw_id tw_revision tn_id tn_revision]. change (tr_id (keyed_alert c)) with (tr_id (ca_alert c)).
  change (tr_revision (keyed_alert c)) with (tr_revision (ca_alert c)).
  rewrite (cd_name c Hc), (cd_revision c Hc). change (int64 1) with 1. by rewrite !insert_once_new.
Qed.

Lemma raise_sound t c now :
  sound t → considered c → tb_folded t !! ca_detection c = None → sound (raise_alert now c t).
Proof.
  intros Hs Hc Hnew. rewrite raise_alert_new by done. destruct (raise_new t c Hs Hc Hnew) as [Ha Ht].
  set (d := ca_detection c) in *. set (o := mkOccurrenceRow d (timestamptz (ca_at c)) (timestamptz now)).
  destruct (cd_seen c Hc) as [Hfirst Hlast]. destruct (cd_changed c Hc) as [Hby Hat].
  assert (folded_into t d = []) as Hnone.
  { destruct (folded_into t d) as [|[d' o'] l] eqn:Hf; [done | exfalso].
    assert ((d', o') ∈ folded_into t d) as [Ho Hin]%list_elem_of_filter by (rewrite Hf; by left). cbn in Ho.
    apply elem_of_map_to_list in Hin. destruct (so_folded t Hs _ _ Hin) as [row Hrow]. congruence. }
  split; cbn [tb_alerts tb_trail tb_folded].
  - intros id row. rewrite lookup_insert_Some. intros [[<- <-] | [_ H]]; [apply (cd_name c Hc) | by apply (so_id t Hs)].
  - apply keyed_insert; [apply (so_keyed t Hs) |]. cbn. by rewrite (cd_name c Hc), (cd_revision c Hc).
  - intros k. rewrite lookup_insert_is_Some'. intros [<- | H]; apply lookup_insert_is_Some'; [by left | right; by apply (so_trail t Hs)].
  - intros d' o'. rewrite lookup_insert_Some. intros [[<- <-] | [_ H]]; apply lookup_insert_is_Some'; [by left | right].
    by eapply so_folded.
  - intros id row. rewrite lookup_insert_Some. intros [[<- <-] | [Hne H]].
    + exists o. rewrite lookup_insert_eq. split_and!; [done | done |]. cbn. by rewrite Hfirst.
    + destruct (so_own t Hs id row H) as (o' & Ho' & ?). exists o'. rewrite lookup_insert_ne by done. done.
  - intros id row. rewrite lookup_insert_Some. intros Hor.
    pose proof (folded_into_new t (tb_trail t) id d o Hnew) as Hlen. unfold folded_into in Hlen, Hnone |- *.
    cbn [tb_folded oc_alert] in Hlen |- *. rewrite Hlen. cbn [o oc_alert].
    destruct Hor as [[<- <-] | [Hne H]].
    + rewrite decide_True, Hnone by done. cbn. rewrite (cd_occurrences c Hc). split; [done |]. by vm_compute.
    + rewrite decide_False by done. destruct (so_count t Hs id row H) as [Hcount ?]. unfold folded_into in Hcount. lia.
  - intros id row. rewrite lookup_insert_Some. intros [[<- <-] | [Hne H]].
    + cbn [stored_alert keyed_alert ar_last_seen tr_about with_key al_last_seen]. rewrite Hlast. split.
      * exists d, o. by rewrite lookup_insert_eq.
      * intros d' o'. rewrite lookup_insert_Some. intros [[<- <-] | [_ Ho']]; [done |]. intros Hin. exfalso.
        destruct (so_folded t Hs _ _ Ho') as [row Hrow]. congruence.
    + destruct (so_last t Hs id row H) as [(d' & o' & Ho & Hin & Hl) Hall]. split.
      * exists d', o'. split; [| done]. rewrite lookup_insert_ne; [done |]. intros <-. congruence.
      * intros d'' o''. rewrite lookup_insert_Some. intros [[<- <-] | [_ Ho'']]; [done |]. by eapply Hall.
  - intros id row. rewrite lookup_insert_Some. intros [[<- <-] | [Hne H]].
    + assert (alert_standing (stored_alert (keyed_alert c)) = mkStanding 1 Open (tw_actor (trail_columns (Raised (keyed_alert c))))
        (tw_at (trail_columns (Raised (keyed_alert c))))) as ->.
      { unfold alert_standing. cbn. rewrite (cd_state c Hc), (cd_revision c Hc), Hby, Hat. done. }
      apply life_raised; [done | done | cbn; by rewrite (cd_state c Hc) | done].
    + eapply life_other; [by apply (so_life t Hs) |]. intros r. cbn. apply lookup_insert_ne. congruence.
  - intros id row. rewrite lookup_insert_Some. intros [[<- <-] | [_ H]]; [apply (cd_named c Hc) | by eapply so_named].
Qed.

Lemma move_sound t id tenants asked t' answer : sound t → alerts_Move id tenants asked t = (t', answer) → sound t'.
Proof.
  intros Hs. unfold alerts_Move. destruct (tb_alerts t !! id) as [row|] eqn:Hrow; [| by intros [= <- _]].
  destruct (negb _); [by intros [= <- _] |]. destruct (Apply (restore_alert row) asked) as [[moved line]|] eqn:Happly; [| by intros [= <- _]].
  destruct (Z.leb_spec (int64 (tr_revision moved)) 0) as [|Hpos]; [by intros [= <- _] |]. intros [= <- _].
  destruct (life_moved (restore_alert row) moved (tb_trail t) id (alert_standing row) asked line (so_life t Hs id row Hrow)
    (so_id t Hs id row Hrow) eq_refl eq_refl Happly Hpos) as (Hid & -> & Hkey & Hlife).
  rewrite Hid. split; cbn [tb_alerts tb_trail tb_folded].
  - intros id' row'. rewrite lookup_insert_Some. intros [[<- <-] | [_ H]]; [apply (so_id t Hs id row Hrow) | by apply (so_id t Hs)].
  - apply keyed_insert; [apply (so_keyed t Hs) | done].
  - intros k. rewrite lookup_insert_is_Some'. intros [<- | H]; apply lookup_insert_is_Some'; [by left | right; by apply (so_trail t Hs)].
  - intros d o Ho. apply lookup_insert_is_Some'. right. by eapply so_folded.
  - intros id' row'. rewrite lookup_insert_Some. intros [[<- <-] | [_ H]]; [apply (so_own t Hs id row Hrow) | by apply (so_own t Hs)].
  - intros id' row'. rewrite lookup_insert_Some. intros [[<- <-] | [_ H]]; [apply (so_count t Hs id row Hrow) | by apply (so_count t Hs)].
  - intros id' row'. rewrite lookup_insert_Some. intros [[<- <-] | [_ H]]; [apply (so_last t Hs id row Hrow) | by apply (so_last t Hs)].
  - intros id' row'. rewrite lookup_insert_Some. intros [[<- <-] | [Hne H]]; [done |].
    eapply life_other; [by apply (so_life t Hs) |]. intros r. cbn. apply lookup_insert_ne. congruence.
  - intros id' row'. rewrite lookup_insert_Some. intros [[<- <-] | [_ H]]; by eapply so_named.
Qed.

Context `{!PostgresLaws}.

Lemma openAlert_row t c row :
  sound t → openAlert t c = Some row →
  tb_alerts t !! ar_id row = Some row ∧ ar_tenant row = al_tenant (tr_about (ca_alert c)) ∧ ar_key row = ca_key c
  ∧ Closed (ar_state row) = false.
Proof.
  intros Hs Hopen%any_of_in. apply list_elem_of_filter in Hopen as [_ Hin].
  apply list_elem_of_filter in Hin as [(Ht & Hk & Hst) Hin]. apply list_elem_of_fmap in Hin as ([id row'] & -> & Hin).
  apply elem_of_map_to_list in Hin. cbn in *. rewrite (so_id t Hs id row' Hin). by destruct (Closed (ar_state row')).
Qed.

(** What became of one detection, and what that leaves of the tables. *)
Lemma record_one_sound t c now t' outcome :
  sound t → considered c → record_one now c t = Ok (t', outcome) →
  sound t' ∧
  match outcome with
  | OutcomeRepeated => t' = t ∧ is_Some (tb_folded t !! ca_detection c)
  | OutcomeSuppressed => False
  | OutcomeCooledDown => t' = t ∧ tb_folded t !! ca_detection c = None
  | OutcomeRaised | OutcomeFolded =>
      tb_folded t !! ca_detection c = None ∧ ∃ o, tb_folded t' = <[ca_detection c := o]> (tb_folded t)
  end.
Proof.
  intros Hs Hc. unfold record_one. destruct (alreadyFolded t (ca_detection c)) eqn:Hfolded.
  { intros [= <- <-]. split; [done |]. split; [done |]. by apply bool_decide_eq_true in Hfolded. }
  apply alreadyFolded_false in Hfolded. assert (∀ t' outcome, @Ok AlertStoreError _ (raise_alert now c t, OutcomeRaised) = Ok (t', outcome) →
    sound t' ∧ outcome = OutcomeRaised ∧ ∃ o, tb_folded t' = <[ca_detection c := o]> (tb_folded t)) as Hraise.
  { intros ? ? [= <- <-]. split; [by apply raise_sound |]. rewrite raise_alert_new by done. split; [done |]. by eexists. }
  destruct (openAlert t c) as [row|] eqn:Hopen.
  - destruct (openAlert_row t c row Hs Hopen) as (Hrow & _). destruct (negb _); [| by intros (? & -> & ?)%Hraise].
    destruct (Z.leb_spec (2 ^ 63) (ar_occurrences row + 1)) as [|Hfits]; [done |]. intros [= <- <-].
    unfold fold_occurrence. cbn [tb_alerts tb_trail tb_folded]. rewrite insert_once_new by done.
    split; [by apply fold_sound |]. split; [done |]. by eexists.
  - destruct (_ && _); [by intros [= <- <-] | by intros (? & -> & ?)%Hraise].
Qed.

(** The detections a log says were raised or folded. *)
Definition taken (log : list (string * AlertOutcome)) : list string :=
  (filter (λ '(_, outcome), outcome = OutcomeRaised ∨ outcome = OutcomeFolded) log).*1.

Lemma taken_app a b : taken (a ++ b) = taken a ++ taken b.
Proof. unfold taken. by rewrite filter_app, fmap_app. Qed.

Lemma taken_one detection outcome :
  taken [(detection, outcome)] = if decide (outcome = OutcomeRaised ∨ outcome = OutcomeFolded) then [detection] else [].
Proof. unfold taken. cbn. by destruct (decide _). Qed.

(** Each detection taken is folded somewhere, and nothing else is. *)
Definition all_accounted (t : AlertTables) (log : list (string * AlertOutcome)) : Prop :=
  taken log ≡ₚ (map_to_list (tb_folded t)).*1.

Lemma record_one_accounted t c now t' outcome log :
  sound t → considered c → record_one now c t = Ok (t', outcome) → all_accounted t log →
  sound t' ∧ all_accounted t' (log ++ [(ca_detection c, outcome)]).
Proof.
  intros Hs Hc Hrecord Hacc. destruct (record_one_sound t c now t' outcome Hs Hc Hrecord) as [Hs' Hwhat]. split; [done |].
  unfold all_accounted in *. rewrite taken_app, taken_one.
  destruct outcome; cbn [decide]; try done; try (destruct Hwhat as [-> _]; rewrite decide_False by naive_solver; by rewrite app_nil_r).
  all: destruct Hwhat as [Hnew [o ->]]; rewrite decide_True by auto.
  all: rewrite (Permutation_app_comm), map_to_list_insert by done; cbn; by rewrite Hacc.
Qed.

Lemma record_each_accounted now candidates : ∀ t t' outcomes log,
  sound t → Forall considered candidates → record_each now candidates t = Ok (t', outcomes) → all_accounted t log →
  sound t' ∧ all_accounted t' (log ++ what_became candidates outcomes).
Proof.
  induction candidates as [|c candidates IH]; intros t t' outcomes log Hs Hall Hrecord Hacc; cbn in Hrecord.
  { injection Hrecord as <- <-. by rewrite app_nil_r. }
  apply Forall_cons in Hall as [Hc Hall]. destruct (record_one now c t) as [[t1 outcome]|] eqn:Hone; [| done].
  destruct (record_each now candidates t1) as [[t2 rest]|] eqn:Hrest; [| done]. injection Hrecord as <- <-.
  destruct (record_one_accounted t c now t1 outcome log Hs Hc Hone Hacc) as [Hs1 Hacc1].
  destruct (IH t1 t2 rest _ Hs1 Hall Hrest Hacc1) as [Hs2 Hacc2]. split; [done |].
  unfold what_became in *. cbn [fmap list_fmap zip_with]. by rewrite <- app_assoc in Hacc2.
Qed.

Lemma reach_sound t log : alerts_reach t log → sound t ∧ all_accounted t log.
Proof.
  induction 1 as [| t log now candidates t' answer _ [Hs Hacc] Hall Hrecord | t log id tenants asked t' answer _ [Hs Hacc] Hmove].
  - split; [apply sound_start | unfold all_accounted; cbn; by rewrite map_to_list_empty].
  - unfold alerts_Record in Hrecord. destruct (record_each now candidates t) as [[t1 outcomes]|] eqn:Heach.
    + injection Hrecord as <- <-. by eapply record_each_accounted.
    + injection Hrecord as <- <-. by rewrite app_nil_r.
  - split; [by eapply move_sound |]. unfold all_accounted in *. rewrite Hacc. revert Hmove. unfold alerts_Move.
    destruct (tb_alerts t !! id); [| by intros [= <- _]]. destruct (negb _); [by intros [= <- _] |].
    destruct (Apply _ asked) as [[moved line]|]; [| by intros [= <- _]]. destruct (_ <=? 0); by intros [= <- _].
Qed.

(** C14. The store's trail of an alert is its whole life: whatever batches were recorded and
    whatever moves were asked, by whoever at once, its history has one line for every
    revision of the alert, each leading from the state the line before it left and naming who
    made it, from the raising at revision one to the state the alert reads back in. *)
Theorem an_alert_s_history_is_its_life t log id tenants a lines :
  alerts_reach t log → alerts_Alert t id tenants = Ok a → alerts_History t id tenants = Ok lines →
  chained STATE_UNSPECIFIED 1 lines ∧ len lines = tr_revision a ∧ tr_state a = last_to STATE_UNSPECIFIED lines
  ∧ Forall (λ line, tn_actor line ≠ "") lines
  ∧ ∃ line, last lines = Some line ∧ tn_actor line = tr_changed_by a ∧ tn_at line = tr_changed_at a.
Proof.
  intros [Hs _]%reach_sound Hread Hhistory. unfold alerts_History in Hhistory. rewrite Hread in Hhistory. injection Hhistory as <-.
  unfold alerts_Alert in Hread. destruct (tb_alerts t !! id) as [row|] eqn:Hrow; [| done]. case_bool_decide; [| done]. injection Hread as <-.
  pose proof (so_life t Hs id row Hrow) as Hlife. pose proof (lf_revision _ _ _ Hlife) as Hrange. cbn [alert_standing sg_revision] in Hrange.
  change (2 ^ 63) with 9223372036854775808 in Hrange.
  assert (tr_revision (restore_alert row) = ar_revision row) as -> by (cbn; unfold wrap_uint; apply Z.mod_small; lia).
  exact (history_of_life (tb_trail t) id (alert_standing row) (so_keyed t Hs) Hlife).
Qed.

(** ** What an alert is made of *)

Lemma in_occurrences t id tenants os o :
  alerts_Occurrences t id tenants = Ok os →
  o ∈ os ↔ ∃ row, tb_folded t !! on_detection o = Some row ∧ oc_alert row = id
             ∧ oc_event_time row = on_event_time o ∧ oc_folded_at row = on_folded_at o.
Proof.
  unfold alerts_Occurrences. destruct (alerts_Alert t id tenants); [| done]. intros [= <-].
  unfold ordered_rows. rewrite merge_sort_Permutation, list_elem_of_fmap. split.
  - intros ([d row] & -> & Hin). apply list_elem_of_filter in Hin as [Hid Hin]. apply elem_of_map_to_list in Hin. by exists row.
  - intros (row & Hrow & Hid & Ht & Hf). exists (on_detection o, row). split; [destruct o; cbn in *; congruence |].
    apply list_elem_of_filter. split; [done |]. by apply elem_of_map_to_list.
Qed.

Lemma occurrences_once t id tenants os :
  alerts_Occurrences t id tenants = Ok os → NoDup (on_detection <$> os) ∧ len os = len (folded_into t id).
Proof.
  unfold alerts_Occurrences. destruct (alerts_Alert t id tenants); [| done]. intros [= <-].
  unfold ordered_rows, folded_into, len. rewrite merge_sort_Permutation, length_fmap. split; [| done].
  rewrite <- list_fmap_compose. eapply sublist_NoDup; [apply (NoDup_fst_map_to_list (tb_folded t)) |].
  erewrite list_fmap_ext; [apply fmap_sublist, (sublist_filter (λ '(_, row), oc_alert row = id)) |]. by intros ? [].
Qed.

(** C12. Folding discards nothing and counts nothing twice: whatever batches are recorded and
    redelivered and whatever moves are made, each detection raised or folded was so once and
    stands in exactly one alert; an alert's count is the detections it reads back, it was
    first seen when the detection it is named by happened and last seen when the latest of
    them did. *)
Theorem an_alert_accounts_for_its_detections t log :
  alerts_reach t log →
  NoDup (taken log)
  ∧ (∀ detection, detection ∈ taken log ↔
       ∃ id row os, tb_alerts t !! id = Some row ∧ alerts_Occurrences t id [ar_tenant row] = Ok os ∧ detection ∈ (on_detection <$> os))
  ∧ ∀ id tenants a os, alerts_Alert t id tenants = Ok a → alerts_Occurrences t id tenants = Ok os →
      al_occurrences (tr_about a) = len os ∧ NoDup (on_detection <$> os)
      ∧ (∃ o, o ∈ os ∧ on_detection o = id ∧ on_event_time o = al_first_seen (tr_about a))
      ∧ (∃ o, o ∈ os ∧ on_event_time o = al_last_seen (tr_about a))
      ∧ ∀ o, o ∈ os → on_event_time o ≤ al_last_seen (tr_about a).
Proof.
  intros [Hs Hacc]%reach_sound. unfold all_accounted in Hacc. split_and!.
  - rewrite Hacc. apply NoDup_fst_map_to_list.
  - intros detection. rewrite Hacc, list_elem_of_fmap. split.
    + intros ([d o] & -> & Ho%elem_of_map_to_list). destruct (so_folded t Hs _ _ Ho) as [row Hrow].
      assert (is_Some (match alerts_Occurrences t (oc_alert o) [ar_tenant row] with Ok os => Some os | Err _ => None end)) as [os Hos].
      { unfold alerts_Occurrences, alerts_Alert. rewrite Hrow, bool_decide_true by (by left). by eexists. }
      destruct (alerts_Occurrences t (oc_alert o) [ar_tenant row]) as [os'|] eqn:Hread; [| done]. exists (oc_alert o), row, os'.
      split_and!; [done | done |]. apply list_elem_of_fmap. exists (mkOccurrence d (oc_event_time o) (oc_folded_at o)). split; [done |].
      apply (in_occurrences _ _ _ _ _ Hread). by exists o.
    + intros (id & row & os & _ & Hread & Hin). apply list_elem_of_fmap in Hin as (o & -> & Hin).
      apply (in_occurrences _ _ _ _ _ Hread) in Hin as (held & Hheld & _). exists (on_detection o, held).
      split; [done |]. by apply elem_of_map_to_list.
  - intros id tenants a os Hread Hos. destruct (occurrences_once _ _ _ _ Hos) as [Hnd Hlen].
    pose proof (in_occurrences t id tenants os) as Hin. unfold alerts_Alert in Hread.
    destruct (tb_alerts t !! id) as [row|] eqn:Hrow; [| done]. case_bool_decide; [| done]. injection Hread as <-.
    destruct (so_count t Hs id row Hrow) as [Hcount Hfits]. destruct (so_own t Hs id row Hrow) as (own & Hown & Hownid & Hownat).
    destruct (so_last t Hs id row Hrow) as [(d & o & Ho & Hoid & Hoat) Hlast].
    change (2 ^ 63) with 9223372036854775808 in *. split_and!.
    + cbn. rewrite Hcount, <- Hlen in *. pose proof (len_nonneg os). unfold wrap_uint. rewrite Z.mod_small; [done | lia].
    + done.
    + exists (mkOccurrence id (oc_event_time own) (oc_folded_at own)). split; [| done]. apply Hin; [done |]. by exists own.
    + exists (mkOccurrence d (oc_event_time o) (oc_folded_at o)). split; [| done]. apply Hin; [done |]. by exists o.
    + intros x Hx. apply Hin in Hx as (held & Hheld & Hid & <- & _); [| done]. by eapply Hlast.
Qed.

(** ** Redelivery *)

(** Whatever else is recorded or moved. *)
Inductive alerts_step : AlertTables → AlertTables → Prop :=
| step_recorded now candidates t t' answer : alerts_Record now candidates t = (t', answer) → alerts_step t t'
| step_moved id tenants asked t t' answer : alerts_Move id tenants asked t = (t', answer) → alerts_step t t'.

Lemma insert_once_grows {K V} `{Countable K} (k : K) (v : V) m : m ⊆ insert_once k v m ∧ is_Some (insert_once k v m !! k).
Proof.
  unfold insert_once. case_bool_decide as Hk; [done |]. apply eq_None_not_Some in Hk.
  split; [by apply insert_subseteq | rewrite lookup_insert_eq; by eexists].
Qed.

Lemma record_one_grows now c t t' outcome :
  record_one now c t = Ok (t', outcome) →
  tb_folded t ⊆ tb_folded t' ∧ (outcome ≠ OutcomeCooledDown → is_Some (tb_folded t' !! ca_detection c)).
Proof.
  unfold record_one. destruct (alreadyFolded t (ca_detection c)) eqn:Hfolded.
  { intros [= <- <-]. split; [done |]. intros _. by apply bool_decide_eq_true in Hfolded. }
  assert (∀ o, tb_folded t ⊆ insert_once (ca_detection c) o (tb_folded t) ∧ is_Some (insert_once (ca_detection c) o (tb_folded t) !! ca_detection c))
    as Hgrows by (intros o; apply insert_once_grows).
  destruct (openAlert t c) as [row|].
  - destruct (negb _); [destruct (2 ^ 63 <=? _); [done |] |]; intros [= <- <-]; cbn; split; by intros; apply Hgrows.
  - destruct (_ && _); intros [= <- <-]; [done |]. cbn. split; by intros; apply Hgrows.
Qed.

Lemma record_each_grows now candidates : ∀ t t' outcomes,
  record_each now candidates t = Ok (t', outcomes) →
  tb_folded t ⊆ tb_folded t' ∧ length outcomes = length candidates
  ∧ ∀ i c outcome, candidates !! i = Some c → outcomes !! i = Some outcome → outcome ≠ OutcomeCooledDown → is_Some (tb_folded t' !! ca_detection c).
Proof.
  induction candidates as [|c candidates IH]; intros t t' outcomes Hrecord; cbn in Hrecord.
  { injection Hrecord as <- <-. done. }
  destruct (record_one now c t) as [[t1 outcome]|] eqn:Hone; [| done].
  destruct (record_each now candidates t1) as [[t2 rest]|] eqn:Hrest; [| done]. injection Hrecord as <- <-.
  destruct (record_one_grows _ _ _ _ _ Hone) as [Hsub Hin]. destruct (IH _ _ _ Hrest) as (Hsub' & Hlen & Hall).
  split_and!; [by trans (tb_folded t1) | cbn; congruence |]. intros [|i] x o Hx Ho Hne; cbn in Hx, Ho.
  - injection Hx as <-. injection Ho as <-. destruct (Hin Hne) as [held Hheld]. exists held. by eapply lookup_weaken.
  - by eapply Hall.
Qed.

Lemma steps_grow t t' : rtc alerts_step t t' → tb_folded t ⊆ tb_folded t'.
Proof.
  induction 1 as [|t t1 t2 Hstep _ IH]; [done |]. trans (tb_folded t1); [| done]. destruct Hstep as [now candidates t t' answer Hrec | id tenants asked t t' answer Hmove].
  - unfold alerts_Record in Hrec. destruct (record_each now candidates t) as [[t'' outcomes]|] eqn:Heach; injection Hrec as <- <-; [| done].
    by apply record_each_grows in Heach as (? & _).
  - revert Hmove. unfold alerts_Move. destruct (tb_alerts t !! id); [| by intros [= <- _]]. destruct (negb _); [by intros [= <- _] |].
    destruct (Apply _ asked) as [[moved line]|]; [| by intros [= <- _]]. destruct (_ <=? 0); by intros [= <- _].
Qed.

Lemma record_repeated now candidates t :
  Forall (λ c, is_Some (tb_folded t !! ca_detection c)) candidates →
  alerts_Record now candidates t = (t, Ok (replicate (length candidates) OutcomeRepeated)).
Proof.
  intros Hall. unfold alerts_Record. assert (record_each now candidates t = Ok (t, replicate (length candidates) OutcomeRepeated)) as ->; [| done].
  induction Hall as [|c candidates Hc _ IH]; [done |]. cbn. unfold record_one, alreadyFolded. rewrite bool_decide_true by done. by rewrite IH.
Qed.

(** C40. A batch delivered again decides nothing: however much was recorded and moved since,
    a batch none of whose detections was in a cooldown leaves the tables exactly as they are
    and is answered as repeated throughout; and of any batch delivered again, a detection that
    was raised, folded or repeated is repeated. *)
Theorem a_redelivered_batch_is_repeated now candidates t t' outcomes later now' :
  alerts_Record now candidates t = (t', Ok outcomes) → rtc alerts_step t' later →
  (OutcomeCooledDown ∉ outcomes →
     alerts_Record now' candidates later = (later, Ok (replicate (length candidates) OutcomeRepeated)))
  ∧ ∀ t'' again i outcome, alerts_Record now' candidates later = (t'', Ok again) →
      outcomes !! i = Some outcome → outcome ≠ OutcomeCooledDown → again !! i = Some OutcomeRepeated.
Proof.
  intros Hrecord Hsteps%steps_grow. unfold alerts_Record in Hrecord.
  destruct (record_each now candidates t) as [[t1 outs]|] eqn:Heach; [| done]. injection Hrecord as <- <-.
  destruct (record_each_grows _ _ _ _ _ Heach) as (_ & Hlen & Hin). split.
  - intros Hnone. apply record_repeated. apply Forall_lookup. intros i c Hc.
    destruct (lookup_lt_is_Some_2 outs i) as [outcome Ho]; [rewrite Hlen; by eapply lookup_lt_Some |].
    destruct (Hin i c outcome Hc Ho) as [held Hheld]; [intros ->; apply Hnone; by eapply list_elem_of_lookup_2 |].
    exists held. by eapply lookup_weaken.
  - intros t'' again i outcome Hagain Ho Hne. destruct (lookup_lt_is_Some_2 candidates i) as [c Hc];
      [rewrite <- Hlen; by eapply lookup_lt_Some |]. destruct (Hin i c outcome Hc Ho Hne) as [held Hheld].
    assert (is_Some (tb_folded later !! ca_detection c)) as Hfolded by (exists held; by eapply lookup_weaken).
    unfold alerts_Record in Hagain. destruct (record_each now' candidates later) as [[t2 outs2]|] eqn:Hsecond; [| done].
    injection Hagain as <- <-. clear - Hsecond Hc Hfolded. revert i later outs2 Hsecond Hc Hfolded.
    induction candidates as [|c' candidates IH]; intros i later outs2 Hsecond Hc Hfolded; [done |]. cbn in Hsecond.
    destruct (record_one now' c' later) as [[t1 o1]|] eqn:Hone; [| done].
    destruct (record_each now' candidates t1) as [[t3 rest]|] eqn:Hrest; [| done]. injection Hsecond as <- <-. destruct i as [|i].
    + injection Hc as ->. unfold record_one, alreadyFolded in Hone. rewrite bool_decide_true in Hone by done. by injection Hone as _ <-.
    + cbn. eapply IH; [done | done |]. destruct (record_one_grows _ _ _ _ _ Hone) as [Hsub _]. destruct Hfolded as [held Hheld].
      exists held. by eapply lookup_weaken.
Qed.

(** ** Listing *)

Lemma alert_keys t : sound t → NoDup (alert_key <$> alert_rows t).
Proof.
  intros Hs. unfold alert_rows. rewrite <- list_fmap_compose.
  assert (NoDup (ar_id <$> alert_rows t)) as Hids.
  { unfold alert_rows. rewrite <- list_fmap_compose. assert (((ar_id ∘ snd) <$> map_to_list (tb_alerts t)) = (map_to_list (tb_alerts t)).*1) as ->.
    { apply list_fmap_ext. intros i [id row] Hi. cbn. apply (so_id t Hs). apply elem_of_map_to_list. by eapply list_elem_of_lookup_2. }
    apply NoDup_fst_map_to_list. }
  unfold alert_rows in Hids. rewrite <- list_fmap_compose in Hids. revert Hids. generalize (map_to_list (tb_alerts t)).
  intros l. induction l as [|x l IH]; [constructor |]. cbn. intros [Hnew Hnd]%NoDup_cons. apply NoDup_cons. split; [| by apply IH].
  rewrite list_elem_of_fmap. intros (y & He & Hy). apply Hnew, list_elem_of_fmap. exists y. split; [| done]. unfold alert_key in He. cbn in *. congruence.
Qed.

(** C16. Where every alert a caller may see was raised at a whole millisecond, following the
    cursors of any listing from its first page collects each alert it asks for that stands in
    the caller's tenants, once, newest first; it is done in one page more than there are
    alerts. *)
Theorem pages_of_alerts_list_each_once t log q tenants fuel :
  alerts_reach t log →
  (∀ row, row ∈ alert_rows t → alert_seen q tenants row = true → whole_millis (ar_raised_at row)) →
  (length (alert_rows t) < fuel)%nat →
  ∃ listed, follow_pages fuel (alert_pages t q tenants) "" = Some (Ok listed) ∧ NoDup listed
    ∧ StronglySorted (λ a b, timed_after (alert_key a) (alert_key b) = true) listed
    ∧ ∀ row, row ∈ listed ↔ row ∈ alert_rows t ∧ alert_seen q tenants row = true.
Proof.
  intros [Hs _]%reach_sound Hwhole Hfuel. destruct timed_after_ordered as (Hirr & Htrans & Htotal).
  assert (pages_well alert_key timed_after decode_alert_cursor (λ row, time_cursor (ar_raised_at row) (ar_id row)) (alert_rows t)
            (alert_seen q tenants)) as Hwell.
  { split; [done | done | done | by apply alert_keys |]. intros row Hrow Hseen.
    assert (ar_id row ≠ "") as Hid.
    { unfold alert_rows in Hrow. apply list_elem_of_fmap in Hrow as ([id row'] & -> & Hin%elem_of_map_to_list). cbn.
      rewrite (so_id t Hs _ _ Hin). by eapply so_named. }
    destruct (time_position_read (ar_raised_at row) (ar_id row) (Hwhole row Hrow Hseen) Hid) as [Hne Hread]. split; [done |].
    unfold decode_alert_cursor. by rewrite Hread. }
  destruct (pages_collect_everything _ _ _ _ _ _ (aq_alerts_limit q) Hwell fuel Hfuel) as (Hfollow & Hnd & Hin).
  eexists. split_and!; [exact Hfollow | done | exact (everything_sorted _ _ _ _ _ _ Hwell) | done].
Qed.
End reach.
