(* ===== verification/IncidentStore.v ===== *)
(** * The store of incidents

    postgres/incidents.go: the columns an incident's story and work are kept in, the
    transaction that opens a batch of stories, the move of an incident and the reads; and what
    the store keeps, whatever is opened again and moved in whatever order. *)

From Stdlib Require Import ZArith Lia Ascii.
From stdpp Require Import base tactics option gmap strings pretty sorting numbers list.
From S2P Require Import Prelude Text Scan Hex Bytes Session Event Canonical Assessment Rule Contract Detected Triage Alert Incident Listing Trail AlertStore AlertStoreProps.

(** ** Columns *)

Record IncidentRow := mkIncidentRow {
  ir_id : string; ir_schema : Z; ir_tenant : string; ir_detection : string;
  ir_rule : string; ir_rule_revision : Z; ir_rule_name : string; ir_catalogue : string; ir_identifier : string; ir_ruleset : string;
  ir_severity : string; ir_confidence : string; ir_tactic : string; ir_technique : string; ir_technique_name : string;
  ir_class : string; ir_agent : string;
  ir_stage_names : list string; ir_stage_events : list string; ir_stage_times : list instant; ir_stage_agents : list string;
  ir_group_fields : list string; ir_group_values : list string; ir_group_absent : list bool;
  ir_window_seconds : Z; ir_spread_millis : Z; ir_first : instant; ir_last : instant; ir_raised_at : instant;
  ir_state : string; ir_assignee : string; ir_changed_by : string; ir_changed_at : instant; ir_revision : Z;
  ir_closure_state : string; ir_closure_reason : string; ir_closure_by : string; ir_closure_at : option instant;
}.

Record IncidentTables := mkIncidentTables { tb_incidents : gmap string IncidentRow; tb_incident_trail : gmap (string * Z) TrailRow }.

Inductive IncidentError := IncidentMove (why : MoveError) | ErrUnknownIncident | ErrIncidentCursor | IncidentFails.
Inductive IncidentOutcome := IncidentRaised | IncidentRepeated.
#[global] Instance IncidentOutcome_eq_dec : EqDecision IncidentOutcome.
Proof. solve_decision. Defined.

(** [Level]: [String] of a number the contract lacks is the number. *)
Definition confidence_written (c : IncidentConfidence) : string :=
  match c with CONFIDENCE_UNSPECIFIED => "" | CONFIDENCE_LOW => "low" | CONFIDENCE_MEDIUM => "medium" | CONFIDENCE_HIGH => "high"
  | CONFIDENCE_OTHER n => pretty n end.

Definition levels_asked (asked : list IncidentConfidence) : list string :=
  filter (λ written, written ≠ "") (confidence_written <$> asked).

Definition Confidence_value (name : string) : IncidentConfidence :=
  if bool_decide (name = "CONFIDENCE_LOW") then CONFIDENCE_LOW
  else if bool_decide (name = "CONFIDENCE_MEDIUM") then CONFIDENCE_MEDIUM
  else if bool_decide (name = "CONFIDENCE_HIGH") then CONFIDENCE_HIGH
  else CONFIDENCE_UNSPECIFIED.

Fixpoint restoreStages (names events : list string) (times : list instant) (agents : list string) : list DetectedStage :=
  match names, events, times with
  | name :: names, event :: events, time :: times =>
      mkDetectedStage name event time (default "" (head agents)) :: restoreStages names events times (tail agents)
  | _, _, _ => []
  end.

Fixpoint restoreGroupings (fields values : list string) (absent : list bool) : list Binding :=
  match fields, values, absent with
  | field :: fields, value :: values, gone :: absent => mkBinding field value gone :: restoreGroupings fields values absent
  | _, _, _ => []
  end.

Section store.
Context {contract : Contract} {values : ClassValues} {postgres : Postgres}.

Definition storedIncident (one : Tracked IncidentAbout) : IncidentRow :=
  let a := tr_about one in
  let source := default (mkSource "" "") (dr_source (in_rule a)) in
  let technique := default (mkTechnique "" "" "") (in_technique a) in
  mkIncidentRow (tr_id one) (int32 (in_schema a)) (in_tenant a) (in_detection a)
    (dr_id (in_rule a)) (int64 (dr_revision (in_rule a))) (dr_name (in_rule a)) (src_catalogue source) (src_identifier source)
    (in_ruleset a) (severity_written (in_severity a)) (confidence_written (in_confidence a))
    (tech_tactic technique) (tech_id technique) (tech_name technique) (class_written (in_class a)) (in_agent a)
    (ds_name <$> in_stages a) (ds_event <$> in_stages a) (timestamptz ∘ ds_time <$> in_stages a) (ds_agent <$> in_stages a)
    (bind_field <$> in_group a) (bind_value <$> in_group a) (bind_absent <$> in_group a)
    (Z.quot (in_window a) second) (Z.quot (in_spread a) millisecond)
    (timestamptz (in_first a)) (timestamptz (in_last a)) (timestamptz (in_raised_at a))
    (state_column (tr_state one)) (tr_assignee one) (tr_changed_by one) (timestamptz (tr_changed_at one)) (int64 (tr_revision one))
    (match tr_closure one with Some c => state_column (cl_state c) | None => "" end)
    (match tr_closure one with Some c => cl_reason c | None => "" end)
    (match tr_closure one with Some c => cl_by c | None => "" end)
    (match tr_closure one with Some c => Some (timestamptz (cl_at c)) | None => None end).

Definition restoreIncident (row : IncidentRow) : Tracked IncidentAbout :=
  mkTracked (ir_id row)
    {| in_schema := uint32 (ir_schema row); in_tenant := ir_tenant row; in_detection := ir_detection row;
       in_rule := mkDetectedRule (ir_rule row) (uint32 (ir_rule_revision row)) (ir_rule_name row)
         (if negb (bool_decide (ir_catalogue row = "")) || negb (bool_decide (ir_identifier row = ""))
          then Some (mkSource (ir_catalogue row) (ir_identifier row)) else None);
       in_ruleset := ir_ruleset row;
       in_severity := Severity_value (enum_name "SEVERITY_" (ir_severity row));
       in_confidence := Confidence_value (enum_name "CONFIDENCE_" (ir_confidence row));
       in_technique :=
         if negb (bool_decide (ir_tactic row = "")) || negb (bool_decide (ir_technique row = ""))
            || negb (bool_decide (ir_technique_name row = ""))
         then Some (mkTechnique (ir_tactic row) (ir_technique row) (ir_technique_name row)) else None;
       in_class := EventClass_value (enum_name "EVENT_CLASS_" (ir_class row)); in_agent := ir_agent row;
       in_stages := restoreStages (ir_stage_names row) (ir_stage_events row) (ir_stage_times row) (ir_stage_agents row);
       in_group := restoreGroupings (ir_group_fields row) (ir_group_values row) (ir_group_absent row);
       in_window := int64 (ir_window_seconds row * second); in_spread := int64 (ir_spread_millis row * millisecond);
       in_first := ir_first row; in_last := ir_last row; in_raised_at := ir_raised_at row |}
    (Wire (ir_state row)) (ir_assignee row) (uint64 (ir_revision row)) (ir_changed_by row) (ir_changed_at row)
    (if bool_decide (ir_closure_state row = "") then None
     else Some (mkClosure (Wire (ir_closure_state row)) (ir_closure_reason row) (ir_closure_by row)
                  (default time_zero (ir_closure_at row)))).

(** ** Opening a batch of stories *)

(** The schema holds a story to at least one stage. *)
Definition open_one (one : Tracked IncidentAbout) (t : IncidentTables) : result IncidentError (IncidentTables * IncidentOutcome) :=
  if len (in_stages (tr_about one)) =? 0 then Err IncidentFails
  else if bool_decide (is_Some (tb_incidents t !! tr_id one)) then Ok (t, IncidentRepeated)
  else Ok (mkIncidentTables (<[tr_id one := storedIncident one]> (tb_incidents t))
             (insert_line (RaisedIncident one) (tb_incident_trail t)), IncidentRaised).

Fixpoint open_each (stories : list (Tracked IncidentAbout)) (t : IncidentTables) : result IncidentError (IncidentTables * list IncidentOutcome) :=
  match stories with
  | [] => Ok (t, [])
  | one :: stories =>
      match open_one one t with
      | Err e => Err e
      | Ok (t', outcome) =>
          match open_each stories t' with
          | Err e => Err e
          | Ok (t'', outcomes) => Ok (t'', outcome :: outcomes)
          end
      end
  end.

Definition incidents_Open (stories : list (Tracked IncidentAbout)) (t : IncidentTables) : IncidentTables * result IncidentError (list IncidentOutcome) :=
  match open_each stories t with Ok (t', outcomes) => (t', Ok outcomes) | Err e => (t, Err e) end.

(** ** Reading and moving *)

Definition incidents_Incident (t : IncidentTables) (id : string) (tenants : list string) : result IncidentError (Tracked IncidentAbout) :=
  match tb_incidents t !! id with
  | Some row => if bool_decide (ir_tenant row ∈ tenants) then Ok (restoreIncident row) else Err ErrUnknownIncident
  | None => Err ErrUnknownIncident
  end.

Definition incidents_History (t : IncidentTables) (id : string) (tenants : list string) : result IncidentError (list Transition) :=
  match incidents_Incident t id tenants with
  | Err e => Err e
  | Ok _ => Ok (restoreTransition <$> lines_of (tb_incident_trail t) id)
  end.

(** The story is not among the columns a move writes. *)
Definition moved_incident (moved : Tracked IncidentAbout) (row : IncidentRow) : IncidentRow :=
  mkIncidentRow (ir_id row) (ir_schema row) (ir_tenant row) (ir_detection row)
    (ir_rule row) (ir_rule_revision row) (ir_rule_name row) (ir_catalogue row) (ir_identifier row) (ir_ruleset row)
    (ir_severity row) (ir_confidence row) (ir_tactic row) (ir_technique row) (ir_technique_name row) (ir_class row) (ir_agent row)
    (ir_stage_names row) (ir_stage_events row) (ir_stage_times row) (ir_stage_agents row)
    (ir_group_fields row) (ir_group_values row) (ir_group_absent row)
    (ir_window_seconds row) (ir_spread_millis row) (ir_first row) (ir_last row) (ir_raised_at row)
    (state_column (tr_state moved)) (tr_assignee moved) (tr_changed_by moved) (timestamptz (tr_changed_at moved)) (int64 (tr_revision moved))
    (match tr_closure moved with Some c => state_column (cl_state c) | None => "" end)
    (match tr_closure moved with Some c => cl_reason c | None => "" end)
    (match tr_closure moved with Some c => cl_by c | None => "" end)
    (match tr_closure moved with Some c => Some (timestamptz (cl_at c)) | None => None end).

Definition incidents_Move (id : string) (tenants : list string) (asked : Move) (t : IncidentTables)
    : IncidentTables * result IncidentError (Tracked IncidentAbout) :=
  match tb_incidents t !! id with
  | None => (t, Err ErrUnknownIncident)
  | Some row =>
      if negb (bool_decide (ir_tenant row ∈ tenants)) then (t, Err ErrUnknownIncident)
      else match incident_Apply (restoreIncident row) asked with
      | Err e => (t, Err (IncidentMove e))
      | Ok (moved, line) =>
          if int64 (tr_revision moved) <=? 0 then (t, Err IncidentFails)
          else (mkIncidentTables (<[tr_id moved := moved_incident moved row]> (tb_incidents t))
                  (insert_line line (tb_incident_trail t)), Ok moved)
      end
  end.

(** ** Listing *)

Record IncidentQuery := mkIncidentQuery {
  iq_from : option instant; iq_until : option instant; iq_states : list WireState; iq_severities : list WireSeverity;
  iq_confidences : list IncidentConfidence; iq_assignee : string; iq_rule : string; iq_agent : string; iq_limit : Z; iq_cursor : string;
}.

Definition incident_seen (q : IncidentQuery) (tenants : list string) (row : IncidentRow) : bool :=
  bool_decide (ir_tenant row ∈ tenants)
  && match iq_from q with Some start => timestamptz start <=? ir_raised_at row | None => true end
  && match iq_until q with Some ending => ir_raised_at row <? timestamptz ending | None => true end
  && (let named := states_asked (iq_states q) in (len named =? 0) || bool_decide (ir_state row ∈ named))
  && (let named := severities_asked (iq_severities q) in (len named =? 0) || bool_decide (ir_severity row ∈ named))
  && (let named := levels_asked (iq_confidences q) in (len named =? 0) || bool_decide (ir_confidence row ∈ named))
  && (bool_decide (iq_assignee q = "") || bool_decide (ir_assignee row = iq_assignee q))
  && (bool_decide (iq_rule q = "") || bool_decide (ir_rule row = iq_rule q))
  && (bool_decide (iq_agent q = "") || bool_decide (ir_agent row = iq_agent q)).

Definition incident_key (row : IncidentRow) : instant * string := (ir_raised_at row, ir_id row).

Definition decodeIncidentCursor (token : string) : result IncidentError (instant * string) :=
  match time_position token with Some position => Ok position | None => Err ErrIncidentCursor end.

Definition incident_pages (t : IncidentTables) (q : IncidentQuery) (tenants : list string) (cursor : string)
    : result IncidentError (list IncidentRow * string) :=
  page incident_key timed_after decodeIncidentCursor (λ row, time_cursor (ir_raised_at row) (ir_id row))
    (map_to_list (tb_incidents t)).*2 (incident_seen q tenants) cursor (iq_limit q).

Definition incidents_Page (t : IncidentTables) (q : IncidentQuery) (tenants : list string)
    : result IncidentError (list (Tracked IncidentAbout) * string) :=
  match incident_pages t q tenants (iq_cursor q) with
  | Ok (rows, next) => Ok (restoreIncident <$> rows, next)
  | Err e => Err e
  end.

(** ** What columns keep of a story *)

(** A story as columns keep it: instants at whole microseconds, the window at whole seconds
    and the spread of the clocks at whole milliseconds. *)
Definition kept_stage (stage : DetectedStage) : DetectedStage :=
  mkDetectedStage (ds_name stage) (ds_event stage) (timestamptz (ds_time stage)) (ds_agent stage).

Definition kept_story (a : IncidentAbout) : IncidentAbout :=
  {| in_schema := in_schema a; in_tenant := in_tenant a; in_detection := in_detection a; in_rule := in_rule a;
     in_ruleset := in_ruleset a; in_severity := in_severity a; in_confidence := in_confidence a; in_technique := in_technique a;
     in_class := in_class a; in_agent := in_agent a; in_stages := kept_stage <$> in_stages a; in_group := in_group a;
     in_window := in_window a - Z.rem (in_window a) second; in_spread := in_spread a - Z.rem (in_spread a) millisecond;
     in_first := timestamptz (in_first a); in_last := timestamptz (in_last a); in_raised_at := timestamptz (in_raised_at a) |}.

(** A story made of declared values. *)
Record tellable (a : IncidentAbout) : Prop := {
  te_schema : 0 ≤ in_schema a < 2 ^ 32;
  te_rule : 0 ≤ dr_revision (in_rule a) < 2 ^ 32;
  te_source s : dr_source (in_rule a) = Some s → source_empty s = false;
  te_technique t : in_technique a = Some t → technique_empty t = false;
  te_severity n : in_severity a ≠ SEVERITY_OTHER n;
  te_confidence n : in_confidence a ≠ CONFIDENCE_OTHER n;
  te_class : is_Some (EventClass_name (in_class a));
  te_window : - 2 ^ 63 ≤ in_window a < 2 ^ 63;
  te_spread : - 2 ^ 63 ≤ in_spread a < 2 ^ 63;
}.

Lemma confidence_kept c : (∀ n, c ≠ CONFIDENCE_OTHER n) → Confidence_value (enum_name "CONFIDENCE_" (confidence_written c)) = c.
Proof. intros Hc. destruct c; try by vm_compute. by destruct (Hc number). Qed.

Lemma stages_kept (l : list DetectedStage) :
  restoreStages (ds_name <$> l) (ds_event <$> l) (timestamptz ∘ ds_time <$> l) (ds_agent <$> l) = kept_stage <$> l.
Proof. induction l as [|stage l IH]; [done |]. cbn. by f_equal. Qed.

Lemma groupings_kept (l : list Binding) : restoreGroupings (bind_field <$> l) (bind_value <$> l) (bind_absent <$> l) = l.
Proof. induction l as [|[] l IH]; [done |]. cbn. by f_equal. Qed.

Lemma quot_kept d unit_ : 0 < unit_ → - 2 ^ 63 ≤ d < 2 ^ 63 → int64 (Z.quot d unit_ * unit_) = d - Z.rem d unit_.
Proof.
  intros Hu Hd. pose proof (Z.quot_rem' d unit_) as Heq. replace (Z.quot d unit_ * unit_) with (d - Z.rem d unit_) by lia.
  apply int64_id. destruct (Z.le_gt_cases 0 d) as [Hpos|Hneg].
  - pose proof (Z.rem_nonneg d unit_ ltac:(lia) Hpos). pose proof (Z.rem_le d unit_ Hpos Hu). lia.
  - pose proof (Z.rem_opp_l' d unit_) as Hopp. pose proof (Z.rem_nonneg (- d) unit_ ltac:(lia) ltac:(lia)).
    pose proof (Z.rem_le (- d) unit_ ltac:(lia) Hu). lia.
Qed.

Lemma story_kept `{!ClassLaws} one : tellable (tr_about one) → tr_about (restoreIncident (storedIncident one)) = kept_story (tr_about one).
Proof.
  intros [Hschema Hrule Hsource Htechnique Hseverity Hconfidence Hclass Hwindow Hspread]. destruct one as [id about state assignee revision by_ at_ closure].
  cbn [tr_about] in *. unfold kept_story. cbn [restoreIncident storedIncident tr_about ir_schema ir_tenant ir_detection ir_rule ir_rule_revision
    ir_rule_name ir_catalogue ir_identifier ir_ruleset ir_severity ir_confidence ir_tactic ir_technique ir_technique_name ir_class ir_agent
    ir_stage_names ir_stage_events ir_stage_times ir_stage_agents ir_group_fields ir_group_values ir_group_absent ir_window_seconds
    ir_spread_millis ir_first ir_last ir_raised_at].
  rewrite severity_kept, confidence_kept, class_kept, stages_kept, groupings_kept, uint32_int32 by done.
  rewrite (quot_kept (in_window about) second), (quot_kept (in_spread about) millisecond) by done. f_equal.
  - destruct (in_rule about) as [rule rrevision name source]. cbn in *.
    rewrite (int64_id rrevision) by (split; [lia |]; change (2 ^ 63) with 9223372036854775808; lia).
    f_equal; [unfold wrap_uint; apply Z.mod_small; lia |]. destruct source as [[catalogue identifier]|]; [| done].
    specialize (Hsource _ eq_refl). unfold source_empty in Hsource. cbn in *. by destruct (bool_decide _), (bool_decide _).
  - destruct (in_technique about) as [[tactic tid tname]|]; [| done]. specialize (Htechnique _ eq_refl). unfold technique_empty in Htechnique.
    cbn in *. by destruct (bool_decide _), (bool_decide _), (bool_decide _).
Qed.

(** ** What goes on over the tables *)

(** An incident as [RaiseIncident] makes one. *)
Record freshly_told (one : Tracked IncidentAbout) : Prop := {
  ft_named : tr_id one ≠ "";
  ft_state : tr_state one = Wire Open;
  ft_revision : tr_revision one = 1;
  ft_changed : tr_changed_by one = Platform ∧ tr_changed_at one = in_raised_at (tr_about one);
}.

Lemma RaiseIncident_fresh {M} {EV : Events M} made at_ one : @RaiseIncident M EV made at_ = Ok one → freshly_told one.
Proof.
  unfold RaiseIncident. case_bool_decide; [done |]. case_bool_decide; [done |]. destruct (d_correlation made) as [c|]; [| done].
  destruct (head (cn_stages c)), (last (cn_stages c)); try done. intros [= <-]. by split.
Qed.

(** The stories of a batch that were opened. *)
Definition opened_of (stories : list (Tracked IncidentAbout)) (outcomes : list IncidentOutcome) : list (Tracked IncidentAbout) :=
  (filter (λ '(_, outcome), outcome = IncidentRaised) (zip stories outcomes)).*1.

Inductive incidents_reach : IncidentTables → list (Tracked IncidentAbout) → Prop :=
| incidents_start : incidents_reach (mkIncidentTables ∅ ∅) []
| incidents_opened t log stories t' answer :
    incidents_reach t log → Forall freshly_told stories → incidents_Open stories t = (t', answer) →
    incidents_reach t' (log ++ match answer with Ok outcomes => opened_of stories outcomes | Err _ => [] end)
| incidents_moved t log id tenants asked t' answer :
    incidents_reach t log → incidents_Move id tenants asked t = (t', answer) → incidents_reach t' log.

Definition incident_standing (row : IncidentRow) : place_held :=
  mkStanding (ir_revision row) (ir_state row) (ir_changed_by row) (ir_changed_at row).

Record incidents_sound (t : IncidentTables) (log : list (Tracked IncidentAbout)) : Prop := {
  is_id id row : tb_incidents t !! id = Some row → ir_id row = id ∧ id ≠ "";
  is_keyed : keyed_trail (tb_incident_trail t);
  is_trail k : is_Some (tb_incident_trail t !! k) → is_Some (tb_incidents t !! k.1);
  is_life id row : tb_incidents t !! id = Some row → life (tb_incident_trail t) id (incident_standing row);
  is_story id row : tb_incidents t !! id = Some row →
    ∃ one, one ∈ log ∧ tr_id one = id ∧ tr_about (restoreIncident row) = tr_about (restoreIncident (storedIncident one));
  is_opened one : one ∈ log → is_Some (tb_incidents t !! tr_id one);
  is_once : NoDup (tr_id <$> log);
}.

Lemma open_one_sound t log one t' outcome :
  incidents_sound t log → freshly_told one → open_one one t = Ok (t', outcome) →
  incidents_sound t' (log ++ match outcome with IncidentRaised => [one] | IncidentRepeated => [] end).
Proof.
  intros Hs Hone. unfold open_one. destruct (_ =? 0); [done |]. case_bool_decide as Hheld.
  { intros [= <- <-]. by rewrite app_nil_r. }
  apply eq_None_not_Some in Hheld. intros [= <- <-].
  assert (∀ r, tb_incident_trail t !! (tr_id one, r) = None) as Hfree.
  { intros r. apply eq_None_not_Some. intros Hsome%(is_trail t log Hs). cbn in Hsome. by apply eq_None_not_Some in Hheld. }
  assert (insert_line (RaisedIncident one) (tb_incident_trail t)
    = <[(tr_id one, 1) := trail_columns (RaisedIncident one)]> (tb_incident_trail t)) as ->.
  { unfold insert_line. cbv zeta. cbn [trail_columns RaisedIncident tw_id tw_revision tn_id tn_revision]. rewrite (ft_revision one Hone).
    change (int64 1) with 1. by rewrite insert_once_new. }
  destruct (ft_changed one Hone) as [Hby Hat]. split; cbn [tb_incidents tb_incident_trail].
  - intros id row. rewrite lookup_insert_Some. intros [[<- <-] | [_ H]]; [split; [done | apply (ft_named one Hone)] | by apply (is_id t log Hs)].
  - apply keyed_insert; [apply (is_keyed t log Hs) |]. cbn. by rewrite (ft_revision one Hone).
  - intros k. rewrite lookup_insert_is_Some'. intros [<- | H]; apply lookup_insert_is_Some'; [by left | right; by apply (is_trail t log Hs)].
  - intros id row. rewrite lookup_insert_Some. intros [[<- <-] | [Hne H]].
    + assert (incident_standing (storedIncident one) = mkStanding 1 Open (tw_actor (trail_columns (RaisedIncident one)))
        (tw_at (trail_columns (RaisedIncident one)))) as ->.
      { unfold incident_standing. cbn. by rewrite (ft_state one Hone), (ft_revision one Hone), Hby, Hat. }
      apply life_raised; [done | done | cbn; by rewrite (ft_state one Hone) | done].
    + eapply life_other; [by apply (is_life t log Hs) |]. intros r. apply lookup_insert_ne. congruence.
  - intros id row. rewrite lookup_insert_Some. intros [[<- <-] | [_ H]].
    + exists one. split_and!; [| done | done]. apply elem_of_app. right. by left.
    + destruct (is_story t log Hs id row H) as (x & Hx & ?). exists x. split; [| done]. apply elem_of_app. by left.
  - intros x [Hx | ->%list_elem_of_singleton]%elem_of_app; apply lookup_insert_is_Some'; [right; by apply (is_opened t log Hs) | by left].
  - rewrite fmap_app. apply NoDup_app. split_and!; [apply (is_once t log Hs) | | by apply NoDup_singleton].
    intros id Hid Hid'. apply list_elem_of_singleton in Hid' as ->. apply list_elem_of_fmap in Hid as (x & He & Hx).
    apply (is_opened t log Hs) in Hx. rewrite <- He, Hheld in Hx. by destruct Hx.
Qed.

Lemma open_each_sound stories : ∀ t log t' outcomes,
  incidents_sound t log → Forall freshly_told stories → open_each stories t = Ok (t', outcomes) →
  incidents_sound t' (log ++ opened_of stories outcomes).
Proof.
  induction stories as [|one stories IH]; intros t log t' outcomes Hs Hall Hopen; cbn in Hopen.
  { injection Hopen as <- <-. by rewrite app_nil_r. }
  apply Forall_cons in Hall as [Hone Hall]. destruct (open_one one t) as [[t1 outcome]|] eqn:Hfirst; [| done].
  destruct (open_each stories t1) as [[t2 rest]|] eqn:Hrest; [| done]. injection Hopen as <- <-.
  pose proof (open_one_sound t log one t1 outcome Hs Hone Hfirst) as Hs1. pose proof (IH t1 _ t2 rest Hs1 Hall Hrest) as Hs2.
  rewrite <- app_assoc in Hs2. by destruct outcome.
Qed.

Lemma incident_move_sound t log id tenants asked t' answer :
  incidents_sound t log → incidents_Move id tenants asked t = (t', answer) → incidents_sound t' log.
Proof.
  intros Hs. unfold incidents_Move. destruct (tb_incidents t !! id) as [row|] eqn:Hrow; [| by intros [= <- _]].
  destruct (negb _); [by intros [= <- _] |].
  destruct (incident_Apply (restoreIncident row) asked) as [[moved line]|] eqn:Happly; [| by intros [= <- _]].
  destruct (Z.leb_spec (int64 (tr_revision moved)) 0) as [|Hpos]; [by intros [= <- _] |]. intros [= <- _].
  destruct (is_id t log Hs id row Hrow) as [Hid Hne].
  destruct (life_moved (restoreIncident row) moved (tb_incident_trail t) id (incident_standing row) asked line (is_life t log Hs id row Hrow)
    Hid eq_refl eq_refl Happly Hpos) as (Hmid & -> & Hkey & Hlife).
  rewrite Hmid. split; cbn [tb_incidents tb_incident_trail].
  - intros id' row'. rewrite lookup_insert_Some. intros [[<- <-] | [_ H]]; [done | by apply (is_id t log Hs)].
  - apply keyed_insert; [apply (is_keyed t log Hs) | done].
  - intros k. rewrite lookup_insert_is_Some'. intros [<- | H]; apply lookup_insert_is_Some'; [by left | right; by apply (is_trail t log Hs)].
  - intros id' row'. rewrite lookup_insert_Some. intros [[<- <-] | [Hother H]]; [done |].
    eapply life_other; [by apply (is_life t log Hs) |]. intros r. apply lookup_insert_ne. congruence.
  - intros id' row'. rewrite lookup_insert_Some. intros [[<- <-] | [_ H]];
      [apply (is_story t log Hs id row Hrow) | by apply (is_story t log Hs)].
  - intros one Hone. apply lookup_insert_is_Some'. right. by apply (is_opened t log Hs).
  - apply (is_once t log Hs).
Qed.

Lemma incidents_reach_sound t log : incidents_reach t log → incidents_sound t log.
Proof.
  induction 1 as [| t log stories t' answer _ Hs Hall Hopen | t log id tenants asked t' answer _ Hs Hmove].
  - split; cbn; try (intros *; rewrite ?lookup_empty; done); [| constructor]. by intros one ?%elem_of_nil.
  - unfold incidents_Open in Hopen. destruct (open_each stories t) as [[t1 outcomes]|] eqn:Heach; injection Hopen as <- <-.
    + by eapply open_each_sound.
    + by rewrite app_nil_r.
  - by eapply incident_move_sound.
Qed.

(** C15. An incident keeps the story it was opened with: whatever is opened again and however
    it is moved, an incident reads back the one story opened under its name, with its
    instants, window and spread of clocks at the widths their columns have and nothing else
    changed; and its history is its whole life, one signed line for every revision from the
    opening to the state it reads back in. *)
Theorem an_incident_keeps_its_story `{!ClassLaws} t log id tenants a lines :
  incidents_reach t log → Forall (λ one, tellable (tr_about one)) log →
  incidents_Incident t id tenants = Ok a → incidents_History t id tenants = Ok lines →
  (∃ one, one ∈ log ∧ tr_id one = id ∧ tr_about a = kept_story (tr_about one)
     ∧ ∀ other, other ∈ log → tr_id other = id → other = one)
  ∧ chained STATE_UNSPECIFIED 1 lines ∧ len lines = tr_revision a ∧ tr_state a = last_to STATE_UNSPECIFIED lines
  ∧ Forall (λ line, tn_actor line ≠ "") lines.
Proof.
  intros Hs%incidents_reach_sound Htell Hread Hhistory. unfold incidents_History in Hhistory. rewrite Hread in Hhistory.
  injection Hhistory as <-. unfold incidents_Incident in Hread. destruct (tb_incidents t !! id) as [row|] eqn:Hrow; [| done].
  case_bool_decide; [| done]. injection Hread as <-. split.
  - destruct (is_story t log Hs id row Hrow) as (one & Hone & Hid & ->). exists one. split_and!; [done | done | |].
    + apply story_kept. by rewrite Forall_forall in Htell; apply Htell.
    + intros other Hother Hother'. destruct (list_elem_of_lookup_1 _ _ Hone) as [i Hi]. destruct (list_elem_of_lookup_1 _ _ Hother) as [j Hj].
      pose proof (is_once t log Hs) as Hnd. assert (i = j) as ->; [| congruence].
      eapply (NoDup_lookup (tr_id <$> log)); [done | by rewrite list_lookup_fmap, Hi | rewrite list_lookup_fmap, Hj; cbn; congruence].
  - pose proof (is_life t log Hs id row Hrow) as Hlife. pose proof (lf_revision _ _ _ Hlife) as Hrange. cbn [incident_standing sg_revision] in Hrange.
    change (2 ^ 63) with 9223372036854775808 in Hrange.
    assert (tr_revision (restoreIncident row) = ir_revision row) as -> by (cbn; unfold wrap_uint; apply Z.mod_small; lia).
    destruct (history_of_life (tb_incident_trail t) id (incident_standing row) (is_keyed t log Hs) Hlife) as (? & ? & ? & ? & _). done.
Qed.
End store.
