(* ===== verification/AgentStore.v ===== *)
(** * The registry of agents: what the control plane writes of them

    postgres/agents.go and certificates.go. Each transaction is one step of three tables:
    the registry, its trail and the certificates signed; the unique indexes of the schema
    refuse what they refuse. An agent that names nothing of its platform or holds no
    identity is read by the getters of the contract as one that says nothing of either. *)

From Stdlib Require Import ZArith Lia Ascii.
From stdpp Require Import base tactics option gmap strings pretty sorting numbers list.
From S2P Require Import Prelude Text Scan Hex Bytes Session Event Canonical Assessment Agent Listing Triage Trail.

Record AgentRow := mkAgentRow {
  gr_id : string; gr_schema : Z; gr_tenant : string; gr_state : string;
  gr_os : string; gr_architecture : string; gr_hostname : string; gr_version : string;
  gr_subject : string; gr_serial : string; gr_fingerprint : string; gr_issued : option instant; gr_expires : option instant;
  gr_registered : instant; gr_changed_by : string; gr_changed_at : instant; gr_revision : Z;
  gr_published : Z;
}.

Record AgentLine := mkAgentLine {
  gl_id : string; gl_revision : Z; gl_from : string; gl_to : string; gl_actor : string; gl_at : instant; gl_note : string;
}.

Record CertificateRow := mkCertificateRow {
  cr_fingerprint : string; cr_agent : string; cr_serial : string; cr_subject : string; cr_authority : string;
  cr_issued_by : string; cr_issued : instant; cr_expires : instant; cr_superseded : option instant;
  cr_presented : string; cr_request : string;
}.

Record AgentTables := mkAgentTables {
  tb_agents : gmap string AgentRow;
  tb_agent_trail : gmap (string * Z) AgentLine;
  tb_certificates : gmap string CertificateRow;
}.

Inductive RegistryError :=
| RegistryRefused (why : AgentError) | ErrRegistered | ErrAgentUnknown | ErrAgentCursor | RegistryFails.
#[global] Instance RegistryError_eq_dec : EqDecision RegistryError.
Proof. solve_decision. Defined.

Definition agent_column (value : AgentWire) : string :=
  match agent_FromWire value with Some named => named | None => "" end.

Definition agent_states_asked (asked : list AgentWire) : list string := filter (λ written, written ≠ "") (agent_column <$> asked).

Section registry.
Context {postgres : Postgres}.

(** ** Rows *)

Definition identity_column (part : CertIdentity → string) (held : option CertIdentity) : string :=
  match held with Some i => part i | None => "" end.
Definition identity_instant (part : CertIdentity → option instant) (held : option CertIdentity) : option instant :=
  match held with Some i => timestamptz <$> part i | None => None end.

Definition storedAgent (one : AgentRecord) : AgentRow :=
  mkAgentRow (a_id one) (int32 (a_schema one)) (a_tenant one) (agent_column (a_state one))
    (pf_os (a_platform one)) (pf_architecture (a_platform one)) (pf_hostname (a_platform one)) (a_version one)
    (identity_column id_subject (a_identity one)) (identity_column id_serial (a_identity one))
    (identity_column id_fingerprint (a_identity one))
    (identity_instant id_issued (a_identity one)) (identity_instant id_expires (a_identity one))
    (timestamptz (a_registered one)) (a_changed_by one) (timestamptz (a_changed_at one)) (int64 (a_revision one)) 0.

Definition agentTrail (line : AgentTransition) : AgentLine :=
  mkAgentLine (at_id line) (int64 (at_revision line)) (agent_column (at_from line)) (agent_column (at_to line))
    (at_actor line) (timestamptz (at_at line)) (at_note line).

Definition restored_identity (row : AgentRow) : option CertIdentity :=
  if negb (bool_decide (gr_subject row = "")) || negb (bool_decide (gr_serial row = "")) || negb (bool_decide (gr_fingerprint row = ""))
  then Some (mkCertIdentity (gr_subject row) (gr_serial row) (gr_fingerprint row) (gr_issued row) (gr_expires row))
  else None.

Definition restoreAgent (row : AgentRow) : AgentRecord :=
  mkAgentRecord (gr_id row) (uint32 (gr_schema row)) (gr_tenant row) (agent_Wire (gr_state row))
    (mkAgentPlatform (gr_os row) (gr_architecture row) (gr_hostname row)) (gr_version row)
    (gr_registered row) (gr_changed_by row) (gr_changed_at row) (uint64 (gr_revision row)) (restored_identity row).

Definition restoreAdmission (row : AgentRow) : AdmissionRecord :=
  mkAdmission (gr_id row) (gr_tenant row) (agent_Wire (gr_state row)) (uint64 (gr_revision row)) (gr_changed_at row).

Definition restoreAgentTransition (row : AgentLine) : AgentTransition :=
  mkAgentTransition (gl_id row) (uint64 (gl_revision row)) (agent_Wire (gl_from row)) (agent_Wire (gl_to row))
    (gl_actor row) (gl_at row) (gl_note row).

Definition insert_agent_line (line : AgentTransition) (table : gmap (string * Z) AgentLine) : gmap (string * Z) AgentLine :=
  let written := agentTrail line in insert_once (gl_id written, gl_revision written) written table.

(** ** Registering *)

Definition agents_Register (asked : Registration) (actor : string) (at_ : instant) (t : AgentTables)
    : AgentTables * result RegistryError AgentRecord :=
  match Register asked actor at_ with
  | Err e => (t, Err (RegistryRefused e))
  | Ok (registered, line) =>
      if bool_decide (is_Some (tb_agents t !! a_id registered)) then (t, Err ErrRegistered)
      else (mkAgentTables (<[a_id registered := storedAgent registered]> (tb_agents t))
              (insert_agent_line line (tb_agent_trail t)) (tb_certificates t), Ok registered)
  end.

(** ** What the admission log has not been told *)

Definition unannounced (t : AgentTables) : list AgentRow :=
  filter (λ row, gr_published row < gr_revision row) (map_to_list (tb_agents t)).*2.

(** ORDER BY changed_at: rows changed at one instant stand in the order they are found. *)
Definition agents_Outstanding (limit : Z) (t : AgentTables) : list AdmissionRecord :=
  restoreAdmission <$> take (Z.to_nat (page_limit limit)) (ordered_rows gr_changed_at Z.ltb (heap_order (unannounced t))).

Definition with_published (revision : Z) (row : AgentRow) : AgentRow :=
  mkAgentRow (gr_id row) (gr_schema row) (gr_tenant row) (gr_state row)
    (gr_os row) (gr_architecture row) (gr_hostname row) (gr_version row)
    (gr_subject row) (gr_serial row) (gr_fingerprint row) (gr_issued row) (gr_expires row)
    (gr_registered row) (gr_changed_by row) (gr_changed_at row) (gr_revision row) revision.

Definition agents_Announced (agentID : string) (revision : Z) (t : AgentTables) : AgentTables :=
  match tb_agents t !! agentID with
  | Some row =>
      if gr_published row <? int64 revision
      then mkAgentTables (<[agentID := with_published (int64 revision) row]> (tb_agents t)) (tb_agent_trail t) (tb_certificates t)
      else t
  | None => t
  end.

(** ** Reading *)

Definition agents_Agent (t : AgentTables) (id : string) (tenants : list string) : result RegistryError AgentRecord :=
  match tb_agents t !! id with
  | Some row => if bool_decide (gr_tenant row ∈ tenants) then Ok (restoreAgent row) else Err ErrAgentUnknown
  | None => Err ErrAgentUnknown
  end.

Definition agents_History (t : AgentTables) (id : string) (tenants : list string) : result RegistryError (list AgentTransition) :=
  match agents_Agent t id tenants with
  | Err e => Err e
  | Ok _ => Ok (restoreAgentTransition <$> ordered_rows gl_revision Z.ltb
                  (heap_order (filter (λ line, gl_id line = id) (map_to_list (tb_agent_trail t)).*2)))
  end.

Record AgentQuery := mkAgentQuery {
  gq_start : option instant; gq_end : option instant; gq_states : list AgentWire; gq_limit : Z; gq_cursor : string;
}.

Definition agent_seen (q : AgentQuery) (tenants : list string) (row : AgentRow) : bool :=
  bool_decide (gr_tenant row ∈ tenants)
  && match gq_start q with Some start => timestamptz start <=? gr_registered row | None => true end
  && match gq_end q with Some end_ => gr_registered row <? timestamptz end_ | None => true end
  && match agent_states_asked (gq_states q) with [] => true | named => bool_decide (gr_state row ∈ named) end.

Definition encodeAgentCursor (id : string) : string := base64_encode id.

Definition decodeAgentCursor (token : string) : result RegistryError string :=
  match base64_decode token with
  | None => Err ErrAgentCursor
  | Some payload => if bool_decide (payload = "") then Err ErrAgentCursor else Ok payload
  end.

Definition agent_rows (t : AgentTables) : list AgentRow := (map_to_list (tb_agents t)).*2.

Definition agent_pages (t : AgentTables) (q : AgentQuery) (tenants : list string) (cursor : string)
    : result RegistryError (list AgentRow * string) :=
  page gr_id collate decodeAgentCursor (λ row, encodeAgentCursor (gr_id row)) (agent_rows t) (agent_seen q tenants) cursor (gq_limit q).

Definition agents_Page (t : AgentTables) (q : AgentQuery) (tenants : list string) : result RegistryError (list AgentRecord * string) :=
  match agent_pages t q tenants (gq_cursor q) with
  | Err e => Err e
  | Ok (found, next) => Ok (restoreAgent <$> found, next)
  end.

(** ** Certificates *)

Definition supersede (at_ : instant) (row : CertificateRow) : CertificateRow :=
  mkCertificateRow (cr_fingerprint row) (cr_agent row) (cr_serial row) (cr_subject row) (cr_authority row) (cr_issued_by row)
    (cr_issued row) (cr_expires row) (Some (timestamptz at_)) (cr_presented row) (cr_request row).

Definition current_certificate (id : string) (row : CertificateRow) : bool :=
  bool_decide (cr_agent row = id) && bool_decide (cr_superseded row = None).

Definition recordCertificate (one : CertificateRecord) (answered : Asked) (at_ : instant) (table : gmap string CertificateRow)
    : option (gmap string CertificateRow) :=
  let table := (λ row, if current_certificate (ce_agent one) row then supersede at_ row else row) <$> table in
  let column part := identity_column part (ce_identity one) in
  let bound part := timestamptz (default session_epoch (i ← ce_identity one; part i)) in
  if bool_decide (is_Some (table !! column id_fingerprint)) then None
  else Some (<[column id_fingerprint :=
                 mkCertificateRow (column id_fingerprint) (ce_agent one) (column id_serial) (column id_subject)
                   (ce_authority one) (ce_issued_by one) (bound id_issued) (bound id_expires) None
                   (asked_presented answered) (asked_request answered)]> table).

Definition certificates_of (t : AgentTables) (id : string) : list CertificateRow :=
  filter (λ row, cr_agent row = id) (map_to_list (tb_certificates t)).*2.

Definition boundAnswer (t : AgentTables) (id : string) : Asked :=
  match any_of (filter (λ row, current_certificate id row = true) (certificates_of t id)) with
  | Some row => mkAsked (cr_presented row) (cr_request row)
  | None => mkAsked "" ""
  end.

Definition restoreCertificate (row : CertificateRow) : CertificateRecord * option instant :=
  (mkCertificate (cr_agent row) (Some (mkCertIdentity (cr_subject row) (cr_serial row) (cr_fingerprint row)
      (Some (cr_issued row)) (Some (cr_expires row)))) (cr_authority row) (cr_issued_by row), cr_superseded row).

(** ORDER BY issued_at DESC. *)
Definition agents_Certificates (t : AgentTables) (id : string) (tenants : list string)
    : result RegistryError (list (CertificateRecord * option instant)) :=
  match agents_Agent t id tenants with
  | Err e => Err e
  | Ok _ => Ok (restoreCertificate <$> ordered_rows cr_issued (λ a b, b <? a) (heap_order (certificates_of t id)))
  end.

(** ** Moving *)

Definition moved_agent (moved : AgentRecord) (row : AgentRow) : AgentRow :=
  mkAgentRow (gr_id row) (gr_schema row) (gr_tenant row) (agent_column (a_state moved))
    (gr_os row) (gr_architecture row) (gr_hostname row) (gr_version row)
    (identity_column id_subject (a_identity moved)) (identity_column id_serial (a_identity moved))
    (identity_column id_fingerprint (a_identity moved))
    (identity_instant id_issued (a_identity moved)) (identity_instant id_expires (a_identity moved))
    (gr_registered row) (a_changed_by moved) (timestamptz (a_changed_at moved)) (int64 (a_revision moved)) (gr_published row).

(** agents_by_certificate: another agent holds that fingerprint. *)
Definition bound_elsewhere (t : AgentTables) (id fp : string) : bool :=
  negb (bool_decide (fp = ""))
  && existsb (λ row, negb (bool_decide (gr_id row = id)) && bool_decide (gr_fingerprint row = fp)) (agent_rows t).

Definition with_bound (bound : Asked) (m : AgentMove) : AgentMove :=
  mkAgentMove (am_to m) (am_identity m) (am_note m) (am_actor m) (am_at m) (am_authority m) (am_presented m) (am_request m)
    bound (am_renewal m) (am_expected m).

Definition registry_move (held : option AgentRow) (asked : AgentMove) (t : AgentTables) : AgentTables * result RegistryError AgentRecord :=
  match held with
  | None => (t, Err ErrAgentUnknown)
  | Some row =>
      let asked := if am_renewal asked then with_bound (boundAnswer t (gr_id row)) asked else asked in
      match agent_Apply (restoreAgent row) asked with
      | Err e => (t, Err (RegistryRefused e))
      | Ok (moved, line) =>
          if int64 (a_revision moved) <=? 0 then (t, Err RegistryFails)
          else if bound_elsewhere t (a_id moved) (identity_column id_fingerprint (a_identity moved))
          then (t, Err (RegistryRefused ErrMalformedIdentity))
          else
            let written certificates :=
              (mkAgentTables (<[a_id moved := moved_agent moved row]> (tb_agents t)) (insert_agent_line line (tb_agent_trail t))
                 certificates, Ok moved) in
            match Certificate moved asked with
            | None => written (tb_certificates t)
            | Some signed =>
                match recordCertificate signed (Answering asked) (am_at asked) (tb_certificates t) with
                | None => (t, Err (RegistryRefused ErrMalformedIdentity))
                | Some certificates => written certificates
                end
            end
      end
  end.

Definition agents_Move (id : string) (tenants : list string) (asked : AgentMove) (t : AgentTables) : AgentTables * result RegistryError AgentRecord :=
  registry_move (row ← tb_agents t !! id; if bool_decide (gr_tenant row ∈ tenants) then Some row else None) asked t.

Definition as_renewal (m : AgentMove) : AgentMove :=
  mkAgentMove (am_to m) (am_identity m) (am_note m) (am_actor m) (am_at m) (am_authority m) (am_presented m) (am_request m)
    (am_bound m) true (am_expected m).

Definition agents_Renew (id : string) (asked : AgentMove) (t : AgentTables) : AgentTables * result RegistryError AgentRecord :=
  registry_move (tb_agents t !! id) (as_renewal asked) t.

Definition no_agents : AgentTables := mkAgentTables ∅ ∅ ∅.

(** ** What a registry keeps *)

Record row_well (t : AgentTables) (id : string) (row : AgentRow) : Prop := {
  rw_id : gr_id row = id;
  rw_named : id ≠ "";
  rw_tenant : tenant (gr_tenant row) = Ok tt;
  rw_state : gr_state row ∈ agent_states;
  rw_revision : 1 ≤ gr_revision row < 2 ^ 63;
  rw_published : 0 ≤ gr_published row ≤ gr_revision row;
  rw_line : ∃ line, tb_agent_trail t !! (id, gr_revision row) = Some line ∧ gl_to line = gr_state row;
  rw_certificate : gr_fingerprint row ≠ "" →
    ∃ c, tb_certificates t !! gr_fingerprint row = Some c ∧ cr_agent c = id ∧ cr_superseded c = None
      ∧ cr_serial c = gr_serial row ∧ cr_subject c = gr_subject row;
}.

Record registry_well (t : AgentTables) : Prop := {
  rw_row id row : tb_agents t !! id = Some row → row_well t id row;
  rw_lines id r line : tb_agent_trail t !! (id, r) = Some line →
    ∃ row, tb_agents t !! id = Some row ∧ 1 ≤ r ≤ gr_revision row ∧ gl_to line ∈ agent_states;
  rw_current fp c : tb_certificates t !! fp = Some c →
    cr_fingerprint c = fp ∧ fp ≠ "" ∧ ∃ row, tb_agents t !! cr_agent c = Some row ∧ (cr_superseded c = None → gr_fingerprint row = fp);
}.

Lemma agent_column_Wire s : s ∈ agent_states → agent_column (agent_Wire s) = s.
Proof. intros Hs. unfold agent_column. by rewrite (proj2 (agent_FromWire_Wire s (agent_Wire s)) (conj Hs eq_refl)). Qed.

Lemma Wire_agent_column w s : agent_FromWire w = Some s → agent_column w = s ∧ s ∈ agent_states ∧ agent_Wire s = w.
Proof. intros Hw. unfold agent_column. rewrite Hw. by apply agent_FromWire_Wire in Hw as [? ?]. Qed.

Lemma columns_restored row :
  identity_column id_fingerprint (restored_identity row) = gr_fingerprint row
  ∧ identity_column id_serial (restored_identity row) = gr_serial row
  ∧ identity_column id_subject (restored_identity row) = gr_subject row.
Proof. unfold restored_identity. repeat case_bool_decide; cbn; done. Qed.

Lemma agent_Apply_line current move moved line :
  agent_Apply current move = Ok (moved, line) →
  line = mkAgentTransition (a_id moved) (a_revision moved) (a_state current) (a_state moved) (am_actor move) (am_at move) (am_note move).
Proof. unfold agent_Apply. repeat case_match; try done; intros [= <- <-]; done. Qed.

Lemma Bindable_fingerprint id held at_ : Bindable id held at_ = Ok tt → id_fingerprint held ≠ "".
Proof.
  unfold Bindable. destruct (negb _); [done |]. destruct (_ <? _); [done |]. destruct (serial _); [| done].
  intros H He. rewrite He in H. by vm_compute in H.
Qed.

(** ** What a move writes *)

Definition moving (t : AgentTables) (row : AgentRow) (asked : AgentMove) : AgentMove :=
  if am_renewal asked then with_bound (boundAnswer t (gr_id row)) asked else asked.

Lemma registry_move_ok held asked t t' moved :
  registry_move held asked t = (t', Ok moved) →
  ∃ row line certificates, held = Some row
    ∧ agent_Apply (restoreAgent row) (moving t row asked) = Ok (moved, line) ∧ 0 < int64 (a_revision moved)
    ∧ bound_elsewhere t (a_id moved) (identity_column id_fingerprint (a_identity moved)) = false
    ∧ match Certificate moved (moving t row asked) with
      | None => certificates = tb_certificates t
      | Some signed => recordCertificate signed (Answering (moving t row asked)) (am_at asked) (tb_certificates t) = Some certificates
      end
    ∧ t' = mkAgentTables (<[a_id moved := moved_agent moved row]> (tb_agents t)) (insert_agent_line line (tb_agent_trail t)) certificates.
Proof.
  unfold registry_move. destruct held as [row|]; [| done]. fold (moving t row asked).
  assert (am_at (moving t row asked) = am_at asked) as Hat by (unfold moving; by destruct (am_renewal asked)). rewrite Hat.
  destruct (agent_Apply _ _) as [[m line]|] eqn:Happly; [| done]. destruct (Z.leb_spec (int64 (a_revision m)) 0); [done |].
  destruct (bound_elsewhere _ _ _) eqn:Hb; [done |]. destruct (Certificate m _) as [signed|] eqn:Hc.
  - destruct (recordCertificate _ _ _ _) as [certificates|] eqn:Hr; [| done]. intros [= <- <-].
    exists row, line, certificates. rewrite Hc. done.
  - intros [= <- <-]. exists row, line, (tb_certificates t). rewrite Hc. done.
Qed.

(** What an accepted move leaves of the row it was made on. *)
Lemma moved_next_revision t id row move moved line :
  row_well t id row → agent_Apply (restoreAgent row) move = Ok (moved, line) → 0 < int64 (a_revision moved) →
  a_id moved = id ∧ a_tenant moved = gr_tenant row ∧ a_revision moved = gr_revision row + 1
  ∧ int64 (a_revision moved) = gr_revision row + 1 ∧ gr_revision row + 1 < 2 ^ 63
  ∧ agent_column (a_state moved) ∈ agent_states ∧ agent_Wire (agent_column (a_state moved)) = a_state moved
  ∧ agentTrail line = mkAgentLine id (gr_revision row + 1) (gr_state row) (agent_column (a_state moved)) (am_actor move)
      (timestamptz (am_at move)) (am_note move).
Proof.
  intros Hrow Happly Hpos. pose proof (agent_Apply_line _ _ _ _ Happly) as Hline.
  apply agent_Apply_moved in Happly as [[Hid Htenant] Hrev _ (from & to & _ & Hto & _) _ _].
  destruct (rw_revision _ _ _ Hrow) as [Hlo Hhi]. change (2 ^ 63) with 9223372036854775808 in *.
  cbn [restoreAgent a_id a_tenant a_revision] in *. rewrite (rw_id _ _ _ Hrow) in Hid.
  assert (uint64 (gr_revision row) = gr_revision row) as Hu by (unfold wrap_uint; apply Z.mod_small; lia). rewrite Hu in Hrev.
  assert (a_revision moved = gr_revision row + 1) as Hnew by (rewrite Hrev; unfold wrap_uint; apply Z.mod_small; lia).
  assert (gr_revision row + 1 < 9223372036854775808) as Hfits.
  { destruct (decide (gr_revision row + 1 < 9223372036854775808)) as [|Hbig]; [done | exfalso].
    rewrite Hnew in Hpos. replace (gr_revision row + 1) with 9223372036854775808 in Hpos by lia. by vm_compute in Hpos. }
  assert (int64 (a_revision moved) = gr_revision row + 1) as Hint
    by (rewrite Hnew; apply int64_id; change (2 ^ 63) with 9223372036854775808; lia).
  apply Wire_agent_column in Hto as (Hcol & Hin & Hwire). rewrite Hcol in *. split_and!; try done.
  rewrite Hline. unfold agentTrail. cbn. by rewrite Hid, Hint, Hcol, agent_column_Wire by apply (rw_state _ _ _ Hrow).
Qed.

(** ** Certificates a move records *)

Lemma recordCertificate_some one answered at_ table table' :
  recordCertificate one answered at_ table = Some table' →
  let fp := identity_column id_fingerprint (ce_identity one) in
  table !! fp = None ∧ ∃ new, table' !! fp = Some new ∧ cr_fingerprint new = fp ∧ cr_agent new = ce_agent one ∧ cr_superseded new = None
    ∧ cr_serial new = identity_column id_serial (ce_identity one) ∧ cr_subject new = identity_column id_subject (ce_identity one)
    ∧ cr_presented new = asked_presented answered ∧ cr_request new = asked_request answered
    ∧ ∀ other, other ≠ fp → table' !! other = (λ row, if current_certificate (ce_agent one) row then supersede at_ row else row) <$> table !! other.
Proof.
  unfold recordCertificate. cbv zeta. case_bool_decide as Hheld; [done |]. intros [= <-].
  apply eq_None_not_Some in Hheld. rewrite lookup_fmap in Hheld. split.
  { by destruct (table !! _). }
  eexists. rewrite lookup_insert_eq. split; [done |]. cbn. split_and!; try done.
  intros other Hne. by rewrite lookup_insert_ne, lookup_fmap by done.
Qed.

Lemma superseded_current id at_ row :
  let row' := if current_certificate id row then supersede at_ row else row in
  cr_agent row' = cr_agent row ∧ cr_fingerprint row' = cr_fingerprint row ∧ cr_serial row' = cr_serial row ∧ cr_subject row' = cr_subject row
  ∧ (cr_superseded row' = None ↔ cr_superseded row = None ∧ cr_agent row ≠ id).
Proof.
  unfold current_certificate. cbv zeta. case_bool_decide as Ha; case_bool_decide as Hs; cbn; split_and!; try done; naive_solver.
Qed.

(** ** Every operation keeps the registry *)

Lemma registry_well_start : registry_well no_agents.
Proof. split; cbn; intros *; by rewrite lookup_empty. Qed.

Lemma Register_ok asked actor at_ a line :
  Register asked actor at_ = Ok (a, line) →
  a_id a ≠ "" ∧ tenant (a_tenant a) = Ok tt ∧ a_state a = agent_Wire Pending ∧ a_revision a = 1 ∧ a_identity a = None
  ∧ line = mkAgentTransition (a_id a) 1 AGENT_UNSPECIFIED (agent_Wire Pending) actor at_ (rg_note asked).
Proof.
  unfold Register. case_bool_decide; [done |]. destruct (AgentIDValid (rg_agent asked)) eqn:Hid; [| done]. cbn [negb].
  destruct (tenant (rg_tenant asked)) as [[]|] eqn:Ht; [| done]. cbn.
  destruct (within_length (rg_version asked) _); [| done]. destruct (within_length (rg_note asked) _); [| done].
  destruct (platform _); [| done]. cbn. intros [= <- <-]. cbn. split_and!; try done.
  intros He. rewrite He in Hid. by vm_compute in Hid.
Qed.

Lemma register_well asked actor at_ t t' a :
  registry_well t → agents_Register asked actor at_ t = (t', Ok a) →
  registry_well t' ∧ tb_agents t !! a_id a = None ∧ tb_certificates t' = tb_certificates t
  ∧ tb_agents t' = <[a_id a := storedAgent a]> (tb_agents t) ∧ tb_agent_trail t ⊆ tb_agent_trail t'
  ∧ (∃ line, tb_agent_trail t' !! (a_id a, 1) = Some line ∧ gl_to line = Pending) ∧ a_revision a = 1
  ∧ a_state a = agent_Wire Pending ∧ a_tenant a = gr_tenant (storedAgent a).
Proof.
  intros Hwell. unfold agents_Register. destruct (Register asked actor at_) as [[a' line]|] eqn:Hreg; [| done].
  case_bool_decide as Hheld; [done |]. intros [= <- <-]. apply eq_None_not_Some in Hheld.
  apply Register_ok in Hreg as (Hid & Hten & Hst & Hrev & Hident & ->).
  assert (tb_agent_trail t !! (a_id a', 1) = None) as Hnone.
  { destruct (tb_agent_trail t !! (a_id a', 1)) eqn:Hl; [| done]. apply (rw_lines t Hwell) in Hl as (row & Hrow & _). congruence. }
  set (written := agentTrail (mkAgentTransition (a_id a') 1 AGENT_UNSPECIFIED (agent_Wire Pending) actor at_ (rg_note asked))).
  assert (insert_agent_line (mkAgentTransition (a_id a') 1 AGENT_UNSPECIFIED (agent_Wire Pending) actor at_ (rg_note asked)) (tb_agent_trail t)
            = <[(a_id a', 1) := written]> (tb_agent_trail t)) as ->.
  { unfold insert_agent_line. change (gl_id written, gl_revision written) with (a_id a', 1). by apply insert_once_new. }
  cbn [tb_agents tb_agent_trail tb_certificates].
  split_and!; [| done | done | done | by apply insert_subseteq | by exists written; rewrite lookup_insert_eq | done | done | done].
  split; cbn [tb_agents tb_agent_trail tb_certificates].
  - intros id row. rewrite lookup_insert_Some. intros [[<- <-] | [Hne Hrow]].
    + assert (int64 1 = 1) as H1 by done. split; cbn; rewrite ?Hst, ?Hrev, ?Hident, ?H1; cbn; try done; [by left |].
      exists written. by rewrite lookup_insert_eq.
    + destruct (rw_row t Hwell id row Hrow) as [? ? ? ? ? ? (l & Hl & Hto) Hc]. split; try done.
      exists l. cbn [tb_agent_trail]. by rewrite lookup_insert_ne by congruence.
  - intros id r l. rewrite lookup_insert_Some. intros [[[= <- <-] <-] | [Hne Hl]].
    + exists (storedAgent a'). rewrite lookup_insert_eq. cbn. rewrite Hrev. split_and!; [done | done | done | by left].
    + apply (rw_lines t Hwell) in Hl as (row & Hrow & ?). exists row. split; [| done].
      rewrite lookup_insert_ne; [done | congruence].
  - intros fp c Hc. destruct (rw_current t Hwell fp c Hc) as (? & ? & row & Hrow & Hcur). split_and!; [done | done |].
    exists row. split; [| done]. rewrite lookup_insert_ne; [done | congruence].
Qed.

Lemma announced_row id revision t :
  registry_well t → (∀ row, tb_agents t !! id = Some row → 1 ≤ revision ≤ gr_revision row) →
  registry_well (agents_Announced id revision t).
Proof.
  intros Hwell Hrev. unfold agents_Announced. destruct (tb_agents t !! id) as [held|] eqn:Hheld; [| done].
  specialize (Hrev held eq_refl). pose proof (rw_row t Hwell id held Hheld) as Hrow.
  pose proof (rw_revision _ _ _ Hrow) as Hr. change (2 ^ 63) with 9223372036854775808 in *.
  assert (int64 revision = revision) as -> by (apply int64_id; change (2 ^ 63) with 9223372036854775808; lia).
  destruct (Z.ltb_spec (gr_published held) revision); [| done]. destruct Hwell as [Hrows Hlines Hcur].
  split; cbn [tb_agents tb_agent_trail tb_certificates].
  - intros id' row'. rewrite lookup_insert_Some. intros [[<- <-] | [_ Hrow']].
    + destruct Hrow as [? ? ? ? ? ? ? ?]. split; cbn; try done. lia.
    + destruct (Hrows id' row' Hrow') as [? ? ? ? ? ? ? ?]. by split.
  - intros id' r line Hl. destruct (Hlines id' r line Hl) as (row' & Hrow' & Hle & Hto).
    destruct (decide (id = id')) as [<- | Hne].
    + exists (with_published revision held). rewrite lookup_insert_eq. assert (row' = held) as -> by congruence. done.
    + exists row'. by rewrite lookup_insert_ne.
  - intros fp c Hc. destruct (Hcur fp c Hc) as (? & ? & row' & Hrow' & ?). split_and!; [done | done |].
    destruct (decide (id = cr_agent c)) as [He | Hne]; [rewrite <- He in * |].
    + exists (with_published revision held). rewrite lookup_insert_eq. assert (row' = held) as -> by congruence. done.
    + exists row'. by rewrite lookup_insert_ne.
Qed.

(** The certificates of a registry whose agent [id] moved. *)
Lemma certificates_moved t id row asked moved certificates :
  registry_well t → tb_agents t !! id = Some row → a_id moved = id →
  agent_moved (restoreAgent row) asked moved →
  match Certificate moved asked with
  | None => certificates = tb_certificates t
  | Some signed => recordCertificate signed (Answering asked) (am_at asked) (tb_certificates t) = Some certificates
  end →
  let fp := identity_column id_fingerprint (a_identity moved) in
  (fp ≠ "" → ∃ c, certificates !! fp = Some c ∧ cr_agent c = id ∧ cr_superseded c = None
     ∧ cr_serial c = identity_column id_serial (a_identity moved) ∧ cr_subject c = identity_column id_subject (a_identity moved))
  ∧ (∀ id' row', id' ≠ id → tb_agents t !! id' = Some row' → gr_fingerprint row' ≠ "" →
       ∃ c, certificates !! gr_fingerprint row' = Some c ∧ cr_agent c = id' ∧ cr_superseded c = None
         ∧ cr_serial c = gr_serial row' ∧ cr_subject c = gr_subject row')
  ∧ ∀ fp' c, certificates !! fp' = Some c →
      cr_fingerprint c = fp' ∧ fp' ≠ "" ∧ is_Some (tb_agents t !! cr_agent c)
      ∧ (cr_superseded c = None → if decide (cr_agent c = id) then fp' = fp else ∃ row', tb_agents t !! cr_agent c = Some row' ∧ gr_fingerprint row' = fp').
Proof.
  intros Hwell Hrow Hid Hmoved Hrec fp. unfold Certificate in Hrec. destruct (am_identity asked) as [held|] eqn:Hident.
  - destruct (mo_identity _ _ _ Hmoved held Hident) as (Hnew & Hbind & _). apply Bindable_fingerprint in Hbind as Hfp.
    apply recordCertificate_some in Hrec. cbv zeta in Hrec. cbn [ce_identity ce_agent] in Hrec. fold fp in Hrec. rewrite Hid in Hrec.
    destruct Hrec as (Hnone & new & Hnewc & Hkey & Hagent & Hsup & Hser & Hsub & _ & _ & Hothers).
    assert (fp ≠ "") as Hne by (unfold fp; by rewrite Hnew). split_and!.
    + intros _. by exists new.
    + intros id' row' Hid' Hrow' Hfp'. destruct (rw_certificate _ _ _ (rw_row t Hwell id' row' Hrow') Hfp') as (c & Hc & Hca & Hcs & ? & ?).
      assert (gr_fingerprint row' ≠ fp) as Hdiff by congruence. exists c. rewrite Hothers, Hc by done. cbn.
      unfold current_certificate. rewrite bool_decide_false by congruence. done.
    + intros fp' c Hc. destruct (decide (fp' = fp)) as [-> | Hdiff].
      * assert (c = new) as -> by congruence. rewrite Hagent. split_and!; [done | done | by eexists |]. by rewrite decide_True.
      * rewrite Hothers in Hc by done. apply fmap_Some in Hc as (c0 & Hc0 & ->).
        destruct (superseded_current id (am_at asked) c0) as (-> & -> & _ & _ & Hcur).
        destruct (rw_current t Hwell fp' c0 Hc0) as (? & ? & row0 & Hrow0 & Hheld). split_and!; [done | done | by eexists |].
        rewrite Hcur. intros [Hs Hna]. rewrite decide_False by done. exists row0. auto.
  - subst certificates. pose proof (mo_kept _ _ _ Hmoved Hident) as Hkept. cbn [restoreAgent a_identity] in Hkept.
    destruct (columns_restored row) as (Hcf & Hcs & Hcb). unfold fp. rewrite Hkept, Hcf, Hcs, Hcb. split_and!.
    + intros Hfp. apply (rw_certificate _ _ _ (rw_row t Hwell id row Hrow) Hfp).
    + intros id' row' _ Hrow' Hfp'. apply (rw_certificate _ _ _ (rw_row t Hwell id' row' Hrow') Hfp').
    + intros fp' c Hc. destruct (rw_current t Hwell fp' c Hc) as (? & ? & row0 & Hrow0 & Hheld). split_and!; [done | done | by eexists |].
      intros Hs. destruct (decide (cr_agent c = id)) as [He|He]; [| exists row0; auto].
      rewrite He in Hrow0. assert (row0 = row) as -> by congruence. symmetry. auto.
Qed.

Lemma move_well t id row asked t' moved :
  registry_well t → tb_agents t !! id = Some row → registry_move (Some row) asked t = (t', Ok moved) →
  registry_well t' ∧ a_id moved = id ∧ a_tenant moved = gr_tenant row ∧ a_revision moved = gr_revision row + 1
  ∧ tb_agents t' = <[id := moved_agent moved row]> (tb_agents t) ∧ gr_revision (moved_agent moved row) = gr_revision row + 1
  ∧ tb_agent_trail t ⊆ tb_agent_trail t'
  ∧ ∃ line, tb_agent_trail t' !! (id, gr_revision row + 1) = Some line ∧ a_state moved = agent_Wire (gl_to line).
Proof.
  intros Hwell Hrow Hmove. apply registry_move_ok in Hmove as (row' & line & certificates & [= <-] & Happly & Hpos & _ & Hrec & ->).
  pose proof (rw_row t Hwell id row Hrow) as Hr.
  destruct (moved_next_revision t id row _ moved line Hr Happly Hpos) as (Hid & Hten & Hrev & Hint & Hfits & Hstates & Hwire & Htrail).
  pose proof (agent_Apply_moved _ _ _ _ Happly) as Hmoved.
  assert (am_at (moving t row asked) = am_at asked) as Hat by (unfold moving; by destruct (am_renewal asked)). rewrite <- Hat in Hrec.
  destruct (certificates_moved t id row (moving t row asked) moved certificates Hwell Hrow Hid Hmoved Hrec) as (Hcown & Hcothers & Hccur).
  assert (insert_agent_line line (tb_agent_trail t) = <[(id, gr_revision row + 1) := agentTrail line]> (tb_agent_trail t)) as ->.
  { unfold insert_agent_line. rewrite Htrail at 1 2. cbn [gl_id gl_revision]. apply insert_once_new.
    destruct (tb_agent_trail t !! (id, gr_revision row + 1)) eqn:Hl; [| done]. apply (rw_lines t Hwell) in Hl as (row'' & Hrow'' & Hle & _).
    assert (row'' = row) as -> by congruence. lia. }
  rewrite Hid. cbn [tb_agents tb_agent_trail tb_certificates]. pose proof (rw_revision _ _ _ Hr) as Hrange. change (2 ^ 63) with 9223372036854775808 in *.
  split_and!; [| done | done | done | done | done | | exists (agentTrail line); rewrite lookup_insert_eq; by rewrite Htrail].
  2:{ apply insert_subseteq. destruct (tb_agent_trail t !! (id, gr_revision row + 1)) eqn:Hl; [| done].
      apply (rw_lines t Hwell) in Hl as (row'' & Hrow'' & Hle & _). assert (row'' = row) as -> by congruence. lia. }
  split; cbn [tb_agents tb_agent_trail tb_certificates].
  - intros id' row'. rewrite lookup_insert_Some. intros [[<- <-] | [Hne Hrow']].
    + destruct Hr as [Hrid Hnamed Hrten _ _ Hpub _ _]. split; cbn [moved_agent gr_id gr_tenant gr_state gr_revision gr_published gr_fingerprint gr_serial gr_subject tb_agent_trail tb_certificates]; try done.
      * rewrite Hint. change (2 ^ 63) with 9223372036854775808. lia.
      * rewrite Hint. lia.
      * exists (agentTrail line). rewrite Hint, lookup_insert_eq. by rewrite Htrail.
    + destruct (rw_row t Hwell id' row' Hrow') as [? ? ? ? ? ? (l & Hl & Hto) _]. split; try done.
      * exists l. cbn [tb_agent_trail]. by rewrite lookup_insert_ne by congruence.
      * intros Hfp. by apply Hcothers.
  - intros id' r l. rewrite lookup_insert_Some. intros [[[= <- <-] <-] | [Hne Hl]].
    + exists (moved_agent moved row). rewrite lookup_insert_eq. cbn [moved_agent gr_revision]. rewrite Hint, Htrail. cbn [gl_to].
      split_and!; [done | lia | lia | done].
    + destruct (rw_lines t Hwell id' r l Hl) as (row'' & Hrow'' & Hle & Hto). destruct (decide (id = id')) as [<- | Hd].
      * exists (moved_agent moved row). rewrite lookup_insert_eq. cbn [moved_agent gr_revision]. rewrite Hint.
        assert (row'' = row) as -> by congruence. split_and!; [done | lia | lia | done].
      * exists row''. by rewrite lookup_insert_ne.
  - intros fp c Hc. destruct (Hccur fp c Hc) as (? & ? & [row'' Hrow''] & Hcur). split_and!; [done | done |].
    destruct (decide (cr_agent c = id)) as [He | Hd].
    + exists (moved_agent moved row). rewrite He, lookup_insert_eq. split; [done |]. intros Hs. symmetry. by apply Hcur.
    + exists row''. rewrite lookup_insert_ne by done. split; [done |]. intros Hs. destruct (Hcur Hs) as (row3 & Hrow3 & <-). congruence.
Qed.

(** ** Listing agents *)

(** Following the cursors of a listing from its first page collects each agent it asks for
    in the caller's tenants, once and by name: a name, unlike an instant, is written whole
    into a cursor. *)
Lemma pages_of_agents_list_each_once `{!PostgresLaws} t q tenants fuel :
  registry_well t → (length (agent_rows t) < fuel)%nat →
  ∃ listed, follow_pages fuel (agent_pages t q tenants) "" = Some (Ok listed) ∧ NoDup listed
    ∧ StronglySorted (λ a b, collate (gr_id a) (gr_id b) = true) listed
    ∧ ∀ row, row ∈ listed ↔ row ∈ agent_rows t ∧ agent_seen q tenants row = true.
Proof.
  intros Hwell Hfuel.
  assert (pages_well gr_id collate decodeAgentCursor (λ row, encodeAgentCursor (gr_id row)) (agent_rows t) (agent_seen q tenants)) as Hpages.
  { split; [apply collate_irreflexive | apply collate_transitive | apply collate_total | |].
    - unfold agent_rows. rewrite <- list_fmap_compose.
      assert ((gr_id ∘ snd) <$> map_to_list (tb_agents t) = (map_to_list (tb_agents t)).*1) as ->; [| apply NoDup_fst_map_to_list].
      apply list_fmap_ext. intros i [id row] Hi. cbn. apply (rw_id t), rw_row; [done |]. apply elem_of_map_to_list. by eapply list_elem_of_lookup_2.
    - intros row Hin _. apply list_elem_of_fmap in Hin as ([id row'] & -> & Hin). apply elem_of_map_to_list in Hin. cbn [snd].
      pose proof (rw_row t Hwell id row' Hin) as Hr. pose proof (rw_named _ _ _ Hr) as Hne. rewrite (rw_id _ _ _ Hr).
      assert (decodeAgentCursor (encodeAgentCursor id) = Ok id) as Hread.
      { unfold decodeAgentCursor, encodeAgentCursor. by rewrite base64_roundtrip, bool_decide_false. }
      split; [| done]. intros Hnil. rewrite Hnil in Hread. vm_compute in Hread. discriminate. }
  destruct (pages_collect_everything gr_id collate _ _ _ _ (gq_limit q) Hpages fuel Hfuel) as (Hfollow & Hnd & Hin).
  eexists. split; [exact Hfollow |]. split_and!; [exact Hnd | exact (everything_sorted _ _ _ _ _ _ Hpages) | exact Hin].
Qed.
End registry.
