(* ===== verification/Announce.v ===== *)
(** * From the registry to the gateways: every decision about an agent is told

    control/admissions.go: a decision is written to the registry first and told to the
    admission log after, by whoever made it or by the announcer that sweeps what is
    outstanding. Callers and announcers interleave as they like: one holds what it read or
    decided for as long as it takes, publishes it, and records that it did. What a gateway
    holds is the roster it read off the log (Agent.v). *)

From Stdlib Require Import ZArith Lia Ascii.
From stdpp Require Import base tactics option gmap strings pretty sorting numbers list.
From S2P Require Import Prelude Text Scan Hex Bytes Session Event Canonical Assessment Agent Listing Triage Trail AgentStore.

Section announcing.
Context {postgres : Postgres}.

(** ** The announcer *)

(** How the backbone and the registry answer one attempt to carry a record. *)
Record Answers := mkAnswers { an_publishes : bool; an_records : bool }.

Inductive Carried := CarryRefused | CarryUnrecorded | CarryPublished.

(** [Publish] of broker/agents.go refuses a record that names no agent. *)
Definition carry (answer : Answers) (record : AdmissionRecord) (t : AgentTables) (log : list AdmissionRecord)
    : AgentTables * list AdmissionRecord * Carried :=
  if bool_decide (ad_agent record = "") || negb (an_publishes answer) then (t, log, CarryRefused)
  else if negb (an_records answer) then (t, log ++ [record], CarryUnrecorded)
  else (agents_Announced (ad_agent record) (ad_revision record) t, log ++ [record], CarryPublished).

Fixpoint carry_each (answers : list Answers) (outstanding : list AdmissionRecord) (t : AgentTables) (log : list AdmissionRecord)
    : AgentTables * list AdmissionRecord :=
  match outstanding, answers with
  | record :: outstanding, answer :: answers =>
      match carry answer record t log with
      | (t, log, CarryPublished) => carry_each answers outstanding t log
      | (t, log, _) => (t, log)
      end
  | _, _ => (t, log)
  end.

(** One sweep, answered in turn; [answers] is as long as what is outstanding. *)
Definition Sweep (batch : Z) (answers : list Answers) (t : AgentTables) (log : list AdmissionRecord) : AgentTables * list AdmissionRecord :=
  carry_each answers (agents_Outstanding batch t) t log.

Definition NewAnnouncer (every batch : Z) : bool := (0 <? every) && (0 <? batch).

Definition oldestOf (outstanding : list AdmissionRecord) : instant :=
  foldl (λ oldest record, if is_zero oldest || before (ad_changed_at record) oldest then ad_changed_at record else oldest) 0 outstanding.

(** ** The plane: the registry, the log and what is on its way between them *)

Record Plane := mkPlane { pl_tables : AgentTables; pl_log : list AdmissionRecord; pl_held : list AdmissionRecord }.

Inductive plane_step : Plane → Plane → Prop :=
| plane_registers asked actor at_ t t' a log held :
    agents_Register asked actor at_ t = (t', Ok a) → plane_step (mkPlane t log held) (mkPlane t' log (Admission a :: held))
| plane_moves id tenants asked t t' a log held :
    am_renewal asked = false → agents_Move id tenants asked t = (t', Ok a) →
    plane_step (mkPlane t log held) (mkPlane t' log (Admission a :: held))
| plane_renews id asked t t' a log held :
    agents_Renew id asked t = (t', Ok a) → plane_step (mkPlane t log held) (mkPlane t' log held)
| plane_reads limit t log held :
    plane_step (mkPlane t log held) (mkPlane t log (agents_Outstanding limit t ++ held))
| plane_publishes record t log held :
    record ∈ held → plane_step (mkPlane t log held) (mkPlane t (log ++ [record]) held)
| plane_records record t log held :
    record ∈ log → plane_step (mkPlane t log held) (mkPlane (agents_Announced (ad_agent record) (ad_revision record) t) log held).

Definition plane_reach (p : Plane) : Prop := rtc plane_step (mkPlane no_agents [] []) p.

(** ** What is on its way is what the registry decided *)

Definition decided_by (t : AgentTables) (r : AdmissionRecord) : Prop :=
  ∃ row line, tb_agents t !! ad_agent r = Some row ∧ ad_tenant r = gr_tenant row ∧ 1 ≤ ad_revision r ≤ gr_revision row
    ∧ tb_agent_trail t !! (ad_agent r, ad_revision r) = Some line ∧ ad_state r = agent_Wire (gl_to line).

Record plane_well (p : Plane) : Prop := {
  pl_registry : registry_well (pl_tables p);
  pl_decided r : r ∈ pl_log p ∨ r ∈ pl_held p → decided_by (pl_tables p) r;
  pl_told id row : tb_agents (pl_tables p) !! id = Some row → gr_published row ≠ 0 →
    ∃ r, r ∈ pl_log p ∧ ad_agent r = id ∧ ad_revision r = gr_published row;
}.

(** A registry that only went on. *)
Record goes_on (t t' : AgentTables) : Prop := {
  go_rows id row : tb_agents t !! id = Some row →
    ∃ row', tb_agents t' !! id = Some row' ∧ gr_tenant row' = gr_tenant row ∧ gr_revision row ≤ gr_revision row';
  go_lines : tb_agent_trail t ⊆ tb_agent_trail t';
}.

Lemma decided_by_goes_on t t' r : goes_on t t' → decided_by t r → decided_by t' r.
Proof.
  intros [Hrows Hlines] (row & line & Hrow & Hten & Hrev & Hline & Hst). destruct (Hrows _ _ Hrow) as (row' & Hrow' & Hten' & Hrev').
  exists row', line. split_and!; [done | congruence | lia | lia | by eapply lookup_weaken | done].
Qed.

Lemma insert_goes_on t t' id row row' :
  tb_agents t !! id = Some row → tb_agents t' = <[id := row']> (tb_agents t) → gr_tenant row' = gr_tenant row →
  gr_revision row ≤ gr_revision row' → tb_agent_trail t ⊆ tb_agent_trail t' → goes_on t t'.
Proof.
  intros Hrow Ht Hten Hrev Hlines. split; [| done]. intros id' row0 Hrow0. rewrite Ht. destruct (decide (id = id')) as [<- | Hne].
  - exists row'. rewrite lookup_insert_eq. assert (row0 = row) as -> by congruence. done.
  - exists row0. by rewrite lookup_insert_ne.
Qed.

Lemma register_goes_on asked actor at_ t t' a :
  registry_well t → agents_Register asked actor at_ t = (t', Ok a) →
  registry_well t' ∧ goes_on t t' ∧ decided_by t' (Admission a)
  ∧ ∀ id row, tb_agents t' !! id = Some row → gr_published row = 0 ∨ tb_agents t !! id = Some row.
Proof.
  intros Hwell Hreg. destruct (register_well asked actor at_ t t' a Hwell Hreg)
    as (Hwell' & Hnone & _ & Hrows & Hlines & (line & Hline & Hto) & Hrev & Hst & Hten). split_and!; [done | | |].
  - split; [| done]. intros id row Hrow. exists row. rewrite Hrows, lookup_insert_ne by congruence. done.
  - exists (storedAgent a), line. cbn [Admission ad_agent ad_tenant ad_revision ad_state]. rewrite Hrows, lookup_insert_eq, Hrev.
    split_and!; [done | done | done | cbn; by rewrite Hrev | done | by rewrite Hto].
  - intros id row. rewrite Hrows, lookup_insert_Some. intros [[<- <-] | [_ ?]]; [by left | by right].
Qed.

Lemma move_goes_on t held asked t' moved :
  registry_well t → (∀ row, held = Some row → tb_agents t !! gr_id row = Some row) → registry_move held asked t = (t', Ok moved) →
  registry_well t' ∧ goes_on t t' ∧ decided_by t' (Admission moved)
  ∧ ∀ id row, tb_agents t' !! id = Some row → ∃ row0, tb_agents t !! id = Some row0 ∧ gr_published row = gr_published row0.
Proof.
  intros Hwell Hheld Hmove. destruct held as [row|]; [| done]. specialize (Hheld row eq_refl).
  destruct (move_well t (gr_id row) row asked t' moved Hwell Hheld Hmove)
    as (Hwell' & Hid & Hten & Hrev & Hrows & Hnext & Hlines & line & Hline & Hst). split_and!; [done | | |].
  - eapply (insert_goes_on t t' (gr_id row) row); [done | done | done | lia | done].
  - pose proof (rw_revision _ _ _ (rw_row t Hwell _ _ Hheld)).
    exists (moved_agent moved row), line. cbn [Admission ad_agent ad_tenant ad_revision ad_state]. rewrite Hrows, Hid, lookup_insert_eq, Hrev.
    split_and!; [done | done | lia | lia | done | done].
  - intros id row'. rewrite Hrows, lookup_insert_Some. intros [[<- <-] | [_ ?]]; [by exists row | by exists row'].
Qed.

Lemma Move_goes_on id tenants asked t t' moved :
  registry_well t → agents_Move id tenants asked t = (t', Ok moved) →
  registry_well t' ∧ goes_on t t' ∧ decided_by t' (Admission moved)
  ∧ ∀ id row, tb_agents t' !! id = Some row → ∃ row0, tb_agents t !! id = Some row0 ∧ gr_published row = gr_published row0.
Proof.
  intros Hwell. apply move_goes_on; [done |]. intros row. destruct (tb_agents t !! id) as [row'|] eqn:Hrow; [| done].
  cbn. case_bool_decide; [| done]. intros [= <-]. by rewrite (rw_id _ _ _ (rw_row t Hwell _ _ Hrow)).
Qed.

Lemma Renew_goes_on id asked t t' moved :
  registry_well t → agents_Renew id asked t = (t', Ok moved) →
  registry_well t' ∧ goes_on t t' ∧ decided_by t' (Admission moved)
  ∧ ∀ id row, tb_agents t' !! id = Some row → ∃ row0, tb_agents t !! id = Some row0 ∧ gr_published row = gr_published row0.
Proof.
  intros Hwell. apply move_goes_on; [done |]. intros row Hrow. by rewrite (rw_id _ _ _ (rw_row t Hwell _ _ Hrow)).
Qed.

Lemma in_front {A} (x : A) (rest front : list A) : x ∈ front → x ∈ front ++ rest.
Proof. rewrite elem_of_app. by left. Qed.

Lemma outstanding_decided `{!PostgresLaws} limit t r :
  registry_well t → r ∈ agents_Outstanding limit t →
  ∃ row, tb_agents t !! gr_id row = Some row ∧ r = restoreAdmission row ∧ gr_published row < gr_revision row ∧ decided_by t r.
Proof.
  intros Hwell. unfold agents_Outstanding. rewrite list_elem_of_fmap. intros (row & -> & Hin).
  apply (in_front _ (drop (Z.to_nat (page_limit limit)) (ordered_rows gr_changed_at Z.ltb (heap_order (unannounced t))))) in Hin.
  rewrite take_drop in Hin. unfold ordered_rows in Hin.
  rewrite merge_sort_Permutation, heap_order_all in Hin. unfold unannounced in Hin. apply list_elem_of_filter in Hin as [Hout Hin].
  apply list_elem_of_fmap in Hin as ([id row'] & -> & Hin). apply elem_of_map_to_list in Hin. cbn [snd] in *.
  pose proof (rw_row t Hwell id row' Hin) as [Hid _ _ _ Hrev _ (line & Hline & Hto) _].
  exists row'. rewrite Hid. split_and!; [done | done | done |]. exists row', line.
  cbn [restoreAdmission ad_agent ad_tenant ad_revision ad_state]. change (2 ^ 63) with 9223372036854775808 in *.
  assert (uint64 (gr_revision row') = gr_revision row') as -> by (unfold wrap_uint; apply Z.mod_small; lia).
  rewrite Hid. split_and!; [done | done | lia | lia | done | by rewrite Hto].
Qed.

Lemma announced_goes_on r t :
  registry_well t → decided_by t r →
  registry_well (agents_Announced (ad_agent r) (ad_revision r) t) ∧ goes_on t (agents_Announced (ad_agent r) (ad_revision r) t)
  ∧ ∀ id row, tb_agents (agents_Announced (ad_agent r) (ad_revision r) t) !! id = Some row →
      id = ad_agent r ∧ gr_published row = ad_revision r ∨ tb_agents t !! id = Some row.
Proof.
  intros Hwell (held & line & Hheld & _ & Hrev & _). split_and!.
  - apply announced_row; [done |]. intros row Hrow. assert (row = held) as -> by congruence. done.
  - unfold agents_Announced. rewrite Hheld. destruct (_ <? _); [| split; [intros id row ?; by exists row | done]].
    eapply insert_goes_on; [done | done | done | done | done].
  - unfold agents_Announced. rewrite Hheld. pose proof (rw_revision _ _ _ (rw_row t Hwell _ _ Hheld)).
    change (2 ^ 63) with 9223372036854775808 in *.
    assert (int64 (ad_revision r) = ad_revision r) as -> by (apply int64_id; change (2 ^ 63) with 9223372036854775808; lia).
    destruct (_ <? _); [| by right]. intros id row. cbn [tb_agents]. rewrite lookup_insert_Some. intros [[<- <-] | [_ ?]]; [by left | by right].
Qed.

Section reached.
Context `{!PostgresLaws}.

Lemma plane_keeps p p' : plane_step p p' → plane_well p → plane_well p'.
Proof.
  intros Hstep. destruct Hstep as [asked actor at_ t t' a log held Hop | id tenants asked t t' a log held _ Hop | id asked t t' a log held Hop
    | limit t log held | r t log held Hin | r t log held Hin]; intros [Hwell Hdec Htold]; cbn [pl_tables pl_log pl_held] in *.
  - destruct (register_goes_on asked actor at_ t t' a Hwell Hop) as (Hwell' & Hgo & Hnew & Hrows). split; cbn [pl_tables pl_log pl_held]; [done | |].
    + intros r [Hr | Hr]; [| apply elem_of_cons in Hr as [-> | Hr]]; eauto using decided_by_goes_on.
    + intros id row Hrow Hne. destruct (Hrows id row Hrow) as [? | Hold]; [done | eauto].
  - destruct (Move_goes_on id tenants asked t t' a Hwell Hop) as (Hwell' & Hgo & Hnew & Hrows).
    split; cbn [pl_tables pl_log pl_held]; [done | |].
    + intros r [Hr | Hr]; [| apply elem_of_cons in Hr as [-> | Hr]]; eauto using decided_by_goes_on.
    + intros id' row Hrow Hne. destruct (Hrows id' row Hrow) as (row0 & Hrow0 & He). rewrite He in *. eauto.
  - destruct (Renew_goes_on id asked t t' a Hwell Hop) as (Hwell' & Hgo & _ & Hrows).
    split; cbn [pl_tables pl_log pl_held]; [done | |].
    + intros r Hr. eauto using decided_by_goes_on.
    + intros id' row Hrow Hne. destruct (Hrows id' row Hrow) as (row0 & Hrow0 & He). rewrite He in *. eauto.
  - split; cbn [pl_tables pl_log pl_held]; [done | | done]. intros r [Hr | Hr]; [eauto |].
    apply elem_of_app in Hr as [Hr | Hr]; [| eauto]. by apply outstanding_decided in Hr as (_ & _ & _ & _ & ?).
  - split; cbn [pl_tables pl_log pl_held]; [done | |].
    + intros r' [Hr | Hr]; [| eauto]. apply elem_of_app in Hr as [Hr | ->%list_elem_of_singleton]; eauto.
    + intros id row Hrow Hne. destruct (Htold id row Hrow Hne) as (r' & Hr' & ?). exists r'. split; [| done]. apply elem_of_app. by left.
  - destruct (announced_goes_on r t Hwell) as (Hwell' & Hgo & Hrows); [eauto |]. split; cbn [pl_tables pl_log pl_held]; [done | |].
    + intros r' Hr. eauto using decided_by_goes_on.
    + intros id row Hrow Hne. destruct (Hrows id row Hrow) as [[-> He] | Hold]; [by exists r | eauto].
Qed.

Lemma plane_reach_well p : plane_reach p → plane_well p.
Proof.
  unfold plane_reach. intros Hreach. pattern p. eapply rtc_ind_r; [| | exact Hreach].
  - split; cbn; [apply registry_well_start | |]; [intros r [?%elem_of_nil | ?%elem_of_nil]; done |]. intros *. by rewrite lookup_empty.
  - intros y z _ Hstep Hy. by eapply plane_keeps.
Qed.

(** ** What a gateway makes of it *)

Lemma opinion_agent a r o : opinion a r = Some o → ad_agent r = a.
Proof. unfold opinion. case_bool_decide; [done |]. case_bool_decide; done. Qed.

Lemma opinion_decided t r id row line :
  registry_well t → tb_agents t !! id = Some row → tb_agent_trail t !! (id, ad_revision r) = Some line →
  ad_agent r = id → ad_tenant r = gr_tenant row → ad_state r = agent_Wire (gl_to line) →
  opinion id r = Some (mkDecided (Admits (gl_to line)) (gr_tenant row) (ad_revision r)).
Proof.
  intros Hwell Hrow Hline Hid Hten Hst. unfold opinion. rewrite Hid.
  rewrite (bool_decide_false (id = "")) by apply (rw_named _ _ _ (rw_row t Hwell id row Hrow)). rewrite bool_decide_true by done. cbn [orb negb].
  destruct (rw_lines t Hwell _ _ _ Hline) as (_ & _ & _ & Hto).
  rewrite Hst, (proj2 (agent_FromWire_Wire (gl_to line) (agent_Wire (gl_to line))) (conj Hto eq_refl)), Hten.
  by rewrite (rw_tenant _ _ _ (rw_row t Hwell id row Hrow)).
Qed.

(** The decision no other of the log comes after or contradicts is the one held. *)
Lemma verdict_top a d log :
  (∀ r o, r ∈ log → opinion a r = Some o → dc_revision o ≤ dc_revision d ∧ (dc_revision o = dc_revision d → o = d)) →
  (∃ r, r ∈ log ∧ opinion a r = Some d) → verdict a log = Some d.
Proof.
  intros Hall Hex.
  assert (∀ l, (∀ r, r ∈ l → r ∈ log) → match verdict a l with None => ∀ r, r ∈ l → opinion a r = None
                | Some o => dc_revision o ≤ dc_revision d ∧ (dc_revision o = dc_revision d → o = d) ∧ ((∃ r, r ∈ l ∧ opinion a r = Some d) → o = d) end) as Hgen.
  { induction l as [|x l IH]; intros Hsub; cbn [verdict]; [by intros r ?%elem_of_nil |].
    specialize (IH (λ r Hr, Hsub r (proj2 (elem_of_cons _ _ _) (or_intror Hr)))). destruct (opinion a x) as [o|] eqn:Ho.
    - destruct (Hall x o (Hsub x (list_elem_of_here _ _)) Ho) as [Hle Heq].
      destruct (verdict a l) as [v|]; cbn [join_opt].
      + destruct IH as (Hvle & Hveq & Hvex). unfold join. destruct (Z.ltb_spec (dc_revision v) (dc_revision o)) as [Hlt|Hge].
        { split_and!; [done | done |]. intros (r & Hr & Hro). apply elem_of_cons in Hr as [-> | Hr]; [congruence |].
          assert (v = d) as -> by eauto. lia. }
        destruct (Z.ltb_spec (dc_revision o) (dc_revision v)) as [Hlt'|Hge'].
        { split_and!; [done | done |]. intros (r & Hr & Hro). apply elem_of_cons in Hr as [-> | Hr]; [| eauto].
          assert (o = d) as -> by congruence. lia. }
        destruct (bool_decide (o = v)) eqn:Hb.
        { apply bool_decide_eq_true in Hb as ->. split_and!; [done | done |]. intros (r & Hr & Hro).
          apply elem_of_cons in Hr as [-> | Hr]; [congruence | eauto]. }
        apply bool_decide_eq_false in Hb. assert (dc_revision o ≠ dc_revision d) as Hno.
        { intros He. apply Hb. rewrite Heq, Hveq by lia. done. }
        split_and!; cbn [dc_revision]; [done | done |]. intros (r & Hr & Hro). exfalso.
        apply elem_of_cons in Hr as [-> | Hr]; [apply Hno; congruence |]. assert (v = d) as -> by eauto. lia.
      + split_and!; [done | done |]. intros (r & Hr & Hro). apply elem_of_cons in Hr as [-> | Hr]; [congruence |].
        rewrite IH in Hro by done. done.
    - cbn [join_opt]. destruct (verdict a l) as [v|].
      + destruct IH as (? & ? & Hvex). split_and!; [done | done |]. intros (r & Hr & Hro). apply Hvex.
        apply elem_of_cons in Hr as [-> | Hr]; [congruence | eauto].
      + intros r Hr. apply elem_of_cons in Hr as [-> | Hr]; auto. }
  specialize (Hgen log (λ r Hr, Hr)). destruct Hex as (r & Hr & Hro). destruct (verdict a log) as [v|].
  - destruct Hgen as (_ & _ & He). f_equal. eauto.
  - by rewrite Hgen in Hro.
Qed.

Lemma told_top p id row :
  plane_well p → tb_agents (pl_tables p) !! id = Some row → gr_revision row ≤ gr_published row →
  read_log (pl_log p) !! id = Some (mkDecided (Admits (gr_state row)) (gr_tenant row) (gr_revision row)).
Proof.
  intros [Hwell Hdec Htold] Hrow Hpub. rewrite read_log_verdict. pose proof (rw_row _ Hwell id row Hrow) as Hr.
  pose proof (rw_revision _ _ _ Hr) as [Hlo _]. pose proof (rw_published _ _ _ Hr) as [_ Hhi].
  destruct (rw_line _ _ _ Hr) as (now & Hnow & Hto).
  assert (∀ r o, r ∈ pl_log p → opinion id r = Some o → dc_revision o ≤ gr_revision row
            ∧ (dc_revision o = gr_revision row → o = mkDecided (Admits (gr_state row)) (gr_tenant row) (gr_revision row))) as Hall.
  { intros r o Hr' Ho. pose proof (opinion_agent _ _ _ Ho) as Hid.
    destruct (Hdec r (or_introl Hr')) as (row' & line & Hrow' & Hten & Hrev & Hline & Hst). rewrite Hid in *.
    assert (row' = row) as -> by congruence. rewrite (opinion_decided (pl_tables p) r id row line) in Ho by done. injection Ho as <-.
    cbn [dc_revision]. split; [lia |]. intros He. rewrite He in Hline. assert (line = now) as -> by congruence. by rewrite He, Hto. }
  apply verdict_top; [exact Hall |].
  destruct (Htold id row Hrow) as (r & Hin & Hid & Hrev); [lia |]. exists r. split; [done |].
  destruct (Hdec r (or_introl Hin)) as (row' & line & Hrow' & Hten & _ & Hline & Hst). rewrite Hid in *.
  assert (row' = row) as -> by congruence. rewrite (opinion_decided (pl_tables p) r id row line) by done.
  assert (ad_revision r = gr_revision row) as He by lia. rewrite He in *. assert (line = now) as -> by congruence. by rewrite Hto.
Qed.

(** C17. What a gateway holds is what the registry decided: however registrations, moves,
    renewals and announcements interleave, and whatever is published twice or late, a
    gateway that read the log holds of an agent only a decision the registry's trail
    records, in the agent's own tenant; and of an agent the registry counts as announced it
    holds exactly the registry's decision as it stands. *)
Theorem gateways_hold_what_the_registry_decided p id :
  plane_reach p →
  (∀ d, read_log (pl_log p) !! id = Some d → dc_admits d = true →
     ∃ row line, tb_agents (pl_tables p) !! id = Some row ∧ dc_revision d ≤ gr_revision row
       ∧ tb_agent_trail (pl_tables p) !! (id, dc_revision d) = Some line
       ∧ d = mkDecided (Admits (gl_to line)) (gr_tenant row) (dc_revision d))
  ∧ ∀ row, tb_agents (pl_tables p) !! id = Some row → row ∉ unannounced (pl_tables p) →
      read_log (pl_log p) !! id = Some (mkDecided (Admits (gr_state row)) (gr_tenant row) (gr_revision row)).
Proof.
  intros Hwell%plane_reach_well. split.
  - intros d. rewrite read_log_verdict. intros Hd Hadmits. destruct (verdict_elem id (pl_log p) d Hd Hadmits) as (r & Hr & Ho).
    destruct Hwell as [Hreg Hdec _]. destruct (Hdec r (or_introl Hr)) as (row & line & Hrow & Hten & Hrev & Hline & Hst).
    pose proof (opinion_agent _ _ _ Ho) as Hid. rewrite Hid in *. rewrite (opinion_decided (pl_tables p) r id row line) in Ho by done. injection Ho as <-. cbn [dc_revision].
    exists row, line. split_and!; [done | lia | done | done].
  - intros row Hrow Hout. apply told_top; [done | done |]. apply Z.nlt_ge. intros Hlt. apply Hout. unfold unannounced.
    apply list_elem_of_filter. split; [done |]. apply list_elem_of_fmap. exists (id, row). split; [done |]. by apply elem_of_map_to_list.
Qed.

(** ** Sweeping *)

Definition unfailing (answers : list Answers) : Prop := Forall (λ answer, an_publishes answer = true ∧ an_records answer = true) answers.

Fixpoint sweeps (batch : Z) (rounds : list (list Answers)) (t : AgentTables) (log : list AdmissionRecord) : AgentTables * list AdmissionRecord :=
  match rounds with
  | [] => (t, log)
  | answers :: rounds => let '(t, log) := Sweep batch answers t log in sweeps batch rounds t log
  end.

(** A sweep is steps of the plane, whatever it is answered. *)
Lemma carry_each_steps answers : ∀ records t log held,
  (∀ r, r ∈ records → r ∈ held) → plane_reach (mkPlane t log held) →
  plane_reach (mkPlane (carry_each answers records t log).1 (carry_each answers records t log).2 held).
Proof.
  induction answers as [|answer answers IH]; intros records t log held Hheld Hreach; [by destruct records |].
  destruct records as [|r records]; [done |]. cbn [carry_each]. unfold carry.
  destruct (bool_decide _ || negb _); [done |].
  assert (plane_reach (mkPlane t (log ++ [r]) held)) as Hpub.
  { eapply rtc_r; [exact Hreach |]. apply plane_publishes, Hheld. by left. }
  destruct (negb (an_records answer)); [done |]. apply IH; [intros; apply Hheld; by right |].
  eapply rtc_r; [exact Hpub |]. apply plane_records. apply elem_of_app. right. by left.
Qed.

Lemma sweep_reach batch answers t log held :
  plane_reach (mkPlane t log held) →
  plane_reach (mkPlane (Sweep batch answers t log).1 (Sweep batch answers t log).2 (agents_Outstanding batch t ++ held)).
Proof.
  intros Hreach. apply carry_each_steps; [intros r Hr; apply elem_of_app; by left |]. eapply rtc_r; [exact Hreach | apply plane_reads].
Qed.

Lemma sweeps_reach batch rounds : ∀ t log held,
  plane_reach (mkPlane t log held) →
  ∃ held', plane_reach (mkPlane (sweeps batch rounds t log).1 (sweeps batch rounds t log).2 held').
Proof.
  induction rounds as [|answers rounds IH]; intros t log held Hreach; [by exists held |]. cbn [sweeps].
  pose proof (sweep_reach batch answers t log held Hreach) as Hnext.
  destruct (Sweep batch answers t log) as [t1 log1]. by eapply IH.
Qed.

(** Announcing one row that is outstanding leaves the others outstanding. *)
Lemma announced_one t row :
  registry_well t → tb_agents t !! gr_id row = Some row → gr_published row < gr_revision row →
  let t' := agents_Announced (gr_id row) (uint64 (gr_revision row)) t in
  registry_well t' ∧ length (unannounced t) = S (length (unannounced t'))
  ∧ ∀ id other, id ≠ gr_id row → tb_agents t !! id = Some other → tb_agents t' !! id = Some other.
Proof.
  intros Hwell Hrow Hout. pose proof (rw_revision _ _ _ (rw_row t Hwell _ _ Hrow)) as Hrange. change (2 ^ 63) with 9223372036854775808 in *.
  assert (uint64 (gr_revision row) = gr_revision row) as -> by (unfold wrap_uint; apply Z.mod_small; lia). cbv zeta. split_and!.
  - apply announced_row; [done |]. intros row' Hrow'. assert (row' = row) as -> by congruence. lia.
  - unfold agents_Announced. rewrite Hrow.
    assert (int64 (gr_revision row) = gr_revision row) as -> by (apply int64_id; change (2 ^ 63) with 9223372036854775808; lia).
    rewrite (proj2 (Z.ltb_lt _ _)) by done. unfold unannounced. cbn [tb_agents].
    rewrite <- (insert_delete_id (tb_agents t) (gr_id row) row) at 1 by done. rewrite <- (insert_delete_eq (tb_agents t)).
    rewrite !map_to_list_insert by apply lookup_delete_eq. rewrite !fmap_cons. cbn [snd].
    rewrite filter_cons_True by done. rewrite filter_cons_False by (cbn; lia). done.
  - intros id other Hne Hother. unfold agents_Announced. rewrite Hrow. destruct (_ <? _); [| done]. cbn [tb_agents]. by rewrite lookup_insert_ne.
Qed.

Lemma carry_each_unfailing rows : ∀ answers t log,
  registry_well t → unfailing answers → (length rows ≤ length answers)%nat → NoDup (gr_id <$> rows) →
  (∀ row, row ∈ rows → tb_agents t !! gr_id row = Some row ∧ gr_published row < gr_revision row) →
  length (unannounced t) = (length rows + length (unannounced (carry_each answers (restoreAdmission <$> rows) t log).1))%nat.
Proof.
  induction rows as [|row rows IH]; intros answers t log Hwell Hgood Hlen Hnd Hrows; [by destruct answers |].
  destruct answers as [|answer answers]; [cbn in Hlen; lia |]. apply Forall_cons in Hgood as [[Hp Hr] Hgood].
  destruct (Hrows row) as [Hrow Hout]; [by left |]. cbn in Hnd. apply NoDup_cons in Hnd as [Hnew Hnd].
  cbn [fmap list_fmap carry_each]. unfold carry. cbn [restoreAdmission ad_agent ad_revision].
  rewrite bool_decide_false by apply (rw_named _ _ _ (rw_row t Hwell _ _ Hrow)). rewrite Hp, Hr. cbn [negb orb].
  destruct (announced_one t row Hwell Hrow Hout) as (Hwell' & Hcount & Hothers). rewrite Hcount. cbn [length Nat.add]. f_equal.
  apply IH; [done | done | cbn in Hlen; lia | done |]. intros other Hin. destruct (Hrows other) as [Hother ?]; [by right |].
  split; [| done]. apply Hothers; [| done]. intros He. apply Hnew. rewrite <- He. by apply list_elem_of_fmap_2.
Qed.

Lemma unannounced_rows t row : registry_well t → row ∈ unannounced t → tb_agents t !! gr_id row = Some row ∧ gr_published row < gr_revision row.
Proof.
  intros Hwell. unfold unannounced. rewrite list_elem_of_filter, list_elem_of_fmap. intros [Hout ([id row'] & -> & Hin)].
  apply elem_of_map_to_list in Hin. cbn [snd] in *. by rewrite (rw_id _ _ _ (rw_row t Hwell _ _ Hin)).
Qed.

Lemma unannounced_once t : registry_well t → NoDup (gr_id <$> unannounced t).
Proof.
  intros Hwell. unfold unannounced. eapply sublist_NoDup; [| apply fmap_sublist, sublist_filter].
  assert (gr_id <$> (map_to_list (tb_agents t)).*2 = (map_to_list (tb_agents t)).*1) as ->; [| apply NoDup_fst_map_to_list].
  rewrite <- list_fmap_compose. apply list_fmap_ext. intros i [id row] Hi. cbn. apply (rw_id t), rw_row; [done |].
  apply elem_of_map_to_list. by eapply list_elem_of_lookup_2.
Qed.

(** One unfailing sweep announces as many as a batch takes. *)
Lemma sweep_unfailing batch answers t log :
  registry_well t → unfailing answers → MaxPageSize ≤ len answers →
  length (unannounced (Sweep batch answers t log).1) = (length (unannounced t) - Z.to_nat (page_limit batch))%nat.
Proof.
  intros Hwell Hgood Hlen. unfold Sweep, agents_Outstanding.
  set (found := ordered_rows gr_changed_at Z.ltb (heap_order (unannounced t))).
  assert (found ≡ₚ unannounced t) as Hperm by (unfold found, ordered_rows; by rewrite merge_sort_Permutation, heap_order_all).
  assert (page_limit batch ≤ MaxPageSize) as Hmax by (unfold page_limit; lia).
  pose proof (carry_each_unfailing (take (Z.to_nat (page_limit batch)) found) answers t log Hwell Hgood) as Hcount.
  assert (length found = length (unannounced t)) as Hlength by (by rewrite Hperm).
  rewrite length_take, Hlength in Hcount. unfold len, MaxPageSize in *.
  match type of Hcount with _ → _ → _ → ?P => cut P; [lia |] end. apply Hcount; [lia | |].
  - eapply sublist_NoDup; [| apply fmap_sublist, sublist_take]. rewrite Hperm. by apply unannounced_once.
  - intros row Hin. apply unannounced_rows; [done |]. rewrite <- Hperm.
    rewrite <- (take_drop (Z.to_nat (page_limit batch)) found). by apply in_front.
Qed.

Lemma announced_only id revision t : with_published 0 <$> tb_agents (agents_Announced id revision t) = with_published 0 <$> tb_agents t.
Proof.
  unfold agents_Announced. destruct (tb_agents t !! id) as [row|] eqn:Hrow; [| done]. destruct (_ <? _); [| done]. cbn [tb_agents].
  rewrite fmap_insert. change (with_published 0 (with_published (int64 revision) row)) with (with_published 0 row).
  rewrite <- fmap_insert. by rewrite insert_id.
Qed.

Lemma carry_each_only answers : ∀ records t log,
  with_published 0 <$> tb_agents (carry_each answers records t log).1 = with_published 0 <$> tb_agents t.
Proof.
  induction answers as [|answer answers IH]; intros records t log; [by destruct records |]. destruct records as [|r records]; [done |].
  cbn [carry_each]. unfold carry. destruct (bool_decide _ || _); [done |]. destruct (negb _); [done |]. by rewrite IH, announced_only.
Qed.

(** C18. Sweeping tells the gateways everything: from whatever the plane came to, as many
    unfailing sweeps as there are batches outstanding leave nothing outstanding, change
    nothing else of the registry, and a gateway that reads the log holds every registered
    agent's decision exactly as it stands. *)
Theorem sweeps_tell_everything batch rounds t log held :
  plane_reach (mkPlane t log held) →
  Forall (λ answers, unfailing answers ∧ MaxPageSize ≤ len answers) rounds →
  len (unannounced t) ≤ len rounds * page_limit batch →
  let '(t', log') := sweeps batch rounds t log in
  unannounced t' = [] ∧ with_published 0 <$> tb_agents t' = with_published 0 <$> tb_agents t
  ∧ ∀ id row, tb_agents t' !! id = Some row →
      read_log log' !! id = Some (mkDecided (Admits (gr_state row)) (gr_tenant row) (gr_revision row)).
Proof.
  intros Hreach Hrounds Hcount. destruct (sweeps_reach batch rounds t log held Hreach) as [held' Hreach'].
  assert (length (unannounced (sweeps batch rounds t log).1) = 0%nat
          ∧ with_published 0 <$> tb_agents (sweeps batch rounds t log).1 = with_published 0 <$> tb_agents t) as [Hnone Honly].
  { clear Hreach'. revert t log held Hreach Hcount. induction Hrounds as [|answers rounds [Hgood Hlen] _ IH]; intros t log held Hreach Hcount; cbn [sweeps].
    { unfold len in Hcount. cbn in *. split; [lia | done]. }
    pose proof (pl_registry _ (plane_reach_well _ Hreach)) as Hwell. cbn [pl_tables] in Hwell.
    pose proof (sweep_unfailing batch answers t log Hwell Hgood Hlen) as Hone.
    pose proof (carry_each_only answers (agents_Outstanding batch t) t log) as Hsame.
    fold (Sweep batch answers t log) in Hsame.
    pose proof (sweep_reach batch answers t log held Hreach) as Hnext.
    destruct (Sweep batch answers t log) as [t1 log1]. cbn [fst] in *. rewrite <- Hsame. eapply IH; [exact Hnext |].
    unfold len in *. cbn [length] in Hcount. rewrite Hone. assert (0 ≤ page_limit batch) by (unfold page_limit, DefaultPageSize, MaxPageSize; case_match; lia). lia. }
  destruct (sweeps batch rounds t log) as [t' log']. cbn [fst snd] in *. split_and!; [by apply nil_length_inv | done |].
  intros id row Hrow. apply (told_top (mkPlane t' log' held')); [by apply plane_reach_well | done |].
  apply Z.nlt_ge. intros Hlt. assert (row ∈ unannounced t') as Hin.
  { apply list_elem_of_filter. split; [done |]. apply list_elem_of_fmap. exists (id, row). split; [done |]. by apply elem_of_map_to_list. }
  apply nil_length_inv in Hnone. rewrite Hnone in Hin. by apply elem_of_nil in Hin.
Qed.

(** ** Certificates and renewals *)

Definition bound_certificate (t : AgentTables) (id : string) (c : CertificateRow) : Prop :=
  tb_certificates t !! cr_fingerprint c = Some c ∧ cr_agent c = id ∧ cr_superseded c = None.

Lemma bound_is_held t id c row :
  registry_well t → bound_certificate t id c → tb_agents t !! id = Some row → cr_fingerprint c = gr_fingerprint row.
Proof.
  intros Hwell (Hc & Ha & Hs) Hrow. destruct (rw_current t Hwell _ _ Hc) as (_ & _ & row' & Hrow' & Hfp). rewrite Ha in Hrow'.
  assert (row' = row) as -> by congruence. symmetry. by apply Hfp.
Qed.

Lemma boundAnswer_some t id c :
  registry_well t → bound_certificate t id c → boundAnswer t id = mkAsked (cr_presented c) (cr_request c).
Proof.
  intros Hwell Hbound. pose proof Hbound as (Hc & Ha & Hs).
  assert (∀ x, x ∈ filter (λ row, current_certificate id row = true) (certificates_of t id) ↔ x = c) as Hall.
  { intros x. unfold certificates_of, current_certificate. rewrite !list_elem_of_filter, andb_true_iff, !bool_decide_eq_true, list_elem_of_fmap. split.
    - intros ([Hxa Hxs] & _ & [fp x'] & -> & Hin). apply elem_of_map_to_list in Hin. cbn [snd] in *.
      destruct (rw_current t Hwell fp x' Hin) as (Hfp & _ & row & Hrow & Hrfp).
      assert (cr_fingerprint c = gr_fingerprint row) as He by (apply (bound_is_held t id); [done | done | congruence]).
      rewrite (Hrfp Hxs) in He. rewrite He in Hc. congruence.
    - intros ->. split_and!; [done | done | done |]. exists (cr_fingerprint c, c). split; [done |]. by apply elem_of_map_to_list. }
  unfold boundAnswer. destruct (any_of _) as [x|] eqn:Hany.
  - apply any_of_in, Hall in Hany as ->. done.
  - destruct (any_of_some (filter (λ row, current_certificate id row = true) (certificates_of t id))) as [x Hx]; [| congruence].
    intros Hnil. assert (c ∈ filter (λ row, current_certificate id row = true) (certificates_of t id)) as Hin by (by apply Hall).
    rewrite Hnil in Hin. by apply elem_of_nil in Hin.
Qed.

Lemma boundAnswer_none t id : (∀ c, ¬ bound_certificate t id c) → registry_well t → boundAnswer t id = mkAsked "" "".
Proof.
  intros Hnone Hwell. unfold boundAnswer. destruct (any_of _) as [x|] eqn:Hany; [exfalso | done]. apply any_of_in in Hany.
  unfold certificates_of, current_certificate in Hany. rewrite !list_elem_of_filter, andb_true_iff, !bool_decide_eq_true, list_elem_of_fmap in Hany.
  destruct Hany as ([Ha Hs] & _ & [fp x'] & -> & Hin). apply elem_of_map_to_list in Hin. cbn [snd] in *. apply (Hnone x').
  destruct (rw_current t Hwell fp x' Hin) as (Hfp & _). by rewrite <- Hfp in Hin.
Qed.

(** C19. An agent holds one certificate at a time and no two hold one: however identities
    are bound, renewed and lost, the certificate a registered agent is bound to is recorded
    with the identity the registry holds, it is the only one of that agent not superseded,
    and no certificate, current or past, is two agents'. *)
Theorem an_agent_holds_one_certificate p id row :
  plane_reach p → tb_agents (pl_tables p) !! id = Some row →
  (gr_fingerprint row ≠ "" → ∃ c, bound_certificate (pl_tables p) id c ∧ cr_fingerprint c = gr_fingerprint row
     ∧ cr_serial c = gr_serial row ∧ cr_subject c = gr_subject row)
  ∧ (∀ c c', bound_certificate (pl_tables p) id c → bound_certificate (pl_tables p) id c' → c = c')
  ∧ ∀ id' row', tb_agents (pl_tables p) !! id' = Some row' → gr_fingerprint row' = gr_fingerprint row → gr_fingerprint row ≠ "" → id' = id.
Proof.
  intros Hwell%plane_reach_well Hrow. apply pl_registry in Hwell. split_and!.
  - intros Hfp. destruct (rw_certificate _ _ _ (rw_row _ Hwell _ _ Hrow) Hfp) as (c & Hc & Ha & Hs & ? & ?). exists c.
    destruct (rw_current _ Hwell _ _ Hc) as (Hkey & _). unfold bound_certificate. by rewrite Hkey.
  - intros c c' Hb Hb'. pose proof (bound_is_held _ id c row Hwell Hb Hrow) as He. pose proof (bound_is_held _ id c' row Hwell Hb' Hrow) as He'.
    destruct Hb as (Hc & _), Hb' as (Hc' & _). rewrite He in Hc. rewrite He' in Hc'. congruence.
  - intros id' row' Hrow' He Hfp.
    destruct (rw_certificate _ _ _ (rw_row _ Hwell _ _ Hrow) Hfp) as (c & Hc & Ha & _). rewrite <- He in Hfp.
    destruct (rw_certificate _ _ _ (rw_row _ Hwell _ _ Hrow') Hfp) as (c' & Hc' & Ha' & _). rewrite He in Hc'. congruence.
Qed.

Lemma bound_or_none t id row :
  registry_well t → tb_agents t !! id = Some row →
  (∃ c, bound_certificate t id c) ∨ (∀ c, ¬ bound_certificate t id c).
Proof.
  intros Hwell Hrow. destruct (decide (gr_fingerprint row = "")) as [He|He].
  - right. intros c Hb. pose proof (bound_is_held t id c row Hwell Hb Hrow) as Hfp. destruct Hb as (Hc & _).
    destruct (rw_current t Hwell _ _ Hc) as (_ & Hne & _). congruence.
  - left. destruct (rw_certificate _ _ _ (rw_row t Hwell _ _ Hrow) He) as (c & Hc & Ha & Hs & _). exists c.
    destruct (rw_current t Hwell _ _ Hc) as (Hkey & _). unfold bound_certificate. by rewrite Hkey.
Qed.

(** Whom a renewal is granted, and what it leaves bound. *)
Lemma renewal_facts t id asked held t' moved :
  registry_well t → agents_Renew id asked t = (t', Ok moved) → am_identity asked = Some held →
  ∃ row, tb_agents t !! id = Some row ∧ Admits (gr_state row) = true
    ∧ (am_presented asked = gr_fingerprint row
       ∨ am_request asked ≠ "" ∧ ∃ c, bound_certificate t id c ∧ cr_request c = am_request asked ∧ cr_presented c = am_presented asked)
    ∧ tb_agents t' !! id = Some (moved_agent moved row) ∧ a_identity moved = Some held
    ∧ ∃ c', bound_certificate t' id c' ∧ cr_fingerprint c' = id_fingerprint held
        ∧ cr_presented c' = am_presented asked ∧ cr_request c' = am_request asked.
Proof.
  intros Hwell Hrenew Hheld. unfold agents_Renew in Hrenew. pose proof (registry_move_ok _ _ _ _ _ Hrenew) as Hok.
  destruct Hok as (row & line & certificates & Hrow & Happly & Hpos & _ & Hrec & ->). exists row.
  pose proof (rw_row t Hwell id row Hrow) as Hr. rewrite Hrow in Hrenew.
  destruct (move_well t id row _ _ moved Hwell Hrow Hrenew) as (_ & Hid & _ & _ & Hrows & _). cbn [tb_agents] in Hrows.
  change (moving t row (as_renewal asked)) with (with_bound (boundAnswer t (gr_id row)) (as_renewal asked)) in *. rewrite (rw_id _ _ _ Hr) in *.
  destruct (mo_identity _ _ _ (agent_Apply_moved _ _ _ _ Happly) held Hheld) as (Hnew & Hbind & Hgranted).
  destruct (Hgranted eq_refl) as [(from & Hfrom & Hadmits) Hhow]. cbn [restoreAgent a_state a_identity] in *.
  rewrite (proj2 (agent_FromWire_Wire (gr_state row) (agent_Wire (gr_state row)))) in Hfrom by (split; [apply (rw_state _ _ _ Hr) | done]).
  injection Hfrom as <-. split_and!; [done | done | | cbn [tb_agents]; by rewrite Hrows, lookup_insert_eq | done |].
  - destruct Hhow as [Hpres | Hagain]; [left | right].
    + cbn in Hpres. rewrite Hpres. destruct (columns_restored row) as (<- & _). by destruct (restored_identity row).
    + unfold asksAgain in Hagain. cbn [with_bound as_renewal am_request am_bound am_presented] in Hagain.
      apply andb_true_iff in Hagain as [[Hne Hreq]%andb_true_iff Hpres].
      apply negb_true_iff, bool_decide_eq_false in Hne. apply bool_decide_eq_true in Hreq, Hpres. split; [done |].
      destruct (bound_or_none t id row Hwell Hrow) as [[c Hb] | Hnone].
      * rewrite (boundAnswer_some t id c Hwell Hb) in Hreq, Hpres. by exists c.
      * rewrite (boundAnswer_none t id Hnone Hwell) in Hreq. done.
  - unfold Certificate in Hrec. change (am_identity (with_bound _ _)) with (am_identity asked) in Hrec. rewrite Hheld in Hrec.
    apply recordCertificate_some in Hrec. cbv zeta in Hrec. cbn [ce_identity ce_agent] in Hrec. rewrite Hnew in Hrec. cbn [identity_column] in Hrec.
    destruct Hrec as (_ & new & Hnewc & Hkey & Hagent & Hsup & _ & _ & Hpres & Hreq & _). exists new.
    unfold bound_certificate. cbn [tb_certificates]. rewrite Hkey, Hagent. done.
Qed.

Lemma Admits_not_final s : Admits s = true → Final s = false.
Proof. unfold Admits. rewrite orb_true_iff, !bool_decide_eq_true. by intros [-> | ->]. Qed.

Lemma kept_state current move moved line :
  agent_Apply current move = Ok (moved, line) → am_to move = "" → a_state moved = a_state current ∨ a_state moved = agent_Wire Active.
Proof.
  unfold agent_Apply. intros Happly Hto. rewrite Hto, !(bool_decide_true ("" = "")) in Happly by done. cbn [negb andb] in Happly.
  repeat case_match; try done; injection Happly as <- _; cbn; auto.
Qed.

(** A request to renew that is well made: by the agent, with an identity it can be bound to
    and that was never recorded. *)
Record renewable (t : AgentTables) (id : string) (m : AgentMove) (held : CertIdentity) : Prop := {
  rn_identity : am_identity m = Some held;
  rn_binds : Bindable id held (am_at m) = Ok tt;
  rn_fresh : tb_certificates t !! id_fingerprint held = None;
  rn_stays : am_to m = "";
  rn_actor : am_actor m ≠ "";
  rn_expected : am_expected m = 0;
  rn_note : slen (am_note m) ≤ MaxNoteLength;
}.

Lemma renewal_granted_again t id row c asked held :
  registry_well t → tb_agents t !! id = Some row → Admits (gr_state row) = true → gr_revision row + 1 < 2 ^ 63 →
  bound_certificate t id c → renewable t id asked held →
  am_request asked ≠ "" → cr_request c = am_request asked → cr_presented c = am_presented asked →
  ∃ t' moved, agents_Renew id asked t = (t', Ok moved) ∧ a_identity moved = Some held.
Proof.
  intros Hwell Hrow Hadmits Hfits Hb [Hident Hbinds Hfresh Hto Hactor Hexp Hnote] Hreq Hcr Hcp.
  pose proof (rw_row t Hwell id row Hrow) as Hr. unfold agents_Renew, registry_move. rewrite Hrow. cbn [am_renewal as_renewal].
  rewrite (rw_id _ _ _ Hr), (boundAnswer_some t id c Hwell Hb).
  set (move := with_bound _ _). assert (asksAgain move = true) as Hagain.
  { unfold asksAgain. cbn. rewrite bool_decide_false, !bool_decide_true by congruence. done. }
  unfold agent_Apply. cbn [restoreAgent a_state a_revision a_identity a_id].
  rewrite (proj2 (agent_FromWire_Wire (gr_state row) (agent_Wire (gr_state row)))) by (split; [apply (rw_state _ _ _ Hr) | done]).
  rewrite Hagain. cbn [move with_bound as_renewal am_actor am_expected am_note am_identity am_to am_renewal am_at].
  rewrite bool_decide_false by done. rewrite Hexp, Hto, Hident, (rw_id _ _ _ Hr), Hbinds. cbn [Z.eqb negb andb].
  unfold within_length, refuse. rewrite (proj2 (Z.ltb_ge _ _)) by done. cbn [is_ok negb].
  rewrite (bool_decide_true ("" = "")) by done. rewrite (bool_decide_true (is_Some (Some held))) by done. cbn [negb andb].
  rewrite (Admits_not_final _ Hadmits).
  rewrite Hadmits. cbn [negb andb orb]. rewrite !andb_false_r. cbn [a_revision a_identity].
  pose proof (rw_revision _ _ _ Hr) as Hrange. change (2 ^ 63) with 9223372036854775808 in *.
  assert (uint64 (gr_revision row) = gr_revision row) as -> by (unfold wrap_uint; apply Z.mod_small; lia).
  assert (uint64 (gr_revision row + 1) = gr_revision row + 1) as -> by (unfold wrap_uint; apply Z.mod_small; lia).
  assert (int64 (gr_revision row + 1) = gr_revision row + 1) as Hint by (apply int64_id; change (2 ^ 63) with 9223372036854775808; lia). rewrite Hint.
  rewrite (proj2 (Z.leb_gt _ _)) by lia. cbn [a_id identity_column].
  assert (bound_elsewhere t id (id_fingerprint held) = false) as ->.
  { unfold bound_elsewhere. apply andb_false_iff. right. apply not_true_iff_false. intros Hex. apply existsb_exists in Hex as (other & Hin & Ho).
    apply list_elem_of_In in Hin. unfold agent_rows in Hin. apply list_elem_of_fmap in Hin as ([id' other'] & -> & Hin). apply elem_of_map_to_list in Hin.
    apply andb_true_iff in Ho as [_ Hfp%bool_decide_eq_true]. cbn [snd] in *. apply Bindable_fingerprint in Hbinds.
    destruct (rw_certificate _ _ _ (rw_row t Hwell _ _ Hin)) as (c' & Hc' & _); [congruence |]. congruence. }
  unfold Certificate. cbn. rewrite Hident. unfold recordCertificate. cbv zeta. cbn [ce_identity ce_agent identity_column a_identity a_id].
  rewrite lookup_fmap, Hfresh. cbn [fmap option_fmap option_map]. rewrite bool_decide_false by (by intros [? ?]). by eexists _, _.
Qed.

(** C20. A renewal is its asker's alone: once one is granted, a further one is granted only
    to whoever presents the certificate it bound or repeats the very request it answered
    with the certificate that request was sent under; and that request, whose answer may
    have been lost, is granted again when it is well made. *)
Theorem a_renewal_is_its_askers_alone p id asked held t' moved :
  plane_reach p → agents_Renew id asked (pl_tables p) = (t', Ok moved) → am_identity asked = Some held → am_to asked = "" →
  (∀ other bound t'' moved', agents_Renew id other t' = (t'', Ok moved') → am_identity other = Some bound →
     am_presented other = id_fingerprint held
     ∨ am_request other ≠ "" ∧ am_request other = am_request asked ∧ am_presented other = am_presented asked)
  ∧ (∀ again bound, am_request asked ≠ "" → am_request again = am_request asked → am_presented again = am_presented asked →
       renewable t' id again bound → a_revision moved + 1 < 2 ^ 63 →
       ∃ t'' moved', agents_Renew id again t' = (t'', Ok moved') ∧ a_identity moved' = Some bound).
Proof.
  intros Hwell%plane_reach_well Hrenew Hheld Hto. apply pl_registry in Hwell.
  destruct (renewal_facts _ id asked held t' moved Hwell Hrenew Hheld) as (row & Hrow & Hadmits & _ & Hrow' & Hnew & c & Hb & Hfp & Hpres & Hreq).
  destruct (Renew_goes_on id asked _ t' moved Hwell Hrenew) as (Hwell' & _). split.
  - intros other bound t'' moved' Hother Hbound.
    destruct (renewal_facts t' id other bound t'' moved' Hwell' Hother Hbound) as (row' & Hr' & _ & Hhow & _).
    assert (row' = moved_agent moved row) as -> by congruence. pose proof (bound_is_held t' id c _ Hwell' Hb Hrow') as Hbf.
    destruct Hhow as [Hp | (Hne & c' & Hb' & Hrq & Hpr)]; [left; congruence | right].
    assert (c' = c) as ->; [| split_and!; congruence].
    pose proof (bound_is_held t' id c' _ Hwell' Hb' Hrow') as Hbf'. destruct Hb as (Hc & _), Hb' as (Hc' & _). congruence.
  - intros again bound Hne Hr Hp Hrenewable Hfits.
    unfold agents_Renew in Hrenew. rewrite Hrow in Hrenew. pose proof (registry_move_ok _ _ _ _ _ Hrenew) as (row0 & line & cs & [= <-] & Happly & _).
    destruct (move_well _ id row _ t' moved Hwell Hrow Hrenew) as (_ & _ & _ & Hrev & _ & Hrev' & _).
    eapply (renewal_granted_again t' id (moved_agent moved row) c again bound); [done | done | | lia | done | done | congruence | congruence | congruence].
    cbn [moved_agent gr_state]. apply kept_state in Happly as [He | He]; [| | done]; rewrite He; cbn [restoreAgent a_state].
    + by rewrite agent_column_Wire by apply (rw_state _ _ _ (rw_row _ Hwell _ _ Hrow)).
    + done.
Qed.
End reached.

(** ** What compaction keeps of the log *)

(** Of the records of one key, the last one written. *)
Fixpoint compacted (log : list AdmissionRecord) : list AdmissionRecord :=
  match log with
  | [] => []
  | r :: log => if existsb (λ later, bool_decide (ad_agent later = ad_agent r)) log then compacted log else r :: compacted log
  end.

(** The revisions of each agent were written in order. *)
Definition written_in_order (log : list AdmissionRecord) : Prop :=
  ∀ i j r r', log !! i = Some r → log !! j = Some r' → (i ≤ j)%nat → ad_agent r = ad_agent r' → ad_revision r ≤ ad_revision r'.

Lemma compacted_in log r : r ∈ compacted log → r ∈ log.
Proof.
  induction log as [|x log IH]; [done |]. cbn. destruct (existsb _ log); [by right; auto |].
  intros [-> | ?]%elem_of_cons; [by left | right; auto].
Qed.

Lemma compacted_newest log a :
  written_in_order log → (∃ r, r ∈ log ∧ ad_agent r = a) →
  ∃ r', r' ∈ compacted log ∧ ad_agent r' = a ∧ ∀ x, x ∈ log → ad_agent x = a → ad_revision x ≤ ad_revision r'.
Proof.
  induction log as [|x log IH]; intros Horder (r & Hr & Ha); [by apply elem_of_nil in Hr |]. cbn [compacted].
  assert (written_in_order log) as Htail.
  { intros i j r1 r2 H1 H2 Hij. apply (Horder (S i) (S j)); [done | done | lia]. }
  destruct (existsb (λ later, bool_decide (ad_agent later = a)) log) eqn:Hlater.
  - apply existsb_exists in Hlater as (later & Hin%list_elem_of_In & Hsame%bool_decide_eq_true).
    destruct (IH Htail) as (r' & Hr' & Ha' & Hmax); [by exists later |].
    exists r'. split_and!; [by destruct (existsb _ log); [| right] | done |]. intros y Hy Hya. apply elem_of_cons in Hy as [-> | Hy]; [| auto].
    apply compacted_in, list_elem_of_lookup in Hr' as [j Hj]. apply (Horder 0%nat (S j)); [done | done | lia | congruence].
  - assert (∀ y, y ∈ log → ad_agent y ≠ a) as Hnone.
    { intros y Hy He. apply not_true_iff_false in Hlater. apply Hlater, existsb_exists. exists y.
      split; [by apply list_elem_of_In | by apply bool_decide_eq_true]. }
    apply elem_of_cons in Hr as [-> | Hr]; [| by destruct (Hnone r Hr)]. rewrite Ha, Hlater. exists x. split_and!; [by left | done |].
    intros y Hy Hya. apply elem_of_cons in Hy as [-> | Hy]; [done |]. by destruct (Hnone y Hy).
Qed.

(** A log written in order keeps, compacted, what it told: a gateway that starts on what
    compaction left holds what one that read everything holds. *)
Lemma compaction_keeps_what_is_in_order `{!PostgresLaws} p :
  plane_reach p → written_in_order (pl_log p) → read_log (compacted (pl_log p)) = read_log (pl_log p).
Proof.
  intros [Hwell Hdec _]%plane_reach_well Horder. apply map_eq. intros a. rewrite !read_log_verdict.
  destruct (existsb (λ r, bool_decide (ad_agent r = a)) (pl_log p)) eqn:Hany.
  - apply existsb_exists in Hany as (r & Hin%list_elem_of_In & Hr%bool_decide_eq_true).
    destruct (compacted_newest (pl_log p) a Horder) as (top & Htop & Hta & Hmax); [by exists r |].
    destruct (Hdec top (or_introl (compacted_in _ _ Htop))) as (row & line & Hrow & Hten & _ & Hline & Hst). rewrite Hta in *.
    pose proof (opinion_decided (pl_tables p) top a row line Hwell Hrow Hline Hta Hten Hst) as Hop.
    assert (∀ x o, x ∈ pl_log p → opinion a x = Some o → dc_revision o ≤ ad_revision top ∧ (dc_revision o = ad_revision top →
              o = mkDecided (Admits (gl_to line)) (gr_tenant row) (ad_revision top))) as Hall.
    { intros x o Hx Ho. pose proof (opinion_agent _ _ _ Ho) as Hxa.
      destruct (Hdec x (or_introl Hx)) as (row' & line' & Hrow' & Hten' & _ & Hline' & Hst'). rewrite Hxa in *. assert (row' = row) as -> by congruence.
      rewrite (opinion_decided (pl_tables p) x a row line') in Ho by done. injection Ho as <-. cbn [dc_revision]. split; [by apply Hmax |].
      intros He. rewrite He in *. by assert (line' = line) as -> by congruence. }
    rewrite (verdict_top a (mkDecided (Admits (gl_to line)) (gr_tenant row) (ad_revision top)) (pl_log p) Hall) by (exists top; split; [by apply compacted_in | done]).
    apply verdict_top; [| by exists top]. intros x o Hx. by apply Hall, compacted_in.
  - assert (∀ l, (∀ r, r ∈ l → r ∈ pl_log p) → verdict a l = None) as Hnone; [| by rewrite !Hnone; [| auto | apply compacted_in]].
    induction l as [|x l IH]; intros Hl; [done |]. cbn. rewrite IH by (intros; apply Hl; by right).
    destruct (opinion a x) as [o|] eqn:Ho; [exfalso | done]. apply not_true_iff_false in Hany. apply Hany, existsb_exists. exists x.
    split; [apply list_elem_of_In, Hl; by left |]. apply bool_decide_eq_true. by apply opinion_agent in Ho.
Qed.
End announcing.
