(* ===== verification/Guard.v ===== *)
(** * The control plane: sessions, the guard before every route, and the work behind it

    control/sessions.go, guard.go, registry.go and http.go, and the handlers of alerts.go,
    incidents.go and filters.go over the stores of AlertStore.v and IncidentStore.v. A
    request is what the connection verified and what it sent; a message is decoded by a
    parameter. A handler that reads before it writes does both as separate steps, since
    others act in between. Refusals keep their status and code, not their prose. *)

From Stdlib Require Import ZArith Lia Ascii.
From stdpp Require Import base tactics option gmap strings pretty sorting numbers list.
From S2P Require Import Prelude Text Scan Hex Bytes Authz Session Limiter Event Canonical Assessment Rule Contract Detected Triage Alert Listing Trail AlertStore AlertStoreProps Incident IncidentStore.

(** ** Sessions (sessions.go) *)

Definition DefaultPerSubject : Z := 8.
Definition DefaultCapacity : Z := 4096.

Record LiveSession := mkLive { lv_subject : string; lv_issuedAt : instant; lv_expiresAt : instant; lv_binding : string }.

Record SessionStore := mkSessionStore {
  ss_issuer : Issuer; ss_perSubject : Z; ss_capacity : Z;
  ss_live : gmap string LiveSession; ss_holders : gmap string (list string);
}.

Inductive SessionRefusal := Unspendable (why : SessionError) | ErrRevoked | ErrSessionsFull | ErrTooFew.
#[global] Instance SessionRefusal_eq_dec : EqDecision SessionRefusal.
Proof. solve_decision. Defined.

Definition NewSessions (issuer : Issuer) (perSubject capacity : Z) : result SessionRefusal SessionStore :=
  let perSubject := if perSubject <=? 0 then DefaultPerSubject else perSubject in
  let capacity := if capacity <=? 0 then DefaultCapacity else capacity in
  if capacity <? perSubject then Err ErrTooFew
  else Ok (mkSessionStore issuer perSubject capacity ∅ ∅).

Definition with_sessions (live : gmap string LiveSession) (holders : gmap string (list string)) (s : SessionStore) : SessionStore :=
  mkSessionStore (ss_issuer s) (ss_perSubject s) (ss_capacity s) live holders.

Definition held_by (s : SessionStore) (subject : string) : list string := default [] (ss_holders s !! subject).

Definition revokeLocked (id : string) (s : SessionStore) : SessionStore * Z :=
  match ss_live s !! id with
  | None => (s, 0)
  | Some held =>
      let remaining := filter (λ other, other ≠ id) (held_by s (lv_subject held)) in
      (with_sessions (delete id (ss_live s))
         (if bool_decide (remaining = []) then delete (lv_subject held) (ss_holders s)
          else <[lv_subject held := remaining]> (ss_holders s)) s, 1)
  end.

Definition revoke_each (ids : list string) (s : SessionStore) : SessionStore * Z :=
  foldl (λ '(s, ended) id, let '(s', one) := revokeLocked id s in (s', ended + one)) (s, 0) ids.

Definition sessions_Revoke (id : string) (s : SessionStore) : SessionStore * Z := revokeLocked id s.

Definition RevokeSubject (subject : string) (s : SessionStore) : SessionStore * Z := revoke_each (held_by s subject) s.

(** The map is walked in some order; ending one session leaves the others to be reached. *)
Definition sweepLocked (now : instant) (s : SessionStore) : SessionStore * Z :=
  revoke_each (filter (λ '(_, held), negb (before now (lv_expiresAt held))) (map_to_list (ss_live s))).*1 s.

Definition sessions_Live (s : SessionStore) : Z := Z.of_nat (size (ss_live s)).

(** The oldest of a subject's sessions make room for the next. *)
Fixpoint evict_oldest (perSubject : Z) (held : list string) (live : gmap string LiveSession) : gmap string LiveSession * list string :=
  match held with
  | [] => (live, [])
  | oldest :: rest => if perSubject <=? len held then evict_oldest perSubject rest (delete oldest live) else (live, held)
  end.

Section sessions.
Context {hashing : Hashing}.

Definition sessions_Open (subject binding : string) (now : instant) (asked : duration) (drawn : option string) (s : SessionStore)
    : SessionStore * result SessionRefusal (Session * string) :=
  match Issue (ss_issuer s) subject binding now asked drawn with
  | Err e => (s, Err (Unspendable e))
  | Ok (session, token) =>
      let s := (sweepLocked now s).1 in
      let '(live, held) := evict_oldest (ss_perSubject s) (held_by s subject) (ss_live s) in
      if ss_capacity s <=? Z.of_nat (size live) then (with_sessions live (ss_holders s) s, Err ErrSessionsFull)
      else (with_sessions (<[s_id session := mkLive subject (s_issuedAt session) (s_expiresAt session) binding]> live)
              (<[subject := held ++ [s_id session]]> (ss_holders s)) s, Ok (session, token))
  end.

Definition sessions_Verify (token presented : string) (now : instant) (s : SessionStore) : result SessionRefusal Session :=
  match Verify (ss_issuer s) token presented now with
  | Err e => Err (Unspendable e)
  | Ok session =>
      match ss_live s !! s_id session with
      | Some held => if bool_decide (lv_subject held = s_subject session) then Ok session else Err ErrRevoked
      | None => Err ErrRevoked
      end
  end.
End sessions.

Record HeldSession := mkHeldSession { hs_id : string; hs_subject : string; hs_issuedAt : instant; hs_expiresAt : instant }.

Definition sessions_Held (subject : string) (s : SessionStore) : list HeldSession :=
  omap (λ id, (λ one, mkHeldSession id (lv_subject one) (lv_issuedAt one) (lv_expiresAt one)) <$> ss_live s !! id) (held_by s subject).

Definition sessions_Subjects (s : SessionStore) : list string := sort_strings (map_to_list (ss_holders s)).*1.

(** ** What the sessions held come to *)

Record sessions_well (s : SessionStore) : Prop := {
  sw_per : 0 < ss_perSubject s ≤ ss_capacity s;
  sw_size : Z.of_nat (size (ss_live s)) ≤ ss_capacity s;
  sw_holders subject ids : ss_holders s !! subject = Some ids →
    ids ≠ [] ∧ NoDup ids ∧ len ids ≤ ss_perSubject s ∧ ∀ id, id ∈ ids → ∃ l, ss_live s !! id = Some l ∧ lv_subject l = subject;
  sw_live id l : ss_live s !! id = Some l → id ∈ held_by s (lv_subject l);
}.

Lemma held_by_some s subject id : id ∈ held_by s subject → ∃ ids, ss_holders s !! subject = Some ids ∧ id ∈ ids.
Proof. unfold held_by. destruct (ss_holders s !! subject) as [ids|]; cbn; [by exists ids | by intros ?%elem_of_nil]. Qed.

Lemma revokeLocked_well id s : sessions_well s → sessions_well (revokeLocked id s).1.
Proof.
  intros Hwell. unfold revokeLocked. destruct (ss_live s !! id) as [held|] eqn:Hheld; [| done]. cbn [fst].
  destruct Hwell as [Hper Hsize Hholders Hlive].
  pose proof (Hlive id held Hheld) as Hin. apply held_by_some in Hin as (ids & Hids & Hin).
  destruct (Hholders _ _ Hids) as (_ & Hnd & Hlen & Hall).
  assert (held_by s (lv_subject held) = ids) as Hby by (unfold held_by; by rewrite Hids). rewrite Hby.
  set (remaining := filter (λ other, other ≠ id) ids).
  assert (∀ other l, other ≠ id → ss_live s !! other = Some l → lv_subject l = lv_subject held → remaining ≠ []) as Hkept.
  { intros other l Hne Hl Hs Hnil. pose proof (Hlive other l Hl) as Ho. rewrite Hs, Hby in Ho.
    assert (other ∈ remaining) as Hr by (by apply list_elem_of_filter). rewrite Hnil in Hr. by apply elem_of_nil in Hr. }
  split; cbn [with_sessions ss_perSubject ss_capacity ss_live ss_holders]; [done | | |].
  - rewrite map_size_delete, Hheld. lia.
  - intros subject ids'. case_bool_decide as Hnil.
    + intros [Hne Hids']%lookup_delete_Some. destruct (Hholders _ _ Hids') as (? & ? & ? & Hall'). split_and!; try done.
      intros other Ho. destruct (Hall' other Ho) as (l & Hl & Hls). exists l. split; [| done]. rewrite lookup_delete_ne; [done | congruence].
    + intros [[<- <-] | [Hne Hids']]%lookup_insert_Some.
      * split_and!; [done | by apply NoDup_filter | unfold len in *; pose proof (length_filter (λ other, other ≠ id) ids) as Hshort; change (filter (λ other, other ≠ id) ids) with remaining in Hshort; lia |].
        intros other [Hne Ho]%list_elem_of_filter. destruct (Hall other Ho) as (l & Hl & Hls). exists l. by rewrite lookup_delete_ne by done.
      * destruct (Hholders _ _ Hids') as (? & ? & ? & Hall'). split_and!; try done.
        intros other Ho. destruct (Hall' other Ho) as (l & Hl & Hls). exists l. split; [| done]. rewrite lookup_delete_ne; [done | congruence].
  - intros other l [Hne Hl]%lookup_delete_Some. pose proof (Hlive other l Hl) as Ho. unfold held_by. cbn [with_sessions ss_holders].
    destruct (decide (lv_subject l = lv_subject held)) as [He | Hd].
    + rewrite bool_decide_false by (eapply Hkept; eauto). rewrite He, lookup_insert_eq. cbn. apply list_elem_of_filter.
      split; [done |]. by rewrite He, Hby in Ho.
    + case_bool_decide; [rewrite lookup_delete_ne by done | rewrite lookup_insert_ne by done]; done.
Qed.

Lemma revokeLocked_live id s : ss_live (revokeLocked id s).1 = delete id (ss_live s) ∧ ss_perSubject (revokeLocked id s).1 = ss_perSubject s
  ∧ ss_capacity (revokeLocked id s).1 = ss_capacity s ∧ ss_issuer (revokeLocked id s).1 = ss_issuer s.
Proof. unfold revokeLocked. destruct (ss_live s !! id) eqn:Hid; cbn; [done |]. by rewrite delete_id. Qed.

Lemma revoke_each_spec ids : ∀ s n,
  sessions_well s →
  let s' := (foldl (λ '(s, ended) id, let '(s', one) := revokeLocked id s in (s', ended + one)) (s, n) ids).1 in
  sessions_well s' ∧ ss_perSubject s' = ss_perSubject s ∧ ss_capacity s' = ss_capacity s ∧ ss_issuer s' = ss_issuer s
  ∧ ∀ id, ss_live s' !! id = if decide (id ∈ ids) then None else ss_live s !! id.
Proof.
  induction ids as [|x ids IH]; intros s n Hwell; cbn [foldl].
  - by split_and!.
  - destruct (revokeLocked_live x s) as (Hlive & Hper & Hcap & Hiss). pose proof (revokeLocked_well x s Hwell) as Hwell'.
    destruct (revokeLocked x s) as [s1 one]. cbn [fst] in *. destruct (IH s1 (n + one) Hwell') as (Hw & Hp & Hc & Hi & Hl).
    split_and!; [done | congruence | congruence | congruence |]. intros id. rewrite Hl, Hlive.
    destruct (decide (id = x)) as [-> | Hne].
    + rewrite lookup_delete_eq. rewrite (decide_True (P := x ∈ x :: ids)) by (by left). by destruct (decide _).
    + rewrite lookup_delete_ne by done. destruct (decide (id ∈ ids)) as [Hin|Hin];
        [rewrite decide_True by (by right) | rewrite decide_False by (by rewrite elem_of_cons; intros [?|?])]; done.
Qed.

Lemma sweepLocked_spec now s :
  sessions_well s →
  let s' := (sweepLocked now s).1 in
  sessions_well s' ∧ ss_perSubject s' = ss_perSubject s ∧ ss_capacity s' = ss_capacity s ∧ ss_issuer s' = ss_issuer s
  ∧ ∀ id, ss_live s' !! id = (l ← ss_live s !! id; if before now (lv_expiresAt l) then Some l else None).
Proof.
  intros Hwell. unfold sweepLocked, revoke_each. set (ids := (filter _ _).*1).
  destruct (revoke_each_spec ids s 0 Hwell) as (Hw & Hp & Hc & Hi & Hl). split_and!; [done.. |]. intros id. rewrite Hl.
  assert (id ∈ ids ↔ ∃ l, ss_live s !! id = Some l ∧ before now (lv_expiresAt l) = false) as Hin.
  { unfold ids. rewrite list_elem_of_fmap. split.
    - intros ([id' l] & -> & [Hf Hin]%list_elem_of_filter). apply elem_of_map_to_list in Hin. exists l. split; [done |].
      by apply Is_true_true, negb_true_iff in Hf.
    - intros (l & Hl' & Hb). exists (id, l). split; [done |]. apply list_elem_of_filter. rewrite Hb. split; [done |]. by apply elem_of_map_to_list. }
  destruct (ss_live s !! id) as [l|] eqn:Hlook; cbn.
  - destruct (before now (lv_expiresAt l)) eqn:Hb.
    + rewrite decide_False; [done |]. rewrite Hin. intros (l' & ? & ?). congruence.
    + rewrite decide_True; [done |]. apply Hin. by exists l.
  - by destruct (decide _).
Qed.

Lemma evict_spec per held : ∀ live,
  0 < per →
  let '(live', held') := evict_oldest per held live in
  ∃ gone, held = gone ++ held' ∧ len held' < per ∧ (len held < per → gone = [])
    ∧ ∀ id, live' !! id = if decide (id ∈ gone) then None else live !! id.
Proof.
  induction held as [|x held IH]; intros live Hper; cbn [evict_oldest].
  - exists []. split_and!; [done | unfold len; cbn; lia | done |]. intros id. rewrite decide_False; [done | by intros ?%elem_of_nil].
  - destruct (Z.leb_spec per (len (x :: held))) as [Hfull | Hroom].
    + specialize (IH (delete x live) Hper). destruct (evict_oldest per held (delete x live)) as [live' held'].
      destruct IH as (gone & -> & Hlen & _ & Hl). exists (x :: gone). split_and!; [done | done | lia |]. intros id. rewrite Hl.
      destruct (decide (id = x)) as [-> | Hne].
      * rewrite lookup_delete_eq. rewrite (decide_True (P := x ∈ x :: gone)) by (by left). by destruct (decide _).
      * rewrite lookup_delete_ne by done. destruct (decide (id ∈ gone)) as [Hin|Hin];
          [rewrite decide_True by (by right) | rewrite decide_False by (by rewrite elem_of_cons; intros [?|?])]; done.
    + exists []. split_and!; [done | done | done |]. intros id. rewrite decide_False; [done | by intros ?%elem_of_nil].
Qed.

(** ** Runs of a store *)

Inductive SessionOp :=
| OpOpen (subject binding : string) (now : instant) (asked : duration) (drawn : option string)
| OpRevoke (id : string) | OpRevokeSubject (subject : string) | OpSweep (now : instant).

Section runs.
Context {hashing : Hashing}.

Definition session_op (s : SessionStore) (op : SessionOp) : SessionStore :=
  match op with
  | OpOpen subject binding now asked drawn => (sessions_Open subject binding now asked drawn s).1
  | OpRevoke id => (sessions_Revoke id s).1
  | OpRevokeSubject subject => (RevokeSubject subject s).1
  | OpSweep now => (sweepLocked now s).1
  end.

Definition session_run (ops : list SessionOp) (s : SessionStore) : SessionStore := foldl session_op s ops.

(** The identifiers drawn. *)
Definition drawn_by (op : SessionOp) : list string :=
  match op with OpOpen _ _ _ _ (Some raw) => [hex_encode raw] | _ => [] end.
Definition drawn_in (ops : list SessionOp) : list string := mjoin (drawn_by <$> ops).

Lemma open_well subject binding now asked drawn s :
  sessions_well s → (∀ raw, drawn = Some raw → ss_live s !! hex_encode raw = None) →
  let s' := (sessions_Open subject binding now asked drawn s).1 in
  sessions_well s' ∧ ss_issuer s' = ss_issuer s
  ∧ ∀ id, is_Some (ss_live s' !! id) → is_Some (ss_live s !! id) ∨ ∃ raw, drawn = Some raw ∧ id = hex_encode raw.
Proof.
  intros Hwell Hfresh. unfold sessions_Open. destruct (Issue _ _ _ _ _ _) as [[session token]|] eqn:Hissue; [| by split_and!; [| | by left]].
  assert (∃ raw, drawn = Some raw ∧ s_id session = hex_encode raw) as (raw & -> & Hid).
  { unfold Issue in Hissue. repeat case_match; try done. injection Hissue as <- <-. by eexists. }
  specialize (Hfresh raw eq_refl). destruct (sweepLocked_spec now s Hwell) as (Hw & _ & _ & Hi & Hl).
  destruct (sweepLocked now s) as [swept n]. cbn [fst] in *.
  assert (ss_live swept !! hex_encode raw = None) as Hnew by (rewrite Hl, Hfresh; done).
  assert (∀ id, is_Some (ss_live swept !! id) → is_Some (ss_live s !! id)) as Hsub.
  { intros id. rewrite Hl. destruct (ss_live s !! id); [by eexists | by intros [? ?]]. }
  destruct Hw as [Hper Hsize Hholders Hlive]. pose proof (evict_spec (ss_perSubject swept) (held_by swept subject) (ss_live swept) ltac:(lia)) as Hev.
  destruct (evict_oldest _ _ _) as [live held]. destruct Hev as (gone & Hheld & Hlen & Hnone & Hlook).
  assert (∀ id, id ∈ held_by swept subject → ∃ l, ss_live swept !! id = Some l ∧ lv_subject l = subject) as Hall.
  { intros id Hin. apply held_by_some in Hin as (ids & Hids & Hin). destruct (Hholders _ _ Hids) as (_ & _ & _ & Ha). by apply Ha. }
  assert (NoDup (held_by swept subject)) as Hnd.
  { unfold held_by. destruct (ss_holders swept !! subject) eqn:Hh; cbn; [by destruct (Hholders _ _ Hh) as (_ & ? & _) | constructor]. }
  destruct (Z.leb_spec (ss_capacity swept) (Z.of_nat (size live))) as [Hfull | Hroom]; cbn [fst].
  - assert (live = ss_live swept) as ->.
    { destruct gone as [|x gone]; [apply map_eq; intros id; rewrite Hlook, decide_False; [done | by intros ?%elem_of_nil] |]. exfalso.
      assert (live ⊆ delete x (ss_live swept)) as Hless.
      { apply map_subseteq_spec. intros id l. rewrite Hlook. destruct (decide _) as [|Hn]; [done |]. intros Hl'.
        rewrite lookup_delete_ne; [done |]. intros ->. apply Hn. by left. }
      apply map_subseteq_size in Hless. rewrite map_size_delete in Hless.
      destruct (Hall x) as (l & Hx & _); [rewrite Hheld; by left |]. rewrite Hx in Hless.
      assert (size (ss_live swept) ≠ 0%nat) by (intros Hz; apply map_size_empty_inv in Hz; rewrite Hz in Hx; done). lia. }
    split_and!; [by destruct swept; split | done | by left; auto].
  - split_and!; [| done |].
    + split; cbn [with_sessions ss_perSubject ss_capacity ss_live ss_holders]; [done | | |].
      * rewrite map_size_insert_None; [lia |]. rewrite Hlook, Hid, Hnew. by destruct (decide _).
      * intros other ids. rewrite lookup_insert_Some. intros [[<- <-] | [Hne Hids]].
        -- split_and!; [by destruct held | | unfold len in *; rewrite length_app; cbn; lia |].
           ++ apply NoDup_app. split_and!; [rewrite Hheld in Hnd; by apply NoDup_app in Hnd as (_ & _ & ?) | | apply NoDup_singleton].
              intros x Hx ->%list_elem_of_singleton. destruct (Hall (s_id session)) as (l & Hl' & _); [rewrite Hheld; apply elem_of_app; by right |].
              rewrite Hid in Hl'. congruence.
           ++ intros id [Hin | ->%list_elem_of_singleton]%elem_of_app.
              ** destruct (Hall id) as (l & Hl' & Hs); [rewrite Hheld; apply elem_of_app; by right |]. exists l. split; [| done].
                 rewrite lookup_insert_ne by (rewrite Hid; congruence). rewrite Hlook, decide_False; [done |].
                 rewrite Hheld in Hnd. apply NoDup_app in Hnd as (_ & Hdis & _). intros Hg. by apply (Hdis id).
              ** eexists. by rewrite lookup_insert_eq.
        -- destruct (Hholders _ _ Hids) as (? & ? & ? & Ha). split_and!; try done. intros id Hin. destruct (Ha id Hin) as (l & Hl' & Hs).
           exists l. split; [| done]. rewrite lookup_insert_ne by (rewrite Hid; congruence). rewrite Hlook, decide_False; [done |].
           intros Hg. destruct (Hall id) as (l' & Hl'' & Hs'); [rewrite Hheld; apply elem_of_app; by left |]. congruence.
      * intros id l. rewrite lookup_insert_Some. unfold held_by. cbn [with_sessions ss_holders]. intros [[<- <-] | [Hne Hl']].
        -- cbn [lv_subject]. rewrite lookup_insert_eq. cbn. apply elem_of_app. right. by left.
        -- rewrite Hlook in Hl'. destruct (decide (id ∈ gone)) as [|Hng]; [done |]. pose proof (Hlive id l Hl') as Hin.
           destruct (decide (lv_subject l = subject)) as [<- | Hd].
           ++ rewrite lookup_insert_eq. cbn. apply elem_of_app. left. rewrite Hheld in Hin. by apply elem_of_app in Hin as [?|?].
           ++ by rewrite lookup_insert_ne.
    + intros id. cbn [with_sessions ss_live]. rewrite lookup_insert_is_Some. intros [<- | [_ Hl']]; [right; by exists raw | left].
      apply Hsub. rewrite Hlook in Hl'. destruct (decide _); [by destruct Hl' | done].
Qed.

Lemma session_op_well op s :
  sessions_well s → (∀ id, id ∈ drawn_by op → ss_live s !! id = None) →
  sessions_well (session_op s op) ∧ ss_issuer (session_op s op) = ss_issuer s
  ∧ ∀ id, is_Some (ss_live (session_op s op) !! id) → is_Some (ss_live s !! id) ∨ id ∈ drawn_by op.
Proof.
  intros Hwell Hfresh. destruct op as [subject binding now asked drawn | id | subject | now]; cbn [session_op].
  - destruct (open_well subject binding now asked drawn s Hwell) as (Hw & Hi & Hl).
    { intros raw ->. apply Hfresh. by left. }
    split_and!; [done | done |]. intros id [? | (raw & -> & ->)]%Hl; [by left | right; by left].
  - destruct (revokeLocked_live id s) as (Hl & _ & _ & Hi). split_and!; [by apply revokeLocked_well | done |].
    intros other. unfold sessions_Revoke. rewrite Hl. intros [l Hd]. left. apply lookup_delete_Some in Hd as [_ ?]. by exists l.
  - destruct (revoke_each_spec (held_by s subject) s 0 Hwell) as (Hw & _ & _ & Hi & Hl). split_and!; [done | done |].
    intros other. unfold RevokeSubject, revoke_each. rewrite Hl. destruct (decide _); [by intros [? ?] | by left].
  - destruct (sweepLocked_spec now s Hwell) as (Hw & _ & _ & Hi & Hl). split_and!; [done | done |].
    intros other. rewrite Hl. destruct (ss_live s !! other); [by left; eexists | by intros [? ?]].
Qed.

Lemma revoke_each_bounds ids : ∀ s n,
  let s' := (foldl (λ '(s, ended) id, let '(s', one) := revokeLocked id s in (s', ended + one)) (s, n) ids).1 in
  ss_perSubject s' = ss_perSubject s ∧ ss_capacity s' = ss_capacity s.
Proof.
  induction ids as [|x ids IH]; intros s n; [done |]. cbn [foldl]. destruct (revokeLocked_live x s) as (_ & Hp & Hc & _).
  destruct (revokeLocked x s) as [s1 one]. cbn [fst] in *. destruct (IH s1 (n + one)) as [-> ->]. done.
Qed.

Lemma session_op_bounds op s : ss_perSubject (session_op s op) = ss_perSubject s ∧ ss_capacity (session_op s op) = ss_capacity s.
Proof.
  destruct op as [subject binding now asked drawn | id | subject | now]; cbn [session_op].
  - unfold sessions_Open. destruct (Issue _ _ _ _ _ _) as [[session token]|]; [| done].
    destruct (revoke_each_bounds (filter (λ '(_, held), negb (before now (lv_expiresAt held))) (map_to_list (ss_live s))).*1 s 0) as [Hp Hc].
    fold (revoke_each (filter (λ '(_, held), negb (before now (lv_expiresAt held))) (map_to_list (ss_live s))).*1 s) in Hp, Hc.
    fold (sweepLocked now s) in Hp, Hc. destruct (evict_oldest _ _ _). destruct (_ <=? _); done.
  - by destruct (revokeLocked_live id s) as (_ & ? & ? & _).
  - apply revoke_each_bounds.
  - apply revoke_each_bounds.
Qed.

Lemma session_run_well ops : ∀ s,
  sessions_well s → NoDup (drawn_in ops) → (∀ id, id ∈ drawn_in ops → ss_live s !! id = None) →
  sessions_well (session_run ops s) ∧ ss_issuer (session_run ops s) = ss_issuer s
  ∧ ∀ id, is_Some (ss_live (session_run ops s) !! id) → is_Some (ss_live s !! id) ∨ id ∈ drawn_in ops.
Proof.
  induction ops as [|op ops IH]; intros s Hwell Hnd Hfresh; [by split_and!; [| | left] |].
  unfold drawn_in in *. cbn [fmap list_fmap mjoin list_join] in *. apply NoDup_app in Hnd as (_ & Hdis & Hnd).
  destruct (session_op_well op s Hwell) as (Hw & Hi & Hl); [intros; apply Hfresh, elem_of_app; by left |].
  destruct (IH (session_op s op) Hw Hnd) as (Hw' & Hi' & Hl').
  { intros id Hin. apply eq_None_not_Some. intros [Ho | Ho]%Hl; [| by apply (Hdis id)].
    rewrite (Hfresh id) in Ho by (apply elem_of_app; by right). by destruct Ho. }
  change (session_run (op :: ops) s) with (session_run ops (session_op s op)). split_and!; [done | congruence |].
  intros id [[? | ?]%Hl | ?]%Hl'; [by left | right; apply elem_of_app; by left | right; apply elem_of_app; by right].
Qed.

Lemma NewSessions_well issuer perSubject capacity s :
  NewSessions issuer perSubject capacity = Ok s → sessions_well s ∧ ss_live s = ∅.
Proof.
  unfold NewSessions. intros Hnew.
  set (per := if perSubject <=? 0 then DefaultPerSubject else perSubject) in *.
  set (cap := if capacity <=? 0 then DefaultCapacity else capacity) in *.
  assert (0 < per) as Hper by (unfold per, DefaultPerSubject; destruct (Z.leb_spec perSubject 0); lia).
  destruct (Z.ltb_spec cap per); [done |]. injection Hnew as <-. split; [| done].
  split; cbn; [lia | rewrite map_size_empty; lia | intros ? ?; by rewrite lookup_empty | intros ? ?; by rewrite lookup_empty].
Qed.

(** C23. The sessions of a process are an allowlist: whatever is opened, ended and swept, in
    any order, a subject holds at most its share and the process its capacity; a token is
    spent only for a session that is live under the subject it names, and one whose session
    is not live, having been ended, pushed out or swept, is never spent again, whatever is
    opened after. *)
Theorem sessions_are_an_allowlist issuer perSubject capacity s0 before_ops after_ops :
  NewSessions issuer perSubject capacity = Ok s0 → NoDup (drawn_in (before_ops ++ after_ops)) →
  let s := session_run (before_ops ++ after_ops) s0 in
  (∀ subject, len (held_by s subject) ≤ ss_perSubject s0) ∧ sessions_Live s ≤ ss_capacity s0
  ∧ ∀ token presented now session, sessions_Verify token presented now s = Ok session →
      (∃ l, ss_live s !! s_id session = Some l ∧ lv_subject l = s_subject session) ∧ s_id session ∈ held_by s (s_subject session)
      ∧ (ss_live (session_run before_ops s0) !! s_id session = None → s_id session ∈ drawn_in after_ops).
Proof.
  intros [Hwell Hempty]%NewSessions_well Hnd. cbv zeta.
  assert (∀ id, ss_live s0 !! id = None) as Hnone by (intros; by rewrite Hempty).
  destruct (session_run_well (before_ops ++ after_ops) s0 Hwell Hnd (λ id _, Hnone id)) as (Hw & _ & _).
  assert (∀ ops s, ss_perSubject (session_run ops s) = ss_perSubject s ∧ ss_capacity (session_run ops s) = ss_capacity s) as Hsame.
  { intros ops. induction ops as [|op ops IH]; intros s; [done |]. change (session_run (op :: ops) s) with (session_run ops (session_op s op)).
    destruct (IH (session_op s op)) as [-> ->]. apply session_op_bounds. }
  destruct (Hsame (before_ops ++ after_ops) s0) as [Hper Hcap].
  split_and!.
  - intros subject. unfold held_by. destruct (ss_holders _ !! subject) as [ids|] eqn:Hids; cbn.
    + destruct (sw_holders _ Hw _ _ Hids) as (_ & _ & ? & _). lia.
    + destruct (sw_per _ Hwell). unfold len. cbn. lia.
  - unfold sessions_Live. rewrite <- Hcap. apply (sw_size _ Hw).
  - intros token presented now session Hverify.
    assert (∃ l, ss_live (session_run (before_ops ++ after_ops) s0) !! s_id session = Some l ∧ lv_subject l = s_subject session) as (l & Hl & Hs).
    { unfold sessions_Verify in Hverify. destruct (Verify _ _ _ _) as [session'|]; [| done].
      destruct (ss_live _ !! s_id session') as [l|] eqn:Hl; [| done]. case_bool_decide; [| done]. injection Hverify as <-. by exists l. }
    split_and!; [by exists l | rewrite <- Hs; by apply (sw_live _ Hw) |]. intros Hgone. unfold session_run in Hl. rewrite foldl_app in Hl. fold (session_run before_ops s0) in Hl. fold (session_run after_ops (session_run before_ops s0)) in Hl.
    unfold drawn_in in Hnd. rewrite fmap_app, join_app in Hnd. apply NoDup_app in Hnd as (Hnd1 & Hdis & Hnd2).
    destruct (session_run_well before_ops s0 Hwell Hnd1 (λ id _, Hnone id)) as (Hw1 & _ & Hl1).
    destruct (session_run_well after_ops (session_run before_ops s0) Hw1 Hnd2) as (_ & _ & Hl2).
    { intros id Hin. apply eq_None_not_Some. intros [[? ?] | Ho]%Hl1; [by rewrite Hnone in * | by apply (Hdis id)]. }
    destruct (Hl2 (s_id session)) as [[? ?] | ?]; [by rewrite Hl; eexists | congruence | done].
Qed.
End runs.

(** ** The guard (guard.go) *)

Record Refusal := mkRefusal { rf_status : Z; rf_code : string }.
#[global] Instance Refusal_eq_dec : EqDecision Refusal.
Proof. solve_decision. Defined.

Definition CodeNoCertificate : string := "no_client_certificate".
Definition CodeUnknownSubject : string := "unknown_subject".
Definition CodeNoSession : string := "no_session".
Definition CodeInvalidToken : string := "invalid_token".
Definition CodeSessionExpired : string := "session_expired".
Definition CodeSessionRevoked : string := "session_revoked".
Definition CodeWrongCertificate : string := "wrong_certificate".
Definition CodeNoGrant : string := "no_grant".
Definition CodeForbidden : string := "forbidden".
Definition CodeRateLimited : string := "rate_limited".
Definition CodeUnguarded : string := "route_unguarded".
Definition CodeUnknownAlert : string := "unknown_alert".
Definition CodeAlertMoved : string := "alert_moved".
Definition CodeIllegalMove : string := "illegal_move".
Definition CodeHeldByAnother : string := "alert_held_by_another".
Definition CodeBadCursor : string := "invalid_cursor".
Definition CodeUnknownFilter : string := "unknown_filter".
Definition CodeAlertsUnavailable : string := "alerts_unavailable".
Definition CodeUnknownIncident : string := "unknown_incident".
Definition CodeIncidentMoved : string := "incident_moved".
Definition CodeStoryHeldByAnother : string := "incident_held_by_another".
Definition CodeIncidentsUnavailable : string := "incidents_unavailable".
Definition MaxBodyBytes : Z := 4096.

Inductive Need := needNothing | needCertificate | needSession | needPermission.
#[global] Instance Need_eq_dec : EqDecision Need.
Proof. solve_decision. Defined.

Record Requirement := mkRequirement { rq_need : Need; rq_permission : Permission }.
Definition no_permission : Permission := mkPermission "" "".
Definition requires_Certificate : Requirement := mkRequirement needCertificate no_permission.
Definition requires_Session : Requirement := mkRequirement needSession no_permission.
Definition Permits (resource : Resource) (action : Action) : Requirement := mkRequirement needPermission (mkPermission resource action).
Definition requirement_valid (r : Requirement) : bool := negb (bool_decide (rq_need r = needNothing)).

(** What a connection verified and a request says: the chains, leaf first, each certificate
    its common name and its bytes; the header [Authorization]; the body. *)
Record ControlRequest := mkControlRequest {
  cq_chains : list (list (string * string)); cq_authorization : string; cq_body : string;
}.

Definition clientCertificate (r : ControlRequest) : option (string * string) := chain ← head (cq_chains r); head chain.

Definition bearer (r : ControlRequest) : option string :=
  let written := cq_authorization r in
  if bool_decide (written = "") then None
  else
    let '(scheme, token, found) := Cut written " " in
    if negb found || negb (bool_decide (ToLower scheme = "bearer")) || bool_decide (token = "") then Some written
    else Some (TrimSpace token).

Record Caller := mkCaller { cl_subject : string; cl_session : option Session; cl_grant : Grant; cl_binding : string }.

Section guard.
Context {hashing : Hashing} {rate : RateLimiter}.

Definition tokenRefusal (e : SessionRefusal) : Refusal :=
  match e with
  | Unspendable ErrSessionExpired => mkRefusal 401 CodeSessionExpired
  | ErrRevoked => mkRefusal 401 CodeSessionRevoked
  | Unspendable ErrWrongCertificate => mkRefusal 401 CodeWrongCertificate
  | _ => mkRefusal 401 CodeInvalidToken
  end.

(** The session a request spends, if it offers one. *)
Definition spent_session (s : SessionStore) (now : instant) (subject binding : string) (requirement : Requirement) (r : ControlRequest)
    : result Refusal (option Session) :=
  match bearer r with
  | Some token =>
      match sessions_Verify token binding now s with
      | Err e => Err (tokenRefusal e)
      | Ok session =>
          if negb (bool_decide (s_subject session = subject)) then Err (mkRefusal 401 CodeWrongCertificate) else Ok (Some session)
      end
  | None => if bool_decide (rq_need requirement = needCertificate) then Ok None else Err (mkRefusal 401 CodeNoSession)
  end.

(** The policy is the one the registry pins at this request. *)
Definition guard_admit (s : SessionStore) (policy : Policy) (now : instant) (requirement : Requirement) (r : ControlRequest)
    (limiter : option Limiter) : option Limiter * result Refusal Caller :=
  if negb (requirement_valid requirement) then (limiter, Err (mkRefusal 500 CodeUnguarded))
  else match clientCertificate r with
  | None => (limiter, Err (mkRefusal 401 CodeNoCertificate))
  | Some (subject, raw) =>
      let binding := Fingerprint (Some raw) in
      if negb (ValidSubject subject) then (limiter, Err (mkRefusal 401 CodeUnknownSubject))
      else
        let '(limiter, allowed) := Allow subject now limiter in
        if negb allowed then (limiter, Err (mkRefusal 429 CodeRateLimited))
        else (limiter,
          match spent_session s now subject binding requirement r with
          | Err e => Err e
          | Ok session =>
              match policy_Grant policy subject with
              | Err _ => Err (mkRefusal 403 CodeNoGrant)
              | Ok grant =>
                  if negb (bool_decide (rq_need requirement = needPermission)) || decision_Allowed (grant_Decide grant (rq_permission requirement))
                  then Ok (mkCaller subject session grant binding)
                  else Err (mkRefusal 403 CodeForbidden)
              end
          end)
  end.

(** What an admitted caller is: the certificate's subject, under a session it holds where
    the route asks for one, granted what the policy in force grants it, and allowed what
    the route asks. *)
Record admitted_caller (s : SessionStore) (policy : Policy) (now : instant) (requirement : Requirement) (r : ControlRequest) (caller : Caller) : Prop := {
  ac_certificate : ∃ raw, clientCertificate r = Some (cl_subject caller, raw) ∧ cl_binding caller = Sum256 raw;
  ac_subject : ValidSubject (cl_subject caller) = true;
  ac_session : match cl_session caller with
    | Some session => s_subject session = cl_subject caller
        ∧ ∃ token, bearer r = Some token ∧ sessions_Verify token (cl_binding caller) now s = Ok session
    | None => rq_need requirement = needCertificate
    end;
  ac_grant : policy_Grant policy (cl_subject caller) = Ok (cl_grant caller);
  ac_allowed : rq_need requirement = needPermission → decision_Allowed (grant_Decide (cl_grant caller) (rq_permission requirement)) = true;
}.

Lemma guard_admits s policy now requirement r limiter limiter' caller :
  guard_admit s policy now requirement r limiter = (limiter', Ok caller) → admitted_caller s policy now requirement r caller.
Proof.
  unfold guard_admit. destruct (negb (requirement_valid requirement)); [done |].
  destruct (clientCertificate r) as [[subject raw]|] eqn:Hcert; [| done]. cbv zeta.
  destruct (ValidSubject subject) eqn:Hsub; [| done]. cbn [negb]. destruct (Allow subject now limiter) as [l [|]]; [| done]. cbn [negb].
  destruct (spent_session s now subject _ requirement r) as [session|] eqn:Hspent; [| done].
  destruct (policy_Grant policy subject) as [grant|] eqn:Hgrant; [| done].
  destruct (negb _ || _) eqn:Hallowed; [| done]. intros [= _ <-]. split; cbn [cl_subject cl_session cl_grant cl_binding]; [by exists raw | done | | done |].
  - unfold spent_session in Hspent. destruct (bearer r) as [token|] eqn:Hb.
    + destruct (sessions_Verify token _ now s) as [session'|] eqn:Hv; [| done].
      destruct (bool_decide_reflect (s_subject session' = subject)); [| done]. injection Hspent as <-. split; [done |]. by exists token.
    + destruct (bool_decide_reflect (rq_need requirement = needCertificate)); [| done]. by injection Hspent as <-.
  - intros Hneed. rewrite bool_decide_true in Hallowed by done. done.
Qed.
End guard.

(** ** Bodies and filters (http.go, filters.go) *)

Definition readWithin {A} (decode : string → option A) (nothing : A) (ceiling : Z) (body : string) : result Refusal A :=
  if ceiling <? slen body then Err (mkRefusal 413 "body_too_large")
  else if bool_decide (body = "") then Ok nothing
  else match decode body with Some asked => Ok asked | None => Err (mkRefusal 400 "unreadable_request") end.

Definition severity_filters (asked : list WireSeverity) : bool :=
  forallb (λ s, match s with SEVERITY_UNSPECIFIED | SEVERITY_OTHER _ => false | _ => true end) asked.

Definition alertFilters (asked : AlertQuery) : bool :=
  forallb (λ s, bool_decide (is_Some (FromWire s))) (aq_states asked) && severity_filters (aq_severities asked).

Definition incidentFilters (asked : IncidentQuery) : bool :=
  forallb (λ s, bool_decide (is_Some (FromWire s))) (iq_states asked)
  && forallb (λ level, match level with CONFIDENCE_UNSPECIFIED | CONFIDENCE_OTHER _ => false | _ => true end) (iq_confidences asked)
  && severity_filters (iq_severities asked).

(** ** Alerts (alerts.go) *)

Definition refuseAlert (e : AlertStoreError) : Refusal :=
  match e with
  | ErrUnknownAlert => mkRefusal 404 CodeUnknownAlert
  | StoreMove (ErrMoved _ _) => mkRefusal 409 CodeAlertMoved
  | ErrCursor => mkRefusal 400 CodeBadCursor
  | StoreMove why => if Refused why then mkRefusal 422 CodeIllegalMove else mkRefusal 503 CodeAlertsUnavailable
  | StoreFails => mkRefusal 503 CodeAlertsUnavailable
  end.

Definition answered_as {E A} (refuse : E → Refusal) (r : result E A) : result Refusal A :=
  match r with Ok a => Ok a | Err e => Err (refuse e) end.

Definition tenants_of (caller : Caller) : list string := g_tenants (cl_grant caller).

Definition may (caller : Caller) (resource : Resource) (action : Action) : bool :=
  decision_Allowed (grant_Decide (cl_grant caller) (mkPermission resource action)).

Section work.
Context {contract : Contract} {values : ClassValues} {postgres : Postgres}.

(** A handler reads the caller the guard left with the request. *)
Definition with_caller {A} (caller : option Caller) (k : Caller → result Refusal A) : result Refusal A :=
  match caller with Some caller => k caller | None => Err (mkRefusal 401 CodeNoSession) end.

Definition searchAlerts (decode : string → option AlertQuery) (nothing : AlertQuery) (caller : option Caller) (body : string) (t : AlertTables)
    : result Refusal (list (Tracked AlertAbout) * string) :=
  with_caller caller (λ caller,
    match readWithin decode nothing MaxBodyBytes body with
    | Err e => Err e
    | Ok asked =>
        if negb (alertFilters asked) then Err (mkRefusal 422 CodeUnknownFilter)
        else answered_as refuseAlert (alerts_Page t asked (tenants_of caller))
    end).

Definition describeAlert (caller : option Caller) (id : string) (t : AlertTables) : result Refusal (Tracked AlertAbout) :=
  with_caller caller (λ caller, answered_as refuseAlert (alerts_Alert t id (tenants_of caller))).

Definition alertHistory (caller : option Caller) (id : string) (t : AlertTables) : result Refusal (list Transition) :=
  with_caller caller (λ caller, answered_as refuseAlert (alerts_History t id (tenants_of caller))).

Definition alertOccurrences (caller : option Caller) (id : string) (t : AlertTables) : result Refusal (list Occurrence) :=
  with_caller caller (λ caller, answered_as refuseAlert (alerts_Occurrences t id (tenants_of caller))).

(** What both handlers of a move decide of what they read: whether the caller may act on
    what another holds, and the move as it is sent to the store. *)
Definition acted (caller : Caller) (now : instant) (revision : Z) (asked : Move) : Move :=
  mkMove (mv_to asked) (mv_assignee asked) (mv_note asked) (cl_subject caller) now
    (if mv_expected asked =? 0 then revision else mv_expected asked).

Definition held_by_another {A} (resource : Resource) (caller : Caller) (held : Tracked A) : bool :=
  negb (bool_decide (tr_assignee held = "")) && negb (bool_decide (tr_assignee held = cl_subject caller)) && negb (may caller resource Delete).

Definition move_decided (caller : Caller) (id : string) (asked : Move) (now : instant) (t : AlertTables) : result Refusal Move :=
  match alerts_Alert t id (tenants_of caller) with
  | Err e => Err (refuseAlert e)
  | Ok held =>
      if held_by_another Alerts caller held then Err (mkRefusal 403 CodeHeldByAnother)
      else Ok (acted caller now (tr_revision held) asked)
  end.

Definition move_written (caller : Caller) (id : string) (asked : Move) (t : AlertTables) : AlertTables * result Refusal (Tracked AlertAbout) :=
  let '(t, moved) := alerts_Move id (tenants_of caller) asked t in (t, answered_as refuseAlert moved).

(** [move]: read in one state of the tables, written in another. *)
Definition move_alert (caller : option Caller) (id : string) (asked : Move) (now : instant) (reading writing : AlertTables)
    : AlertTables * result Refusal (Tracked AlertAbout) :=
  match with_caller caller (λ caller, match move_decided caller id asked now reading with Ok m => Ok (caller, m) | Err e => Err e end) with
  | Err e => (writing, Err e)
  | Ok (caller, asked) => move_written caller id asked writing
  end.

Record TransitionRequest := mkTransitionRequest { tq_to : WireState; tq_note : string; tq_expected : Z }.
Record AssignmentRequest := mkAssignmentRequest { sq_assignee : string; sq_note : string; sq_expected : Z }.

Definition transitionAlert (decode : string → option TransitionRequest) (caller : option Caller) (id body : string) (now : instant)
    (reading writing : AlertTables) : AlertTables * result Refusal (Tracked AlertAbout) :=
  match readWithin decode (mkTransitionRequest STATE_UNSPECIFIED "" 0) MaxBodyBytes body with
  | Err e => (writing, Err e)
  | Ok asked =>
      match FromWire (tq_to asked) with
      | None => (writing, Err (mkRefusal 422 CodeIllegalMove))
      | Some to => move_alert caller id (mkMove to None (tq_note asked) "" 0 (tq_expected asked)) now reading writing
      end
  end.

Definition assignAlert (decode : string → option AssignmentRequest) (caller : option Caller) (id body : string) (now : instant)
    (reading writing : AlertTables) : AlertTables * result Refusal (Tracked AlertAbout) :=
  match readWithin decode (mkAssignmentRequest "" "" 0) MaxBodyBytes body with
  | Err e => (writing, Err e)
  | Ok asked => move_alert caller id (mkMove "" (Some (sq_assignee asked)) (sq_note asked) "" 0 (sq_expected asked)) now reading writing
  end.

(** ** Incidents (incidents.go) *)

Definition refuseIncident (e : IncidentError) : Refusal :=
  match e with
  | ErrUnknownIncident => mkRefusal 404 CodeUnknownIncident
  | IncidentMove (ErrMoved _ _) => mkRefusal 409 CodeIncidentMoved
  | ErrIncidentCursor => mkRefusal 400 CodeBadCursor
  | IncidentMove why => if Refused why then mkRefusal 422 CodeIllegalMove else mkRefusal 503 CodeIncidentsUnavailable
  | IncidentFails => mkRefusal 503 CodeIncidentsUnavailable
  end.

Definition searchIncidents (decode : string → option IncidentQuery) (nothing : IncidentQuery) (caller : option Caller) (body : string) (t : IncidentTables)
    : result Refusal (list (Tracked IncidentAbout) * string) :=
  with_caller caller (λ caller,
    match readWithin decode nothing MaxBodyBytes body with
    | Err e => Err e
    | Ok asked =>
        if negb (incidentFilters asked) then Err (mkRefusal 422 CodeUnknownFilter)
        else answered_as refuseIncident (incidents_Page t asked (tenants_of caller))
    end).

Definition describeIncident (caller : option Caller) (id : string) (t : IncidentTables) : result Refusal (Tracked IncidentAbout) :=
  with_caller caller (λ caller, answered_as refuseIncident (incidents_Incident t id (tenants_of caller))).

Definition incidentHistory (caller : option Caller) (id : string) (t : IncidentTables) : result Refusal (list Transition) :=
  with_caller caller (λ caller, answered_as refuseIncident (incidents_History t id (tenants_of caller))).

Definition moveIncident (caller : option Caller) (id : string) (asked : Move) (now : instant) (reading writing : IncidentTables)
    : IncidentTables * result Refusal (Tracked IncidentAbout) :=
  match with_caller caller (λ caller,
    match incidents_Incident reading id (tenants_of caller) with
    | Err e => Err (refuseIncident e)
    | Ok held =>
        if held_by_another Incidents caller held then Err (mkRefusal 403 CodeStoryHeldByAnother)
        else Ok (caller, acted caller now (tr_revision held) asked)
    end) with
  | Err e => (writing, Err e)
  | Ok (caller, asked) => let '(t, moved) := incidents_Move id (tenants_of caller) asked writing in (t, answered_as refuseIncident moved)
  end.

Definition transitionIncident (decode : string → option TransitionRequest) (caller : option Caller) (id body : string) (now : instant)
    (reading writing : IncidentTables) : IncidentTables * result Refusal (Tracked IncidentAbout) :=
  match readWithin decode (mkTransitionRequest STATE_UNSPECIFIED "" 0) MaxBodyBytes body with
  | Err e => (writing, Err e)
  | Ok asked =>
      match FromWire (tq_to asked) with
      | None => (writing, Err (mkRefusal 422 CodeIllegalMove))
      | Some to => moveIncident caller id (mkMove to None (tq_note asked) "" 0 (tq_expected asked)) now reading writing
      end
  end.

Definition assignIncident (decode : string → option AssignmentRequest) (caller : option Caller) (id body : string) (now : instant)
    (reading writing : IncidentTables) : IncidentTables * result Refusal (Tracked IncidentAbout) :=
  match readWithin decode (mkAssignmentRequest "" "" 0) MaxBodyBytes body with
  | Err e => (writing, Err e)
  | Ok asked => moveIncident caller id (mkMove "" (Some (sq_assignee asked)) (sq_note asked) "" 0 (sq_expected asked)) now reading writing
  end.
End work.

(** ** Sessions over HTTP (http.go) *)

Section session_routes.
Context {hashing : Hashing}.

Definition openSession (decode : string → option duration) (caller : option Caller) (body : string) (now : instant) (drawn : option string)
    (s : SessionStore) : SessionStore * result Refusal (Session * string) :=
  match caller with
  | None => (s, Err (mkRefusal 401 CodeNoCertificate))
  | Some caller =>
      match readWithin decode 0 MaxBodyBytes body with
      | Err e => (s, Err e)
      | Ok asked =>
          let '(s, opened) := sessions_Open (cl_subject caller) (cl_binding caller) now asked drawn s in
          (s, answered_as (λ _, mkRefusal 503 "session_refused") opened)
      end
  end.

(** A caller ends its own session, or another's where it holds sessions:delete. *)
Definition revokeSession (decode : string → option string) (caller : option Caller) (body : string) (s : SessionStore) : SessionStore * result Refusal Z :=
  match caller with
  | None => (s, Err (mkRefusal 401 CodeNoSession))
  | Some caller =>
      match readWithin decode "" MaxBodyBytes body with
      | Err e => (s, Err e)
      | Ok asked =>
          let own := match cl_session caller with Some session => s_id session | None => "" end in
          if bool_decide (asked = "") || bool_decide (asked = own) then
            let '(s, ended) := sessions_Revoke own s in (s, Ok ended)
          else if negb (may caller Sessions Delete) then (s, Err (mkRefusal 403 CodeForbidden))
          else let '(s, ended) := sessions_Revoke asked s in (s, Ok ended)
      end
  end.

Definition listSessions (caller : option Caller) (asked : string) (s : SessionStore) : result Refusal (list HeldSession) :=
  with_caller caller (λ caller,
    let subject := if bool_decide (asked = "") then cl_subject caller else asked in
    if negb (bool_decide (subject = cl_subject caller)) && negb (may caller Sessions Read) then Err (mkRefusal 403 CodeForbidden)
    else Ok (sessions_Held subject s)).
End session_routes.

(** ** The alert routes behind the guard (alerts.go, guard.go) *)

(** The messages of the contract, read by its library. *)
Class AlertMessages := {
  read_query : string → option AlertQuery;
  read_transition : string → option TransitionRequest;
  read_assignment : string → option AssignmentRequest;
}.

Inductive AlertRoute := alert_search | alert_describe (id : string) | alert_history (id : string) | alert_occurrences (id : string)
| alert_transition (id : string) | alert_assign (id : string).

Inductive AlertAnswer := AnswerPage (found : list (Tracked AlertAbout)) (next : string) | AnswerAlert (one : Tracked AlertAbout)
| AnswerHistory (lines : list Transition) | AnswerOccurrences (made_of : list Occurrence) | AnswerMoved (moved : Tracked AlertAbout).

Definition alertRoutes (route : AlertRoute) : Requirement :=
  match route with
  | alert_search | alert_describe _ | alert_history _ | alert_occurrences _ => Permits Alerts Read
  | alert_transition _ | alert_assign _ => Permits Alerts Write
  end.

Definition no_query : AlertQuery := mkAlertQuery None None [] [] "" "" "" 0 "".

Section routes.
Context {hashing : Hashing} {rate : RateLimiter} {messages : AlertMessages}.
Context {contract : Contract} {values : ClassValues} {postgres : Postgres}.

Definition reading_of {A} (k : A → AlertAnswer) (t : AlertTables) (r : result Refusal A) : AlertTables * result Refusal AlertAnswer :=
  (t, match r with Ok a => Ok (k a) | Err e => Err e end).

Definition moving_of (r : AlertTables * result Refusal (Tracked AlertAbout)) : AlertTables * result Refusal AlertAnswer :=
  (r.1, match r.2 with Ok a => Ok (AnswerMoved a) | Err e => Err e end).

Definition alert_handler (route : AlertRoute) (caller : option Caller) (body : string) (now : instant) (reading writing : AlertTables)
    : AlertTables * result Refusal AlertAnswer :=
  match route with
  | alert_search => reading_of (λ '(found, next), AnswerPage found next) writing (searchAlerts read_query no_query caller body reading)
  | alert_describe id => reading_of AnswerAlert writing (describeAlert caller id reading)
  | alert_history id => reading_of AnswerHistory writing (alertHistory caller id reading)
  | alert_occurrences id => reading_of AnswerOccurrences writing (alertOccurrences caller id reading)
  | alert_transition id => moving_of (transitionAlert read_transition caller id body now reading writing)
  | alert_assign id => moving_of (assignAlert read_assignment caller id body now reading writing)
  end.

(** [Handle]: a request the guard refuses never reaches its handler. What a handler reads
    is one state of the tables and what it writes is a later one. *)
Definition serve_alert (s : SessionStore) (policy : Policy) (now : instant) (route : AlertRoute) (r : ControlRequest)
    (limiter : option Limiter) (reading writing : AlertTables) : option Limiter * (AlertTables * result Refusal AlertAnswer) :=
  let '(limiter, admitted) := guard_admit s policy now (alertRoutes route) r limiter in
  (limiter, match admitted with
            | Err e => (writing, Err e)
            | Ok caller => alert_handler route (Some caller) (cq_body r) now reading writing
            end).

(** ** What happens between a read and a write *)

(** Batches of detections considered, and moves. *)
Inductive alerts_onward : AlertTables → AlertTables → Prop :=
| onward_recorded now candidates t t' answer : Forall considered candidates → alerts_Record now candidates t = (t', answer) → alerts_onward t t'
| onward_moved id tenants asked t t' answer : alerts_Move id tenants asked t = (t', answer) → alerts_onward t t'.

(** A row later on: at the revision it was at, with the same holder, or at a later one. *)
Definition row_onward (row row' : AlertRow) : Prop :=
  ar_tenant row' = ar_tenant row
  ∧ (ar_revision row' = ar_revision row ∧ ar_assignee row' = ar_assignee row ∨ ar_revision row < ar_revision row').

#[global] Instance row_onward_preorder : PreOrder row_onward.
Proof.
  split.
  - intros row. by split; [| left].
  - intros a b c [Hab Hab'] [Hbc Hbc']. split; [congruence |]. destruct Hab' as [[? ?]|?], Hbc' as [[? ?]|?];
      [left; split; congruence | right; lia | right; lia | right; lia].
Qed.

Definition rows_onward (t t' : AlertTables) : Prop :=
  ∀ id row, tb_alerts t !! id = Some row → ∃ row', tb_alerts t' !! id = Some row' ∧ row_onward row row'.

#[global] Instance rows_onward_preorder : PreOrder rows_onward.
Proof.
  split.
  - intros t id row Hrow. by exists row.
  - intros a b c Hab Hbc id row Hrow. destruct (Hab id row Hrow) as (row1 & Hrow1 & H1).
    destruct (Hbc id row1 Hrow1) as (row2 & Hrow2 & H2). exists row2. split; [done | by trans row1].
Qed.

Lemma rows_onward_insert t t' id row :
  tb_alerts t' = <[id := row]> (tb_alerts t) → (∀ old, tb_alerts t !! id = Some old → row_onward old row) → rows_onward t t'.
Proof.
  intros Ht Hnew id' row' Hrow'. rewrite Ht. destruct (decide (id' = id)) as [-> | Hne].
  - exists row. rewrite lookup_insert_eq. eauto.
  - exists row'. by rewrite lookup_insert_ne.
Qed.

Context `{!PostgresLaws}.

Lemma record_one_onward now c t t' outcome : sound t → considered c → record_one now c t = Ok (t', outcome) → rows_onward t t'.
Proof.
  intros Hs Hc. unfold record_one. destruct (alreadyFolded t (ca_detection c)) eqn:Hfolded; [by intros [= <- _] |].
  apply alreadyFolded_false in Hfolded. destruct (raise_new t c Hs Hc Hfolded) as [Hnone _].
  assert (rows_onward t (raise_alert now c t)) as Hraise.
  { rewrite raise_alert_new by done. eapply rows_onward_insert; [done |]. intros old. by rewrite Hnone. }
  destruct (openAlert t c) as [row|] eqn:Hopen.
  - destruct (openAlert_row t c row Hs Hopen) as (Hrow & _). destruct (negb _); [| by intros [= <- _]].
    destruct (2 ^ 63 <=? _); [done |]. intros [= <- _]. eapply rows_onward_insert; [done |].
    intros old. rewrite Hrow. intros [= <-]. by split; [| left].
  - destruct (_ && _); by intros [= <- _].
Qed.

Lemma record_each_onward now candidates : ∀ t t' outcomes,
  sound t → Forall considered candidates → record_each now candidates t = Ok (t', outcomes) → sound t' ∧ rows_onward t t'.
Proof.
  induction candidates as [|c candidates IH]; intros t t' outcomes Hs Hall Hrecord; cbn in Hrecord.
  { by injection Hrecord as <- _. }
  apply Forall_cons in Hall as [Hc Hall]. destruct (record_one now c t) as [[t1 outcome]|] eqn:Hone; [| done].
  destruct (record_each now candidates t1) as [[t2 rest]|] eqn:Hrest; [| done]. injection Hrecord as <- _.
  destruct (record_one_sound t c now t1 outcome Hs Hc Hone) as [Hs1 _]. destruct (IH t1 t2 rest Hs1 Hall Hrest) as [Hs2 Hrows].
  split; [done |]. trans t1; [by eapply record_one_onward | done].
Qed.

Lemma move_onward id tenants asked t t' answer : sound t → alerts_Move id tenants asked t = (t', answer) → rows_onward t t'.
Proof.
  intros Hs. unfold alerts_Move. destruct (tb_alerts t !! id) as [row|] eqn:Hrow; [| by intros [= <- _]].
  destruct (negb _); [by intros [= <- _] |]. destruct (Apply (restore_alert row) asked) as [[moved line]|] eqn:Happly; [| by intros [= <- _]].
  destruct (Z.leb_spec (int64 (tr_revision moved)) 0) as [|Hpos]; [by intros [= <- _] |]. intros [= <- _].
  pose proof (moved_next (restore_alert row) moved (tb_trail t) id (alert_standing row) asked line (so_life t Hs id row Hrow)
    (so_id t Hs id row Hrow) eq_refl eq_refl Happly Hpos) as Hnext. cbv zeta in Hnext. destruct Hnext as (Hid & _ & _ & Hrev & _).
  eapply rows_onward_insert; [done |]. intros old. rewrite Hid, Hrow. intros [= <-]. split; [done |]. right.
  cbn [moved_row ar_revision]. rewrite Hrev. cbn. lia.
Qed.

Lemma onward_rows t t' : rtc alerts_onward t t' → sound t → sound t' ∧ rows_onward t t'.
Proof.
  induction 1 as [t | t t1 t2 Hstep _ IH]; intros Hs; [done |].
  assert (sound t1 ∧ rows_onward t t1) as [Hs1 Hrows].
  { destruct Hstep as [now candidates t t1 answer Hall Hrec | id tenants asked t t1 answer Hmove].
    - unfold alerts_Record in Hrec. destruct (record_each now candidates t) as [[t'' outcomes]|] eqn:Heach; injection Hrec as <- _;
        [by eapply record_each_onward | done].
    - split; [by eapply move_sound | by eapply move_onward]. }
  destruct (IH Hs1) as [? ?]. split; [done | by trans t1].
Qed.

(** ** What an answer shows and what it changes *)

Lemma alerts_Alert_within t id tenants one :
  alerts_Alert t id tenants = Ok one → ∃ row, tb_alerts t !! id = Some row ∧ one = restore_alert row ∧ ar_tenant row ∈ tenants.
Proof.
  unfold alerts_Alert. destruct (tb_alerts t !! id) as [row|]; [| done]. case_bool_decide; [| done]. intros [= <-]. by exists row.
Qed.

Lemma page_sees {A K E} (key : A → K) precedes (decode : string → result E K) encode rows sees cursor limit found next :
  page key precedes decode encode rows sees cursor limit = Ok (found, next) → ∀ row, row ∈ found → row ∈ rows ∧ sees row = true.
Proof.
  assert (∀ after served last_row, paged (page_limit limit) (select key precedes rows sees after (page_limit limit)) = (served, last_row) →
    ∀ row, row ∈ served → row ∈ rows ∧ sees row = true) as Hserved.
  { intros after served last_row Hpaged row Hin.
    assert (row ∈ select key precedes rows sees after (page_limit limit)) as Hsel.
    { unfold paged in Hpaged. destruct (_ <? _); injection Hpaged as <- _; [| done]. by eapply subseteq_take. }
    unfold select, ordered_rows in Hsel. apply subseteq_take in Hsel. rewrite merge_sort_Permutation in Hsel.
    apply list_elem_of_filter in Hsel as [[Hsees _]%andb_prop_elim Hrow]. by apply Is_true_true in Hsees. }
  unfold page. case_bool_decide.
  - destruct (paged _ _) as [served last_row] eqn:Hpaged. intros [= <- _]. by eapply Hserved.
  - destruct (decode cursor) as [k|]; [| done]. destruct (paged _ _) as [served last_row] eqn:Hpaged. intros [= <- _]. by eapply Hserved.
Qed.

Lemma alerts_Page_within t q tenants found next :
  alerts_Page t q tenants = Ok (found, next) →
  ∀ one, one ∈ found → ∃ row, row ∈ alert_rows t ∧ one = restore_alert row ∧ alert_seen q tenants row = true.
Proof.
  unfold alerts_Page. destruct (alert_pages t q tenants (aq_alerts_cursor q)) as [[rows after]|] eqn:Hpages; [| done].
  intros [= <- <-] one (row & -> & Hin)%list_elem_of_fmap. exists row. unfold alert_pages in Hpages.
  by destruct (page_sees _ _ _ _ _ _ _ _ _ _ Hpages row Hin).
Qed.
(** A filter whose every value is written and reads back narrows a listing to its values. *)
Lemma asked_narrows {A} (column : A → string) (back : string → A) (asked : list A) (value : string) :
  (∀ a, a ∈ asked → column a ≠ "" ∧ back (column a) = a) → asked ≠ [] →
  (let named := filter (λ written, written ≠ "") (column <$> asked) in (len named =? 0) || bool_decide (value ∈ named)) = true →
  back value ∈ asked.
Proof.
  intros Hkept Hsome. cbv zeta. destruct asked as [|a asked]; [done |]. cbn [fmap list_fmap].
  rewrite filter_cons_True by (apply Hkept; by left). rewrite <- (filter_cons_True (λ written, written ≠ "") (column a)) by (apply Hkept; by left).
  intros [Hlen | Hin%bool_decide_eq_true]%orb_true_iff.
  - rewrite filter_cons_True in Hlen by (apply Hkept; by left). unfold len in Hlen. cbn in Hlen. apply Z.eqb_eq in Hlen. lia.
  - apply list_elem_of_filter in Hin as [_ Hin]. apply (list_elem_of_fmap_1 column (a :: asked)) in Hin as (x & -> & Hx).
    destruct (Hkept x Hx) as [_ Hback]. by rewrite Hback.
Qed.

Lemma filters_narrow q tenants row :
  alertFilters q = true → alert_seen q tenants row = true →
  ar_tenant row ∈ tenants ∧ (aq_states q ≠ [] → tr_state (restore_alert row) ∈ aq_states q)
  ∧ (aq_severities q ≠ [] → al_severity (tr_about (restore_alert row)) ∈ aq_severities q).
Proof.
  intros [Hstates Hsev]%andb_true_iff Hseen. unfold alert_seen in Hseen. rewrite !andb_true_iff in Hseen.
  destruct Hseen as (((((((Ht & _) & _) & Hst) & Hsv) & _) & _) & _). apply bool_decide_eq_true in Ht.
  rewrite forallb_forall in Hstates. unfold severity_filters in Hsev. rewrite forallb_forall in Hsev. split_and!; [done | |].
  - intros Hne. apply (asked_narrows state_column Wire _ (ar_state row)); [| done | done]. intros a Ha%list_elem_of_In.
    pose proof (bool_decide_eq_true_1 _ (Hstates a Ha)) as Hw. apply Wire_state_column in Hw as (? & _ & ?). done.
  - intros Hne. apply (asked_narrows severity_written (λ written, Severity_value (enum_name "SEVERITY_" written)) _ (ar_severity row)); [| done | done].
    intros a Ha%list_elem_of_In. specialize (Hsev a Ha). split; [by destruct a | apply severity_kept; intros n ->; done].
Qed.

(** The alert a route names. *)
Definition route_id (route : AlertRoute) : string :=
  match route with
  | alert_search => ""
  | alert_describe id | alert_history id | alert_occurrences id | alert_transition id | alert_assign id => id
  end.

(** What a caller may be answered, and what its answer leaves of the tables. *)
Definition within_grant (caller : Caller) (route : AlertRoute) (body : string) (reading writing t : AlertTables) (answer : AlertAnswer) : Prop :=
  match answer with
  | AnswerPage found _ => t = writing ∧ ∃ q, readWithin read_query no_query MaxBodyBytes body = Ok q
      ∧ ∀ one, one ∈ found → al_tenant (tr_about one) ∈ tenants_of caller
          ∧ (aq_states q ≠ [] → tr_state one ∈ aq_states q) ∧ (aq_severities q ≠ [] → al_severity (tr_about one) ∈ aq_severities q)
  | AnswerAlert one => t = writing ∧ al_tenant (tr_about one) ∈ tenants_of caller
  | AnswerHistory _ | AnswerOccurrences _ =>
      t = writing ∧ ∃ one, alerts_Alert reading (route_id route) (tenants_of caller) = Ok one ∧ al_tenant (tr_about one) ∈ tenants_of caller
  | AnswerMoved moved =>
      al_tenant (tr_about moved) ∈ tenants_of caller ∧ tr_changed_by moved = cl_subject caller
      ∧ tb_folded t = tb_folded writing ∧ ∀ id, id ≠ tr_id moved → tb_alerts t !! id = tb_alerts writing !! id
  end.

(** A move that was taken: what it was decided on and what it was taken from. *)
Lemma move_alert_taken caller id asked now reading writing t moved :
  move_alert (Some caller) id asked now reading writing = (t, Ok moved) →
  ∃ read before expected row line,
    alerts_Alert reading id (tenants_of caller) = Ok read ∧ alerts_Alert writing id (tenants_of caller) = Ok before
    ∧ before = restore_alert row ∧ tb_alerts writing !! id = Some row
    ∧ held_by_another Alerts caller read = false
    ∧ expected = (if mv_expected asked =? 0 then tr_revision read else mv_expected asked)
    ∧ Apply before (mkMove (mv_to asked) (mv_assignee asked) (mv_note asked) (cl_subject caller) now expected) = Ok (moved, line)
    ∧ t = mkAlertTables (<[tr_id moved := moved_row moved row]> (tb_alerts writing)) (insert_line line (tb_trail writing)) (tb_folded writing).
Proof.
  unfold move_alert, with_caller, move_decided. destruct (alerts_Alert reading id (tenants_of caller)) as [read|] eqn:Hread; [| done].
  destruct (held_by_another Alerts caller read) eqn:Hheld; [done |]. unfold move_written, alerts_Move, acted.
  destruct (tb_alerts writing !! id) as [row|] eqn:Hrow; [| done].
  destruct (bool_decide_reflect (ar_tenant row ∈ tenants_of caller)) as [Hin|]; [| done]. cbn [negb].
  destruct (Apply (restore_alert row) _) as [[moved' line]|] eqn:Happly; [| done]. destruct (_ <=? 0); [done |]. intros [= <- <-].
  eexists read, (restore_alert row), _, row, line. split_and!; [done | | done | done | done | reflexivity | exact Happly | done].
  unfold alerts_Alert. rewrite Hrow. by rewrite bool_decide_true.
Qed.

(** The revision a move's caller names, or none. *)
Definition revision_named (route : AlertRoute) (body : string) : Z :=
  match route with
  | alert_transition _ =>
      match readWithin read_transition (mkTransitionRequest STATE_UNSPECIFIED "" 0) MaxBodyBytes body with Ok asked => tq_expected asked | Err _ => 0 end
  | alert_assign _ =>
      match readWithin read_assignment (mkAssignmentRequest "" "" 0) MaxBodyBytes body with Ok asked => sq_expected asked | Err _ => 0 end
  | _ => 0
  end.

(** Every answer that says an alert moved comes of one move. *)
Lemma handler_moved route caller body now reading writing t moved :
  alert_handler route (Some caller) body now reading writing = (t, Ok (AnswerMoved moved)) →
  ∃ asked, mv_expected asked = revision_named route body
    ∧ move_alert (Some caller) (route_id route) asked now reading writing = (t, Ok moved).
Proof.
  destruct route as [| id | id | id | id | id]; cbn [alert_handler route_id revision_named]; unfold reading_of, moving_of.
  - destruct (searchAlerts _ _ _ _ _) as [[found next]|]; done.
  - by destruct (describeAlert _ _ _).
  - by destruct (alertHistory _ _ _).
  - by destruct (alertOccurrences _ _ _).
  - unfold transitionAlert. destruct (readWithin _ _ _ body) as [asked|]; [| done]. destruct (FromWire (tq_to asked)) as [to|]; [| done].
    destruct (move_alert _ _ _ _ _ _) as [t1 [one|]] eqn:Hmove; cbn; [| done]. intros [= <- <-]. eexists. split; [| exact Hmove]. done.
  - unfold assignAlert. destruct (readWithin _ _ _ body) as [asked|]; [| done].
    destruct (move_alert _ _ _ _ _ _) as [t1 [one|]] eqn:Hmove; cbn; [| done]. intros [= <- <-]. eexists. split; [| exact Hmove]. done.
Qed.

Lemma move_alert_refused caller id asked now reading writing t e :
  move_alert caller id asked now reading writing = (t, Err e) → t = writing.
Proof.
  unfold move_alert. destruct (with_caller _ _) as [[caller' m]|]; [| by intros [= <- _]]. unfold move_written, alerts_Move.
  destruct (tb_alerts writing !! id) as [row|]; [| by intros [= <- _]]. destruct (negb _); [by intros [= <- _] |].
  destruct (Apply _ _) as [[moved line]|]; [| by intros [= <- _]]. destruct (_ <=? 0); [by intros [= <- _] | done].
Qed.

Lemma handler_refused route caller body now reading writing t e :
  alert_handler route caller body now reading writing = (t, Err e) → t = writing.
Proof.
  destruct route; cbn [alert_handler]; unfold reading_of, moving_of; try by intros [= <- _].
  - unfold transitionAlert. destruct (readWithin _ _ _ body) as [asked|]; [| by intros [= <- _]].
    destruct (FromWire (tq_to asked)); [| by intros [= <- _]]. destruct (move_alert _ _ _ _ _ _) as [t1 [one|]] eqn:Hmove; cbn; [done |].
    intros [= <- _]. by eapply move_alert_refused.
  - unfold assignAlert. destruct (readWithin _ _ _ body) as [asked|]; [| by intros [= <- _]].
    destruct (move_alert _ _ _ _ _ _) as [t1 [one|]] eqn:Hmove; cbn; [done |]. intros [= <- _]. by eapply move_alert_refused.
Qed.

Ltac other_answer Hhandled :=
  exfalso; cbn [alert_handler] in Hhandled; unfold reading_of, moving_of in Hhandled;
  repeat match type of Hhandled with context [match ?x with _ => _ end] => destruct x end; discriminate Hhandled.

Lemma handler_within route caller body now reading writing t answer :
  alert_handler route (Some caller) body now reading writing = (t, Ok answer) → within_grant caller route body reading writing t answer.
Proof.
  intros Hhandled. destruct answer as [found next | one | lines | made_of | moved]; cbn [within_grant].
  - destruct route; try by other_answer Hhandled. cbn [alert_handler] in Hhandled; unfold reading_of in Hhandled.
    destruct (searchAlerts _ _ _ _ _) as [[found' next']|] eqn:Hsearch; [| done]. injection Hhandled as <- <- <-. split; [done |].
    unfold searchAlerts, with_caller in Hsearch. destruct (readWithin _ _ _ body) as [q|]; [| done]. exists q. split; [done |].
    destruct (alertFilters q) eqn:Hfilters; [| done]. cbn [negb] in Hsearch.
    destruct (alerts_Page reading q (tenants_of caller)) as [[page' after]|] eqn:Hpage; [| done]. injection Hsearch as <- <-.
    intros one Hin. destruct (alerts_Page_within _ _ _ _ _ Hpage one Hin) as (row & _ & -> & Hseen). by apply (filters_narrow q (tenants_of caller)).
  - destruct route; try by other_answer Hhandled. cbn [alert_handler] in Hhandled; unfold reading_of in Hhandled.
    destruct (describeAlert _ _ _) as [one'|] eqn:Hone; [| done]. injection Hhandled as <- <-. split; [done |].
    unfold describeAlert, with_caller, answered_as in Hone. destruct (alerts_Alert _ _ _) as [a|] eqn:Ha; [| done]. injection Hone as <-.
    by apply alerts_Alert_within in Ha as (row & _ & -> & ?).
  - destruct route; try by other_answer Hhandled. cbn [alert_handler] in Hhandled; unfold reading_of in Hhandled.
    destruct (alertHistory _ _ _) as [lines'|] eqn:Hone; [| done]. injection Hhandled as <- <-. split; [done |].
    unfold alertHistory, with_caller, answered_as, alerts_History in Hone. cbn [route_id]. destruct (alerts_Alert _ _ _) as [a|] eqn:Ha; [| done].
    exists a. split; [done |]. by apply alerts_Alert_within in Ha as (row & _ & -> & ?).
  - destruct route; try by other_answer Hhandled. cbn [alert_handler] in Hhandled; unfold reading_of in Hhandled.
    destruct (alertOccurrences _ _ _) as [made'|] eqn:Hone; [| done]. injection Hhandled as <- <-. split; [done |].
    unfold alertOccurrences, with_caller, answered_as, alerts_Occurrences in Hone. cbn [route_id]. destruct (alerts_Alert _ _ _) as [a|] eqn:Ha; [| done].
    exists a. split; [done |]. by apply alerts_Alert_within in Ha as (row & _ & -> & ?).
  - apply handler_moved in Hhandled as (asked & _ & Hmove).
    apply move_alert_taken in Hmove as (read & before & expected & row & line & _ & Hbefore & -> & _ & _ & _ & Happly & ->).
    apply alerts_Alert_within in Hbefore as (row' & _ & Hrow & Htenant). pose proof (Apply_accepted _ _ _ _ Happly) as [_ Habout _ (_ & Hby & _) _ _ _].
    split_and!; [rewrite Habout, Hrow; done | done | done |]. intros id Hne. cbn. by rewrite lookup_insert_ne.
Qed.

(** C21. Alerts are worked within a grant: a request on any alert route that is not refused
    came under a certificate whose subject the policy in force grants the route's permission,
    with a live session of that subject; every alert it is shown is of a tenant of the grant,
    and, where it narrows a listing by states or severities, of one it named; a move names the
    subject and changes that alert alone; and nothing else, a refusal least of all, changes
    the tables. *)
Theorem alerts_are_worked_within_a_grant s policy now route r limiter reading writing limiter' t answer :
  serve_alert s policy now route r limiter reading writing = (limiter', (t, answer)) →
  match answer with
  | Err _ => t = writing
  | Ok answer => ∃ caller, admitted_caller s policy now (alertRoutes route) r caller ∧ is_Some (cl_session caller)
      ∧ decision_Allowed (grant_Decide (cl_grant caller) (rq_permission (alertRoutes route))) = true
      ∧ within_grant caller route (cq_body r) reading writing t answer
  end.
Proof.
  unfold serve_alert. destruct (guard_admit _ _ _ _ _ _) as [l [caller|e]] eqn:Hadmit; [| by intros [= _ <- <-]].
  apply guard_admits in Hadmit. intros [= _ Hhandled]. destruct answer as [answer|e]; [| by eapply handler_refused].
  assert (rq_need (alertRoutes route) = needPermission) as Hneed by (by destruct route).
  exists caller. split_and!; [done | | by apply (ac_allowed _ _ _ _ _ _ Hadmit) | by eapply handler_within].
  pose proof (ac_session _ _ _ _ _ _ Hadmit) as Hsession. destruct (cl_session caller); [done | congruence].
Qed.

Lemma revision_read t id row : sound t → tb_alerts t !! id = Some row → 1 ≤ ar_revision row ∧ uint64 (ar_revision row) = ar_revision row.
Proof.
  intros Hs Hrow. pose proof (lf_revision _ _ _ (so_life t Hs id row Hrow)) as Hrange. cbn in Hrange. split; [lia |].
  unfold wrap_uint. apply Z.mod_small. change (2 ^ 63) with 9223372036854775808 in Hrange. lia.
Qed.

(** C22. A move is of what its caller may act on: whatever is recorded and moved between a
    handler's reading of an alert and its writing of it, a move that is taken, of a caller
    that named no revision past the one read, is taken from the very revision the decision
    was made on, and the alert was then held by nobody, by the caller, or the caller may act
    on what others hold. *)
Theorem a_move_is_of_what_its_caller_may_act_on s policy now route r limiter reading log writing limiter' t moved :
  alerts_reach reading log → rtc alerts_onward reading writing →
  serve_alert s policy now route r limiter reading writing = (limiter', (t, Ok (AnswerMoved moved))) →
  ∃ caller read before, admitted_caller s policy now (alertRoutes route) r caller
    ∧ alerts_Alert reading (route_id route) (tenants_of caller) = Ok read
    ∧ alerts_Alert writing (route_id route) (tenants_of caller) = Ok before
    ∧ tr_id moved = route_id route ∧ tr_revision moved = uint64 (tr_revision before + 1)
    ∧ (revision_named route (cq_body r) ≤ tr_revision read →
         tr_revision before = tr_revision read ∧ tr_assignee before = tr_assignee read
         ∧ (tr_assignee before = "" ∨ tr_assignee before = cl_subject caller ∨ may caller Alerts Delete = true)).
Proof.
  intros [Hs _]%reach_sound Hon. destruct (onward_rows _ _ Hon Hs) as [Hs' Hrows].
  unfold serve_alert. destruct (guard_admit _ _ _ _ _ _) as [l [caller|e]] eqn:Hadmit; [| done].
  apply guard_admits in Hadmit. intros [= _ Hhandled]. apply handler_moved in Hhandled as (asked & Hnamed & Hmove).
  apply move_alert_taken in Hmove as (read & before & expected & row & line & Hread & Hbefore & -> & Hrow & Hheld & Hexp & Happly & _).
  apply Apply_accepted in Happly as [Hid _ Hrev _ _ Hexpected _]. cbn [mv_expected] in Hexpected.
  exists caller, read, (restore_alert row). split_and!; [done | done | done | rewrite Hid; apply (so_id _ Hs' _ _ Hrow) | done |].
  intros Hbehind. apply alerts_Alert_within in Hread as (row0 & Hrow0 & -> & _). destruct (Hrows _ _ Hrow0) as (row' & Hrow' & _ & Hsame).
  rewrite Hrow in Hrow'. injection Hrow' as <-. destruct (revision_read _ _ _ Hs Hrow0) as [H0 H0'], (revision_read _ _ _ Hs' Hrow) as [H1 H1'].
  cbn [restore_alert tr_revision tr_assignee] in *. rewrite H0', H1' in *. rewrite Hnamed in Hexp. subst expected.
  destruct Hsame as [[Hr Ha] | Hlater]; [| destruct (Z.eqb_spec (revision_named route (cq_body r)) 0); lia].
  split_and!; [done | done |]. unfold held_by_another in Hheld. cbn [restore_alert tr_assignee] in Hheld. rewrite <- Ha in Hheld.
  apply andb_false_iff in Hheld as [[Hheld | Hheld]%andb_false_iff | Hheld]; apply negb_false_iff in Hheld; to_prop; auto.
Qed.
End routes.
