(* ===== verification/AgentRoutes.v ===== *)
(** * Administering agents: signing their certificates, and the routes to the registry

    pki/authority.go, request.go and bundle.go; control/agents.go, certificates.go,
    liveness.go and renewal.go. What crypto/x509 and encoding/pem do is a parameter; so are
    the stores an agent's telemetry is observed in. A handler acts on the registry of
    AgentStore.v and on the admission log, the latter through [carry] of Announce.v; its
    theorems say each is steps of the plane of Announce.v, within the caller's grant. *)

From Stdlib Require Import ZArith Lia Ascii.
From stdpp Require Import base tactics option gmap strings pretty sorting numbers list.
From S2P Require Import Prelude Text Scan Hex Bytes Authz Session Limiter Event Canonical Assessment Agent Status Triage Listing Trail AgentStore Announce Guard.

(** ** Signing (pki) *)

Definition MinValidity : duration := hour.
Definition MaxValidity : duration := 90 * 24 * hour.
Definition backdate : duration := minute.
Definition serialBits : Z := 128.
Definition MaxRequestBytes : Z := 16384.
Definition MinRSABits : Z := 2048.
Definition MaxBundleBytes : Z := 65536.

Inductive Curve := P256 | P384 | P521 | OtherCurve.
Inductive PublicKey := EcdsaKey (curve : Curve) | RsaKey (bits : Z) | Ed25519Key | OtherKey.
Inductive SignatureAlgorithm := ECDSAWithSHA256 | ECDSAWithSHA384 | ECDSAWithSHA512 | SHA256WithRSAPSS | SHA384WithRSAPSS | SHA512WithRSAPSS
| OtherAlgorithm.

Record CertificateRequest := mkCertificateRequest { csr_subject : string; csr_key : PublicKey; csr_algorithm : SignatureAlgorithm; csr_raw : string }.

(** [xc_authority]: its basic constraints are valid and it is a certificate authority. *)
Record X509Certificate := mkX509 {
  xc_subject : string; xc_serial : Z; xc_notBefore : instant; xc_notAfter : instant; xc_authority : bool; xc_raw : string;
}.

Record Template := mkTemplate { tp_serial : Z; tp_subject : string; tp_notBefore : instant; tp_notAfter : instant }.

(** The library: a PEM block is its type, its bytes and what follows it; a certificate is
    created with randomness of its own. *)
Class X509 := {
  pem_Decode : string → option (string * string * string);
  pem_Encode : string → string;
  ParseCertificateRequest : string → option CertificateRequest;
  CheckSignature : CertificateRequest → bool;
  CreateCertificate : string → Template → X509Certificate → PublicKey → option string;
  ParseCertificate : string → option X509Certificate;
  pem_shortens s kind bytes rest : pem_Decode s = Some (kind, bytes, rest) → (String.length rest < String.length s)%nat;
}.

(** What a created certificate says is what its template said, at the seconds X.509 keeps. *)
Definition Truncate_s (t : instant) : instant := t / second * second.
Class X509Laws `{X509} := {
  created random template parent key der signed :
    CreateCertificate random template parent key = Some der → ParseCertificate der = Some signed →
    xc_subject signed = tp_subject template ∧ xc_serial signed = tp_serial template
    ∧ xc_notBefore signed = Truncate_s (tp_notBefore template) ∧ xc_notAfter signed = Truncate_s (tp_notAfter template);
}.

Inductive SigningError := ErrUnusableValidity | ErrAuthorityExpired | ErrMalformedRequest | ErrNotSigned.
#[global] Instance SigningError_eq_dec : EqDecision SigningError.
Proof. solve_decision. Defined.

Record Authority := mkAuthority { au_certificate : X509Certificate; au_chain : string }.
Definition authority_Subject (a : Authority) : string := xc_subject (au_certificate a).

Record Issued := mkIssued { iu_certificate : string; iu_identity : CertIdentity; iu_request : string }.

Fixpoint trimmed (value : string) : string :=
  match value with
  | String c rest => if among [" "; "009"; "010"; "013"]%char c then trimmed rest else value
  | "" => ""
  end.

Definition usable (key : PublicKey) : bool :=
  match key with
  | EcdsaKey P256 | EcdsaKey P384 | EcdsaKey P521 => true
  | EcdsaKey OtherCurve => false
  | RsaKey bits => negb (bits <? MinRSABits)
  | Ed25519Key => true
  | OtherKey => false
  end.

(** The bytes of a positive number, most significant first: [SerialNumber.Bytes]. *)
Fixpoint big_bytes (fuel : nat) (n : Z) (acc : string) : string :=
  match fuel with
  | O => acc
  | S fuel => if n <=? 0 then acc else big_bytes fuel (n / 256) (String (ascii_of_N (Z.to_N (n mod 256))) acc)
  end.
Definition int_Bytes (n : Z) : string := big_bytes (Z.to_nat (Z.log2 n + 1)) n "".

Definition pki_Serial (certificate : X509Certificate) : string := hex_encode (int_Bytes (xc_serial certificate)).

(** [rand.Int] draws below 2^127; none when drawing failed. *)
Definition serialNumber (drawn : option Z) : option Z := (λ n, n + 1) <$> drawn.

Section pki.
Context {hashing : Hashing} {x509 : X509}.

Definition parseRequest (requestPEM subject : string) : result SigningError CertificateRequest :=
  if slen requestPEM =? 0 then Err ErrMalformedRequest
  else if MaxRequestBytes <? slen requestPEM then Err ErrMalformedRequest
  else match pem_Decode requestPEM with
  | None => Err ErrMalformedRequest
  | Some (kind, bytes, rest) =>
      if negb (bool_decide (kind = "CERTIFICATE REQUEST")) then Err ErrMalformedRequest
      else if negb (slen (trimmed rest) =? 0) then Err ErrMalformedRequest
      else match ParseCertificateRequest bytes with
      | None => Err ErrMalformedRequest
      | Some asked =>
          if negb (CheckSignature asked) then Err ErrMalformedRequest
          else if negb (bool_decide (csr_subject asked = subject)) then Err ErrMalformedRequest
          else if usable (csr_key asked) then Ok asked else Err ErrMalformedRequest
      end
  end.

(** Only a signature drawn at random tells its author's request from another's. *)
Definition requested (asked : CertificateRequest) : string :=
  match csr_algorithm asked with
  | ECDSAWithSHA256 | ECDSAWithSHA384 | ECDSAWithSHA512 | SHA256WithRSAPSS | SHA384WithRSAPSS | SHA512WithRSAPSS => hex_encode (Sum256 (csr_raw asked))
  | OtherAlgorithm => ""
  end.

Definition authority_Sign (a : Authority) (subject requestPEM : string) (validity : duration) (at_ : instant) (drawn : option Z) (random : string)
    : result SigningError Issued :=
  let held := au_certificate a in
  if (validity <? MinValidity) || (MaxValidity <? validity) then Err ErrUnusableValidity
  else if before at_ (xc_notBefore held) || negb (after (xc_notAfter held) at_) then Err ErrAuthorityExpired
  else
    let notBefore := time_add at_ (- backdate) in
    let notAfter := time_add at_ validity in
    let notAfter := if after notAfter (xc_notAfter held) then xc_notAfter held else notAfter in
    match parseRequest requestPEM subject with
    | Err e => Err e
    | Ok asked =>
        match serialNumber drawn with
        | None => Err ErrNotSigned
        | Some serial =>
            match CreateCertificate random (mkTemplate serial subject notBefore notAfter) held (csr_key asked) with
            | None => Err ErrNotSigned
            | Some der =>
                match ParseCertificate der with
                | None => Err ErrNotSigned
                | Some signed =>
                    Ok (mkIssued (pem_Encode der)
                          (mkCertIdentity (xc_subject signed) (pki_Serial signed) (hex_encode (Sum256 der))
                             (Some (xc_notBefore signed)) (Some (xc_notAfter signed)))
                          (requested asked))
                end
            end
        end
    end.

(** The authorities of a bundle, each block of it one; a block is shorter than what it is
    read from, so a bundle has no more blocks than bytes. *)
Fixpoint read_authorities (fuel : nat) (remaining : string) (found : list X509Certificate) : option (list X509Certificate) :=
  match fuel with
  | O => None
  | S fuel =>
      if slen (trimmed remaining) =? 0 then Some found
      else match pem_Decode remaining with
      | None => None
      | Some (kind, bytes, rest) =>
          if negb (bool_decide (kind = "CERTIFICATE")) then None
          else match ParseCertificate bytes with
          | None => None
          | Some certificate => if xc_authority certificate then read_authorities fuel rest (found ++ [certificate]) else None
          end
      end
  end.

Definition Authorities (bundlePEM : string) : option (list X509Certificate) :=
  if slen bundlePEM =? 0 then None
  else if MaxBundleBytes <? slen bundlePEM then None
  else match read_authorities (S (String.length bundlePEM)) bundlePEM [] with
  | Some [] | None => None
  | Some authorities => Some authorities
  end.

Definition Trusts (bundlePEM : string) (a : Authority) : bool :=
  match Authorities bundlePEM with
  | None => false
  | Some authorities => existsb (λ held, bool_decide (xc_raw held = xc_raw (au_certificate a))) authorities
  end.

Lemma authorities_fuel fuel fuel' : ∀ remaining found,
  (String.length remaining < fuel)%nat → (String.length remaining < fuel')%nat →
  read_authorities fuel remaining found = read_authorities fuel' remaining found.
Proof.
  revert fuel'. induction fuel as [|fuel IH]; intros [|fuel'] remaining found Hf Hf'; try lia. cbn [read_authorities].
  destruct (_ =? 0); [done |]. destruct (pem_Decode remaining) as [[[kind bytes] rest]|] eqn:Hpem; [| done].
  apply pem_shortens in Hpem. destruct (negb _); [done |]. destruct (ParseCertificate bytes) as [certificate|]; [| done].
  destruct (xc_authority certificate); [| done]. apply IH; lia.
Qed.
End pki.

(** ** What is signed can be bound *)

Lemma big_bytes_fuel fuel fuel' : ∀ n acc, n < 2 ^ Z.of_nat fuel → n < 2 ^ Z.of_nat fuel' → big_bytes fuel n acc = big_bytes fuel' n acc.
Proof.
  revert fuel'. induction fuel as [|fuel IH]; intros fuel' n acc Hf Hf'.
  - destruct fuel' as [|fuel']; [done |]. cbn [big_bytes]. rewrite (proj2 (Z.leb_le n 0)); [done | cbn in Hf; lia].
  - destruct fuel' as [|fuel']; cbn [big_bytes]; [rewrite (proj2 (Z.leb_le n 0)); [done | cbn in Hf'; lia] |].
    destruct (Z.leb_spec n 0) as [|Hpos]; [done |]. rewrite Nat2Z.inj_succ, Z.pow_succ_r in Hf, Hf' by lia.
    pose proof (Z.pow_pos_nonneg 2 (Z.of_nat fuel)). pose proof (Z.pow_pos_nonneg 2 (Z.of_nat fuel')).
    apply IH; apply Z.div_lt_upper_bound; lia.
Qed.

Lemma big_bytes_length k : ∀ fuel n acc, n < 256 ^ Z.of_nat k → (String.length (big_bytes fuel n acc) ≤ String.length acc + k)%nat.
Proof.
  induction k as [|k IH]; intros [|fuel] n acc Hn; cbn [big_bytes]; try lia.
  - rewrite (proj2 (Z.leb_le n 0)); [lia | cbn in Hn; lia].
  - destruct (n <=? 0); [lia |]. etrans; [apply IH |]; [| cbn; lia]. rewrite Nat2Z.inj_succ, Z.pow_succ_r in Hn by lia.
    apply Z.div_lt_upper_bound; lia.
Qed.

Lemma big_bytes_grows fuel : ∀ n acc, (String.length acc ≤ String.length (big_bytes fuel n acc))%nat.
Proof.
  induction fuel as [|fuel IH]; intros n acc; cbn [big_bytes]; [done |]. destruct (n <=? 0); [done |].
  etrans; [| apply IH]. cbn. lia.
Qed.

Lemma int_Bytes_length n : 0 < n ≤ 2 ^ 127 → (1 ≤ String.length (int_Bytes n) ≤ 16)%nat.
Proof.
  intros Hn. unfold int_Bytes. pose proof (Z.log2_nonneg n). split.
  - destruct (Z.to_nat (Z.log2 n + 1)) as [|fuel] eqn:Hfuel; [lia |]. cbn [big_bytes]. destruct (Z.leb_spec n 0); [lia |].
    etrans; [| apply big_bytes_grows]. cbn. lia.
  - etrans; [apply (big_bytes_length 16) |]; [| cbn; lia]. change (256 ^ Z.of_nat 16) with (2 * 2 ^ 127). lia.
Qed.

Lemma lower_hex_chars s : made_of lowercase_hex s = true → hex_chars s = true ∧ ToLower s = s.
Proof.
  assert (∀ c, implb (lowercase_hex c) ((digit c || between 97 102 c || between 65 70 c) && Ascii.eqb (lower_char c) c) = true) as Hchar.
  { intros c.  refine (every_byte (λ c, implb (lowercase_hex c) ((digit c || between 97 102 c || between 65 70 c) && Ascii.eqb (lower_char c) c)) c _). by vm_compute. }
  induction s as [|c s IH]; cbn [made_of]; [done |]. intros [Hc Hs]%andb_true_iff. destruct (IH Hs) as [Hh Hl].
  specialize (Hchar c). rewrite Hc in Hchar. cbn [implb] in Hchar. apply andb_true_iff in Hchar as [Hd Hlow]. apply Ascii.eqb_eq in Hlow.
  cbn [hex_chars]. rewrite Hd, Hh. unfold ToLower in *. cbn [string_map]. by rewrite Hlow, Hl.
Qed.

Section signed.
Context {hashing : Hashing} {x509 : X509} `{!X509Laws}.

(** C26. What is signed can be bound: a certificate the authority signs names the agent it was
    asked for, was asked for by a request that names that agent too, signed by the key it
    carries, of a kind the platform takes, and outlives neither the authority nor the validity
    asked; and until it expires the identity recorded of it is one the registry binds to that
    agent. *)
Theorem what_is_signed_can_be_bound a subject requestPEM validity at_ drawn random signed :
  authority_Sign a subject requestPEM validity at_ (Some drawn) random = Ok signed →
  0 ≤ drawn < 2 ^ 127 → slen subject ≤ MaxSubjectLength → backdate ≤ at_ →
  ∃ asked issued expires, parseRequest requestPEM subject = Ok asked ∧ csr_subject asked = subject ∧ CheckSignature asked = true
    ∧ usable (csr_key asked) = true
    ∧ id_issued (iu_identity signed) = Some issued ∧ id_expires (iu_identity signed) = Some expires
    ∧ issued ≤ at_ - backdate ∧ expires ≤ xc_notAfter (au_certificate a) ∧ expires ≤ at_ + validity ∧ MinValidity ≤ validity ≤ MaxValidity
    ∧ ∀ later, at_ ≤ later < expires → Bindable subject (iu_identity signed) later = Ok tt.
Proof.
  unfold authority_Sign. destruct ((validity <? MinValidity) || _) eqn:Hvalid; [done |]. destruct (before _ _ || _); [done |].
  destruct (parseRequest requestPEM subject) as [asked|] eqn:Hasked; [| done]. cbn [serialNumber fmap option_fmap option_map].
  set (notAfter := if after _ _ then _ else _).
  destruct (CreateCertificate _ _ _ _) as [der|] eqn:Hcreate; [| done]. destruct (ParseCertificate der) as [cert|] eqn:Hparse; [| done].
  intros [= <-] Hdrawn Hsubject Hat. destruct (created _ _ _ _ _ _ Hcreate Hparse) as (Hs & Hn & Hb & He).
  cbn [tp_subject tp_serial tp_notBefore tp_notAfter] in *. cbn [iu_identity id_issued id_expires].
  apply orb_false_iff in Hvalid as [Hlo%Z.ltb_ge Hhi%Z.ltb_ge].
  assert (∀ t, Truncate_s t ≤ t) as Htrunc by (intros t; unfold Truncate_s, second; pose proof (Z.mul_div_le t 1000000000); lia).
  assert (notAfter ≤ xc_notAfter (au_certificate a) ∧ notAfter ≤ at_ + validity) as [Hna Hnv].
  { unfold notAfter, after, time_add. destruct (Z.ltb_spec (xc_notAfter (au_certificate a)) (at_ + validity)); lia. }
  pose proof (Htrunc notAfter) as Hta. pose proof (Htrunc (time_add at_ (- backdate))) as Htb. rewrite <- Hb in Htb. rewrite <- He in Hta.
  unfold time_add in Htb.
  assert (csr_subject asked = subject ∧ CheckSignature asked = true ∧ usable (csr_key asked) = true) as (Hcs & Hck & Hus).
  { unfold parseRequest in Hasked. destruct (slen requestPEM =? 0); [done |]. destruct (_ <? _); [done |].
    destruct (pem_Decode requestPEM) as [[[kind bytes] rest]|]; [| done]. destruct (negb _); [done |]. destruct (negb _); [done |].
    destruct (ParseCertificateRequest bytes) as [csr|]; [| done]. destruct (CheckSignature csr) eqn:Hsig; [| done]. cbn [negb] in Hasked.
    destruct (bool_decide_reflect (csr_subject csr = subject)); [| done]. cbn [negb] in Hasked.
    destruct (usable (csr_key csr)) eqn:Hu; [| done]. injection Hasked as <-. done. }
  exists asked, (xc_notBefore cert), (xc_notAfter cert). split_and!; try done; try lia.
  intros later [Hl He']. unfold Bindable. cbn [id_subject id_serial id_fingerprint]. rewrite Hs, bool_decide_true by done. cbn [negb].
  destruct (Z.ltb_spec MaxSubjectLength (slen subject)); [lia |].
  assert (serial (pki_Serial cert) = Ok tt) as ->.
  { unfold serial, pki_Serial. rewrite Hn. pose proof (int_Bytes_length (drawn + 1) ltac:(lia)) as Hlen.
    pose proof (hex_encode_length (int_Bytes (drawn + 1))) as Hhex. destruct (lower_hex_chars _ (hex_encode_lower (int_Bytes (drawn + 1)))) as [Hch _].
    rewrite bool_decide_false by (intros Hnil; rewrite Hnil in Hhex; cbn in Hhex; lia).
    unfold slen, MaxSerialLength. destruct (Z.ltb_spec 64 (Z.of_nat (String.length (hex_encode (int_Bytes (drawn + 1)))))); [lia |].
    unfold hexadecimal. rewrite Hch, bool_decide_false by (intros Hnil; rewrite Hnil in Hhex; cbn in Hhex; lia). done. }
  assert (fingerprint (hex_encode (Sum256 der)) = Ok tt) as ->.
  { unfold fingerprint, hexadecimal, slen, FingerprintLength. pose proof (hex_encode_length (Sum256 der)) as Hhex. rewrite Sum256_size in Hhex.
    destruct (lower_hex_chars _ (hex_encode_lower (Sum256 der))) as [Hch Hlow]. rewrite Hch, Hlow, Hhex.
    rewrite bool_decide_false by (intros Hnil; rewrite Hnil in Hhex; cbn in Hhex; lia). rewrite bool_decide_true by done. done. }
  unfold Agent.validity. cbn [id_expires id_issued]. unfold is_zero, after, backdate, minute, second in *.
  rewrite (proj2 (Z.eqb_neq (xc_notAfter cert) 0)) by lia. rewrite (proj2 (Z.ltb_lt (xc_notBefore cert) (xc_notAfter cert))) by lia.
  rewrite andb_false_r. by rewrite (proj2 (Z.ltb_lt later (xc_notAfter cert))) by lia.
Qed.
End signed.

(** ** What agents send, beside what was decided (liveness.go) *)

(** A store that is not configured, or one that fails, shows nothing of its own. *)
Record Observers := mkObservers {
  ob_liveness : option (list string → list string → option (gmap string instant));
  ob_postures : option (list string → list string → option (gmap string Assessment));
  ob_reports : option (list string → list string → option (gmap string HeardReport));
}.

Record ObservedAgent := mkObserved {
  oa_agent : AgentRecord; oa_last_seen : option instant; oa_assessment : option Assessment;
  oa_liveness : Liveness; oa_last_reported : option instant; oa_status : option AgentStatus;
}.

Definition asked_of {A} (store : option (list string → list string → option (gmap string A))) (asked tenants : list string) : gmap string A :=
  match store with Some store => default ∅ (store asked tenants) | None => ∅ end.

Section observing.
Context `{EventContract, StatusContract}.

Definition observe_one (now : instant) (whole : bool) (one : AgentRecord) (seen : option instant) (assessed : option Assessment)
    (held : option HeardReport) : ObservedAgent :=
  mkObserved one seen assessed
    (match held with Some held => report_Liveness held now | None => LIVENESS_UNSPECIFIED end)
    (match held with Some held => Some (rp_received held) | None => None end)
    (match held with Some held => if whole then rp_status held else None | None => None end).

Definition observed (o : Observers) (now : instant) (tenants : list string) (whole : bool) (listed : list AgentRecord) : list ObservedAgent :=
  let asked : list string := a_id <$> listed in
  let seen := asked_of (ob_liveness o) asked tenants in
  let assessed : gmap string Assessment := if whole then asked_of (ob_postures o) asked tenants else ∅ in
  let newest := asked_of (ob_reports o) asked tenants in
  (λ one : AgentRecord, observe_one now whole one (seen !! a_id one) (assessed !! a_id one) (newest !! a_id one)) <$> listed.
End observing.

(** ** The routes (agents.go, certificates.go) *)

Definition CodeUnknownAgent : string := "unknown_agent".
Definition CodeAgentRegistered : string := "agent_already_registered".
Definition CodeAgentMoved : string := "agent_moved".
Definition CodeAgentsUnavailable : string := "agent_registry_unavailable".
Definition CodeMalformedRequest : string := "malformed_certificate_request".
Definition CodeSigningRefused : string := "certificate_not_signed".
Definition MaxCertificateBodyBytes : Z := 32768.

Definition agentFilters (asked : AgentQuery) : bool := forallb (λ s, bool_decide (is_Some (agent_FromWire s))) (gq_states asked).

Definition refuseAgent (e : RegistryError) : Refusal :=
  match e with
  | ErrAgentUnknown => mkRefusal 404 CodeUnknownAgent
  | ErrRegistered => mkRefusal 409 CodeAgentRegistered
  | RegistryRefused ErrAgentMoved => mkRefusal 409 CodeAgentMoved
  | ErrAgentCursor => mkRefusal 400 CodeBadCursor
  | RegistryRefused why => if agent_Refused why then mkRefusal 422 CodeIllegalMove else mkRefusal 503 CodeAgentsUnavailable
  | RegistryFails => mkRefusal 503 CodeAgentsUnavailable
  end.

Definition refuseSigning (e : SigningError) : Refusal :=
  match e with ErrMalformedRequest => mkRefusal 422 CodeMalformedRequest | _ => mkRefusal 503 CodeSigningRefused end.

Record AgentTransitionRequest := mkAgentTransitionRequest { gt_to : AgentWire; gt_note : string; gt_expected : Z }.
Record BindingRequest := mkBindingRequest { gb_identity : option CertIdentity; gb_note : string; gb_expected : Z }.
Record CertificateAsk := mkCertificateAsk { ca_csr : string; ca_note : string; ca_expected : Z }.

(** The messages of the contract, read by its library. *)
Class AgentMessages := {
  read_registration : string → option Registration;
  read_agent_query : string → option AgentQuery;
  read_agent_transition : string → option AgentTransitionRequest;
  read_binding : string → option BindingRequest;
  read_certificate_ask : string → option CertificateAsk;
  read_renewal : string → option string;
}.

Definition no_registration : Registration := mkRegistration "" "" "" "" (mkAgentPlatform "" "" "").
Definition no_agent_query : AgentQuery := mkAgentQuery None None [] 0 "".

(** What the plane holds: the registry and the admission log. *)
Abbreviation Kept := (AgentTables * list AdmissionRecord)%type (only parsing).

(** What signs, for how long, and the bundle as it reads at the time. *)
Record SigningWith := mkSigning { sn_authority : Authority; sn_life : duration; sn_bundle : option string; sn_drawn : option Z; sn_random : string }.

Record IssuedCertificate := mkIssuedCertificate { ic_certificate : string; ic_chain : string; ic_bundle : string; ic_identity : CertIdentity }.

Section agent_routes.
Context `{EventContract, StatusContract}.
Context {hashing : Hashing} {rate : RateLimiter} {x509 : X509} {postgres : Postgres} {messages : AgentMessages}.

Definition announce (answer : Answers) (moved : AgentRecord) (k : Kept) : Kept := (carry answer (Admission moved) k.1 k.2).1.

Definition registerAgent (caller : option Caller) (body : string) (now : instant) (answer : Answers) (k : Kept) : Kept * result Refusal AgentRecord :=
  match caller with
  | None => (k, Err (mkRefusal 401 CodeNoSession))
  | Some caller =>
      match readWithin read_registration no_registration MaxBodyBytes body with
      | Err e => (k, Err e)
      | Ok asked =>
          if negb (decision_Allowed (DecideWithin (cl_grant caller) (mkPermission Agents Write) (rg_tenant asked)))
          then (k, Err (mkRefusal 403 CodeForbidden))
          else match agents_Register asked (cl_subject caller) now k.1 with
          | (_, Err e) => (k, Err (refuseAgent e))
          | (t, Ok registered) => (announce answer registered (t, k.2), Ok registered)
          end
      end
  end.

Definition searchAgents (o : Observers) (caller : option Caller) (body : string) (now : instant) (t : AgentTables)
    : result Refusal (list ObservedAgent * string) :=
  with_caller caller (λ caller,
    match readWithin read_agent_query no_agent_query MaxBodyBytes body with
    | Err e => Err e
    | Ok asked =>
        if negb (agentFilters asked) then Err (mkRefusal 422 CodeUnknownFilter)
        else match agents_Page t asked (tenants_of caller) with
        | Err e => Err (refuseAgent e)
        | Ok (found, next) => Ok (observed o now (tenants_of caller) false found, next)
        end
    end).

Definition describeAgent (o : Observers) (caller : option Caller) (id : string) (now : instant) (t : AgentTables) : result Refusal (list ObservedAgent) :=
  with_caller caller (λ caller,
    match agents_Agent t id (tenants_of caller) with
    | Err e => Err (refuseAgent e)
    | Ok one => Ok (observed o now (tenants_of caller) true [one])
    end).

Definition agentHistory (caller : option Caller) (id : string) (t : AgentTables) : result Refusal (list AgentTransition) :=
  with_caller caller (λ caller, answered_as refuseAgent (agents_History t id (tenants_of caller))).

Definition agentCertificates (caller : option Caller) (id : string) (t : AgentTables) : result Refusal (list (CertificateRecord * option instant)) :=
  with_caller caller (λ caller, answered_as refuseAgent (agents_Certificates t id (tenants_of caller))).

Definition moveAgent (caller : option Caller) (id : string) (to : AgentState) (identity : option CertIdentity) (note : string) (expected : Z)
    (now : instant) (answer : Answers) (k : Kept) : Kept * result Refusal AgentRecord :=
  match caller with
  | None => (k, Err (mkRefusal 401 CodeNoSession))
  | Some caller =>
      match agents_Move id (tenants_of caller)
              (mkAgentMove to identity note (cl_subject caller) now "" "" "" (mkAsked "" "") false expected) k.1 with
      | (_, Err e) => (k, Err (refuseAgent e))
      | (t, Ok moved) => (announce answer moved (t, k.2), Ok moved)
      end
  end.

Definition transitionAgent (caller : option Caller) (id body : string) (now : instant) (answer : Answers) (k : Kept) : Kept * result Refusal AgentRecord :=
  match readWithin read_agent_transition (mkAgentTransitionRequest AGENT_UNSPECIFIED "" 0) MaxBodyBytes body with
  | Err e => (k, Err e)
  | Ok asked =>
      match agent_FromWire (gt_to asked) with
      | None => (k, Err (mkRefusal 422 CodeIllegalMove))
      | Some to => moveAgent caller id to None (gt_note asked) (gt_expected asked) now answer k
      end
  end.

Definition bindAgentIdentity (caller : option Caller) (id body : string) (now : instant) (answer : Answers) (k : Kept) : Kept * result Refusal AgentRecord :=
  match readWithin read_binding (mkBindingRequest None "" 0) MaxBodyBytes body with
  | Err e => (k, Err e)
  | Ok asked => moveAgent caller id "" (gb_identity asked) (gb_note asked) (gb_expected asked) now answer k
  end.

(** The certificate signed, with what the agent is to trust. *)
Definition issued_certificate (s : SigningWith) (signed : Issued) : option IssuedCertificate :=
  bundle ← sn_bundle s;
  if Trusts bundle (sn_authority s)
  then Some (mkIssuedCertificate (iu_certificate signed) (au_chain (sn_authority s)) bundle (iu_identity signed)) else None.

(** Signed at one instant and recorded at a later one. *)
Definition issueCertificate (s : SigningWith) (caller : option Caller) (id body : string) (now later : instant) (k : Kept) : Kept * result Refusal IssuedCertificate :=
  match caller with
  | None => (k, Err (mkRefusal 401 CodeNoSession))
  | Some caller =>
      match readWithin read_certificate_ask (mkCertificateAsk "" "" 0) MaxCertificateBodyBytes body with
      | Err e => (k, Err e)
      | Ok asked =>
          match authority_Sign (sn_authority s) id (ca_csr asked) (sn_life s) now (sn_drawn s) (sn_random s) with
          | Err e => (k, Err (refuseSigning e))
          | Ok signed =>
              match issued_certificate s signed with
              | None => (k, Err (mkRefusal 503 CodeSigningRefused))
              | Some issued =>
                  match agents_Move id (tenants_of caller)
                          (mkAgentMove "" (Some (iu_identity signed)) (ca_note asked) (cl_subject caller) later
                             (authority_Subject (sn_authority s)) "" "" (mkAsked "" "") false (ca_expected asked)) k.1 with
                  | (_, Err e) => (k, Err (refuseAgent e))
                  | (t, Ok _) => ((t, k.2), Ok issued)
                  end
              end
          end
      end
  end.

(** ** The agent's own listener (renewal.go) *)

Definition renewCertificate (s : SigningWith) (r : ControlRequest) (now later : instant) (limiter : option Limiter) (k : Kept)
    : option Limiter * (Kept * result Refusal IssuedCertificate) :=
  match FromConnection ((λ chain, chain.*1) <$> cq_chains r), clientCertificate r with
  | Some agentID, Some (_, raw) =>
      let '(limiter, allowed) := Allow agentID now limiter in
      (limiter,
       if negb allowed then (k, Err (mkRefusal 429 CodeRateLimited))
       else match readWithin read_renewal "" MaxCertificateBodyBytes (cq_body r) with
       | Err e => (k, Err e)
       | Ok csr =>
           match authority_Sign (sn_authority s) agentID csr (sn_life s) now (sn_drawn s) (sn_random s) with
           | Err e => (k, Err (refuseSigning e))
           | Ok signed =>
               match issued_certificate s signed with
               | None => (k, Err (mkRefusal 503 CodeSigningRefused))
               | Some issued =>
                   match agents_Renew agentID
                           (mkAgentMove "" (Some (iu_identity signed)) "" agentID later (authority_Subject (sn_authority s))
                              (hex_encode (Fingerprint (Some raw))) (iu_request signed) (mkAsked "" "") false 0) k.1 with
                   | (_, Err e) => (k, Err (refuseAgent e))
                   | (t, Ok _) => ((t, k.2), Ok issued)
                   end
               end
           end
       end)
  | _, _ => (limiter, (k, Err (mkRefusal 401 CodeNoCertificate)))
  end.

(** ** Behind the guard *)

Inductive AgentRoute := agent_register | agent_search | agent_describe (id : string) | agent_history (id : string)
| agent_transition (id : string) | agent_bind_identity (id : string) | agent_certificate_issue (id : string) | agent_certificate_history (id : string).

Definition agentRoutes (route : AgentRoute) : Requirement :=
  match route with
  | agent_search | agent_describe _ | agent_history _ | agent_certificate_history _ => Permits Agents Read
  | agent_register | agent_transition _ | agent_bind_identity _ | agent_certificate_issue _ => Permits Agents Write
  end.

Inductive AgentAnswer := ShowsAgents (found : list ObservedAgent) (next : string) | ShowsTrail (lines : list AgentTransition)
| ShowsCertificates (trail : list (CertificateRecord * option instant)) | ShowsMoved (moved : AgentRecord) | ShowsIssued (issued : IssuedCertificate).

(** A read leaves what is kept as it is. *)
Definition shown {A} (show : A → AgentAnswer) (k : Kept) (r : result Refusal A) : Kept * result Refusal AgentAnswer :=
  (k, match r with Ok a => Ok (show a) | Err e => Err e end).

Definition done_as {A} (show : A → AgentAnswer) (r : Kept * result Refusal A) : Kept * result Refusal AgentAnswer :=
  (r.1, match r.2 with Ok a => Ok (show a) | Err e => Err e end).

Definition agent_handler (o : Observers) (s : SigningWith) (route : AgentRoute) (caller : option Caller) (body : string) (now later : instant)
    (answer : Answers) (k : Kept) : Kept * result Refusal AgentAnswer :=
  match route with
  | agent_register => done_as ShowsMoved (registerAgent caller body now answer k)
  | agent_search => shown (λ '(found, next), ShowsAgents found next) k (searchAgents o caller body now k.1)
  | agent_describe id => shown (λ found, ShowsAgents found "") k (describeAgent o caller id now k.1)
  | agent_history id => shown ShowsTrail k (agentHistory caller id k.1)
  | agent_transition id => done_as ShowsMoved (transitionAgent caller id body now answer k)
  | agent_bind_identity id => done_as ShowsMoved (bindAgentIdentity caller id body now answer k)
  | agent_certificate_issue id => done_as ShowsIssued (issueCertificate s caller id body now later k)
  | agent_certificate_history id => shown ShowsCertificates k (agentCertificates caller id k.1)
  end.

Definition serve_agent (ss : SessionStore) (policy : Policy) (o : Observers) (s : SigningWith) (route : AgentRoute) (r : ControlRequest)
    (now later : instant) (answer : Answers) (limiter : option Limiter) (k : Kept) : option Limiter * (Kept * result Refusal AgentAnswer) :=
  let '(limiter, admitted) := guard_admit ss policy now (agentRoutes route) r limiter in
  (limiter, match admitted with
            | Err e => (k, Err e)
            | Ok caller => agent_handler o s route (Some caller) (cq_body r) now later answer k
            end).

(** ** What a handler does of the registry *)

(** A decision of one of the registry's operations, announced or not. *)
Inductive decision_made (actor : string) (tenants : list string) (a : AgentRecord) : Kept → Kept → Prop :=
| made_registered asked at_ t t' log answers :
    agents_Register asked actor at_ t = (t', Ok a) → rg_tenant asked ∈ tenants →
    decision_made actor tenants a (t, log) (match answers with Some answer => announce answer a (t', log) | None => (t', log) end)
| made_moved id asked t t' log answers :
    agents_Move id tenants asked t = (t', Ok a) → am_renewal asked = false → am_actor asked = actor →
    decision_made actor tenants a (t, log) (match answers with Some answer => announce answer a (t', log) | None => (t', log) end).

Lemma DecideWithin_tenant g p t : decision_Allowed (DecideWithin g p t) = true → t ∈ g_tenants g.
Proof.
  unfold DecideWithin. destruct (negb (decision_Allowed _)) eqn:Hd; [intros Ha |].
  - change (decision_Allowed (grant_Decide g p) = true) in Ha. by rewrite Ha in Hd.
  - destruct (bool_decide (t = "") || negb (contains_elem (g_tenants g) t)) eqn:Hin; [done |].
    intros _. apply orb_false_iff in Hin as [_ Hin]. apply negb_false_iff in Hin. by apply bool_decide_eq_true in Hin.
Qed.

Lemma agent_Apply_identity current move moved line held :
  agent_Apply current move = Ok (moved, line) → am_identity move = Some held → a_identity moved = Some held.
Proof. unfold agent_Apply. intros Happly Hid. rewrite Hid in Happly. by repeat case_match; simplify_eq. Qed.

Lemma moveAgent_made caller id to identity note expected now answer k k' r :
  moveAgent (Some caller) id to identity note expected now answer k = (k', r) →
  match r with Err _ => k' = k | Ok moved => decision_made (cl_subject caller) (tenants_of caller) moved k k' end.
Proof.
  unfold moveAgent. destruct k as [t log]. cbn [fst snd]. destruct (agents_Move _ _ _ t) as [t' [moved|e]] eqn:Hmove; intros [= <- <-]; [| done].
  by apply (made_moved _ _ moved id _ t t' log (Some answer) Hmove).
Qed.

Lemma agents_Agent_within t id tenants one : agents_Agent t id tenants = Ok one → a_tenant one ∈ tenants.
Proof. unfold agents_Agent. destruct (tb_agents t !! id); [| done]. case_bool_decide; [| done]. by intros [= <-]. Qed.

(** A page shows the caller's tenants, in the states it named. *)
Lemma agents_Page_within t q tenants found next one :
  agentFilters q = true → agents_Page t q tenants = Ok (found, next) → one ∈ found →
  a_tenant one ∈ tenants ∧ (gq_states q ≠ [] → a_state one ∈ gq_states q).
Proof.
  intros Hfilters. unfold agents_Page. destruct (agent_pages t q tenants (gq_cursor q)) as [[rows after]|] eqn:Hpages; [| done].
  intros [= <- <-] (row & -> & Hin)%list_elem_of_fmap. unfold agent_pages in Hpages.
  destruct (page_sees _ _ _ _ _ _ _ _ _ _ Hpages row Hin) as [_ Hseen]. unfold agent_seen in Hseen. rewrite !andb_true_iff in Hseen.
  destruct Hseen as (((Ht & _) & _) & Hst). apply bool_decide_eq_true in Ht. split; [done |]. intros Hne.
  unfold agentFilters in Hfilters. rewrite forallb_forall in Hfilters.
  apply (asked_narrows agent_column agent_Wire _ (gr_state row)); [| done |].
  - intros w Hw%list_elem_of_In. destruct (bool_decide_eq_true_1 _ (Hfilters w Hw)) as [st Hst'].
    destruct (Wire_agent_column w st Hst') as (Hc & Hin' & Hw'). rewrite Hc. split; [| done]. intros ->. unfold agent_states in Hin'. set_solver.
  - cbv zeta. fold (agent_states_asked (gq_states q)). destruct (agent_states_asked (gq_states q)); [done |]. rewrite Hst. apply orb_true_r.
Qed.

(** What a read shows. *)
Definition shows_within (caller : Caller) (route : AgentRoute) (body : string) (t : AgentTables) (answer : AgentAnswer) : Prop :=
  match answer with
  | ShowsAgents found _ => ∀ one, one ∈ found → a_tenant (oa_agent one) ∈ tenants_of caller
      ∧ ∀ q, route = agent_search → readWithin read_agent_query no_agent_query MaxBodyBytes body = Ok q → gq_states q ≠ [] →
          a_state (oa_agent one) ∈ gq_states q
  | ShowsTrail _ | ShowsCertificates _ => ∃ id one, (route = agent_history id ∨ route = agent_certificate_history id)
      ∧ agents_Agent t id (tenants_of caller) = Ok one ∧ a_tenant one ∈ tenants_of caller
  | ShowsMoved _ | ShowsIssued _ => True
  end.

Lemma observed_agents o now tenants whole listed one : one ∈ observed o now tenants whole listed → oa_agent one ∈ listed.
Proof. unfold observed. rewrite list_elem_of_fmap. by intros (x & -> & Hx). Qed.

Lemma handler_made o s route caller body now later answer k k' r :
  agent_handler o s route (Some caller) body now later answer k = (k', r) →
  match r with
  | Err _ => k' = k
  | Ok (ShowsMoved moved) => decision_made (cl_subject caller) (tenants_of caller) moved k k'
  | Ok (ShowsIssued issued) => Trusts (ic_bundle issued) (sn_authority s) = true
      ∧ ∃ moved, decision_made (cl_subject caller) (tenants_of caller) moved k k' ∧ a_identity moved = Some (ic_identity issued)
  | Ok answer => k' = k ∧ shows_within caller route body k.1 answer
  end.
Proof.
  destruct route as [| | id | id | id | id | id | id]; cbn [agent_handler]; unfold shown, done_as.
  - destruct (registerAgent _ _ _ _ _) as [k1 r1] eqn:Hreg. cbn [fst snd]. intros [= <- <-]. unfold registerAgent in Hreg.
    destruct (readWithin _ _ _ body) as [asked|]; [| by injection Hreg as <- <-]. destruct (decision_Allowed _) eqn:Hallowed; [| by injection Hreg as <- <-].
    cbn [negb] in Hreg. destruct k as [t log]. cbn [fst snd] in Hreg. destruct (agents_Register _ _ _ t) as [t' [a|e]] eqn:Hop; injection Hreg as <- <-; [| done].
    apply DecideWithin_tenant in Hallowed. by apply (made_registered _ _ a asked now t t' log (Some answer) Hop).
  - destruct (searchAgents o (Some caller) body now k.1) as [[found next]|] eqn:Hsearch; intros [= <- <-]; [| done]. split; [done |].
    unfold searchAgents, with_caller in Hsearch. destruct (readWithin _ _ _ body) as [q|] eqn:Hq; [| done].
    destruct (agentFilters q) eqn:Hfilters; [| done]. cbn [negb] in Hsearch.
    destruct (agents_Page k.1 q _) as [[rows after]|] eqn:Hpage; [| done]. injection Hsearch as <- <-. cbn [shows_within]. intros one Hin%observed_agents.
    destruct (agents_Page_within _ _ _ _ _ _ Hfilters Hpage Hin) as [? ?]. split; [done |]. intros q' _. rewrite Hq. by intros [= <-].
  - destruct (describeAgent o (Some caller) id now k.1) as [found|] eqn:Hone; intros [= <- <-]; [| done]. split; [done |].
    unfold describeAgent, with_caller in Hone. destruct (agents_Agent _ _ _) as [one|] eqn:Ha; [| done]. injection Hone as <-. cbn [shows_within].
    intros x ->%observed_agents%list_elem_of_singleton. split; [by eapply agents_Agent_within | done].
  - destruct (agentHistory (Some caller) id k.1) as [lines|] eqn:Hone; intros [= <- <-]; [| done]. split; [done |].
    unfold agentHistory, with_caller, answered_as, agents_History in Hone. destruct (agents_Agent _ _ _) as [one|] eqn:Ha; [| done].
    exists id, one. split_and!; [by left | done | by eapply agents_Agent_within].
  - destruct (transitionAgent _ _ _ _ _ _) as [k1 r1] eqn:Ht. cbn [fst snd]. intros [= <- <-]. unfold transitionAgent in Ht.
    destruct (readWithin _ _ _ body) as [asked|]; [| by injection Ht as <- <-]. destruct (agent_FromWire _); [| by injection Ht as <- <-].
    apply moveAgent_made in Ht. by destruct r1.
  - destruct (bindAgentIdentity _ _ _ _ _ _) as [k1 r1] eqn:Ht. cbn [fst snd]. intros [= <- <-]. unfold bindAgentIdentity in Ht.
    destruct (readWithin _ _ _ body) as [asked|]; [| by injection Ht as <- <-]. apply moveAgent_made in Ht. by destruct r1.
  - destruct (issueCertificate _ _ _ _ _ _ _) as [k1 r1] eqn:Ht. cbn [fst snd]. intros [= <- <-]. unfold issueCertificate in Ht.
    destruct (readWithin _ _ _ body) as [asked|]; [| by injection Ht as <- <-]. destruct (authority_Sign _ _ _ _ _ _ _) as [signed|]; [| by injection Ht as <- <-].
    destruct (issued_certificate s signed) as [issued|] eqn:Hissued; [| by injection Ht as <- <-]. destruct k as [t log]. cbn [fst snd] in Ht.
    destruct (agents_Move _ _ _ t) as [t' [moved|e]] eqn:Hmove; injection Ht as <- <-; [| done].
    unfold issued_certificate in Hissued. destruct (sn_bundle s) as [bundle|]; [| done]. cbn in Hissued.
    destruct (Trusts bundle (sn_authority s)) eqn:Htrusts; [| done]. injection Hissued as <-. split; [done |]. exists moved.
    split; [by apply (made_moved _ _ moved id _ t t' log None Hmove) |].
    apply registry_move_ok in Hmove as (row & line & certificates & _ & Happly & _). by eapply agent_Apply_identity in Happly.
  - destruct (agentCertificates (Some caller) id k.1) as [lines|] eqn:Hone; intros [= <- <-]; [| done]. split; [done |].
    unfold agentCertificates, with_caller, answered_as, agents_Certificates in Hone. destruct (agents_Agent _ _ _) as [one|] eqn:Ha; [| done].
    exists id, one. split_and!; [by right | done | by eapply agents_Agent_within].
Qed.

(** A handler's announcement is the plane's. *)
Lemma announce_reached `{!PostgresLaws} answers a t log held :
  Admission a ∈ held → plane_reach (mkPlane t log held) →
  let k := match answers with Some answer => announce answer a (t, log) | None => (t, log) end in plane_reach (mkPlane k.1 k.2 held).
Proof.
  intros Hin Hreach. destruct answers as [answer|]; [| done]. cbv zeta. unfold announce, carry. cbn [fst snd].
  destruct (bool_decide _ || _); [done |].
  assert (plane_reach (mkPlane t (log ++ [Admission a]) held)) as Hpub by (eapply rtc_r; [exact Hreach | by constructor]).
  destruct (negb _); [done |]. eapply rtc_r; [exact Hpub |]. apply (plane_records (Admission a)). apply elem_of_app. right. by left.
Qed.

Lemma decision_reached `{!PostgresLaws} actor tenants moved k k' held :
  decision_made actor tenants moved k k' → plane_reach (mkPlane k.1 k.2 held) → ∃ held', plane_reach (mkPlane k'.1 k'.2 held').
Proof.
  intros [asked at_ t t' log answers Hop _ | id asked t t' log answers Hop Hrenewal _] Hreach; cbn [fst snd] in Hreach;
    exists (Admission moved :: held); (apply announce_reached; [by left |]); eapply rtc_r; [exact Hreach | by econstructor | exact Hreach | by econstructor].
Qed.

Lemma agent_Apply_actor current move moved line :
  agent_Apply current move = Ok (moved, line) → a_changed_by moved = am_actor move ∧ a_tenant moved = a_tenant current.
Proof. unfold agent_Apply. intros Happly. by repeat case_match; simplify_eq. Qed.

(** Only the row a decision is about changes by it, whether it is announced or not. *)
Definition row_of (t t' : AgentTables) (moved : AgentRecord) (row : AgentRow) : Prop :=
  tb_agents t' !! a_id moved = Some row ∧ gr_tenant row = a_tenant moved ∧ gr_changed_by row = a_changed_by moved
  ∧ gr_fingerprint row = identity_column id_fingerprint (a_identity moved)
  ∧ ∀ id, id ≠ a_id moved → tb_agents t' !! id = tb_agents t !! id.

Lemma announce_row answers t t' log moved row :
  row_of t t' moved row →
  ∃ row', row_of t (match answers with Some answer => announce answer moved (t', log) | None => (t', log) end).1 moved row'.
Proof.
  intros Hrow. destruct answers as [answer|]; [| by exists row]. unfold announce, carry. cbn [fst snd].
  destruct (bool_decide _ || _); [by exists row |]. destruct (negb _); [by exists row |]. cbn [fst].
  unfold agents_Announced. cbn [Admission ad_agent ad_revision]. destruct Hrow as (Hat & Hten & Hby & Hfp & Hother). rewrite Hat.
  destruct (_ <? _); [| exists row; by split_and!]. eexists. split; [cbn; apply lookup_insert_eq |]. split_and!; [done | done | done |].
  intros id Hne. cbn. rewrite lookup_insert_ne by done. by apply Hother.
Qed.

Lemma Move_row id tenants asked t t' moved :
  agents_Move id tenants asked t = (t', Ok moved) → am_renewal asked = false →
  a_tenant moved ∈ tenants ∧ a_changed_by moved = am_actor asked ∧ ∃ row, row_of t t' moved row.
Proof.
  intros Hmove Hrenewal. apply registry_move_ok in Hmove as (row & line & certificates & Hheld & Happly & _ & _ & _ & ->).
  unfold moving in Happly. rewrite Hrenewal in Happly. destruct (agent_Apply_actor _ _ _ _ Happly) as [Hby Hten].
  destruct (tb_agents t !! id) as [row0|]; [| done]. cbn in Hheld. case_bool_decide; [| done]. injection Hheld as ->.
  split_and!; [by rewrite Hten | done |]. exists (moved_agent moved row). split_and!; [cbn; apply lookup_insert_eq | by rewrite Hten | done | done |].
  intros other Hne. cbn. by rewrite lookup_insert_ne.
Qed.

Lemma Register_row asked actor at_ t t' a :
  agents_Register asked actor at_ t = (t', Ok a) → a_tenant a = rg_tenant asked ∧ a_changed_by a = actor ∧ ∃ row, row_of t t' a row.
Proof.
  unfold agents_Register. destruct (Register asked actor at_) as [[registered line]|] eqn:Hreg; [| done]. case_bool_decide; [done |].
  intros [= <- <-]. assert (a_tenant registered = rg_tenant asked ∧ a_changed_by registered = actor) as [Hten Hby].
  { unfold Register in Hreg. by repeat case_match; simplify_eq. }
  split_and!; [done | done |]. exists (storedAgent registered). split_and!; [cbn; apply lookup_insert_eq | done | done | done |].
  intros other Hne. cbn. by rewrite lookup_insert_ne.
Qed.

Lemma decision_row actor tenants moved k k' :
  decision_made actor tenants moved k k' → a_tenant moved ∈ tenants ∧ a_changed_by moved = actor ∧ ∃ row, row_of k.1 k'.1 moved row.
Proof.
  intros [asked at_ t t' log answers Hop Hin | id asked t t' log answers Hop Hrenewal Hactor]; cbn [fst].
  - destruct (Register_row _ _ _ _ _ _ Hop) as (Hten & Hby & row & Hrow). split_and!; [by rewrite Hten | done | by eapply announce_row].
  - destruct (Move_row _ _ _ _ _ _ Hop Hrenewal) as (Hten & Hby & row & Hrow). split_and!; [done | congruence | by eapply announce_row].
Qed.

(** C25. Agents are administered within a grant: a request on any agent route that is not
    refused came under a certificate whose subject the policy in force grants the route's
    permission; every agent it is shown is of a tenant of the grant, in a state it named where
    it named any; what it registers or moves is of a tenant of the grant and signed with its
    name, and no other row of the registry changes; a certificate it is issued is under an
    authority the bundle handed with it trusts, and is the one the registry then holds of the
    agent; and a read or a refusal changes neither the registry nor the admission log. *)
Theorem agents_are_administered_within_a_grant ss policy o s route r now later answers limiter k limiter' k' answer :
  serve_agent ss policy o s route r now later answers limiter k = (limiter', (k', answer)) →
  match answer with
  | Err _ => k' = k
  | Ok answer => ∃ caller, admitted_caller ss policy now (agentRoutes route) r caller
      ∧ decision_Allowed (grant_Decide (cl_grant caller) (rq_permission (agentRoutes route))) = true
      ∧ match answer with
        | ShowsMoved moved => a_tenant moved ∈ tenants_of caller ∧ a_changed_by moved = cl_subject caller ∧ ∃ row, row_of k.1 k'.1 moved row
        | ShowsIssued issued => Trusts (ic_bundle issued) (sn_authority s) = true
            ∧ ∃ moved row, a_tenant moved ∈ tenants_of caller ∧ a_changed_by moved = cl_subject caller ∧ row_of k.1 k'.1 moved row
                ∧ gr_fingerprint row = id_fingerprint (ic_identity issued)
        | _ => k' = k ∧ shows_within caller route (cq_body r) k.1 answer
        end
  end.
Proof.
  unfold serve_agent. destruct (guard_admit _ _ _ _ _ _) as [l [caller|e]] eqn:Hadmit; [| by intros [= _ <- <-]].
  apply guard_admits in Hadmit. intros [= _ Hhandled]. apply handler_made in Hhandled. destruct answer as [answer|e]; [| done].
  assert (rq_need (agentRoutes route) = needPermission) as Hneed by (by destruct route).
  exists caller. split_and!; [done | by apply (ac_allowed _ _ _ _ _ _ Hadmit) |]. destruct answer as [found next | lines | trail | moved | issued]; try done.
  - by apply decision_row.
  - destruct Hhandled as (Htrusts & moved & Hmade & Hid). split; [done |]. destruct (decision_row _ _ _ _ _ Hmade) as (Hten & Hby & row & Hrow).
    exists moved, row. split_and!; try done. destruct Hrow as (_ & _ & _ & Hfp & _). by rewrite Hfp, Hid.
Qed.

(** C24. The routes are the plane: whatever an agent route or a renewal is asked, is answered by
    the backbone and does, it takes the plane of registry and admission log from one reachable
    state to another, so that what is proved of every reachable plane, of the rosters gateways
    read, of certificates and of sweeps, is proved of the service; and a renewal is recorded
    only of the agent whose certificate the connection verified. *)
Theorem the_routes_are_the_plane `{!PostgresLaws} ss policy o s route r now later answers limiter k held :
  plane_reach (mkPlane k.1 k.2 held) →
  (∃ held', let k' := (serve_agent ss policy o s route r now later answers limiter k).2.1 in plane_reach (mkPlane k'.1 k'.2 held'))
  ∧ let '(k', answer) := (renewCertificate s r now later limiter k).2 in
    plane_reach (mkPlane k'.1 k'.2 held) ∧ k'.2 = k.2
    ∧ ∀ id, tb_agents k'.1 !! id ≠ tb_agents k.1 !! id → FromConnection ((λ chain, chain.*1) <$> cq_chains r) = Some id.
Proof.
  intros Hreach. split.
  - unfold serve_agent. destruct (guard_admit _ _ _ _ _ _) as [l [caller|e]]; cbn [snd fst]; [| by exists held].
    destruct (agent_handler _ _ _ _ _ _ _ _ _) as [k' r'] eqn:Hhandled. apply handler_made in Hhandled. cbn [fst snd].
    destruct r' as [[found next | lines | trail | moved | issued]|e]; try (destruct Hhandled as [-> _]; by exists held).
    + by eapply decision_reached.
    + destruct Hhandled as (_ & moved & Hmade & _). by eapply decision_reached.
  - unfold renewCertificate. destruct (FromConnection _) as [agentID|] eqn:Hconn; [| by split_and!].
    destruct (clientCertificate r) as [[name raw]|]; [| by split_and!]. destruct (Allow agentID now limiter) as [l allowed]. cbn [snd].
    destruct (negb allowed); [by split_and!|]. destruct (readWithin _ _ _ (cq_body r)) as [csr|]; [| by split_and!].
    destruct (authority_Sign _ _ _ _ _ _ _) as [signed|]; [| by split_and!]. destruct (issued_certificate s signed) as [issued|]; [| by split_and!].
    destruct (agents_Renew agentID _ k.1) as [t' [moved|e]] eqn:Hrenew; [| by split_and!]. cbn [fst snd]. split_and!; [| done |].
    + eapply rtc_r; [exact Hreach |]. by econstructor.
    + intros id Hne. f_equal. apply plane_reach_well in Hreach as [Hwell _ _]. cbn [pl_tables] in Hwell.
      apply registry_move_ok in Hrenew as (row & line & certificates & Hheld & Happly & _ & _ & _ & ->).
      pose proof (rw_id _ _ _ (rw_row _ Hwell _ _ Hheld)) as Hid. cbn in Hne.
      destruct (decide (id = a_id moved)) as [-> | Hno]; [| by rewrite lookup_insert_ne in Hne].
      assert (a_id moved = gr_id row) as -> by (revert Happly; unfold agent_Apply; intros Happly; by repeat case_match; simplify_eq). done.
Qed.
End agent_routes.
