(* ===== verification/AlertWriter.v ===== *)
(** * The alert writer: what is decided becomes work

    detection/contract.go, the detection a consumer reads back held to its contract, with the
    bounds of weight.go and event/limits.go; alertstore/writer.go and unspoken.go, which turn
    a batch of records into candidates and stories and keep at the stores until they hold
    them. Reading the message is a parameter. An attempt to write may fail before the store
    decides, or after it, so that the writer is told of a failure that wrote everything. *)

From Stdlib Require Import ZArith Lia Ascii.
From stdpp Require Import base tactics option gmap strings pretty sorting numbers list.
From S2P Require Import Prelude Text Scan Hex Rule Contract Bytes Validate Compile State Digest Detected RuleWire Triage Alert Incident Agent Session Event Canonical Assessment Policy Listing Trail AlertStore AlertStoreProps IncidentStore.

(** ** The longest a text is written (event/limits.go, detection/weight.go) *)

Definition event_longest : list (string * Z) :=
  [("event_id", 64); ("origin.tenant_id", MaxTenantIDLength); ("origin.agent_id", 64);
   ("origin.host.hostname", MaxHostnameLength); ("origin.host.ip", MaxAddressLength);
   ("origin.host.os", MaxOperatingSystem); ("origin.host.architecture", MaxArchitectureLen);
   ("collection.collector", MaxCollectorLength); ("collection.source", MaxSourceLength);
   ("reception.gateway", MaxGatewayLength); ("reception.batch_id", MaxBatchIDLength);
   ("authentication.outcome_reason", MaxOutcomeReasonLen); ("authentication.method", MaxAuthMethodLength);
   ("authentication.user.name", MaxUserNameLength); ("authentication.user.domain", MaxUserDomainLength);
   ("authentication.user.uid", MaxUserIDLength); ("authentication.service.name", MaxServiceNameLength);
   ("authentication.service.protocol", MaxProtocolLength); ("authentication.network.source.ip", MaxAddressLength);
   ("authentication.network.destination.ip", MaxAddressLength); ("authentication.raw_record", MaxRawRecordLength)].

Definition LongestText (field : string) : option Z := snd <$> List.find (λ e, bool_decide (e.1 = field)) event_longest.

(** len("-2.2250738585072014e-308"), len("false"), len("-2147483648") *)
Definition longestNumber : Z := 24.
Definition longestTruth : Z := 5.
Definition longestUndeclared : Z := 11.

Definition longestText (field : Field) : Z := default MaxEventBytes (LongestText field).

(** ** The message *)

Record ToldStage := mkToldStage { wg_name : string; wg_event : string; wg_time : option WireTime; wg_agent : string }.
Record WireCorrelation := mkWireCorrelation {
  wc_window : option WireDuration; wc_spread : option WireDuration; wc_stages : list (option ToldStage); wc_group : list (option Binding);
}.
Record WireAggregation := mkWireAggregation {
  wa_count : Z; wa_threshold : Z; wa_window : option WireDuration; wa_first : option WireTime; wa_saturated : bool; wa_group : list (option Binding);
}.
Record WireDetection := mkWireDetection {
  wn_id : string; wn_schema : Z; wn_rule : option DetectedRule; wn_ruleset : string; wn_severity : WireSeverity;
  wn_technique : option Technique; wn_class : EventClass; wn_origin : option Proto; wn_events : list string;
  wn_event_time : option WireTime; wn_detected_time : option WireTime; wn_evidence : list (option Evidence);
  wn_aggregation : option WireAggregation; wn_correlation : option WireCorrelation;
}.

(** Reading a record: the message, its size, and an origin's fields. *)
Class DetectionMessages := {
  Unmarshal_Detection : string → option WireDetection;
  detection_Size : WireDetection → Z;
  origin_read : Proto → OriginPart;
}.
(** The getters read the message that was read. *)
Class DetectionMessageLaws M `{Events M, DetectionMessages} := {
  origin_tenant o : GetTenantId (Some o) = or_tenant (origin_read o);
}.

(** What the getters answer of a message: nil reads as the zero value. *)
Definition no_rule : DetectedRule := mkDetectedRule "" 0 "" None.
Definition duration_read (d : option WireDuration) : duration := duration_AsDuration (default (mkWireDuration 0 0) d).
Definition time_read (t : option WireTime) : instant := WireTime_AsTime (default (mkWireTime 0 0) t).
Definition binding_read (b : option Binding) : Binding := default (mkBinding "" "" false) b.
Definition stage_read (s : option ToldStage) : DetectedStage :=
  match s with Some s => mkDetectedStage (wg_name s) (wg_event s) (time_read (wg_time s)) (wg_agent s) | None => mkDetectedStage "" "" (time_read None) "" end.
Definition evidence_read (e : option Evidence) : Evidence := default (mkEvidence "" (Undeclared "") false "" false) e.

Definition detection_told (w : WireDetection) : Detection :=
  mkDetection (wn_id w) (wn_schema w) (default no_rule (wn_rule w)) (wn_ruleset w) (wn_severity w) (wn_technique w) (wn_class w)
    (wn_origin w) (wn_events w) (WireTime_AsTime <$> wn_event_time w) (time_read (wn_detected_time w)) (evidence_read <$> wn_evidence w)
    ((λ a, mkAggregation (wa_count a) (wa_threshold a) (duration_read (wa_window a)) (time_read (wa_first a)) (wa_saturated a)
             (binding_read <$> wa_group a)) <$> wn_aggregation w)
    ((λ c, mkCorrelation (duration_read (wc_window c)) (duration_read (wc_spread c)) (stage_read <$> wc_stages c)
             (binding_read <$> wc_group c)) <$> wn_correlation w).

(** ** The contract (detection/contract.go) *)

Definition MaxEvidence : Z := 4096.

Inductive HeldReason :=
| HeldMissing | HeldTooManyBytes | HeldMalformed | HeldSchema | HeldUnspecified | HeldUndeclared | HeldPartial | HeldNotUTF8 | HeldTooLong
| HeldTooMany | HeldUnaddressable | HeldAbsentValue | HeldBoth | HeldOutside | HeldUnrepresentable | HeldNotPositive | HeldNegative
| HeldRepeated | HeldMismatch | HeldEarlier | HeldOrigin (why : EventViolation).

Record HeldViolation := mkHeldViolation { hv_field : string; hv_reason : HeldReason }.
Definition invalid (field : string) (reason : HeldReason) : HeldViolation := mkHeldViolation field reason.
Abbreviation held_checked := (result HeldViolation unit).

Definition contractText (field value : string) (limit : Z) (required : bool) : held_checked :=
  if negb (ValidString value) then Err (invalid field HeldNotUTF8)
  else if required && blank value then Err (invalid field HeldMissing)
  else if limit <? slen value then Err (invalid field HeldTooLong) else Ok tt.

Definition contractIdentifier (field value : string) : held_checked := refuse (negb (ValidIdentifier value)) (invalid field HeldMalformed).

Definition contractInstant (field : string) (value : option WireTime) : held_checked :=
  match value with
  | None => Err (invalid field HeldMissing)
  | Some t => refuse (negb (IsValid t)) (invalid field HeldUnrepresentable)
  end.

Definition contractDuration (field : string) (value : option WireDuration) (positive : bool) : result HeldViolation duration :=
  match value with
  | None => Err (invalid field HeldMissing)
  | Some d =>
      if negb (duration_IsValid d) then Err (invalid field HeldUnrepresentable)
      else if positive && (duration_AsDuration d <=? 0) then Err (invalid field HeldNotPositive)
      else Ok (duration_AsDuration d)
  end.

Definition validateDecidingTechnique (held : option Technique) : held_checked :=
  match held with
  | None => Ok tt
  | Some t =>
      if technique_empty t then Ok tt
      else if bool_decide (tech_tactic t = "") || bool_decide (tech_id t = "") || bool_decide (tech_name t = "")
      then Err (invalid "technique" HeldPartial)
      else if negb (contains_elem tactics (tech_tactic t)) then Err (invalid "technique.tactic" HeldUndeclared)
      else if negb (MatchString technique (tech_id t)) then Err (invalid "technique.id" HeldMalformed)
      else contractText "technique.name" (tech_name t) MaxNameLength true
  end.

Definition validateDecidingRule (rule : option DetectedRule) : held_checked :=
  match rule with
  | None => Err (invalid "rule" HeldMissing)
  | Some rule =>
      if negb (MatchString identifier (dr_id rule)) || (MaxIDLength <? slen (dr_id rule)) || MatchString versioned (dr_id rule)
      then Err (invalid "rule.id" HeldMalformed)
      else if dr_revision rule =? 0 then Err (invalid "rule.revision" HeldMissing)
      else (contractText "rule.name" (dr_name rule) MaxNameLength true ;;
            match dr_source rule with
            | None => Ok tt
            | Some source =>
                if negb (Bool.eqb (bool_decide (src_catalogue source = "")) (bool_decide (src_identifier source = "")))
                then Err (invalid "rule.source" HeldPartial)
                else if bool_decide (src_catalogue source = "") then Ok tt
                else if negb (MatchString identifier (src_catalogue source)) || (MaxIDLength <? slen (src_catalogue source))
                then Err (invalid "rule.source.catalogue" HeldMalformed)
                else contractText "rule.source.identifier" (src_identifier source) MaxNameLength true
            end)%go
  end.

Definition sourceEvents (ids : list string) : held_checked :=
  if len ids =? 0 then Err (invalid "source_event_ids" HeldMissing)
  else if MaxStages <? len ids then Err (invalid "source_event_ids" HeldTooMany)
  else each (λ index id, refuse (negb (ValidIdentifier id)) (invalid (indexed "source_event_ids" index) HeldMalformed)) ids.

Section held.
Context `{Contract, EventContract}.

Definition valueAtMost (field : Field) : Z :=
  match KindOf field with
  | Some Text => longestText field
  | Some Truth => longestTruth
  | Some Choice => foldl (λ widest choice, Z.max widest (slen choice)) longestUndeclared (ChoicesOf field)
  | _ => longestNumber
  end.

Definition heldAtMost (field : Field) : Z :=
  match KindOf field with Some Text => 4 * longestText field + 2 | _ => valueAtMost field end.

Definition longestWritten : Z * Z :=
  foldl (λ '(held, valued) field, (Z.max held (heldAtMost field), Z.max valued (valueAtMost field))) (0, 0) Fields.

Definition unaddressable (path : Field) (class : EventClass) : bool := negb (bool_decide (is_Some (KindOf path))) || negb (AddressableBy path class).

Definition contract_evidence (found : list (option Evidence)) (class : EventClass) : held_checked :=
  if MaxEvidence <? len found then Err (invalid "evidence" HeldTooMany)
  else each (λ index one,
    let field := indexed "evidence" index in
    match one with
    | None => Err (invalid field HeldMissing)
    | Some one =>
        if unaddressable (e_field one) class then Err (invalid (field +:+ ".field") HeldUnaddressable)
        else if negb (known (e_operator one)) then Err (invalid (field +:+ ".operator") HeldUndeclared)
        else (contractText (field +:+ ".held") (e_held one) longestWritten.1 false ;;
              refuse (e_absent one && negb (bool_decide (e_held one = ""))) (invalid (field +:+ ".held") HeldAbsentValue))%go
    end) found.

Fixpoint groupings_from (field : string) (class : EventClass) (index : nat) (seen : list Field) (group : list (option Binding)) : held_checked :=
  match group with
  | [] => Ok tt
  | one :: group =>
      let part := indexed field index in
      match one with
      | None => Err (invalid part HeldMissing)
      | Some one =>
          if unaddressable (bind_field one) class then Err (invalid (part +:+ ".field") HeldUnaddressable)
          else if contains_elem seen (bind_field one) then Err (invalid (part +:+ ".field") HeldRepeated)
          else (contractText (part +:+ ".value") (bind_value one) longestWritten.2 false ;;
                refuse (bind_absent one && negb (bool_decide (bind_value one = ""))) (invalid (part +:+ ".value") HeldAbsentValue) ;;
                groupings_from field class (S index) (bind_field one :: seen) group)%go
      end
  end.

Definition groupings (field : string) (group : list (option Binding)) (class : EventClass) : held_checked :=
  if MaxGroupBy <? len group then Err (invalid field HeldTooMany) else groupings_from field class 0 [] group.

Definition contract_aggregation (counted : option WireAggregation) (class : EventClass) (eventTime : instant) : held_checked :=
  match counted with
  | None => Ok tt
  | Some a =>
      if (wa_threshold a <? MinCount) || (MaxCount <? wa_threshold a) then Err (invalid "aggregation.threshold" HeldOutside)
      else if (wa_count a <? wa_threshold a) || (MaxCount <? wa_count a) then Err (invalid "aggregation.count" HeldOutside)
      else match contractDuration "aggregation.window" (wa_window a) true with
      | Err e => Err e
      | Ok window =>
          if MaxWithin <? window then Err (invalid "aggregation.window" HeldTooLong)
          else (contractInstant "aggregation.first_event_time" (wa_first a) ;;
                let first := time_read (wa_first a) in
                if after first eventTime || (window <? time_sub eventTime first) then Err (invalid "aggregation.first_event_time" HeldOutside)
                else groupings "aggregation.group" (wa_group a) class)%go
      end
  end.

(** What the loop over stages keeps: the names and the events met, how many named an agent,
    and the first and previous instants. *)
Record StagesMet := mkStagesMet { sm_names : list string; sm_sent : list (string * string); sm_agents : Z; sm_first : instant; sm_previous : instant }.

Fixpoint stages_from (sourceIDs : list string) (index : nat) (met : StagesMet) (stages : list (option ToldStage)) : result HeldViolation StagesMet :=
  match stages with
  | [] => Ok met
  | stage :: stages =>
      let field := indexed "correlation.stages" index in
      match stage with
      | None => Err (invalid field HeldMissing)
      | Some stage =>
          match contractText (field +:+ ".name") (wg_name stage) MaxStageLength true with
          | Err e => Err e
          | Ok _ =>
              if contains_elem (sm_names met) (wg_name stage) then Err (invalid (field +:+ ".name") HeldRepeated)
              else if negb (bool_decide (sourceIDs !! index = Some (wg_event stage))) then Err (invalid (field +:+ ".event_id") HeldMismatch)
              else if negb (bool_decide (wg_agent stage = "")) && negb (AgentIDValid (wg_agent stage))
              then Err (invalid (field +:+ ".agent_id") HeldMalformed)
              else if contains_elem (sm_sent met) (wg_agent stage, wg_event stage) then Err (invalid (field +:+ ".event_id") HeldRepeated)
              else match contractInstant (field +:+ ".event_time") (wg_time stage) with
              | Err e => Err e
              | Ok _ =>
                  let at_ := time_read (wg_time stage) in
                  if negb (Nat.eqb index 0) && before at_ (sm_previous met) then Err (invalid (field +:+ ".event_time") HeldEarlier)
                  else stages_from sourceIDs (S index)
                         (mkStagesMet (wg_name stage :: sm_names met) ((wg_agent stage, wg_event stage) :: sm_sent met)
                            (if bool_decide (wg_agent stage = "") then sm_agents met else sm_agents met + 1)
                            (if Nat.eqb index 0 then at_ else sm_first met) at_) stages
              end
          end
      end
  end.

Definition contract_correlation (told : option WireCorrelation) (class : EventClass) (sourceIDs : list string) (eventTime : instant) (about : string)
    : held_checked :=
  match told with
  | None => refuse (negb (len sourceIDs =? 1)) (invalid "source_event_ids" HeldMismatch)
  | Some c =>
      if (len (wc_stages c) <? MinStages) || (MaxStages <? len (wc_stages c)) then Err (invalid "correlation.stages" HeldOutside)
      else if negb (len sourceIDs =? len (wc_stages c)) then Err (invalid "source_event_ids" HeldMismatch)
      else match contractDuration "correlation.window" (wc_window c) true with
      | Err e => Err e
      | Ok window =>
          if MaxWithin <? window then Err (invalid "correlation.window" HeldTooLong)
          else match contractDuration "correlation.clock_spread" (wc_spread c) false with
          | Err e => Err e
          | Ok spread =>
              if spread <? 0 then Err (invalid "correlation.clock_spread" HeldNegative)
              else match stages_from sourceIDs 0 (mkStagesMet [] [] 0 time_zero time_zero) (wc_stages c) with
              | Err e => Err e
              | Ok met =>
                  if negb (sm_previous met =? eventTime) then Err (invalid "event_time" HeldMismatch)
                  else if negb (sm_agents met =? 0) && negb (sm_agents met =? len (wc_stages c)) then Err (invalid "correlation.stages" HeldPartial)
                  else if negb (sm_agents met =? 0) && negb (bool_decide (about = ds_agent (stage_read (mjoin (last (wc_stages c))))))
                  then Err (invalid "origin.agent_id" HeldMismatch)
                  else if window <? time_sub (sm_previous met) (sm_first met) then Err (invalid "correlation.stages" HeldTooLong)
                  else groupings "correlation.group" (wc_group c) class
              end
          end
      end
  end.

Context `{DetectionMessages}.

Definition severity_declared (s : WireSeverity) : bool := match s with SEVERITY_OTHER _ => false | _ => true end.

Definition from_event (r : event_checked) : held_checked := match r with Ok _ => Ok tt | Err e => Err (invalid (ev_field e) (HeldOrigin e)) end.

Definition detection_ValidateContract (made : WireDetection) : held_checked :=
  (refuse (MaxDetectionBytes <? detection_Size made) (invalid "detection" HeldTooManyBytes) ;;
   contractIdentifier "detection_id" (wn_id made) ;;
   refuse (negb (wn_schema made =? DetectionSchemaVersion)) (invalid "schema_version" HeldSchema) ;;
   validateDecidingRule (wn_rule made) ;;
   contractIdentifier "ruleset_id" (wn_ruleset made) ;;
   refuse (bool_decide (wn_severity made = SEVERITY_UNSPECIFIED)) (invalid "severity" HeldUnspecified) ;;
   refuse (negb (severity_declared (wn_severity made))) (invalid "severity" HeldUndeclared) ;;
   validateDecidingTechnique (wn_technique made) ;;
   refuse (wn_class made =? 0) (invalid "event_class" HeldUnspecified) ;;
   refuse (negb (bool_decide (is_Some (EventClass_name (wn_class made))))) (invalid "event_class" HeldUndeclared) ;;
   from_event (ValidateOrigin (origin_read <$> wn_origin made)) ;;
   sourceEvents (wn_events made) ;;
   contractInstant "event_time" (wn_event_time made) ;;
   contractInstant "detected_time" (wn_detected_time made) ;;
   contract_evidence (wn_evidence made) (wn_class made) ;;
   refuse (bool_decide (is_Some (wn_aggregation made)) && bool_decide (is_Some (wn_correlation made))) (invalid "detection" HeldBoth) ;;
   contract_aggregation (wn_aggregation made) (wn_class made) (time_read (wn_event_time made)) ;;
   contract_correlation (wn_correlation made) (wn_class made) (wn_events made) (time_read (wn_event_time made))
     (match wn_origin made with Some o => or_agent (origin_read o) | None => "" end))%go.
End held.

(** ** The writer (alertstore/writer.go) *)

Definition maxToldUnspoken : Z := 1024.

Inductive SkipReason := SkipUndecodable | SkipBelowFloor | SkipUnraisable.
#[global] Instance SkipReason_eq_dec : EqDecision SkipReason.
Proof. solve_decision. Defined.

(** What one record comes to. *)
Inductive Considered := Skipped (why : SkipReason) | Hidden (by_ : Suppression) | Told (story : Tracked IncidentAbout) | Worth (rule : string) (c : Candidate).

Record Work := mkWork { wk_alerts : list Candidate; wk_incidents : list (Tracked IncidentAbout) }.

Record AlertWriter := mkAlertWriter { aw_tuning : Tuning; aw_floor : WireSeverity; aw_retryDelay : duration; aw_maxRetryDelay : duration }.

Definition NewWriter (w : AlertWriter) (writeTimeout : duration) : bool :=
  negb (bool_decide (aw_floor w = SEVERITY_UNSPECIFIED)) && (0 <? writeTimeout)
  && negb ((aw_retryDelay w <=? 0) || (aw_maxRetryDelay w <? aw_retryDelay w)).

(** What was told of key parts a rule does not speak of, and what is told now. *)
Definition unspoken_one (rule : string) (told : gset (string * string)) (part : string) : gset (string * string) :=
  if bool_decide ((rule, part) ∈ told) || (maxToldUnspoken <=? Z.of_nat (size told)) then told else {[(rule, part)]} ∪ told.
Definition writer_unspoken (rule : string) (parts : list string) (told : gset (string * string)) : gset (string * string) :=
  foldl (unspoken_one rule) told parts.

Section writer.
Context {contract : Contract} {events : EventContract} {M : Type} {EV : Events M} {messages : DetectionMessages}.
Context (Unquote : string → option string) (digest : string → string).

Definition consider_one (w : AlertWriter) (at_ : instant) (value : string) : Considered :=
  if MaxDetectionBytes <? slen value then Skipped SkipUnraisable
  else match Unmarshal_Detection value with
  | None => Skipped SkipUndecodable
  | Some decided =>
      match detection_ValidateContract decided with
      | Err _ => Skipped SkipUnraisable
      | Ok _ =>
          let made := detection_told decided in
          if negb (Raisable (d_severity made) (aw_floor w)) then Skipped SkipBelowFloor
          else match Suppressed (EV := EV) Unquote (aw_tuning w) made (Happened made at_) with
          | Some hidden => Hidden hidden
          | None =>
              if CorrelatesDetection made then
                match RaiseIncident (EV := EV) made at_ with Err _ => Skipped SkipUnraisable | Ok story => Told story end
              else
                match Consider (EV := EV) Unquote digest made (aw_tuning w) at_ with
                | Err _ => Skipped SkipUnraisable
                | Ok candidate => Worth (dr_id (d_rule made)) candidate
                end
          end
      end
  end.

Definition writer_take (work : Work * gset (string * string)) (c : Considered) : Work * gset (string * string) :=
  let '(found, told) := work in
  match c with
  | Skipped _ | Hidden _ => (found, told)
  | Told story => (mkWork (wk_alerts found) (wk_incidents found ++ [story]), told)
  | Worth rule c => (mkWork (wk_alerts found ++ [c]) (wk_incidents found), writer_unspoken rule (ca_unspoken c) told)
  end.

Definition writer_consider (w : AlertWriter) (at_ : instant) (records : list string) (told : gset (string * string)) : Work * gset (string * string) :=
  foldl (λ work value, writer_take work (consider_one w at_ value)) (mkWork [] [], told) records.
End writer.

(** How a port answers a write: its own answer; a failure before the store decided; a
    failure after it did. *)
Inductive PortAnswer := Reached | LostBefore | LostAfter.
Record WriteAttempt := mkWriteAttempt { tp_at : instant; tp_alerts : PortAnswer; tp_stories : PortAnswer; tp_cancelled : bool }.

Abbreviation WorkTables := (AlertTables * IncidentTables)%type (only parsing).

Section persisting.
Context {contract : Contract} {values : ClassValues} {postgres : Postgres}.

(** A write to one port and whether it was answered well. *)
Definition through {T A} (answer : PortAnswer) (written : T * option A) (t : T) : T * bool :=
  match answer with
  | LostBefore => (t, false)
  | LostAfter => (written.1, false)
  | Reached => (written.1, bool_decide (is_Some written.2))
  end.

Definition is_written {T E A} (r : T * result E A) : T * option A := (r.1, match r.2 with Ok a => Some a | Err _ => None end).

Definition persist (attempt : WriteAttempt) (found : Work) (k : WorkTables) : WorkTables * bool :=
  let '(t, recorded) :=
    if len (wk_alerts found) =? 0 then (k.1, true)
    else through (tp_alerts attempt) (is_written (alerts_Record (tp_at attempt) (wk_alerts found) k.1)) k.1 in
  if negb recorded then ((t, k.2), false)
  else
    let '(i, opened) :=
      if len (wk_incidents found) =? 0 then (k.2, true)
      else through (tp_stories attempt) (is_written (incidents_Open (wk_incidents found) k.2)) k.2 in
    ((t, i), opened).

Inductive HandleEnd := Stored | Cancelled.

(** The attempts made of one batch, with what was waited between them. *)
Fixpoint handle_found (maxDelay delay : duration) (found : Work) (attempts : list WriteAttempt) (k : WorkTables) : WorkTables * list duration * option HandleEnd :=
  match attempts with
  | [] => (k, [], None)
  | attempt :: attempts =>
      match persist attempt found k with
      | (k, true) => (k, [], Some Stored)
      | (k, false) =>
          if tp_cancelled attempt then (k, [], Some Cancelled)
          else let '(k, waited, ended) := handle_found maxDelay (Z.min (int64 (delay * 2)) maxDelay) found attempts k in (k, delay :: waited, ended)
      end
  end.
End persisting.

(** [handle]: one batch considered once, and kept at until it is stored. *)
Definition writer_handle {contract : Contract} {events : EventContract} {values : ClassValues} {postgres : Postgres}
    {M : Type} {EV : Events M} {messages : DetectionMessages} (Unquote : string → option string) (digest : string → string)
    (w : AlertWriter) (at_ : instant) (records : list string) (told : gset (string * string)) (attempts : list WriteAttempt) (k : WorkTables)
    : WorkTables * list duration * option HandleEnd :=
  handle_found (aw_maxRetryDelay w) (aw_retryDelay w) (writer_consider (EV := EV) Unquote digest w at_ records told).1 attempts k.

(** ** What a batch comes to *)

Definition alert_of (c : Considered) : option Candidate := match c with Worth _ c => Some c | _ => None end.
Definition story_of (c : Considered) : option (Tracked IncidentAbout) := match c with Told story => Some story | _ => None end.

Section considering.
Context {contract : Contract} {events : EventContract} {values : ClassValues} {postgres : Postgres}.
Context {M : Type} {EV : Events M} {messages : DetectionMessages}.
Context (Unquote : string → option string) (digest : string → string).

(** A record whose detection is held to its contract, is severe enough and is not one the
    estate said it does not want. *)
Record worth_telling (w : AlertWriter) (at_ : instant) (value : string) (made : Detection) : Prop := {
  wo_size : slen value ≤ MaxDetectionBytes;
  wo_read : ∃ message, Unmarshal_Detection value = Some message ∧ detection_ValidateContract message = Ok tt
              ∧ made = detection_told message;
  wo_floor : Raisable (d_severity made) (aw_floor w) = true;
  wo_wanted : Suppressed (EV := EV) Unquote (aw_tuning w) made (Happened made at_) = None;
}.

Lemma held_named `{!DetectionMessageLaws M} message :
  detection_ValidateContract message = Ok tt → wn_id message ≠ "" ∧ tenant_of (EV := EV) (detection_told message) ≠ "".
Proof.
  unfold detection_ValidateContract. intros H. peel. split.
  - intros Hid. match goal with H : contractIdentifier "detection_id" _ = Ok _ |- _ => revert H end. rewrite Hid. by vm_compute.
  - unfold tenant_of. cbn [detection_told d_origin]. match goal with H : from_event _ = Ok _ |- _ => revert H end.
    destruct (wn_origin message) as [o|]; [| done]. rewrite origin_tenant. cbn [fmap option_fmap option_map].
    unfold ValidateOrigin. destruct (AgentIDValid _); [| done]. intros Horigin Htenant. by rewrite Htenant in Horigin.
Qed.

Lemma consider_one_worth `{!DetectionMessageLaws M} w at_ value made :
  worth_telling w at_ value made →
  if CorrelatesDetection made
  then ∃ story, consider_one (EV := EV) Unquote digest w at_ value = Told story ∧ tr_id story = d_id made
  else ∃ c, consider_one (EV := EV) Unquote digest w at_ value = Worth (dr_id (d_rule made)) c ∧ ca_detection c = d_id made.
Proof.
  intros [Hsize (message & Hread & Hheld & ->) Hfloor Hwanted]. destruct (held_named message Hheld) as [Hid Htenant].
  unfold consider_one. destruct (Z.ltb_spec MaxDetectionBytes (slen value)); [lia |]. rewrite Hread, Hheld. cbv zeta.
  rewrite Hfloor, Hwanted. cbn [negb]. destruct (CorrelatesDetection (detection_told message)) eqn:Hc.
  - unfold RaiseIncident. rewrite !bool_decide_false by done. unfold CorrelatesDetection in Hc.
    destruct (d_correlation _) as [c|]; [| done]. destruct (cn_stages c) as [|stage stages]; [done |].
    destruct (last (stage :: stages)) as [l|] eqn:Hlast; [| by apply last_None in Hlast]. cbn. by eexists.
  - unfold Consider, Raise. rewrite !bool_decide_false by done. by eexists.
Qed.

Lemma consider_one_from w at_ value :
  match consider_one (EV := EV) Unquote digest w at_ value with
  | Told story => ∃ made, worth_telling w at_ value made ∧ CorrelatesDetection made = true ∧ tr_id story = d_id made
      ∧ freshly_told story ∧ in_stages (tr_about story) ≠ []
  | Worth _ c => ∃ made, worth_telling w at_ value made ∧ CorrelatesDetection made = false ∧ ca_detection c = d_id made ∧ considered c
  | _ => True
  end.
Proof.
  unfold consider_one. destruct (Z.ltb_spec MaxDetectionBytes (slen value)); [done |].
  destruct (Unmarshal_Detection value) as [message|] eqn:Hread; [| done].
  destruct (detection_ValidateContract message) as [[]|] eqn:Hheld; [| done]. cbv zeta.
  destruct (Raisable _ _) eqn:Hfloor; [| done]. cbn [negb]. destruct (Suppressed _ _ _ _) eqn:Hwanted; [done |].
  assert (worth_telling w at_ value (detection_told message)) as Hworth by (split; eauto).
  destruct (CorrelatesDetection _) eqn:Hc.
  - destruct (RaiseIncident _ _) as [story|] eqn:Hraise; [| done]. exists (detection_told message). pose proof (RaiseIncident_fresh _ _ _ Hraise).
    split_and!; try done.
    all: revert Hraise; unfold RaiseIncident; case_bool_decide; [done |]; case_bool_decide; [done |].
    all: destruct (d_correlation _) as [c|]; [| done]; destruct (cn_stages c); cbn; [done |]; destruct (last _); [| done]; by intros [= <-].
  - destruct (Consider _ _ _ _ _) as [c|] eqn:Hraise; [| done]. exists (detection_told message). pose proof (Consider_considered _ _ _ _ _ _ Hraise).
    split_and!; try done. revert Hraise. unfold Consider. destruct (Raise _ _); [| done]. by intros [= <-].
Qed.

Lemma writer_consider_found w at_ records told :
  (writer_consider (EV := EV) Unquote digest w at_ records told).1
  = mkWork (omap alert_of (consider_one (EV := EV) Unquote digest w at_ <$> records))
      (omap story_of (consider_one (EV := EV) Unquote digest w at_ <$> records)).
Proof.
  unfold writer_consider. assert (∀ alerts stories told,
    (foldl (λ work value, writer_take work (consider_one (EV := EV) Unquote digest w at_ value)) (mkWork alerts stories, told) records).1
    = mkWork (alerts ++ omap alert_of (consider_one (EV := EV) Unquote digest w at_ <$> records))
        (stories ++ omap story_of (consider_one (EV := EV) Unquote digest w at_ <$> records))) as H; [| by rewrite H].
  induction records as [|value records IH]; intros alerts stories told'; cbn; [by rewrite !app_nil_r |].
  destruct (consider_one _ _ _ _ value); cbn; rewrite IH; cbn; by rewrite <- ?app_assoc.
Qed.
End considering.

Lemma size_of_list (l : list string) : (size (list_to_set l : gset string) ≤ length l)%nat.
Proof.
  induction l as [|x l IH]; [done |]. cbn. rewrite size_union_alt, size_singleton.
  pose proof (subseteq_size (list_to_set l ∖ {[x]}) (list_to_set l : gset string) ltac:(set_solver)). lia.
Qed.

Lemma length_of_omap {A B} (f : A → option B) (l : list A) : (length (omap f l) ≤ length l)%nat.
Proof. induction l as [|x l IH]; [done |]. cbn. destruct (f x); cbn; lia. Qed.

(** ** What the stores hold of a batch *)

Section stored.
Context {contract : Contract} {values : ClassValues} {postgres : Postgres} `{!PostgresLaws}.

(** Every detection the tables or the batch can name. *)
Context (reachable : gset string) (Hfits : Z.of_nat (size reachable) < 2 ^ 63).

(** A count of detections folded leaves room for another that is none of them. *)
Lemma room_for_one t detection row :
  sound t → tb_alerts t !! ar_id row = Some row → dom (tb_folded t) ⊆ reachable → detection ∈ reachable →
  tb_folded t !! detection = None → ar_occurrences row + 1 < 2 ^ 63.
Proof.
  intros Hs Hrow Hdom Hin Hnew. destruct (so_count t Hs _ _ Hrow) as [-> _].
  assert (length (folded_into t (ar_id row)) ≤ size (tb_folded t))%nat as Hlen.
  { unfold folded_into. rewrite <- length_map_to_list. apply length_filter. }
  assert (size (tb_folded t) + 1 ≤ size reachable)%nat as Hsize; [| unfold len; lia].
  rewrite <- (size_dom (D := gset string)), Nat.add_1_r. apply not_elem_of_dom in Hnew.
  assert (size ({[detection]} ∪ dom (tb_folded t)) ≤ size reachable)%nat as Hle by (apply subseteq_size; set_solver).
  rewrite size_union in Hle by set_solver. rewrite size_singleton in Hle. lia.
Qed.

Lemma record_one_fits t c now :
  sound t → considered c → dom (tb_folded t) ⊆ reachable → ca_detection c ∈ reachable →
  ∃ t' outcome, record_one now c t = Ok (t', outcome) ∧ sound t' ∧ dom (tb_folded t') ⊆ reachable.
Proof.
  intros Hs Hc Hdom Hin. assert (∃ r, record_one now c t = Ok r) as [[t' outcome] Hone].
  { unfold record_one. destruct (alreadyFolded t (ca_detection c)) eqn:Hfolded; [by eexists |].
    apply alreadyFolded_false in Hfolded. destruct (openAlert t c) as [row|] eqn:Hopen.
    - destruct (openAlert_row t c row Hs Hopen) as (Hrow & _). pose proof (room_for_one t _ row Hs Hrow Hdom Hin Hfolded).
      destruct (negb (after _ _)); [| by eexists]. destruct (Z.leb_spec (2 ^ 63) (ar_occurrences row + 1)); [lia | by eexists].
    - destruct (_ && _); by eexists. }
  exists t', outcome. destruct (record_one_sound t c now t' outcome Hs Hc Hone) as [Hs' Hwhat]. split_and!; [done | done |].
  destruct outcome; try done; try (by destruct Hwhat as [-> _]).
  all: destruct Hwhat as [_ [o ->]]; rewrite dom_insert_L; set_solver.
Qed.

Lemma record_each_fits now candidates : ∀ t,
  sound t → Forall considered candidates → dom (tb_folded t) ⊆ reachable → Forall (λ c, ca_detection c ∈ reachable) candidates →
  ∃ t' outcomes, record_each now candidates t = Ok (t', outcomes) ∧ dom (tb_folded t') ⊆ reachable.
Proof.
  induction candidates as [|c candidates IH]; intros t Hs Hall Hdom Hin; cbn; [by eexists _, _ |].
  apply Forall_cons in Hall as [Hc Hall]. apply Forall_cons in Hin as [Hone Hin].
  destruct (record_one_fits t c now Hs Hc Hdom Hone) as (t1 & outcome & -> & Hs1 & Hdom1).
  destruct (IH t1 Hs1 Hall Hdom1 Hin) as (t2 & outcomes & -> & Hdom2). by eexists _, _.
Qed.

(** Each detection of a batch recorded stands in the tables, or was kept back by its cooldown. *)
Lemma record_each_covers now candidates t t' outcomes c :
  record_each now candidates t = Ok (t', outcomes) → c ∈ candidates →
  is_Some (tb_folded t' !! ca_detection c) ∨ (ca_detection c, OutcomeCooledDown) ∈ what_became candidates outcomes.
Proof.
  intros Hrecord (i & Hi)%list_elem_of_lookup. destruct (record_each_grows _ _ _ _ _ Hrecord) as (_ & Hlen & Hall).
  destruct (outcomes !! i) as [outcome|] eqn:Ho; [| apply lookup_ge_None in Ho; apply lookup_lt_Some in Hi; lia].
  destruct (decide (outcome = OutcomeCooledDown)) as [-> | Hne]; [right | left; by eapply Hall].
  apply (list_elem_of_lookup_2 _ i). unfold what_became. apply lookup_zip_with_Some.
  eexists _, _. split_and!; [done | | done]. by rewrite list_lookup_fmap, Hi.
Qed.

Lemma what_became_from candidates outcomes detection outcome :
  (detection, outcome) ∈ what_became candidates outcomes → ∃ c, c ∈ candidates ∧ ca_detection c = detection.
Proof. intros Hin. apply elem_of_zip_l in Hin. apply list_elem_of_fmap in Hin as (c & -> & Hc). by exists c. Qed.

Lemma open_each_told stories : ∀ t,
  Forall (λ one, in_stages (tr_about one) ≠ []) stories →
  ∃ t' outcomes, open_each stories t = Ok (t', outcomes) ∧ dom (tb_incidents t) ⊆ dom (tb_incidents t')
    ∧ ∀ one, one ∈ stories → tr_id one ∈ dom (tb_incidents t').
Proof.
  induction stories as [|one stories IH]; intros t Hall; cbn.
  { eexists _, _. split_and!; [done | done |]. intros one Hin. by apply not_elem_of_nil in Hin. }
  apply Forall_cons in Hall as [Hone Hall]. unfold open_one.
  destruct (Z.eqb_spec (len (in_stages (tr_about one))) 0) as [Hlen|_].
  { destruct (in_stages _); [done |]. unfold len in Hlen. cbn in Hlen. lia. }
  case_bool_decide as Hthere.
  - destruct (IH t Hall) as (t' & outcomes & -> & Hsub & Hin). eexists _, _. split_and!; [done | done |].
    intros x [-> | Hx]%elem_of_cons; [| by apply Hin]. apply Hsub. by apply elem_of_dom.
  - match goal with |- context [open_each stories ?t1] => destruct (IH t1 Hall) as (t' & outcomes & -> & Hsub & Hin) end. cbn [tb_incidents] in Hsub. rewrite dom_insert_L in Hsub.
    eexists _, _. split_and!; [done | set_solver |]. intros x [-> | Hx]%elem_of_cons; [set_solver | by apply Hin].
Qed.
(** A batch as [consider] leaves one. *)
Record workable (found : Work) : Prop := {
  wb_considered : Forall considered (wk_alerts found);
  wb_named : Forall (λ c, ca_detection c ∈ reachable) (wk_alerts found);
  wb_told : Forall freshly_told (wk_incidents found);
  wb_staged : Forall (λ one, in_stages (tr_about one) ≠ []) (wk_incidents found);
}.

(** The tables after some attempts, with what the attempts did. *)
Record attempted (found : Work) (log : list (string * AlertOutcome)) (ilog : list (Tracked IncidentAbout))
    (k : WorkTables) (more : list (string * AlertOutcome)) (imore : list (Tracked IncidentAbout)) : Prop := {
  wr_alerts : alerts_reach k.1 (log ++ more);
  wr_stories : incidents_reach k.2 (ilog ++ imore);
  wr_named : dom (tb_folded k.1) ⊆ reachable;
  wr_more detection outcome : (detection, outcome) ∈ more → ∃ c, c ∈ wk_alerts found ∧ ca_detection c = detection;
  wr_imore one : one ∈ imore → one ∈ wk_incidents found;
}.

Definition covered (found : Work) (k : WorkTables) (more : list (string * AlertOutcome)) : Prop :=
  (∀ c, c ∈ wk_alerts found → is_Some (tb_folded k.1 !! ca_detection c) ∨ (ca_detection c, OutcomeCooledDown) ∈ more)
  ∧ ∀ one, one ∈ wk_incidents found → tr_id one ∈ dom (tb_incidents k.2).

Lemma written_alerts found log ilog t i more imore now t' answer :
  workable found → attempted found log ilog (t, i) more imore → alerts_Record now (wk_alerts found) t = (t', answer) →
  ∃ outcomes, answer = Ok outcomes ∧ attempted found log ilog (t', i) (more ++ what_became (wk_alerts found) outcomes) imore
    ∧ ∀ c, c ∈ wk_alerts found →
        is_Some (tb_folded t' !! ca_detection c) ∨ (ca_detection c, OutcomeCooledDown) ∈ what_became (wk_alerts found) outcomes.
Proof.
  intros Hb Hw Hrecord. destruct Hw as [Ha Hi Hn Hm Him]. cbn in *. pose proof (alerts_recorded _ _ _ _ _ _ Ha (wb_considered _ Hb) Hrecord) as Hreach.
  destruct (record_each_fits now (wk_alerts found) t (proj1 (reach_sound _ _ Ha)) (wb_considered _ Hb) Hn (wb_named _ Hb)) as (t1 & outcomes & Heach & Hdom).
  unfold alerts_Record in Hrecord. rewrite Heach in Hrecord. injection Hrecord as <- <-. exists outcomes.
  split; [done |]. split; [| intros c; by apply (record_each_covers now _ t)]. rewrite <- app_assoc in Hreach. split; try done.
  intros detection outcome [Hin|Hin]%elem_of_app; [by eapply Hm | by eapply what_became_from].
Qed.

Lemma written_stories found log ilog t i more imore i' answer :
  workable found → attempted found log ilog (t, i) more imore → incidents_Open (wk_incidents found) i = (i', answer) →
  ∃ outcomes, answer = Ok outcomes ∧ (∃ imore, attempted found log ilog (t, i') more imore)
    ∧ ∀ one, one ∈ wk_incidents found → tr_id one ∈ dom (tb_incidents i').
Proof.
  intros Hb Hw Hopen. destruct Hw as [Ha Hi Hn Hm Him]. cbn in *. pose proof (incidents_opened _ _ _ _ _ Hi (wb_told _ Hb) Hopen) as Hreach.
  destruct (open_each_told (wk_incidents found) i (wb_staged _ Hb)) as (i1 & outcomes & Heach & _ & Hin).
  unfold incidents_Open in Hopen. rewrite Heach in Hopen. injection Hopen as <- <-. exists outcomes.
  split; [done |]. split; [| done]. rewrite <- app_assoc in Hreach. eexists. split; try done.
  intros one [Hone|Hone]%elem_of_app; [by apply Him |]. unfold opened_of in Hone. apply list_elem_of_fmap in Hone as ([one' outcome] & -> & Hone).
  apply list_elem_of_filter in Hone as [_ Hone]. by apply elem_of_zip_l in Hone.
Qed.

Lemma persist_written attempt found log ilog k more imore :
  workable found → attempted found log ilog k more imore →
  ∃ k' ok more' imore', persist attempt found k = (k', ok) ∧ attempted found log ilog k' more' imore'
    ∧ (ok = true → covered found k' more') ∧ (tp_alerts attempt = Reached → tp_stories attempt = Reached → ok = true).
Proof.
  intros Hb Hw. destruct k as [t i]. unfold persist. cbn [fst snd].
  assert (∃ t' recorded more', (if len (wk_alerts found) =? 0 then (t, true)
      else through (tp_alerts attempt) (is_written (alerts_Record (tp_at attempt) (wk_alerts found) t)) t) = (t', recorded)
    ∧ attempted found log ilog (t', i) more' imore ∧ (tp_alerts attempt = Reached → recorded = true)
    ∧ (recorded = true → ∀ c, c ∈ wk_alerts found → is_Some (tb_folded t' !! ca_detection c) ∨ (ca_detection c, OutcomeCooledDown) ∈ more'))
    as (t' & recorded & more' & -> & Hw' & Hreached & Hall).
  { destruct (Z.eqb_spec (len (wk_alerts found)) 0) as [Hnone|_].
    { exists t, true, more. split_and!; try done. intros _ c Hc. destruct (wk_alerts found); [by apply not_elem_of_nil in Hc |].
      unfold len in Hnone. cbn in Hnone. lia. }
    destruct (alerts_Record (tp_at attempt) (wk_alerts found) t) as [t' answer] eqn:Hrecord.
    destruct (written_alerts _ _ _ _ _ _ _ _ _ _ Hb Hw Hrecord) as (outcomes & -> & Hw' & Hall).
    destruct (tp_alerts attempt); [exists t', true | exists t, false | exists t', false]; eexists; (split_and!; [done | done | done |]).
    2,3: done. intros _ c Hc. rewrite elem_of_app. destruct (Hall c Hc); [by left | right; by right]. }
  destruct recorded; cbn [negb].
  2:{ exists (t', i), false, more', imore. split_and!; [done | done | done |]. intros H1 _. by rewrite (Hreached H1) in *. }
  destruct (Z.eqb_spec (len (wk_incidents found)) 0) as [Hnone|_].
  { exists (t', i), true, more', imore. split_and!; try done. intros _. split; [by apply Hall |]. intros one Hone.
    destruct (wk_incidents found); [by apply not_elem_of_nil in Hone |]. unfold len in Hnone. cbn in Hnone. lia. }
  destruct (incidents_Open (wk_incidents found) i) as [i' answer] eqn:Hopen.
  destruct (written_stories _ _ _ _ _ _ _ _ _ Hb Hw' Hopen) as (outcomes & -> & (imore' & Hw'') & Hin).
  destruct (tp_stories attempt); cbn; [exists (t', i'), true | exists (t', i), false | exists (t', i'), false].
  - exists more', imore'. split_and!; try done. intros _. split; [by apply Hall | done].
  - exists more', imore. by split_and!.
  - exists more', imore'. by split_and!.
Qed.

Lemma handle_found_stores maxDelay found log ilog rest last_ : ∀ before_ delay k more imore,
  workable found → attempted found log ilog k more imore → delay ≤ maxDelay → Forall (λ a, tp_cancelled a = false) before_ →
  tp_alerts last_ = Reached → tp_stories last_ = Reached →
  ∃ k' waited more' imore', handle_found maxDelay delay found (before_ ++ last_ :: rest) k = (k', waited, Some Stored)
    ∧ attempted found log ilog k' more' imore' ∧ covered found k' more' ∧ Forall (λ d, d ≤ maxDelay) waited
    ∧ (length waited ≤ length before_)%nat ∧ (0 < delay → maxDelay < 2 ^ 62 → Forall (λ d, 0 < d) waited).
Proof.
  induction before_ as [|attempt before_ IH]; intros delay k more imore Hb Hw Hdelay Hlive Ha Hs.
  - destruct (persist_written last_ found log ilog k more imore Hb Hw) as (k' & ok & more' & imore' & Hp & Hw' & Hcov & Hok).
    cbn. rewrite Hp, (Hok Ha Hs). exists k', [], more', imore'. split_and!; try done. by apply Hcov, Hok.
  - apply Forall_cons in Hlive as [Hgo Hlive].
    destruct (persist_written attempt found log ilog k more imore Hb Hw) as (k' & ok & more' & imore' & Hp & Hw' & Hcov & _).
    cbn. rewrite Hp. destruct ok.
    { exists k', [], more', imore'. split_and!; try done; [by apply Hcov | cbn; lia]. }
    rewrite Hgo. destruct (IH (Z.min (int64 (delay * 2)) maxDelay) k' more' imore') as (k2 & waited & more2 & imore2 & -> & Hw2 & Hcov2 & Hle & Hlen & Hpos);
      try done; [lia |]. exists k2, (delay :: waited), more2, imore2. split_and!; try done; [by constructor | cbn; lia |].
    intros Hd Hm. constructor; [done |]. apply Hpos; [| done]. rewrite int64_id by lia. lia.
Qed.
End stored.

Section handled.
Context {contract : Contract} {events : EventContract} {values : ClassValues} {postgres : Postgres} `{!PostgresLaws}.
Context {M : Type} {EV : Events M} {messages : DetectionMessages} `{!DetectionMessageLaws M}.
Context (Unquote : string → option string) (digest : string → string).

Lemma elem_of_considered {A} (f : Considered → option A) w at_ (records : list string) x :
  x ∈ omap f (consider_one (EV := EV) Unquote digest w at_ <$> records)
  ↔ ∃ value, value ∈ records ∧ f (consider_one (EV := EV) Unquote digest w at_ value) = Some x.
Proof.
  rewrite list_elem_of_omap. split.
  - intros (c & (value & -> & Hv)%list_elem_of_fmap & Hf). by exists value.
  - intros (value & Hv & Hf). eexists. split; [by apply list_elem_of_fmap; eexists | done].
Qed.

Lemma considered_workable w at_ records told reachable :
  (∀ c, c ∈ wk_alerts (writer_consider (EV := EV) Unquote digest w at_ records told).1 → ca_detection c ∈ reachable) →
  workable reachable (writer_consider (EV := EV) Unquote digest w at_ records told).1.
Proof.
  rewrite writer_consider_found. intros Hin. split; cbn [wk_alerts wk_incidents] in *.
  2: by apply Forall_forall.
  all: apply Forall_forall; intros x (value & Hv & Hf)%elem_of_considered;
    pose proof (consider_one_from Unquote digest w at_ value) as Hfrom; destruct (consider_one _ _ _ _ value); try done; injection Hf as ->; naive_solver.
Qed.

(** C13. Nothing worth a person's time is lost on its way to the stores, and nothing else gets
    there. A batch kept at is stored by the first attempt both stores answer, whatever the
    attempts before it wrote without being able to say so: each detection held to its
    contract, at the floor or above it and not suppressed stands as an incident when it
    tells a story and otherwise in an alert, unless the cooldown of its key kept it back;
    all that was recorded or opened is such a detection; between two attempts no more is
    waited than the ceiling. *)
Theorem what_is_worth_telling_becomes_work w writeTimeout at_ records told t log i ilog before_ last_ rest :
  NewWriter w writeTimeout = true → alerts_reach t log → incidents_reach i ilog →
  Forall (λ a, tp_cancelled a = false) before_ → tp_alerts last_ = Reached → tp_stories last_ = Reached →
  Z.of_nat (size (tb_folded t)) + len records < 2 ^ 63 →
  ∃ t' i' waited more imore,
    writer_handle (EV := EV) Unquote digest w at_ records told (before_ ++ last_ :: rest) (t, i) = ((t', i'), waited, Some Stored)
    ∧ alerts_reach t' (log ++ more) ∧ incidents_reach i' (ilog ++ imore)
    ∧ (∀ value made, value ∈ records → worth_telling (EV := EV) Unquote w at_ value made →
        if CorrelatesDetection made then is_Some (tb_incidents i' !! d_id made)
        else is_Some (tb_folded t' !! d_id made) ∨ (d_id made, OutcomeCooledDown) ∈ more)
    ∧ (∀ detection, detection ∈ more.*1 →
        ∃ value made, value ∈ records ∧ worth_telling (EV := EV) Unquote w at_ value made ∧ CorrelatesDetection made = false ∧ d_id made = detection)
    ∧ (∀ story, story ∈ imore →
        ∃ value made, value ∈ records ∧ worth_telling (EV := EV) Unquote w at_ value made ∧ CorrelatesDetection made = true ∧ d_id made = tr_id story)
    ∧ (length waited ≤ length before_)%nat ∧ Forall (λ d, d ≤ aw_maxRetryDelay w) waited
    ∧ (aw_maxRetryDelay w < 2 ^ 62 → Forall (λ d, 0 < d) waited).
Proof.
  intros Hnew Hreach Hireach Hlive Ha Hs Hsize. set (found := (writer_consider (EV := EV) Unquote digest w at_ records told).1).
  set (reachable := dom (tb_folded t) ∪ list_to_set (ca_detection <$> wk_alerts found) : gset string).
  assert (Hfits : Z.of_nat (size reachable) < 2 ^ 63).
  { assert (size reachable ≤ size (tb_folded t) + length records)%nat; [| unfold len in Hsize; lia].
    unfold reachable. rewrite size_union_alt. rewrite (size_dom (D := gset string)). apply Nat.add_le_mono_l.
    etrans; [apply (subseteq_size _ (list_to_set (ca_detection <$> wk_alerts found))); set_solver |].
    etrans; [apply size_of_list |]. rewrite length_fmap. unfold found. rewrite writer_consider_found. cbn [wk_alerts].
    etrans; [apply length_of_omap |]. by rewrite length_fmap. }
  assert (Hb : workable reachable found) by (apply considered_workable; intros c Hc; unfold reachable; set_solver).
  destruct (handle_found_stores reachable Hfits (aw_maxRetryDelay w) found log ilog rest last_ before_ (aw_retryDelay w) (t, i) [] [])
    as ([t' i'] & waited & more & imore & Hrun & Hw & Hcov & Hle & Hlen & Hpos); try done.
  { split; cbn; rewrite ?app_nil_r; try done; [unfold reachable; set_solver | by intros ? ? ?%not_elem_of_nil | by intros ? ?%not_elem_of_nil]. }
  { unfold NewWriter in Hnew. lia. }
  exists t', i', waited, more, imore. destruct Hw as [Hr1 Hr2 _ Hm Him]. destruct Hcov as [Hc1 Hc2]. cbn [fst snd] in *.
  unfold found in *. rewrite writer_consider_found in Hm, Him, Hc1, Hc2. cbn [wk_alerts wk_incidents] in *.
  split_and!; try done.
  - intros value made Hv Hworth. pose proof (consider_one_worth Unquote digest w at_ value made Hworth) as Hone.
    destruct (CorrelatesDetection made).
    + destruct Hone as (story & Hone & <-). apply elem_of_dom, Hc2, elem_of_considered. exists value. by rewrite Hone.
    + destruct Hone as (c & Hone & <-). apply Hc1, elem_of_considered. exists value. by rewrite Hone.
  - intros detection ([d outcome] & -> & Hin)%list_elem_of_fmap. destruct (Hm _ _ Hin) as (c & (value & Hv & Hone)%elem_of_considered & <-).
    pose proof (consider_one_from Unquote digest w at_ value) as Hfrom. destruct (consider_one _ _ _ _ value); try done. injection Hone as ->.
    destruct Hfrom as (made & Hworth & Hc & Hid & _). by exists value, made.
  - intros story Hin. destruct (proj1 (elem_of_considered _ _ _ _ _) (Him _ Hin)) as (value & Hv & Hone).
    pose proof (consider_one_from Unquote digest w at_ value) as Hfrom. destruct (consider_one _ _ _ _ value); try done. injection Hone as ->.
    destruct Hfrom as (made & Hworth & Hc & Hid & _). by exists value, made.
  - apply Hpos. unfold NewWriter in Hnew. lia.
Qed.
End handled.
