(* ===== verification/SampleStores.v ===== *)
(** * Alerts, incidents, agents and their stores at work: witnesses, and what cursors lose *)

From Stdlib Require Import ZArith Lia Ascii Floats.SpecFloat.
From stdpp Require Import base tactics option gmap strings pretty sorting numbers list.
From S2P Require Import Prelude Text Scan Hex Rule Contract Bytes Validate Compile CompileProps State Window Story Digest Detected Sample Keeper KeeperInv KeeperProps Engine EngineProps EngineBatch SampleEngine Triage Alert Incident Agent Session Event Canonical Assessment Listing Trail AlertStore AlertStoreProps IncidentStore Policy SampleHunt AlertWriter.


(** ** An alert *)

Definition no_unquote (s : string) : option string := Some s.

Definition raised_or (made : Detection) (at_ : instant) : Tracked AlertAbout :=
  match @Raise tree tree_events made at_ with
  | Ok a => a
  | Err _ => mkTracked "" (mkAlertAbout 0 "" "" (decided (sample_rule Missing no_sequence))
               SEVERITY_LOW None 0 "" None 0 0 0 0 "") STATE_OPEN "" 1 "" 0 None
  end.
Definition open_alert : Tracked AlertAbout := raised_or sample_detection 8.

Example open_alert_is_raised :
  @Raise tree tree_events sample_detection 8 = Ok open_alert.
Proof. vm_compute. reflexivity. Qed.

Definition dismiss : Move := mkMove FalsePositive None "scanner" "ana" 9 1.
Definition assign : Move := mkMove "" (Some "bo") "" "ana" 9 1.

Definition applied (a : Tracked AlertAbout) (m : Move) : Tracked AlertAbout * Transition :=
  match Apply a m with Ok r => r | Err _ => (a, Raised a) end.

Lemma open_alert_dismissed : Apply open_alert dismiss = Ok (applied open_alert dismiss).
Proof. vm_compute. reflexivity. Qed.

Lemma open_alert_closure_ok : closure_ok open_alert.
Proof. exists Open. split_and!; [reflexivity | discriminate | reflexivity]. Qed.

Lemma an_accepted_move_is_legal_and_recorded_witness :
  tr_state (applied open_alert dismiss).1 = STATE_FALSE_POSITIVE
  ∧ closure_ok (applied open_alert dismiss).1.
Proof.
  split; [vm_compute; reflexivity |].
  apply (an_accepted_move_is_legal_and_recorded open_alert dismiss (applied open_alert dismiss).1
    (applied open_alert dismiss).2 open_alert_closure_ok).
  rewrite open_alert_dismissed. by destruct (applied open_alert dismiss).
Defined.

Lemma a_legal_move_is_never_refused_witness :
  ∃ moved t, Apply open_alert (mkMove Resolved None "patched" "ana" 9 1) = Ok (moved, t)
    ∧ tr_state moved = STATE_RESOLVED.
Proof.
  apply (a_legal_move_is_never_refused open_alert Open Resolved "patched" "ana" 9);
    [reflexivity | reflexivity | discriminate | discriminate].
Defined.

Lemma the_second_of_two_is_told_witness :
  ∃ err, Apply (applied open_alert dismiss).1 assign = Err err ∧ Refused err = false.
Proof.
  destruct (the_second_of_two_is_told open_alert dismiss (applied open_alert dismiss).1
    (applied open_alert dismiss).2 assign) as (err & He & _ & Hr);
    [vm_compute; split; reflexivity | | discriminate | reflexivity | by exists err].
  rewrite open_alert_dismissed. by destruct (applied open_alert dismiss).
Defined.

Lemma the_trail_tells_the_whole_life_witness :
  chained STATE_UNSPECIFIED 1 [Raised open_alert; (applied open_alert dismiss).2].
Proof.
  apply (the_trail_tells_the_whole_life open_alert (applied open_alert dismiss).1
    (Raised open_alert) [Raised open_alert; (applied open_alert dismiss).2]);
    try (vm_compute; reflexivity).
  apply (worked_moved _ _ open_alert [Raised open_alert] dismiss); [constructor |].
  rewrite open_alert_dismissed. by destruct (applied open_alert dismiss).
Defined.

(** ** Folding and suppressing *)

Definition sample_tuning : Tuning := mkTuning keyed_by_rule ∅ [three_agents].

Lemma sample_tuning_accepted : NewTuning keyed_by_rule ∅ [three_agents] = Ok sample_tuning.
Proof. vm_compute. reflexivity. Qed.

Lemma what_folds_is_one_tenants_one_rule_witness :
  @tenant_of tree tree_events sample_detection
  = @tenant_of tree tree_events (Detected id (mkMatch sample_match [] no_count no_story) "other" alice_fails 9).
Proof.
  apply (what_folds_is_one_tenants_one_rule no_unquote keyed_by_rule ∅ [three_agents] sample_tuning
    sample_detection (Detected id (mkMatch sample_match [] no_count no_story) "other" alice_fails 9)
    sample_tuning_accepted); [discriminate | discriminate | vm_compute; reflexivity].
Defined.

Definition noisy : Suppression := mkSuppression "ssh_bruteforce" ∅ "scanner" 100.

Lemma a_suppression_is_explained_and_in_force_witness :
  blank (sup_reason noisy) = false ∧ (sup_until noisy = 0 ∨ 50 < sup_until noisy).
Proof.
  destruct (a_suppression_is_explained_and_in_force (EV := tree_events) no_unquote keyed_by_rule ∅ [noisy]
    (mkTuning keyed_by_rule ∅ [noisy]) sample_detection 50 noisy) as (H1 & H2 & _);
    [vm_compute; reflexivity | vm_compute; reflexivity | by split].
Defined.

(** ** An incident *)

Definition dot (s : string) : string := "." +:+ s.

Definition dotted_failure : EngineState Keeper :=
  (decide_one dot always story_program alice_fails 0 (fresh wide_bounds)).1.

Lemma dotted_failure_stored : stored wide_bounds (eng_store dotted_failure).
Proof.
  assert (eng_store dotted_failure = (Ordered None (key_of dot story_program alice_fails)
    (story_observation 1 alice_fails 0) (10 * second) (store_of wide_bounds)).1) as ->
    by (vm_compute; reflexivity).
  apply (reach_fold wide_bounds), wide_stored.
Qed.

Lemma a_completed_story_raises_an_incident_witness :
  ∃ m one, @RaiseIncident tree tree_events (Detected dot m "rs" root_succeeds 9) 9 = Ok one
    ∧ (ds_name <$> in_stages (tr_about one)) = ["failed"; "as root"].
Proof.
  destruct (fired_inv (completed dot always story_program (mkMatch story_rule [] no_count no_story)
    root_succeeds 0 dotted_failure)) as [m Hm]; [vm_compute; reflexivity |].
  destruct (a_completed_story_raises_an_incident (stored wide_bounds) dot always story_program
    root_succeeds 0 dotted_failure (completed dot always story_program
      (mkMatch story_rule [] no_count no_story) root_succeeds 0 dotted_failure).1
    m "rs" 9 dotted_failure_stored) as (one & Hr & _ & Hn & _);
    [vm_compute; discriminate | reflexivity | discriminate | discriminate | discriminate | exact Hm |].
  exists m, one. by split.
Defined.

(** ** An agent *)

Definition registered : AgentRecord :=
  mkAgentRecord "web-01" 1 "acme" AGENT_PENDING (mkAgentPlatform "linux" "amd64" "web-01") "1.0.0"
    5 "operator" 5 1 None.

Example web01_registers :
  (λ r, r.1) <$> (match Register web01 "operator" 5 with Ok r => Some r | Err _ => None end)
  = Some registered.
Proof. vm_compute. reflexivity. Qed.

Definition zeros (n : nat) : string := Nat.iter n (String "0") "".
Definition certificate : CertIdentity := mkCertIdentity "web-01" "0a" (zeros 64) (Some 6) (Some 99).
Definition bind : AgentMove :=
  mkAgentMove "" (Some certificate) "" "operator" 7 "ca" "" "" (mkAsked "" "") false 1.
Definition bound : AgentRecord :=
  match agent_Apply registered bind with Ok (a, _) => a | Err _ => registered end.

Lemma an_agent_moves_by_its_lifecycle_witness :
  a_state bound = AGENT_ACTIVE ∧ agent_moved registered bind bound.
Proof.
  split; [vm_compute; reflexivity |].
  apply (an_agent_moves_by_its_lifecycle registered bind bound
    (mkAgentTransition "web-01" 2 AGENT_PENDING AGENT_ACTIVE "operator" 7 "")).
  vm_compute. reflexivity.
Defined.

Definition revoked : AgentRecord := acts [declare Revoked 1] registered.

Lemma an_ending_is_final_witness : acts [bind; declare Active 2] revoked = revoked.
Proof. apply (an_ending_is_final revoked Revoked); vm_compute; reflexivity. Defined.

Lemma an_agent_is_declared_active_witness :
  a_state (acts [declare Disabled 1; declare Active 2] registered) = AGENT_ACTIVE
  ∧ a_identity (acts [declare Disabled 1; declare Active 2] registered) = None.
Proof.
  destruct (an_agent_is_declared_active registered
    (mkAgentTransition "web-01" 1 AGENT_UNSPECIFIED AGENT_PENDING "operator" 5 "")) as (_ & Ha & Hi & _);
    [vm_compute; reflexivity | by split].
Defined.

Definition admission_log : list AdmissionRecord :=
  [Admission registered; Admission bound; Admission registered].

Lemma rosters_converge_witness : read_log admission_log = read_log (reverse admission_log).
Proof. apply (rosters_converge admission_log (reverse admission_log)). intros. by rewrite elem_of_reverse. Defined.

Lemma admission_is_the_newest_decision_witness :
  ∃ record revision, record ∈ admission_log
    ∧ opinion "web-01" record = Some (mkDecided true "acme" revision).
Proof.
  destruct (admission_is_the_newest_decision admission_log "web-01" "acme")
    as (record & revision & Hin & Ho & _); [vm_compute; reflexivity | by exists record, revision].
Defined.

Lemma an_unreadable_decision_stops_admission_witness :
  roster_Tenant "web-01" (read_log admission_log) = Some "acme"
  ∧ roster_Tenant "web-01" (roster_Apply (Admission bound) (Refuse "web-01" (read_log admission_log))).1
    = None.
Proof.
  split; [vm_compute; reflexivity |].
  apply (an_unreadable_decision_stops_admission "web-01" (read_log admission_log) (Admission bound));
    [discriminate | reflexivity | | apply (bool_decide_unpack _); vm_compute; exact I].
  intros held Hh. vm_compute in Hh. injection Hh as <-. vm_compute. discriminate.
Defined.

(** * The control stores at concrete tables: witnesses, and what their cursors lose *)


(** ** A PostgreSQL *)

#[global] Instance toy_postgres : Postgres := {|
  collate a b := bool_decide (String.le a b) && negb (bool_decide (a = b));
  timestamptz t := t - t mod 1000;
  any_of := @head;
  heap_order := λ _ l, l;
|}.

Lemma toy_collates a b : collate a b = true ↔ String.le a b ∧ a ≠ b.
Proof. cbn. rewrite andb_true_iff, negb_true_iff, bool_decide_eq_true, bool_decide_eq_false. done. Qed.

#[global] Instance toy_postgres_laws : PostgresLaws.
Proof.
  split.
  - intros a. destruct (collate a a) eqn:H; [| done]. by apply toy_collates in H as [_ ?].
  - intros a b c [Hab Hne]%toy_collates [Hbc Hne']%toy_collates. apply toy_collates. split; [by trans b |].
    intros ->. apply Hne. by apply (anti_symm String.le).
  - intros a b. destruct (decide (a = b)) as [|Hne]; [by right; left |]. rewrite !toy_collates.
    destruct (total String.le a b); [by left | right; right; by split].
  - intros t. cbn. pose proof (Z.mod_pos_bound t 1000). lia.
  - intros t Ht. cbn. lia.
  - intros t. cbn. rewrite Zminus_mod_idemp_r, Z.sub_diag. done.
  - intros A l x. cbn. destruct l; [done |]. intros [= <-]. by left.
  - intros A l. cbn. destruct l; [done |]. by eexists.
  - intros A l. done.
Qed.

#[global] Instance toy_classes : ClassValues := {|
  EventClass_value name := if bool_decide (name = "EVENT_CLASS_AUTHENTICATION") then 1 else 0;
|}.

#[global] Instance toy_class_laws : ClassLaws.
Proof.
  split; [done |]. intros c name. cbn. destruct (Z.eqb_spec c 0); [done |]. destruct (Z.eqb_spec c 1) as [->|]; [| done].
  intros [= <-] _. exists "AUTHENTICATION". by vm_compute.
Qed.

(** ** Detections of one rule, named apart *)

Definition detected_as (name : string) (at_ : instant) : Detection :=
  let d := sample_detection in
  mkDetection name (d_schema d) (d_rule d) (d_ruleset d) (d_severity d) (d_technique d) (d_class d) (d_origin d) (d_events d)
    (Some at_) (d_detected_time d) (d_evidence d) (d_aggregation d) (d_correlation d).

(** Alerts of a rule fold within ten seconds and stay quiet a minute after one was closed. *)
Definition cooling_tuning : Tuning := mkTuning (mkFold [PartRule] (10 * second) minute) ∅ [].
(** Alerts that never fold. *)
Definition apart_tuning : Tuning := mkTuning (mkFold [PartRule; PartAgent] 0 0) ∅ [].

Definition candidate_of (tuning : Tuning) (name : string) (happened at_ : instant) : Candidate :=
  match Consider (EV := tree_events) no_unquote id (detected_as name happened) tuning at_ with
  | Ok c => c
  | Err _ => mkCandidate open_alert "" "" [] 0 0 0
  end.

Definition noon : instant := session_epoch + 43200 * second.
(** An instant past a whole millisecond, as most are. *)
Definition past_noon : instant := noon + 123456 * 1000.

(** A failed login at noon and another five seconds later. *)
Definition first_batch : list Candidate :=
  [candidate_of cooling_tuning "d-1" noon noon; candidate_of cooling_tuning "d-2" (noon + 5 * second) noon].

Lemma considered_candidate tuning name happened at_ : name ≠ "" → considered (candidate_of tuning name happened at_).
Proof.
  intros Hname. unfold candidate_of.
  destruct (Consider no_unquote id (detected_as name happened) tuning at_) as [c|e] eqn:Hc;
    [by eapply Consider_considered |]. exfalso. revert Hc. unfold Consider, Raise.
  rewrite bool_decide_false by done. rewrite bool_decide_false by (vm_compute; discriminate). done.
Qed.

Definition no_alerts : AlertTables := mkAlertTables ∅ ∅ ∅.
Definition after_first_batch : AlertTables := (alerts_Record noon first_batch no_alerts).1.
Definition resolve : Move := mkMove Resolved None "patched" "ana" (noon + 20 * second) 0.
Definition after_resolve : AlertTables := (alerts_Move "d-1" ["acme"] resolve after_first_batch).1.

Example first_batch_folds :
  (alerts_Record noon first_batch no_alerts).2 = Ok [OutcomeRaised; OutcomeFolded]
  ∧ (ar_occurrences <$> tb_alerts after_resolve !! "d-1") = Some 2 ∧ (ar_state <$> tb_alerts after_resolve !! "d-1") = Some Resolved.
Proof. vm_compute. done. Qed.

Definition first_log : list (string * AlertOutcome) := [("d-1", OutcomeRaised); ("d-2", OutcomeFolded)].

Lemma resolve_reached : alerts_reach after_resolve first_log.
Proof.
  apply (alerts_moved after_first_batch first_log "d-1" ["acme"] resolve _ (alerts_Move "d-1" ["acme"] resolve after_first_batch).2).
  - apply (alerts_recorded no_alerts [] noon first_batch _ (Ok [OutcomeRaised; OutcomeFolded])).
    + constructor.
    + repeat constructor; by apply considered_candidate.
    + vm_compute. reflexivity.
  - unfold after_resolve. by destruct (alerts_Move "d-1" ["acme"] resolve after_first_batch).
Qed.

Lemma an_alert_s_history_is_its_life_witness :
  ∃ a lines, alerts_Alert after_resolve "d-1" ["acme"] = Ok a ∧ alerts_History after_resolve "d-1" ["acme"] = Ok lines
    ∧ len lines = 2 ∧ chained STATE_UNSPECIFIED 1 lines.
Proof.
  destruct (alerts_Alert after_resolve "d-1" ["acme"]) as [a|] eqn:Ha; [| vm_compute in Ha; discriminate].
  destruct (alerts_History after_resolve "d-1" ["acme"]) as [lines|] eqn:Hl; [| vm_compute in Hl; discriminate].
  exists a, lines. destruct (an_alert_s_history_is_its_life after_resolve first_log "d-1" ["acme"] a lines resolve_reached Ha Hl)
    as (Hchained & Hlen & _). split_and!; [reflexivity | reflexivity | | exact Hchained].
  rewrite Hlen. vm_compute in Ha. injection Ha as <-. reflexivity.
Defined.

Lemma an_alert_accounts_for_its_detections_witness : NoDup (taken first_log) ∧ "d-2" ∈ taken first_log.
Proof.
  split; [exact (proj1 (an_alert_accounts_for_its_detections after_resolve first_log resolve_reached)) |].
  apply (bool_decide_unpack _). vm_compute. exact I.
Defined.

Lemma a_redelivered_batch_is_repeated_witness :
  alerts_Record (noon + hour) first_batch after_resolve = (after_resolve, Ok [OutcomeRepeated; OutcomeRepeated]).
Proof.
  apply (a_redelivered_batch_is_repeated noon first_batch no_alerts after_first_batch [OutcomeRaised; OutcomeFolded] after_resolve (noon + hour)).
  - vm_compute. reflexivity.
  - apply rtc_once. apply (step_moved "d-1" ["acme"] resolve after_first_batch after_resolve
      (alerts_Move "d-1" ["acme"] resolve after_first_batch).2). unfold after_resolve. by destruct (alerts_Move "d-1" ["acme"] resolve after_first_batch).
  - apply (bool_decide_unpack _). vm_compute. exact I.
Defined.

(** ** What a redelivery may change *)

(** After the alert was resolved: one detection within the minute it stays quiet, and one
    after it. *)
Definition second_batch : list Candidate :=
  [candidate_of cooling_tuning "d-3" (noon + 75 * second) noon; candidate_of cooling_tuning "d-4" (noon + 81 * second) noon].
Definition after_second_batch : AlertTables := (alerts_Record noon second_batch after_resolve).1.

(** A batch redelivered may decide what it did not decide the first time: of a batch whose
    first detection falls within a cooldown and whose second raises the next alert of the key,
    a second delivery folds the first into the alert the second raised and counts it there. *)
Theorem a_cooled_detection_folds_when_redelivered :
  (alerts_Record noon second_batch after_resolve).2 = Ok [OutcomeCooledDown; OutcomeRaised]
  ∧ (alerts_Record noon second_batch after_second_batch).2 = Ok [OutcomeFolded; OutcomeRepeated]
  ∧ (ar_occurrences <$> tb_alerts after_second_batch !! "d-4") = Some 1
  ∧ (ar_occurrences <$> tb_alerts (alerts_Record noon second_batch after_second_batch).1 !! "d-4") = Some 2.
Proof. vm_compute. done. Qed.

(** ** What a cursor loses *)

Definition apart_batch : list Candidate :=
  [candidate_of apart_tuning "d-1" noon past_noon; candidate_of apart_tuning "d-2" (noon + second) past_noon].
Definition apart_tables : AlertTables := (alerts_Record past_noon apart_batch no_alerts).1.
Definition one_at_a_time : AlertQuery := mkAlertQuery None None [] [] "" "" "" 1 "".

(** A listing of alerts can leave alerts out: a batch raises its alerts at one instant, the
    cursor keeps that instant's millisecond and the column its microseconds, so when a page
    ends among them the next one starts before all of them. Here two alerts are raised, both
    are seen, and following the cursors lists one. *)
Theorem a_page_boundary_loses_alerts :
  (alerts_Record past_noon apart_batch no_alerts).2 = Ok [OutcomeRaised; OutcomeRaised]
  ∧ ((λ row, alert_seen one_at_a_time ["acme"] row) <$> alert_rows apart_tables) = [true; true]
  ∧ match follow_pages 3 (alert_pages apart_tables one_at_a_time ["acme"]) "" with
    | Some (Ok listed) => (ar_id <$> listed) = ["d-2"]
    | _ => False
    end.
Proof. vm_compute. done. Qed.

Lemma pages_of_alerts_list_each_once_witness :
  ∃ listed, follow_pages 2 (alert_pages after_resolve one_at_a_time ["acme"]) "" = Some (Ok listed) ∧ NoDup listed.
Proof.
  destruct (pages_of_alerts_list_each_once after_resolve first_log one_at_a_time ["acme"] 2 resolve_reached) as (listed & Hf & Hnd & _).
  - assert (Forall (λ row, ar_raised_at row = noon) (alert_rows after_resolve)) as Hall by (apply (bool_decide_unpack _); vm_compute; exact I).
    intros row Hrow _. rewrite Forall_forall in Hall. rewrite (Hall row Hrow). vm_compute. repeat split; discriminate.
  - vm_compute. lia.
  - exists listed. by split.
Defined.

(** ** A story *)

Definition brute_force_story : Tracked IncidentAbout :=
  mkTracked "s-1"
    {| in_schema := 1; in_tenant := "acme"; in_detection := "s-1"; in_rule := d_rule sample_detection; in_ruleset := "rs";
       in_severity := SEVERITY_HIGH; in_confidence := CONFIDENCE_HIGH; in_technique := None; in_class := 1; in_agent := "web-01";
       in_stages := [mkDetectedStage "failed" "e-1" noon "web-01"; mkDetectedStage "as root" "e-2" (noon + second + 7) "web-01"];
       in_group := []; in_window := 10 * second; in_spread := 1500000; in_first := noon; in_last := noon + second + 7;
       in_raised_at := past_noon |}
    STATE_OPEN "" 1 Platform past_noon None.

Definition no_incidents : IncidentTables := mkIncidentTables ∅ ∅.
Definition story_opened : IncidentTables := (incidents_Open [brute_force_story; brute_force_story] no_incidents).1.
Definition story_moved : IncidentTables := (incidents_Move "s-1" ["acme"] resolve story_opened).1.

Lemma story_reached : incidents_reach story_moved [brute_force_story].
Proof.
  apply (incidents_moved story_opened [brute_force_story] "s-1" ["acme"] resolve _ (incidents_Move "s-1" ["acme"] resolve story_opened).2).
  - apply (incidents_opened no_incidents [] [brute_force_story; brute_force_story] _ (Ok [IncidentRaised; IncidentRepeated])).
    + constructor.
    + repeat constructor; discriminate.
    + vm_compute. reflexivity.
  - unfold story_moved. by destruct (incidents_Move "s-1" ["acme"] resolve story_opened).
Qed.

Lemma brute_force_tellable : tellable (tr_about brute_force_story).
Proof.
  split; [vm_compute; by split | vm_compute; by split | | done | done | done | by eexists | vm_compute; by split | vm_compute; by split].
  intros s Hs. vm_compute in Hs. discriminate || by injection Hs as <-.
Qed.

Lemma an_incident_keeps_its_story_witness :
  ∃ a lines, incidents_Incident story_moved "s-1" ["acme"] = Ok a ∧ incidents_History story_moved "s-1" ["acme"] = Ok lines
    ∧ len lines = tr_revision a ∧ tr_revision a = 2.
Proof.
  destruct (incidents_Incident story_moved "s-1" ["acme"]) as [a|] eqn:Ha; [| vm_compute in Ha; discriminate].
  destruct (incidents_History story_moved "s-1" ["acme"]) as [lines|] eqn:Hl; [| vm_compute in Hl; discriminate].
  exists a, lines. destruct (an_incident_keeps_its_story story_moved [brute_force_story] "s-1" ["acme"] a lines story_reached) as (_ & _ & Hlen & _);
    [constructor; [exact brute_force_tellable | constructor] | exact Ha | exact Hl |]. split_and!; [reflexivity | reflexivity | exact Hlen |].
  vm_compute in Ha. injection Ha as <-. reflexivity.
Defined.

(** ** From detections to work *)

(** A detection of one failed login and a story of two, as a consumer reads them. *)
Definition wire_origin : Proto := new_Origin "web-01" "acme".
Definition wire_rule : DetectedRule := mkDetectedRule "auth.failed" 1 "Failed login" None.
Definition wire_finding : WireDetection :=
  mkWireDetection "d-finding" DetectionSchemaVersion (Some wire_rule) "rs-1" SEVERITY_HIGH None 1 (Some wire_origin)
    ["evt-00001"] (Some (mkWireTime 36000 0)) (Some (mkWireTime 36001 0)) [] None None.
Definition wire_story : WireDetection :=
  mkWireDetection "d-story" DetectionSchemaVersion (Some wire_rule) "rs-1" SEVERITY_HIGH None 1 (Some wire_origin)
    ["evt-00001"; "evt-00002"] (Some (mkWireTime 36005 0)) (Some (mkWireTime 36006 0)) [] None
    (Some (mkWireCorrelation (Some (mkWireDuration 10 0)) (Some (mkWireDuration 1 0))
      [Some (mkToldStage "failed" "evt-00001" (Some (mkWireTime 36000 0)) "web-01");
       Some (mkToldStage "as root" "evt-00002" (Some (mkWireTime 36005 0)) "web-01")] [])).

#[global] Instance toy_detection_messages : DetectionMessages := {|
  Unmarshal_Detection value :=
    if bool_decide (value = "finding") then Some wire_finding else if bool_decide (value = "story") then Some wire_story else None;
  detection_Size _ := 200;
  origin_read o := mkOriginPart (proto_text "tenant_id" (Some o)) (proto_text "agent_id" (Some o)) None;
|}.

#[global] Instance toy_detection_laws : DetectionMessageLaws tree.
Proof. by split. Qed.

Definition toy_writer : AlertWriter := mkAlertWriter cooling_tuning SEVERITY_MEDIUM second (10 * second).
Definition three_records : list string := ["finding"; "noise"; "story"].

Lemma wire_finding_worth : worth_telling (EV := tree_events) no_unquote toy_writer noon "finding" (detection_told wire_finding).
Proof.
  split; [vm_compute; discriminate | | vm_compute; reflexivity | vm_compute; reflexivity].
  exists wire_finding. split_and!; vm_compute; reflexivity.
Qed.

Lemma wire_story_worth : worth_telling (EV := tree_events) no_unquote toy_writer noon "story" (detection_told wire_story).
Proof.
  split; [vm_compute; discriminate | | vm_compute; reflexivity | vm_compute; reflexivity].
  exists wire_story. split_and!; vm_compute; reflexivity.
Qed.

(** The alerts were written without the writer being told, the stories not at all; the
    second attempt is answered. *)
Definition untold_attempt : WriteAttempt := mkWriteAttempt noon LostAfter LostBefore false.
Definition answered_attempt : WriteAttempt := mkWriteAttempt noon Reached Reached false.

Lemma what_is_worth_telling_becomes_work_witness :
  ∃ t' i' waited (more : list (string * AlertOutcome)),
    writer_handle (EV := tree_events) no_unquote id toy_writer noon three_records ∅ [untold_attempt; answered_attempt] (after_resolve, story_moved)
    = ((t', i'), waited, Some Stored)
    ∧ (is_Some (tb_folded t' !! "d-finding") ∨ ("d-finding", OutcomeCooledDown) ∈ more)
    ∧ is_Some (tb_incidents i' !! "d-story") ∧ (length waited ≤ 1)%nat.
Proof.
  destruct (what_is_worth_telling_becomes_work (EV := tree_events) no_unquote id toy_writer second noon three_records ∅ after_resolve first_log
    story_moved [brute_force_story] [untold_attempt] answered_attempt []) as (t' & i' & waited & more & imore & Hrun & _ & _ & Hall & _ & _ & Hlen & _).
  - vm_compute. reflexivity.
  - exact resolve_reached.
  - exact story_reached.
  - repeat constructor.
  - reflexivity.
  - reflexivity.
  - vm_compute. reflexivity.
  - exists t', i', waited, more. split_and!; [exact Hrun | | | exact Hlen].
    + refine (Hall "finding" (detection_told wire_finding) _ wire_finding_worth). by left.
    + refine (Hall "story" (detection_told wire_story) _ wire_story_worth). right. right. by left.
Defined.
