(* ===== verification/SampleAgents.v ===== *)
(** * The control plane at concrete inputs

    The registry and the admission log at one agent, a caller that works alerts, and one
    that administers the agent. *)

From Stdlib Require Import ZArith Lia Ascii.
From stdpp Require Import base tactics option gmap strings pretty sorting numbers list.
From S2P Require Import Prelude Text Scan Hex Bytes Session Event Canonical Assessment Agent Listing Triage Trail AgentStore Announce Authz Limiter Alert AlertStore AlertStoreProps Guard Status AgentRoutes SampleUpdates SampleHunt SampleInventory SampleStores.

Definition sample_fingerprint (digit : ascii) : string := Nat.iter 64 (String digit) "".
Definition sample_identity (digit : ascii) : CertIdentity :=
  mkCertIdentity "web-01" "0a" (sample_fingerprint digit) (Some (6 * second)) (Some (900 * second)).

Definition bind_first : AgentMove :=
  mkAgentMove "" (Some (sample_identity "1")) "" "operator" (10 * second) "CN=agents" "" "" (mkAsked "" "") false 0.
Definition revoke_it : AgentMove :=
  mkAgentMove Revoked None "stolen" "operator" (20 * second) "" "" "" (mkAsked "" "") false 0.
Definition renew_it (digit : ascii) (presented request : string) : AgentMove :=
  mkAgentMove "" (Some (sample_identity digit)) "" "web-01" (15 * second) "CN=agents" presented request (mkAsked "" "") false 0.

Definition decided_or (answer : result RegistryError AgentRecord) : AdmissionRecord :=
  match answer with Ok a => Admission a | Err _ => mkAdmission "" "" AGENT_UNSPECIFIED 0 0 end.

Definition was_registered := agents_Register web01 "operator" (5 * second) no_agents.
Definition was_bound := agents_Move "web-01" ["acme"] bind_first was_registered.1.
Definition was_revoked := agents_Move "web-01" ["acme"] revoke_it was_bound.1.

Definition told_pending : AdmissionRecord := decided_or was_registered.2.
Definition told_active : AdmissionRecord := decided_or was_bound.2.
Definition told_revoked : AdmissionRecord := decided_or was_revoked.2.

(** ** Reaching it *)

Lemma registered_reached : plane_reach (mkPlane was_registered.1 [] [told_pending]).
Proof.
  eapply rtc_l; [| apply rtc_refl]. unfold told_pending. destruct was_registered as [t' [a|e]] eqn:Hop; [| by vm_compute in Hop].
  exact (plane_registers web01 "operator" (5 * second) no_agents t' a [] [] Hop).
Qed.

Lemma bound_reached : plane_reach (mkPlane was_bound.1 [] [told_active; told_pending]).
Proof.
  eapply rtc_r; [exact registered_reached |]. unfold told_active. destruct was_bound as [t' [a|e]] eqn:Hop; [| vm_compute in Hop; discriminate].
  exact (plane_moves "web-01" ["acme"] bind_first was_registered.1 t' a [] [told_pending] eq_refl Hop).
Qed.

Lemma revoked_reached : plane_reach (mkPlane was_revoked.1 [] [told_revoked; told_active; told_pending]).
Proof.
  eapply rtc_r; [exact bound_reached |]. unfold told_revoked. destruct was_revoked as [t' [a|e]] eqn:Hop; [| by vm_compute in Hop].
  exact (plane_moves "web-01" ["acme"] revoke_it was_bound.1 t' a [] [told_active; told_pending] eq_refl Hop).
Qed.

(** ** A revocation overtaken *)

(** The announcement of the binding is carried by a caller that is slow: the revocation is
    published and recorded before it. *)
Definition overtaken : Plane :=
  mkPlane (agents_Announced "web-01" 3 was_revoked.1) [told_revoked; told_active] [told_revoked; told_active; told_pending].

Lemma overtaken_reached : plane_reach overtaken.
Proof.
  set (held := [told_revoked; told_active; told_pending]).
  assert (plane_reach (mkPlane was_revoked.1 [told_revoked] held)) as Hpublished.
  { eapply rtc_r; [exact revoked_reached |]. apply (plane_publishes told_revoked was_revoked.1 [] held). left. }
  assert (plane_reach (mkPlane (agents_Announced "web-01" 3 was_revoked.1) [told_revoked] held)) as Hrecorded.
  { eapply rtc_r; [exact Hpublished |].
    assert (ad_agent told_revoked = "web-01" ∧ ad_revision told_revoked = 3) as [Ha Hr] by (vm_compute; done).
    rewrite <- Ha, <- Hr. apply (plane_records told_revoked was_revoked.1 [told_revoked] held). left. }
  eapply rtc_r; [exact Hrecorded |].
  apply (plane_publishes told_active (agents_Announced "web-01" 3 was_revoked.1) [told_revoked] held). right. left.
Qed.

(** A revocation may outlive its log: where an older announcement is published after a
    newer one, the registry counts the agent as announced and every gateway that read the
    log refuses it, but compaction, which keeps the last record of a key, keeps the older,
    and a gateway that starts on what is left admits an agent that is revoked, with nothing
    outstanding to correct it. *)
Theorem a_late_announcement_outlives_a_revocation :
  plane_reach overtaken ∧ unannounced (pl_tables overtaken) = []
  ∧ (gr_state <$> tb_agents (pl_tables overtaken) !! "web-01") = Some Revoked
  ∧ roster_Tenant "web-01" (read_log (pl_log overtaken)) = None
  ∧ roster_Tenant "web-01" (read_log (compacted (pl_log overtaken))) = Some "acme".
Proof. split; [exact overtaken_reached |]. vm_compute. done. Qed.

(** ** Witnesses *)

Lemma gateways_hold_what_the_registry_decided_witness :
  read_log (pl_log overtaken) !! "web-01" = Some (mkDecided false "acme" 3).
Proof.
  destruct (tb_agents (pl_tables overtaken) !! "web-01") as [row|] eqn:Hrow; [| vm_compute in Hrow; discriminate].
  destruct (gateways_hold_what_the_registry_decided overtaken "web-01" overtaken_reached) as [_ Htold].
  rewrite (Htold row Hrow).
  - vm_compute in Hrow. injection Hrow as <-. reflexivity.
  - change (unannounced (pl_tables overtaken)) with (unannounced (agents_Announced "web-01" 3 was_revoked.1)).
    assert (unannounced (agents_Announced "web-01" 3 was_revoked.1) = []) as -> by (vm_compute; reflexivity). apply not_elem_of_nil.
Defined.

Definition good_round : list Answers := replicate 500 (mkAnswers true true).

Lemma sweeps_tell_everything_witness :
  let '(t', log') := sweeps 10 [good_round] was_revoked.1 [] in
  unannounced t' = [] ∧ read_log log' !! "web-01" = Some (mkDecided false "acme" 3).
Proof.
  assert (Forall (λ answers, unfailing answers ∧ MaxPageSize ≤ len answers) [good_round]) as Hgood.
  { constructor; [| constructor]. split; [apply Forall_replicate; by split | vm_compute; discriminate]. }
  assert (len (unannounced was_revoked.1) ≤ len [good_round] * page_limit 10) as Hcount by (vm_compute; discriminate).
  pose proof (sweeps_tell_everything 10 [good_round] was_revoked.1 [] [told_revoked; told_active; told_pending] revoked_reached Hgood Hcount) as Hall.
  assert ((λ row, (gr_state row, gr_tenant row, gr_revision row)) <$> tb_agents (sweeps 10 [good_round] was_revoked.1 []).1 !! "web-01"
          = Some (Revoked, "acme", 3)) as Hrow by (vm_compute; reflexivity).
  destruct (sweeps 10 [good_round] was_revoked.1 []) as [t' log']. cbn [fst] in Hrow. destruct Hall as (Hnone & _ & Htold).
  split; [exact Hnone |]. apply fmap_Some in Hrow as (row & Hrow & [= Hstate Hten Hrev]). by rewrite (Htold "web-01" row Hrow), <- Hstate, <- Hten, <- Hrev.
Defined.

Lemma an_agent_holds_one_certificate_witness :
  ∃ c, bound_certificate was_bound.1 "web-01" c ∧ cr_fingerprint c = sample_fingerprint "1".
Proof.
  destruct (tb_agents was_bound.1 !! "web-01") as [row|] eqn:Hrow; [| vm_compute in Hrow; discriminate].
  destruct (an_agent_holds_one_certificate _ "web-01" row bound_reached Hrow) as (Hone & _).
  vm_compute in Hrow. injection Hrow as <-. destruct Hone as (c & Hb & Hfp & _); [vm_compute; discriminate |]. by exists c.
Defined.

Definition first_renewal : AgentMove := renew_it "2" (sample_fingerprint "1") "digest".
Definition was_renewed := agents_Renew "web-01" first_renewal was_bound.1.

Lemma a_renewal_is_its_askers_alone_witness :
  ∃ t'' moved, agents_Renew "web-01" (renew_it "3" (sample_fingerprint "1") "digest") was_renewed.1 = (t'', Ok moved)
    ∧ a_identity moved = Some (sample_identity "3").
Proof.
  assert (tb_certificates was_renewed.1 !! sample_fingerprint "3" = None) as Hfresh by (vm_compute; reflexivity).
  assert (match was_renewed.2 with Ok m => a_revision m | Err _ => 0 end = 3) as Hrev by (vm_compute; reflexivity).
  destruct was_renewed as [t' [moved|e]] eqn:Hrenew; cbn [fst snd] in *; [| discriminate].
  destruct (a_renewal_is_its_askers_alone _ "web-01" first_renewal (sample_identity "2") t' moved bound_reached Hrenew) as [_ Hagain];
    [reflexivity | reflexivity |].
  apply Hagain; [discriminate | reflexivity | reflexivity | | rewrite Hrev; reflexivity].
  split; [reflexivity | vm_compute; reflexivity | exact Hfresh | reflexivity | discriminate | reflexivity | vm_compute; discriminate].
Defined.

(** Whoever else presents the certificate that was replaced is refused. *)
Example a_replaced_certificate_renews_nothing :
  (agents_Renew "web-01" (renew_it "3" (sample_fingerprint "1") "another") was_renewed.1).2 = Err (RegistryRefused ErrCertificateReplaced).
Proof. vm_compute. reflexivity. Qed.

(** ** A caller of the control plane *)

Definition worker : Role := mkRole "worker" "works alerts" [mkPermission Alerts Read; mkPermission Alerts Write].
Definition work_policy : Policy := policy_or (policy_Compile Datatypes.id [worker] [mkPolicyBinding "ana" ["worker"] ["acme"]]).

Definition fresh_sessions : SessionStore := mkSessionStore sample_issuer 8 4096 ∅ ∅.
Definition ana_certificate : string := "the bytes of her certificate".
Definition ana_binding : string := Sum256 ana_certificate.
Definition ana_opens : SessionOp := OpOpen "ana" ana_binding asked_at hour (Some sample_draw).
Definition ana_token : string := (issued_or (Issue sample_issuer "ana" ana_binding asked_at hour (Some sample_draw))).2.
Definition ana_sessions : SessionStore := session_run [ana_opens] fresh_sessions.

#[global] Instance toy_messages : AlertMessages := {|
  read_query _ := None;
  read_transition body :=
    if bool_decide (body = "resolve") then Some (mkTransitionRequest STATE_RESOLVED "patched" 0)
    else if bool_decide (body = "resolve revision 2") then Some (mkTransitionRequest STATE_RESOLVED "patched" 2) else None;
  read_assignment _ := None;
|}.

Definition ana_asks (body : string) : ControlRequest :=
  mkControlRequest [[("ana", ana_certificate)]] ("Bearer " +:+ ana_token) body.
Definition ana_resolves (body : string) (reading writing : AlertTables) :=
  serve_alert ana_sessions work_policy (asked_at + minute) (alert_transition "d-1") (ana_asks body) None reading writing.

(** The alert of the first batch, assigned to another. *)
Definition assign_bob : Move := mkMove "" (Some "bob") "" "bob" (noon + second) 0.
Definition held_by_bob : AlertTables := (alerts_Move "d-1" ["acme"] assign_bob after_first_batch).1.

Definition moved_by (answer : result Refusal AlertAnswer) : option (string * string) :=
  match answer with Ok (AnswerMoved moved) => Some (tr_assignee moved, tr_changed_by moved) | _ => None end.

Example a_caller_resolves_what_nobody_holds :
  moved_by (ana_resolves "resolve" after_first_batch after_first_batch).2.2 = Some ("", "ana")
  ∧ (ana_resolves "resolve" held_by_bob held_by_bob).2.2 = Err (mkRefusal 403 CodeHeldByAnother)
  ∧ (ana_resolves "resolve" after_first_batch held_by_bob).2.2 = Err (mkRefusal 409 CodeAlertMoved).
Proof. vm_compute. done. Qed.

(** A revision named ahead outruns the decision: a caller that may not act on what others
    hold, reading an alert nobody holds and naming the revision after the one read, resolves
    it although it was assigned to another in between, where the same request read after the
    assignment, or naming no revision, is refused. *)
Theorem a_named_revision_outruns_authority :
  may (mkCaller "ana" None (mkGrant "ana" ["worker"] ["acme"] (role_permissions worker)) ana_binding) Alerts Delete = false
  ∧ moved_by (ana_resolves "resolve revision 2" after_first_batch held_by_bob).2.2 = Some ("bob", "ana")
  ∧ (ana_resolves "resolve revision 2" held_by_bob held_by_bob).2.2 = Err (mkRefusal 403 CodeHeldByAnother)
  ∧ (ana_resolves "resolve" after_first_batch held_by_bob).2.2 = Err (mkRefusal 409 CodeAlertMoved).
Proof. vm_compute. done. Qed.

Lemma sessions_are_an_allowlist_witness :
  let s := session_run [ana_opens; OpRevoke (hex_encode sample_draw)] fresh_sessions in
  len (held_by s "ana") ≤ 8 ∧ ∀ now, sessions_Verify ana_token ana_binding now s ≠ Ok (issued_or (Issue sample_issuer "ana" ana_binding asked_at hour (Some sample_draw))).1.
Proof.
  destruct (sessions_are_an_allowlist sample_issuer 8 4096 fresh_sessions [ana_opens; OpRevoke (hex_encode sample_draw)] [])
    as (Hheld & _ & Hspent).
  - reflexivity.
  - apply (bool_decide_unpack _). vm_compute. exact I.
  - split; [exact (Hheld "ana") |]. intros now Hverify.
    destruct (Hspent _ _ _ _ Hverify) as (_ & _ & Hdrawn). apply (not_elem_of_nil (A := string) (hex_encode sample_draw)).
    apply Hdrawn. vm_compute. reflexivity.
Defined.

Lemma alerts_are_worked_within_a_grant_witness :
  ∃ caller, admitted_caller ana_sessions work_policy (asked_at + minute) (Permits Alerts Write) (ana_asks "resolve") caller
    ∧ is_Some (cl_session caller).
Proof.
  assert (moved_by (ana_resolves "resolve" after_first_batch after_first_batch).2.2 = Some ("", "ana")) as Hmoved by (vm_compute; reflexivity).
  destruct (ana_resolves "resolve" after_first_batch after_first_batch) as [l [t answer]] eqn:Hserve. cbn [snd] in Hmoved.
  pose proof (alerts_are_worked_within_a_grant _ _ _ _ _ _ _ _ _ _ _ Hserve) as Hworked.
  destruct answer as [answer|e]; [| discriminate Hmoved]. destruct Hworked as (caller & Hadmitted & Hsession & _). exists caller. split; assumption.
Defined.

Lemma first_batch_reached : alerts_reach after_first_batch first_log.
Proof.
  apply (alerts_recorded no_alerts [] noon first_batch _ (Ok [OutcomeRaised; OutcomeFolded])).
  - constructor.
  - repeat constructor; by apply considered_candidate.
  - vm_compute. reflexivity.
Qed.

Lemma a_move_is_of_what_its_caller_may_act_on_witness :
  ∃ before, alerts_Alert after_first_batch "d-1" ["acme"] = Ok before ∧ (tr_assignee before = "" ∨ tr_assignee before = "ana").
Proof.
  assert (moved_by (ana_resolves "resolve" after_first_batch after_first_batch).2.2 = Some ("", "ana")) as Hmoved by (vm_compute; reflexivity).
  destruct (ana_resolves "resolve" after_first_batch after_first_batch) as [l [t [[| | | | moved]|]]] eqn:Hserve; try discriminate Hmoved.
  destruct (a_move_is_of_what_its_caller_may_act_on _ _ _ _ _ _ after_first_batch first_log after_first_batch _ _ _ first_batch_reached (rtc_refl _ _) Hserve)
    as (caller & read & before & Hadmitted & Hread & Hbefore & _ & _ & Hmay).
  assert (cl_subject caller = "ana") as Hsubject.
  { destruct (ac_certificate _ _ _ _ _ _ Hadmitted) as (raw & Hcert & _). cbn in Hcert. congruence. }
  assert (match policy_Grant work_policy "ana" with
          | Ok g => (g_tenants g, decision_Allowed (grant_Decide g (mkPermission Alerts Delete)))
          | Err _ => ([], true) end = (["acme"], false)) as Hgranted by (vm_compute; reflexivity).
  pose proof (ac_grant _ _ _ _ _ _ Hadmitted) as Hgrant. rewrite Hsubject in Hgrant. rewrite Hgrant in Hgranted.
  injection Hgranted as Htenants Hnot. unfold tenants_of in Hread, Hbefore. rewrite Htenants in Hread, Hbefore. exists before.
  split; [exact Hbefore |]. destruct Hmay as (_ & _ & [Hnone | [Hown | Hall]]).
  - change (revision_named (alert_transition "d-1") (cq_body (ana_asks "resolve"))) with 0.
    destruct (alerts_Alert_within _ _ _ _ Hread) as (row & Hrow & -> & _).
    destruct (revision_read _ _ _ (proj1 (reach_sound _ _ first_batch_reached)) Hrow) as [Hpos Hsame]. cbn [restore_alert tr_revision]. rewrite Hsame. lia.
  - left. exact Hnone.
  - right. rewrite Hown. exact Hsubject.
  - unfold may in Hall. rewrite Hall in Hnot. discriminate Hnot.
Defined.

(** ** An operator and an authority *)

#[local] Existing Instance toy_statuses.

Definition sample_authority : Authority := mkAuthority (mkX509 "agents" 1 session_epoch (asked_at + 1000 * hour) true "ca") "chain".
Definition day : duration := 24 * hour.
Definition sample_template : Template := mkTemplate 42 "web-01" (asked_at - minute) (asked_at + day).

#[global] Instance toy_x509 : X509.
Proof.
  refine {|
    pem_Decode s := if bool_decide (s = "csr") then Some ("CERTIFICATE REQUEST", "csr", "")
                    else if bool_decide (s = "bundle") then Some ("CERTIFICATE", "ca", "") else None;
    pem_Encode der := der;
    ParseCertificateRequest bytes := Some (mkCertificateRequest "web-01" (EcdsaKey P256) ECDSAWithSHA256 bytes);
    CheckSignature _ := true;
    CreateCertificate _ t _ _ :=
      if bool_decide (tp_serial t = tp_serial sample_template) && bool_decide (tp_subject t = tp_subject sample_template)
         && bool_decide (tp_notBefore t = tp_notBefore sample_template) && bool_decide (tp_notAfter t = tp_notAfter sample_template)
      then Some "der" else None;
    ParseCertificate bytes :=
      if bool_decide (bytes = "ca") then Some (au_certificate sample_authority)
      else Some (mkX509 (tp_subject sample_template) (tp_serial sample_template) (Truncate_s (tp_notBefore sample_template))
                   (Truncate_s (tp_notAfter sample_template)) false bytes);
  |}.
  intros s kind bytes rest. repeat case_bool_decide; intros [= <- <- <-]; subst; cbn; lia.
Defined.

#[global] Instance toy_x509_laws : X509Laws.
Proof.
  split. intros random t parent key der signed. cbn [CreateCertificate ParseCertificate toy_x509].
  destruct (_ && _) eqn:Hsame; [| done]. rewrite !andb_true_iff in Hsame. destruct Hsame as (((Hn & Hs) & Hb) & He).
  apply bool_decide_eq_true in Hn, Hs, Hb, He. intros [= <-]. rewrite bool_decide_false by done. intros [= <-].
  cbn [xc_subject xc_serial xc_notBefore xc_notAfter]. rewrite Hn, Hs, Hb, He. done.
Qed.

Definition sample_signing : SigningWith := mkSigning sample_authority day (Some "bundle") (Some 41) "random".

Lemma what_is_signed_can_be_bound_witness :
  ∃ signed, authority_Sign sample_authority "web-01" "csr" day asked_at (Some 41) "random" = Ok signed
    ∧ Bindable "web-01" (iu_identity signed) (asked_at + hour) = Ok tt.
Proof.
  destruct (authority_Sign sample_authority "web-01" "csr" day asked_at (Some 41) "random") as [signed|] eqn:Hsign; [| vm_compute in Hsign; discriminate].
  exists signed. split; [reflexivity |].
  destruct (what_is_signed_can_be_bound sample_authority "web-01" "csr" day asked_at 41 "random" signed Hsign) as (asked & issued & expires & H).
  - split; [lia | reflexivity].
  - vm_compute. discriminate.
  - vm_compute. discriminate.
  - destruct H as (_ & _ & _ & _ & _ & Hexpires & _ & _ & _ & _ & Hbind). apply Hbind.
    vm_compute in Hsign. injection Hsign as <-. vm_compute in Hexpires. injection Hexpires as <-. vm_compute. split; [discriminate | reflexivity].
Defined.

Definition operator : Role := mkRole "operator" "administers agents" [mkPermission Agents Read; mkPermission Agents Write].
Definition operate_policy : Policy := policy_or (policy_Compile Datatypes.id [operator] [mkPolicyBinding "ana" ["operator"] ["acme"]]).

#[global] Instance toy_agent_messages : AgentMessages := {|
  read_registration _ := None;
  read_agent_query _ := None;
  read_agent_transition body := if bool_decide (body = "revoke") then Some (mkAgentTransitionRequest AGENT_REVOKED "stolen" 0) else None;
  read_binding _ := None;
  read_certificate_ask body := if bool_decide (body = "csr") then Some (mkCertificateAsk "csr" "" 0) else None;
  read_renewal body := Some body;
|}.

Definition nothing_observed : Observers := mkObservers None None None.
Definition ana_administers (route : AgentRoute) (body : string) (k : AgentTables * list AdmissionRecord) :=
  serve_agent ana_sessions operate_policy nothing_observed sample_signing route (ana_asks body) asked_at (asked_at + minute)
    (mkAnswers true true) None k.

Definition moved_agent_of (answer : result Refusal AgentAnswer) : option (string * string) :=
  match answer with Ok (ShowsMoved moved) => Some (a_tenant moved, a_changed_by moved) | _ => None end.

Lemma agents_are_administered_within_a_grant_witness :
  ∃ caller, admitted_caller ana_sessions operate_policy asked_at (Permits Agents Write) (ana_asks "revoke") caller ∧ "acme" ∈ tenants_of caller.
Proof.
  assert (moved_agent_of (ana_administers (agent_transition "web-01") "revoke" (was_bound.1, [])).2.2 = Some ("acme", "ana")) as Hmoved by (vm_compute; reflexivity).
  destruct (ana_administers (agent_transition "web-01") "revoke" (was_bound.1, [])) as [l [k' [[| | | moved |]|]]] eqn:Hserve; try discriminate Hmoved.
  destruct (agents_are_administered_within_a_grant _ _ _ _ _ _ _ _ _ _ _ _ _ _ Hserve) as (caller & Hadmitted & _ & Htenant & _).
  exists caller. split; [exact Hadmitted |]. cbn in Hmoved. injection Hmoved as Ht _. rewrite <- Ht. exact Htenant.
Defined.

(** The agent renews under the certificate its connection verified. *)
Definition web_renews : ControlRequest := mkControlRequest [[("web-01", "certificate")]] "" "csr".

Lemma the_routes_are_the_plane_witness :
  ∃ held, let k := (ana_administers (agent_certificate_issue "web-01") "csr" (was_bound.1, [])).2.1 in
    plane_reach (mkPlane k.1 k.2 held) ∧ len (pl_log (mkPlane k.1 k.2 held)) = 0.
Proof.
  destruct (the_routes_are_the_plane ana_sessions operate_policy nothing_observed sample_signing (agent_certificate_issue "web-01")
    (ana_asks "csr") asked_at (asked_at + minute) (mkAnswers true true) None (was_bound.1, []) _ bound_reached) as [(held & Hreach) _].
  exists held. cbv zeta. split; [exact Hreach | vm_compute; reflexivity].
Defined.

Example an_operator_revokes_and_issues :
  (pl_log ∘ (λ k, mkPlane k.1 k.2 []) <$> Some (ana_administers (agent_transition "web-01") "revoke" (was_bound.1, [])).2.1)
    = Some [mkAdmission "web-01" "acme" AGENT_REVOKED 3 asked_at]
  ∧ match (ana_administers (agent_certificate_issue "web-01") "csr" (was_bound.1, [])).2.2 with
    | Ok (ShowsIssued issued) => id_subject (ic_identity issued) = "web-01" ∧ id_serial (ic_identity issued) = "2a"
    | _ => False
    end.
Proof. vm_compute. done. Qed.
